(* ===== verification/_CoqProject ===== *)
-Q . S2P
Prelude.v
RustStd.v
Extern.v
Bencode.v
BencodeTheorems.v
BencodeErase.v
BencodeAccess.v
Convert.v
Sha.v
Node.v
RoutingTable.v
RoutingTheorems.v
RoutingIter.v
RoutingProperties.v
Token.v
Storage.v
Transaction.v
Security.v
DhtMessage.v
DhtMessageProps.v
Worker.v
Lookup.v
LookupProps.v
Bootstrap.v
WorkerProps.v
DhtHandler.v
DhtHandlerProps.v
Handshake.v
Framed.v
Handler.v
Io.v
PeerStandard.v
PeerExtended.v
PeerExtendedProps.v
PeerWire.v
PeerWireProps.v
Path.v
Metainfo.v
Float.v
Hasher.v
HasherProps.v
MetaBuild.v
MetaProps.v
MetaCreate.v
Disk.v
DiskFs.v
DiskProps.v
DiskCheck.v
DiskAdd.v
DiskDownload.v
DiskExamples.v
DiskManager.v
DiskManagerProps.v
Hex.v
InfoHash.v
PeerId.v
Magnet.v
Reveal.v
RevealProps.v
UtModule.v
UtProps.v
UtLive.v
Uber.v
UberProps.v
PeerManager.v
PeerManagerProps.v
Contiguous.v
Handshaker.v
HandshakerProps.v
DhtNode.v
SimpleTorrent.v
SimpleTorrentProps.v
GetMetadata.v
GetMetadataProps.v
PackageExamples.v
