(* ===== verification/Prelude.v ===== *)
(** * A verification library for the Torrust BitTorrent infrastructure

    The program is a Rust workspace of packages under src/packages: bencode
    (the data format), util (hashes, addresses, buffers, id generators), dht (a
    mainline DHT node), handshake, peer (the wire protocol and the peer
    manager), metainfo (torrent files), disk (blocks and pieces on a file
    system), select (what to reveal and to discover), magnet, info-hash and
    peer-id.  Every function of them that computes or changes state is a
    function here, under the name of the source where it is free.

    ** How the code is modelled

    - Integers are [Z] (or [nat] for positions and lengths) with their width
      written out: [as_u8], [is_u32], ...  Arithmetic that overflows, an index
      out of range and a failed [unwrap] or assertion give [Panic], in the
      checked build the tests use; [Result] is [Ok] or [Err].
    - A method on [&mut self] takes the state and returns the new one, also
      with an error.  A writer or a file system is a state of its own
      ([Io.wr], [Disk.st]), so what was written before an error stays written.
      Structures keep the fields of the source.
    - Threads, tasks and channels are state machines with one step per access
      to a shared object; theorems quantify over every interleaving.
    - The clock, random draws and what a socket or a timed operation does are
      arguments.  Third-party crates and the operating system are classes with
      their documented behaviour as laws ([Extern] and the head of the file
      that uses them); small instances show that the laws can hold.  The
      standard library is defined in [RustStd], [Io], [Convert], [Path], [Hex]
      and [Float]; the iteration order of a hash map is unspecified and a
      parameter ([RustStd.HashOrder]).
    - Log output, locks with one owner and the text of error messages are left
      out.

    ** Files

    - Shared.  [Prelude]: outcomes, machine integers, slices, tactics and hint
      bases.  [RustStd]: byte order, [BTreeMap], sorting, decimal printing and
      parsing, UTF-8, polls.  [Extern]: third-party interfaces.  [Io]: writers.
      [Path]: Unix paths.  [Float]: binary64.  [Hex]: digits.
    - packages/bencode.  [Bencode]: decoder (reference/decode.rs), encoder
      (mutable/encode.rs), values, access and conversion traits.
      [BencodeTheorems]: the decoder ends without a panic on every input
      ([decode_total]), returns what it consumed within its recursion limit
      ([decode_sound]), inverts the encoder ([decode_encode_roundtrip]) and
      with key order enforced accepts one form per value
      ([decode_strict_canonical]) but for integers with a plus sign.
      [BencodeErase]: readers give the same on decoded and on built values.
      [BencodeAccess]: mutable access, list iterator ([dict_edit_wf]).
    - packages/util.  [Convert] (convert.rs, net.rs), [Sha] (sha, bt.rs,
      error.rs), [Contiguous] (contiguous.rs: a buffer of buffers holds what
      was written, cut in chunks).  The generators of trans are in
      [Transaction].
    - packages/dht.  Routing: [Node] (routing/node.rs, bucket.rs),
      [RoutingTable] (routing/table.rs), with [RoutingTheorems] (the table as a
      list of bucket contents), [RoutingIter] (the closest-node iterator) and
      [RoutingProperties]: the invariant over every history
      ([routing_table_invariant]), what an insertion does
      ([add_node_outcome]), that the iterator hands out every good node, the
      closest first on each side of the target's bucket
      ([closest_nodes_complete]).  [Token] (token.rs), [Storage] (storage.rs,
      a refinement of a bounded queue: [storage_refines_queue],
      [announced_contact_lifetime]), [Transaction] (transaction.rs:
      [transaction_ids_unique]),
      [Security] (security.rs).  Messages: [DhtMessage] (message) and
      [DhtMessageProps] ([dht_message_roundtrip]).  Worker: [Worker] (timers,
      sockets, refresh.rs), [Lookup] (lookup.rs), [Bootstrap] (bootstrap.rs),
      [DhtHandler] (handler.rs), [DhtNode] (builder.rs, messenger.rs), with
      [LookupProps] ([lookup_never_completes]), [WorkerProps]
      ([bootstrap_progress]) and [DhtHandlerProps] ([announce_needs_token],
      [request_answered], [endgame_never_scheduled]).
    - packages/handshake.  [Handshake] (message, bittorrent/message.rs:
      [handshake_message_roundtrip]), [Framed] (bittorrent/framed.rs:
      [framed_reads_any_chunking]), [Handler] (filter, handshake/handler),
      [Handshaker] (handshake, transport.rs) and [HandshakerProps]: what is
      completed was asked for or accepted ([handshakes_sound]), and what ends
      the loops ([bad_answer_stops_handshakes]).
    - packages/peer.  [PeerStandard] (message/standard.rs), [PeerExtended]
      (bits_ext, prot_ext/ut_metadata.rs) with [PeerExtendedProps]
      ([extended_message_roundtrip]), [PeerWire] (message/mod.rs, protocol,
      codec.rs) with [PeerWireProps] ([codec_splits_frames],
      [wire_decodes_everything_as_keep_alive]), [PeerManager] (manager) with
      [PeerManagerProps]: the map of peers and their tasks
      ([peers_accounted]), order of messages ([received_in_order]), and a
      closed connection that is never reported ([silent_disconnect]).
    - packages/metainfo.  [Metainfo] (parse.rs, iter.rs, accessor.rs,
      metainfo.rs), [Hasher] (builder/buffer.rs, worker.rs) with [HasherProps]
      ([hash_workers_correct]: every schedule computes what a sequential
      reference computes, every fair one ends), [MetaBuild] (builder/mod.rs)
      with [MetaProps] ([info_bytes_roundtrip], [piece_length_bounds]) and
      [MetaCreate]: a torrent file that is built from files is read back as
      what they are, but for the private flag, which is lost ([torrent_created]).
    - packages/disk.  [Disk] (memory, error.rs, tasks), [DiskFs] (fs:
      the cache of handles over any file system, errors included,
      [cache_refines]), [DiskProps] ([block_write_read]), [DiskCheck]
      ([process_block_reports]), [DiskAdd] ([add_torrent_reports]),
      [DiskDownload] ([torrent_received]: blocks in any order and of any sizes
      complete the torrent), [DiskExamples], [DiskManager] (manager) with [DiskManagerProps]
      ([capacity_account], [failed_requests_block]).
    - packages/select.  [Reveal] (revelation) with [RevealProps]
      ([reveal_honest]), [UtModule] (discovery/ut_metadata.rs) with [UtProps]
      ([metadata_account], [unverified_delivered]) and [UtLive]: peers that
      answer bring a download to its end ([metadata_completes]); [Uber]
      (extended, uber) with [UberProps] ([extended_handshakes],
      [uber_honest_download]).
    - examples/simple_torrent.  [SimpleTorrent]: the tasks of a client that
      downloads from one peer, over the managers above.  [SimpleTorrentProps]:
      which requests it sends ([requests_cover_torrent],
      [requests_sent_once]), and that its tasks, handed the parsed messages of an
      honest peer, download the torrent, while with what the codec makes of the
      bytes of a peer they never ask for a block ([tasks_download]).
    - examples/get_metadata.  [GetMetadata]: the tasks and the main loop of a
      program that gets the metadata of an info hash.  [GetMetadataProps]: what
      it ends with is what it was asked for ([metainfo_asked_for]); but peers
      are sent only keep-alives and their messages are taken for such, so it
      does not end ([peers_sent_keep_alives], [metadata_never_obtained]).
    - [PackageExamples]: disk/examples/add_torrent.rs,
      handshake/examples/handshake_torrent.rs and
      metainfo/examples/create_torrent.rs ([add_torrent_counts],
      [handshake_asked], [created_overview]).
    - [InfoHash] (packages/info-hash: [info_hash_roundtrip]), [PeerId]
      (packages/peer-id), [Magnet] (packages/magnet).

    ** Interaction of the parts

    The DHT tables and messages use the hashes and addresses of util; the
    handshake carries two hashes and the extension bits that allow a peer
    connection to exchange extended messages.  Those, the KRPC messages and
    torrent files are bencode, so their round trips build on
    [BencodeTheorems] through [BencodeErase].  The disk tasks are proved
    against the class [FsLaws], the file systems with the states from which no
    I/O error occurs, which files in memory, a device that can break and the cache
    of handles satisfy; what the tasks answer when an operation fails
    ([execute_answers]) and the cache itself ([cache_refines]) are proved for every
    file system; the codec against [LengthPrefixed]; the joined
    selection module against [Uber.Discovery] and [UberProps.discovery_keeps],
    which the metadata module satisfies, with honest peers for one client and
    without extended messages for the other; the client's download runs the
    disk tasks and the selection together on parsed wire messages; a protocol is nested in another
    through the classes [PeerProtocol] and [NestedPeerProtocol], as the traits
    of the source are.  The handshaker's theorems use those of [Handler] for
    the two sides of a handshake.

    ** Fuel

    Recursion that is not structural runs on fuel, and running out is a
    [Panic], which the theorems exclude.  Decoding spends at most two units per
    byte ([decode_budget]); a bucket split adds a bucket to a table of at most
    160 ([MAX_BUCKETS]); the closest-node iterator visits each slot once
    ([slots] plus one); an id generator refills a block once per call; a bit
    field has eight bits per byte ([bit_budget]); a poll loop is bounded by the
    length of the socket's plan; a bootstrap step advances its bucket index; the
    requests of a torrent take one turn per piece.

    ** Not modelled

    The interactive example dht/examples/debug.rs, benchmarks, tests and test support, module declarations
    and re-exports; the executor and the operating system's sockets, which are
    the steps and arguments of the state machines; command lines; [Debug] and
    [Display] output that only reaches a log. *)

From stdpp Require Import base list numbers gmap sorting strings.
#[export] Set Default Goal Selector "!".

(** * Outcomes of Rust functions

    [Ok] and [Err] are Rust's [Result]; [Panic] is an unwinding panic or, for
    loops and recursion run on fuel, [OutOfFuel].  A theorem that says a
    function is total excludes every [Panic]. *)

Inductive fault :=
  | OutOfFuel
  | IndexOutOfBounds
  | ArithOverflow
  | UnwrapNone
  | AssertFailed.

Inductive res (E A : Type) : Type :=
  | Ok (a : A)
  | Err (e : E)
  | Panic (f : fault).
Arguments Ok {E A} a.
Arguments Err {E A} e.
Arguments Panic {E A} f.

#[export] Instance res_ret {E} : MRet (res E) := @Ok E.
#[export] Instance res_bind {E} : MBind (res E) := fun A B k m =>
  match m with Ok a => k a | Err e => Err e | Panic f => Panic f end.
#[export] Instance res_fmap {E} : FMap (res E) := fun A B k m =>
  match m with Ok a => Ok (k a) | Err e => Err e | Panic f => Panic f end.

Definition res_map_err {E E' A} (k : E → E') (m : res E A) : res E' A :=
  match m with Ok a => Ok a | Err e => Err (k e) | Panic f => Panic f end.

Definition ok_or {E A} (e : E) (o : option A) : res E A :=
  match o with Some a => Ok a | None => Err e end.

Definition unwrap {E A} (o : option A) : res E A :=
  match o with Some a => Ok a | None => Panic UnwrapNone end.

Definition no_panic {E A} (m : res E A) : Prop := ∀ f, m ≠ Panic f.

(** * Bytes and machine integers *)

(** A [u8] is an integer in [0, 256); a slice or a [Vec<u8>] is a list. *)
Abbreviation byte := Z (only parsing).
Abbreviation bytes := (list Z) (only parsing).

Definition u8_max : Z := 255.
Definition u16_max : Z := 65535.
Definition u32_max : Z := 4294967295.
Definition u64_max : Z := 18446744073709551615.
Definition i64_max : Z := 9223372036854775807.
Definition i64_min : Z := -9223372036854775808.

(** [x as u8], [x as u16], ... truncate. *)
Definition as_u8 (x : Z) : Z := x `mod` 256.
Definition as_u16 (x : Z) : Z := x `mod` 65536.
Definition as_u32 (x : Z) : Z := x `mod` 4294967296.
Definition as_u64 (x : Z) : Z := x `mod` 18446744073709551616.

Definition is_u8 (x : Z) : Prop := (0 ≤ x < 256)%Z.
Definition is_u16 (x : Z) : Prop := (0 ≤ x < 65536)%Z.
Definition is_u32 (x : Z) : Prop := (0 ≤ x < 4294967296)%Z.
Definition is_u64 (x : Z) : Prop := (0 ≤ x < 18446744073709551616)%Z.
Definition is_i64 (x : Z) : Prop := (i64_min ≤ x ≤ i64_max)%Z.

Definition are_u8 (l : bytes) : Prop := Forall is_u8 l.

#[export] Instance is_u8_dec x : Decision (is_u8 x).
Proof. unfold is_u8. apply _. Defined.
#[export] Instance is_u16_dec x : Decision (is_u16 x).
Proof. unfold is_u16. apply _. Defined.
#[export] Instance is_u32_dec x : Decision (is_u32 x).
Proof. unfold is_u32. apply _. Defined.
#[export] Instance is_u64_dec x : Decision (is_u64 x).
Proof. unfold is_u64. apply _. Defined.
#[export] Instance is_i64_dec x : Decision (is_i64 x).
Proof. unfold is_i64. apply _. Defined.
#[export] Instance are_u8_dec l : Decision (are_u8 l).
Proof. unfold are_u8. apply _. Defined.

(** The bytes of an ASCII literal, [b"..."] in the source. *)
Definition bstr (s : string) : bytes :=
  (λ a, Z.of_N (Ascii.N_of_ascii a)) <$> String.list_ascii_of_string s.

(** Rust's [&bytes[a..b]] for in-range bounds. *)
Definition slice (l : bytes) (i j : nat) : bytes := take (j - i) (drop i l).

(** * Tactics *)

(** Split every boolean comparison of the context and the goal into its
    arithmetic meaning. *)
Ltac bool_arith :=
  repeat match goal with
  | H : andb _ _ = true |- _ => apply andb_prop in H as [? ?]
  | H : orb _ _ = false |- _ => apply orb_false_elim in H as [? ?]
  | H : negb _ = true |- _ => apply negb_true_iff in H
  | H : negb _ = false |- _ => apply negb_false_iff in H
  | H : Z.leb _ _ = true |- _ => apply Z.leb_le in H
  | H : Z.leb _ _ = false |- _ => apply Z.leb_gt in H
  | H : Z.ltb _ _ = true |- _ => apply Z.ltb_lt in H
  | H : Z.ltb _ _ = false |- _ => apply Z.ltb_ge in H
  | H : Z.eqb _ _ = true |- _ => apply Z.eqb_eq in H
  | H : Z.eqb _ _ = false |- _ => apply Z.eqb_neq in H
  | H : Nat.leb _ _ = true |- _ => apply Nat.leb_le in H
  | H : Nat.leb _ _ = false |- _ => apply Nat.leb_gt in H
  | H : Nat.ltb _ _ = true |- _ => apply Nat.ltb_lt in H
  | H : Nat.ltb _ _ = false |- _ => apply Nat.ltb_ge in H
  | H : Nat.eqb _ _ = true |- _ => apply Nat.eqb_eq in H
  | H : Nat.eqb _ _ = false |- _ => apply Nat.eqb_neq in H
  | H : bool_decide _ = true |- _ => apply bool_decide_eq_true in H
  | H : bool_decide _ = false |- _ => apply bool_decide_eq_false in H
  end.

(** Invert a successful bind: the first computation of [H] returned [p]. *)
Tactic Notation "bind_inv" hyp(H) "as" simple_intropattern(p) "eqn" ident(E) :=
  match type of H with
  | mbind _ ?m = Ok _ => destruct m as [p| |] eqn:E; simpl in H; [|discriminate H|discriminate H]
  end.

(** * Lists, slices and integers *)

Section Slices.
Context {A : Type}.
Implicit Types l k : list A.

Lemma drop_app_len l k n : n = length l → drop n (l ++ k) = k.
Proof. intros ->. apply drop_app_length. Qed.

Lemma take_app_len l k n : n = length l → take n (l ++ k) = l.
Proof. intros ->. apply take_app_length. Qed.

Lemma lookup_app_len l k n x : n = length l → (l ++ x :: k) !! n = Some x.
Proof. intros ->. by rewrite list_lookup_middle. Qed.
End Slices.

Lemma slice_app (p m s : bytes) i j :
  i = length p → j = length p + length m → slice (p ++ m ++ s) i j = m.
Proof.
  intros -> ->. unfold slice. rewrite drop_app_length.
  replace (length p + length m - length p) with (length m) by lia.
  apply take_app_length.
Qed.

Lemma length_slice (l : bytes) i j :
  i ≤ j → j ≤ length l → length (slice l i j) = j - i.
Proof. intros. unfold slice. rewrite length_take, length_drop. lia. Qed.

Lemma slice_all (l : bytes) : slice l 0 (length l) = l.
Proof. unfold slice. rewrite Nat.sub_0_r. apply firstn_all. Qed.

Lemma slice_nil (l : bytes) i : slice l i i = [].
Proof. unfold slice. by rewrite Nat.sub_diag. Qed.

Lemma slice_slice_app (l : bytes) i j k :
  i ≤ j → j ≤ k → slice l i j ++ slice l j k = slice l i k.
Proof.
  intros Hij Hjk. unfold slice.
  replace (k - i) with ((j - i) + (k - j)) by lia.
  rewrite (drop_drop l j) || idtac.
  replace (drop j l) with (drop (j - i) (drop i l)) by (rewrite drop_drop; f_equal; lia).
  by rewrite take_take_drop.
Qed.

Lemma slice_lookup (l : bytes) i x : l !! i = Some x → slice l i (S i) = [x].
Proof.
  intros H. unfold slice. replace (S i - i) with 1 by lia.
  by rewrite (drop_S l x i H).
Qed.

Lemma length_bstr s : length (bstr s) = String.length s.
Proof. unfold bstr. rewrite length_fmap. induction s; simpl; auto. Qed.

Lemma are_u8_app l k : are_u8 (l ++ k) ↔ are_u8 l ∧ are_u8 k.
Proof. apply Forall_app. Qed.

Lemma are_u8_cons x k : are_u8 (x :: k) ↔ is_u8 x ∧ are_u8 k.
Proof. apply Forall_cons. Qed.

Lemma as_u8_range x : is_u8 (as_u8 x).
Proof. unfold is_u8, as_u8. apply Z.mod_pos_bound. lia. Qed.

Lemma as_u8_id x : is_u8 x → as_u8 x = x.
Proof. apply Z.mod_small. Qed.

Create HintDb rust discriminated.
Create Rewrite HintDb rust_len.
#[export] Hint Resolve as_u8_range as_u8_id : rust.
#[export] Hint Rewrite @length_app @length_fmap @length_take @length_drop length_bstr : rust_len.

(** [iter().position(p)] *)
Fixpoint iter_position {A} (p : A → bool) (l : list A) : option nat :=
  match l with
  | [] => None
  | x :: l' => if p x then Some 0 else S <$> iter_position p l'
  end.

Lemma iter_position_Some {A} (p : A → bool) l i :
  iter_position p l = Some i → ∃ x, l !! i = Some x ∧ p x = true ∧ ∀ j y, j < i → l !! j = Some y → p y = false.
Proof.
  revert i. induction l as [|x l IH]; intros i; simpl; [done|]. destruct (p x) eqn:Ep.
  - intros [= <-]. exists x. split; [done|]. split; [done|]. lia.
  - intros (j & Hj & ->)%fmap_Some. destruct (IH j Hj) as (y & Hy & Hp & Hlt).
    exists y. split; [done|]. split; [done|]. intros [|k] z Hk Hz; simpl in Hz; [congruence|].
    apply (Hlt k); [lia|done].
Qed.

Lemma iter_position_None {A} (p : A → bool) l : iter_position p l = None ↔ Forall (λ x, p x = false) l.
Proof.
  induction l as [|x l IH]; simpl; [by split|]. destruct (p x) eqn:Ep.
  - split; [done|]. intros [? ?]%Forall_cons. congruence.
  - rewrite fmap_None, IH, Forall_cons. naive_solver.
Qed.

Lemma bind_Ok {E A B} (a : A) (k : A → res E B) : Ok a ≫= k = k a.
Proof. reflexivity. Qed.

Lemma no_panic_bind {E A B} (m : res E A) (k : A → res E B) :
  no_panic m → (∀ a, m = Ok a → no_panic (k a)) → no_panic (m ≫= k).
Proof. unfold no_panic. intros Hm Hk f. destruct m as [a|e|g]; simpl; [by apply Hk|done|by destruct (Hm g)]. Qed.

Lemma no_panic_Ok {E A} (a : A) : no_panic (@Ok E A a).
Proof. by intros f. Qed.
Lemma no_panic_Err {E A} (e : E) : no_panic (@Err E A e).
Proof. by intros f. Qed.
#[export] Hint Resolve no_panic_Ok no_panic_Err : rust.
