(* ===== verification/RustStd.v ===== *)
(** The parts of Rust's standard library the program relies on: the
    lexicographic order of byte slices, [BTreeMap] keyed by byte strings,
    [slice::sort_by], [slice::binary_search_by], decimal printing of integers,
    [str::parse::<i64>], [str::from_utf8] and the iteration order of a
    [HashMap]. *)

From stdpp Require Import base numbers sorting sets gmap list.
From S2P Require Import Prelude.

(** [Result::expect], [Result::unwrap] *)
Definition expect {E A} (r : res E A) : res Empty_set A :=
  match r with Ok a => Ok a | Err _ => Panic UnwrapNone | Panic f => Panic f end.

(** * [Ord for [u8]]: lexicographic comparison *)

Fixpoint bytes_cmp (x y : bytes) : comparison :=
  match x, y with
  | [], [] => Eq
  | [], _ :: _ => Lt
  | _ :: _, [] => Gt
  | a :: x', c :: y' =>
      match Z.compare a c with Eq => bytes_cmp x' y' | r => r end
  end.

Definition bytes_ltb (x y : bytes) : bool :=
  match bytes_cmp x y with Lt => true | _ => false end.

Definition bytes_lt (x y : bytes) : Prop := bytes_cmp x y = Lt.

(** * [BTreeMap<[u8], V>] as an association list in key order *)

Section BTreeMap.
Context {V : Type}.
Implicit Types m : list (bytes * V).

Fixpoint bt_lookup (k : bytes) m : option V :=
  match m with
  | [] => None
  | (k', v) :: m' =>
      match bytes_cmp k k' with Eq => Some v | Lt => None | Gt => bt_lookup k m' end
  end.

Fixpoint bt_insert (k : bytes) (v : V) m : list (bytes * V) :=
  match m with
  | [] => [(k, v)]
  | (k', v') :: m' =>
      match bytes_cmp k k' with
      | Eq => (k', v) :: m'
      | Lt => (k, v) :: m
      | Gt => (k', v') :: bt_insert k v m'
      end
  end.

Fixpoint bt_remove (k : bytes) m : list (bytes * V) :=
  match m with
  | [] => []
  | (k', v') :: m' =>
      match bytes_cmp k k' with
      | Eq => m'
      | Lt => m
      | Gt => (k', v') :: bt_remove k m'
      end
  end.

Definition bt_last_key m : option bytes := fst <$> last m.

Definition bt_sorted m : Prop := StronglySorted bytes_lt (fst <$> m).
End BTreeMap.

(** * [slice::sort_by]: a stable sort *)

Section SortBy.
Context {A : Type} (cmp : A → A → comparison).

Fixpoint sort_by_insert (x : A) (l : list A) : list A :=
  match l with
  | [] => [x]
  | y :: l' => match cmp x y with Gt => y :: sort_by_insert x l' | _ => x :: l end
  end.

Definition sort_by (l : list A) : list A := foldr sort_by_insert [] l.
End SortBy.

(** * Integers as decimal strings *)

(** Digits of a non-negative integer, most significant first; [fuel] bounds
    their number. *)
Fixpoint digits (fuel : nat) (n : Z) : bytes :=
  match fuel with
  | O => []
  | S f => if (n <? 10)%Z then [(48 + n)%Z] else digits f (n `div` 10) ++ [(48 + n `mod` 10)%Z]
  end.

(** [usize::to_string]; [i64::to_string].  A [u64] has at most 20 digits. *)
Definition dec_fuel : nat := 20.
Definition usize_to_string (n : nat) : bytes := digits dec_fuel (Z.of_nat n).
Definition i64_to_string (n : Z) : bytes :=
  if (n <? 0)%Z then 45%Z :: digits dec_fuel (- n) else digits dec_fuel n.

Definition digit_val (c : byte) : option Z :=
  if (48 <=? c)%Z && (c <=? 57)%Z then Some (c - 48)%Z else None.

(** The accumulation loop of [i64::from_str_radix]: every step multiplies by
    ten and adds (or, for a negative number, subtracts) a digit, and fails on
    a byte that is not a digit or on overflow. *)
Fixpoint parse_digits (neg : bool) (acc : Z) (l : bytes) : option Z :=
  match l with
  | [] => Some acc
  | c :: l' =>
      d ← digit_val c;
      let acc' := (if neg then acc * 10 - d else acc * 10 + d)%Z in
      if (i64_min <=? acc')%Z && (acc' <=? i64_max)%Z then parse_digits neg acc' l' else None
  end.

(** [str::parse::<i64>]: an optional sign and at least one digit. *)
Definition parse_i64 (l : bytes) : option Z :=
  match l with
  | [] => None
  | c :: l' =>
      if (c =? 43)%Z || (c =? 45)%Z then
        match l' with [] => None | _ => parse_digits (c =? 45)%Z 0 l' end
      else parse_digits false 0 l
  end.

(** * [str::from_utf8] *)

Definition in_range (lo hi c : Z) : bool := (lo <=? c)%Z && (c <=? hi)%Z.

Fixpoint utf8_valid (l : bytes) : bool :=
  match l with
  | [] => true
  | a :: l1 =>
      if in_range 0 127 a then utf8_valid l1 else
      match l1 with
      | [] => false
      | c :: l2 =>
          if in_range 194 223 a then in_range 128 191 c && utf8_valid l2 else
          match l2 with
          | [] => false
          | d :: l3 =>
              if in_range 224 239 a then
                (if (a =? 224)%Z then in_range 160 191 c
                 else if (a =? 237)%Z then in_range 128 159 c
                 else in_range 128 191 c)
                && in_range 128 191 d && utf8_valid l3
              else
              match l3 with
              | [] => false
              | e :: l4 =>
                  in_range 240 244 a
                  && (if (a =? 240)%Z then in_range 144 191 c
                      else if (a =? 244)%Z then in_range 128 143 c
                      else in_range 128 191 c)
                  && in_range 128 191 d && in_range 128 191 e && utf8_valid l4
              end
          end
      end
  end.

Definition str_from_utf8 (l : bytes) : option bytes :=
  if utf8_valid l then Some l else None.

(** * [HashMap] and [HashSet] iteration: every entry once, in an unspecified order

    A [HashSet] is a map to the unit type. *)

Class HashOrder := {
  hash_iter {K V} `{Countable K} : gmap K V → list (K * V);
  hash_iter_perm {K V} `{Countable K} (m : gmap K V) : hash_iter m ≡ₚ map_to_list m
}.

Definition hash_order_lists : HashOrder :=
  {| hash_iter K V _ _ m := map_to_list m; hash_iter_perm K V _ _ m := reflexivity _ |}.

(** * [std::task::Poll] *)

Inductive poll (A : Type) := Ready (a : A) | Pending.
Arguments Ready {A} a.
Arguments Pending {A}.

(** * [Vec::swap_remove]: the last element takes the removed one's place *)

Definition swap_remove {A} (l : list A) (index : nat) : list A :=
  match last l with
  | Some x => take (length l - 1) (<[index := x]> l)
  | None => l
  end.

Lemma swap_remove_perm {A} (l : list A) i f : l !! i = Some f → f :: swap_remove l i ≡ₚ l.
Proof.
  intros Hi. unfold swap_remove. destruct l as [|x l _] using rev_ind; [done|]. rewrite last_snoc, length_app. simpl.
  replace (length l + 1 - 1) with (length l) by lia. apply lookup_app_Some in Hi as [Hi|[Hge Hi]].
  - rewrite insert_app_l by (by eapply lookup_lt_Some). rewrite take_app_length' by (by rewrite length_insert).
    apply list_elem_of_split_length in Hi as (l1 & l2 & -> & ->). rewrite insert_app_r_alt, Nat.sub_diag by lia. simpl.
    rewrite (Permutation_app_comm _ [x]). simpl. rewrite <- !Permutation_middle. apply Permutation_swap.
  - apply list_lookup_singleton_Some in Hi as [? ->]. assert (i = length l) as -> by lia.
    rewrite insert_app_r_alt by lia. rewrite take_app_length. by rewrite Permutation_app_comm.
Qed.

(** * [slice::chunks] for a positive size: every chunk takes an element *)

Fixpoint chunks_fuel {A} (fuel n : nat) (l : list A) : list (list A) :=
  match fuel with
  | O => []
  | S fuel => match l with [] => [] | _ => take n l :: chunks_fuel fuel n (drop n l) end
  end.

Definition chunks {A} (n : nat) (l : list A) : list (list A) := chunks_fuel (length l) n l.

(** * [slice::binary_search_by]

    The standard library's loop: [base] and [size] delimit the part that is
    left, which halves at every step; the result is the index of a match or the
    place to insert at. *)

Inductive search_result := Found (i : nat) | InsertAt (i : nat).

Fixpoint search_base {A} (f : A → comparison) (fuel : nat) (l : list A) (base size : nat) : nat :=
  match fuel with
  | O => base
  | S fuel =>
      if size <=? 1 then base else
      let half := size / 2 in
      let mid := base + half in
      let base' := match f <$> (l !! mid) with Some Gt => base | _ => mid end in
      search_base f fuel l base' (size - half)
  end.

Definition binary_search_by {A} (f : A → comparison) (l : list A) : search_result :=
  let base := search_base f (length l) l 0 (length l) in
  match f <$> (l !! base) with
  | None => InsertAt 0
  | Some Eq => Found base
  | Some Lt => InsertAt (base + 1)
  | Some Gt => InsertAt base
  end.

(** [Vec::insert] panics past the end. *)
Definition vec_insert {E A} (l : list A) (i : nat) (x : A) : res E (list A) :=
  if i <=? length l then Ok (take i l ++ x :: drop i l) else Panic IndexOutOfBounds.

(** * Lemmas: the order of byte strings *)

Lemma bytes_cmp_refl x : bytes_cmp x x = Eq.
Proof. induction x as [|a x IH]; simpl; [done|]. by rewrite Z.compare_refl. Qed.

Lemma bytes_cmp_eq x y : bytes_cmp x y = Eq ↔ x = y.
Proof.
  split; [|intros ->; apply bytes_cmp_refl].
  revert y. induction x as [|a x IH]; intros [|c y]; simpl; try done.
  destruct (Z.compare_spec a c); try done. intros H1. f_equal; auto.
Qed.

Lemma bytes_cmp_opp x y : bytes_cmp y x = CompOpp (bytes_cmp x y).
Proof.
  revert y. induction x as [|a x IH]; intros [|c y]; simpl; try done.
  rewrite (Z.compare_antisym a c). destruct (Z.compare a c); simpl; auto.
Qed.

Lemma bytes_lt_trans : Transitive bytes_lt.
Proof.
  unfold bytes_lt. intros x. induction x as [|a x IH]; intros [|c y] [|d z]; simpl; try done.
  destruct (Z.compare_spec a c), (Z.compare_spec c d), (Z.compare_spec a d); try done; try lia.
  apply IH.
Qed.

Lemma bytes_lt_irrefl x : ¬ bytes_lt x x.
Proof. unfold bytes_lt. by rewrite bytes_cmp_refl. Qed.

Lemma bytes_ltb_lt x y : bytes_ltb x y = true ↔ bytes_lt x y.
Proof. unfold bytes_ltb, bytes_lt. by destruct (bytes_cmp x y). Qed.

Lemma bytes_not_lt x y : bytes_ltb x y = false → x ≠ y → bytes_lt y x.
Proof.
  unfold bytes_ltb, bytes_lt. rewrite (bytes_cmp_opp x y).
  destruct (bytes_cmp x y) eqn:E; try done. by apply bytes_cmp_eq in E.
Qed.

(** Case analysis on a comparison, as Rust's [match a.cmp(b)]. *)
Inductive bytes_cmp_view (x y : bytes) : comparison → Prop :=
  | cmp_view_eq : x = y → bytes_cmp_view x y Eq
  | cmp_view_lt : bytes_lt x y → bytes_cmp_view x y Lt
  | cmp_view_gt : bytes_lt y x → bytes_cmp_view x y Gt.

Lemma bytes_cmpP x y : bytes_cmp_view x y (bytes_cmp x y).
Proof.
  destruct (bytes_cmp x y) eqn:E; constructor.
  - by apply bytes_cmp_eq.
  - done.
  - unfold bytes_lt. by rewrite bytes_cmp_opp, E.
Qed.

(** * Lemmas: [BTreeMap] *)

Section BTreeMapLemmas.
Context {V : Type}.
Implicit Types m : list (bytes * V).

Lemma bt_sorted_cons k v m :
  bt_sorted ((k, v) :: m) ↔ bt_sorted m ∧ Forall (bytes_lt k) (fst <$> m).
Proof. unfold bt_sorted. simpl. split; [by inversion 1|intros []; by constructor]. Qed.

Lemma bt_insert_keys (P : bytes → Prop) k v m :
  P k → Forall P (fst <$> m) → Forall P (fst <$> bt_insert k v m).
Proof.
  intros Hk. induction m as [|[k' v'] m IH]; simpl; intros Hm.
  - by constructor.
  - apply Forall_cons in Hm as [H1 H2].
    destruct (bytes_cmp k k'); simpl; repeat constructor; auto.
Qed.

Lemma bt_insert_Forall (P : bytes * V → Prop) k v m :
  P (k, v) → Forall P m → Forall P (bt_insert k v m).
Proof.
  intros Hk. induction m as [|[k' v'] m IH]; simpl; intros Hm; [by constructor|].
  apply Forall_cons in Hm as [H1 H2].
  destruct (bytes_cmpP k k') as [->|?|?]; rewrite ?Forall_cons; auto.
Qed.

Lemma bt_insert_perm k v m : k ∉ fst <$> m → bt_insert k v m ≡ₚ (k, v) :: m.
Proof.
  induction m as [|[k' v'] m IH]; simpl; intros Hk; [done|].
  apply not_elem_of_cons in Hk as [Hne Hk]. destruct (bytes_cmpP k k') as [->|?|?]; [done|done|].
  rewrite IH by done. apply Permutation_swap.
Qed.

Lemma bt_insert_sorted k v m : bt_sorted m → bt_sorted (bt_insert k v m).
Proof.
  induction m as [|[k' v'] m IH]; simpl; intros Hs.
  - by repeat constructor.
  - destruct (bytes_cmpP k k') as [->|Hlt|Hlt].
    + done.
    + apply bt_sorted_cons. split; [done|]. apply bt_sorted_cons in Hs as [_ Hs].
      simpl. constructor; [done|]. eapply Forall_impl; [apply Hs|].
      intros z Hz. by eapply bytes_lt_trans.
    + apply bt_sorted_cons in Hs as [Hs1 Hs2]. apply bt_sorted_cons.
      split; [auto|]. by apply bt_insert_keys.
Qed.

Lemma bt_remove_sorted k m : bt_sorted m → bt_sorted (bt_remove k m).
Proof.
  induction m as [|[k' v'] m IH]; simpl; intros Hs; [done|].
  apply bt_sorted_cons in Hs as [Hs1 Hs2].
  destruct (bytes_cmp k k'); [done|by apply bt_sorted_cons|].
  apply bt_sorted_cons. split; [auto|].
  clear IH Hs1. induction m as [|[k2 v2] m IH]; simpl in *; [done|].
  apply Forall_cons in Hs2 as [? ?]. destruct (bytes_cmp k k2); simpl; auto.
Qed.

Lemma bt_lookup_lt k m : Forall (bytes_lt k) (fst <$> m) → bt_lookup k m = None.
Proof. destruct m as [|[k' v'] m]; simpl; [done|]. intros [H _]%Forall_cons. by rewrite H. Qed.

Lemma bt_lookup_insert k v m k2 :
  bt_sorted m →
  bt_lookup k2 (bt_insert k v m) = if decide (k2 = k) then Some v else bt_lookup k2 m.
Proof.
  induction m as [|[k' v'] m IH]; simpl; intros Hs.
  - destruct (bytes_cmpP k2 k) as [->|H|H]; case_decide; try done; subst; by apply bytes_lt_irrefl in H.
  - apply bt_sorted_cons in Hs as [Hs1 Hs2]. specialize (IH Hs1).
    destruct (bytes_cmpP k k') as [->|H|H]; simpl.
    + destruct (bytes_cmpP k2 k') as [->|H1|H1]; case_decide; try done; subst; by apply bytes_lt_irrefl in H1.
    + destruct (bytes_cmpP k2 k) as [->|H1|H1]; case_decide; try done; subst;
        try (by apply bytes_lt_irrefl in H1).
      assert (H2 : bytes_lt k2 k') by (by eapply bytes_lt_trans).
      unfold bytes_lt in H2. by rewrite H2.
    + rewrite IH. destruct (bytes_cmpP k2 k') as [->|H1|H1]; case_decide; try done; subst.
      * by apply bytes_lt_irrefl in H.
      * exfalso. apply (bytes_lt_irrefl k). by eapply bytes_lt_trans.
Qed.

Lemma bt_lookup_remove k m k2 :
  bt_sorted m →
  bt_lookup k2 (bt_remove k m) = if decide (k2 = k) then None else bt_lookup k2 m.
Proof.
  induction m as [|[k' v'] m IH]; simpl; intros Hs; [by case_decide|].
  apply bt_sorted_cons in Hs as [Hs1 Hs2]. specialize (IH Hs1).
  destruct (bytes_cmpP k k') as [->|H|H]; simpl.
  - destruct (bytes_cmpP k2 k') as [->|H1|H1]; case_decide; try done; subst.
    + by apply bt_lookup_lt.
    + by apply bytes_lt_irrefl in H1.
    + apply bt_lookup_lt. eapply Forall_impl; [done|]. intros z Hz. by eapply bytes_lt_trans.
    + by apply bytes_lt_irrefl in H1.
  - destruct (bytes_cmpP k2 k') as [->|H1|H1]; case_decide; try done; subst.
    + by apply bytes_lt_irrefl in H.
    + exfalso. apply (bytes_lt_irrefl k). by eapply bytes_lt_trans.
  - rewrite IH. destruct (bytes_cmpP k2 k') as [->|H1|H1]; case_decide; try done; subst.
    by apply bytes_lt_irrefl in H.
Qed.

(** Inserting a key above every present one appends it. *)
Lemma bt_insert_snoc k v m :
  Forall (λ k', bytes_lt k' k) (fst <$> m) → bt_insert k v m = m ++ [(k, v)].
Proof.
  induction m as [|[k' v'] m IH]; simpl; intros Hf; [done|].
  apply Forall_cons in Hf as [H1 H2]. unfold bytes_lt in H1.
  rewrite bytes_cmp_opp, H1. simpl. by rewrite IH.
Qed.

Lemma bt_lookup_snoc k m :
  Forall (λ k', bytes_lt k' k) (fst <$> m) → bt_lookup k m = None.
Proof.
  induction m as [|[k' v'] m IH]; simpl; intros Hf; [done|].
  apply Forall_cons in Hf as [H1 H2]. unfold bytes_lt in H1.
  rewrite bytes_cmp_opp, H1. auto.
Qed.

Lemma bt_sorted_app m1 m2 :
  bt_sorted (m1 ++ m2) → bt_sorted m1 ∧ bt_sorted m2 ∧
  ∀ k1 k2, k1 ∈ (fst <$> m1) → k2 ∈ (fst <$> m2) → bytes_lt k1 k2.
Proof.
  unfold bt_sorted. rewrite fmap_app. intros H. split; [|split].
  - by eapply StronglySorted_app_1_l.
  - by eapply StronglySorted_app_1_r.
  - intros. by eapply StronglySorted_app_1_elem_of.
Qed.

Lemma bt_last_key_snoc m k v : bt_last_key (m ++ [(k, v)]) = Some k.
Proof. unfold bt_last_key. by rewrite last_snoc. Qed.

(** A key above the last one is above every key. *)
Lemma bt_last_key_lt m k k' :
  bt_sorted m → bt_last_key m = Some k' → bytes_lt k' k →
  Forall (λ k0, bytes_lt k0 k) (fst <$> m).
Proof.
  intros Hs Hl Hlt. unfold bt_last_key in Hl.
  destruct (last m) as [[k1 v1]|] eqn:E; simpl in Hl; [|done]. injection Hl as ->.
  apply last_Some in E as [m' ->]. rewrite fmap_app. apply Forall_app. split; [|by constructor].
  apply Forall_forall. intros k0 Hk0. apply bt_sorted_app in Hs as (_ & _ & Hs).
  eapply bytes_lt_trans; [|done]. apply Hs; simpl; [done|]. by left.
Qed.
End BTreeMapLemmas.

(** * Lemmas: [sort_by] *)

Section SortByLemmas.
Context {A : Type} (cmp : A → A → comparison).

Lemma sort_by_insert_perm x l : sort_by_insert cmp x l ≡ₚ x :: l.
Proof.
  induction l as [|y l IH]; simpl; [done|]. destruct (cmp x y); [done..|].
  rewrite IH. constructor.
Qed.

Lemma sort_by_perm l : sort_by cmp l ≡ₚ l.
Proof. induction l as [|x l IH]; simpl; [done|]. by rewrite sort_by_insert_perm, IH. Qed.

Lemma sort_by_id l : StronglySorted (λ x y, cmp x y = Lt) l → sort_by cmp l = l.
Proof.
  induction l as [|x l IH]; simpl; [done|]. inversion 1 as [|? ? Hs Hf]; subst.
  rewrite IH by done. destruct l as [|y l]; simpl; [done|].
  apply Forall_cons in Hf as [-> _]. done.
Qed.
End SortByLemmas.

(** * Lemmas: decimal integers *)

Open Scope Z_scope.

Definition signed (neg : bool) (n : Z) : Z := if neg then - n else n.

Lemma digit_val_Some c d : digit_val c = Some d ↔ c = 48 + d ∧ 0 ≤ d ≤ 9.
Proof.
  unfold digit_val. destruct (48 <=? c) eqn:E1, (c <=? 57) eqn:E2; simpl; bool_arith;
    split; intros H; try done; try (injection H as <-); try lia.
  f_equal. lia.
Qed.

Lemma parse_digits_app neg acc l k :
  parse_digits neg acc (l ++ k) = parse_digits neg acc l ≫= λ v, parse_digits neg v k.
Proof.
  revert acc. induction l as [|c l IH]; intros acc; simpl; [done|].
  destruct (digit_val c); simpl; [|done]. by case_match.
Qed.

Lemma digits_bound fuel n : 0 ≤ n < 10 ^ Z.of_nat (S fuel) → 0 ≤ n `div` 10 < 10 ^ Z.of_nat fuel.
Proof.
  rewrite Nat2Z.inj_succ, Z.pow_succ_r by lia. intros H.
  split; [apply Z.div_pos; lia|]. apply Z.div_lt_upper_bound; lia.
Qed.

Lemma signed_range neg n : 0 ≤ n → is_i64 (signed neg n) → ∀ m, 0 ≤ m ≤ n → is_i64 (signed neg m).
Proof. unfold is_i64, signed, i64_min, i64_max. destruct neg; lia. Qed.

Lemma in_i64 v : (i64_min <=? v) && (v <=? i64_max) = true ↔ is_i64 v.
Proof.
  unfold is_i64. split; [intros; bool_arith; lia|].
  intros. apply andb_true_iff. split; apply Z.leb_le; lia.
Qed.

Lemma parse_digits_digits neg fuel n rest :
  (0 < fuel)%nat → 0 ≤ n < 10 ^ Z.of_nat fuel → is_i64 (signed neg n) →
  parse_digits neg 0 (digits fuel n ++ rest) = parse_digits neg (signed neg n) rest.
Proof.
  revert n rest. induction fuel as [|fuel IH]; intros n rest Hf Hn Hr; [lia|]. simpl.
  destruct (n <? 10) eqn:E; bool_arith.
  - simpl. replace (digit_val (48 + n)) with (Some n) by (symmetry; apply digit_val_Some; lia).
    simpl. replace (if neg then 0 * 10 - n else 0 * 10 + n) with (signed neg n) by (unfold signed; destruct neg; lia).
    by rewrite (proj2 (in_i64 _) Hr).
  - pose proof (Z.div_mod n 10) as Hdm. pose proof (Z.mod_pos_bound n 10) as Hmb.
    destruct fuel as [|fuel]; [simpl in Hn; lia|].
    rewrite <- app_assoc. rewrite IH; [|lia|by apply digits_bound|].
    + simpl. replace (digit_val (48 + n `mod` 10)) with (Some (n `mod` 10))
        by (symmetry; apply digit_val_Some; lia).
      simpl. replace (if neg then signed neg (n `div` 10) * 10 - n `mod` 10
                      else signed neg (n `div` 10) * 10 + n `mod` 10)
        with (signed neg n) by (unfold signed; destruct neg; lia).
      by rewrite (proj2 (in_i64 _) Hr).
    + eapply signed_range; [|done|]; lia.
Qed.

Lemma digits_hd fuel n :
  (0 < fuel)%nat → 0 ≤ n < 10 ^ Z.of_nat fuel →
  ∃ c r, digits fuel n = c :: r ∧ 48 ≤ c ≤ 57 ∧ (c = 48 → n = 0 ∧ r = []).
Proof.
  revert n. induction fuel as [|fuel IH]; intros n Hf Hn; [lia|]. simpl.
  destruct (n <? 10) eqn:E; bool_arith.
  - eexists _, _. split; [done|]. split; [lia|]. intros. split; [lia|done].
  - destruct fuel as [|fuel]; [simpl in Hn; lia|].
    destruct (IH (n `div` 10)) as (c & r & Heq & Hc & Hz); [lia|by apply digits_bound|].
    rewrite Heq. eexists _, _. split; [done|]. split; [done|]. intros Hc0.
    destruct (Hz Hc0) as [Hd _]. pose proof (Z.div_mod n 10). pose proof (Z.mod_pos_bound n 10). lia.
Qed.

Lemma digits_all fuel n : 0 ≤ n → Forall (λ c, 48 ≤ c ≤ 57) (digits fuel n).
Proof.
  revert n. induction fuel as [|fuel IH]; intros n Hn; simpl; [done|].
  destruct (n <? 10) eqn:E; bool_arith; [by repeat constructor; lia|].
  apply Forall_app. split; [apply IH, Z.div_pos; lia|].
  pose proof (Z.mod_pos_bound n 10). repeat constructor; lia.
Qed.

Lemma dec_fuel_i64 n : is_i64 n → 0 ≤ Z.abs n < 10 ^ Z.of_nat dec_fuel.
Proof.
  unfold is_i64, i64_min, i64_max, dec_fuel.
  change (10 ^ Z.of_nat 20) with 100000000000000000000. lia.
Qed.

(** Printing an [i64] and parsing it back is the identity. *)
Lemma parse_i64_to_string n : is_i64 n → parse_i64 (i64_to_string n) = Some n.
Proof.
  intros Hn. pose proof (dec_fuel_i64 n Hn) as Hb. unfold i64_to_string.
  assert (Hp : ∀ neg, is_i64 (signed neg (Z.abs n)) →
    parse_digits neg 0 (digits dec_fuel (Z.abs n)) = Some (signed neg (Z.abs n))).
  { intros neg Hr. rewrite <- (app_nil_r (digits _ _)).
    rewrite parse_digits_digits; [done|unfold dec_fuel; lia|done|done]. }
  destruct (digits_hd dec_fuel (Z.abs n)) as (c & r & Heq & Hc & _); [unfold dec_fuel; lia|done|].
  destruct (n <? 0) eqn:E; bool_arith.
  - replace (- n) with (Z.abs n) by lia. rewrite Heq in *.
    change (parse_digits true 0 (c :: r) = Some n).
    rewrite (Hp true); unfold signed; [f_equal|]; unfold is_i64 in *; lia.
  - replace n with (Z.abs n) at 1 by lia. rewrite Heq in *. unfold parse_i64.
    replace (c =? 43) with false by (symmetry; apply Z.eqb_neq; lia).
    replace (c =? 45) with false by (symmetry; apply Z.eqb_neq; lia). cbn [orb].
    rewrite (Hp false); unfold signed; [f_equal|]; unfold is_i64 in *; lia.
Qed.

Lemma parse_digits_sign (neg : bool) acc l v :
  (if neg then acc ≤ 0 else 0 ≤ acc) → parse_digits neg acc l = Some v →
  (if neg then v ≤ 0 else 0 ≤ v).
Proof.
  revert acc. induction l as [|c l IH]; intros acc Ha Hp; simpl in Hp; [by injection Hp as <-|].
  destruct (digit_val c) as [d|] eqn:Ed; [|done]. simpl in Hp.
  apply digit_val_Some in Ed as [_ Hd]. case_match; [|done].
  eapply IH; [|done]. destruct neg; lia.
Qed.

Lemma parse_digits_range neg acc l v :
  is_i64 acc → parse_digits neg acc l = Some v → is_i64 v.
Proof.
  revert acc. induction l as [|c l IH]; intros acc Ha Hp; simpl in Hp; [by injection Hp as <-|].
  destruct (digit_val c) as [d|]; [|done]. simpl in Hp.
  destruct (_ && _) eqn:E; [|done]. eapply IH; [|done]. by apply in_i64.
Qed.

(** A digit string without a leading zero is the printed form of its value. *)
Lemma digits_parse neg l v fuel :
  l ≠ [] → head l ≠ Some 48 → parse_digits neg 0 l = Some v →
  Z.abs v < 10 ^ Z.of_nat fuel → digits fuel (Z.abs v) = l ∧ 1 ≤ Z.abs v.
Proof.
  revert v fuel. induction l as [|c l IH] using rev_ind; intros v fuel Hne Hhd Hp Hb; [done|].
  rewrite parse_digits_app in Hp.
  destruct (parse_digits neg 0 l) as [v'|] eqn:Ep; simpl in Hp; [|done].
  destruct (digit_val c) as [d|] eqn:Ed; simpl in Hp; [|done]. case_match; [|done].
  injection Hp as <-. apply digit_val_Some in Ed as [-> Hd].
  assert (Hs := parse_digits_sign neg 0 l v' ltac:(destruct neg; lia) Ep).
  set (w := if neg then v' * 10 - d else v' * 10 + d) in *.
  assert (Hw : Z.abs w = Z.abs v' * 10 + d) by (subst w; destruct neg; lia).
  destruct fuel as [|fuel]; [simpl in Hb; destruct (decide (l = [])) as [->|]|].
  - injection Ep as <-. simpl in Hhd. exfalso. apply Hhd. f_equal. lia.
  - destruct (IH v' 1%nat) as [_ ?]; [done| |done|simpl; lia|lia].
    intros Hh. apply Hhd. by destruct l.
  - rewrite Nat2Z.inj_succ, Z.pow_succ_r in Hb by lia. rewrite Hw in *.
    destruct (decide (l = [])) as [->|Hl].
    + injection Ep as <-. simpl. simpl in Hhd.
      assert (d ≠ 0) by (intros ->; by apply Hhd).
      replace (Z.abs 0 * 10 + d) with d by lia.
      destruct (Z.ltb_spec d 10); [|lia]. split; [done|lia].
    + destruct (IH v' fuel) as [H1 H2]; [done| |done|lia|].
      { intros Hh. apply Hhd. by destruct l. }
      split; [|lia]. simpl. destruct (Z.ltb_spec (Z.abs v' * 10 + d) 10); [lia|].
      rewrite Z.div_add_l, (Z.div_small d 10), Z.add_0_r, H1 by lia.
      rewrite (Z.add_comm (_ * 10) d), Z.mod_add, Z.mod_small by lia. done.
Qed.

(** The two checks [decode_int] makes before it parses, plus the absence of a
    [+] sign, leave only the printed form of the value. *)
Lemma parse_i64_canonical l n :
  parse_i64 l = Some n → head l ≠ Some 43 →
  (∀ c d r, l = c :: d :: r → c ≠ 48 ∧ ¬ (c = 45 ∧ d = 48)) → l = i64_to_string n.
Proof.
  intros Hp Hplus Hz. destruct l as [|c l]; [done|].
  assert (Hn : is_i64 n).
  { assert (H0 : is_i64 0) by (unfold is_i64, i64_min, i64_max; lia).
    unfold parse_i64 in Hp. destruct (_ || _); [destruct l; [discriminate Hp|]|];
      exact (parse_digits_range _ _ _ _ H0 Hp). }
  pose proof (dec_fuel_i64 n Hn) as [_ Hb]. unfold parse_i64 in Hp. unfold i64_to_string.
  destruct (c =? 43) eqn:E1; bool_arith; [subst; done|]. simpl in Hp.
  destruct (c =? 45) eqn:E2; bool_arith.
  - subst c. destruct l as [|d l]; [done|].
    pose proof (parse_digits_sign true 0 (d :: l) n ltac:(simpl; lia) Hp) as Hs; simpl in Hs.
    destruct (digits_parse true (d :: l) n dec_fuel) as [H1 H2]; [done| |done|done|].
    { simpl. intros [= ->]. by destruct (Hz 45 48 l) as [_ []]. }
    destruct (Z.ltb_spec n 0); [|lia]. f_equal. rewrite <- H1. f_equal. lia.
  - pose proof (parse_digits_sign false 0 (c :: l) n ltac:(simpl; lia) Hp) as Hs; simpl in Hs.
    destruct (Z.ltb_spec n 0); [lia|].
    destruct (decide (c = 48)) as [->|Hc].
    + destruct l as [|d l]; [|by destruct (Hz 48 d l)].
      simpl in Hp. injection Hp as <-. done.
    + destruct (digits_parse false (c :: l) n dec_fuel) as [H1 _]; [done| |done|done|].
      { simpl. by intros [= ->]. }
      rewrite <- H1. f_equal. lia.
Qed.
Close Scope Z_scope.

(** * Lemmas: binary search *)

Section Search.
Context {A : Type} (f : A → comparison).

(** The slice is partitioned by the comparison. *)
Definition partitioned (l : list A) : Prop :=
  ∀ i j x y, i ≤ j → l !! i = Some x → l !! j = Some y →
    (f y = Lt → f x = Lt) ∧ (f x = Gt → f y = Gt).

(** Everything from [base + size] on is greater, and [base] is not unless it is
    the first. *)
Lemma search_base_spec l fuel : ∀ base size, size ≤ fuel → 0 < size → base + size ≤ length l → partitioned l →
  (∀ i x, base + size ≤ i → l !! i = Some x → f x = Gt) →
  (base = 0 ∨ ∃ x, l !! base = Some x ∧ f x ≠ Gt) →
  let b := search_base f fuel l base size in
  b < length l ∧ (∀ i x, b < i → l !! i = Some x → f x = Gt) ∧ (b = 0 ∨ ∃ x, l !! b = Some x ∧ f x ≠ Gt).
Proof.
  induction fuel as [|fuel IH]; intros base size Hf Hs Hb Hp Hgt Hlo; [lia|]. cbn [search_base].
  destruct (Nat.leb_spec size 1); [split_and!; [lia| |done]; intros i x ?; apply Hgt; lia|].
  pose proof (Nat.div_lt size 2 ltac:(lia) ltac:(lia)) as Hhalf.
  assert (1 ≤ size / 2) by (apply Nat.div_le_lower_bound; lia).
  destruct (lookup_lt_is_Some_2 l (base + size / 2)) as [m Hm]; [lia|].
  cbv zeta. rewrite Hm. cbn [fmap option_fmap option_map].
  assert (Hright : f m = Gt → ∀ i x, base + size / 2 ≤ i → l !! i = Some x → f x = Gt).
  { intros Hg i x Hi Hx. by apply (Hp (base + size / 2) i m x). }
  assert (size / 2 ≤ size - size / 2) by (pose proof (Nat.div_mod size 2 ltac:(lia)); lia).
  destruct (f m) eqn:Em; apply IH; try lia; try done.
  - intros i x Hi. apply Hgt. lia.
  - right. exists m. by rewrite Em.
  - intros i x Hi. apply Hgt. lia.
  - right. exists m. by rewrite Em.
  - intros i x Hi Hx. apply (Hright eq_refl i x); [lia|done].
Qed.

(** The documented contract on a partitioned slice. *)
Lemma binary_search_spec l : partitioned l →
  match binary_search_by f l with
  | Found i => ∃ x, l !! i = Some x ∧ f x = Eq
  | InsertAt i => i ≤ length l ∧ (∀ j x, j < i → l !! j = Some x → f x = Lt) ∧
                  (∀ j x, i ≤ j → l !! j = Some x → f x = Gt)
  end.
Proof.
  intros Hp. unfold binary_search_by. destruct (decide (length l = 0)) as [H0|H0].
  { destruct l; [|done]. split_and!; [done|by intros j x ?|by intros j x]. }
  destruct (search_base_spec l (length l) 0 (length l)) as (Hb & Hgt & Hlo); [lia|lia|lia|done| |by left|].
  { intros i x Hi Hx. apply lookup_lt_Some in Hx. lia. }
  set (b := search_base f (length l) l 0 (length l)) in *. destruct (lookup_lt_is_Some_2 l b Hb) as [x Hx].
  rewrite Hx. cbn [fmap option_fmap option_map]. destruct (f x) eqn:Ex; [by exists x| |].
  - split_and!; [lia| |].
    + intros j y Hj Hy. apply (Hp j b y x); [lia|done..].
    + intros j y Hj Hy. apply (Hgt j y); [lia|done].
  - destruct Hlo as [H|(y & Hy & Hn)]; [|congruence]. split_and!; [lia|intros j y ?; lia|].
    intros j y Hj Hy. by apply (Hp b j x y).
Qed.
End Search.

(** * Chunks *)

Section Chunks.
Context {A : Type}.
Implicit Types l x : list A.

Lemma chunks_fuel_eq n a b l : 0 < n → length l ≤ a → length l ≤ b → chunks_fuel a n l = chunks_fuel b n l.
Proof.
  intros Hn. revert l b. induction a as [|a IH]; intros l b Ha Hb; [by destruct l, b; simpl in *; try lia|].
  destruct l as [|u l]; [by destruct b|]. destruct b as [|b]; [simpl in *; lia|]. cbn [chunks_fuel]. f_equal.
  apply IH; rewrite length_drop; simpl in *; lia.
Qed.

Lemma chunks_step n l : 0 < n → l ≠ [] → chunks n l = take n l :: chunks n (drop n l).
Proof.
  intros Hn Hl. destruct l as [|u l]; [done|]. unfold chunks at 1. cbn [length chunks_fuel]. f_equal.
  apply chunks_fuel_eq; [done|rewrite length_drop; simpl; lia|done].
Qed.

Lemma chunks_app n x l : 0 < n → length x = n → chunks n (x ++ l) = x :: chunks n l.
Proof.
  intros Hn Hx. rewrite chunks_step by (done || by destruct x; simpl in *; [lia|]).
  by rewrite take_app_length', drop_app_length'.
Qed.

Lemma chunks_short n x : x ≠ [] → length x ≤ n → chunks n x = [x].
Proof.
  intros Hx Hl. assert (0 < n) by (destruct x; simpl in *; [done|lia]). rewrite chunks_step by done.
  by rewrite take_ge, drop_ge by lia.
Qed.

(** Every chunk is full when the size divides the length. *)
Lemma chunks_full n k l : 0 < n → length l = k * n → Forall (λ c, length c = n) (chunks n l) ∧ concat (chunks n l) = l.
Proof.
  intros Hn. revert l. induction k as [|k IH]; intros l Hl; [by destruct l; [split; [constructor|]|]|].
  destruct (decide (l = [])) as [->|Hne]; [simpl in Hl; lia|]. rewrite chunks_step by done.
  destruct (IH (drop n l)) as [H1 H2]; [rewrite length_drop; lia|]. split.
  - constructor; [rewrite length_take; lia|done].
  - cbn [concat]. rewrite H2. apply take_drop.
Qed.

Lemma chunks_concat n (cs : list (list A)) : 0 < n → Forall (λ c, length c = n) cs → chunks n (concat cs) = cs.
Proof.
  intros Hn. induction 1 as [|c cs Hc _ IH]; [done|]. cbn [concat]. rewrite chunks_app by done. by rewrite IH.
Qed.
End Chunks.
