(* ===== verification/Extern.v ===== *)
(** Interfaces of the third-party crates the modelled code calls.  A class
    holds the operations with the documented behaviour the proofs rely on as
    its laws; the model is proved for every instance.  The instances at the end
    are small concrete functions with those laws, used to evaluate examples:
    they are not the crates' algorithms. *)

From stdpp Require Import base numbers list.
From S2P Require Import Prelude.

(** * The [sha1] crate: a digest of 20 bytes *)

Class Sha1 := {
  sha1 : bytes → bytes;
  sha1_length l : length (sha1 l) = 20;
  sha1_bytes l : are_u8 (sha1 l)
}.

(** * The [crc] crate: CRC-32C, a 32-bit checksum *)

Class Crc32c := {
  checksum : bytes → Z;
  checksum_u32 l : is_u32 (checksum l)
}.

(** * The [chrono] crate: instants and durations as signed tick counts *)

Class Chrono := {
  duration_minutes : Z → Z;
  duration_hours : Z → Z;
  num_minutes : Z → Z;
  minute_pos : (0 < duration_minutes 1)%Z;
  minutes_linear n : duration_minutes n = (n * duration_minutes 1)%Z;
  hours_minutes n : duration_hours n = duration_minutes (60 * n);
  num_minutes_whole d : num_minutes d = Z.quot d (duration_minutes 1)
}.

(** * The [nom] crate: parsers over complete input

    A parser returns the input it leaves and a value, or an error; only
    [NomError] is recoverable. *)

Inductive NomErr := NomIncomplete | NomError | NomFailure.
Definition parser (A : Type) : Type := bytes → res NomErr (bytes * A).

Class Nom := {
  nom_u8 : parser Z;
  nom_be_u16 : parser Z;
  nom_be_u32 : parser Z;
  nom_take : nat → parser bytes;
  nom_pair {A B} : parser A → parser B → parser (A * B);
  nom_preceded {A B} : parser A → parser B → parser B;
  nom_map {A B} : parser A → (A → B) → parser B;
  nom_map_res {A B} : parser A → (A → option B) → parser B;
  nom_value {A B} : B → parser A → parser B;
  nom_opt {A} : parser A → parser (option A);
  nom_alt {A} : list (parser A) → parser A;

  nom_u8_cons x i : nom_u8 (x :: i) = Ok (i, x);
  nom_u8_nil : nom_u8 [] = Err NomError;
  nom_be_u16_cons a b i : nom_be_u16 (a :: b :: i) = Ok (i, a * 256 + b)%Z;
  nom_be_u16_short i : length i < 2 → nom_be_u16 i = Err NomError;
  nom_be_u32_cons a b c d i : nom_be_u32 (a :: b :: c :: d :: i) = Ok (i, ((a * 256 + b) * 256 + c) * 256 + d)%Z;
  nom_be_u32_short i : length i < 4 → nom_be_u32 i = Err NomError;
  nom_take_enough n i : n ≤ length i → nom_take n i = Ok (drop n i, take n i);
  nom_take_short n i : length i < n → nom_take n i = Err NomError;
  nom_pair_eq {A B} (p : parser A) (q : parser B) i :
    nom_pair p q i = ('(i1, a) ← p i; '(i2, b) ← q i1; Ok (i2, (a, b)));
  nom_preceded_eq {A B} (p : parser A) (q : parser B) i :
    nom_preceded p q i = ('(i1, _) ← p i; q i1);
  nom_map_eq {A B} (p : parser A) (f : A → B) i : nom_map p f i = ('(i1, a) ← p i; Ok (i1, f a));
  nom_map_res_eq {A B} (p : parser A) (f : A → option B) i :
    nom_map_res p f i = ('(i1, a) ← p i; match f a with Some b => Ok (i1, b) | None => Err NomError end);
  nom_value_eq {A B} (v : B) (p : parser A) i : nom_value v p i = ('(i1, _) ← p i; Ok (i1, v));
  nom_opt_eq {A} (p : parser A) i :
    nom_opt p i = match p i with Ok (i1, a) => Ok (i1, Some a) | Err NomError => Ok (i, None) | Err e => Err e | Panic f => Panic f end;
  nom_alt_one {A} (p : parser A) i : nom_alt [p] i = p i;
  nom_alt_more {A} (p q : parser A) ps i :
    nom_alt (p :: q :: ps) i = match p i with Err NomError => nom_alt (q :: ps) i | r => r end
}.

(** * The [byteorder] and [bytes] crates: big-endian writes

    [write_u8], [write_u32::<BigEndian>] and [put_u16] hand these bytes to the
    writer or the buffer. *)

Class ByteOrder := {
  u8_bytes : Z → bytes;
  u16_be_bytes : Z → bytes;
  u32_be_bytes : Z → bytes;
  u8_bytes_eq x : is_u8 x → u8_bytes x = [x];
  u16_be_bytes_eq x : is_u16 x → u16_be_bytes x = [x / 256; x mod 256]%Z;
  u32_be_bytes_eq x : is_u32 x →
    u32_be_bytes x = [x / 16777216; x / 65536 mod 256; x / 256 mod 256; x mod 256]%Z
}.

(** * Example instances *)

Definition byteorder_lists : ByteOrder := {|
  u8_bytes x := [x];
  u16_be_bytes x := [x / 256; x mod 256]%Z;
  u32_be_bytes x := [x / 16777216; x / 65536 mod 256; x / 256 mod 256; x mod 256]%Z;
  u8_bytes_eq x _ := eq_refl; u16_be_bytes_eq x _ := eq_refl; u32_be_bytes_eq x _ := eq_refl
|}.

Fixpoint alt_list {A} (ps : list (parser A)) : parser A :=
  match ps with
  | [] => λ _, Err NomError
  | [p] => p
  | p :: ps' => λ i, match p i with Err NomError => alt_list ps' i | r => r end
  end.

Definition list_u8 : parser Z := λ i, match i with x :: i => Ok (i, x) | [] => Err NomError end.
Definition list_u16 : parser Z := λ i, match i with a :: b :: i => Ok (i, a * 256 + b)%Z | _ => Err NomError end.
Definition list_u32 : parser Z := λ i,
  match i with a :: b :: c :: d :: i => Ok (i, ((a * 256 + b) * 256 + c) * 256 + d)%Z | _ => Err NomError end.
Definition list_take (n : nat) : parser bytes := λ i,
  if n <=? length i then Ok (drop n i, take n i) else Err NomError.

Lemma list_u16_short i : length i < 2 → list_u16 i = Err NomError.
Proof. destruct i as [|a [|b i]]; simpl; [done|done|lia]. Qed.
Lemma list_u32_short i : length i < 4 → list_u32 i = Err NomError.
Proof. destruct i as [|a [|b [|c [|d i]]]]; simpl; [done|done|done|done|lia]. Qed.
Lemma list_take_enough n i : n ≤ length i → list_take n i = Ok (drop n i, take n i).
Proof. intros Hn. unfold list_take. by rewrite (proj2 (Nat.leb_le _ _) Hn). Qed.
Lemma list_take_short n i : length i < n → list_take n i = Err NomError.
Proof. intros Hn. unfold list_take. by rewrite (proj2 (Nat.leb_gt _ _) Hn). Qed.

Definition nom_lists : Nom := {|
  nom_u8 := list_u8; nom_be_u16 := list_u16; nom_be_u32 := list_u32; nom_take := list_take;
  nom_pair A B p q i := '(i1, a) ← p i; '(i2, b) ← q i1; Ok (i2, (a, b));
  nom_preceded A B p q i := '(i1, _) ← p i; q i1;
  nom_map A B p f i := '(i1, a) ← p i; Ok (i1, f a);
  nom_map_res A B p f i := '(i1, a) ← p i; match f a with Some b => Ok (i1, b) | None => Err NomError end;
  nom_value A B v p i := '(i1, _) ← p i; Ok (i1, v);
  nom_opt A p i := match p i with Ok (i1, a) => Ok (i1, Some a) | Err NomError => Ok (i, None) | Err e => Err e | Panic f => Panic f end;
  nom_alt A ps := alt_list ps;
  nom_u8_cons x i := eq_refl; nom_u8_nil := eq_refl;
  nom_be_u16_cons a b i := eq_refl; nom_be_u16_short := list_u16_short;
  nom_be_u32_cons a b c d i := eq_refl; nom_be_u32_short := list_u32_short;
  nom_take_enough := list_take_enough; nom_take_short := list_take_short;
  nom_pair_eq A B p q i := eq_refl; nom_preceded_eq A B p q i := eq_refl; nom_map_eq A B p f i := eq_refl;
  nom_map_res_eq A B p f i := eq_refl; nom_value_eq A B v p i := eq_refl; nom_opt_eq A p i := eq_refl;
  nom_alt_one A p i := eq_refl; nom_alt_more A p q ps i := eq_refl
|}.

Definition toy_digest (l : bytes) : bytes :=
  replicate 19 0%Z ++ [as_u8 (foldr (λ x a, x + 7 * a)%Z 0%Z l)].

Lemma toy_digest_bytes l : are_u8 (toy_digest l).
Proof.
  unfold toy_digest. apply are_u8_app. split.
  - apply Forall_replicate. unfold is_u8. lia.
  - repeat constructor; apply as_u8_range.
Qed.

Definition toy_sha1 : Sha1 :=
  {| sha1 := toy_digest; sha1_length l := eq_refl; sha1_bytes := toy_digest_bytes |}.

Lemma toy_checksum_u32 (l : bytes) : is_u32 (as_u32 (foldr (λ x a, x + 31 * a)%Z 0%Z l)).
Proof. unfold is_u32, as_u32. apply Z.mod_pos_bound. lia. Qed.

Definition toy_crc : Crc32c :=
  {| checksum := λ l : bytes, as_u32 (foldr (λ x a, x + 31 * a)%Z 0%Z l); checksum_u32 := toy_checksum_u32 |}.

(** Ticks of one second. *)
Program Definition chrono_seconds : Chrono := {|
  duration_minutes n := (n * 60)%Z;
  duration_hours n := (n * 3600)%Z;
  num_minutes d := Z.quot d 60
|}.
Next Obligation. lia. Qed.
Next Obligation. simpl. intros n. lia. Qed.
Next Obligation. simpl. intros n. lia. Qed.
Next Obligation. done. Qed.
