(* ===== verification/Bencode.v ===== *)
(** packages/bencode: the decoded ([BencodeRef]) and the built ([BencodeMut])
    form of a bencoded value, the decoder, the encoder, the access traits and
    the conversion helpers.

    A [BencodeRef] keeps, next to each value, the slice of the input it was
    decoded from; a [BTreeMap] is a key-sorted association list
    ([RustStd.bt_insert] and friends).  Positions are [usize] values bounded
    by a slice length, so they are [nat]. *)

From stdpp Require Import base list numbers sorting sets.
From S2P Require Import Prelude RustStd.

(** * Constants (lib.rs) *)

Definition BEN_END : byte := 101.
Definition DICT_START : byte := 100.
Definition LIST_START : byte := 108.
Definition INT_START : byte := 105.
Definition BYTE_LEN_LOW : byte := 48.
Definition BYTE_LEN_HIGH : byte := 57.
Definition BYTE_LEN_END : byte := 58.

(** * Errors (error.rs) *)

Inductive BencodeParseError :=
  | BytesEmpty (pos : nat)
  | InvalidByte (pos : nat)
  | InvalidIntNoDelimiter (pos : nat)
  | InvalidIntNegativeZero (pos : nat)
  | InvalidIntZeroPadding (pos : nat)
  | InvalidIntParseError (pos : nat)
  | InvalidKeyOrdering (pos : nat) (key : bytes)
  | InvalidKeyDuplicates (pos : nat) (key : bytes)
  | InvalidLengthNegative (pos : nat)
  | InvalidLengthOverflow (pos : nat)
  | InvalidRecursionExceeded (pos max : nat).

Inductive expected_type := EInteger | EBytes | EUtf8 | EList | EDictionary.

Inductive BencodeConvertError :=
  | MissingKey (key : bytes)
  | WrongType (key : bytes) (expected : expected_type).

(** * Decode options (decode_opt.rs) *)

Record BDecodeOpt := {
  max_recursion : nat;
  check_key_sort : bool;
  enforce_full_decode : bool
}.

Definition BDecodeOpt_default : BDecodeOpt :=
  {| max_recursion := 50; check_key_sort := false; enforce_full_decode := true |}.

(** * Values (bencode_ref.rs, bencode_mut.rs) *)

Inductive BencodeRef :=
  | RInt (n : Z) (buf : bytes)
  | RBytes (s : bytes) (buf : bytes)
  | RList (l : list BencodeRef) (buf : bytes)
  | RDict (d : list (bytes * BencodeRef)) (buf : bytes).

Inductive BencodeMut :=
  | MInt (n : Z)
  | MBytes (s : bytes)
  | MList (l : list BencodeMut)
  | MDict (d : list (bytes * BencodeMut)).

Definition buffer (v : BencodeRef) : bytes :=
  match v with RInt _ u => u | RBytes _ u => u | RList _ u => u | RDict _ u => u end.

(** * The decoder (decode.rs) *)

Section Decode.
Context (input : bytes).

Definition peek_byte (pos : nat) : res BencodeParseError byte :=
  ok_or (BytesEmpty pos) (input !! pos).

(** [&bytes[i..j]], which panics out of range. *)
Definition index_range (i j : nat) : res BencodeParseError bytes :=
  if (i <=? j) && (j <=? length input) then Ok (slice input i j) else Panic IndexOutOfBounds.

Definition is_byte (s : bytes) (i : nat) (c : byte) : bool := bool_decide (s !! i = Some c).

Definition decode_int (pos : nat) (delim : byte) : res BencodeParseError (Z * nat) :=
  if length input <? pos then Panic IndexOutOfBounds else
  let begin_decode := drop pos input in
  match iter_position (λ n, (n =? delim)%Z) begin_decode with
  | None => Err (InvalidIntNoDelimiter pos)
  | Some relative_end_pos =>
      let int_byte_slice := take relative_end_pos begin_decode in
      if (1 <? length int_byte_slice) && (is_byte int_byte_slice 0 45 && is_byte int_byte_slice 1 48)
      then Err (InvalidIntNegativeZero pos)
      else if (1 <? length int_byte_slice) && is_byte int_byte_slice 0 48
      then Err (InvalidIntZeroPadding pos)
      else
        int_str ← ok_or (InvalidIntParseError pos) (str_from_utf8 int_byte_slice);
        let absolute_end_pos := pos + relative_end_pos in
        let next_pos := absolute_end_pos + 1 in
        n ← ok_or (InvalidIntParseError pos) (parse_i64 int_str);
        Ok (n, next_pos)
  end.

Definition decode_bytes (pos : nat) : res BencodeParseError (bytes * nat) :=
  '(num_bytes, start_pos) ← decode_int pos BYTE_LEN_END;
  if (num_bytes <? 0)%Z then Err (InvalidLengthNegative pos) else
  rest ← index_range start_pos (length input);
  if (Z.of_nat (length rest) <? num_bytes)%Z then Err (InvalidLengthOverflow pos) else
  let next_pos := start_pos + Z.to_nat num_bytes in
  s ← index_range start_pos next_pos;
  Ok (s, next_pos).

Context (opts : BDecodeOpt).

(** The mutual recursion of [decode], [decode_list] and [decode_dict]; each
    [while] loop is a function of its accumulator and position.  [fuel] is
    spent by every call and every loop iteration. *)
Fixpoint decode_fuel (fuel : nat) (pos depth : nat) {struct fuel} : res BencodeParseError (BencodeRef * nat) :=
  match fuel with
  | O => Panic OutOfFuel
  | S fuel' =>
      if max_recursion opts <=? depth then Err (InvalidRecursionExceeded pos depth) else
      curr_byte ← peek_byte pos;
      if (curr_byte =? INT_START)%Z then
        '(bencode, next_pos) ← decode_int (pos + 1) BEN_END;
        buf ← index_range pos next_pos;
        Ok (RInt bencode buf, next_pos)
      else if (curr_byte =? LIST_START)%Z then
        '(bencode, next_pos) ← (curr ← peek_byte (pos + 1); decode_list_loop fuel' [] (pos + 1) curr depth);
        buf ← index_range pos next_pos;
        Ok (RList bencode buf, next_pos)
      else if (curr_byte =? DICT_START)%Z then
        '(bencode, next_pos) ← (curr ← peek_byte (pos + 1); decode_dict_loop fuel' [] (pos + 1) curr depth);
        buf ← index_range pos next_pos;
        Ok (RDict bencode buf, next_pos)
      else if (BYTE_LEN_LOW <=? curr_byte)%Z && (curr_byte <=? BYTE_LEN_HIGH)%Z then
        '(bencode, next_pos) ← decode_bytes pos;
        buf ← index_range pos next_pos;
        Ok (RBytes bencode buf, next_pos)
      else Err (InvalidByte pos)
  end
with decode_list_loop (fuel : nat) (bencode_list : list BencodeRef) (curr_pos : nat) (curr_byte : byte)
    (depth : nat) {struct fuel} : res BencodeParseError (list BencodeRef * nat) :=
  match fuel with
  | O => Panic OutOfFuel
  | S fuel' =>
      if (curr_byte =? BEN_END)%Z then Ok (bencode_list, curr_pos + 1) else
      '(bencode, next_pos) ← decode_fuel fuel' curr_pos (depth + 1);
      curr_byte' ← peek_byte next_pos;
      decode_list_loop fuel' (bencode_list ++ [bencode]) next_pos curr_byte' depth
  end
with decode_dict_loop (fuel : nat) (bencode_dict : list (bytes * BencodeRef)) (curr_pos : nat)
    (curr_byte : byte) (depth : nat) {struct fuel} : res BencodeParseError (list (bytes * BencodeRef) * nat) :=
  match fuel with
  | O => Panic OutOfFuel
  | S fuel' =>
      if (curr_byte =? BEN_END)%Z then Ok (bencode_dict, curr_pos + 1) else
      '(key_bytes, value_pos) ← decode_bytes curr_pos;
      if match bt_last_key bencode_dict with
         | Some last_key => check_key_sort opts && bytes_ltb key_bytes last_key
         | None => false
         end
      then Err (InvalidKeyOrdering curr_pos key_bytes) else
      '(value, next_pos) ← decode_fuel fuel' value_pos (depth + 1);
      match bt_lookup key_bytes bencode_dict with
      | Some _ => Err (InvalidKeyDuplicates value_pos key_bytes)
      | None =>
          curr_byte' ← peek_byte next_pos;
          decode_dict_loop fuel' (bt_insert key_bytes value bencode_dict) next_pos curr_byte' depth
      end
  end.
End Decode.

(** Every call and iteration but the last of a loop consumes a byte. *)
Definition decode_budget (input : bytes) : nat := 2 * length input + 2.

Definition decode (input : bytes) (pos : nat) (opts : BDecodeOpt) (depth : nat)
    : res BencodeParseError (BencodeRef * nat) :=
  decode_fuel input opts (decode_budget input) pos depth.

Definition BencodeRef_decode (input : bytes) (opts : BDecodeOpt) : res BencodeParseError BencodeRef :=
  '(bencode, end_pos) ← decode input 0 opts 0;
  if negb (end_pos =? length input) && enforce_full_decode opts
  then Err (BytesEmpty end_pos) else Ok bencode.

(** * The encoder (encode.rs) *)

Definition encode_int (val : Z) (out : bytes) : bytes :=
  out ++ [INT_START] ++ i64_to_string val ++ [BEN_END].

Definition encode_bytes (l : bytes) (out : bytes) : bytes :=
  out ++ usize_to_string (length l) ++ [BYTE_LEN_END] ++ l.

(** [encode], with the loops of [encode_list] and [encode_dict] (which sorts
    the pairs by key first) as nested functions over the output buffer. *)
Fixpoint encode (val : BencodeMut) (out : bytes) {struct val} : bytes :=
  match val with
  | MInt n => encode_int n out
  | MBytes n => encode_bytes n out
  | MList n =>
      (fix loop (l : list BencodeMut) (out : bytes) : bytes :=
         match l with [] => out | i :: l' => loop l' (encode i out) end) n (out ++ [LIST_START])
      ++ [BEN_END]
  | MDict n =>
      let enc := (fix pairs (d : list (bytes * BencodeMut)) : list (bytes * (bytes → bytes)) :=
         match d with [] => [] | (k, v) :: d' => (k, encode v) :: pairs d' end) n in
      let sort_dict := sort_by (λ x y, bytes_cmp x.1 y.1) enc in
      foldl (λ out '(key, value), value (encode_bytes key out)) (out ++ [DICT_START]) sort_dict
      ++ [BEN_END]
  end.

Definition BencodeMut_encode (val : BencodeMut) : bytes := encode val [].

(** * Building values (bencode_mut.rs, the [ben_*] macros of lib.rs) *)

Definition new_int (value : Z) : BencodeMut := MInt value.
Definition new_bytes (value : bytes) : BencodeMut := MBytes value.
Definition new_list : BencodeMut := MList [].
Definition new_dict : BencodeMut := MDict [].

(** [BListAccess for Vec]: [insert] panics past the end, [remove] returns [None]. *)
Section ListAccess.
Context {V : Type}.
Definition list_get (l : list V) (index : nat) : option V := l !! index.
Definition list_remove (l : list V) (index : nat) : list V * option V :=
  if length l <=? index then (l, None)
  else (take index l ++ drop (S index) l, l !! index).
Definition list_insert (l : list V) (index : nat) (item : V) : res Empty_set (list V) :=
  if length l <? index then Panic IndexOutOfBounds else Ok (take index l ++ item :: drop index l).
Definition list_push (l : list V) (item : V) : list V := l ++ [item].
End ListAccess.

(** [BDictAccess for BTreeMap]. *)
Section DictAccess.
Context {V : Type}.
Definition dict_to_list (d : list (bytes * V)) : list (bytes * V) := d.
Definition dict_lookup (d : list (bytes * V)) (key : bytes) : option V := bt_lookup key d.
Definition dict_insert (d : list (bytes * V)) (key : bytes) (value : V) : list (bytes * V) * option V :=
  (bt_insert key value d, bt_lookup key d).
Definition dict_remove (d : list (bytes * V)) (key : bytes) : list (bytes * V) * option V :=
  (bt_remove key d, bt_lookup key d).
End DictAccess.

(** [ben_map!] and [ben_list!]: insert or push the arguments in order. *)
Definition ben_map (kvs : list (bytes * BencodeMut)) : BencodeMut :=
  MDict (foldl (λ d '(k, v), (dict_insert d k v).1) [] kvs).
Definition ben_list (vs : list BencodeMut) : BencodeMut := MList (foldl list_push [] vs).

(** * Read access (access/bencode.rs) *)

Inductive RefKind (T : Type) :=
  | KInt (n : Z)
  | KBytes (s : bytes)
  | KList (l : list T)
  | KDict (d : list (bytes * T)).
Arguments KInt {T} n.
Arguments KBytes {T} s.
Arguments KList {T} l.
Arguments KDict {T} d.

Class BRefAccess (T : Type) := {
  kind : T → RefKind T;
  ben_str : T → option bytes;
  ben_int : T → option Z;
  ben_bytes : T → option bytes;
  ben_list_of : T → option (list T);
  ben_dict : T → option (list (bytes * T))
}.

#[export] Instance BencodeRef_access : BRefAccess BencodeRef := {
  kind v := match v with RInt n _ => KInt n | RBytes s _ => KBytes s | RList l _ => KList l | RDict d _ => KDict d end;
  ben_str v := match v with RBytes s _ => str_from_utf8 s | _ => None end;
  ben_int v := match v with RInt n _ => Some n | _ => None end;
  ben_bytes v := match v with RBytes s _ => Some s | _ => None end;
  ben_list_of v := match v with RList l _ => Some l | _ => None end;
  ben_dict v := match v with RDict d _ => Some d | _ => None end
}.

#[export] Instance BencodeMut_access : BRefAccess BencodeMut := {
  kind v := match v with MInt n => KInt n | MBytes s => KBytes s | MList l => KList l | MDict d => KDict d end;
  ben_str v := match v with MBytes s => str_from_utf8 s | _ => None end;
  ben_int v := match v with MInt n => Some n | _ => None end;
  ben_bytes v := match v with MBytes s => Some s | _ => None end;
  ben_list_of v := match v with MList l => Some l | _ => None end;
  ben_dict v := match v with MDict d => Some d | _ => None end
}.

(** * Conversions with error reporting (access/convert.rs) *)

Section Convert.
Context {T : Type} `{!BRefAccess T} {E : Type} (handle_error : BencodeConvertError → E).

Definition convert_int (bencode : T) (error_key : bytes) : res E Z :=
  ok_or (handle_error (WrongType error_key EInteger)) (ben_int bencode).
Definition convert_bytes (bencode : T) (error_key : bytes) : res E bytes :=
  ok_or (handle_error (WrongType error_key EBytes)) (ben_bytes bencode).
Definition convert_str (bencode : T) (error_key : bytes) : res E bytes :=
  ok_or (handle_error (WrongType error_key EUtf8)) (ben_str bencode).
Definition convert_list (bencode : T) (error_key : bytes) : res E (list T) :=
  ok_or (handle_error (WrongType error_key EList)) (ben_list_of bencode).
Definition convert_dict (bencode : T) (error_key : bytes) : res E (list (bytes * T)) :=
  ok_or (handle_error (WrongType error_key EDictionary)) (ben_dict bencode).

Definition lookup (dictionary : list (bytes * T)) (key : bytes) : res E T :=
  match dict_lookup dictionary key with
  | None => Err (handle_error (MissingKey key))
  | Some v => Ok v
  end.

Definition lookup_and_convert_int (d : list (bytes * T)) (key : bytes) : res E Z :=
  v ← lookup d key; convert_int v key.
Definition lookup_and_convert_bytes (d : list (bytes * T)) (key : bytes) : res E bytes :=
  v ← lookup d key; convert_bytes v key.
Definition lookup_and_convert_str (d : list (bytes * T)) (key : bytes) : res E bytes :=
  v ← lookup d key; convert_str v key.
Definition lookup_and_convert_list (d : list (bytes * T)) (key : bytes) : res E (list T) :=
  v ← lookup d key; convert_list v key.
Definition lookup_and_convert_dict (d : list (bytes * T)) (key : bytes) : res E (list (bytes * T)) :=
  v ← lookup d key; convert_dict v key.
End Convert.
