(* ===== verification/BencodeTheorems.v ===== *)
(** packages/bencode: the decoder is total, returns the slices it consumed,
    respects its recursion limit, inverts the encoder, and with sorted keys
    accepts nothing but the encoder's output (a [+] sign apart). *)

From stdpp Require Import base list numbers sorting sets strings.
From S2P Require Import Prelude RustStd Bencode.

(** * Specification-side notions *)

(** The value a [BencodeRef] stands for, without the input slices. *)
Fixpoint erase (v : BencodeRef) : BencodeMut :=
  match v with
  | RInt n _ => MInt n
  | RBytes s _ => MBytes s
  | RList l _ => MList (erase <$> l)
  | RDict d _ => MDict ((λ '(k, v), (k, erase v)) <$> d)
  end.

(** Nesting depth; a leaf has height one. *)
Fixpoint height (v : BencodeMut) : nat :=
  match v with
  | MInt _ | MBytes _ => 1
  | MList l => S (foldr Nat.max 0 (height <$> l))
  | MDict d => S (foldr Nat.max 0 ((λ '(_, v), height v) <$> d))
  end.

(** A value Rust can hold: [i64] integers, slice lengths below [2^63], and
    [BTreeMap]s in key order. *)
Fixpoint wf_value (v : BencodeMut) : Prop :=
  match v with
  | MInt n => is_i64 n
  | MBytes s => is_i64 (Z.of_nat (length s))
  | MList l => foldr (λ x P, wf_value x ∧ P) True l
  | MDict d => bt_sorted d ∧ foldr (λ '(k, x) P, is_i64 (Z.of_nat (length k)) ∧ wf_value x ∧ P) True d
  end.

Section Induction.
Variable P : BencodeMut → Prop.
Hypothesis (HInt : ∀ n, P (MInt n)) (HBytes : ∀ s, P (MBytes s))
  (HList : ∀ l, Forall P l → P (MList l)) (HDict : ∀ d, Forall (λ kv, P kv.2) d → P (MDict d)).

Fixpoint BencodeMut_nested_ind (v : BencodeMut) : P v :=
  match v with
  | MInt n => HInt n
  | MBytes s => HBytes s
  | MList l => HList l ((fix go l : Forall P l :=
      match l with [] => @List.Forall_nil _ _ | x :: l' => @List.Forall_cons _ _ _ _ (BencodeMut_nested_ind x) (go l') end) l)
  | MDict d => HDict d ((fix go d : Forall (λ kv, P kv.2) d :=
      match d with
      | [] => @List.Forall_nil _ _
      | (k, x) :: d' => @List.Forall_cons _ _ (k, x) _ (BencodeMut_nested_ind x : P (k, x).2) (go d')
      end) d)
  end.
End Induction.

(** * The encoder *)

(** The bytes of one dictionary entry. *)
Definition encode_pair (kv : bytes * BencodeMut) : bytes :=
  encode_bytes kv.1 [] ++ BencodeMut_encode kv.2.

Definition enc_closures (d : list (bytes * BencodeMut)) : list (bytes * (bytes → bytes)) :=
  (λ kv : bytes * BencodeMut, (kv.1, encode kv.2)) <$> d.

Lemma encode_MList_eq l out :
  encode (MList l) out = foldl (λ o i, encode i o) (out ++ [LIST_START]) l ++ [BEN_END].
Proof.
  simpl. f_equal. generalize (out ++ [LIST_START]).
  induction l as [|x l IH]; intros o; simpl; auto.
Qed.

Lemma encode_MDict_eq d out :
  encode (MDict d) out =
  foldl (λ o '(key, value), value (encode_bytes key o)) (out ++ [DICT_START])
    (sort_by (λ x y, bytes_cmp x.1 y.1) (enc_closures d)) ++ [BEN_END].
Proof.
  simpl. f_equal. f_equal. f_equal. unfold enc_closures.
  induction d as [|[k v] d IH]; simpl; [done|]. by rewrite IH.
Qed.

Lemma encode_bytes_app l out : encode_bytes l out = out ++ encode_bytes l [].
Proof. unfold encode_bytes. by rewrite app_nil_l. Qed.

Lemma encode_app v out : encode v out = out ++ BencodeMut_encode v.
Proof.
  unfold BencodeMut_encode. revert out.
  induction v as [n|s|l IH|d IH] using BencodeMut_nested_ind; intros out.
  - done.
  - apply encode_bytes_app.
  - rewrite !encode_MList_eq, app_assoc. f_equal. simpl.
    assert (Hl : ∀ o1 o2, foldl (λ o i, encode i o) (o1 ++ o2) l = o1 ++ foldl (λ o i, encode i o) o2 l).
    { clear out. induction IH as [|x l Hx _ IHl]; intros o1 o2; simpl; [done|].
      rewrite (Hx (o1 ++ o2)), (Hx o2), <- app_assoc. apply IHl. }
    apply (Hl out).
  - rewrite !encode_MDict_eq, app_assoc. f_equal. simpl.
    assert (Hs : Forall (λ kf : bytes * (bytes → bytes), ∀ o, kf.2 o = o ++ kf.2 [])
                   (sort_by (λ x y, bytes_cmp x.1 y.1) (enc_closures d))).
    { rewrite sort_by_perm. unfold enc_closures. apply Forall_fmap. by eapply Forall_impl. }
    assert (Hl : ∀ o1 o2, foldl (λ o '(key, value), value (encode_bytes key o)) (o1 ++ o2)
        (sort_by (λ x y, bytes_cmp x.1 y.1) (enc_closures d)) =
      o1 ++ foldl (λ o '(key, value), value (encode_bytes key o)) o2
        (sort_by (λ x y, bytes_cmp x.1 y.1) (enc_closures d))).
    { clear out. induction Hs as [|[k f] fs Hx _ IHl]; intros o1 o2; simpl; [done|].
      simpl in Hx. rewrite (encode_bytes_app k (o1 ++ o2)), (encode_bytes_app k o2), (Hx (_ ++ _)).
      rewrite (Hx (o2 ++ _)), <- !app_assoc. apply IHl. }
    apply (Hl out).
Qed.

Lemma encode_list_concat l :
  BencodeMut_encode (MList l) = LIST_START :: concat (BencodeMut_encode <$> l) ++ [BEN_END].
Proof.
  unfold BencodeMut_encode at 1. rewrite encode_MList_eq. simpl.
  assert (H : ∀ o, foldl (λ o i, encode i o) o l = o ++ concat (BencodeMut_encode <$> l)).
  { induction l as [|x l IH]; intros o; simpl; [by rewrite app_nil_r|].
    by rewrite IH, encode_app, app_assoc. }
  by rewrite H.
Qed.

Lemma encode_dict_concat d :
  bt_sorted d →
  BencodeMut_encode (MDict d) = DICT_START :: concat (encode_pair <$> d) ++ [BEN_END].
Proof.
  intros Hs. unfold BencodeMut_encode at 1. rewrite encode_MDict_eq, sort_by_id; simpl.
  - assert (H : ∀ o, foldl (λ o '(key, value), value (encode_bytes key o)) o (enc_closures d)
                     = o ++ concat (encode_pair <$> d)).
    { clear Hs. induction d as [|[k v] d IH]; intros o; simpl; [by rewrite app_nil_r|].
      rewrite IH. simpl. rewrite encode_app, encode_bytes_app. unfold encode_pair. simpl.
      by rewrite <- !app_assoc. }
    by rewrite H.
  - unfold bt_sorted, bytes_lt, enc_closures in *.
    induction d as [|[k v] d IH]; simpl in *; [constructor|].
    inversion Hs as [|? ? Hs1 Hs2]; subst. constructor; [auto|].
    apply Forall_fmap. by apply Forall_fmap in Hs2.
Qed.

(** * Integers and byte strings *)

Lemma position_Some (p : Z → bool) l i :
  iter_position p l = Some i → ∃ x, l !! i = Some x ∧ p x = true ∧ Forall (λ y, p y = false) (take i l).
Proof.
  intros (x & Hx & Hp & Hlt)%iter_position_Some. exists x. split; [done|]. split; [done|].
  apply Forall_lookup. intros j y [Hy Hj]%lookup_take_Some. by eapply Hlt.
Qed.

Lemma position_app (p : Z → bool) l x r :
  Forall (λ y, p y = false) l → p x = true → iter_position p (l ++ x :: r) = Some (length l).
Proof.
  intros Hl Hx. induction Hl as [|y l Hy _ IH]; simpl; [by rewrite Hx|]. by rewrite Hy, IH.
Qed.

Section DecodeLemmas.
Context (input : bytes).

Lemma peek_byte_Ok pos c : peek_byte input pos = Ok c ↔ input !! pos = Some c.
Proof. unfold peek_byte, ok_or. destruct (input !! pos); split; congruence. Qed.

Lemma peek_byte_lt pos c : peek_byte input pos = Ok c → pos < length input.
Proof. rewrite peek_byte_Ok. apply lookup_lt_Some. Qed.

Lemma index_range_Ok i j : i ≤ j → j ≤ length input → index_range input i j = Ok (slice input i j).
Proof.
  intros H1 H2. unfold index_range.
  destruct (Nat.leb_spec i j), (Nat.leb_spec j (length input)); simpl; done || lia.
Qed.

(** What a successful integer parse read: the bytes up to the delimiter. *)
Lemma decode_int_Ok pos delim n next :
  decode_int input pos delim = Ok (n, next) →
  pos < next ≤ length input ∧ parse_i64 (slice input pos (next - 1)) = Some n ∧
  slice input pos next = slice input pos (next - 1) ++ [delim] ∧
  (∀ c d r, slice input pos (next - 1) = c :: d :: r → c ≠ 48%Z ∧ ¬ (c = 45%Z ∧ d = 48%Z)).
Proof.
  unfold decode_int. destruct (length input <? pos) eqn:El; [done|]. bool_arith.
  destruct (iter_position _ _) as [rel|] eqn:Ep; [|done].
  apply position_Some in Ep as (x & Hx & Hd & _). bool_arith. subst x.
  set (s := take rel (drop pos input)).
  destruct ((1 <? length s) && (is_byte s 0 45 && is_byte s 1 48)) eqn:E1; [done|].
  destruct ((1 <? length s) && is_byte s 0 48) eqn:E2; [done|].
  unfold str_from_utf8. destruct (utf8_valid s); simpl; [|done].
  destruct (parse_i64 s) eqn:Epi; simpl; [|done]. intros [= <- <-].
  pose proof (lookup_lt_Some _ _ _ Hx) as Hlt. rewrite length_drop in Hlt.
  replace (pos + rel + 1 - 1) with (pos + rel) by lia.
  assert (Hs : slice input pos (pos + rel) = s).
  { unfold slice, s. f_equal. lia. }
  rewrite Hs. split; [lia|]. split; [done|]. split.
  - rewrite <- (slice_slice_app input pos (pos + rel)) by lia. rewrite Hs. f_equal.
    replace (pos + rel + 1) with (S (pos + rel)) by lia.
    apply slice_lookup. by rewrite <- lookup_drop.
  - intros c d r Heq. rewrite Heq in E1, E2. unfold is_byte in E1, E2.
    split; [intros ->|intros [-> ->]]; rewrite ?bool_decide_eq_true_2 in * by done; done.
Qed.

Lemma decode_int_total pos delim : pos ≤ length input → no_panic (decode_int input pos delim).
Proof.
  intros Hp f. unfold decode_int. destruct (Nat.ltb_spec (length input) pos); [lia|].
  destruct (iter_position _ _); [|done].
  repeat case_match; try done. destruct (str_from_utf8 _); simpl; [|done].
  by destruct (parse_i64 _).
Qed.

Lemma decode_bytes_Ok pos s next :
  decode_bytes input pos = Ok (s, next) →
  ∃ n start, decode_int input pos BYTE_LEN_END = Ok (n, start) ∧ (0 ≤ n)%Z ∧
    next = start + Z.to_nat n ∧ next ≤ length input ∧ s = slice input start next.
Proof.
  unfold decode_bytes. intros H.
  destruct (decode_int input pos BYTE_LEN_END) as [[n start]| |] eqn:Ed; simpl in H; [|done|done].
  pose proof (decode_int_Ok _ _ _ _ Ed) as [Hpos _].
  destruct (n <? 0)%Z eqn:En; [done|]. bool_arith.
  rewrite (index_range_Ok start (length input)) in H by lia. simpl in H. rewrite length_slice in H by lia.
  destruct (_ <? n)%Z eqn:Eo; [done|]. bool_arith.
  rewrite index_range_Ok in H by lia. simpl in H. injection H as <- <-.
  exists n, start. repeat split; auto; lia.
Qed.

Lemma decode_bytes_total pos : pos ≤ length input → no_panic (decode_bytes input pos).
Proof.
  intros Hp f. unfold decode_bytes.
  destruct (decode_int input pos BYTE_LEN_END) as [[n start]| |] eqn:Ed; simpl; [|done|].
  - pose proof (decode_int_Ok _ _ _ _ Ed) as [Hpos _].
    destruct (n <? 0)%Z eqn:En; [done|]. bool_arith.
    rewrite (index_range_Ok start (length input)) by lia. simpl. rewrite length_slice by lia.
    destruct (_ <? n)%Z eqn:Eo; [done|]. bool_arith. by rewrite index_range_Ok by lia.
  - by apply decode_int_total in Ed.
Qed.

Lemma decode_bytes_pos pos s next :
  decode_bytes input pos = Ok (s, next) → pos < next ≤ length input.
Proof.
  intros (n & start & Ed & ? & ? & ? & ?)%decode_bytes_Ok.
  pose proof (decode_int_Ok _ _ _ _ Ed) as [? _]. lia.
Qed.
End DecodeLemmas.

(** * What a successful decode returns *)

Definition no_plus (l : bytes) : Prop := Forall (λ c, c ≠ 43%Z) l.

Lemma no_plus_head l : no_plus l → head l ≠ Some 43%Z.
Proof. destruct 1; simpl; congruence. Qed.

Lemma no_plus_app l k : no_plus (l ++ k) ↔ no_plus l ∧ no_plus k.
Proof. apply Forall_app. Qed.

Lemma usize_i64_to_string n : (0 ≤ n)%Z → usize_to_string (Z.to_nat n) = i64_to_string n.
Proof.
  intros Hn. unfold usize_to_string, i64_to_string. rewrite Z2Nat.id by done.
  by destruct (Z.ltb_spec n 0); [lia|].
Qed.

Lemma parse_i64_range l n : parse_i64 l = Some n → is_i64 n.
Proof.
  assert (H0 : is_i64 0) by (unfold is_i64, i64_min, i64_max; lia).
  unfold parse_i64. destruct l as [|c l]; [done|].
  destruct (_ || _); [destruct l; [done|]|]; intros H; exact (parse_digits_range _ _ _ _ H0 H).
Qed.

Section DecodeOk.
Context (input : bytes) (opts : BDecodeOpt).

Lemma decode_int_canonical pos delim n next :
  decode_int input pos delim = Ok (n, next) → no_plus (slice input pos next) →
  slice input pos next = i64_to_string n ++ [delim].
Proof.
  intros (Hp & Hn & Hs & Hz)%decode_int_Ok Hplus. rewrite Hs in *.
  apply no_plus_app in Hplus as [Hplus _]. f_equal.
  by apply parse_i64_canonical; [|apply no_plus_head|].
Qed.

Lemma decode_bytes_wf pos s next :
  decode_bytes input pos = Ok (s, next) → is_i64 (Z.of_nat (length s)).
Proof.
  intros (n & start & Ed & Hn & -> & Hl & ->)%decode_bytes_Ok.
  pose proof (decode_int_Ok _ _ _ _ _ Ed) as (Hp & Hpi & _).
  rewrite length_slice by lia. apply parse_i64_range in Hpi.
  by replace (Z.of_nat _) with n by lia.
Qed.

Lemma decode_bytes_canonical pos s next :
  decode_bytes input pos = Ok (s, next) → no_plus (slice input pos next) →
  slice input pos next = encode_bytes s [].
Proof.
  intros (n & start & Ed & Hn & -> & Hl & ->)%decode_bytes_Ok Hplus.
  pose proof (decode_int_Ok _ _ _ _ _ Ed) as [Hp _].
  rewrite <- (slice_slice_app input pos start) in * by lia.
  apply no_plus_app in Hplus as [Hplus _].
  rewrite (decode_int_canonical _ _ _ _ Ed Hplus). unfold encode_bytes.
  rewrite length_slice by lia. replace (start + Z.to_nat n - start) with (Z.to_nat n) by lia.
  by rewrite usize_i64_to_string, <- app_assoc.
Qed.

Definition value_ok (depth : nat) (v : BencodeRef) : Prop :=
  wf_value (erase v) ∧ depth + height (erase v) ≤ max_recursion opts.

Definition canonical (pos next : nat) (out : bytes) : Prop :=
  check_key_sort opts = true → no_plus (slice input pos next) → slice input pos next = out.

Definition good (pos depth : nat) (v : BencodeRef) (next : nat) : Prop :=
  pos < next ≤ length input ∧ buffer v = slice input pos next ∧ value_ok depth v ∧
  canonical pos next (BencodeMut_encode (erase v)).

Definition erase_pair (kv : bytes * BencodeRef) : bytes * BencodeMut := (kv.1, erase kv.2).

Definition good_list (acc : list BencodeRef) (curr depth : nat) (l : list BencodeRef) (next : nat) : Prop :=
  curr < next ≤ length input ∧
  ∃ items, l = acc ++ items ∧ Forall (value_ok (depth + 1)) items ∧
    canonical curr next (concat (BencodeMut_encode <$> (erase <$> items)) ++ [BEN_END]).

Definition entry_ok (depth : nat) (kv : bytes * BencodeRef) : Prop :=
  is_i64 (Z.of_nat (length kv.1)) ∧ value_ok depth kv.2.

Definition good_dict (acc : list (bytes * BencodeRef)) (curr depth : nat)
    (d : list (bytes * BencodeRef)) (next : nat) : Prop :=
  curr < next ≤ length input ∧
  (bt_sorted acc → Forall (entry_ok (depth + 1)) acc →
   bt_sorted d ∧ Forall (entry_ok (depth + 1)) d ∧
   (check_key_sort opts = true → ∃ items, d = acc ++ items ∧
      canonical curr next (concat (encode_pair <$> (erase_pair <$> items)) ++ [BEN_END]))).

Lemma height_list depth l :
  Forall (value_ok (depth + 1)) l → depth < max_recursion opts → 
  depth + height (MList (erase <$> l)) ≤ max_recursion opts.
Proof.
  intros Hl Hd. simpl.
  assert (depth + 1 + foldr Nat.max 0 (height <$> (erase <$> l)) ≤ max_recursion opts); [|lia].
  induction Hl as [|v l [_ Hv] _ IH]; csimpl; lia.
Qed.

Lemma wf_list depth l : Forall (value_ok depth) l → wf_value (MList (erase <$> l)).
Proof. simpl. induction 1 as [|v l [Hv _] _ IH]; csimpl; auto. Qed.

Lemma height_dict depth d :
  Forall (entry_ok (depth + 1)) d → depth < max_recursion opts →
  depth + height (MDict (erase_pair <$> d)) ≤ max_recursion opts.
Proof.
  intros Hl Hd. simpl.
  assert (depth + 1 + foldr Nat.max 0 ((λ '(_, v), height v) <$> (erase_pair <$> d)) ≤ max_recursion opts); [|lia].
  induction Hl as [|[k v] l [_ [_ Hv]] _ IH]; csimpl in *; lia.
Qed.

Lemma wf_dict depth d :
  bt_sorted d → Forall (entry_ok depth) d → wf_value (MDict (erase_pair <$> d)).
Proof.
  intros Hs Hd. simpl. split.
  - unfold bt_sorted in *. rewrite <- list_fmap_compose. done.
  - clear Hs. induction Hd as [|[k v] l [Hk [Hv _]] _ IH]; csimpl in *; auto.
Qed.

Lemma erase_RDict d u : erase (RDict d u) = MDict (erase_pair <$> d).
Proof. simpl. f_equal. apply list_fmap_ext. by intros i [k v] _. Qed.

Lemma canonical_split pos mid next o1 o2 :
  pos ≤ mid → mid ≤ next → canonical pos mid o1 → canonical mid next o2 → canonical pos next (o1 ++ o2).
Proof.
  intros H1 H2 C1 C2 Hs. rewrite <- (slice_slice_app input pos mid) by done.
  intros [Hp1 Hp2]%no_plus_app. by rewrite <- C1, <- C2.
Qed.

Lemma canonical_byte pos c : input !! pos = Some c → canonical pos (pos + 1) [c].
Proof. intros H _ _. rewrite Nat.add_1_r. by apply slice_lookup. Qed.

Lemma canonical_bytes pos s next :
  decode_bytes input pos = Ok (s, next) → canonical pos next (encode_bytes s []).
Proof. intros H _ Hp. by apply decode_bytes_canonical. Qed.

Lemma canonical_eq pos next o o' : canonical pos next o → o = o' → canonical pos next o'.
Proof. by intros ? <-. Qed.

Lemma decode_int_step pos depth n next u :
  depth < max_recursion opts → input !! pos = Some INT_START →
  decode_int input (pos + 1) BEN_END = Ok (n, next) → u = slice input pos next →
  good pos depth (RInt n u) next.
Proof.
  intros Hd Hb Hi ->. pose proof (decode_int_Ok _ _ _ _ _ Hi) as (Hp & Hn & _).
  split; [lia|]. split; [done|]. split; [split; [by apply parse_i64_range in Hn|simpl; lia]|].
  eapply canonical_eq; [eapply (canonical_split pos (pos + 1)); [lia|lia|by apply canonical_byte|]|].
  - intros _ Hplus. by apply (decode_int_canonical _ _ _ _ Hi).
  - done.
Qed.

Lemma decode_bytes_step pos depth s next u :
  depth < max_recursion opts → decode_bytes input pos = Ok (s, next) → u = slice input pos next →
  good pos depth (RBytes s u) next.
Proof.
  intros Hd Hi ->. pose proof (decode_bytes_pos _ _ _ _ Hi) as Hp.
  split; [lia|]. split; [done|]. split; [split; [by eapply decode_bytes_wf|simpl; lia]|].
  by apply canonical_bytes.
Qed.

Lemma decode_list_step pos depth l next u :
  depth < max_recursion opts → input !! pos = Some LIST_START →
  good_list [] (pos + 1) depth l next → u = slice input pos next → good pos depth (RList l u) next.
Proof.
  intros Hd Hb (Hp & items & -> & Hi & Hc) ->. simpl.
  split; [lia|]. split; [done|]. split; [split; [by eapply wf_list|by apply height_list]|].
  simpl erase. rewrite encode_list_concat.
  apply (canonical_split pos (pos + 1) next [LIST_START]); [lia|lia|by apply canonical_byte|done].
Qed.

Lemma decode_dict_step pos depth d next u :
  depth < max_recursion opts → input !! pos = Some DICT_START →
  good_dict [] (pos + 1) depth d next → u = slice input pos next → good pos depth (RDict d u) next.
Proof.
  intros Hd Hb (Hp & Hg) ->.
  destruct Hg as (Hs & Hf & Hc); [by constructor|by constructor|]. unfold good, value_ok.
  rewrite erase_RDict. pose proof (wf_dict _ _ Hs Hf) as Hwf.
  split; [lia|]. split; [done|]. split; [split; [done|by apply height_dict]|].
  intros Hck Hplus. destruct (Hc Hck) as (items & -> & Hcan).
  rewrite encode_dict_concat by apply Hwf. revert Hck Hplus.
  apply (canonical_split pos (pos + 1) next [DICT_START]); [lia|lia|by apply canonical_byte|done].
Qed.

Lemma list_loop_end acc curr depth :
  input !! curr = Some BEN_END → good_list acc curr depth acc (curr + 1).
Proof.
  intros Hb. pose proof (lookup_lt_Some _ _ _ Hb). split; [lia|].
  exists []. rewrite app_nil_r. split; [done|]. split; [done|]. by apply canonical_byte.
Qed.

Lemma list_loop_item acc curr depth v mid l next :
  good curr (depth + 1) v mid → good_list (acc ++ [v]) mid depth l next →
  good_list acc curr depth l next.
Proof.
  intros (Hp1 & _ & Hv & Hc1) (Hp2 & items & -> & Hi & Hc2). split; [lia|].
  exists (v :: items). rewrite <- app_assoc. split; [done|]. split; [by constructor|].
  eapply canonical_eq; [eapply (canonical_split curr mid); [lia|lia|done|done]|].
  csimpl. by rewrite app_assoc.
Qed.

Lemma dict_loop_end acc curr depth :
  input !! curr = Some BEN_END → good_dict acc curr depth acc (curr + 1).
Proof.
  intros Hb. pose proof (lookup_lt_Some _ _ _ Hb). split; [lia|]. intros Hs Hf.
  split; [done|]. split; [done|]. intros _. exists []. rewrite app_nil_r. split; [done|].
  by apply canonical_byte.
Qed.

Lemma entry_ok_insert depth k v m :
  entry_ok depth (k, v) → Forall (entry_ok depth) m → Forall (entry_ok depth) (bt_insert k v m).
Proof. apply bt_insert_Forall. Qed.

Lemma last_key_above (acc : list (bytes * BencodeRef)) k :
  bt_sorted acc → bt_lookup k acc = None →
  match bt_last_key acc with Some last_key => bytes_ltb k last_key | None => false end = false →
  Forall (λ k0, bytes_lt k0 k) (fst <$> acc).
Proof.
  intros Hs Hl. destruct (bt_last_key acc) as [kl|] eqn:E.
  - intros Hlt. eapply bt_last_key_lt; [done|done|]. apply bytes_not_lt; [done|]. intros ->.
    unfold bt_last_key in E. destruct (last acc) as [[k1 v1]|] eqn:El; simpl in E; [|done].
    injection E as ->. apply last_Some in El as [m ->].
    apply bt_sorted_app in Hs as (_ & _ & Hs). clear Hlt.
    induction m as [|[k2 v2] m IH]; simpl in Hl; [by rewrite bytes_cmp_refl in Hl|].
    assert (H2 : bytes_lt k2 kl) by (apply Hs; simpl; left).
    rewrite bytes_cmp_opp in Hl. unfold bytes_lt in H2. rewrite H2 in Hl. simpl in Hl.
    apply IH; [done|]. intros ka kb Ha Hb. apply Hs; [by right|done].
  - unfold bt_last_key in E. destruct acc as [|x acc] using rev_ind; [constructor|].
    by rewrite last_snoc in E.
Qed.

Lemma dict_loop_item acc curr depth k vpos v mid d next :
  decode_bytes input curr = Ok (k, vpos) →
  match bt_last_key acc with Some lk => check_key_sort opts && bytes_ltb k lk | None => false end = false →
  good vpos (depth + 1) v mid → bt_lookup k acc = None →
  good_dict (bt_insert k v acc) mid depth d next → good_dict acc curr depth d next.
Proof.
  intros Hk Hlast (Hp1 & _ & Hv & Hc1) Hlk (Hp2 & Hg).
  pose proof (decode_bytes_pos _ _ _ _ Hk). split; [lia|]. intros Hs Hf.
  assert (He : entry_ok (depth + 1) (k, v)) by (split; [by eapply decode_bytes_wf|done]).
  destruct Hg as (Hs' & Hf' & Hc); [by apply bt_insert_sorted|by apply entry_ok_insert|].
  split; [done|]. split; [done|]. intros Hck. destruct (Hc Hck) as (items & -> & Hcan).
  rewrite Hck in Hlast. exists ((k, v) :: items).
  rewrite (bt_insert_snoc k v acc), <- app_assoc by (by apply last_key_above).
  split; [done|].
  eapply canonical_eq; [eapply (canonical_split curr mid); [lia|lia| |done]|].
  - apply (canonical_split curr vpos); [lia|lia|by apply canonical_bytes|done].
  - csimpl. unfold encode_pair, erase_pair. simpl. by rewrite !app_assoc.
Qed.

Definition fuel_good (fuel : nat) : Prop :=
  (∀ pos depth v next, decode_fuel input opts fuel pos depth = Ok (v, next) → good pos depth v next) ∧
  (∀ acc curr c depth l next, input !! curr = Some c →
     decode_list_loop input opts fuel acc curr c depth = Ok (l, next) → good_list acc curr depth l next) ∧
  (∀ acc curr c depth d next, input !! curr = Some c →
     decode_dict_loop input opts fuel acc curr c depth = Ok (d, next) → good_dict acc curr depth d next).

Lemma decode_fuel_value fuel pos depth v next :
  fuel_good fuel → decode_fuel input opts (S fuel) pos depth = Ok (v, next) → good pos depth v next.
Proof.
  intros (_ & IHl & IHm) H. simpl in H. destruct (_ <=? depth) eqn:Ed; [done|]. bool_arith.
  bind_inv H as c eqn Eb. apply peek_byte_Ok in Eb.
  destruct (c =? INT_START)%Z eqn:E1; [|destruct (c =? LIST_START)%Z eqn:E2;
    [|destruct (c =? DICT_START)%Z eqn:E3; [|destruct (_ && _); [|done]]]]; bool_arith; subst.
  - bind_inv H as [n nx] eqn Ei. pose proof (decode_int_Ok _ _ _ _ _ Ei) as [Hp _].
    rewrite index_range_Ok in H by lia. simpl in H. injection H as <- <-. by apply decode_int_step.
  - bind_inv H as [l nx] eqn El. bind_inv El as c' eqn Ec.
    apply peek_byte_Ok in Ec. pose proof (IHl _ _ _ _ _ _ Ec El) as Hg.
    rewrite index_range_Ok in H by (destruct Hg; lia). simpl in H. injection H as <- <-.
    by apply decode_list_step.
  - bind_inv H as [l nx] eqn El. bind_inv El as c' eqn Ec.
    apply peek_byte_Ok in Ec. pose proof (IHm _ _ _ _ _ _ Ec El) as Hg.
    rewrite index_range_Ok in H by (destruct Hg; lia). simpl in H. injection H as <- <-.
    by apply decode_dict_step.
  - bind_inv H as [s nx] eqn Ei. pose proof (decode_bytes_pos _ _ _ _ Ei).
    rewrite index_range_Ok in H by lia. simpl in H. injection H as <- <-. by apply decode_bytes_step.
Qed.

Lemma decode_fuel_good fuel : fuel_good fuel.
Proof.
  induction fuel as [|fuel IH]; [done|]. split; [|destruct IH as (IHd & IHl & IHm); split].
  - intros. by eapply decode_fuel_value.
  - intros acc curr c depth l next Hc H. simpl in H.
    destruct (c =? BEN_END)%Z eqn:E; bool_arith; [subst; injection H as <- <-; by apply list_loop_end|].
    bind_inv H as [v mid] eqn Ev. bind_inv H as c' eqn Eb. apply peek_byte_Ok in Eb.
    eapply list_loop_item; [by apply IHd|]. by eapply IHl.
  - intros acc curr c depth d next Hc H. simpl in H.
    destruct (c =? BEN_END)%Z eqn:E; bool_arith; [subst; injection H as <- <-; by apply dict_loop_end|].
    bind_inv H as [k vpos] eqn Ek.
    destruct (match bt_last_key acc with Some _ => _ | None => _ end) eqn:Elast; [done|].
    bind_inv H as [v mid] eqn Ev. destruct (bt_lookup k acc) eqn:Elk; [done|].
    bind_inv H as c' eqn Eb. apply peek_byte_Ok in Eb.
    eapply dict_loop_item; [done|done|by apply IHd|done|]. by eapply IHm.
Qed.
End DecodeOk.

(** * Totality: the fuel suffices and no index is out of range *)

Section Total.
Context (input : bytes) (opts : BDecodeOpt).

Definition fuel_total (fuel : nat) : Prop :=
  (∀ pos depth, 2 * (length input - pos) + 1 ≤ fuel → no_panic (decode_fuel input opts fuel pos depth)) ∧
  (∀ acc curr c depth, input !! curr = Some c → 2 * (length input - curr) + 2 ≤ fuel →
     no_panic (decode_list_loop input opts fuel acc curr c depth)) ∧
  (∀ acc curr c depth, input !! curr = Some c → 2 * (length input - curr) + 2 ≤ fuel →
     no_panic (decode_dict_loop input opts fuel acc curr c depth)).

Lemma peek_byte_total pos : no_panic (peek_byte input pos).
Proof. unfold peek_byte. by destruct (input !! pos). Qed.

Lemma decode_fuel_total_value fuel pos depth :
  fuel_total fuel → 2 * (length input - pos) + 1 ≤ S fuel →
  no_panic (decode_fuel input opts (S fuel) pos depth).
Proof.
  intros (_ & IHl & IHm) Hf. simpl. destruct (_ <=? depth); [auto with rust|].
  apply no_panic_bind; [apply peek_byte_total|]. intros c Hc. pose proof (peek_byte_lt _ _ _ Hc) as Hlt.
  pose proof (decode_fuel_good input opts fuel) as (_ & Gl & Gm).
  repeat case_match; auto with rust; (apply no_panic_bind; [|intros [x nx] Hx; apply no_panic_bind; [|auto with rust]]).
  - apply decode_int_total. lia.
  - apply decode_int_Ok in Hx as [? _]. by rewrite index_range_Ok by lia.
  - apply no_panic_bind; [apply peek_byte_total|]. intros c' Hc'. pose proof (peek_byte_lt _ _ _ Hc').
    apply peek_byte_Ok in Hc'. apply IHl; [done|lia].
  - bind_inv Hx as c' eqn Hc'. apply peek_byte_Ok in Hc'. destruct (Gl _ _ _ _ _ _ Hc' Hx) as [? _].
    by rewrite index_range_Ok by lia.
  - apply no_panic_bind; [apply peek_byte_total|]. intros c' Hc'. pose proof (peek_byte_lt _ _ _ Hc').
    apply peek_byte_Ok in Hc'. apply IHm; [done|lia].
  - bind_inv Hx as c' eqn Hc'. apply peek_byte_Ok in Hc'. destruct (Gm _ _ _ _ _ _ Hc' Hx) as [? _].
    by rewrite index_range_Ok by lia.
  - apply decode_bytes_total. lia.
  - apply decode_bytes_pos in Hx. by rewrite index_range_Ok by lia.
Qed.

Lemma decode_fuel_total fuel : fuel_total fuel.
Proof.
  induction fuel as [|fuel IH]; [split; [|split]; intros; lia|].
  split; [intros; by apply decode_fuel_total_value|]. destruct IH as (IHd & IHl & IHm).
  pose proof (decode_fuel_good input opts fuel) as (Gd & _ & _).
  split; intros acc curr c depth Hc Hf; pose proof (lookup_lt_Some _ _ _ Hc) as Hlt; simpl;
    (destruct (_ =? _)%Z; [auto with rust|]).
  - apply no_panic_bind; [apply IHd; lia|]. intros [v mid] Hv. destruct (Gd _ _ _ _ Hv) as [Hp _].
    apply no_panic_bind; [apply peek_byte_total|]. intros c' Hc'. pose proof (peek_byte_lt _ _ _ Hc').
    apply IHl; [by apply peek_byte_Ok|lia].
  - apply no_panic_bind; [apply decode_bytes_total; lia|]. intros [k vpos] Hk.
    apply decode_bytes_pos in Hk. destruct (match bt_last_key acc with Some _ => _ | None => _ end); [auto with rust|].
    apply no_panic_bind; [apply IHd; lia|]. intros [v mid] Hv. destruct (Gd _ _ _ _ Hv) as [Hp _].
    destruct (bt_lookup k acc); [auto with rust|].
    apply no_panic_bind; [apply peek_byte_total|]. intros c' Hc'. pose proof (peek_byte_lt _ _ _ Hc').
    apply IHm; [by apply peek_byte_Ok|lia].
Qed.
End Total.

(** * Decoding the encoder's output *)

Lemma i64_to_string_chars n : is_i64 n → Forall (λ c, c = 45%Z ∨ (48 ≤ c ≤ 57)%Z) (i64_to_string n).
Proof.
  intros Hn. unfold i64_to_string. destruct (n <? 0)%Z eqn:E; bool_arith.
  - constructor; [by left|]. eapply Forall_impl; [apply digits_all; lia|]. auto.
  - eapply Forall_impl; [apply digits_all; lia|]. auto.
Qed.

Lemma utf8_ascii l : Forall (λ c, (0 ≤ c ≤ 127)%Z) l → utf8_valid l = true.
Proof.
  induction 1 as [|c l Hc _ IH]; simpl; [done|]. unfold in_range.
  destruct (Z.leb_spec 0 c), (Z.leb_spec c 127); simpl; try lia. done.
Qed.

Lemma i64_to_string_shape n c d r :
  is_i64 n → i64_to_string n = c :: d :: r → c ≠ 48%Z ∧ ¬ (c = 45%Z ∧ d = 48%Z).
Proof.
  intros Hn. pose proof (dec_fuel_i64 n Hn) as Hb. unfold i64_to_string.
  destruct (digits_hd dec_fuel (Z.abs n)) as (x & y & Heq & Hc & Hz); [unfold dec_fuel; lia|done|].
  destruct (n <? 0)%Z eqn:E; bool_arith.
  - replace (- n)%Z with (Z.abs n) by lia. rewrite Heq. intros [= <- <- <-].
    split; [done|]. intros [_ ->]. destruct (Hz eq_refl). lia.
  - replace n with (Z.abs n) at 1 by lia. rewrite Heq. intros [= <- ->].
    split; [intros ->; by destruct (Hz eq_refl)|]. intros [-> _]. lia.
Qed.

Section RoundTrip.
Context (opts : BDecodeOpt).

Lemma decode_int_print n delim pre post :
  is_i64 n → (58 ≤ delim)%Z →
  decode_int (pre ++ i64_to_string n ++ delim :: post) (length pre) delim =
  Ok (n, length pre + length (i64_to_string n) + 1).
Proof.
  intros Hn Hd. unfold decode_int. rewrite length_app.
  destruct (Nat.ltb_spec (length pre + length (i64_to_string n ++ delim :: post)) (length pre)); [lia|].
  rewrite drop_app_length. pose proof (i64_to_string_chars n Hn) as Hc.
  rewrite position_app; [|eapply Forall_impl; [exact Hc|]|apply Z.eqb_refl].
  2:{ simpl. intros x Hx. apply Z.eqb_neq. lia. }
  rewrite take_app_length.
  assert (Hu : utf8_valid (i64_to_string n) = true).
  { apply utf8_ascii. eapply Forall_impl; [exact Hc|]. simpl. lia. }
  assert (Hs : ∀ c d r, i64_to_string n = c :: d :: r → c ≠ 48%Z ∧ ¬ (c = 45%Z ∧ d = 48%Z))
    by (intros; by eapply i64_to_string_shape).
  pose proof (parse_i64_to_string n Hn) as Hp. unfold str_from_utf8. rewrite Hu.
  destruct (i64_to_string n) as [|c [|d r]]; [done|simpl in *; by rewrite Hp|].
  destruct (Hs c d r eq_refl) as [H1 H2]. unfold is_byte.
  rewrite (bool_decide_eq_false_2 (_ !! 0 = Some 48%Z)) by (simpl; congruence).
  replace (_ && (_ && _)) with false.
  - rewrite andb_false_r. cbn -[parse_i64 Nat.add]. by rewrite Hp.
  - symmetry. simpl. repeat case_bool_decide; naive_solver.
Qed.

Lemma encode_bytes_eq s :
  encode_bytes s [] = i64_to_string (Z.of_nat (length s)) ++ BYTE_LEN_END :: s.
Proof.
  unfold encode_bytes. rewrite <- usize_i64_to_string by lia. by rewrite Nat2Z.id.
Qed.

Lemma decode_bytes_print s pre post :
  is_i64 (Z.of_nat (length s)) →
  decode_bytes (pre ++ encode_bytes s [] ++ post) (length pre) =
  Ok (s, length pre + length (encode_bytes s [])).
Proof.
  intros Hs. rewrite encode_bytes_eq, <- app_assoc, <- app_comm_cons. unfold decode_bytes.
  rewrite decode_int_print by (auto; unfold BYTE_LEN_END; lia). simpl.
  set (str := i64_to_string (Z.of_nat (length s))).
  set (inp := pre ++ str ++ BYTE_LEN_END :: s ++ post).
  destruct (Z.ltb_spec (Z.of_nat (length s)) 0); [lia|].
  assert (Hlen : length inp = length pre + length str + 1 + length s + length post).
  { unfold inp. rewrite !length_app. simpl. rewrite length_app. lia. }
  rewrite (index_range_Ok inp _ (length inp)) by lia. simpl. rewrite length_slice by lia.
  destruct (Z.ltb_spec (Z.of_nat (length inp - (length pre + length str + 1))) (Z.of_nat (length s))); [lia|].
  rewrite Nat2Z.id, index_range_Ok by lia. simpl.
  replace (slice inp _ _) with s.
  - f_equal. f_equal. rewrite !length_app. simpl. lia.
  - symmetry. unfold inp. replace (pre ++ str ++ BYTE_LEN_END :: s ++ post)
      with ((pre ++ str ++ [BYTE_LEN_END]) ++ s ++ post) by (by rewrite <- !app_assoc).
    apply slice_app; rewrite !length_app; simpl; lia.
Qed.

Definition round_trips (m : BencodeMut) : Prop :=
  ∀ fuel pre post depth, depth + height m ≤ max_recursion opts →
    2 * length (BencodeMut_encode m) ≤ fuel →
    ∃ v, decode_fuel (pre ++ BencodeMut_encode m ++ post) opts fuel (length pre) depth
         = Ok (v, length pre + length (BencodeMut_encode m)) ∧ erase v = m.

Lemma encode_bytes_hd s : is_i64 (Z.of_nat (length s)) →
  ∃ c r, encode_bytes s [] = c :: r ∧ (48 ≤ c ≤ 57)%Z.
Proof.
  intros Hs. rewrite encode_bytes_eq. unfold i64_to_string.
  destruct (Z.ltb_spec (Z.of_nat (length s)) 0); [lia|].
  destruct (digits_hd dec_fuel (Z.of_nat (length s))) as (c & r & -> & Hc & _);
    [unfold dec_fuel; lia| |by eexists _, _].
  pose proof (dec_fuel_i64 _ Hs). lia.
Qed.

Lemma encode_hd m : wf_value m → ∃ c r, BencodeMut_encode m = c :: r ∧ c ≠ BEN_END.
Proof.
  destruct m as [n|s|l|d]; simpl; intros Hwf.
  - by eexists _, _.
  - destruct (encode_bytes_hd s Hwf) as (c & r & Heq & Hc). exists c, r. split; [done|].
    unfold BEN_END. lia.
  - rewrite encode_list_concat. by eexists _, _.
  - destruct Hwf as [Hs _]. rewrite encode_dict_concat by done. by eexists _, _.
Qed.

Lemma decode_step_int n : wf_value (MInt n) → round_trips (MInt n).
Proof.
  intros Hn fuel pre post depth Hd Hf. destruct fuel as [|fuel]; [simpl in Hf; lia|].
  exists (RInt n (slice (pre ++ BencodeMut_encode (MInt n) ++ post) (length pre)
           (length pre + length (BencodeMut_encode (MInt n))))). split; [|done].
  set (inp := pre ++ _ ++ post). cbn [decode_fuel].
  simpl in Hd. destruct (Nat.leb_spec (max_recursion opts) depth); [lia|].
  assert (Hpk : peek_byte inp (length pre) = Ok INT_START).
  { apply peek_byte_Ok. unfold inp. by rewrite lookup_app_r, Nat.sub_diag by lia. }
  rewrite Hpk. simpl mbind. cbn [Z.eqb]. simpl.
  assert (Hinp : inp = (pre ++ [INT_START]) ++ i64_to_string n ++ BEN_END :: post).
  { unfold inp, BencodeMut_encode. simpl. unfold encode_int. simpl. by rewrite <- !app_assoc. }
  rewrite Hinp at 1. replace (length pre + 1) with (length (pre ++ [INT_START])) by (by rewrite length_app).
  rewrite decode_int_print by (auto; unfold BEN_END; lia). simpl.
  assert (Hnx : length (pre ++ [INT_START]) + length (i64_to_string n) + 1
                = length pre + length (BencodeMut_encode (MInt n))).
  { unfold BencodeMut_encode. simpl. unfold encode_int. rewrite !length_app. simpl. lia. }
  rewrite Hnx, index_range_Ok; [done|lia|].
  unfold inp. rewrite !length_app. lia.
Qed.

Lemma decode_step_bytes s : wf_value (MBytes s) → round_trips (MBytes s).
Proof.
  intros Hs fuel pre post depth Hd Hf. simpl in Hs. destruct (encode_bytes_hd s Hs) as (c & r & Heq & Hc).
  change (BencodeMut_encode (MBytes s)) with (encode_bytes s []) in *.
  destruct fuel as [|fuel]; [rewrite Heq in Hf; simpl in Hf; lia|].
  exists (RBytes s (slice (pre ++ encode_bytes s [] ++ post) (length pre)
           (length pre + length (encode_bytes s [])))). split; [|done].
  set (inp := pre ++ _ ++ post). cbn [decode_fuel].
  simpl in Hd. destruct (Nat.leb_spec (max_recursion opts) depth); [lia|].
  assert (Hpk : peek_byte inp (length pre) = Ok c).
  { apply peek_byte_Ok. unfold inp. by rewrite lookup_app_r, Nat.sub_diag, Heq by lia. }
  rewrite Hpk. simpl mbind. unfold INT_START, LIST_START, DICT_START, BYTE_LEN_LOW, BYTE_LEN_HIGH.
  destruct (Z.eqb_spec c 105), (Z.eqb_spec c 108), (Z.eqb_spec c 100), (Z.leb_spec 48 c), (Z.leb_spec c 57);
    try lia. cbn [andb].
  rewrite (decode_bytes_print s pre post Hs : decode_bytes inp (length pre) = _). simpl mbind.
  rewrite index_range_Ok; [done|lia|]. unfold inp. rewrite !length_app. lia.
Qed.

Lemma decode_fuel_list inp fuel pos depth :
  depth < max_recursion opts → inp !! pos = Some LIST_START →
  decode_fuel inp opts (S fuel) pos depth =
  ('(bencode, next_pos) ← (curr ← peek_byte inp (pos + 1); decode_list_loop inp opts fuel [] (pos + 1) curr depth);
   buf ← index_range inp pos next_pos; Ok (RList bencode buf, next_pos)).
Proof.
  intros Hd Hc. cbn [decode_fuel]. destruct (Nat.leb_spec (max_recursion opts) depth); [lia|].
  by rewrite (proj2 (peek_byte_Ok _ _ _) Hc).
Qed.

Lemma decode_fuel_dict inp fuel pos depth :
  depth < max_recursion opts → inp !! pos = Some DICT_START →
  decode_fuel inp opts (S fuel) pos depth =
  ('(bencode, next_pos) ← (curr ← peek_byte inp (pos + 1); decode_dict_loop inp opts fuel [] (pos + 1) curr depth);
   buf ← index_range inp pos next_pos; Ok (RDict bencode buf, next_pos)).
Proof.
  intros Hd Hc. cbn [decode_fuel]. destruct (Nat.leb_spec (max_recursion opts) depth); [lia|].
  by rewrite (proj2 (peek_byte_Ok _ _ _) Hc).
Qed.

Lemma list_loop_print l :
  Forall (λ m, wf_value m ∧ round_trips m) l → ∀ acc fuel pre post depth c,
  depth + 1 + foldr Nat.max 0 (height <$> l) ≤ max_recursion opts →
  2 * (length (concat (BencodeMut_encode <$> l)) + 1) ≤ fuel →
  (pre ++ concat (BencodeMut_encode <$> l) ++ BEN_END :: post) !! length pre = Some c →
  ∃ vs, decode_list_loop (pre ++ concat (BencodeMut_encode <$> l) ++ BEN_END :: post) opts fuel acc
          (length pre) c depth
        = Ok (acc ++ vs, length pre + length (concat (BencodeMut_encode <$> l)) + 1) ∧ erase <$> vs = l.
Proof.
  induction 1 as [|m l [Hwf Hrt] _ IH]; intros acc fuel pre post depth c Hd Hf Hc;
    (destruct fuel as [|fuel]; [lia|]).
  - csimpl in *. rewrite list_lookup_middle in Hc by done. injection Hc as <-.
    exists []. rewrite app_nil_r, Nat.add_0_r. done.
  - csimpl in *. destruct (encode_hd m Hwf) as (c0 & r & Heq & Hne).
    rewrite length_app in *. assert (1 ≤ length (BencodeMut_encode m)) by (rewrite Heq; simpl; lia).
    rewrite lookup_app_r, Nat.sub_diag, Heq in Hc by lia. injection Hc as <-.
    rewrite <- app_assoc. rewrite (proj2 (Z.eqb_neq _ _) Hne).
    destruct (Hrt fuel pre (concat (BencodeMut_encode <$> l) ++ BEN_END :: post) (depth + 1)) as (v & -> & Hv);
      [lia|lia|]. simpl mbind.
    set (pre' := pre ++ BencodeMut_encode m).
    replace (pre ++ BencodeMut_encode m ++ concat (BencodeMut_encode <$> l) ++ BEN_END :: post)
      with (pre' ++ concat (BencodeMut_encode <$> l) ++ BEN_END :: post) by (unfold pre'; by rewrite <- app_assoc).
    replace (length pre + length (BencodeMut_encode m)) with (length pre') by (unfold pre'; by rewrite length_app).
    destruct (lookup_lt_is_Some_2 (pre' ++ concat (BencodeMut_encode <$> l) ++ BEN_END :: post) (length pre'))
      as [c1 Hc1]; [rewrite !length_app; simpl; lia|].
    rewrite (proj2 (peek_byte_Ok _ _ _) Hc1). simpl mbind.
    destruct (IH (acc ++ [v]) fuel pre' post depth c1) as (vs & -> & Hvs); [lia|lia|done|].
    exists (v :: vs). rewrite <- app_assoc. split; [|csimpl; by rewrite Hv, Hvs].
    do 2 f_equal. unfold pre'. rewrite length_app. lia.
Qed.

Lemma wf_list_Forall l : wf_value (MList l) ↔ Forall wf_value l.
Proof.
  simpl. split; [|induction 1; simpl; auto].
  induction l; simpl; [constructor|]. intros [? ?]. constructor; auto.
Qed.

Lemma decode_step_list l :
  Forall (λ m, wf_value m → round_trips m) l → wf_value (MList l) → round_trips (MList l).
Proof.
  intros IH Hwf fuel pre post depth Hd Hf. apply wf_list_Forall in Hwf.
  assert (Hrt : Forall (λ m, wf_value m ∧ round_trips m) l).
  { eapply Forall_impl; [apply Forall_and; split; [exact Hwf|exact IH]|]. simpl. tauto. }
  rewrite encode_list_concat in *. set (body := concat (BencodeMut_encode <$> l)) in *.
  simpl in Hf. rewrite length_app in Hf. simpl in Hf. destruct fuel as [|fuel]; [lia|].
  set (pre' := pre ++ [LIST_START]).
  assert (Hin : pre ++ (LIST_START :: body ++ [BEN_END]) ++ post = pre' ++ body ++ BEN_END :: post).
  { unfold pre'. simpl. by rewrite <- !app_assoc. }
  rewrite Hin. set (inp := pre' ++ body ++ BEN_END :: post) in *.
  simpl in Hd. rewrite decode_fuel_list;
    [|lia|rewrite <- Hin; by rewrite lookup_app_r, Nat.sub_diag by lia].
  replace (length pre + 1) with (length pre') by (unfold pre'; by rewrite length_app).
  assert (Hlen : length inp = length pre' + length body + 1 + length post).
  { unfold inp. rewrite !length_app. simpl. lia. }
  destruct (lookup_lt_is_Some_2 inp (length pre')) as [c Hc]; [lia|].
  rewrite (proj2 (peek_byte_Ok _ _ _) Hc).
  destruct (list_loop_print l Hrt [] fuel pre' post depth c) as (vs & Hl & Hvs);
    [lia|fold body; lia|exact Hc|].
  fold body in Hl. fold inp in Hl. simpl mbind. rewrite Hl. simpl mbind.
  assert (Hnx : length pre' = length pre + 1) by (unfold pre'; by rewrite length_app).
  rewrite index_range_Ok by lia. exists (RList vs (slice inp (length pre) (length pre' + length body + 1))).
  split; [|simpl; by rewrite Hvs]. simpl. do 2 f_equal. rewrite length_app. simpl. lia.
Qed.

Lemma last_key_accepts (acc : list (bytes * BencodeRef)) k (check : bool) :
  Forall (λ k0, bytes_lt k0 k) (fst <$> acc) →
  match bt_last_key acc with Some lk => check && bytes_ltb k lk | None => false end = false.
Proof.
  intros Hlt. unfold bt_last_key. destruct (last acc) as [[k1 v1]|] eqn:El; [|done]. simpl.
  apply last_Some in El as [acc' ->]. rewrite fmap_app in Hlt.
  apply Forall_app in Hlt as [_ Hlt]. apply Forall_cons in Hlt as [Hlt _]. simpl in Hlt.
  unfold bytes_ltb. rewrite bytes_cmp_opp, Hlt. apply andb_false_r.
Qed.

Lemma sorted_below (acc : list (bytes * BencodeRef)) k m d :
  bt_sorted ((erase_pair <$> acc) ++ (k, m) :: d) → Forall (λ k0, bytes_lt k0 k) (fst <$> acc).
Proof.
  intros (_ & _ & Hs)%bt_sorted_app. apply Forall_forall. intros k0 Hk0.
  apply Hs; [|simpl; left]. by rewrite <- list_fmap_compose.
Qed.

(** A value that was read from its encoding has it as its slice of the input. *)
Definition exact_entry (kv : bytes * BencodeRef) : Prop := buffer kv.2 = BencodeMut_encode (erase kv.2).

Lemma decoded_exact fuel pre m post depth v :
  decode_fuel (pre ++ BencodeMut_encode m ++ post) opts fuel (length pre) depth = Ok (v, length pre + length (BencodeMut_encode m)) →
  erase v = m → buffer v = BencodeMut_encode (erase v).
Proof.
  intros Hd ->. destruct (decode_fuel_good (pre ++ BencodeMut_encode m ++ post) opts fuel) as (Hg & _ & _).
  destruct (Hg _ _ _ _ Hd) as (_ & -> & _). by apply slice_app.
Qed.

Lemma dict_loop_print d :
  Forall (λ kv, is_i64 (Z.of_nat (length kv.1)) ∧ wf_value kv.2 ∧ round_trips kv.2) d →
  ∀ acc fuel pre post depth c,
  bt_sorted ((erase_pair <$> acc) ++ d) →
  depth + 1 + foldr Nat.max 0 ((λ '(_, v), height v) <$> d) ≤ max_recursion opts →
  2 * (length (concat (encode_pair <$> d)) + 1) ≤ fuel →
  (pre ++ concat (encode_pair <$> d) ++ BEN_END :: post) !! length pre = Some c →
  ∃ vs, decode_dict_loop (pre ++ concat (encode_pair <$> d) ++ BEN_END :: post) opts fuel acc
          (length pre) c depth
        = Ok (acc ++ vs, length pre + length (concat (encode_pair <$> d)) + 1) ∧ erase_pair <$> vs = d ∧ Forall exact_entry vs.
Proof.
  induction 1 as [|[k m] d (Hk & Hwf & Hrt) _ IH]; intros acc fuel pre post depth c Hs Hd Hf Hc;
    (destruct fuel as [|fuel]; [lia|]).
  - csimpl in *. rewrite list_lookup_middle in Hc by done. injection Hc as <-.
    exists []. rewrite app_nil_r, Nat.add_0_r. done.
  - csimpl in *. assert (Hep : encode_pair (k, m) = encode_bytes k [] ++ BencodeMut_encode m) by done.
    rewrite Hep in *.
    destruct (encode_bytes_hd k Hk) as (c0 & r & Heq & Hne).
    set (rest := concat (encode_pair <$> d)) in *.
    rewrite !length_app in *. assert (1 ≤ length (encode_bytes k [])) by (rewrite Heq; simpl; lia).
    rewrite lookup_app_r, Nat.sub_diag, Heq in Hc by lia. injection Hc as <-.
    destruct (Z.eqb_spec c0 BEN_END) as [->|_]; [unfold BEN_END in Hne; lia|].
    rewrite <- !app_assoc. 
    rewrite decode_bytes_print by done. simpl mbind.
    assert (Hlt : Forall (λ k0, bytes_lt k0 k) (fst <$> acc)) by (by eapply sorted_below).
    rewrite (bt_lookup_snoc k acc Hlt).
    rewrite (last_key_accepts acc k _ Hlt).
    destruct (Hrt fuel (pre ++ encode_bytes k []) (rest ++ BEN_END :: post) (depth + 1)) as (v & Hdec & Hv);
      [lia|lia|].
    assert (Hx := decoded_exact _ _ _ _ _ _ Hdec Hv).
    rewrite <- !app_assoc, length_app in Hdec. rewrite Hdec. simpl mbind.
    set (pre' := pre ++ encode_bytes k [] ++ BencodeMut_encode m).
    replace (pre ++ encode_bytes k [] ++ BencodeMut_encode m ++ rest ++ BEN_END :: post)
      with (pre' ++ rest ++ BEN_END :: post) by (unfold pre'; by rewrite <- !app_assoc).
    replace (length pre + length (encode_bytes k []) + length (BencodeMut_encode m)) with (length pre')
      by (unfold pre'; rewrite !length_app; lia).
    destruct (lookup_lt_is_Some_2 (pre' ++ rest ++ BEN_END :: post) (length pre'))
      as [c1 Hc1]; [rewrite !length_app; simpl; lia|].
    rewrite (proj2 (peek_byte_Ok _ _ _) Hc1). simpl mbind. rewrite (bt_insert_snoc k v acc Hlt).
    destruct (IH (acc ++ [(k, v)]) fuel pre' post depth c1) as (vs & Hl & Hvs & Hxs); [|lia|fold rest; lia|done|].
    { rewrite fmap_app. simpl. unfold erase_pair at 2. simpl. by rewrite Hv, <- app_assoc. }
    fold rest in Hl. rewrite Hl.
    exists ((k, v) :: vs). rewrite <- app_assoc. split; [|split; [|by constructor]].
    + do 2 f_equal. unfold pre'. rewrite !length_app. lia.
    + csimpl. unfold erase_pair at 1. simpl. by rewrite Hv, Hvs.
Qed.

Lemma wf_dict_Forall d :
  wf_value (MDict d) ↔ bt_sorted d ∧ Forall (λ kv, is_i64 (Z.of_nat (length kv.1)) ∧ wf_value kv.2) d.
Proof.
  simpl. split; intros [Hs H]; (split; [done|]); clear Hs.
  - induction d as [|[k v] d IH]; simpl in *; [constructor|]. destruct H as (? & ? & ?).
    constructor; [done|auto].
  - induction H as [|[k v] d [? ?] _ IH]; simpl in *; auto.
Qed.

(** A dictionary, with its entries. *)
Lemma decode_entries d fuel pre post depth :
  Forall (λ kv, wf_value kv.2 → round_trips kv.2) d → wf_value (MDict d) → depth + height (MDict d) ≤ max_recursion opts →
  2 * length (BencodeMut_encode (MDict d)) ≤ fuel →
  ∃ vs b, decode_fuel (pre ++ BencodeMut_encode (MDict d) ++ post) opts fuel (length pre) depth
         = Ok (RDict vs b, length pre + length (BencodeMut_encode (MDict d))) ∧ erase_pair <$> vs = d ∧ Forall exact_entry vs.
Proof.
  intros IH [Hs Hwf]%wf_dict_Forall Hd Hf.
  assert (Hrt : Forall (λ kv, is_i64 (Z.of_nat (length kv.1)) ∧ wf_value kv.2 ∧ round_trips kv.2) d).
  { eapply Forall_impl; [apply Forall_and; split; [exact Hwf|exact IH]|]. simpl. tauto. }
  rewrite encode_dict_concat in * by done. set (body := concat (encode_pair <$> d)) in *.
  simpl in Hf. rewrite length_app in Hf. simpl in Hf. destruct fuel as [|fuel]; [lia|].
  set (pre' := pre ++ [DICT_START]).
  assert (Hin : pre ++ (DICT_START :: body ++ [BEN_END]) ++ post = pre' ++ body ++ BEN_END :: post).
  { unfold pre'. simpl. by rewrite <- !app_assoc. }
  rewrite Hin. set (inp := pre' ++ body ++ BEN_END :: post) in *.
  simpl in Hd. rewrite decode_fuel_dict;
    [|lia|rewrite <- Hin; by rewrite lookup_app_r, Nat.sub_diag by lia].
  replace (length pre + 1) with (length pre') by (unfold pre'; by rewrite length_app).
  assert (Hlen : length inp = length pre' + length body + 1 + length post).
  { unfold inp. rewrite !length_app. simpl. lia. }
  destruct (lookup_lt_is_Some_2 inp (length pre')) as [c Hc]; [lia|].
  rewrite (proj2 (peek_byte_Ok _ _ _) Hc).
  destruct (dict_loop_print d Hrt [] fuel pre' post depth c) as (vs & Hl & Hvs);
    [exact Hs|lia|fold body; lia|exact Hc|].
  fold body in Hl. fold inp in Hl. simpl mbind. rewrite Hl. simpl mbind.
  assert (Hnx : length pre' = length pre + 1) by (unfold pre'; by rewrite length_app).
  rewrite index_range_Ok by lia. exists vs, (slice inp (length pre) (length pre' + length body + 1)).
  split; [|done]. simpl. do 2 f_equal. rewrite length_app. simpl. lia.
Qed.

Lemma decode_step_dict d :
  Forall (λ kv, wf_value kv.2 → round_trips kv.2) d → wf_value (MDict d) → round_trips (MDict d).
Proof.
  intros IH Hwf fuel pre post depth Hd Hf. destruct (decode_entries d fuel pre post depth IH Hwf Hd Hf) as (vs & b & Hv & Hvs & _).
  exists (RDict vs b). split; [done|]. by rewrite erase_RDict, Hvs.
Qed.

Lemma decode_encode_fuel m : wf_value m → round_trips m.
Proof.
  induction m as [n|s|l IH|d IH] using BencodeMut_nested_ind.
  - apply decode_step_int.
  - apply decode_step_bytes.
  - by apply decode_step_list.
  - by apply decode_step_dict.
Qed.
End RoundTrip.

(** The encoding of a dictionary is read back as its entries, each with its
    encoding as its slice of the input. *)
Lemma decode_encode_dict opts d : wf_value (MDict d) → height (MDict d) ≤ max_recursion opts →
  ∃ vs b, BencodeRef_decode (BencodeMut_encode (MDict d)) opts = Ok (RDict vs b) ∧ erase_pair <$> vs = d ∧ Forall exact_entry vs.
Proof.
  intros Hwf Hh. set (e := BencodeMut_encode (MDict d)).
  destruct (decode_entries opts d (decode_budget e) [] [] 0) as (vs & b & Hd & Hvs & Hx);
    [apply Forall_forall; intros kv _; apply decode_encode_fuel|done|lia|unfold decode_budget; fold e; lia|].
  fold e in Hd. rewrite app_nil_l, app_nil_r in Hd. simpl in Hd. exists vs, b. split; [|done].
  unfold BencodeRef_decode, decode. rewrite Hd. cbn [mbind res_bind]. by rewrite Nat.eqb_refl.
Qed.

(** The encoding of a value is read back in front of bytes that the options
    allow to be left over. *)
Lemma decode_encode_prefix opts m post :
  wf_value m → height m ≤ max_recursion opts → (enforce_full_decode opts = false ∨ post = []) →
  ∃ v, BencodeRef_decode (BencodeMut_encode m ++ post) opts = Ok v ∧ erase v = m ∧ buffer v = BencodeMut_encode m.
Proof.
  intros Hwf Hh Hpost. set (e := BencodeMut_encode m).
  destruct (decode_encode_fuel opts m Hwf (decode_budget (e ++ post)) [] post 0) as (v & Hd & He);
    [lia|unfold decode_budget; fold e; rewrite length_app; lia|].
  fold e in Hd. rewrite app_nil_l in Hd. simpl in Hd.
  destruct (decode_fuel_good (e ++ post) opts (decode_budget (e ++ post))) as (Hg & _ & _).
  destruct (Hg _ _ _ _ Hd) as (_ & Hb & _). exists v. split; [|split; [done|]].
  - unfold BencodeRef_decode, decode. rewrite Hd. cbn [mbind res_bind].
    destruct Hpost as [-> | ->]; [by rewrite andb_false_r|].
    rewrite app_nil_r, Nat.eqb_refl. done.
  - rewrite Hb. by apply (slice_app [] e post).
Qed.

(** * The component's properties *)

(** Claim C2. Decoding arbitrary bytes at any position, with any options,
    terminates with a value or a [BencodeParseError]: no slice index is out of
    range and the recursion never outlasts the input. *)
Theorem decode_total input pos opts depth : no_panic (decode input pos opts depth).
Proof. unfold decode, decode_budget. apply decode_fuel_total. lia. Qed.

(** Claim C3. A successful decode consumed at least one byte, stayed within
    the input, its [buffer()] is exactly the consumed slice, its dictionaries
    are in key order with [i64] integers, and its nesting fits the recursion
    limit left at its depth. *)
Theorem decode_sound input pos opts depth v next :
  decode input pos opts depth = Ok (v, next) →
  pos < next ≤ length input ∧ buffer v = slice input pos next ∧
  wf_value (erase v) ∧ depth + height (erase v) ≤ max_recursion opts.
Proof.
  intros H. destruct (decode_fuel_good input opts (decode_budget input)) as (Hg & _ & _).
  destruct (Hg _ _ _ _ H) as (? & ? & [? ?] & _). auto.
Qed.

Lemma decode_sound_witness :
  decode (bstr "xd1:ai-7ee9"%string) 1 BDecodeOpt_default 0
    = Ok (RDict [(bstr "a"%string, RInt (-7) (bstr "i-7e"%string))] (bstr "d1:ai-7ee"%string), 10) ∧
  1 < 10 ≤ length (bstr "xd1:ai-7ee9"%string).
Proof.
  split; [reflexivity|].
  exact (proj1 (decode_sound (bstr "xd1:ai-7ee9"%string) 1 BDecodeOpt_default 0 _ 10 eq_refl)).
Defined.

(** Claim C1. Round trip: decoding what [BencodeMut::encode] wrote for a
    value within the recursion limit gives back that value and its bytes. *)
Theorem decode_encode_roundtrip opts m :
  wf_value m → height m ≤ max_recursion opts →
  ∃ v, BencodeRef_decode (BencodeMut_encode m) opts = Ok v ∧ erase v = m ∧ buffer v = BencodeMut_encode m.
Proof.
  intros Hwf Hh. destruct (decode_encode_prefix opts m [] Hwf Hh (or_intror eq_refl)) as (v & Hv).
  exists v. by rewrite app_nil_r in Hv.
Qed.

Definition sample_value : BencodeMut :=
  MDict [(bstr "a"%string, MList [MInt (-3); MBytes (bstr "xy"%string)]); (bstr "b"%string, MInt 0)].

Lemma decode_encode_witness :
  ∃ v, BencodeRef_decode (BencodeMut_encode sample_value) BDecodeOpt_default = Ok v ∧
    erase v = sample_value ∧ buffer v = BencodeMut_encode sample_value.
Proof.
  apply decode_encode_roundtrip.
  - simpl. unfold bt_sorted, is_i64, i64_min, i64_max. simpl. repeat split; try lia.
    repeat constructor.
  - simpl. lia.
Defined.

(** Claim C4. Canonical form: with [check_key_sort], input that decodes and
    contains no [+] is byte for byte what the encoder writes for the decoded
    value, so a value has one accepted form. *)
Theorem decode_strict_canonical input opts v :
  check_key_sort opts = true → enforce_full_decode opts = true → no_plus input →
  BencodeRef_decode input opts = Ok v → BencodeMut_encode (erase v) = input.
Proof.
  intros Hck Hfull Hplus H. unfold BencodeRef_decode in H. bind_inv H as [v' next] eqn Hd.
  destruct (decode_fuel_good input opts (decode_budget input)) as (Hg & _ & _).
  destruct (Hg _ _ _ _ Hd) as (Hp & _ & _ & Hcan). rewrite Hfull, andb_true_r in H.
  destruct (Nat.eqb_spec next (length input)) as [->|]; [|done]. simpl in H. injection H as ->.
  unfold canonical in Hcan. rewrite slice_all in Hcan. by rewrite <- Hcan.
Qed.

Definition strict_opts : BDecodeOpt :=
  {| max_recursion := 50; check_key_sort := true; enforce_full_decode := true |}.

Lemma decode_strict_witness :
  BencodeMut_encode (erase (RList [RInt 4 (bstr "i4e"%string)] (bstr "li4ee"%string))) = bstr "li4ee"%string.
Proof.
  apply (decode_strict_canonical (bstr "li4ee"%string) strict_opts); [done|done| |reflexivity].
  repeat constructor; discriminate.
Defined.

Lemma parse_digits_zeros k l :
  parse_digits false 0 (replicate k 48%Z ++ l) = parse_digits false 0 l.
Proof. induction k as [|k IH]; simpl; auto. Qed.

Lemma parse_plus_padded k n :
  (0 ≤ n)%Z → is_i64 n → parse_i64 (43%Z :: replicate k 48%Z ++ i64_to_string n) = Some n.
Proof.
  intros Hn Hr. pose proof (dec_fuel_i64 n Hr) as Hb.
  assert (Hp : parse_digits false 0 (replicate k 48%Z ++ i64_to_string n) = Some n).
  { rewrite parse_digits_zeros. unfold i64_to_string. destruct (Z.ltb_spec n 0); [lia|].
    rewrite <- (app_nil_r (digits _ _)), parse_digits_digits; [done|unfold dec_fuel; lia|lia|done]. }
  unfold parse_i64. simpl orb. cbn iota. change (43 =? 45)%Z with false.
  assert (Hne : i64_to_string n ≠ []).
  { intros E. pose proof (parse_i64_to_string n Hr) as H. by rewrite E in H. }
  destruct (replicate k 48%Z ++ i64_to_string n) eqn:E; [|by rewrite <- E in *].
  by apply app_eq_nil in E as [_ ?].
Qed.

(** The zero-padding check looks at the first byte only, so any
    number of zeros is accepted after a [+]: the decoder reads
    [i+0...0ne] as [n]. *)
Theorem decode_accepts_padded_plus k n opts :
  (0 ≤ n)%Z → is_i64 n → 0 < max_recursion opts →
  let input := INT_START :: (43%Z :: replicate k 48%Z ++ i64_to_string n) ++ [BEN_END] in
  BencodeRef_decode input opts = Ok (RInt n input).
Proof.
  intros Hn Hr Hd. set (str := 43%Z :: replicate k 48%Z ++ i64_to_string n). intros input.
  pose proof (i64_to_string_chars n Hr) as Hc.
  assert (Hch : Forall (λ c, (43 ≤ c ≤ 57)%Z) str).
  { constructor; [lia|]. apply Forall_app. split.
    - apply Forall_replicate. lia.
    - eapply Forall_impl; [exact Hc|]. simpl. lia. }
  assert (Hi : decode_int input (0 + 1) BEN_END = Ok (n, length input)).
  { unfold decode_int. destruct (Nat.ltb_spec (length input) (0 + 1)); [simpl in *; lia|].
    change (drop (0 + 1) input) with (str ++ [BEN_END]).
    rewrite position_app; [|eapply Forall_impl; [exact Hch|]|done].
    2:{ simpl. intros c Hc'. apply Z.eqb_neq. unfold BEN_END. lia. }
    rewrite take_app_length. unfold str_from_utf8. rewrite utf8_ascii by (eapply Forall_impl; [exact Hch|]; simpl; lia).
    unfold is_byte. change (str !! 0) with (Some 43%Z).
    rewrite !bool_decide_eq_false_2 by congruence. rewrite !andb_false_r. cbn iota.
    cbn [ok_or mbind res_bind]. unfold str. rewrite parse_plus_padded by done.
    cbn [ok_or mbind res_bind]. do 2 f_equal. fold str. unfold input. cbn [length].
    rewrite length_app. cbn [length]. lia. }
  unfold BencodeRef_decode, decode, decode_budget. replace (2 * length input + 2) with (S (2 * length input + 1)) by lia.
  cbn [decode_fuel]. destruct (Nat.leb_spec (max_recursion opts) 0); [lia|].
  change (peek_byte input 0) with (@Ok BencodeParseError Z INT_START). cbn [mbind res_bind].
  change (INT_START =? INT_START)%Z with true. cbn iota. rewrite Hi. cbn [mbind res_bind].
  rewrite index_range_Ok by lia. cbn [mbind res_bind]. rewrite Nat.eqb_refl. cbn [negb andb].
  do 2 f_equal. apply slice_all.
Qed.

Lemma decode_accepts_padded_witness :
  BencodeRef_decode (bstr "i+007e"%string) BDecodeOpt_default = Ok (RInt 7 (bstr "i+007e"%string)).
Proof.
  apply (decode_accepts_padded_plus 2 7 BDecodeOpt_default);
    [lia|unfold is_i64, i64_min, i64_max; lia|simpl; lia].
Defined.
