(* ===== verification/BencodeErase.v ===== *)
(** Reading a decoded dictionary ([BencodeRef]) gives the same as reading the
    value it stands for ([BencodeMut]): the lemmas that carry a parser's
    behaviour on built values over to decoded ones. *)

From stdpp Require Import base numbers list.
From S2P Require Import Prelude RustStd Bencode BencodeTheorems.

Lemma bt_lookup_erase k (d : list (bytes * BencodeRef)) : bt_lookup k (erase_pair <$> d) = erase <$> bt_lookup k d.
Proof. induction d as [|[k' v] d IH]; [done|]. csimpl. by destruct (bytes_cmp k k'). Qed.

Lemma erase_dict_inv v d : erase v = MDict d → ∃ d' u, v = RDict d' u ∧ erase_pair <$> d' = d.
Proof.
  destruct v as [| | |d' u]; [done|done|done|]. rewrite erase_RDict. intros [= <-]. by exists d', u.
Qed.

Section Erased.
Context {Er : Type} (he : BencodeConvertError → Er).
Implicit Types d : list (bytes * BencodeRef).

(** Looking up and converting to a flat value gives the same on both sides. *)
Lemma erase_lookup {A} (fr : BencodeRef → res Er A) (fm : BencodeMut → res Er A) d k :
  (∀ v, fr v = fm (erase v)) →
  (lookup he d k ≫= fr) = (lookup he (erase_pair <$> d) k ≫= fm).
Proof.
  intros Hf. unfold lookup, dict_lookup. rewrite bt_lookup_erase.
  destruct (bt_lookup k d); simpl; [apply Hf|done].
Qed.

Lemma lookup_int_erase d k :
  lookup_and_convert_int he d k = lookup_and_convert_int he (erase_pair <$> d) k.
Proof. apply erase_lookup. by intros []. Qed.

Lemma lookup_bytes_erase d k :
  lookup_and_convert_bytes he d k = lookup_and_convert_bytes he (erase_pair <$> d) k.
Proof. apply erase_lookup. by intros []. Qed.

Lemma lookup_str_erase d k :
  lookup_and_convert_str he d k = lookup_and_convert_str he (erase_pair <$> d) k.
Proof. apply erase_lookup. by intros []. Qed.
(** Nested dictionaries and lists are erased in turn. *)
Lemma lookup_dict_erase d k :
  lookup_and_convert_dict (T:=BencodeMut) he (erase_pair <$> d) k =
    (λ e : list (bytes * BencodeRef), erase_pair <$> e) <$> lookup_and_convert_dict he d k.
Proof.
  unfold lookup_and_convert_dict, lookup, dict_lookup. rewrite bt_lookup_erase.
  destruct (bt_lookup k d) as [[| | |e u]|]; [done|done|done| |done].
  cbn [fmap option_fmap option_map mbind res_bind]. by rewrite erase_RDict.
Qed.

Lemma lookup_list_erase d k :
  lookup_and_convert_list (T:=BencodeMut) he (erase_pair <$> d) k =
    (λ e : list BencodeRef, erase <$> e) <$> lookup_and_convert_list he d k.
Proof.
  unfold lookup_and_convert_list, lookup, dict_lookup. rewrite bt_lookup_erase.
  by destruct (bt_lookup k d) as [[| | |e u]|].
Qed.
End Erased.
