(* ===== verification/BencodeAccess.v ===== *)
(** packages/bencode/src/access and cow.rs: mutable access to values, indexing,
    the iterator over a list, the readers whose result outlives the value, and
    the conversions to [Cow].

    A mutable reference into a value is its target with the function that puts
    a new one in its place.  A [Cow], a [String] and a slice are their bytes. *)

From stdpp Require Import base numbers strings list.
From S2P Require Import Prelude RustStd Bencode BencodeTheorems.

Definition ref_mut (A S : Type) : Type := A * (A → S).

(** * Lists (access/list.rs) *)

Section ListMut.
Context {V : Type}.
Implicit Types l : list V.

Definition blist_get_mut l (index : nat) : option (ref_mut V (list V)) :=
  (λ v, (v, λ v', <[index := v']> l)) <$> l !! index.

Definition list_len l : nat := length l.
Definition list_is_empty l : bool := match l with [] => true | _ => false end.

(** [Index] and [IndexMut] *)
Definition list_index l (index : nat) : res Empty_set V := unwrap (list_get l index).
Definition list_index_mut l (index : nat) : res Empty_set (ref_mut V (list V)) := unwrap (blist_get_mut l index).

Record BListIter := { li_index : nat; li_access : list V }.
Definition list_into_iter l : BListIter := {| li_index := 0; li_access := l |}.
Definition BListIter_next (self : BListIter) : BListIter * option V :=
  let opt_next := list_get (li_access self) (li_index self) in
  (if opt_next is Some _ then {| li_index := li_index self + 1; li_access := li_access self |} else self, opt_next).

(** [collect]: until [next] gives nothing. *)
Fixpoint BListIter_collect (fuel : nat) (self : BListIter) : res Empty_set (list V) :=
  match fuel with
  | O => Panic OutOfFuel
  | S fuel =>
      match BListIter_next self with
      | (self, Some v) => rest ← BListIter_collect fuel self; Ok (v :: rest)
      | (_, None) => Ok []
      end
  end.

Lemma collect_from fuel l i : length l < i + fuel → i ≤ length l →
  BListIter_collect fuel {| li_index := i; li_access := l |} = Ok (drop i l).
Proof.
  revert i. induction fuel as [|fuel IH]; intros i Hf Hi; [lia|]. cbn [BListIter_collect]. unfold BListIter_next, list_get. cbn [li_access li_index].
  destruct (l !! i) as [v|] eqn:E.
  - apply lookup_lt_Some in E as Hlt. rewrite Nat.add_1_r, IH by lia. cbn. by rewrite (drop_S l v i E).
  - apply lookup_ge_None in E. by rewrite drop_ge.
Qed.

(** The iterator hands out the elements in order, and ends. *)
Theorem list_iter_collects l : BListIter_collect (S (length l)) (list_into_iter l) = Ok l.
Proof. unfold list_into_iter. rewrite collect_from by lia. done. Qed.
End ListMut.

(** * Dictionaries (access/dict.rs) *)

Definition dict_lookup_mut {V} (d : list (bytes * V)) (key : bytes) : option (ref_mut V (list (bytes * V))) :=
  (λ v, (v, λ v', bt_insert key v' d)) <$> bt_lookup key d.

(** * Mutable access to values (access/bencode.rs, mutable/bencode_mut.rs) *)

Inductive MutKind (T S : Type) :=
  | MutInt (n : Z)
  | MutBytes (s : bytes)
  | MutList (l : ref_mut (list T) S)
  | MutDict (d : ref_mut (list (bytes * T)) S).
Arguments MutInt {T S} n.
Arguments MutBytes {T S} s.
Arguments MutList {T S} l.
Arguments MutDict {T S} d.

Class BMutAccess (T : Type) `{!BRefAccess T} := {
  kind_mut : T → MutKind T T;
  list_mut : T → option (ref_mut (list T) T);
  dict_mut : T → option (ref_mut (list (bytes * T)) T)
}.

#[export] Instance BencodeMut_mut_access : BMutAccess BencodeMut := {
  kind_mut v := match v with MInt n => MutInt n | MBytes s => MutBytes s | MList l => MutList (l, MList) | MDict d => MutDict (d, MDict) end;
  list_mut v := match v with MList l => Some (l, MList) | _ => None end;
  dict_mut v := match v with MDict d => Some (d, MDict) | _ => None end
}.

(** * Readers whose result outlives the value (BRefAccessExt, BConvertExt)

    They are implemented by decoded values and by references to those. *)

Class BRefAccessExt (T : Type) `{!BRefAccess T} := { str_ext : T → option bytes; bytes_ext : T → option bytes }.

Definition BencodeRef_bytes_ext (v : BencodeRef) : option bytes := match v with RBytes s _ => Some s | _ => None end.
Definition BencodeRef_str_ext (v : BencodeRef) : option bytes := s ← BencodeRef_bytes_ext v; str_from_utf8 s.

#[export] Instance BencodeRef_access_ext : BRefAccessExt BencodeRef := {
  str_ext := BencodeRef_str_ext;
  bytes_ext := BencodeRef_bytes_ext
}.

Section ConvertExt.
Context {T : Type} `{BRefAccessExt T} {E : Type} (handle_error : BencodeConvertError → E).

Definition convert_bytes_ext (bencode : T) (error_key : bytes) : res E bytes :=
  ok_or (handle_error (WrongType error_key EBytes)) (bytes_ext bencode).
Definition convert_str_ext (bencode : T) (error_key : bytes) : res E bytes :=
  ok_or (handle_error (WrongType error_key EUtf8)) (str_ext bencode).
Definition lookup_and_convert_bytes_ext (d : list (bytes * T)) (key : bytes) : res E bytes :=
  v ← lookup handle_error d key; convert_bytes_ext v key.
Definition lookup_and_convert_str_ext (d : list (bytes * T)) (key : bytes) : res E bytes :=
  v ← lookup handle_error d key; convert_str_ext v key.
End ConvertExt.

(** On decoded values the two families of readers agree. *)
Lemma convert_ext_agree {E} (handle_error : BencodeConvertError → E) d key :
  lookup_and_convert_bytes_ext (T := BencodeRef) handle_error d key = lookup_and_convert_bytes handle_error d key ∧
  lookup_and_convert_str_ext (T := BencodeRef) handle_error d key = lookup_and_convert_str handle_error d key.
Proof.
  unfold lookup_and_convert_bytes_ext, lookup_and_convert_bytes, lookup_and_convert_str_ext, lookup_and_convert_str.
  destruct (lookup handle_error d key) as [v| |]; [|done..]. by destruct v.
Qed.

(** * [BCowConvert] (cow.rs) *)

Class BCowConvert (T : Type) := { cow_convert : T → bytes }.
#[export] Instance bytes_cow : BCowConvert (list Z) := {| cow_convert l := l |}.
#[export] Instance str_cow : BCowConvert string := {| cow_convert := bstr |}.

(** * Editing *)

Definition wf_entry (e : bytes * BencodeMut) : Prop := is_i64 (Z.of_nat (length e.1)) ∧ wf_value e.2.

Lemma wf_dict_entries d : wf_value (MDict d) ↔ bt_sorted d ∧ Forall wf_entry d.
Proof.
  cbn [wf_value]. apply and_iff_compat_l. induction d as [|[k x] d IH]; cbn [foldr]; [by split; constructor|].
  rewrite IH, Forall_cons. unfold wf_entry. cbn. tauto.
Qed.

Lemma bt_remove_Forall {V} (P : bytes * V → Prop) k d : Forall P d → Forall P (bt_remove k d).
Proof. induction 1 as [|[k' v] d Hv Hd IH]; cbn; [constructor|]. destruct (bytes_cmp k k'); [done|by constructor..]. Qed.

(** A value that is edited keeps the form the encoder and the decoder agree on:
    inserting, removing and writing through a mutable reference leave the keys in
    order, and what was written is found. *)
Theorem dict_edit_wf (v : BencodeMut) d put key x : dict_mut v = Some (d, put) → wf_value v → wf_value x → is_i64 (Z.of_nat (length key)) →
  put d = v ∧ wf_value (put (dict_insert d key x).1) ∧ wf_value (put (dict_remove d key).1) ∧
  ∀ target write, dict_lookup_mut d key = Some (target, write) → wf_value (put (write x)) ∧ dict_lookup (write x) key = Some x.
Proof.
  destruct v as [| | |d']; try done. intros [= <- <-] [Hs Hf]%wf_dict_entries Hx Hk.
  assert (wf_value (MDict (bt_insert key x d'))) as Hins.
  { apply wf_dict_entries. split; [by apply bt_insert_sorted|by apply bt_insert_Forall]. }
  split_and!; [done|done|apply wf_dict_entries; split; [by apply bt_remove_sorted|by apply bt_remove_Forall]|].
  unfold dict_lookup_mut. intros target write (v & _ & [= -> ->])%fmap_Some. split; [done|].
  unfold dict_lookup. by rewrite bt_lookup_insert, decide_True.
Qed.

Lemma dict_edit_witness : wf_value (MDict (dict_insert [] (bstr "a") (MInt 1)).1).
Proof. apply (dict_edit_wf (MDict []) [] MDict (bstr "a") (MInt 1)); [done|by split; constructor|by vm_compute|by vm_compute]. Defined.
