(* ===== verification/Convert.v ===== *)
(** packages/util/src/convert.rs and net.rs: integers, addresses and socket
    addresses to and from big-endian byte arrays. *)

From stdpp Require Import base numbers countable list.
From S2P Require Import Prelude.

(** * Addresses (std::net) *)

Inductive Ipv4Addr := Ipv4 (a b c d : Z).

(** The eight 16-bit segments. *)
Inductive Ipv6Addr := Ipv6 (s0 s1 s2 s3 s4 s5 s6 s7 : Z).

Record SocketAddrV4 := { v4_ip : Ipv4Addr; v4_port : Z }.
Record SocketAddrV6 := { v6_ip : Ipv6Addr; v6_port : Z; v6_flowinfo : Z; v6_scope_id : Z }.
Inductive SocketAddr := SockV4 (s : SocketAddrV4) | SockV6 (s : SocketAddrV6).

#[export] Instance Ipv4Addr_eq_dec : EqDecision Ipv4Addr.
Proof. solve_decision. Defined.
#[export] Instance Ipv6Addr_eq_dec : EqDecision Ipv6Addr.
Proof. solve_decision. Defined.
#[export] Instance SocketAddrV4_eq_dec : EqDecision SocketAddrV4.
Proof. solve_decision. Defined.
#[export] Instance SocketAddrV6_eq_dec : EqDecision SocketAddrV6.
Proof. solve_decision. Defined.
#[export] Instance SocketAddr_eq_dec : EqDecision SocketAddr.
Proof. solve_decision. Defined.

Definition octets (a : Ipv4Addr) : bytes := match a with Ipv4 a b c d => [a; b; c; d] end.
Definition segments (a : Ipv6Addr) : list Z :=
  match a with Ipv6 s0 s1 s2 s3 s4 s5 s6 s7 => [s0; s1; s2; s3; s4; s5; s6; s7] end.
Definition sock_port (a : SocketAddr) : Z :=
  match a with SockV4 s => v4_port s | SockV6 s => v6_port s end.

(** net.rs: [IpAddr], [IpAddr::from_socket_addr], [default_route_v4]. *)
Inductive IpAddr := IpV4 (a : Ipv4Addr) | IpV6 (a : Ipv6Addr).

#[export] Instance IpAddr_eq_dec : EqDecision IpAddr.
Proof. solve_decision. Defined.

Definition IpAddr_from_socket_addr (a : SocketAddr) : IpAddr :=
  match a with SockV4 s => IpV4 (v4_ip s) | SockV6 s => IpV6 (v6_ip s) end.

Definition default_route_v4 : SocketAddr := SockV4 {| v4_ip := Ipv4 0 0 0 0; v4_port := 0 |}.

#[export] Instance SocketAddr_countable : Countable SocketAddr.
Proof.
  refine (inj_countable'
    (λ a, match a with
          | SockV4 {| v4_ip := Ipv4 a b c d; v4_port := p |} => inl [a; b; c; d; p]
          | SockV6 {| v6_ip := Ipv6 a b c d e f g h; v6_port := p; v6_flowinfo := i; v6_scope_id := j |} =>
              inr [a; b; c; d; e; f; g; h; p; i; j]
          end)
    (λ s, match s with
          | inl [a; b; c; d; p] => SockV4 {| v4_ip := Ipv4 a b c d; v4_port := p |}
          | inr [a; b; c; d; e; f; g; h; p; i; j] =>
              SockV6 {| v6_ip := Ipv6 a b c d e f g h; v6_port := p; v6_flowinfo := i; v6_scope_id := j |}
          | _ => default_route_v4
          end) _).
  by intros [[[] ?]|[[] ? ? ?]].
Defined.

(** [uN::to_be_bytes]: the [n] bytes of [x], most significant first. *)
Definition to_be_bytes (n : nat) (x : Z) : bytes :=
  (λ i : nat, as_u8 (Z.shiftr x (8 * (Z.of_nat n - 1 - Z.of_nat i)))) <$> seq 0 n.

(** * To bytes *)

Definition four_bytes_to_array (unsigned : Z) : bytes := to_be_bytes 4 unsigned.

Definition four_bytes_to_array_signed (signed : Z) : bytes := to_be_bytes 4 (as_u32 signed).

Definition eight_bytes_to_array (x : Z) : bytes :=
  [as_u8 (Z.shiftr x 56); as_u8 (Z.shiftr x 48); as_u8 (Z.shiftr x 40); as_u8 (Z.shiftr x 32);
   as_u8 (Z.shiftr x 24); as_u8 (Z.shiftr x 16); as_u8 (Z.shiftr x 8); as_u8 x].

Definition ipv4_to_bytes_be (v4_addr : Ipv4Addr) : bytes := octets v4_addr.

Definition ipv6_to_bytes_be (v6_addr : Ipv6Addr) : bytes :=
  let segs := segments v6_addr in
  (λ index : nat,
     let segment_index := (index / 2)%nat in
     let segment_byte_index := (index mod 2)%nat in
     let byte_shift_bits := (8 - Z.of_nat (segment_byte_index * 8))%Z in
     as_u8 (Z.shiftr (nth segment_index segs 0%Z) byte_shift_bits)) <$> seq 0 16.

Definition port_to_bytes_be (port : Z) : bytes := [as_u8 (Z.shiftr port 8); as_u8 port].

(** [for (src, dst) in src.iter().zip(dst.iter_mut())]: overwrite the first
    elements of [dst]. *)
Fixpoint copy_into (dst src : bytes) : bytes :=
  match dst, src with
  | _ :: dst', s :: src' => s :: copy_into dst' src'
  | _, _ => dst
  end.

Definition sock_v4_to_bytes_be (v4_sock : SocketAddrV4) : bytes :=
  copy_into (replicate 6 0%Z) (ipv4_to_bytes_be (v4_ip v4_sock) ++ port_to_bytes_be (v4_port v4_sock)).

Definition sock_v6_to_bytes_be (v6_sock : SocketAddrV6) : bytes :=
  copy_into (replicate 18 0%Z) (ipv6_to_bytes_be (v6_ip v6_sock) ++ port_to_bytes_be (v6_port v6_sock)).

(** * From bytes (arrays of the stated length) *)

Definition bytes_be_to_ipv4 (l : bytes) : Ipv4Addr :=
  Ipv4 (nth 0 l 0%Z) (nth 1 l 0%Z) (nth 2 l 0%Z) (nth 3 l 0%Z).

(** One iteration of the loop over [bytes.iter().enumerate()]. *)
Definition ipv6_combine (combined : list Z) (iv : nat * Z) : list Z :=
  let '(index, value) := iv in
  let combined_index := (index / 2)%nat in
  let should_shift := (index mod 2 =? 0)%nat in
  let adjusted_value := if should_shift then as_u16 (Z.shiftl value 8) else value in
  <[combined_index := Z.lor (nth combined_index combined 0%Z) adjusted_value]> combined.

Definition bytes_be_to_ipv6 (l : bytes) : Ipv6Addr :=
  let c := foldl ipv6_combine (replicate 8 0%Z) (zip (seq 0 (length l)) l) in
  Ipv6 (nth 0 c 0%Z) (nth 1 c 0%Z) (nth 2 c 0%Z) (nth 3 c 0%Z)
       (nth 4 c 0%Z) (nth 5 c 0%Z) (nth 6 c 0%Z) (nth 7 c 0%Z).

Definition bytes_be_to_port (l : bytes) : Z :=
  let '(high_byte, low_byte) := (nth 0 l 0%Z, nth 1 l 0%Z) in
  Z.lor (as_u16 (Z.shiftl high_byte 8)) low_byte.

Definition bytes_be_to_sock_v4 (l : bytes) : SocketAddrV4 :=
  let ip_bytes := [nth 0 l 0%Z; nth 1 l 0%Z; nth 2 l 0%Z; nth 3 l 0%Z] in
  let port_bytes := [nth 4 l 0%Z; nth 5 l 0%Z] in
  {| v4_ip := bytes_be_to_ipv4 ip_bytes; v4_port := bytes_be_to_port port_bytes |}.

Definition bytes_be_to_sock_v6 (l : bytes) : SocketAddrV6 :=
  let port_bytes := [nth 16 l 0%Z; nth 17 l 0%Z] in
  let ip_bytes := copy_into (replicate 16 0%Z) (take 16 l) in
  {| v6_ip := bytes_be_to_ipv6 ip_bytes; v6_port := bytes_be_to_port port_bytes;
     v6_flowinfo := 0; v6_scope_id := 0 |}.

(** * Lemmas *)

Definition wf_ipv4 (a : Ipv4Addr) : Prop := are_u8 (octets a).
Definition wf_ipv6 (a : Ipv6Addr) : Prop := Forall is_u16 (segments a).
Definition wf_sock_v4 (s : SocketAddrV4) : Prop := wf_ipv4 (v4_ip s) ∧ is_u16 (v4_port s).
Definition wf_sock_v6 (s : SocketAddrV6) : Prop := wf_ipv6 (v6_ip s) ∧ is_u16 (v6_port s).

Open Scope Z_scope.

Lemma land_shiftl_small a c k : 0 ≤ k → 0 ≤ c < 2 ^ k → Z.land (Z.shiftl a k) c = 0.
Proof.
  intros Hk Hc. apply Z.bits_inj'. intros i Hi. rewrite Z.land_spec, Z.bits_0, Z.shiftl_spec by lia.
  destruct (decide (i < k)); [by rewrite Z.testbit_neg_r by lia|].
  rewrite <- (Z.mod_small c (2 ^ k)), Z.mod_pow2_bits_high by lia. apply andb_false_r.
Qed.

Lemma lor_shiftl_add_pow a c k : 0 ≤ k → 0 ≤ c < 2 ^ k → Z.lor (Z.shiftl a k) c = a * 2 ^ k + c.
Proof.
  intros Hk Hc. pose proof (land_shiftl_small a c k Hk Hc) as H.
  rewrite <- Z.lxor_lor, <- Z.add_nocarry_lxor by done. by rewrite Z.shiftl_mul_pow2.
Qed.

Lemma lor_shiftl_add a c : 0 ≤ c < 256 → Z.lor (Z.shiftl a 8) c = a * 256 + c.
Proof. intros Hc. by apply (lor_shiftl_add_pow a c 8). Qed.

Lemma u16_split x : is_u16 x → Z.lor (as_u16 (Z.shiftl (as_u8 (Z.shiftr x 8)) 8)) (as_u8 x) = x.
Proof.
  unfold is_u16, as_u16, as_u8. intros Hx.
  rewrite Z.shiftr_div_pow2 by lia. change (2 ^ 8) with 256.
  rewrite (Z.mod_small (x / 256)) by (split; [apply Z.div_pos; lia|apply Z.div_lt_upper_bound; lia]).
  pose proof (Z.mod_pos_bound x 256) as Hm. pose proof (Z.div_mod x 256) as Hd.
  assert (0 ≤ x / 256 < 256) by (split; [apply Z.div_pos; lia|apply Z.div_lt_upper_bound; lia]).
  rewrite (Z.mod_small (Z.shiftl (x / 256) 8)).
  - rewrite lor_shiftl_add by lia. lia.
  - rewrite Z.shiftl_mul_pow2 by lia. change (2 ^ 8) with 256. lia.
Qed.

Lemma u16_join h l : is_u8 h → is_u8 l →
  let x := Z.lor (as_u16 (Z.shiftl h 8)) l in
  is_u16 x ∧ as_u8 (Z.shiftr x 8) = h ∧ as_u8 x = l.
Proof.
  unfold is_u8, is_u16, as_u16, as_u8. intros Hh Hl.
  rewrite (Z.mod_small (Z.shiftl h 8)) by (rewrite Z.shiftl_mul_pow2 by lia; change (2 ^ 8) with 256; lia).
  rewrite lor_shiftl_add by lia. cbv zeta. split; [lia|].
  rewrite Z.shiftr_div_pow2 by lia. change (2 ^ 8) with 256.
  rewrite Z.div_add_l, (Z.div_small l) by lia. rewrite Z.add_0_r, Z.mod_small by lia.
  rewrite Z.add_comm, Z.mod_add, Z.mod_small by lia. done.
Qed.

Lemma port_roundtrip p : is_u16 p → bytes_be_to_port (port_to_bytes_be p) = p.
Proof. apply u16_split. Qed.

Lemma ipv6_roundtrip a : wf_ipv6 a → bytes_be_to_ipv6 (ipv6_to_bytes_be a) = a.
Proof.
  destruct a as [s0 s1 s2 s3 s4 s5 s6 s7]. unfold wf_ipv6. simpl segments. intros H.
  repeat (apply Forall_cons in H as [? H]). unfold bytes_be_to_ipv6. simpl.
  change (8 - Z.of_nat 0) with 8. change (8 - Z.of_nat 8) with 0.
  rewrite !Z.lor_0_l, !Z.shiftr_0_r. by rewrite !u16_split by done.
Qed.

(** Socket addresses survive the compact wire form: decoding the
    bytes of an IPv4 or IPv6 socket address gives it back (an IPv6 flow label
    and scope are not transmitted), and the forms are 6 and 18 bytes long. *)
Theorem sock_addr_roundtrip s4 s6 :
  wf_sock_v4 s4 → wf_sock_v6 s6 →
  bytes_be_to_sock_v4 (sock_v4_to_bytes_be s4) = s4 ∧
  bytes_be_to_sock_v6 (sock_v6_to_bytes_be s6) =
    {| v6_ip := v6_ip s6; v6_port := v6_port s6; v6_flowinfo := 0; v6_scope_id := 0 |} ∧
  length (sock_v4_to_bytes_be s4) = 6%nat ∧ length (sock_v6_to_bytes_be s6) = 18%nat.
Proof.
  destruct s4 as [[a b c d] p4], s6 as [[t0 t1 t2 t3 t4 t5 t6 t7] p6 fl sc].
  intros [_ H4] [Hi6 H6]. simpl in H4, H6, Hi6. split; [|split; [|done]].
  - unfold bytes_be_to_sock_v4. simpl. f_equal. by apply port_roundtrip.
  - pose proof (ipv6_roundtrip _ Hi6) as Hr. unfold bytes_be_to_sock_v6. cbn [v6_ip v6_port].
    f_equal; [exact Hr|by apply port_roundtrip].
Qed.

Lemma sock_addr_roundtrip_witness :
  bytes_be_to_sock_v4 (sock_v4_to_bytes_be {| v4_ip := Ipv4 127 0 0 1; v4_port := 6881 |})
  = {| v4_ip := Ipv4 127 0 0 1; v4_port := 6881 |}.
Proof.
  apply (sock_addr_roundtrip {| v4_ip := Ipv4 127 0 0 1; v4_port := 6881 |}
    {| v6_ip := Ipv6 0 0 0 0 0 0 0 1; v6_port := 80; v6_flowinfo := 0; v6_scope_id := 0 |});
    (split; [repeat constructor; unfold is_u8, is_u16; lia|unfold is_u16; simpl; lia]).
Defined.
Close Scope Z_scope.
