(* ===== verification/Sha.v ===== *)
(** packages/util/src/sha, bt.rs and error.rs: SHA-1 hashes as 20-byte arrays,
    their exclusive or and the iterator over their bits.  The digest function
    itself is the [sha1] crate's, an interface here. *)

From stdpp Require Import base numbers countable list.
From S2P Require Import Prelude Extern.

(** * Length errors (error.rs) *)

Inductive LengthErrorKind := LengthExceeded | LengthExpected | LengthMultipleExpected.
Record LengthError := { err_kind : LengthErrorKind; err_length : nat; err_index : option nat }.

Definition LengthError_new (kind : LengthErrorKind) (length : nat) : LengthError :=
  {| err_kind := kind; err_length := length; err_index := None |}.
Definition LengthError_with_index (kind : LengthErrorKind) (length index : nat) : LengthError :=
  {| err_kind := kind; err_length := length; err_index := Some index |}.

(** * [ShaHash] (sha/mod.rs) *)

Definition SHA_HASH_LEN : nat := 20.
Definition NODE_ID_LEN : nat := SHA_HASH_LEN.
Definition PEER_ID_LEN : nat := SHA_HASH_LEN.
Definition INFO_HASH_LEN : nat := SHA_HASH_LEN.

Record ShaHash := { hash : bytes }.

#[export] Instance ShaHash_eq_dec : EqDecision ShaHash.
Proof. solve_decision. Defined.
#[export] Instance ShaHash_countable : Countable ShaHash.
Proof. apply (inj_countable' hash (λ l, {| hash := l |})). by intros []. Defined.

Definition wf_hash (h : ShaHash) : Prop := length (hash h) = SHA_HASH_LEN ∧ are_u8 (hash h).

(** [ShaHashBuilder]: the bytes added so far, hashed by [build]. *)
Record ShaHashBuilder := { added : bytes }.
Definition ShaHashBuilder_new : ShaHashBuilder := {| added := [] |}.
Definition add_bytes (self : ShaHashBuilder) (l : bytes) : ShaHashBuilder := {| added := added self ++ l |}.
Definition ShaHashBuilder_build `{Sha1} (self : ShaHashBuilder) : ShaHash := {| hash := sha1 (added self) |}.

Definition ShaHash_from_bytes `{Sha1} (l : bytes) : ShaHash :=
  ShaHashBuilder_build (add_bytes ShaHashBuilder_new l).

Definition ShaHash_from_hash (l : bytes) : res LengthError ShaHash :=
  if length l =? SHA_HASH_LEN then Ok {| hash := l |}
  else Err (LengthError_new LengthExpected SHA_HASH_LEN).

(** [PartialEq<[u8]> for ShaHash]: equal lengths, then a fold over the zipped
    bytes. *)
Definition ShaHash_eq_slice (self : ShaHash) (other : bytes) : bool :=
  foldl (λ prev '(h, o), prev && (h =? o)%Z) (length other =? length (hash self)) (zip (hash self) other).

Definition bitxor (self rhs : ShaHash) : ShaHash :=
  {| hash := zip_with Z.lxor (hash self) (hash rhs) |}.

Inductive XorRep := Diff | Same.
Inductive BitRep := SetBit | UnsetBit.

Definition BitRep_eq_XorRep (self : BitRep) (other : XorRep) : bool :=
  match self, other with SetBit, Diff | UnsetBit, Same => true | _, _ => false end.

Record Bits := { bits_bytes : bytes; bit_pos : nat }.

Definition Bits_new (l : bytes) : Bits := {| bits_bytes := l; bit_pos := 0 |}.

Definition Bits_next (self : Bits) : option BitRep * Bits :=
  if bit_pos self <? length (bits_bytes self) * 8 then
    let byte_index := bit_pos self / 8 in
    let bit_offset := (7 - Z.of_nat (bit_pos self mod 8))%Z in
    let bit_value := Z.shiftr (nth byte_index (bits_bytes self) 0%Z) bit_offset in
    (Some (if (bit_value =? 1)%Z then SetBit else UnsetBit),
     {| bits_bytes := bits_bytes self; bit_pos := bit_pos self + 1 |})
  else (None, self).

(** [bits().take_while(p).count()]; every step advances the position, so the
    number of bits bounds the loop. *)
Fixpoint take_while_count (p : BitRep → bool) (fuel : nat) (it : Bits) : nat :=
  match fuel with
  | O => 0
  | S fuel' =>
      match Bits_next it with
      | (Some x, it') => if p x then S (take_while_count p fuel' it') else 0
      | (None, _) => 0
      end
  end.

Definition bits_count_while (p : BitRep → bool) (h : ShaHash) : nat :=
  take_while_count p (S (length (hash h) * 8)) (Bits_new (hash h)).

(** * Bits by position *)

(** Bit [i] of a byte string, the most significant bit of the first byte
    first. *)
Definition bit_at (l : bytes) (i : nat) : bool :=
  Z.testbit (nth (i / 8) l 0%Z) (7 - Z.of_nat (i mod 8)).

(** What the iterator yields at position [i]. *)
Definition bits_item (l : bytes) (i : nat) : BitRep :=
  if (Z.shiftr (nth (i / 8) l 0%Z) (7 - Z.of_nat (i mod 8)) =? 1)%Z then SetBit else UnsetBit.

Lemma Bits_next_lt l i : i < length l * 8 →
  Bits_next {| bits_bytes := l; bit_pos := i |} = (Some (bits_item l i), {| bits_bytes := l; bit_pos := S i |}).
Proof.
  intros Hi. unfold Bits_next, bits_item. simpl.
  destruct (Nat.ltb_spec i (length l * 8)); [|lia]. by rewrite Nat.add_1_r.
Qed.

Lemma take_while_count_spec p l fuel i :
  i + fuel = length l * 8 + 1 → i ≤ length l * 8 →
  let n := take_while_count p fuel {| bits_bytes := l; bit_pos := i |} in
  i + n ≤ length l * 8 ∧ (∀ j, i ≤ j < i + n → p (bits_item l j) = true) ∧
  (i + n < length l * 8 → p (bits_item l (i + n)) = false).
Proof.
  revert i. induction fuel as [|fuel IH]; intros i Hf Hi; [lia|].
  cbn [take_while_count]. destruct (decide (i < length l * 8)) as [Hlt|Hge].
  - rewrite Bits_next_lt by done. destruct (p (bits_item l i)) eqn:Ep.
    + destruct (IH (S i)) as (H1 & H2 & H3); [lia|lia|]. cbv zeta in *.
      set (n := take_while_count _ _ _) in *. split; [lia|]. split.
      * intros j Hj. destruct (decide (j = i)) as [->|]; [done|]. apply H2. lia.
      * intros Hn. replace (i + S n) with (S i + n) by lia. apply H3. lia.
    + cbv zeta. rewrite Nat.add_0_r. split; [lia|]. split; [lia|]. done.
  - unfold Bits_next. simpl. destruct (Nat.ltb_spec i (length l * 8)); [lia|].
    cbv zeta. split; [lia|]. split; [lia|]. lia.
Qed.

Lemma bit_pos_split i : i = 8 * (i / 8) + i mod 8 ∧ i mod 8 < 8.
Proof. split; [apply Nat.div_mod_eq|apply Nat.mod_upper_bound; lia]. Qed.

Open Scope Z_scope.

Lemma shiftr_bit x k : 0 ≤ x < 256 → 0 ≤ k ≤ 7 →
  (∀ j, k < j ≤ 7 → Z.testbit x j = false) →
  Z.shiftr x k = Z.b2z (Z.testbit x k).
Proof.
  intros Hx Hk Hj. apply Z.bits_inj'. intros i Hi. rewrite Z.shiftr_spec by done.
  destruct (decide (i = 0)) as [->|].
  - rewrite Z.b2z_bit0. by rewrite Z.add_0_l.
  - replace (Z.testbit (Z.b2z _) i) with false.
    + destruct (decide (i + k ≤ 7)); [apply Hj; lia|].
      rewrite <- (Z.mod_small x (2 ^ 8)) by (change (2 ^ 8) with 256; lia).
      apply Z.mod_pow2_bits_high. lia.
    + symmetry. destruct (Z.testbit x k); simpl; [|apply Z.bits_0].
      rewrite (Z.bits_above_log2 1); simpl; [done|lia|lia].
Qed.
Close Scope Z_scope.

(** Position [i] yields [Set] exactly when the byte, shifted, is one: the bit
    is set and no higher bit of its byte is. *)
Lemma bits_item_set l i :
  are_u8 l → bits_item l i = SetBit ↔
  bit_at l i = true ∧ ∀ j, j < i → j / 8 = i / 8 → bit_at l j = false.
Proof.
  intros Hl. unfold bits_item. destruct (bit_pos_split i) as [Hi Hm].
  set (x := nth (i / 8) l 0%Z).
  assert (Hx : (0 ≤ x < 256)%Z).
  { unfold x. destruct (nth_in_or_default (i / 8) l 0%Z) as [Hin| ->]; [|lia].
    apply list_elem_of_In in Hin. by apply (proj1 (Forall_forall _ _) Hl) in Hin. }
  assert (Hbit : ∀ j, j / 8 = i / 8 → bit_at l j = Z.testbit x (7 - Z.of_nat (j mod 8))).
  { intros j Hj. unfold bit_at, x. by rewrite Hj. }
  rewrite (Hbit i eq_refl). set (k := (7 - Z.of_nat (i mod 8))%Z).
  assert (Hhigh : (∀ j, j < i → j / 8 = i / 8 → bit_at l j = false) ↔
                  (∀ j, (k < j ≤ 7)%Z → Z.testbit x j = false)).
  { split.
    - intros H j Hj. pose (q := 8 * (i / 8) + Z.to_nat (7 - j)).
      assert (Hq : q / 8 = i / 8).
      { unfold q. rewrite Nat.mul_comm, Nat.div_add_l by lia. rewrite (Nat.div_small (Z.to_nat _)) by lia. lia. }
      assert (Hqm : q mod 8 = Z.to_nat (7 - j)).
      { unfold q. rewrite Nat.add_comm, Nat.mul_comm, Nat.Div0.mod_add. apply Nat.mod_small. lia. }
      specialize (H q ltac:(unfold q; lia) Hq). rewrite (Hbit q Hq), Hqm in H.
      by replace (7 - Z.of_nat (Z.to_nat (7 - j)))%Z with j in H by lia.
    - intros H j Hj Hd. rewrite (Hbit j Hd). destruct (bit_pos_split j) as [Hjs Hjm]. apply H. lia. }
  rewrite Hhigh. split.
  - destruct (Z.eqb_spec (Z.shiftr x k) 1) as [Hs|]; [|done]. intros _.
    assert (Ht : ∀ j, (0 ≤ j)%Z → Z.testbit x (j + k) = Z.testbit 1 j).
    { intros j Hj. rewrite <- Z.shiftr_spec by done. by rewrite Hs. }
    split; [by rewrite <- (Z.add_0_l k), Ht by lia|].
    intros j Hj. replace j with ((j - k) + k)%Z by lia. rewrite Ht by lia.
    apply Z.bits_above_log2; simpl; lia.
  - intros [Hb Hh]. rewrite (shiftr_bit x k) by (auto; lia). by rewrite Hb.
Qed.
