(* ===== verification/Node.v ===== *)
(** packages/dht/src/routing/node.rs and bucket.rs: the nodes of the routing
    table with their status, and the eight-slot buckets that hold them.

    Instants and durations are tick counts of the [Chrono] interface.  An
    operation reads the clock through [now]: the reads of one operation are
    taken to be simultaneous.  The counters of a node are shared cells in the
    code; the table is their only owner, so a node is a value here and a
    mutation through a reference is the update of the slot that holds it. *)

From stdpp Require Import base numbers list.
From S2P Require Import Prelude Extern Convert Sha.

(** * Nodes (node.rs) *)

Definition MAX_LAST_SEEN_MINS : Z := 15.
Definition MAX_REFRESH_REQUESTS : Z := 2.

Inductive NodeStatus := Bad | Questionable | Good.

#[export] Instance NodeStatus_eq_dec : EqDecision NodeStatus.
Proof. solve_decision. Defined.

(** The derived [Ord]: variants higher up are less than those further down. *)
Definition status_rank (s : NodeStatus) : nat :=
  match s with Bad => 0 | Questionable => 1 | Good => 2 end.
Definition status_ltb (a b : NodeStatus) : bool := status_rank a <? status_rank b.
Definition status_geb (a b : NodeStatus) : bool := status_rank b <=? status_rank a.

Record Node := {
  id : ShaHash;
  addr : SocketAddr;
  last_request : option Z;
  last_response : option Z;
  refresh_requests : Z
}.

#[export] Instance Node_eq_dec : EqDecision Node.
Proof. solve_decision. Defined.

Section Node.
Context `{Chrono} (now : Z).

Definition as_good (i : ShaHash) (a : SocketAddr) : Node :=
  {| id := i; addr := a; last_response := Some now; last_request := None; refresh_requests := 0 |}.

Definition as_questionable (i : ShaHash) (a : SocketAddr) : Node :=
  {| id := i; addr := a; last_response := Some (now - duration_minutes MAX_LAST_SEEN_MINS)%Z;
     last_request := None; refresh_requests := 0 |}.

Definition as_bad (i : ShaHash) (a : SocketAddr) : Node :=
  {| id := i; addr := a; last_response := None; last_request := None; refresh_requests := 0 |}.

Definition recently_responded (node : Node) (curr_time : Z) : NodeStatus :=
  match last_response node with
  | Some response_time =>
      let since_response := (curr_time - response_time)%Z in
      if (since_response <? duration_minutes MAX_LAST_SEEN_MINS)%Z then Good else Questionable
  | None => Bad
  end.

Definition recently_requested (node : Node) (curr_time : Z) : NodeStatus :=
  let max_last_request := duration_minutes MAX_LAST_SEEN_MINS in
  let by_requests :=
    if (refresh_requests node <? MAX_REFRESH_REQUESTS)%Z then Questionable else Bad in
  match last_request node with
  | Some request_time =>
      let since_request := (curr_time - request_time)%Z in
      if (since_request <? max_last_request)%Z then Good else by_requests
  | None => by_requests
  end.

Definition status (self : Node) : NodeStatus :=
  match recently_responded self now with
  | Good => Good
  | Bad => Bad
  | Questionable => recently_requested self now
  end.

(** [fetch_add] wraps around at the width of [usize]. *)
Definition local_request (self : Node) : Node :=
  if bool_decide (status self ≠ Good) then
    {| id := id self; addr := addr self; last_response := last_response self;
       last_request := last_request self; refresh_requests := as_u64 (refresh_requests self + 1) |}
  else self.

Definition remote_request (self : Node) : Node :=
  {| id := id self; addr := addr self; last_response := last_response self;
     last_request := Some now; refresh_requests := refresh_requests self |}.

Definition remote_response (self : Node) : Node :=
  {| id := id self; addr := addr self; last_response := Some now;
     last_request := last_request self; refresh_requests := 0 |}.
End Node.

(** The iterator over the 26 bytes is advanced by the id, then by the address;
    the port goes to the last two. *)
Definition Node_encode (self : Node) : res False bytes :=
  match addr self with
  | SockV4 v4 =>
      let encoded := copy_into (replicate 26 0%Z) (hash (id self) ++ octets (v4_ip v4)) in
      let port := sock_port (addr self) in
      Ok (<[25 := as_u8 port]> (<[24 := as_u8 (Z.shiftr port 8)]> encoded))
  | SockV6 _ => Panic AssertFailed
  end.

(** [PartialEq]: nodes are compared by id and address. *)
Definition Node_eq (self other : Node) : bool :=
  bool_decide (id self = id other) && bool_decide (addr self = addr other).

(** * Buckets (bucket.rs) *)

Definition MAX_BUCKET_SIZE : nat := 8.

Record Bucket := { nodes : list Node }.

Definition placeholder : Node :=
  as_bad {| hash := replicate NODE_ID_LEN 0%Z |} (SockV4 {| v4_ip := Ipv4 127 0 0 1; v4_port := 0 |}).

Definition Bucket_new : Bucket :=
  {| nodes := [placeholder; placeholder; placeholder; placeholder;
               placeholder; placeholder; placeholder; placeholder] |}.

Section Bucket.
Context `{Chrono} (now : Z).

Definition good_nodes_filter (node : Node) : bool := bool_decide (status now node = Good).

Definition pingable_nodes_filter (node : Node) : bool :=
  bool_decide (status now node = Good) || bool_decide (status now node = Questionable).

Definition good_nodes (self : Bucket) : list Node := List.filter good_nodes_filter (nodes self).
Definition pingable_nodes (self : Bucket) : list Node := List.filter pingable_nodes_filter (nodes self).

Definition needs_refresh (self : Bucket) : bool :=
  forallb (λ node, bool_decide (status now node ≠ Good)) (nodes self).

Definition Bucket_add_node (self : Bucket) (new_node : Node) : Bucket * bool :=
  let new_node_status := status now new_node in
  if bool_decide (new_node_status = Bad) then (self, true) else
  match iter_position (λ node, Node_eq node new_node) (nodes self) with
  | Some index =>
      match nodes self !! index with
      | Some other =>
          if status_geb new_node_status (status now other)
          then ({| nodes := <[index := new_node]> (nodes self) |}, true)
          else (self, true)
      | None => (self, true)
      end
  | None =>
      match iter_position (λ node, status_ltb (status now node) new_node_status) (nodes self) with
      | Some index => ({| nodes := <[index := new_node]> (nodes self) |}, true)
      | None => (self, false)
      end
  end.
End Bucket.

(** * Properties of nodes *)

Definition key (n : Node) : ShaHash * SocketAddr := (id n, addr n).

Lemma Node_eq_true a b : Node_eq a b = true ↔ key a = key b.
Proof.
  unfold Node_eq, key. rewrite andb_true_iff, !bool_decide_eq_true. split; [intros []; congruence|].
  intros E. by injection E.
Qed.

(** * Buckets as bounded lists of entries

    A bucket holds its entries in its first slots, the placeholders after
    them: [holds b l]. *)

Record holds (b : Bucket) (l : list Node) : Prop := {
  holds_nodes : nodes b = l ++ replicate (MAX_BUCKET_SIZE - length l) placeholder;
  holds_length : length l ≤ MAX_BUCKET_SIZE;
  holds_nodup : NoDup (key <$> l);
  holds_responded : Forall (λ n, last_response n ≠ None) l
}.

Lemma holds_new : holds Bucket_new [].
Proof. split; simpl; [done|unfold MAX_BUCKET_SIZE; lia|constructor|constructor]. Qed.

Lemma holds_size b l : holds b l → length (nodes b) = MAX_BUCKET_SIZE.
Proof. intros [-> ? _ _]. rewrite length_app, length_replicate. lia. Qed.

Section BucketSpec.
Context `{Chrono} (now : Z).

Lemma status_placeholder : status now placeholder = Bad.
Proof. done. Qed.

Lemma status_not_bad n : status now n ≠ Bad → last_response n ≠ None.
Proof. unfold status, recently_responded. by destruct (last_response n). Qed.

Lemma pingable_filter_spec n : pingable_nodes_filter now n = true ↔ status now n ≠ Bad.
Proof.
  unfold pingable_nodes_filter. rewrite orb_true_iff, !bool_decide_eq_true.
  destruct (status now n); naive_solver.
Qed.

(** What [add_node] does to the entries: the node is ignored when it is bad,
    refreshes the entry with its id and address, takes the place of the first
    entry of lower status, is appended, or is refused by a full bucket of
    entries at least as good. *)
Inductive add_spec (l : list Node) (n : Node) : list Node → bool → Prop :=
  | add_bad : status now n = Bad → add_spec l n l true
  | add_keep i m : status now n ≠ Bad → l !! i = Some m → key m = key n →
      status_ltb (status now n) (status now m) = true → add_spec l n l true
  | add_refresh i m : status now n ≠ Bad → l !! i = Some m → key m = key n →
      status_geb (status now n) (status now m) = true → add_spec l n (<[i := n]> l) true
  | add_evict i m : status now n ≠ Bad → key n ∉ key <$> l → l !! i = Some m →
      status_ltb (status now m) (status now n) = true → add_spec l n (<[i := n]> l) true
  | add_append : status now n ≠ Bad → key n ∉ key <$> l → length l < MAX_BUCKET_SIZE →
      Forall (λ m, status_geb (status now m) (status now n) = true) l ∨ key n = key placeholder →
      add_spec l n (l ++ [n]) true
  | add_full : status now n ≠ Bad → key n ∉ key <$> l → length l = MAX_BUCKET_SIZE →
      Forall (λ m, status_geb (status now m) (status now n) = true) l →
      add_spec l n l false.

Lemma geb_ltb a b : status_geb a b = negb (status_ltb a b).
Proof. unfold status_geb, status_ltb. by rewrite Nat.leb_antisym. Qed.

Lemma not_ltb_geb l s :
  Forall (λ m, status_ltb (status now m) s = false) l → Forall (λ m, status_geb (status now m) s = true) l.
Proof. intros Hf. eapply Forall_impl; [exact Hf|]. intros m Hm. simpl in Hm. by rewrite geb_ltb, Hm. Qed.

Lemma append_slots (l : list Node) (n : Node) :
  0 < MAX_BUCKET_SIZE - length l →
  <[length l := n]> (l ++ replicate (MAX_BUCKET_SIZE - length l) placeholder) =
    (l ++ [n]) ++ replicate (MAX_BUCKET_SIZE - length (l ++ [n])) placeholder.
Proof.
  intros. rewrite length_app. simpl. destruct (MAX_BUCKET_SIZE - length l) as [|k] eqn:E; [lia|].
  rewrite insert_app_r_alt, Nat.sub_diag by lia. simpl. rewrite <- app_assoc. do 3 f_equal. lia.
Qed.

(** The first slot with [p] is an entry, or the first placeholder. *)
Lemma iter_position_slots p (l : list Node) k i :
  iter_position p (l ++ replicate k placeholder) = Some i →
  (∃ m, l !! i = Some m ∧ p m = true) ∨
  (i = length l ∧ 0 < k ∧ p placeholder = true ∧ Forall (λ m, p m = false) l).
Proof.
  intros (m & Hm & Hp & Hfirst)%iter_position_Some.
  apply lookup_app_Some in Hm as [Hm|[Hi [-> Hk]%lookup_replicate]]; [left; eauto|right].
  destruct (decide (i = length l)) as [->|Hne].
  - split; [done|]. split; [lia|]. split; [done|]. apply Forall_lookup. intros j y Hy.
    apply (Hfirst j); [by apply lookup_lt_Some in Hy|by apply lookup_app_l_Some].
  - exfalso. assert (p placeholder = false); [|congruence]. apply (Hfirst (length l)); [lia|].
    rewrite lookup_app_r, lookup_replicate_2 by lia. done.
Qed.

Lemma not_key_position l n :
  iter_position (λ m, Node_eq m n) l = None ↔ key n ∉ key <$> l.
Proof.
  rewrite iter_position_None, Forall_forall, list_elem_of_fmap. split.
  - intros Hf (m & Hk & Hm). specialize (Hf m Hm).
    assert (Node_eq m n = true) by (by apply Node_eq_true). congruence.
  - intros Hn m Hm. destruct (Node_eq m n) eqn:E; [|done]. apply Node_eq_true in E. destruct Hn. eauto.
Qed.

Lemma Bucket_add_node_spec b l n : holds b l →
  ∃ l', add_spec l n l' (Bucket_add_node now b n).2 ∧
    nodes (Bucket_add_node now b n).1 = l' ++ replicate (MAX_BUCKET_SIZE - length l') placeholder.
Proof.
  intros Hb. unfold Bucket_add_node. set (s := status now n).
  pose proof (holds_nodes _ _ Hb) as En. pose proof (holds_length _ _ Hb) as Hlen.
  destruct (bool_decide_reflect (s = Bad)) as [Hs|Hs].
  { exists l. split; [by apply add_bad|done]. }
  rewrite En. destruct (iter_position (λ m, Node_eq m n) _) as [i|] eqn:Ep.
  - apply iter_position_slots in Ep as [(m & Hl & Hk%Node_eq_true)|(-> & Hk0 & Hk%Node_eq_true & Hkey)].
    + rewrite (lookup_app_l_Some _ _ _ _ Hl).
      destruct (status_geb s (status now m)) eqn:Eg; cbn [fst snd nodes].
      * exists (<[i := n]> l). split; [by eapply add_refresh|]. rewrite length_insert.
        apply insert_app_l. by apply lookup_lt_Some in Hl.
      * exists l. split; [|done]. eapply add_keep; eauto. fold s. rewrite geb_ltb in Eg. by apply negb_false_iff in Eg.
    + rewrite lookup_app_r, lookup_replicate_2 by lia.
      assert (status_geb s (status now placeholder) = true) as -> by (by destruct s).
      exists (l ++ [n]). split; [|by apply append_slots].
      apply add_append; auto; [|lia]. by apply not_key_position, iter_position_None.
  - apply not_key_position in Ep. rewrite fmap_app, not_elem_of_app in Ep. destruct Ep as [Hkey _].
    destruct (iter_position (λ m, status_ltb _ _) _) as [i|] eqn:Eq.
    + apply iter_position_slots in Eq as [(m & Hl & Hlt)|(-> & Hk0 & _ & Hge)]; cbn [fst snd nodes].
      * exists (<[i := n]> l). split; [by eapply add_evict|]. rewrite length_insert.
        apply insert_app_l. by apply lookup_lt_Some in Hl.
      * exists (l ++ [n]). split; [|by apply append_slots].
        apply add_append; auto; [lia|]. left. by apply not_ltb_geb.
    + apply iter_position_None in Eq. rewrite Forall_app in Eq. destruct Eq as [Hl Hr]. cbn [fst snd].
      exists l. split; [|done]. apply add_full; auto; [|by apply not_ltb_geb].
      destruct (MAX_BUCKET_SIZE - length l) eqn:E; [lia|]. simpl in Hr. apply Forall_cons in Hr as [Hr _].
      exfalso. unfold s in Hs. rewrite status_placeholder in Hr. by destruct (status now n).
Qed.

Lemma NoDup_insert_fresh {A} (l : list A) i x : NoDup l → x ∉ l → NoDup (<[i := x]> l).
Proof.
  rewrite !NoDup_alt. intros Hl Hx j k y Hj Hk.
  destruct (decide (i < length l)) as [Hi|]; [|rewrite list_insert_ge in Hj, Hk by lia; eauto].
  apply list_lookup_insert_Some in Hj as [(<- & <- & _)|[Hij Hj]];
  apply list_lookup_insert_Some in Hk as [(<- & ? & _)|[Hik Hk]]; subst; eauto;
  exfalso; apply Hx; eapply list_elem_of_lookup; eauto.
Qed.

Lemma add_spec_elem l n l' r m : add_spec l n l' r → m ∈ l' → m ∈ l ∨ m = n ∧ status now n ≠ Bad.
Proof.
  assert (Hins : ∀ i, m ∈ <[i := n]> l → m ∈ l ∨ m = n).
  { intros i (j & Hj)%list_elem_of_lookup. apply list_lookup_insert_Some in Hj as [(_ & <- & _)|[_ Hj]]; [by right|].
    left. eapply list_elem_of_lookup; eauto. }
  intros Ha Hm. destruct Ha; auto.
  - destruct (Hins _ Hm); auto.
  - destruct (Hins _ Hm); auto.
  - apply elem_of_app in Hm as [?| ->%list_elem_of_singleton]; auto.
Qed.

Lemma add_spec_length l n l' r : add_spec l n l' r → length l ≤ length l' ≤ S (length l).
Proof. intros []; rewrite ?length_insert, ?length_app; simpl; lia. Qed.

Lemma add_spec_placed l n l' : add_spec l n l' true → status now n ≠ Bad → key n ∈ key <$> l'.
Proof.
  intros Ha Hn. inversion Ha; subst; try done.
  - rewrite <- H2. apply list_elem_of_fmap_2. by eapply list_elem_of_lookup_2.
  - apply list_elem_of_fmap_2. eapply list_elem_of_lookup_2, list_lookup_insert_eq, lookup_lt_Some; eauto.
  - apply list_elem_of_fmap_2. eapply list_elem_of_lookup_2, list_lookup_insert_eq, lookup_lt_Some; eauto.
  - apply list_elem_of_fmap_2. apply elem_of_app. right. by apply list_elem_of_singleton.
Qed.

(** Every good entry of [l] is in [l'] with its id and address, still good. *)
Definition good_kept (l l' : list Node) : Prop :=
  ∀ m, m ∈ l → status now m = Good → ∃ m', m' ∈ l' ∧ key m' = key m ∧ status now m' = Good.

Lemma good_kept_trans l1 l2 l3 : good_kept l1 l2 → good_kept l2 l3 → good_kept l1 l3.
Proof.
  intros H1 H2 m Hm Hg. destruct (H1 m Hm Hg) as (m' & Hm' & Hk & Hg').
  destruct (H2 m' Hm' Hg') as (m'' & ? & ? & ?). exists m''. split; [done|]. split; [congruence|done].
Qed.

Lemma good_kept_sub l l' : l ⊆ l' → good_kept l l'.
Proof. intros Hs m Hm Hg. exists m. auto. Qed.

Lemma good_kept_app l1 l2 l1' l2' :
  good_kept l1 l1' → good_kept l2 l2' → good_kept (l1 ++ l2) (l1' ++ l2').
Proof.
  intros H1 H2 m [Hm|Hm]%elem_of_app Hg.
  - destruct (H1 m Hm Hg) as (m' & ? & ?). exists m'. rewrite elem_of_app. auto.
  - destruct (H2 m Hm Hg) as (m' & ? & ?). exists m'. rewrite elem_of_app. auto.
Qed.

Lemma good_kept_snoc l n l' : good_kept l l' →
  (status now n = Good → ∃ m', m' ∈ l' ∧ key m' = key n ∧ status now m' = Good) → good_kept (l ++ [n]) l'.
Proof. intros Hl Hn m [Hm| ->%list_elem_of_singleton]%elem_of_app Hg; auto. Qed.

Lemma add_spec_good l n l' : add_spec l n l' true → status now n = Good →
  ∃ m', m' ∈ l' ∧ key m' = key n ∧ status now m' = Good.
Proof.
  intros Ha Hg. inversion Ha as [|i m ? Hl Hk Hlt|i m ? Hl|i m ? ? Hl| |]; subst.
  - congruence.
  - rewrite Hg in Hlt. by destruct (status now m).
  - exists n. split; [|done]. eapply list_elem_of_lookup_2, list_lookup_insert_eq, lookup_lt_Some; eauto.
  - exists n. split; [|done]. eapply list_elem_of_lookup_2, list_lookup_insert_eq, lookup_lt_Some; eauto.
  - exists n. split; [|done]. apply elem_of_app. right. by apply list_elem_of_singleton.
Qed.

Lemma add_spec_keeps l n l' r : add_spec l n l' r → good_kept l l'.
Proof.
  intros Ha m Hm Hg. destruct Ha as [| |i m' _ Hl Hk Hge|i m' _ _ Hl Hlt|_ _ _ _|]; eauto.
  - apply list_elem_of_lookup in Hm as [j Hj]. destruct (decide (i = j)) as [->|Hne].
    + rewrite Hj in Hl. injection Hl as <-. exists n. split; [|split; [done|]].
      * eapply list_elem_of_lookup_2, list_lookup_insert_eq, lookup_lt_Some; eauto.
      * rewrite Hg in Hge. by destruct (status now n).
    + exists m. split; [|done]. eapply list_elem_of_lookup_2. by rewrite list_lookup_insert_ne.
  - apply list_elem_of_lookup in Hm as [j Hj]. destruct (decide (i = j)) as [->|Hne].
    + rewrite Hj in Hl. injection Hl as <-. rewrite Hg in Hlt. by destruct (status now n).
    + exists m. split; [|done]. eapply list_elem_of_lookup_2. by rewrite list_lookup_insert_ne.
  - exists m. split; [|done]. apply elem_of_app. by left.
Qed.

Lemma add_spec_nodup l n l' r : add_spec l n l' r → NoDup (key <$> l) → NoDup (key <$> l').
Proof.
  intros [| |i m _ Hl Hk _|i m _ Hn _ _|_ Hn _ _|] Hd; try done.
  - rewrite list_fmap_insert, list_insert_id; [done|]. by rewrite list_lookup_fmap, Hl, <- Hk.
  - rewrite list_fmap_insert. by apply NoDup_insert_fresh.
  - rewrite fmap_app. apply NoDup_app. split; [done|]. split; [|apply NoDup_singleton].
    intros x Hx ->%list_elem_of_singleton. done.
Qed.

(** The slots of a bucket refine its entries under [add_node]. *)
Lemma Bucket_add_node_holds b l n : holds b l →
  ∃ l', holds (Bucket_add_node now b n).1 l' ∧ add_spec l n l' (Bucket_add_node now b n).2.
Proof.
  intros Hb. destruct (Bucket_add_node_spec b l n Hb) as (l' & Ha & Hn). exists l'. split; [|done].
  pose proof (holds_length _ _ Hb). split; [done| | |].
  - destruct Ha; rewrite ?length_insert, ?length_app; simpl; lia.
  - eapply add_spec_nodup; [done|]. by eapply holds_nodup.
  - apply Forall_forall. intros m Hm. destruct (add_spec_elem _ _ _ _ _ Ha Hm) as [?|[-> ?]].
    + eapply (proj1 (Forall_forall _ _) (holds_responded _ _ Hb)); eauto.
    + by apply status_not_bad.
Qed.
End BucketSpec.
