(* ===== verification/RoutingTable.v ===== *)
(** packages/dht/src/routing/table.rs: the routing table, a vector of buckets
    by the number of leading bits shared with the local id, the last bucket
    assorted until it is split; insertion with splitting, lookup, and the
    iterators over buckets and over the closest nodes. *)

From stdpp Require Import base numbers list.
From S2P Require Import Prelude Extern Convert Sha Node.

Definition MAX_BUCKETS : nat := SHA_HASH_LEN * 8.

Record RoutingTable := { buckets : list Bucket; node_id : ShaHash }.

Definition RoutingTable_new (node_id : ShaHash) : RoutingTable :=
  {| buckets := [Bucket_new]; node_id := node_id |}.

(** * Placement *)

(** The source's [can_split_bucket]: [num_buckets - 1] is evaluated on a
    [usize]; the table always has a bucket. *)
Definition can_split_bucket (num_buckets bucket_index : nat) : bool :=
  (bucket_index =? num_buckets - 1) && negb (bucket_index =? MAX_BUCKETS - 1).

(** [random] are the twenty bytes drawn from the random generator. *)
Definition random_node_id (random : bytes) : ShaHash := {| hash := random |}.

Definition leading_bit_count (local_node remote_node : ShaHash) : nat :=
  let diff_id := bitxor local_node remote_node in
  bits_count_while (λ x, BitRep_eq_XorRep x Same) diff_id.

Definition bucket_placement (num_same_bits num_buckets : nat) : nat :=
  let ideal_index := num_same_bits in
  if num_buckets <=? ideal_index then num_buckets - 1 else ideal_index.

(** * Insertion *)

Section Insertion.
Context `{Chrono} (now : Z).

(** [add_node], calling [bucket_node] for a node that may be placed. *)
Definition add_node_with (bucket_node : RoutingTable → Node → nat → res False RoutingTable)
    (self : RoutingTable) (node : Node) : res False RoutingTable :=
  if bool_decide (status now node = Bad) then Ok self else
  let num_same_bits := leading_bit_count (node_id self) (id node) in
  if negb (num_same_bits =? MAX_BUCKETS) then bucket_node self node num_same_bits else Ok self.

(** [for node in split_bucket.iter() { self.add_node(node) }] *)
Fixpoint add_all (add_node : RoutingTable → Node → res False RoutingTable)
    (self : RoutingTable) (l : list Node) : res False RoutingTable :=
  match l with
  | [] => Ok self
  | node :: l' => self' ← add_node self node; add_all add_node self' l'
  end.

Definition split_bucket (add_node : RoutingTable → Node → res False RoutingTable)
    (self : RoutingTable) (bucket_index : nat) : res False (RoutingTable * bool) :=
  if negb (can_split_bucket (length (buckets self)) bucket_index) then Ok (self, false) else
  match last (buckets self) with
  | None => Panic AssertFailed
  | Some split_bucket =>
      let popped := take (length (buckets self) - 1) (buckets self) in
      let self := {| buckets := popped ++ [Bucket_new] ++ [Bucket_new]; node_id := node_id self |} in
      self' ← add_all add_node self (nodes split_bucket); Ok (self', true)
  end.

(** The recursion through [split_bucket] and [add_node] runs on fuel. *)
Fixpoint bucket_node (fuel : nat) (self : RoutingTable) (node : Node) (num_same_bits : nat) :
    res False RoutingTable :=
  match fuel with
  | O => Panic OutOfFuel
  | S fuel =>
      let bucket_index := bucket_placement num_same_bits (length (buckets self)) in
      match buckets self !! bucket_index with
      | None => Panic IndexOutOfBounds
      | Some bucket =>
          let (bucket', placed) := Bucket_add_node now bucket node in
          let self := {| buckets := <[bucket_index := bucket']> (buckets self); node_id := node_id self |} in
          if negb placed then
            '(self, split) ← split_bucket (add_node_with (bucket_node fuel)) self bucket_index;
            if split : bool then bucket_node fuel self node num_same_bits else Ok self
          else Ok self
      end
  end.

(** Every split adds a bucket and a table has at most [MAX_BUCKETS], so that
    much fuel is enough. *)
Definition add_node (self : RoutingTable) (node : Node) : res False RoutingTable :=
  add_node_with (bucket_node MAX_BUCKETS) self node.
End Insertion.

(** * The iterator over buckets *)

Inductive BucketContents := EmptyBucket | Sorted (b : Bucket) | Assorted (b : Bucket).

Definition is_empty (self : BucketContents) : bool := match self with EmptyBucket => true | _ => false end.
Definition is_sorted (self : BucketContents) : bool := match self with Sorted _ => true | _ => false end.
Definition is_assorted (self : BucketContents) : bool := match self with Assorted _ => true | _ => false end.

Record Buckets := { buckets_slice : list Bucket; index : nat }.

Definition Buckets_new (l : list Bucket) : Buckets := {| buckets_slice := l; index := 0 |}.

Definition Buckets_next (self : Buckets) : res False (option BucketContents * Buckets) :=
  let l := buckets_slice self in
  if MAX_BUCKETS <? index self then Ok (None, self) else
  let self' := {| buckets_slice := l; index := index self + 1 |} in
  if index self =? MAX_BUCKETS then
    if (length l =? MAX_BUCKETS) || (length l =? 0) then Ok (None, self') else
    match l !! (length l - 1) with
    | Some b => Ok (Some (Assorted b), self')
    | None => Panic IndexOutOfBounds
    end
  else if (index self + 1 <? length l) || (length l =? MAX_BUCKETS) then
    match l !! (index self' - 1) with
    | Some b => Ok (Some (Sorted b), self')
    | None => Panic IndexOutOfBounds
    end
  else Ok (Some EmptyBucket, self').

Definition table_buckets (self : RoutingTable) : Buckets := Buckets_new (buckets self).

(** [Iterator::nth] *)
Fixpoint Buckets_nth (n : nat) (it : Buckets) : res False (option BucketContents) :=
  '(x, it') ← Buckets_next it;
  match n, x with
  | _, None => Ok None
  | O, Some _ => Ok x
  | S n', Some _ => Buckets_nth n' it'
  end.

(** [Iterator::find]; the index grows at every step up to [MAX_BUCKETS + 1]. *)
Fixpoint Buckets_find (p : BucketContents → bool) (fuel : nat) (it : Buckets) : res False (option BucketContents) :=
  match fuel with
  | O => Panic OutOfFuel
  | S fuel =>
      '(x, it') ← Buckets_next it;
      match x with
      | None => Ok None
      | Some c => if p c then Ok (Some c) else Buckets_find p fuel it'
      end
  end.

Definition find_node `{Chrono} (now : Z) (self : RoutingTable) (node : Node) : res False (option Node) :=
  let bucket_index := leading_bit_count (node_id self) (id node) in
  nth_contents ← Buckets_nth bucket_index (table_buckets self);
  opt_bucket_contents ←
    match nth_contents with
    | Some c => Ok (Some c)
    | None => Buckets_find is_assorted (MAX_BUCKETS + 2) (table_buckets self)
    end;
  match opt_bucket_contents with
  | Some (Sorted b) | Some (Assorted b) =>
      Ok (List.find (λ n, Node_eq n node) (pingable_nodes now b))
  | _ => Ok None
  end.

(** * The iterator over the closest nodes *)

Definition index_is_in_bounds (length : nat) (checked_index : option nat) : bool :=
  match checked_index with Some index => index <? length | None => false end.

(** [checked_sub]; [checked_add] cannot overflow on bucket indices. *)
Definition checked_sub (a b : nat) : option nat := if a <? b then None else Some (a - b).
Definition checked_add (a b : nat) : option nat := Some (a + b).

Definition next_bucket_index (num_buckets start_index curr_index : nat) : option nat :=
  match curr_index ?= start_index with
  | Lt =>
      let offset := (start_index - curr_index) + 1 in
      let right_index := checked_add start_index offset in
      let left_index := checked_sub curr_index 1 in
      if index_is_in_bounds num_buckets right_index then right_index
      else if index_is_in_bounds num_buckets left_index then left_index
      else None
  | Eq =>
      let right_index := checked_add start_index 1 in
      let left_index := checked_sub start_index 1 in
      if index_is_in_bounds num_buckets right_index then right_index
      else if index_is_in_bounds num_buckets left_index then left_index
      else None
  | Gt =>
      let offset := curr_index - start_index in
      let left_index := checked_sub start_index offset in
      let right_index := checked_add curr_index 1 in
      if index_is_in_bounds num_buckets left_index then left_index
      else if index_is_in_bounds num_buckets right_index then right_index
      else None
  end.

Section ClosestNodes.
Context `{Chrono} (now : Z).

Definition is_good_node (node : Node) : bool :=
  bool_decide (status now node = Good) || bool_decide (status now node = Questionable).

(** The filtered slice iterator is the slice that is left. *)
Record ClosestNodes := {
  cn_buckets : list Bucket;
  current_iter : option (list Node);
  current_index : nat;
  start_index : nat;
  assorted_nodes : option (list (nat * Node * bool))
}.

Fixpoint good_node_filter_next (iter : list Node) : option (Node * list Node) :=
  match iter with
  | [] => None
  | n :: iter' => if is_good_node n then Some (n, iter') else good_node_filter_next iter'
  end.

Definition bucket_iterator (l : list Bucket) (index : nat) : option (list Node) :=
  nodes <$> ((if length l =? MAX_BUCKETS then l else take (length l - 1) l) !! index).

(** The array has a cell per slot of a bucket; [buckets.len() - 1] and the
    index are in range in a table with a bucket. *)
Definition precompute_assorted_nodes (l : list Bucket) (self_node_id : ShaHash) :
    option (list (nat * Node * bool)) :=
  if length l =? MAX_BUCKETS then None else
  match l !! (length l - 1) with
  | None => None
  | Some assorted_bucket =>
      match nodes assorted_bucket with
      | [] => None
      | init_reference :: _ =>
          let filled := (λ node, (leading_bit_count self_node_id (id node), node, false)) <$> nodes assorted_bucket in
          Some (filled ++ drop (length filled) (replicate MAX_BUCKET_SIZE (0, init_reference, true)))
      end
  end.

Definition ClosestNodes_new (l : list Bucket) (self_node_id other_node_id : ShaHash) : ClosestNodes :=
  let start_index := leading_bit_count self_node_id other_node_id in
  {| cn_buckets := l; current_iter := bucket_iterator l start_index; current_index := start_index;
     start_index := start_index; assorted_nodes := precompute_assorted_nodes l self_node_id |}.

Definition closest_nodes (self : RoutingTable) (target : ShaHash) : ClosestNodes :=
  ClosestNodes_new (buckets self) (node_id self) target.

(** [iter_mut().filter(good).find(..)], then [node.2 = true]. *)
Fixpoint take_assorted (current_index : nat) (l : list (nat * Node * bool)) :
    option (Node * list (nat * Node * bool)) :=
  match l with
  | [] => None
  | (i, n, returned) :: l' =>
      if is_good_node n && ((i =? current_index) && negb returned) then Some (n, (i, n, true) :: l')
      else '(m, l'') ← take_assorted current_index l'; Some (m, (i, n, returned) :: l'')
  end.

(** [next] calls itself after moving to another bucket. *)
Fixpoint ClosestNodes_next (fuel : nat) (self : ClosestNodes) : res False (option Node * ClosestNodes) :=
  match fuel with
  | O => Panic OutOfFuel
  | S fuel =>
      match current_iter self ≫= good_node_filter_next with
      | Some (node, iter) =>
          Ok (Some node, {| cn_buckets := cn_buckets self; current_iter := Some iter;
                            current_index := current_index self; start_index := start_index self;
                            assorted_nodes := assorted_nodes self |})
      | None =>
          (* the filter has run through the rest of the slice *)
          let iter := (λ _ : list Node, []) <$> current_iter self in
          match assorted_nodes self ≫= take_assorted (current_index self) with
          | Some (node, assorted) =>
              Ok (Some node, {| cn_buckets := cn_buckets self; current_iter := iter;
                                current_index := current_index self; start_index := start_index self;
                                assorted_nodes := Some assorted |})
          | None =>
              match next_bucket_index MAX_BUCKETS (start_index self) (current_index self) with
              | Some new_index =>
                  ClosestNodes_next fuel
                    {| cn_buckets := cn_buckets self; current_iter := bucket_iterator (cn_buckets self) new_index;
                       current_index := new_index; start_index := start_index self;
                       assorted_nodes := assorted_nodes self |}
              | None =>
                  Ok (None, {| cn_buckets := cn_buckets self; current_iter := iter;
                               current_index := current_index self; start_index := start_index self;
                               assorted_nodes := assorted_nodes self |})
              end
          end
      end
  end.

(** [collect()]: at most one step per slot of the table. *)
Fixpoint ClosestNodes_collect (fuel : nat) (self : ClosestNodes) : res False (list Node) :=
  match fuel with
  | O => Panic OutOfFuel
  | S fuel =>
      '(x, self') ← ClosestNodes_next (MAX_BUCKETS + 1) self;
      match x with
      | None => Ok []
      | Some n => rest ← ClosestNodes_collect fuel self'; Ok (n :: rest)
      end
  end.
End ClosestNodes.
