(* ===== verification/RoutingTheorems.v ===== *)
(** The routing table: the number of shared leading bits, the table invariant
    under insertion, lookup, and what the closest-node iterator hands out. *)

From stdpp Require Import base numbers sorting sets list.
From S2P Require Import Prelude Extern Convert Sha Node RoutingTable.

(** * Shared leading bits *)

(** The first [n] bits of two ids agree. *)
Definition shares (a b : ShaHash) (n : nat) : Prop :=
  ∀ i, i < n → bit_at (hash a) i = bit_at (hash b) i.

Lemma wf_hash_bitxor a b : wf_hash a → wf_hash b → wf_hash (bitxor a b).
Proof.
  intros [La Ha] [Lb Hb]. split; simpl.
  - rewrite length_zip_with. lia.
  - apply Forall_lookup. intros i x (y & z & -> & Hy & Hz)%lookup_zip_with_Some.
    apply (proj1 (Forall_lookup _ _) Ha) in Hy. apply (proj1 (Forall_lookup _ _) Hb) in Hz.
    unfold is_u8 in *. assert (0 ≤ Z.lxor y z)%Z by (apply Z.lxor_nonneg; lia).
    split; [done|]. destruct (decide (Z.lxor y z = 0)%Z) as [->|]; [lia|].
    change 256%Z with (2 ^ 8)%Z in *. apply Z.log2_lt_pow2; [lia|].
    pose proof (Z.log2_lxor y z ltac:(lia) ltac:(lia)).
    assert (∀ w, 0 ≤ w < 2 ^ 8 → Z.log2 w < 8)%Z as Hw.
    { intros w Hw. destruct (decide (w = 0)%Z) as [->|]; [simpl; lia|]. apply Z.log2_lt_pow2; lia. }
    pose proof (Hw y ltac:(lia)). pose proof (Hw z ltac:(lia)). lia.
Qed.

Lemma bit_at_bitxor a b i : length (hash a) = length (hash b) →
  bit_at (hash (bitxor a b)) i = xorb (bit_at (hash a) i) (bit_at (hash b) i).
Proof.
  intros Hl. unfold bit_at. rewrite <- Z.lxor_spec. f_equal. cbn [bitxor hash].
  rewrite !nth_lookup, lookup_zip_with.
  destruct (hash a !! (i / 8)) as [x|] eqn:Ea.
  - destruct (lookup_lt_is_Some_2 (hash b) (i / 8)) as [y Hy].
    { rewrite <- Hl. by eapply lookup_lt_Some. }
    by rewrite Hy.
  - cbn [mbind option_bind default]. destruct (hash b !! (i / 8)) as [y|] eqn:Eb; [|done].
    apply lookup_lt_Some in Eb. apply lookup_ge_None in Ea. lia.
Qed.

(** The iterator stops at the first set bit, although later bits of the same
    byte are misreported. *)
Lemma no_set_item_no_bit l n : are_u8 l →
  (∀ j, j < n → bits_item l j ≠ SetBit) → ∀ j, j < n → bit_at l j = false.
Proof.
  intros Hl Hn j. induction (lt_wf j) as [j _ IH]. intros Hj.
  destruct (bit_at l j) eqn:E; [|done]. destruct (Hn j Hj). apply bits_item_set; [done|].
  split; [done|]. intros k Hk _. apply IH; lia.
Qed.

Lemma same_iff_not_set x : BitRep_eq_XorRep x Same = true ↔ x ≠ SetBit.
Proof. destruct x; naive_solver. Qed.

Lemma leading_bit_count_spec a b : wf_hash a → wf_hash b →
  let n := leading_bit_count a b in
  n ≤ MAX_BUCKETS ∧ shares a b n ∧ (n < MAX_BUCKETS → bit_at (hash a) n ≠ bit_at (hash b) n).
Proof.
  intros Ha Hb. destruct (wf_hash_bitxor a b Ha Hb) as [Hl Hx].
  assert (Hab : length (hash a) = length (hash b)) by (destruct Ha, Hb; congruence).
  unfold leading_bit_count, bits_count_while, Bits_new.
  edestruct (take_while_count_spec (λ x, BitRep_eq_XorRep x Same) (hash (bitxor a b)))
    with (i := 0) (fuel := S (length (hash (bitxor a b)) * 8)) as (H1 & H2 & H3); [lia|lia|].
  cbv zeta in *. set (n := take_while_count _ _ _) in *. rewrite Nat.add_0_l in *.
  change MAX_BUCKETS with (SHA_HASH_LEN * 8). rewrite <- Hl. split; [done|]. split.
  - intros i Hi. assert (bit_at (hash (bitxor a b)) i = false) as Hi0.
    { apply (no_set_item_no_bit _ n Hx); [|done]. intros j Hj. apply same_iff_not_set, H2. lia. }
    rewrite bit_at_bitxor in Hi0 by done. by apply xorb_eq.
  - intros Hn. specialize (H3 Hn). assert (Hs : bits_item (hash (bitxor a b)) n = SetBit).
    { destruct (bits_item _ n); [done|]. done. }
    apply bits_item_set in Hs as [Hs _]; [|done]. rewrite bit_at_bitxor in Hs by done.
    intros Heq. rewrite Heq, xorb_nilpotent in Hs. done.
Qed.

Lemma shares_all a b : wf_hash a → wf_hash b → shares a b MAX_BUCKETS → a = b.
Proof.
  intros [La Ha] [Lb Hb] Hs. destruct a as [a], b as [b]. simpl in *. f_equal.
  apply list_eq_same_length with 20; [by rewrite Lb|by rewrite La|].
  intros i x y Hi Hx Hy. pose proof (proj1 (Forall_lookup _ _) Ha i x Hx) as Bx.
  pose proof (proj1 (Forall_lookup _ _) Hb i y Hy) as By. unfold is_u8 in *.
  apply Z.bits_inj'. intros k Hk. destruct (decide (k < 8)%Z) as [Hk8|].
  - specialize (Hs (8 * i + (7 - Z.to_nat k))). unfold bit_at in Hs. cbn [hash] in Hs.
    replace ((8 * i + (7 - Z.to_nat k)) / 8) with i in Hs
      by (rewrite Nat.mul_comm, Nat.div_add_l by lia; rewrite Nat.div_small by lia; lia).
    replace ((8 * i + (7 - Z.to_nat k)) mod 8) with (7 - Z.to_nat k) in Hs
      by (rewrite Nat.add_comm, Nat.mul_comm, Nat.Div0.mod_add; symmetry; apply Nat.mod_small; lia).
    rewrite (nth_lookup_Some _ _ _ _ Hx), (nth_lookup_Some _ _ _ _ Hy) in Hs.
    replace (7 - Z.of_nat (7 - Z.to_nat k))%Z with k in Hs by lia. apply Hs. unfold MAX_BUCKETS, SHA_HASH_LEN. lia.
  - assert (Hhigh : ∀ z, (0 ≤ z < 256)%Z → Z.testbit z k = false).
    { intros z Hz. rewrite <- (Z.mod_small z (2 ^ 8)) by (change (2 ^ 8)%Z with 256%Z; lia).
      apply Z.mod_pow2_bits_high. lia. }
    by rewrite !Hhigh by lia.
Qed.

Lemma leading_bit_count_self a b : wf_hash a → wf_hash b →
  leading_bit_count a b = MAX_BUCKETS ↔ a = b.
Proof.
  intros Ha Hb. destruct (leading_bit_count_spec a b Ha Hb) as (H1 & H2 & H3). cbv zeta in *. split.
  - intros E. rewrite E in H2. by apply shares_all.
  - intros ->. destruct (decide (leading_bit_count b b = MAX_BUCKETS)); [done|]. destruct H3; [lia|done].
Qed.

(** * The table invariant *)

Section Table.
Context `{Chrono} (now : Z).

(** An id other than ours, in the bucket its shared bits select. *)
Definition placed_at (self_id : ShaHash) (len i : nat) (n : Node) : Prop :=
  wf_hash (id n) ∧ leading_bit_count self_id (id n) < MAX_BUCKETS ∧
  bucket_placement (leading_bit_count self_id (id n)) len = i.

(** [t] holds the entries [ls], bucket by bucket. *)
Record represents (t : RoutingTable) (ls : list (list Node)) : Prop := {
  rep_id : wf_hash (node_id t);
  rep_holds : Forall2 holds (buckets t) ls;
  rep_length : 1 ≤ length ls ≤ MAX_BUCKETS;
  rep_placed : ∀ i l n, ls !! i = Some l → n ∈ l → placed_at (node_id t) (length ls) i n
}.

Lemma represents_new i : wf_hash i → represents (RoutingTable_new i) [[]].
Proof.
  intros Hi. split; simpl; [done| | |].
  - constructor; [apply holds_new|constructor].
  - unfold MAX_BUCKETS, SHA_HASH_LEN. lia.
  - intros [|j] l n Hl Hn; simplify_eq/=. by apply elem_of_nil in Hn.
Qed.

Lemma rep_buckets_length t ls : represents t ls → length (buckets t) = length ls.
Proof. intros Hr. by eapply Forall2_length, rep_holds. Qed.

Lemma bucket_placement_lt k len : 1 ≤ len → bucket_placement k len < len.
Proof. intros. unfold bucket_placement. destruct (Nat.leb_spec len k); lia. Qed.

(** Placing a node in its bucket without splitting. *)
Lemma place_step t ls n :
  represents t ls → wf_hash (id n) → leading_bit_count (node_id t) (id n) < MAX_BUCKETS →
  let i := bucket_placement (leading_bit_count (node_id t) (id n)) (length (buckets t)) in
  ∃ b l l', buckets t !! i = Some b ∧ ls !! i = Some l ∧
    add_spec now l n l' (Bucket_add_node now b n).2 ∧
    represents {| buckets := <[i := (Bucket_add_node now b n).1]> (buckets t); node_id := node_id t |} (<[i := l']> ls).
Proof.
  intros Hr Hw Hlt i. pose proof (rep_buckets_length _ _ Hr) as Hlen. pose proof (rep_length _ _ Hr) as Hls.
  assert (Hi : i < length (buckets t)) by (apply bucket_placement_lt; lia).
  destruct (lookup_lt_is_Some_2 _ _ Hi) as [b Hb].
  destruct (Forall2_lookup_l _ _ _ _ _ (rep_holds _ _ Hr) Hb) as (l & Hl & Hh).
  destruct (Bucket_add_node_holds now b l n Hh) as (l' & Hh' & Ha).
  exists b, l, l'. split; [done|]. split; [done|]. split; [done|]. split; cbn [node_id buckets].
  - by eapply rep_id.
  - apply Forall2_insert; [by eapply rep_holds|done].
  - by rewrite length_insert.
  - rewrite length_insert. intros j k m Hj Hm.
    apply list_lookup_insert_Some in Hj as [(<- & <- & _)|[_ Hj]]; [|by eapply rep_placed].
    destruct (add_spec_elem _ _ _ _ _ _ Ha Hm) as [?|[-> _]]; [by eapply rep_placed|].
    split; [done|]. split; [done|]. by rewrite <- Hlen.
Qed.

Lemma add_spec_room l n l' r : add_spec now l n l' r → length l < MAX_BUCKET_SIZE → r = true.
Proof. intros [] Hl; [done|done|done|done|done|lia]. Qed.

(** A node whose bucket has room is placed without a split. *)
Lemma bucket_node_room fuel t ls n l :
  represents t ls → wf_hash (id n) → leading_bit_count (node_id t) (id n) < MAX_BUCKETS →
  let i := bucket_placement (leading_bit_count (node_id t) (id n)) (length ls) in
  ls !! i = Some l → length l < MAX_BUCKET_SIZE →
  ∃ t' l', bucket_node now (S fuel) t n (leading_bit_count (node_id t) (id n)) = Ok t' ∧
    represents t' (<[i := l']> ls) ∧ node_id t' = node_id t ∧ add_spec now l n l' true.
Proof.
  intros Hr Hw Hlt i Hl Hroom. destruct (place_step t ls n Hr Hw Hlt) as (b & l0 & l' & Hb & Hl0 & Ha & Hr').
  rewrite (rep_buckets_length _ _ Hr) in *. fold i in Hb, Hl0, Hr'. rewrite Hl in Hl0. injection Hl0 as <-.
  pose proof (add_spec_room _ _ _ _ Ha Hroom) as Hp.
  cbn [bucket_node]. rewrite (rep_buckets_length _ _ Hr). fold i. rewrite Hb.
  destruct (Bucket_add_node now b n) as [b' r]. simpl in *. subst r. eauto 10.
Qed.

Lemma insert_pre {A} (pre : list A) k x y z :
  length pre = k → <[k := z]> (pre ++ [x; y]) = pre ++ [z; y] ∧ <[S k := z]> (pre ++ [x; y]) = pre ++ [x; z] ∧
  (pre ++ [x; y]) !! k = Some x ∧ (pre ++ [x; y]) !! S k = Some y.
Proof.
  intros <-. rewrite !insert_app_r_alt, !lookup_app_r by lia.
  replace (S (length pre) - length pre) with 1 by lia. by rewrite Nat.sub_diag.
Qed.

Lemma bucket_placement_split k m : k ≤ m →
  bucket_placement m (k + 2) = if m =? k then k else S k.
Proof.
  intros. unfold bucket_placement. destruct (Nat.leb_spec (k + 2) m), (Nat.eqb_spec m k); lia.
Qed.

(** What distributing [rest] over the two buckets after [pre] achieves. *)
Definition distributed (pre : list (list Node)) (a b rest : list Node) (t' : RoutingTable) (a' b' : list Node) : Prop :=
  represents t' (pre ++ [a'; b']) ∧ a' ++ b' ⊆ (a ++ b) ++ rest ∧ good_kept now ((a ++ b) ++ rest) (a' ++ b').

Lemma distribute_one fuel t pre a b n :
  represents t (pre ++ [a; b]) → length a + length b < MAX_BUCKET_SIZE →
  status now n = Bad ∨ (wf_hash (id n) ∧ length pre ≤ leading_bit_count (node_id t) (id n) < MAX_BUCKETS) →
  ∃ t' a' b', add_node_with now (bucket_node now (S fuel)) t n = Ok t' ∧ node_id t' = node_id t ∧
    length a' + length b' ≤ S (length a + length b) ∧ distributed pre a b [n] t' a' b'.
Proof.
  intros Hr Hroom Hn. unfold add_node_with. destruct (bool_decide_reflect (status now n = Bad)) as [Hbad|Hnb].
  { exists t, a, b. split; [done|]. split; [done|]. split; [lia|]. split; [done|]. split; [by apply list_subseteq_app_l|].
    apply good_kept_snoc; [by apply good_kept_sub|congruence]. }
  destruct Hn as [|[Hw Hlbc]]; [done|]. destruct (Nat.eqb_spec (leading_bit_count (node_id t) (id n)) MAX_BUCKETS); [lia|].
  cbn [negb]. pose (l := if leading_bit_count (node_id t) (id n) =? length pre then a else b).
  edestruct (insert_pre pre (length pre) a b [] eq_refl) as (_ & _ & La & Lb).
  assert (Ei : bucket_placement (leading_bit_count (node_id t) (id n)) (length (pre ++ [a; b])) =
               if leading_bit_count (node_id t) (id n) =? length pre then length pre else S (length pre)).
  { rewrite length_app. apply bucket_placement_split. lia. }
  destruct (bucket_node_room fuel t _ n l Hr Hw ltac:(lia)) as (t' & l' & Hok & Hr' & Hid & Ha).
  { rewrite Ei. unfold l. by destruct (_ =? _). }
  { unfold l. destruct (_ =? _); lia. }
  rewrite Ei in Hr'. pose proof (add_spec_length _ _ _ _ _ Ha) as Hlen. pose proof (add_spec_keeps _ _ _ _ _ Ha) as Hkeep.
  assert (Hsub : ∀ m, m ∈ l' → m ∈ l ∨ m = n) by (intros m Hm; destruct (add_spec_elem _ _ _ _ _ _ Ha Hm); naive_solver).
  pose proof (add_spec_good _ _ _ _ Ha) as Hgood. unfold l in *. clear l La Lb.
  destruct (Nat.eqb_spec (leading_bit_count (node_id t) (id n)) (length pre)).
  - exists t', l', b. split; [done|]. split; [done|]. split; [lia|].
    rewrite (proj1 (insert_pre pre _ a b l' eq_refl)) in Hr'. split; [done|].
    split; [clear -Hsub; set_solver|]. apply good_kept_snoc.
    + apply good_kept_app; [done|by apply good_kept_sub].
    + intros Hg. destruct (Hgood Hg) as (m' & ? & ?). exists m'. rewrite elem_of_app. auto.
  - exists t', a, l'. split; [done|]. split; [done|]. split; [lia|].
    rewrite (proj1 (proj2 (insert_pre pre _ a b l' eq_refl))) in Hr'. split; [done|].
    split; [clear -Hsub; set_solver|]. apply good_kept_snoc.
    + apply good_kept_app; [by apply good_kept_sub|done].
    + intros Hg. destruct (Hgood Hg) as (m' & ? & ?). exists m'. rewrite elem_of_app. auto.
Qed.

Lemma distribute fuel pre rest : ∀ t a b,
  represents t (pre ++ [a; b]) → length a + length b + length rest ≤ MAX_BUCKET_SIZE →
  Forall (λ n, status now n = Bad ∨ (wf_hash (id n) ∧ length pre ≤ leading_bit_count (node_id t) (id n) < MAX_BUCKETS)) rest →
  ∃ t' a' b', add_all (add_node_with now (bucket_node now (S fuel))) t rest = Ok t' ∧ node_id t' = node_id t ∧
    distributed pre a b rest t' a' b'.
Proof.
  induction rest as [|n rest IH]; intros t a b Hr Hlen Hf.
  { exists t, a, b. split; [done|]. split; [done|]. split; [done|]. rewrite app_nil_r.
    split; [done|]. by apply good_kept_sub. }
  apply Forall_cons in Hf as [Hn Hf]. simpl in Hlen.
  destruct (distribute_one fuel t pre a b n Hr ltac:(lia) Hn) as (t1 & a1 & b1 & Hok & Hid & Hl & Hr1 & Hs1 & Hg1).
  destruct (IH t1 a1 b1 Hr1 ltac:(lia)) as (t2 & a2 & b2 & Hok2 & Hid2 & Hr2 & Hs2 & Hg2); [by rewrite Hid|].
  exists t2, a2, b2. cbn [add_all]. rewrite Hok. cbn [mbind res_bind]. split; [done|]. split; [congruence|].
  split; [done|]. rewrite cons_middle, (app_assoc (a ++ b)). split; [clear -Hs1 Hs2; set_solver|].
  eapply good_kept_trans; [|exact Hg2]. apply good_kept_app; [done|by apply good_kept_sub].
Qed.

Lemma rep_responded t ls l m : represents t ls → l ∈ ls → m ∈ l → last_response m ≠ None.
Proof.
  intros Hr [i Hi]%list_elem_of_lookup Hm.
  destruct (Forall2_lookup_r _ _ _ _ _ (rep_holds _ _ Hr) Hi) as (b & _ & Hh).
  by eapply (proj1 (Forall_forall _ _) (holds_responded _ _ Hh)).
Qed.

Lemma placed_at_last self k n : placed_at self (S k) k n → k ≤ leading_bit_count self (id n) < MAX_BUCKETS.
Proof.
  intros (_ & Hlt & Hp). split; [|done]. revert Hp. unfold bucket_placement.
  destruct (Nat.leb_spec (S k) (leading_bit_count self (id n))); lia.
Qed.

Lemma placed_at_grow self k i n : i < k → placed_at self (S k) i n → placed_at self (S (S k)) i n.
Proof.
  intros Hi (Hw & Hlt & Hp). split; [done|]. split; [done|]. revert Hp. unfold bucket_placement.
  destruct (Nat.leb_spec (S k) (leading_bit_count self (id n))), (Nat.leb_spec (S (S k)) (leading_bit_count self (id n))); lia.
Qed.

(** The last bucket replaced by two new ones. *)
Lemma represents_split t bs b pre l :
  represents t (pre ++ [l]) → buckets t = bs ++ [b] → S (length pre) < MAX_BUCKETS →
  represents {| buckets := bs ++ [Bucket_new] ++ [Bucket_new]; node_id := node_id t |} (pre ++ [[]; []]).
Proof.
  intros Hr Hb Hlt. pose proof (rep_holds _ _ Hr) as Hf. rewrite Hb in Hf.
  apply Forall2_app_inv in Hf as [Hpre _].
  2:{ apply Forall2_length in Hf. rewrite !length_app in Hf. simpl in Hf. lia. }
  split; cbn [node_id buckets].
  - by eapply rep_id.
  - apply Forall2_app; [done|]. repeat (constructor; [apply holds_new|]). constructor.
  - rewrite length_app. simpl. lia.
  - intros i k n Hi Hn. rewrite length_app. simpl. replace (length pre + 2) with (S (S (length pre))) by lia.
    apply lookup_app_Some in Hi as [Hi|[_ Hi]].
    + apply placed_at_grow; [by eapply lookup_lt_Some|].
      replace (S (length pre)) with (length (pre ++ [l])) by (rewrite length_app; simpl; lia).
      eapply rep_placed; [done| |done]. by apply lookup_app_l_Some.
    + apply list_elem_of_lookup_2 in Hi. apply elem_of_cons in Hi as [->|Hi]; [set_solver|].
      apply list_elem_of_singleton in Hi as ->. set_solver.
Qed.

Lemma split_bucket_spec fuel t pre l :
  represents t (pre ++ [l]) → S (length pre) < MAX_BUCKETS →
  ∃ t' a b, split_bucket (add_node_with now (bucket_node now (S fuel))) t (length pre) = Ok (t', true) ∧
    node_id t' = node_id t ∧ represents t' (pre ++ [a; b]) ∧ a ++ b ⊆ l ∧ good_kept now l (a ++ b).
Proof.
  intros Hr Hlt. pose proof (rep_buckets_length _ _ Hr) as Hlen. rewrite length_app in Hlen. simpl in Hlen.
  destruct (buckets t) as [|b0 bs0 _] eqn:Eb using rev_ind; [simpl in Hlen; lia|].
  rewrite length_app in Hlen. simpl in Hlen.
  assert (Hh : holds b0 l).
  { pose proof (rep_holds _ _ Hr) as Hf. rewrite Eb in Hf. apply Forall2_app_inv in Hf as [_ Hf]; [|lia].
    by inversion Hf. }
  unfold split_bucket, can_split_bucket. rewrite Eb, length_app. simpl length.
  destruct (Nat.eqb_spec (length pre) (length bs0 + 1 - 1)); [|lia].
  destruct (Nat.eqb_spec (length pre) (MAX_BUCKETS - 1)); [lia|]. cbn [andb negb].
  rewrite last_snoc. replace (length bs0 + 1 - 1) with (length bs0) by lia. rewrite take_app_length.
  destruct (distribute fuel pre (nodes b0) _ [] [] (represents_split t bs0 b0 pre l Hr Eb Hlt))
    as (t' & a & b & Hok & Hid & Hr' & Hs & Hg); cbn [node_id].
  - rewrite (holds_size _ _ Hh). simpl. lia.
  - rewrite (holds_nodes _ _ Hh). apply Forall_app. split.
    + apply Forall_forall. intros m Hm. right.
      assert (Hp : placed_at (node_id t) (length (pre ++ [l])) (length pre) m).
      { eapply rep_placed; [done| |done]. by apply list_lookup_middle. }
      split; [apply Hp|]. apply placed_at_last. rewrite length_app, Nat.add_1_r in Hp. exact Hp.
    + apply Forall_replicate. by left.
  - rewrite Hok. cbn [mbind res_bind]. exists t', a, b. split; [done|]. split; [done|]. split; [done|].
    simpl in Hs, Hg. rewrite (holds_nodes _ _ Hh) in Hs, Hg. split.
    + intros m Hm. assert (last_response m ≠ None).
      { apply elem_of_app in Hm as [Hm|Hm]; (eapply rep_responded; [exact Hr'| |exact Hm]); clear; set_solver. }
      apply Hs, elem_of_app in Hm as [?|[-> _]%elem_of_replicate]; done.
    + eapply good_kept_trans; [|exact Hg]. apply good_kept_sub. by apply list_subseteq_app_l.
Qed.

(** The outcome of adding [n]: entries come from the old ones and [n], good
    entries stay, and [n] is in the bucket its id selects or that bucket is full
    of entries at least as good. *)
Record added (n : Node) (t : RoutingTable) (ls : list (list Node)) (t' : RoutingTable) (ls' : list (list Node)) : Prop := {
  added_id : node_id t' = node_id t;
  added_rep : represents t' ls';
  added_length : length ls ≤ length ls';
  added_sub : concat ls' ⊆ n :: concat ls;
  added_kept : good_kept now (concat ls) (concat ls');
  added_settled : ∃ l, ls' !! bucket_placement (leading_bit_count (node_id t) (id n)) (length ls') = Some l ∧
    (key n ∈ key <$> l ∨ length l = MAX_BUCKET_SIZE ∧ Forall (λ m, status_geb (status now m) (status now n) = true) l)
}.

Lemma concat_insert {A} (ls : list (list A)) i l l' : ls !! i = Some l →
  concat ls = concat (take i ls) ++ l ++ concat (drop (S i) ls) ∧
  concat (<[i := l']> ls) = concat (take i ls) ++ l' ++ concat (drop (S i) ls).
Proof.
  intros Hl. assert (i < length ls) by (by eapply lookup_lt_Some).
  rewrite insert_take_drop by done. rewrite <- (take_drop_middle ls i l Hl) at 1.
  by rewrite !concat_app.
Qed.

Lemma added_in_place n t ls t' b i l l' r :
  represents t ls → wf_hash (id n) → status now n ≠ Bad →
  i = bucket_placement (leading_bit_count (node_id t) (id n)) (length (buckets t)) →
  t' = {| buckets := <[i := b]> (buckets t); node_id := node_id t |} →
  ls !! i = Some l → add_spec now l n l' r → represents t' (<[i := l']> ls) →
  added n t ls t' (<[i := l']> ls).
Proof.
  intros Hr Hw Hs Hi -> Hl Ha Hr'. destruct (concat_insert ls i l l' Hl) as [E1 E2].
  assert (Hlt : i < length ls) by (by eapply lookup_lt_Some). split; [done|done| | | |].
  - by rewrite length_insert.
  - rewrite E1, E2. intros m Hm. assert (Hsub : m ∈ l' → m ∈ l ∨ m = n).
    { intros Hm'. destruct (add_spec_elem _ _ _ _ _ _ Ha Hm') as [|[]]; auto. }
    clear -Hm Hsub. set_solver.
  - rewrite E1, E2. apply good_kept_app; [by apply good_kept_sub|].
    apply good_kept_app; [by eapply add_spec_keeps|by apply good_kept_sub].
  - exists l'. rewrite length_insert. split.
    + rewrite (rep_buckets_length _ _ Hr) in Hi. rewrite <- Hi. by apply list_lookup_insert_eq.
    + destruct r; [left; by eapply add_spec_placed|]. right. by inversion Ha.
Qed.

Lemma bucket_node_spec n : wf_hash (id n) → status now n ≠ Bad → ∀ fuel t ls,
  represents t ls → MAX_BUCKETS < length ls + fuel → leading_bit_count (node_id t) (id n) < MAX_BUCKETS →
  ∃ t' ls', bucket_node now fuel t n (leading_bit_count (node_id t) (id n)) = Ok t' ∧ added n t ls t' ls'.
Proof.
  intros Hw Hs fuel. induction fuel as [|fuel IH]; intros t ls Hr Hfuel Hlbc.
  { pose proof (rep_length _ _ Hr). lia. }
  destruct (place_step t ls n Hr Hw Hlbc) as (b & l & l' & Hb & Hl & Ha & Hr').
  set (i := bucket_placement _ _) in *. cbn [bucket_node]. fold i. rewrite Hb.
  destruct (Bucket_add_node now b n) as [b' r] eqn:Eadd. simpl fst in *. simpl snd in *.
  destruct r; cbn [negb].
  { do 2 eexists. split; [done|]. by eapply added_in_place. }
  pose proof (added_in_place n t ls _ b' i l l' false Hr Hw Hs eq_refl eq_refl Hl Ha Hr') as Hadd.
  set (t1 := {| buckets := <[i:=b']> (buckets t); node_id := node_id t |}) in *.
  assert (l' = l) as -> by (by inversion Ha). rewrite (list_insert_id ls i l Hl) in *.
  destruct (can_split_bucket (length (buckets t1)) i) eqn:Ec.
  2:{ unfold split_bucket. rewrite Ec. cbn [negb mbind res_bind]. eauto. }
  unfold can_split_bucket in Ec. bool_arith. rewrite (rep_buckets_length _ _ Hr') in *.
  pose proof (rep_length _ _ Hr') as Hlen.
  destruct ls as [|l0 pre _] using rev_ind; [simpl in *; lia|]. rewrite length_app in *. cbn [length] in *.
  assert (i = length pre) as Ei by lia. rewrite Ei in *.
  rewrite list_lookup_middle in Hl by done. injection Hl as ->.
  destruct fuel as [|fuel]; [lia|].
  destruct (split_bucket_spec fuel t1 pre l Hr' ltac:(lia)) as (t2 & a & c & Hok & Hid & Hr2 & Hs2 & Hg2).
  rewrite Hok. cbn [mbind res_bind]. replace (node_id t) with (node_id t2) in Hlbc |- * by done.
  destruct (IH t2 _ Hr2) as (t' & ls' & Hok' & Hadd'); [rewrite length_app; simpl; lia|done|].
  rewrite Hok'. exists t', ls'. split; [done|]. destruct Hadd' as [A1 A2 A3 A4 A5 A6].
  split; [by rewrite A1|done| | | |by rewrite Hid in A6].
  - rewrite length_app in *. simpl in *. lia.
  - rewrite concat_app in *. simpl in *. rewrite app_nil_r in *. clear -A4 Hs2. set_solver.
  - rewrite concat_app in *. simpl in *. rewrite app_nil_r in *. eapply good_kept_trans; [|exact A5].
    apply good_kept_app; [by apply good_kept_sub|done].
Qed.

Lemma add_node_spec t ls n :
  represents t ls → wf_hash (id n) → status now n ≠ Bad → id n ≠ node_id t →
  ∃ t' ls', add_node now t n = Ok t' ∧ added n t ls t' ls'.
Proof.
  intros Hr Hw Hs Hid. pose proof (rep_id _ _ Hr) as Hself.
  destruct (leading_bit_count_spec _ _ Hself Hw) as (Hle & _ & _).
  assert (leading_bit_count (node_id t) (id n) ≠ MAX_BUCKETS).
  { intros E%leading_bit_count_self; [congruence|done|done]. }
  unfold add_node, add_node_with. rewrite bool_decide_false by done.
  destruct (Nat.eqb_spec (leading_bit_count (node_id t) (id n)) MAX_BUCKETS); [done|]. cbn [negb].
  pose proof (rep_length _ _ Hr). apply bucket_node_spec; auto; lia.
Qed.

Lemma add_node_ignored t n : wf_hash (node_id t) → wf_hash (id n) →
  status now n = Bad ∨ id n = node_id t → add_node now t n = Ok t.
Proof.
  intros Hw Hn Hor. unfold add_node, add_node_with. destruct (bool_decide_reflect (status now n = Bad)); [done|].
  destruct Hor as [|Hid]; [done|]. by rewrite (proj2 (leading_bit_count_self _ _ Hw Hn)).
Qed.
End Table.
