(* ===== verification/RoutingIter.v ===== *)
(** The iterators of the routing table: which entries [find_node] and
    [closest_nodes] hand out and in which order. *)

From stdpp Require Import base numbers sorting list.
From S2P Require Import Prelude Extern Convert Sha Node RoutingTable RoutingTheorems.

(** * [find_node] *)

(** What the bucket iterator yields at position [k] of a table. *)
Definition contents_at (l : list Bucket) (k : nat) : BucketContents :=
  if (k + 1 <? length l) || (length l =? MAX_BUCKETS)
  then match l !! k with Some b => Sorted b | None => EmptyBucket end
  else EmptyBucket.

Lemma Buckets_next_at l k : 1 ≤ length l ≤ MAX_BUCKETS → k < MAX_BUCKETS →
  Buckets_next {| buckets_slice := l; index := k |} =
    Ok (Some (contents_at l k), {| buckets_slice := l; index := k + 1 |}).
Proof.
  intros Hl Hk. unfold Buckets_next, contents_at. cbn [index buckets_slice].
  destruct (Nat.ltb_spec MAX_BUCKETS k); [lia|]. destruct (Nat.eqb_spec k MAX_BUCKETS); [lia|].
  destruct (_ || _) eqn:E; [|done]. replace (k + 1 - 1) with k by lia.
  destruct (lookup_lt_is_Some_2 l k) as [b Hb]; [|by rewrite Hb].
  apply orb_true_iff in E as [E|E]; bool_arith; lia.
Qed.

Lemma Buckets_nth_at l n k : 1 ≤ length l ≤ MAX_BUCKETS → k + n < MAX_BUCKETS →
  Buckets_nth n {| buckets_slice := l; index := k |} = Ok (Some (contents_at l (k + n))).
Proof.
  intros Hl. revert k. induction n as [|n IH]; intros k Hk; cbn [Buckets_nth];
    rewrite Buckets_next_at by (auto; lia); cbn [mbind res_bind].
  - by rewrite Nat.add_0_r.
  - rewrite IH by lia. do 3 f_equal. lia.
Qed.

Section Find.
Context `{Chrono} (now : Z).

Lemma find_node_at t ls n : represents t ls →
  leading_bit_count (node_id t) (id n) < MAX_BUCKETS →
  find_node now t n =
    Ok match contents_at (buckets t) (leading_bit_count (node_id t) (id n)) with
       | Sorted b => List.find (λ m, Node_eq m n) (pingable_nodes now b)
       | _ => None
       end.
Proof.
  intros Hr Hlt. unfold find_node, table_buckets, Buckets_new.
  rewrite Buckets_nth_at; [|rewrite (rep_buckets_length _ _ Hr); apply (rep_length _ _ Hr)|done].
  cbn [mbind res_bind]. rewrite Nat.add_0_l. unfold contents_at.
  destruct (_ || _); [|done]. by destruct (buckets t !! _).
Qed.
End Find.

(** * The order in which bucket indices are visited *)

Fixpoint visits (fuel start cur : nat) : option (list nat) :=
  match fuel with
  | O => None
  | S fuel =>
      match next_bucket_index MAX_BUCKETS start cur with
      | None => Some []
      | Some c => (c ::.) <$> visits fuel start c
      end
  end.

Definition gap (s c : nat) : nat := (s - c) + (c - s).

Fixpoint gaps_grow (s : nat) (l : list nat) : bool :=
  match l with
  | [] => true
  | a :: l' => match l' with [] => true | b :: _ => gap s a <=? gap s b end && gaps_grow s l'
  end.

(** From every start the walk ends, visits every bucket index once, and moves
    away from the start: checked by evaluation for the 161 starts. *)
Definition visits_ok (s : nat) : bool :=
  match visits (MAX_BUCKETS + 1) s s with
  | Some vs =>
      bool_decide (merge_sort le (if s =? MAX_BUCKETS then vs else s :: vs) = seq 0 MAX_BUCKETS) &&
      gaps_grow s (s :: vs) && (length vs <=? MAX_BUCKETS)
  | None => false
  end.

Lemma visits_all_ok : forallb visits_ok (seq 0 (MAX_BUCKETS + 1)) = true.
Proof. vm_compute. reflexivity. Qed.

Inductive path (start : nat) : nat → list nat → Prop :=
  | path_end cur : next_bucket_index MAX_BUCKETS start cur = None → path start cur []
  | path_move cur c vs : next_bucket_index MAX_BUCKETS start cur = Some c → path start c vs →
      path start cur (c :: vs).

Lemma visits_path fuel start cur vs : visits fuel start cur = Some vs → path start cur vs.
Proof.
  revert cur vs. induction fuel as [|fuel IH]; intros cur vs; simpl; [done|].
  destruct (next_bucket_index _ _ _) as [c|] eqn:E.
  - intros (vs' & Hv & ->)%fmap_Some. by apply path_move; [|apply IH].
  - intros [= <-]. by apply path_end.
Qed.

Lemma gaps_grow_sorted s l : gaps_grow s l = true → StronglySorted (λ a b, gap s a ≤ gap s b) l.
Proof.
  intros Hg. apply Sorted_StronglySorted; [intros a b c; lia|].
  induction l as [|a l IH]; [constructor|]. simpl in Hg. apply andb_prop in Hg as [Ha Hl].
  constructor; [by apply IH|]. destruct l; constructor. by apply Nat.leb_le.
Qed.

Lemma visits_from s : s ≤ MAX_BUCKETS → ∃ vs, path s s vs ∧ length vs ≤ MAX_BUCKETS ∧
  StronglySorted (λ a b, gap s a ≤ gap s b) (s :: vs) ∧
  (if s =? MAX_BUCKETS then vs else s :: vs) ≡ₚ seq 0 MAX_BUCKETS.
Proof.
  intros Hs. pose proof visits_all_ok as Hall. rewrite forallb_forall in Hall.
  specialize (Hall s ltac:(apply in_seq; lia)). unfold visits_ok in Hall.
  destruct (visits _ s s) as [vs|] eqn:Ev; [|done]. apply andb_prop in Hall as [Hall Hlen].
  apply andb_prop in Hall as [Hsort Hgap]. exists vs.
  split; [by eapply visits_path|]. split; [by apply Nat.leb_le|].
  split; [by apply gaps_grow_sorted|]. apply bool_decide_eq_true in Hsort. rewrite <- Hsort.
  symmetry. apply merge_sort_Permutation.
Qed.

(** * What [closest_nodes] yields *)

Section Closest.
Context `{Chrono} (now : Z).

Abbreviation good := (is_good_node now) (only parsing).

Definition yields_at (c : nat) (l : list (nat * Node * bool)) : list Node :=
  (λ '(_, n, _), n) <$> List.filter (λ '(i, n, r), good n && ((i =? c) && negb r)) l.

Definition block (bs : list Bucket) (asd : option (list (nat * Node * bool))) (c : nat) : list Node :=
  List.filter good (default [] (bucket_iterator bs c)) ++ default [] (yields_at c <$> asd).

(** The nodes an iterator has left, given the indices [vs] it will move to. *)
Definition left_over (st : ClosestNodes) (vs : list nat) : list Node :=
  List.filter good (default [] (current_iter st)) ++
  default [] (yields_at (current_index st) <$> assorted_nodes st) ++
  concat (block (cn_buckets st) (assorted_nodes st) <$> vs).

Lemma filter_next_spec l :
  match good_node_filter_next now l with
  | Some (n, l') => List.filter good l = n :: List.filter good l'
  | None => List.filter good l = []
  end.
Proof. induction l as [|m l IH]; simpl; [done|]. by destruct (good m). Qed.

Lemma take_assorted_spec c l :
  match take_assorted now c l with
  | Some (n, l') => yields_at c l = n :: yields_at c l' ∧ ∀ c', c' ≠ c → yields_at c' l' = yields_at c' l
  | None => yields_at c l = []
  end.
Proof.
  unfold yields_at. induction l as [|[[i n] r] l IH]; simpl; [done|].
  destruct (good n && ((i =? c) && negb r)) eqn:E.
  - apply andb_prop in E as [_ [Ei%Nat.eqb_eq _]%andb_prop]. subst i. simpl. rewrite Nat.eqb_refl, andb_false_r. split; [done|].
    intros c' Hc. destruct (Nat.eqb_spec c c'); [congruence|]. simpl. by rewrite andb_false_r.
  - destruct (take_assorted now c l) as [[m l']|]; simpl; [|done].
    destruct IH as [IH1 IH2]. rewrite E; split; [done|]. intros c' Hc. specialize (IH2 c' Hc).
    destruct (good n && ((i =? c') && negb r)); csimpl; by rewrite IH2.
Qed.

Lemma next_spec fuel : ∀ st vs, path (start_index st) (current_index st) vs →
  NoDup (current_index st :: vs) → length vs < fuel →
  match left_over st vs with
  | [] => ∃ st', ClosestNodes_next now fuel st = Ok (None, st')
  | n :: rest => ∃ st' vs', ClosestNodes_next now fuel st = Ok (Some n, st') ∧
      path (start_index st') (current_index st') vs' ∧ NoDup (current_index st' :: vs') ∧
      length vs' ≤ length vs ∧ rest = left_over st' vs'
  end.
Proof.
  induction fuel as [|fuel IH]; intros st vs Hp Hnd Hlen; [lia|]. cbn [ClosestNodes_next].
  unfold left_over at 1.
  assert (Hiter : match current_iter st ≫= good_node_filter_next now with
    | Some (n, l') => List.filter good (default [] (current_iter st)) = n :: List.filter good l'
    | None => List.filter good (default [] (current_iter st)) = [] end).
  { destruct (current_iter st) as [l|]; [|done]. apply filter_next_spec. }
  destruct (current_iter st ≫= good_node_filter_next now) as [[n l']|]; rewrite Hiter; simpl app.
  { do 2 eexists. split; [done|]. cbn [start_index current_index]. split; [done|]. split; [done|]. split; [done|]. done. }
  assert (Has : match assorted_nodes st ≫= take_assorted now (current_index st) with
    | Some (n, l') => default [] (yields_at (current_index st) <$> assorted_nodes st) = n :: yields_at (current_index st) l' ∧
        ∀ c, c ≠ current_index st → block (cn_buckets st) (Some l') c = block (cn_buckets st) (assorted_nodes st) c
    | None => default [] (yields_at (current_index st) <$> assorted_nodes st) = [] end).
  { destruct (assorted_nodes st) as [l|]; [|done]. simpl. pose proof (take_assorted_spec (current_index st) l) as Ht.
    destruct (take_assorted now _ l) as [[n l']|]; [|done]. destruct Ht as [H1 H2]. split; [done|].
    intros c Hc. unfold block. simpl. by rewrite H2. }
  destruct (assorted_nodes st ≫= take_assorted now (current_index st)) as [[n l']|].
  { destruct Has as [-> Hb]. simpl app. do 2 eexists. split; [done|]. cbn [start_index current_index].
    split; [done|]. split; [done|]. split; [done|]. unfold left_over. cbn.
    assert (List.filter good (default [] ((λ _ : list Node, []) <$> current_iter st)) = []) as -> by (by destruct (current_iter st)).
    simpl. f_equal. f_equal. apply list_fmap_ext. intros i c Hc. symmetry. apply Hb. intros ->.
    apply NoDup_cons in Hnd as [Hn _]. apply Hn. by eapply list_elem_of_lookup_2. }
  rewrite Has. simpl app. destruct Hp as [cur Hnone|cur c vs Hsome Hp]; [rewrite Hnone; simpl; eauto|]. rewrite Hsome.
  set (st1 := {| cn_buckets := cn_buckets st |}).
  specialize (IH st1 vs Hp). apply NoDup_cons in Hnd as [_ Hnd]. specialize (IH Hnd). simpl in Hlen.
  specialize (IH ltac:(lia)). change (left_over st1 vs) with
    (List.filter good (default [] (bucket_iterator (cn_buckets st) c)) ++
     default [] (yields_at c <$> assorted_nodes st) ++ concat (block (cn_buckets st) (assorted_nodes st) <$> vs)) in IH.
  rewrite app_assoc in IH. fold (block (cn_buckets st) (assorted_nodes st) c) in IH.
  change (concat (block (cn_buckets st) (assorted_nodes st) <$> c :: vs)) with
    (block (cn_buckets st) (assorted_nodes st) c ++ concat (block (cn_buckets st) (assorted_nodes st) <$> vs)).
  destruct (_ ++ _) as [|m rest]; [done|].
  destruct IH as (st' & vs' & ? & ? & ? & ? & ?). exists st', vs'. split; [done|]. split; [done|]. split; [done|].
  split; [simpl; lia|done].
Qed.

Lemma collect_spec fuel : ∀ st vs, path (start_index st) (current_index st) vs →
  NoDup (current_index st :: vs) → length vs ≤ MAX_BUCKETS → length (left_over st vs) < fuel →
  ClosestNodes_collect now fuel st = Ok (left_over st vs).
Proof.
  induction fuel as [|fuel IH]; intros st vs Hp Hnd Hlen Hf; [lia|]. cbn [ClosestNodes_collect].
  pose proof (next_spec (MAX_BUCKETS + 1) st vs Hp Hnd ltac:(lia)) as Hn.
  destruct (left_over st vs) as [|n rest].
  - destruct Hn as [st' ->]. done.
  - destruct Hn as (st' & vs' & -> & Hp' & Hnd' & Hl' & ->). cbn [mbind res_bind]. simpl in Hf.
    rewrite (IH st' vs') by (auto; lia). done.
Qed.

Lemma concat_fmap_perm {A B} (f : A → list B) l k : l ≡ₚ k → concat (f <$> l) ≡ₚ concat (f <$> k).
Proof.
  induction 1 as [|x l k _ IH|x y l|l k m _ IH1 _ IH2]; csimpl; [done|by rewrite IH| |by rewrite IH1].
  rewrite !app_assoc. by rewrite (Permutation_app_comm (f x)).
Qed.

Lemma concat_fmap_app {A B} (f g : A → list B) l :
  concat ((λ c, f c ++ g c) <$> l) ≡ₚ concat (f <$> l) ++ concat (g <$> l).
Proof.
  induction l as [|x l IH]; csimpl; [done|]. rewrite IH. rewrite <- !app_assoc. apply Permutation_app_head.
  rewrite !app_assoc. apply Permutation_app_tail. apply Permutation_app_comm.
Qed.

Lemma concat_fmap_lookup {A B} (g : A → list B) (l : list A) n : length l ≤ n →
  concat ((λ c, default [] (g <$> l !! c)) <$> seq 0 n) = concat (g <$> l).
Proof.
  intros Hn. replace n with (length l + (n - length l)) by lia. rewrite seq_app, fmap_app, concat_app.
  assert (concat ((λ c, default [] (g <$> l !! c)) <$> seq (0 + length l) (n - length l)) = []) as ->.
  { generalize (n - length l). intros k. assert (Hb : length l ≤ 0 + length l) by lia. revert Hb.
    generalize (0 + length l). induction k as [|k IH]; intros b Hb; [done|]. csimpl. rewrite IH by lia.
    rewrite lookup_ge_None_2 by lia. done. }
  rewrite app_nil_r. clear Hn. induction l as [|x l IH]; [done|]. csimpl. f_equal.
  rewrite <- IH. rewrite <- fmap_S_seq, <- list_fmap_compose. done.
Qed.

Lemma concat_filter_index {A} (f : A → nat) (l : list A) N : Forall (λ x, f x < N) l →
  concat ((λ c, List.filter (λ x, f x =? c) l) <$> seq 0 N) ≡ₚ l.
Proof.
  induction l as [|x l IH]; intros Hf.
  - clear. generalize 0. induction N as [|N IH]; intros b; csimpl; [done|apply IH].
  - apply Forall_cons in Hf as [Hx Hl]. specialize (IH Hl).
    transitivity (concat ((λ c, (if f x =? c then [x] else []) ++ List.filter (λ x, f x =? c) l) <$> seq 0 N)).
    { apply reflexive_eq. f_equal. apply list_fmap_ext. intros i c _. simpl. by destruct (f x =? c). }
    rewrite concat_fmap_app, IH. change (x :: l) with ([x] ++ l). apply Permutation_app_tail.
    assert (Hgen : ∀ b n, b ≤ f x < b + n → concat ((λ c, if f x =? c then [x] else []) <$> seq b n) = [x]).
    { assert (Hnone : ∀ n b, f x < b → concat ((λ c, if f x =? c then [x] else []) <$> seq b n) = []).
      { induction n as [|n IHn]; intros b Hb; [done|]. csimpl. rewrite IHn by lia.
        destruct (Nat.eqb_spec (f x) b); [lia|done]. }
      intros b n. revert b. induction n as [|n IHn]; intros b Hb; [lia|]. csimpl.
      destruct (Nat.eqb_spec (f x) b); [by rewrite Hnone by lia|]. apply IHn. lia. }
    by rewrite Hgen by lia.
Qed.

Lemma sorted_concat {B} (R : nat → nat → Prop) (f : B → nat) (g : nat → list B) l :
  (∀ a, R a a) → (∀ c x, c ∈ l → x ∈ g c → f x = c) → StronglySorted R l →
  StronglySorted (λ x y, R (f x) (f y)) (concat (g <$> l)).
Proof.
  intros Hrefl. induction l as [|c l IH]; intros Hg Hs; csimpl; [constructor|].
  apply StronglySorted_inv in Hs as [Hs Hc].
  specialize (IH ltac:(intros d x Hd; apply Hg; by right) Hs).
  assert (Hx : ∀ x, x ∈ g c → f x = c) by (intros x; apply Hg; by left).
  assert (Hy : Forall (λ y, R c (f y)) (concat (g <$> l))).
  { apply Forall_forall. intros y (k & (d & -> & Hd)%list_elem_of_In%list_elem_of_fmap & Hy%list_elem_of_In)%list_elem_of_In%in_concat.
    rewrite (Hg d y); [|by right|done]. by eapply (proj1 (Forall_forall _ _) Hc). }
  induction (g c) as [|x k IHk]; simpl; [done|].
  constructor; [apply IHk; intros; apply Hx; by right|].
  rewrite (Hx x) by (by left). apply Forall_app. split; [|done]. apply Forall_forall. intros y Hyk.
  rewrite (Hx y) by (by right). done.
Qed.

Lemma placed_at_sorted self len i n : placed_at self len i n → i + 1 < len →
  leading_bit_count self (id n) = i.
Proof. intros (_ & _ & Hp) Hi. revert Hp. unfold bucket_placement. destruct (Nat.leb_spec len (leading_bit_count self (id n))); lia. Qed.

(** A pingable node of a bucket is one of its entries. *)
Lemma pingable_entry t ls i b n : represents t ls → buckets t !! i = Some b →
  n ∈ pingable_nodes now b → placed_at (node_id t) (length ls) i n.
Proof.
  intros Hr Hb Hn. destruct (Forall2_lookup_l _ _ _ _ _ (rep_holds _ _ Hr) Hb) as (l & Hl & Hh).
  unfold pingable_nodes in Hn. apply list_elem_of_In, List.filter_In in Hn as [Hn Hp%pingable_filter_spec].
  apply list_elem_of_In in Hn. rewrite (holds_nodes _ _ Hh) in Hn.
  apply elem_of_app in Hn as [Hn|[-> _]%elem_of_replicate]; [by eapply rep_placed|]. by rewrite status_placeholder in Hp.
Qed.

Definition pingable_all (t : RoutingTable) : list Node := concat (pingable_nodes now <$> buckets t).

Lemma filter_filter {A} (p q : A → bool) l : List.filter p (List.filter q l) = List.filter (λ x, q x && p x) l.
Proof. induction l as [|x l IH]; simpl; [done|]. destruct (q x), (p x) eqn:E; simpl; rewrite ?E, IH; done. Qed.

(** The blocks of a table: by bucket while it is sorted, by shared bits in the
    assorted one. *)
Lemma blocks_assorted bs b self :
  length (bs ++ [b]) ≠ MAX_BUCKETS → length (nodes b) = MAX_BUCKET_SIZE → ∀ c,
  block (bs ++ [b]) (precompute_assorted_nodes (bs ++ [b]) self) c =
    default [] (pingable_nodes now <$> bs !! c) ++
    List.filter (λ n, leading_bit_count self (id n) =? c) (pingable_nodes now b).
Proof.
  intros Hlen Hb c. unfold block, bucket_iterator, precompute_assorted_nodes.
  rewrite (proj2 (Nat.eqb_neq _ _) Hlen), length_app. simpl length.
  replace (length bs + 1 - 1) with (length bs) by lia. rewrite take_app_length, list_lookup_middle by done.
  f_equal; [by destruct (bs !! c)|].
  destruct (nodes b) as [|n0 l0] eqn:En; [done|]. rewrite <- En at 1 2. cbn [fmap option_fmap option_map default].
  rewrite drop_ge, app_nil_r by (rewrite length_replicate, length_fmap, En; lia).
  unfold pingable_nodes. rewrite filter_filter. clear. unfold yields_at, Datatypes.id.
  induction (nodes b) as [|n l IH]; csimpl; [done|]. rewrite andb_true_r.
  change (pingable_nodes_filter now n) with (good n). destruct (good n && _); csimpl; by rewrite IH.
Qed.

Lemma blocks_full bs self : length bs = MAX_BUCKETS → ∀ c,
  block bs (precompute_assorted_nodes bs self) c = default [] (pingable_nodes now <$> bs !! c).
Proof.
  intros Hlen c. unfold block, bucket_iterator, precompute_assorted_nodes. rewrite Hlen, Nat.eqb_refl. simpl.
  rewrite app_nil_r. by destruct (bs !! c).
Qed.

Lemma blocks_perm t ls : represents t ls →
  concat (block (buckets t) (precompute_assorted_nodes (buckets t) (node_id t)) <$> seq 0 MAX_BUCKETS) ≡ₚ pingable_all t.
Proof.
  intros Hr. pose proof (rep_buckets_length _ _ Hr) as Hl. pose proof (rep_length _ _ Hr) as Hlen. unfold pingable_all.
  destruct (decide (length (buckets t) = MAX_BUCKETS)) as [Hfull|Hpart].
  { rewrite <- (concat_fmap_lookup (pingable_nodes now) (buckets t) MAX_BUCKETS) by lia. apply reflexive_eq. f_equal. apply list_fmap_ext.
    intros i c _. by apply blocks_full. }
  destruct (buckets t) as [|b bs _] eqn:Eb using rev_ind; [simpl in Hl; lia|].
  assert (Hb : buckets t !! length bs = Some b) by (by rewrite Eb, list_lookup_middle).
  assert (Hsize : length (nodes b) = MAX_BUCKET_SIZE).
  { destruct (Forall2_lookup_l _ _ _ _ _ (rep_holds _ _ Hr) Hb) as (l & _ & Hh). by eapply holds_size. }
  rewrite length_app in Hl, Hpart. simpl in Hl, Hpart.
  transitivity (concat ((λ c, default [] (pingable_nodes now <$> bs !! c) ++
    List.filter (λ n, leading_bit_count (node_id t) (id n) =? c) (pingable_nodes now b)) <$> seq 0 MAX_BUCKETS)).
  { apply reflexive_eq. f_equal. apply list_fmap_ext. intros i c _. apply blocks_assorted; [|done].
    rewrite length_app. done. }
  rewrite concat_fmap_app, concat_fmap_lookup by lia. rewrite fmap_app, concat_app. apply Permutation_app_head.
  change (concat (pingable_nodes now <$> [b])) with (pingable_nodes now b ++ []). rewrite app_nil_r.
  apply (concat_filter_index (λ n, leading_bit_count (node_id t) (id n))). apply Forall_forall. intros n Hn.
  by destruct (pingable_entry _ _ _ _ _ Hr Hb Hn) as (_ & ? & _).
Qed.

Lemma blocks_index t ls c n : represents t ls →
  n ∈ block (buckets t) (precompute_assorted_nodes (buckets t) (node_id t)) c →
  leading_bit_count (node_id t) (id n) = c ∧ c < MAX_BUCKETS.
Proof.
  intros Hr Hn. pose proof (rep_buckets_length _ _ Hr) as Hl. pose proof (rep_length _ _ Hr) as Hlen.
  assert (Hsorted : ∀ b, buckets t !! c = Some b → c + 1 < length ls ∨ length ls = MAX_BUCKETS →
    n ∈ pingable_nodes now b → leading_bit_count (node_id t) (id n) = c ∧ c < MAX_BUCKETS).
  { intros b Hb Hc Hp. pose proof (lookup_lt_Some _ _ _ Hb). pose proof (pingable_entry _ _ _ _ _ Hr Hb Hp) as Hpl.
    split; [|lia]. destruct Hpl as (_ & Hlt & Hpl). revert Hpl. unfold bucket_placement.
    destruct (Nat.leb_spec (length ls) (leading_bit_count (node_id t) (id n))); lia. }
  destruct (decide (length (buckets t) = MAX_BUCKETS)) as [Hfull|Hpart].
  { rewrite blocks_full in Hn by done. destruct (buckets t !! c) as [b|] eqn:Eb; simpl in Hn; [|by apply elem_of_nil in Hn].
    eapply Hsorted; [done|lia|done]. }
  destruct (buckets t) as [|b bs _] eqn:Eb using rev_ind; [simpl in Hl; lia|].
  assert (Hb : buckets t !! length bs = Some b) by (by rewrite Eb, list_lookup_middle).
  rewrite blocks_assorted in Hn; [|done|].
  2:{ destruct (Forall2_lookup_l _ _ _ _ _ (rep_holds _ _ Hr) Hb) as (l & _ & Hh). by eapply holds_size. }
  apply elem_of_app in Hn as [Hn|Hn].
  - destruct (bs !! c) as [b'|] eqn:Ec; simpl in Hn; [|by apply elem_of_nil in Hn].
    eapply Hsorted; [by apply lookup_app_l_Some| |done]. apply lookup_lt_Some in Ec.
    rewrite length_app in Hl. simpl in Hl. lia.
  - apply list_elem_of_In, List.filter_In in Hn as [Hn%list_elem_of_In <-%Nat.eqb_eq].
    split; [done|]. by destruct (pingable_entry _ _ _ _ _ Hr Hb Hn) as (_ & ? & _).
Qed.

Definition slots (t : RoutingTable) : nat := MAX_BUCKET_SIZE * length (buckets t).

Lemma pingable_all_length t ls : represents t ls → length (pingable_all t) ≤ slots t.
Proof.
  intros Hr. unfold pingable_all, slots. pose proof (rep_holds _ _ Hr) as Hf. clear Hr.
  induction Hf as [|b l bs ls Hb _ IH]; csimpl; [lia|]. rewrite length_app.
  pose proof (List.filter_length_le (pingable_nodes_filter now) (nodes b)).
  rewrite (holds_size _ _ Hb) in *. unfold pingable_nodes, MAX_BUCKET_SIZE in *. lia.
Qed.

Lemma closest_nodes_spec t ls target : represents t ls → wf_hash target →
  ∃ l, ClosestNodes_collect now (S (slots t)) (closest_nodes t target) = Ok l ∧ l ≡ₚ pingable_all t ∧
    let s := leading_bit_count (node_id t) target in
    StronglySorted (λ m n, gap s (leading_bit_count (node_id t) (id m)) ≤ gap s (leading_bit_count (node_id t) (id n))) l.
Proof.
  intros Hr Ht. destruct (leading_bit_count_spec _ _ (rep_id _ _ Hr) Ht) as (Hs & _ & _).
  unfold closest_nodes, ClosestNodes_new. set (s := leading_bit_count (node_id t) target) in *. cbv zeta in *.
  set (st := {| cn_buckets := buckets t |}). destruct (visits_from s Hs) as (vs & Hpath & Hlen & Hsort & Hperm).
  set (blk := block (buckets t) (precompute_assorted_nodes (buckets t) (node_id t))).
  assert (Hleft : left_over st vs = concat (blk <$> s :: vs)) by (csimpl; unfold blk, block; rewrite <- app_assoc; done).
  assert (Hnd : NoDup (s :: vs)).
  { pose proof (NoDup_seq 0 MAX_BUCKETS) as Hnd. rewrite <- Hperm in Hnd. destruct (Nat.eqb_spec s MAX_BUCKETS) as [E|]; [|done].
    constructor; [|done]. intros Hin. rewrite Hperm in Hin. apply elem_of_seq in Hin. lia. }
  assert (Hp : left_over st vs ≡ₚ pingable_all t).
  { rewrite <- (blocks_perm t ls Hr). fold blk. rewrite <- (concat_fmap_perm blk _ _ Hperm), Hleft.
    destruct (Nat.eqb_spec s MAX_BUCKETS) as [E|]; [|done]. csimpl.
    destruct (blk s) as [|n k] eqn:Ek; [done|]. destruct (blocks_index t ls s n Hr) as [_ ?]; [|lia].
    fold blk. rewrite Ek. by left. }
  exists (left_over st vs). split; [|split; [done|]].
  - apply collect_spec; [done|done|done|]. rewrite Hp. pose proof (pingable_all_length t ls Hr). lia.
  - rewrite Hleft. apply (sorted_concat (λ a b, gap s a ≤ gap s b) (λ n, leading_bit_count (node_id t) (id n))); [done| |done].
    intros c n _ Hn. by destruct (blocks_index t ls c n Hr Hn).
Qed.
End Closest.
