(* ===== verification/RoutingProperties.v ===== *)
(** What the routing table promises to the DHT worker: the properties of its
    operations over every history of insertions and of requests and responses
    recorded on the nodes it hands out. *)

From stdpp Require Import base numbers sorting relations list.
From S2P Require Import Prelude Extern Convert Sha Node RoutingTable RoutingTheorems RoutingIter.

(** * Histories *)

Inductive NodeOp := LocalRequest | RemoteRequest | RemoteResponse.

Section History.
Context `{Chrono}.

Definition run_op (now : Z) (op : NodeOp) (n : Node) : Node :=
  match op with
  | LocalRequest => local_request now n
  | RemoteRequest => remote_request now n
  | RemoteResponse => remote_response now n
  end.

(** A call through a reference to a pingable node of the table: [find_node] and
    [closest_nodes] hand out no other. *)
Definition touch (now : Z) (op : NodeOp) (t : RoutingTable) (i j : nat) : RoutingTable :=
  match buckets t !! i with
  | Some b =>
      match nodes b !! j with
      | Some n =>
          if pingable_nodes_filter now n
          then {| buckets := <[i := {| nodes := <[j := run_op now op n]> (nodes b) |}]> (buckets t); node_id := node_id t |}
          else t
      | None => t
      end
  | None => t
  end.

Inductive table_step : RoutingTable → RoutingTable → Prop :=
  | step_add now n t t' : wf_hash (id n) → add_node now t n = Ok t' → table_step t t'
  | step_touch now op i j t : table_step t (touch now op t i j).

Lemma run_op_same now op n : status now n ≠ Bad →
  key (run_op now op n) = key n ∧ last_response (run_op now op n) ≠ None.
Proof.
  intros Hs. pose proof (status_not_bad now n Hs).
  destruct op; simpl; unfold local_request; [destruct (bool_decide _)| |]; done.
Qed.

Lemma holds_touch now op b l j n : holds b l → nodes b !! j = Some n → status now n ≠ Bad →
  l !! j = Some n ∧ holds {| nodes := <[j := run_op now op n]> (nodes b) |} (<[j := run_op now op n]> l).
Proof.
  intros Hh Hj Hs. destruct (run_op_same now op n Hs) as [Hk Hr].
  assert (Hl : l !! j = Some n).
  { rewrite (holds_nodes _ _ Hh) in Hj. apply lookup_app_Some in Hj as [?|[_ [-> _]%lookup_replicate]]; [done|].
    by rewrite status_placeholder in Hs. }
  split; [done|]. split; simpl.
  - rewrite (holds_nodes _ _ Hh), length_insert. apply insert_app_l. by eapply lookup_lt_Some.
  - rewrite length_insert. by eapply holds_length.
  - rewrite list_fmap_insert, list_insert_id; [by eapply holds_nodup|]. by rewrite list_lookup_fmap, Hl, Hk.
  - apply Forall_insert; [by eapply holds_responded|done].
Qed.

Lemma represents_touch now op t ls i j : represents t ls → ∃ ls', represents (touch now op t i j) ls'.
Proof.
  intros Hr. unfold touch. destruct (buckets t !! i) as [b|] eqn:Eb; [|eauto].
  destruct (nodes b !! j) as [n|] eqn:En; [|eauto].
  destruct (pingable_nodes_filter now n) eqn:Ep; [|eauto]. apply pingable_filter_spec in Ep.
  destruct (Forall2_lookup_l _ _ _ _ _ (rep_holds _ _ Hr) Eb) as (l & Hl & Hh).
  destruct (holds_touch now op b l j n Hh En Ep) as [Hlj Hh']. destruct (run_op_same now op n Ep) as [Hk _].
  exists (<[i := <[j := run_op now op n]> l]> ls). split; cbn [buckets node_id].
  - by eapply rep_id.
  - apply Forall2_insert; [by eapply rep_holds|done].
  - rewrite length_insert. by eapply rep_length.
  - rewrite length_insert. intros i' l' m Hi Hm.
    apply list_lookup_insert_Some in Hi as [(<- & <- & _)|[_ Hi]]; [|by eapply rep_placed].
    apply list_elem_of_lookup in Hm as [j' Hm].
    apply list_lookup_insert_Some in Hm as [(<- & <- & _)|[_ Hm]].
    + assert (Hp : placed_at (node_id t) (length ls) i n).
      { eapply rep_placed; [done|done|]. by eapply list_elem_of_lookup_2. }
      unfold placed_at in *. injection Hk as -> _. done.
    + eapply rep_placed; [done|done|]. by eapply list_elem_of_lookup_2.
Qed.

Lemma add_node_represents now t ls n : represents t ls → wf_hash (id n) →
  ∃ t' ls', add_node now t n = Ok t' ∧ represents t' ls'.
Proof.
  intros Hr Hw. destruct (decide (status now n = Bad ∨ id n = node_id t)) as [Hi|Hn].
  - exists t, ls. split; [|done]. apply add_node_ignored; auto. by eapply rep_id.
  - destruct (add_node_spec now t ls n) as (t' & ls' & Hok & Ha); [done|done|tauto|tauto|].
    exists t', ls'. split; [done|]. by eapply added_rep.
Qed.

Lemma reachable_represents self t : wf_hash self → rtc table_step (RoutingTable_new self) t → ∃ ls, represents t ls.
Proof.
  intros Hw. apply (rtc_ind_r (λ t, ∃ ls, represents t ls) (RoutingTable_new self)).
  - exists [[]]. by apply represents_new.
  - intros t1 t2 _ Hstep [ls Hr]. destruct Hstep as [now n t1 t2 Hn Hok|now op i j t1].
    + destruct (add_node_represents now t1 ls n Hr Hn) as (t' & ls' & Hok' & Hr'). rewrite Hok in Hok'.
      injection Hok' as <-. eauto.
    + by eapply represents_touch.
Qed.
End History.

(** * Properties *)

(** Example data: ids that differ in their first byte, a clock in seconds. *)
Definition ex_id (x : Z) : ShaHash := {| hash := x :: replicate 19 0%Z |}.
Definition ex_addr (p : Z) : SocketAddr := SockV4 {| v4_ip := Ipv4 10 0 0 1; v4_port := p |}.

Lemma wf_ex_id x : is_u8 x → wf_hash (ex_id x).
Proof. intros Hx. split; [done|]. constructor; [done|]. apply (Forall_replicate is_u8 19 0%Z). done. Qed.

(** [leading_bit_count] is the length of the longest common prefix of two
    ids, although the bit iterator misreports bits after the first set one of a
    byte; it is [MAX_BUCKETS] exactly for equal ids. *)
Theorem leading_bit_count_prefix (a b : ShaHash) :
  wf_hash a → wf_hash b →
  (∀ i, i < leading_bit_count a b → bit_at (hash a) i = bit_at (hash b) i) ∧
  (leading_bit_count a b < MAX_BUCKETS →
     bit_at (hash a) (leading_bit_count a b) ≠ bit_at (hash b) (leading_bit_count a b)) ∧
  (leading_bit_count a b = MAX_BUCKETS ↔ a = b).
Proof.
  intros Ha Hb. destruct (leading_bit_count_spec a b Ha Hb) as (_ & H1 & H2).
  split; [done|]. split; [done|]. by apply leading_bit_count_self.
Qed.

Lemma leading_bit_count_prefix_witness :
  leading_bit_count (ex_id 192) (ex_id 207) = 4 ∧
  (leading_bit_count (ex_id 192) (ex_id 207) < MAX_BUCKETS →
     bit_at (hash (ex_id 192)) (leading_bit_count (ex_id 192) (ex_id 207)) ≠
     bit_at (hash (ex_id 207)) (leading_bit_count (ex_id 192) (ex_id 207))).
Proof.
  split; [vm_compute; reflexivity|].
  apply (leading_bit_count_prefix (ex_id 192) (ex_id 207)); apply wf_ex_id; split; reflexivity || (vm_compute; congruence).
Defined.

(** Claim C6. whatever nodes are added and whatever requests and responses are
    recorded, the table keeps its invariant (one to 160 buckets of eight slots,
    entries first, each once and in the bucket its id selects, our own id never
    among them), and adding a node ends without a panic. *)
Theorem routing_table_invariant `{Chrono} (self : ShaHash) (t : RoutingTable) :
  wf_hash self → rtc table_step (RoutingTable_new self) t →
  (∃ ls, represents t ls) ∧
  ∀ now n, wf_hash (id n) → ∃ t', add_node now t n = Ok t' ∧ rtc table_step (RoutingTable_new self) t'.
Proof.
  intros Hw Hrtc. destruct (reachable_represents self t Hw Hrtc) as [ls Hr]. split; [eauto|].
  intros now n Hn. destruct (add_node_represents now t ls n Hr Hn) as (t' & ls' & Hok & _).
  exists t'. split; [done|]. eapply rtc_r; [done|]. by eapply step_add.
Qed.

(** A table with two good entries, in two of its buckets. *)
Definition ex_near : Node := as_good 1000 (ex_id 8) (ex_addr 2).
Definition ex_far : Node := as_good 1000 (ex_id 64) (ex_addr 1).
Definition ex_pair : res False RoutingTable :=
  t ← @add_node chrono_seconds 1000 (RoutingTable_new (ex_id 0)) ex_far; @add_node chrono_seconds 1000 t ex_near.

Lemma ex_pair_reachable : ∃ t, ex_pair = Ok t ∧ rtc (@table_step chrono_seconds) (RoutingTable_new (ex_id 0)) t.
Proof.
  unfold ex_pair. destruct (@add_node chrono_seconds 1000 (RoutingTable_new (ex_id 0)) ex_far) as [t1| |] eqn:E1; [|by vm_compute in E1..].
  cbn [mbind res_bind]. destruct (@add_node chrono_seconds 1000 t1 ex_near) as [t2| |] eqn:E2;
    [|by vm_compute in E1; injection E1 as <-; vm_compute in E2..].
  exists t2. split; [done|]. eapply rtc_l; [eapply step_add; [|exact E1]; apply wf_ex_id; by split|].
  eapply rtc_l; [eapply step_add; [|exact E2]; apply wf_ex_id; by split|]. apply rtc_refl.
Qed.

Lemma routing_table_invariant_witness :
  ∃ t, ex_pair = Ok t ∧ length (@pingable_all chrono_seconds 1000 t) = 2 ∧ ∃ ls, represents t ls.
Proof.
  assert (Hw : wf_hash (ex_id 0)) by (apply wf_ex_id; by split). destruct ex_pair_reachable as (t & Et & Hrtc).
  exists t. split; [exact Et|]. split; [vm_compute in Et; injection Et as <-; vm_compute; reflexivity|].
  apply (@routing_table_invariant chrono_seconds (ex_id 0) t Hw Hrtc).
Defined.

(** Claim C8. adding a node that is not bad and not ourselves: the entries of the new
    table are old ones and the node, every good entry is still there, and the
    node is in the bucket its id selects unless that bucket is full of entries
    at least as good. *)
Theorem add_node_outcome `{Chrono} (now : Z) (t : RoutingTable) (ls : list (list Node)) (n : Node) :
  represents t ls → wf_hash (id n) → status now n ≠ Bad → id n ≠ node_id t →
  ∃ t' ls', add_node now t n = Ok t' ∧ added now n t ls t' ls'.
Proof. apply add_node_spec. Qed.

Lemma add_node_outcome_witness :
  ∃ t' ls', @add_node chrono_seconds 1000 (RoutingTable_new (ex_id 0)) (as_good 1000 (ex_id 128) (ex_addr 1)) = Ok t' ∧
    @added chrono_seconds 1000 (as_good 1000 (ex_id 128) (ex_addr 1)) (RoutingTable_new (ex_id 0)) [[]] t' ls'.
Proof.
  apply (@add_node_outcome chrono_seconds).
  - apply represents_new, wf_ex_id. by split.
  - apply wf_ex_id. by split.
  - vm_compute. discriminate.
  - vm_compute. discriminate.
Defined.

(** * The closest nodes *)

Section Closeness.
Context `{Chrono}.

Lemma shared_at (a b : ShaHash) c : wf_hash a → wf_hash b → c < MAX_BUCKETS →
  shares a b c → bit_at (hash a) c ≠ bit_at (hash b) c → leading_bit_count a b = c.
Proof.
  intros Ha Hb Hc Hs Hd. destruct (leading_bit_count_spec a b Ha Hb) as (H1 & H2 & H3). cbv zeta in *.
  destruct (Nat.lt_trichotomy (leading_bit_count a b) c) as [Hlt|[E|Hgt]]; [|done|].
  - destruct (H3 ltac:(lia)). by apply Hs.
  - destruct Hd. by apply H2.
Qed.

(** A node shares with the target what both share with us, or more when both
    belong in the same bucket. *)
Lemma shared_with_target (self target n : ShaHash) : wf_hash self → wf_hash target → wf_hash n →
  let b := leading_bit_count self n in let s := leading_bit_count self target in
  (b < s → leading_bit_count target n = b) ∧ (s < b → leading_bit_count target n = s) ∧ (b = s → s ≤ leading_bit_count target n).
Proof.
  intros Hw Ht Hn b s. destruct (leading_bit_count_spec self n Hw Hn) as (B1 & B2 & B3).
  destruct (leading_bit_count_spec self target Hw Ht) as (S1 & S2 & S3). fold b in B1, B2, B3. fold s in S1, S2, S3. cbv zeta in *.
  assert (Hmin : shares target n (b `min` s)) by (intros i Hi; rewrite <- S2, <- B2 by lia; done). split_and!.
  - intros Hlt. rewrite Nat.min_l in Hmin by lia. apply shared_at; [done|done|lia|done|]. rewrite <- (S2 b) by lia. apply B3. lia.
  - intros Hlt. rewrite Nat.min_r in Hmin by lia. apply shared_at; [done|done|lia|done|]. rewrite <- (B2 s) by lia. apply not_eq_sym, S3. lia.
  - intros E. rewrite E, Nat.min_id in Hmin. destruct (leading_bit_count_spec target n Ht Hn) as (T1 & _ & T3). cbv zeta in *.
    destruct (Nat.le_gt_cases s (leading_bit_count target n)) as [|Hgt]; [done|]. destruct (T3 ltac:(lia)). by apply Hmin.
Qed.

Lemma StronglySorted_lookup {A} (R : A → A → Prop) l i j x y : StronglySorted R l → l !! i = Some x → l !! j = Some y → i < j → R x y.
Proof.
  intros Hs. revert i j. induction Hs as [|z l Hl IH Hz]; intros i j Hi Hj Hij; [done|]. destruct j as [|j]; [lia|].
  destruct i as [|i]; [|by apply (IH i j); [..|lia]]. injection Hi as ->. by apply (proj1 (Forall_lookup _ _) Hz j).
Qed.

(** All the slots of a table, and its good nodes. *)
Definition all_nodes (t : RoutingTable) : list Node := concat (nodes <$> buckets t).
Definition good_all (now : Z) (t : RoutingTable) : list Node := filter (λ n, status now n = Good) (all_nodes t).

Lemma pingable_all_nodes now t : pingable_all now t = List.filter (pingable_nodes_filter now) (all_nodes t).
Proof.
  unfold pingable_all, all_nodes. induction (buckets t) as [|b bs IH]; [done|]. rewrite !fmap_cons. cbn [concat].
  by rewrite List.filter_app, IH.
Qed.

Lemma good_pingable now l : filter (λ n, status now n = Good) (List.filter (pingable_nodes_filter now) l) = filter (λ n, status now n = Good) l.
Proof.
  induction l as [|n l IH]; [done|]. cbn [List.filter]. destruct (pingable_nodes_filter now n) eqn:E.
  - rewrite !filter_cons, IH. done.
  - rewrite filter_cons_False; [done|]. intros Hg. apply not_true_iff_false in E. apply E, pingable_filter_spec. by rewrite Hg.
Qed.

Lemma only_good now l : Forall (λ n, status now n ≠ Questionable) l → List.filter (pingable_nodes_filter now) l = filter (λ n, status now n = Good) l.
Proof.
  induction 1 as [|n l Hn _ IH]; [done|]. cbn [List.filter]. destruct (pingable_nodes_filter now n) eqn:E.
  - apply pingable_filter_spec in E. rewrite filter_cons_True, IH; [done|]. by destruct (status now n).
  - rewrite filter_cons_False, IH; [done|]. intros Hg. apply not_true_iff_false in E. apply E, pingable_filter_spec. by rewrite Hg.
Qed.

Lemma pingable_wf now t ls n : represents t ls → n ∈ pingable_all now t → wf_hash (id n).
Proof.
  intros Hr Hn. unfold pingable_all in Hn. apply list_elem_of_In, in_concat in Hn as (l & Hl & Hn).
  apply list_elem_of_In, list_elem_of_fmap in Hl as (b & -> & Hb). apply list_elem_of_lookup in Hb as [i Hi].
  apply list_elem_of_In in Hn. by apply (pingable_entry now t ls i b n Hr Hi Hn).
Qed.

(** In the order of the gaps, the closer of two nodes comes first unless they
    are of one bucket or on different sides of the target's. *)
Lemma gaps_closer (self target m n : ShaHash) : wf_hash self → wf_hash target → wf_hash m → wf_hash n →
  let s := leading_bit_count self target in let bm := leading_bit_count self m in let bn := leading_bit_count self n in
  gap s bm ≤ gap s bn → bm ≠ bn → ¬ bm < s < bn → leading_bit_count target n ≤ leading_bit_count target m.
Proof.
  intros Hw Ht Hm Hn s bm bn Hg Hne Hside. destruct (shared_with_target self target m Hw Ht Hm) as (M1 & M2 & M3).
  destruct (shared_with_target self target n Hw Ht Hn) as (N1 & N2 & N3). fold s bm in M1, M2, M3. fold s bn in N1, N2, N3.
  unfold gap in Hg. destruct (Nat.lt_trichotomy bm s) as [Hb|[Hb|Hb]], (Nat.lt_trichotomy bn s) as [Hc|[Hc|Hc]]; lia.
Qed.
End Closeness.

(** Claim C7. collecting [closest_nodes] ends and hands out every good node of the
    table exactly once; when no node of the table is questionable, as its
    documentation takes it, nothing but good nodes is handed out (a questionable
    node is handed out too, which the documentation does not say).  The closest
    nodes come first at the granularity of a bucket: a node that shares more
    leading bits with the target comes before one of another bucket that shares
    fewer, unless the two are on different sides of the target's bucket, where the
    buckets are visited in turns ([closest_nodes_not_nearest_first]). *)
Theorem closest_nodes_complete `{Chrono} (now : Z) (t : RoutingTable) (ls : list (list Node)) (target : ShaHash) :
  represents t ls → wf_hash target →
  ∃ l, ClosestNodes_collect now (S (slots t)) (closest_nodes t target) = Ok l ∧
    filter (λ n, status now n = Good) l ≡ₚ good_all now t ∧
    (Forall (λ n, status now n ≠ Questionable) (all_nodes t) → l ≡ₚ good_all now t) ∧
    (∀ i j m n, l !! i = Some m → l !! j = Some n → i < j →
       let bucket x := leading_bit_count (node_id t) (id x) in
       bucket m ≠ bucket n → ¬ bucket m < leading_bit_count (node_id t) target < bucket n →
       leading_bit_count target (id n) ≤ leading_bit_count target (id m)).
Proof.
  intros Hr Ht. destruct (closest_nodes_spec now t ls target Hr Ht) as (l & Hl & Hp & Hs). exists l. split; [done|].
  assert (Hall : ∀ i m, l !! i = Some m → wf_hash (id m)).
  { intros i m Hi. apply (pingable_wf now t ls); [done|]. rewrite <- Hp. by eapply list_elem_of_lookup_2. }
  rewrite pingable_all_nodes in Hp. split; [|split].
  - rewrite Hp. unfold good_all. by rewrite good_pingable.
  - intros Hq. rewrite Hp. unfold good_all. by rewrite only_good.
  - intros i j m n Hi Hj Hij bucket Hne Hside. apply (gaps_closer (node_id t)); [by apply (rep_id _ _ Hr)|done|by eapply Hall|by eapply Hall| |done|done].
    exact (StronglySorted_lookup _ _ i j m n Hs Hi Hj Hij).
Qed.

Lemma closest_nodes_complete_witness : ∃ t l, ex_pair = Ok t ∧
  @ClosestNodes_collect chrono_seconds 1000 (S (slots t)) (closest_nodes t (ex_id 16)) = Ok l ∧
  l ≡ₚ @good_all chrono_seconds 1000 t ∧ length (@good_all chrono_seconds 1000 t) = 2.
Proof.
  destruct ex_pair_reachable as (t & Et & Hrtc). assert (Hw : wf_hash (ex_id 0)) by (apply wf_ex_id; by split).
  destruct (reachable_represents (ex_id 0) t Hw Hrtc) as [ls Hr].
  destruct (@closest_nodes_complete chrono_seconds 1000 t ls (ex_id 16) Hr) as (l & H1 & _ & H2 & _); [apply wf_ex_id; by split|].
  exists t, l. split; [exact Et|]. split; [exact H1|]. vm_compute in Et. injection Et as <-. split; [|vm_compute; reflexivity].
  apply H2. vm_compute. repeat constructor; discriminate.
Defined.

(** A table with one entry, in its assorted bucket. *)
Definition ex_node : Node := as_good 1000 (ex_id 128) (ex_addr 1).
Definition ex_table : res False RoutingTable := @add_node chrono_seconds 1000 (RoutingTable_new (ex_id 0)) ex_node.

(** [find_node] searches the sorted buckets only: a node of the assorted
    last bucket is never found, however good its entry, so its requests and
    responses are not recorded. *)
Theorem find_node_misses_assorted `{Chrono} (now : Z) (t : RoutingTable) (ls : list (list Node)) (n : Node) :
  represents t ls → leading_bit_count (node_id t) (id n) < MAX_BUCKETS →
  length ls < MAX_BUCKETS → length ls ≤ leading_bit_count (node_id t) (id n) + 1 →
  find_node now t n = Ok None.
Proof.
  intros Hr Hlt Hlen Hlast. rewrite (find_node_at now t ls n Hr Hlt). unfold contents_at.
  rewrite (rep_buckets_length _ _ Hr). destruct (Nat.ltb_spec (leading_bit_count (node_id t) (id n) + 1) (length ls)); [lia|].
  by destruct (Nat.eqb_spec (length ls) MAX_BUCKETS); [lia|].
Qed.

Lemma find_node_misses_assorted_witness :
  ∃ t, ex_table = Ok t ∧ @pingable_all chrono_seconds 1000 t = [ex_node] ∧ @find_node chrono_seconds 1000 t ex_node = Ok None.
Proof.
  destruct (@add_node_represents chrono_seconds 1000 (RoutingTable_new (ex_id 0)) [[]] ex_node) as (t' & ls' & Hok & Hr).
  - apply represents_new, wf_ex_id. by split.
  - apply wf_ex_id. by split.
  - assert (Hlen := rep_buckets_length _ _ Hr). exists t'. split; [exact Hok|].
    vm_compute in Hok. injection Hok as Ht. split; [rewrite <- Ht; vm_compute; reflexivity|].
    apply (@find_node_misses_assorted chrono_seconds 1000 t' ls' ex_node Hr); rewrite <- ?Hlen, <- Ht; vm_compute; lia.
Defined.

(** [closest_nodes] alternates between both sides of the target's bucket,
    so a node that shares one leading bit with the target comes before a node
    that shares two. *)
Theorem closest_nodes_not_nearest_first :
  ∃ t m n target, rtc (@table_step chrono_seconds) (RoutingTable_new (ex_id 0)) t ∧
    @ClosestNodes_collect chrono_seconds 1000 (S (slots t)) (closest_nodes t target) = Ok [m; n] ∧
    leading_bit_count target (id m) = 1 ∧ leading_bit_count target (id n) = 2.
Proof.
  destruct ex_pair_reachable as (t & Et & Hrtc). exists t, ex_far, ex_near, (ex_id 32).
  split; [done|]. split; [|by vm_compute]. vm_compute in Et. injection Et as <-. vm_compute. reflexivity.
Qed.
