(* ===== verification/Token.v ===== *)
(** packages/dht/src/token.rs: announce tokens, a hash of the requester's
    address and a secret that is renewed lazily.  The clock and the random
    draws of an operation are its inputs. *)

From stdpp Require Import base numbers list.
From S2P Require Import Prelude Extern Convert Sha.

Definition REFRESH_INTERVAL_MINS : Z := 10.
Definition IPV4_SECRET_BUFFER_LEN : nat := 4 + 4.
Definition IPV6_SECRET_BUFFER_LEN : nat := 16 + 4.

Record Token := { token : bytes }.

#[export] Instance Token_eq_dec : EqDecision Token.
Proof. solve_decision. Defined.

Definition Token_new (l : bytes) : res LengthError Token :=
  if length l =? SHA_HASH_LEN then Ok {| token := copy_into (replicate SHA_HASH_LEN 0%Z) l |}
  else Err (LengthError_new LengthExpected SHA_HASH_LEN).

Record TokenStore := { curr_secret : Z; last_secret : Z; last_refresh : Z }.

Section Token.
Context `{Sha1} `{Chrono}.

Definition generate_token_from_addr_v4 (v4_addr : Ipv4Addr) (secret : Z) : Token :=
  let source := ipv4_to_bytes_be v4_addr ++ four_bytes_to_array secret in
  let buffer := copy_into (replicate IPV4_SECRET_BUFFER_LEN 0%Z) source in
  {| token := hash (ShaHash_from_bytes buffer) |}.

Definition generate_token_from_addr_v6 (v6_addr : Ipv6Addr) (secret : Z) : Token :=
  let source := ipv6_to_bytes_be v6_addr ++ four_bytes_to_array secret in
  let buffer := copy_into (replicate IPV6_SECRET_BUFFER_LEN 0%Z) source in
  {| token := hash (ShaHash_from_bytes buffer) |}.

Definition generate_token_from_addr (addr : IpAddr) (secret : Z) : Token :=
  match addr with
  | IpV4 v4 => generate_token_from_addr_v4 v4 secret
  | IpV6 v6 => generate_token_from_addr_v6 v6 secret
  end.

Definition validate_token_from_addr_v4 (v4_addr : Ipv4Addr) (tok : Token) (secret : Z) : bool :=
  bool_decide (generate_token_from_addr_v4 v4_addr secret = tok).

Definition validate_token_from_addr_v6 (v6_addr : Ipv6Addr) (tok : Token) (secret : Z) : bool :=
  bool_decide (generate_token_from_addr_v6 v6_addr secret = tok).

Definition validate_token_from_addr (addr : IpAddr) (tok : Token) (secret_one secret_two : Z) : bool :=
  match addr with
  | IpV4 v4 => validate_token_from_addr_v4 v4 tok secret_one || validate_token_from_addr_v4 v4 tok secret_two
  | IpV6 v6 => validate_token_from_addr_v6 v6 tok secret_one || validate_token_from_addr_v6 v6 tok secret_two
  end.

(** Integer division of minutes truncates toward zero. *)
Definition intervals_passed (last_refresh curr_time : Z) : Z :=
  let refresh_duration := duration_minutes REFRESH_INTERVAL_MINS in
  let diff_time := (curr_time - last_refresh)%Z in
  Z.quot (num_minutes diff_time) (num_minutes refresh_duration).

(** [r1], [r2]: the first and second draw of [rand::random::<u32>()]. *)
Definition TokenStore_new (now r1 r2 : Z) : TokenStore :=
  {| curr_secret := r1; last_secret := r2; last_refresh := now |}.

Definition refresh_check (now r1 r2 : Z) (self : TokenStore) : TokenStore :=
  let n := intervals_passed (last_refresh self) now in
  if (n =? 0)%Z then self
  else if (n =? 1)%Z then {| last_secret := curr_secret self; curr_secret := r1; last_refresh := now |}
  else {| last_secret := r1; curr_secret := r2; last_refresh := now |}.

Definition checkout (now r1 r2 : Z) (self : TokenStore) (addr : IpAddr) : TokenStore * Token :=
  let self := refresh_check now r1 r2 self in
  (self, generate_token_from_addr addr (curr_secret self)).

Definition checkin (now r1 r2 : Z) (self : TokenStore) (addr : IpAddr) (tok : Token) : TokenStore * bool :=
  let self := refresh_check now r1 r2 self in
  (self, validate_token_from_addr addr tok (curr_secret self) (last_secret self)).

(** * Histories: calls at their instants, with their random draws *)

Inductive TokenCall := Checkout (a : IpAddr) | Checkin (a : IpAddr) (t : Token).
Record timed := { at_time : Z; draw1 : Z; draw2 : Z; call : TokenCall }.

Definition run_call (self : TokenStore) (c : timed) : TokenStore :=
  match call c with
  | Checkout a => (checkout (at_time c) (draw1 c) (draw2 c) self a).1
  | Checkin a t => (checkin (at_time c) (draw1 c) (draw2 c) self a t).1
  end.

Fixpoint clock_runs (from to : Z) (l : list timed) : Prop :=
  match l with
  | [] => (from ≤ to)%Z
  | c :: l' => (from ≤ at_time c)%Z ∧ clock_runs (at_time c) to l'
  end.

Lemma run_call_refresh self c : run_call self c = refresh_check (at_time c) (draw1 c) (draw2 c) self.
Proof. unfold run_call. by destruct (call c). Qed.

Lemma validate_generate a s s1 s2 : s = s1 ∨ s = s2 →
  validate_token_from_addr a (generate_token_from_addr a s) s1 s2 = true.
Proof.
  intros [->| ->]; destruct a; apply orb_true_iff; [left|left|right|right]; by apply bool_decide_eq_true.
Qed.

Abbreviation minute := (duration_minutes 1) (only parsing).

Lemma clock_runs_le from to l : clock_runs from to l → (from ≤ to)%Z.
Proof. revert from. induction l as [|c l IH]; intros from; simpl; [done|]. intros [? ?%IH]. lia. Qed.

Lemma intervals_0 lr now : (lr ≤ now)%Z → (now - lr < 10 * minute)%Z ↔ intervals_passed lr now = 0%Z.
Proof.
  intros Hle. pose proof minute_pos. unfold intervals_passed, REFRESH_INTERVAL_MINS.
  rewrite !num_minutes_whole, (minutes_linear 10), Z.quot_mul by lia.
  rewrite Z.quot_quot by lia. split; intros Hq.
  - apply Z.quot_small. lia.
  - rewrite Z.quot_div_nonneg in Hq by lia. apply Z.div_small_iff in Hq; lia.
Qed.

Lemma intervals_1 lr now : (10 * minute ≤ now - lr < 20 * minute)%Z → intervals_passed lr now = 1%Z.
Proof.
  intros Hle. pose proof minute_pos. unfold intervals_passed, REFRESH_INTERVAL_MINS.
  rewrite !num_minutes_whole, (minutes_linear 10), Z.quot_mul by lia.
  rewrite Z.quot_quot, Z.quot_div_nonneg by lia. symmetry. apply Z.div_unique with (now - lr - minute * 10)%Z; lia.
Qed.

(** Where the secret [s] of a token issued at [t0] can be. *)
Definition alive (t0 s : Z) (now : Z) (st : TokenStore) : Prop :=
  (curr_secret st = s ∧ last_refresh st ≤ t0 ∧ t0 - last_refresh st < 10 * minute)%Z ∨
  (last_secret st = s ∧ t0 < last_refresh st ≤ now)%Z.

Lemma alive_refresh t0 s now now' r1 r2 st :
  (t0 ≤ now ≤ now')%Z → (now' ≤ t0 + 10 * minute)%Z →
  alive t0 s now st → alive t0 s now' (refresh_check now' r1 r2 st).
Proof.
  intros Hnow Hmax [(Hs & Hle & Hlt)|(Hs & Hlt)]; unfold refresh_check.
  - destruct (Z.eqb_spec (intervals_passed (last_refresh st) now') 0) as [|Hne]; [by left|].
    assert (¬ now' - last_refresh st < 10 * minute)%Z by (intros Hc; apply Hne; apply intervals_0; [lia|done]).
    rewrite intervals_1 by lia. right. simpl. split; [done|]. lia.
  - assert (intervals_passed (last_refresh st) now' = 0%Z) as -> by (apply intervals_0; lia).
    right. simpl. split; [done|]. lia.
Qed.

Lemma alive_runs t0 s l : ∀ now to st, (t0 ≤ now)%Z → (to ≤ t0 + 10 * minute)%Z → clock_runs now to l →
  alive t0 s now st → ∃ now', (now ≤ now' ≤ to)%Z ∧ alive t0 s now' (foldl run_call st l).
Proof.
  induction l as [|c l IH]; intros now to st Ht Hmax Hr Ha; simpl in *.
  - exists now. split; [lia|done].
  - destruct Hr as [Hle Hr]. pose proof (clock_runs_le _ _ _ Hr).
    destruct (IH (at_time c) to (run_call st c)) as (now' & ? & ?); [lia|done|done| |].
    + rewrite run_call_refresh. apply alive_refresh with now; [lia|lia|done].
    + exists now'. split; [lia|done].
Qed.

Lemma alive_checkout now r1 r2 st a : (last_refresh st ≤ now)%Z →
  alive now (curr_secret (checkout now r1 r2 st a).1) now (checkout now r1 r2 st a).1.
Proof.
  intros Hle. pose proof minute_pos. simpl. left. split; [done|]. unfold refresh_check.
  destruct (Z.eqb_spec (intervals_passed (last_refresh st) now) 0) as [E|]; [apply intervals_0 in E; [split; done|done]|].
  destruct (_ =? 1)%Z; simpl; lia.
Qed.
End Token.

(** a token checked out at [t0] is accepted from the same address at every
    instant up to ten minutes later, whatever other calls are made in between
    and whatever secrets are drawn. *)
Theorem token_valid_ten_minutes `{Sha1} `{Chrono} (st : TokenStore) (a : IpAddr) (t0 t r1 r2 r3 r4 : Z) (l : list timed) :
  (last_refresh st ≤ t0)%Z → clock_runs t0 t l → (t ≤ t0 + duration_minutes 10)%Z →
  let (st1, tok) := checkout t0 r1 r2 st a in
  (checkin t r3 r4 (foldl run_call st1 l) a tok).2 = true.
Proof.
  intros Hle Hr Hmax. rewrite minutes_linear in Hmax. pose proof (alive_checkout t0 r1 r2 st a Hle) as Ha.
  destruct (checkout t0 r1 r2 st a) as [st1 tok] eqn:E. injection E as <- <-. simpl in Ha |- *.
  destruct (alive_runs t0 _ l t0 t _ (Z.le_refl _) Hmax Hr Ha) as (now' & Hn & Ha').
  apply (alive_refresh t0 _ now' t r3 r4) in Ha'; [|lia|done]. apply validate_generate.
  destruct Ha' as [(-> & _)|(-> & _)]; auto.
Qed.

Definition ex_peer : IpAddr := IpV4 (Ipv4 10 0 0 1).

Lemma token_valid_ten_minutes_witness :
  let (st1, tok) := @checkout toy_sha1 chrono_seconds 500 1 2 (@TokenStore_new 0 3 4) ex_peer in
  (@checkin toy_sha1 chrono_seconds 1100 7 8
     (foldl (@run_call toy_sha1 chrono_seconds) st1 [{| at_time := 600; draw1 := 5; draw2 := 6; call := Checkout ex_peer |}])
     ex_peer tok).2 = true.
Proof. apply (@token_valid_ten_minutes toy_sha1 chrono_seconds); vm_compute; intuition discriminate. Defined.

(** a token can be accepted almost thirty minutes after it was issued: a
    lazy refresh just before the second interval ends keeps its secret for
    another interval. *)
Theorem token_valid_past_twenty_minutes `{Sha1} `{Chrono} (a : IpAddr) (s1 s2 r1 r2 r3 r4 r5 r6 : Z) :
  let st0 := TokenStore_new 0 s1 s2 in
  let (st1, tok) := checkout 0 r1 r2 st0 a in
  let (st2, _) := checkout (duration_minutes 20 - 1) r3 r4 st1 a in
  (checkin (duration_minutes 30 - 2) r5 r6 st2 a tok).2 = true.
Proof.
  pose proof minute_pos. simpl. rewrite !(minutes_linear 20), (minutes_linear 30).
  assert (E0 : refresh_check 0 r1 r2 (TokenStore_new 0 s1 s2) = TokenStore_new 0 s1 s2).
  { unfold refresh_check. simpl. assert (intervals_passed 0 0 = 0%Z) as -> by (apply intervals_0; lia). done. }
  assert (E1 : refresh_check (20 * duration_minutes 1 - 1) r3 r4 (TokenStore_new 0 s1 s2) =
    {| last_secret := s1; curr_secret := r3; last_refresh := 20 * duration_minutes 1 - 1 |}).
  { unfold refresh_check. simpl. by rewrite intervals_1 by lia. }
  assert (E2 : intervals_passed (20 * duration_minutes 1 - 1) (30 * duration_minutes 1 - 2) = 0%Z) by (apply intervals_0; lia).
  rewrite E0, E1. unfold refresh_check. simpl. rewrite E2. apply validate_generate. by right.
Qed.
