(* ===== verification/Storage.v ===== *)
(** packages/dht/src/storage.rs: contacts announced for info hashes, kept for
    24 hours, 500 at most.  The expiration queue is the specification of the
    store: [add] and [find] are proved to act on it as on a bounded queue with
    renewal, the hash map following it. *)

From stdpp Require Import base numbers gmap sorting list.
From S2P Require Import Prelude Extern Convert Sha.

Definition MAX_ITEMS_STORED : nat := 500.
Definition EXPIRATION_TIME_HOURS : Z := 24.

(** * Items *)

Record ItemExpiration := { exp_address : SocketAddr; inserted : Z; exp_info_hash : ShaHash }.

Definition ItemExpiration_new (info_hash : ShaHash) (address : SocketAddr) (now : Z) : ItemExpiration :=
  {| exp_address := address; inserted := now; exp_info_hash := info_hash |}.

Definition is_expired `{Chrono} (self : ItemExpiration) (now : Z) : bool :=
  (duration_hours EXPIRATION_TIME_HOURS <=? now - inserted self)%Z.

(** [PartialEq]: by address and info hash. *)
Definition ItemExpiration_eq (self other : ItemExpiration) : bool :=
  bool_decide (exp_address self = exp_address other) && bool_decide (exp_info_hash self = exp_info_hash other).

Record AnnounceItem := { expiration : ItemExpiration }.

Definition AnnounceItem_new (info_hash : ShaHash) (address : SocketAddr) (now : Z) : AnnounceItem :=
  {| expiration := ItemExpiration_new info_hash address now |}.
Definition item_address (self : AnnounceItem) : SocketAddr := exp_address (expiration self).
Definition item_info_hash (self : AnnounceItem) : ShaHash := exp_info_hash (expiration self).
Definition AnnounceItem_eq (self other : AnnounceItem) : bool :=
  ItemExpiration_eq (expiration self) (expiration other).

(** * The store *)

Record AnnounceStorage := {
  storage : gmap ShaHash (list AnnounceItem);
  expires : list ItemExpiration
}.

Definition AnnounceStorage_new : AnnounceStorage := {| storage := ∅; expires := [] |}.

(** The body of the drain loop. *)
Definition remove_expiration (storage : gmap ShaHash (list AnnounceItem)) (e : ItemExpiration) :
    gmap ShaHash (list AnnounceItem) :=
  let info_hash := exp_info_hash e in
  match storage !! info_hash with
  | Some items =>
      let items' := List.filter (λ a, negb (ItemExpiration_eq (expiration a) e)) items in
      match items' with
      | [] => delete info_hash (<[info_hash := items']> storage)
      | _ => <[info_hash := items']> storage
      end
  | None => storage
  end.

Fixpoint count_while {A} (p : A → bool) (l : list A) : nat :=
  match l with [] => 0 | x :: l' => if p x then S (count_while p l') else 0 end.

Section Storage.
Context `{Chrono}.

Definition remove_expired_items (self : AnnounceStorage) (curr_time : Z) : AnnounceStorage :=
  let num_expired_items := count_while (λ i, is_expired i curr_time) (expires self) in
  {| storage := foldl remove_expiration (storage self) (take num_expired_items (expires self));
     expires := drop num_expired_items (expires self) |}.

Definition insert_contact (self : AnnounceStorage) (item : AnnounceItem) : AnnounceStorage * option bool :=
  let already_in_list :=
    match storage self !! item_info_hash item with
    | Some items => existsb (λ a, AnnounceItem_eq a item) items
    | None => false
    end in
  match already_in_list, length (expires self) <? MAX_ITEMS_STORED with
  | false, true =>
      let items := match storage self !! item_info_hash item with Some items => items ++ [item] | None => [item] end in
      ({| storage := <[item_info_hash item := items]> (storage self); expires := expires self |}, Some false)
  | false, false => (self, None)
  | true, _ => (self, Some true)
  end.

(** [now] is the clock read of the item's constructor. *)
Definition add (self : AnnounceStorage) (info_hash : ShaHash) (address : SocketAddr) (curr_time now : Z) :
    AnnounceStorage * bool :=
  let self := remove_expired_items self curr_time in
  let item := AnnounceItem_new info_hash address now in
  let item_expiration := expiration item in
  match insert_contact self item with
  | (self, Some true) =>
      let kept := List.filter (λ i, negb (ItemExpiration_eq i item_expiration)) (expires self) in
      ({| storage := storage self; expires := kept ++ [item_expiration] |}, true)
  | (self, Some false) =>
      ({| storage := storage self; expires := expires self ++ [item_expiration] |}, true)
  | (self, None) => (self, false)
  end.

Definition add_item (self : AnnounceStorage) (info_hash : ShaHash) (address : SocketAddr) (t1 t2 : Z) :
    AnnounceStorage * bool := add self info_hash address t1 t2.

(** The addresses the closure is called with. *)
Definition find (self : AnnounceStorage) (info_hash : ShaHash) (curr_time : Z) : AnnounceStorage * list SocketAddr :=
  let self := remove_expired_items self curr_time in
  (self, match storage self !! info_hash with Some items => item_address <$> items | None => [] end).

Definition find_items (self : AnnounceStorage) (info_hash : ShaHash) (now : Z) : AnnounceStorage * list SocketAddr :=
  find self info_hash now.
End Storage.

(** * The map and the queue hold the same contacts *)

Definition ekey (e : ItemExpiration) : ShaHash * SocketAddr := (exp_info_hash e, exp_address e).

Lemma ItemExpiration_eq_true a b : ItemExpiration_eq a b = true ↔ ekey a = ekey b.
Proof.
  unfold ItemExpiration_eq, ekey. rewrite andb_true_iff, !bool_decide_eq_true.
  split; [intros []; congruence|]. intros E. by injection E.
Qed.

Definition stored (s : gmap ShaHash (list AnnounceItem)) (k : ShaHash * SocketAddr) : Prop :=
  ∃ items, s !! k.1 = Some items ∧ k ∈ (λ i, ekey (expiration i)) <$> items.

Definition list_ok (h : ShaHash) (items : list AnnounceItem) : Prop :=
  items ≠ [] ∧ NoDup ((λ i, ekey (expiration i)) <$> items) ∧ Forall (λ i, item_info_hash i = h) items.

Record wf_store (self : AnnounceStorage) : Prop := {
  ws_lists : map_Forall list_ok (storage self);
  ws_same k : stored (storage self) k ↔ k ∈ ekey <$> expires self;
  ws_nodup : NoDup (ekey <$> expires self);
  ws_bound : length (expires self) ≤ MAX_ITEMS_STORED
}.

Lemma filter_keys {A B} `{EqDecision B} (f : A → B) (p : A → bool) l k :
  k ∈ f <$> List.filter p l ↔ ∃ x, x ∈ l ∧ p x = true ∧ k = f x.
Proof. rewrite list_elem_of_fmap. setoid_rewrite list_elem_of_In. setoid_rewrite List.filter_In. firstorder. Qed.

Lemma NoDup_filter_keys {A B} (f : A → B) (p : A → bool) l : NoDup (f <$> l) → NoDup (f <$> List.filter p l).
Proof.
  induction l as [|x l IH]; csimpl; [done|]. intros [Hx Hl]%NoDup_cons. destruct (p x); csimpl; [|by apply IH].
  apply NoDup_cons. split; [|by apply IH]. intros (y & Hy & Hin)%list_elem_of_fmap. apply Hx. rewrite Hy.
  apply list_elem_of_fmap_2. apply list_elem_of_In in Hin. apply List.filter_In in Hin as [Hin _]. by apply list_elem_of_In.
Qed.

Lemma remove_expiration_stored s e k : map_Forall list_ok s →
  stored (remove_expiration s e) k ↔ stored s k ∧ k ≠ ekey e.
Proof.
  intros Hok. unfold remove_expiration, stored.
  destruct (s !! exp_info_hash e) as [items|] eqn:Es.
  2:{ split; [|by intros [? _]]. intros (it & Hl & Hk). split; [eauto|]. intros ->. simpl in Hl. congruence. }
  set (items' := List.filter _ items).
  assert (Hk' : ∀ k, k ∈ (λ i, ekey (expiration i)) <$> items' ↔ k ∈ (λ i, ekey (expiration i)) <$> items ∧ k ≠ ekey e).
  { intros k'. unfold items'. rewrite filter_keys, list_elem_of_fmap. split.
    - intros (x & Hx & Hp & ->). split; [eauto|]. intros E%ItemExpiration_eq_true. by rewrite E in Hp.
    - intros [(x & -> & Hx) Hne]. exists x. split; [done|]. split; [|done]. apply negb_true_iff.
      destruct (ItemExpiration_eq _ _) eqn:E; [|done]. by apply ItemExpiration_eq_true in E. }
  assert (Hsame : ∀ (m : gmap ShaHash (list AnnounceItem)), (∀ h, h ≠ exp_info_hash e → m !! h = s !! h) →
    (∀ it, m !! exp_info_hash e = Some it → it = items') → (m !! exp_info_hash e = None → items' = []) →
    (∃ it, m !! k.1 = Some it ∧ k ∈ (λ i, ekey (expiration i)) <$> it) ↔
    (∃ it, s !! k.1 = Some it ∧ k ∈ (λ i, ekey (expiration i)) <$> it) ∧ k ≠ ekey e).
  { intros m Hne Heq Hnone. destruct (decide (k.1 = exp_info_hash e)) as [E|E].
    - rewrite E, Es. split.
      + intros (it & Hm & Hin). apply Heq in Hm as ->. apply Hk' in Hin as [? ?]. eauto.
      + intros [(it & [= <-] & Hin) Hd]. assert (Hin' : k ∈ (λ i, ekey (expiration i)) <$> items') by (by apply Hk').
        destruct (m !! exp_info_hash e) as [it|] eqn:Em; [rewrite (Heq it eq_refl); eauto|].
        rewrite Hnone in Hin' by done. by apply elem_of_nil in Hin'.
    - rewrite (Hne _ E). split; [intros (it & ? & ?); split; [eauto|]; intros ->; done|]. intros [? _]. done. }
  clearbody items'. destruct items' as [|x rest]; apply Hsame.
  - intros h Hh. by rewrite lookup_delete_ne, lookup_insert_ne by done.
  - intros it. by rewrite lookup_delete_eq.
  - done.
  - intros h Hh. by rewrite lookup_insert_ne by done.
  - intros it. rewrite lookup_insert_eq. by intros [= <-].
  - by rewrite lookup_insert_eq.
Qed.

Lemma remove_expiration_ok s e : map_Forall list_ok s → map_Forall list_ok (remove_expiration s e).
Proof.
  intros Hok. unfold remove_expiration. destruct (s !! exp_info_hash e) as [items|] eqn:Es; [|done].
  destruct (Hok _ _ Es) as (_ & Hnd & Hf). set (items' := List.filter _ items).
  assert (NoDup ((λ i, ekey (expiration i)) <$> items') ∧ Forall (λ i, item_info_hash i = exp_info_hash e) items').
  { split; [by apply NoDup_filter_keys|]. apply Forall_forall. intros x Hx. apply list_elem_of_In, List.filter_In in Hx as [Hx _].
    eapply (proj1 (Forall_forall _ _) Hf). by apply list_elem_of_In. }
  destruct items' as [|x k].
  - intros h l Hl. apply lookup_delete_Some in Hl as [? Hl]. rewrite lookup_insert_ne in Hl by done. by apply Hok.
  - apply map_Forall_insert_2; [by split|done].
Qed.

(** * The queue as specification *)

Section StorageSpec.
Context `{Chrono}.

Definition live (q : list ItemExpiration) (now : Z) : list ItemExpiration :=
  List.filter (λ e, negb (is_expired e now)) q.

Definition spec_add (q : list ItemExpiration) (h : ShaHash) (a : SocketAddr) (curr_time now : Z) :
    list ItemExpiration * bool :=
  let e := ItemExpiration_new h a now in
  let q' := live q curr_time in
  if bool_decide (ekey e ∈ ekey <$> q')
  then (List.filter (λ i, negb (ItemExpiration_eq i e)) q' ++ [e], true)
  else if length q' <? MAX_ITEMS_STORED then (q' ++ [e], true) else (q', false).

(** Oldest first, nothing newer than [now]. *)
Definition ordered (now : Z) (q : list ItemExpiration) : Prop :=
  StronglySorted (λ a b, inserted a ≤ inserted b)%Z q ∧ Forall (λ e, inserted e ≤ now)%Z q.

Lemma drop_expired q now : StronglySorted (λ a b, inserted a ≤ inserted b)%Z q →
  drop (count_while (λ i, is_expired i now) q) q = live q now.
Proof.
  induction 1 as [|e q Hq IH Hle]; [done|]. simpl. destruct (is_expired e now) eqn:E; simpl; [done|].
  f_equal. unfold live. clear IH Hq. induction Hle as [|f q Hf _ IH]; [done|]. simpl.
  assert (is_expired f now = false) as -> by (unfold is_expired in *; bool_arith; apply Z.leb_gt; lia).
  simpl. by f_equal.
Qed.

Lemma StronglySorted_filter {A} (R : A → A → Prop) (p : A → bool) l :
  StronglySorted R l → StronglySorted R (List.filter p l).
Proof.
  induction 1 as [|x l Hl IH Hx]; simpl; [constructor|]. destruct (p x); [|done]. constructor; [done|].
  apply Forall_forall. intros y Hy. apply list_elem_of_In, List.filter_In in Hy as [Hy _].
  eapply (proj1 (Forall_forall _ _) Hx). by apply list_elem_of_In.
Qed.

Lemma ordered_filter now q p : ordered now q → ordered now (List.filter p q).
Proof.
  intros [Hs Hf]. split; [by apply StronglySorted_filter|]. apply Forall_forall. intros y Hy.
  apply list_elem_of_In, List.filter_In in Hy as [Hy _]. eapply (proj1 (Forall_forall _ _) Hf). by apply list_elem_of_In.
Qed.

Lemma ordered_snoc t now q e : ordered t q → (t ≤ now)%Z → inserted e = now → ordered now (q ++ [e]).
Proof.
  intros [Hs Hf] Ht He. split.
  - apply StronglySorted_app_2; [|done|repeat constructor].
    intros x y Hx ->%list_elem_of_singleton. rewrite He. pose proof (proj1 (Forall_forall _ _) Hf x Hx). simpl in *. lia.
  - apply Forall_app. split; [|repeat constructor; lia]. eapply Forall_impl; [exact Hf|]. simpl. lia.
Qed.

Lemma ordered_le t now q : ordered t q → (t ≤ now)%Z → ordered now q.
Proof. intros [Hs Hf] Ht. split; [done|]. eapply Forall_impl; [exact Hf|]. simpl. lia. Qed.

Lemma remove_all_ok l : ∀ s, map_Forall list_ok s →
  map_Forall list_ok (foldl remove_expiration s l) ∧
  ∀ k, stored (foldl remove_expiration s l) k ↔ stored s k ∧ k ∉ ekey <$> l.
Proof.
  induction l as [|e l IH]; intros s Hok; simpl.
  - split; [done|]. intros k. rewrite elem_of_nil. tauto.
  - destruct (IH _ (remove_expiration_ok s e Hok)) as [H1 H2]. split; [done|]. intros k.
    rewrite H2, remove_expiration_stored, elem_of_cons by done. tauto.
Qed.

Lemma remove_expired_wf self now t : wf_store self → ordered t (expires self) →
  wf_store (remove_expired_items self now) ∧ expires (remove_expired_items self now) = live (expires self) now.
Proof.
  intros Hw [Hs _]. unfold remove_expired_items. set (n := count_while _ _).
  destruct (remove_all_ok (take n (expires self)) _ (ws_lists _ Hw)) as [Hok Hst].
  pose proof (ws_nodup _ Hw) as Hnd. pose proof (ws_bound _ Hw). split; [|by apply drop_expired].
  split; cbn [storage expires].
  - done.
  - intros k. rewrite Hst, (ws_same _ Hw). rewrite <- (take_drop n (expires self)) in Hnd |- * at 1.
    rewrite fmap_app in Hnd |- *. rewrite elem_of_app. apply NoDup_app in Hnd as (_ & Hd & _).
    specialize (Hd k). tauto.
  - rewrite <- (take_drop n (expires self)), fmap_app in Hnd. by apply NoDup_app in Hnd as (_ & _ & ?).
  - rewrite length_drop. lia.
Qed.

Lemma stored_insert s h items k : list_ok h items →
  stored (<[h := items]> s) k ↔ if decide (k.1 = h) then k ∈ (λ i, ekey (expiration i)) <$> items else stored s k.
Proof.
  intros _. unfold stored. destruct (decide (k.1 = h)) as [->|Hne].
  - rewrite lookup_insert_eq. split; [by intros (? & [= <-] & ?)|eauto].
  - by rewrite lookup_insert_ne.
Qed.

Lemma already_stored self item : map_Forall list_ok (storage self) →
  match storage self !! item_info_hash item with
  | Some items => existsb (λ a, AnnounceItem_eq a item) items
  | None => false
  end = true ↔ stored (storage self) (ekey (expiration item)).
Proof.
  intros Hok. unfold stored. simpl. fold (item_info_hash item).
  destruct (storage self !! item_info_hash item) as [items|].
  - rewrite existsb_exists. split.
    + intros (x & Hx & He%ItemExpiration_eq_true). exists items. split; [done|]. rewrite <- He.
      apply (list_elem_of_fmap_2 (λ i, ekey (expiration i))). by apply list_elem_of_In.
    + intros (it & [= <-] & (x & He & Hx)%list_elem_of_fmap). exists x. split; [by apply list_elem_of_In|].
      by apply ItemExpiration_eq_true.
  - split; [done|]. by intros (? & ? & _).
Qed.

Lemma fmap_snoc {A B} (f : A → B) l x : f <$> (l ++ [x]) = (f <$> l) ++ [f x].
Proof. by rewrite fmap_app. Qed.

Lemma insert_contact_fresh self item : wf_store self →
  ¬ stored (storage self) (ekey (expiration item)) → length (expires self) < MAX_ITEMS_STORED →
  wf_store {| storage := storage (insert_contact self item).1; expires := expires self ++ [expiration item] |}.
Proof.
  intros Hw Hn Hlt. pose proof (already_stored self item (ws_lists _ Hw)) as Ha. unfold insert_contact.
  destruct (match storage self !! _ with Some _ => _ | None => _ end); [destruct Hn; by apply Ha|]. clear Ha.
  rewrite (proj2 (Nat.ltb_lt _ _) Hlt). cbn [fst storage]. set (items := match _ with Some _ => _ | None => _ end).
  assert (Hk : ∀ k, k.1 = item_info_hash item →
    k ∈ (λ i, ekey (expiration i)) <$> items ↔ stored (storage self) k ∨ k = ekey (expiration item)).
  { intros k Hk. unfold items, stored. rewrite Hk. destruct (storage self !! item_info_hash item) as [l|].
    - rewrite fmap_snoc, elem_of_app, list_elem_of_singleton. naive_solver.
    - change ((λ i, ekey (expiration i)) <$> [item]) with [ekey (expiration item)].
      rewrite list_elem_of_singleton. naive_solver. }
  assert (Hok : list_ok (item_info_hash item) items).
  { unfold items. destruct (storage self !! item_info_hash item) as [l|] eqn:El.
    - destruct (ws_lists _ Hw _ _ El) as (_ & Hnd & Hf). split; [by destruct l|]. split.
      + rewrite fmap_snoc. apply NoDup_app. split; [done|]. split; [|apply NoDup_singleton].
        intros k Hin ->%list_elem_of_singleton. apply Hn. exists l. done.
      + apply Forall_app. split; [done|]. by repeat constructor.
    - split; [done|]. split; [apply NoDup_singleton|by repeat constructor]. }
  split; cbn [storage expires].
  - apply map_Forall_insert_2; [done|by apply ws_lists].
  - intros k. rewrite (stored_insert _ _ _ _ Hok), fmap_snoc, elem_of_app, list_elem_of_singleton, <- (ws_same _ Hw).
    destruct (decide (k.1 = item_info_hash item)) as [E|E]; [by apply Hk|]. split; [by left|].
    intros [?| ->]; [done|]. by destruct E.
  - rewrite fmap_snoc. apply NoDup_app. split; [by apply ws_nodup|]. split; [|apply NoDup_singleton].
    intros k Hin ->%list_elem_of_singleton. apply Hn. by apply (ws_same _ Hw).
  - rewrite length_app. simpl. lia.
Qed.

Lemma renew_wf self e : wf_store self → ekey e ∈ ekey <$> expires self →
  wf_store {| storage := storage self;
              expires := List.filter (λ i, negb (ItemExpiration_eq i e)) (expires self) ++ [e] |}.
Proof.
  intros Hw Hin. set (p := λ i, negb (ItemExpiration_eq i e)).
  assert (Hf : ∀ k, k ∈ ekey <$> List.filter p (expires self) ↔ k ∈ ekey <$> expires self ∧ k ≠ ekey e).
  { intros k. rewrite filter_keys, list_elem_of_fmap. unfold p. split.
    - intros (x & Hx & Hp & ->). split; [eauto|]. intros E%ItemExpiration_eq_true. by rewrite E in Hp.
    - intros [(x & -> & Hx) Hne]. exists x. split; [done|]. split; [|done]. apply negb_true_iff.
      destruct (ItemExpiration_eq x e) eqn:E; [|done]. by apply ItemExpiration_eq_true in E. }
  split; cbn [storage expires].
  - by apply ws_lists.
  - intros k. rewrite (ws_same _ Hw), fmap_snoc, elem_of_app, Hf, list_elem_of_singleton.
    destruct (decide (k = ekey e)) as [->|]; tauto.
  - rewrite fmap_snoc. apply NoDup_app. split; [by apply NoDup_filter_keys, ws_nodup|].
    split; [|apply NoDup_singleton]. intros k [_ Hk]%Hf Hk'%list_elem_of_singleton. done.
  - apply list_elem_of_fmap in Hin as (x & Hx & Hin). apply list_elem_of_split in Hin as (l1 & l2 & E).
    pose proof (ws_bound _ Hw) as Hb. rewrite E in Hb |- *. rewrite length_app in *. simpl in *.
    rewrite List.filter_app, length_app. simpl. assert (p x = false) as ->.
    { unfold p. apply negb_false_iff. by apply ItemExpiration_eq_true. }
    pose proof (List.filter_length_le p l1). pose proof (List.filter_length_le p l2). lia.
Qed.

Lemma add_spec self h a curr_time now t : wf_store self → ordered t (expires self) →
  wf_store (add self h a curr_time now).1 ∧
  (expires (add self h a curr_time now).1, (add self h a curr_time now).2) = spec_add (expires self) h a curr_time now.
Proof.
  intros Hw Ho. destruct (remove_expired_wf self curr_time t Hw Ho) as [Hw' He]. unfold add, spec_add.
  rewrite <- He. set (self' := remove_expired_items self curr_time) in *.
  set (item := AnnounceItem_new h a now). change (ItemExpiration_new h a now) with (expiration item).
  pose proof (already_stored self' item (ws_lists _ Hw')) as Ha. pose proof (ws_same _ Hw' (ekey (expiration item))) as Hs.
  destruct (bool_decide_reflect (ekey (expiration item) ∈ ekey <$> expires self')) as [Hin|Hin].
  - unfold insert_contact. rewrite (proj2 Ha) by (by apply Hs). cbn [fst snd]. split; [|done]. by apply renew_wf.
  - destruct (Nat.ltb_spec (length (expires self')) MAX_ITEMS_STORED) as [Hlt|Hge].
    + pose proof (insert_contact_fresh self' item Hw' ltac:(tauto) Hlt) as Hi. revert Hi. unfold insert_contact.
      destruct (match storage self' !! _ with Some _ => _ | None => _ end); [destruct Hin; by apply Hs, Ha|].
      rewrite (proj2 (Nat.ltb_lt _ _) Hlt). done.
    + unfold insert_contact.
      destruct (match storage self' !! _ with Some _ => _ | None => _ end); [destruct Hin; by apply Hs, Ha|].
      destruct (Nat.ltb_spec (length (expires self')) MAX_ITEMS_STORED); [lia|]. done.
Qed.

Lemma find_spec self h now t : wf_store self → ordered t (expires self) →
  wf_store (find self h now).1 ∧ expires (find self h now).1 = live (expires self) now ∧
  NoDup (find self h now).2 ∧
  ∀ a, a ∈ (find self h now).2 ↔ (h, a) ∈ ekey <$> live (expires self) now.
Proof.
  intros Hw Ho. destruct (remove_expired_wf self now t Hw Ho) as [Hw' He]. unfold find. cbn [fst snd].
  split; [done|]. split; [done|]. rewrite <- He. set (self' := remove_expired_items self now) in *.
  assert (Hst := ws_same _ Hw'). destruct (storage self' !! h) as [items|] eqn:El.
  - destruct (ws_lists _ Hw' _ _ El) as (_ & Hnd & Hf).
    assert (Hkeys : (λ i, ekey (expiration i)) <$> items = pair h <$> (item_address <$> items)).
    { rewrite <- list_fmap_compose. apply list_fmap_ext. intros i x Hx. simpl. unfold ekey.
      pose proof (proj1 (Forall_lookup _ _) Hf _ _ Hx) as E. unfold item_info_hash in E. simpl in E. by rewrite E. }
    rewrite Hkeys in Hnd. split; [by eapply NoDup_fmap_1|]. intros a. rewrite <- Hst. unfold stored. cbn [fst]. rewrite El. split.
    + intros Hin. exists items. split; [done|]. rewrite Hkeys. by apply list_elem_of_fmap_2.
    + intros (it & [= <-] & Hin). rewrite Hkeys in Hin. apply list_elem_of_fmap in Hin as (a' & [= <-] & ?). done.
  - split; [apply NoDup_nil_2|]. intros a. rewrite <- Hst. unfold stored. cbn [fst]. rewrite El. split.
    + intros Hin. by apply elem_of_nil in Hin.
    + by intros (? & ? & _).
Qed.

(** * Histories *)

(** [SAdd h a t1 t2]: the clock is read at [t1] on entry and at [t2] for the
    new item. *)
Inductive StoreCall := SAdd (h : ShaHash) (a : SocketAddr) (t1 t2 : Z) | SFind (h : ShaHash) (t : Z).

Definition run_store (self : AnnounceStorage) (c : StoreCall) : AnnounceStorage :=
  match c with SAdd h a t1 t2 => (add_item self h a t1 t2).1 | SFind h t => (find_items self h t).1 end.

Fixpoint store_clock (from to : Z) (l : list StoreCall) : Prop :=
  match l with
  | [] => (from ≤ to)%Z
  | SAdd _ _ t1 t2 :: l' => (from ≤ t1 ≤ t2)%Z ∧ store_clock t2 to l'
  | SFind _ t :: l' => (from ≤ t)%Z ∧ store_clock t to l'
  end.

Definition good_store (now : Z) (self : AnnounceStorage) : Prop := wf_store self ∧ ordered now (expires self).

Lemma wf_store_new : wf_store AnnounceStorage_new.
Proof.
  split; simpl; [apply map_Forall_empty| |constructor|lia].
  intros k. rewrite elem_of_nil. split; [|done]. by intros (? & ? & _).
Qed.

Lemma good_store_new now : good_store now AnnounceStorage_new.
Proof. split; [apply wf_store_new|]. split; constructor. Qed.

Lemma good_store_add now self h a t1 t2 : good_store now self → (now ≤ t1 ≤ t2)%Z →
  good_store t2 (add_item self h a t1 t2).1.
Proof.
  intros [Hw Ho] Ht. unfold add_item. destruct (add_spec self h a t1 t2 now Hw Ho) as [Hw' He]. split; [done|].
  apply (f_equal fst) in He. cbn [fst] in He. rewrite He. unfold spec_add.
  assert (Hl : ordered now (live (expires self) t1)) by (by apply ordered_filter).
  destruct (bool_decide _); [|destruct (_ <? _)]; cbn [fst].
  - apply ordered_snoc with now; [by apply ordered_filter|lia|done].
  - apply ordered_snoc with now; [done|lia|done].
  - apply ordered_le with now; [done|lia].
Qed.

Lemma good_store_find now self h t : good_store now self → (now ≤ t)%Z → good_store t (find_items self h t).1.
Proof.
  intros [Hw Ho] Ht. unfold find_items. destruct (find_spec self h t now Hw Ho) as (Hw' & He & _). split; [done|].
  rewrite He. apply ordered_le with now; [by apply ordered_filter|done].
Qed.

Lemma good_store_runs l : ∀ from to self, good_store from self → store_clock from to l →
  good_store to (foldl run_store self l).
Proof.
  induction l as [|c l IH]; intros from to self Hg Hc; simpl in *.
  - destruct Hg as [? ?]. split; [done|]. by apply ordered_le with from.
  - destruct c as [h a t1 t2|h t]; destruct Hc as [Ht Hc].
    + apply IH with t2; [by apply good_store_add with from|done].
    + apply IH with t; [by apply good_store_find with from|done].
Qed.

(** A contact last announced at [t0] or later is in the queue. *)
Definition announced (t0 : Z) (k : ShaHash * SocketAddr) (self : AnnounceStorage) : Prop :=
  ∃ e, e ∈ expires self ∧ ekey e = k ∧ (t0 ≤ inserted e)%Z.

Lemma in_live e q now : e ∈ live q now ↔ e ∈ q ∧ (now < inserted e + duration_hours EXPIRATION_TIME_HOURS)%Z.
Proof.
  unfold live. rewrite list_elem_of_In, List.filter_In, <- list_elem_of_In, negb_true_iff. unfold is_expired.
  rewrite Z.leb_gt. split; intros []; (split; [done|lia]).
Qed.

Lemma announced_live t0 k self now : (now < t0 + duration_hours EXPIRATION_TIME_HOURS)%Z →
  announced t0 k self → ∃ e, e ∈ live (expires self) now ∧ ekey e = k ∧ (t0 ≤ inserted e)%Z.
Proof. intros Hnow (e & He & Hk & Ht). exists e. split; [|done]. apply in_live. split; [done|]. lia. Qed.

Lemma store_clock_le l : ∀ from to, store_clock from to l → (from ≤ to)%Z.
Proof. induction l as [|[] l IH]; intros u v; simpl; [done| |]; intros [? ?%IH]; lia. Qed.

Lemma announced_step t0 k c from to l self : good_store from self → store_clock from to (c :: l) →
  (t0 ≤ from)%Z → (to < t0 + duration_hours EXPIRATION_TIME_HOURS)%Z →
  announced t0 k self → announced t0 k (run_store self c).
Proof.
  intros [Hw Ho] Hc Hfrom Hto Ha. destruct c as [h a t1 t2|h t]; cbn [store_clock run_store] in Hc |- *; destruct Hc as [Ht Hc%store_clock_le].
  - unfold add_item. destruct (add_spec self h a t1 t2 from Hw Ho) as [_ He]. apply (f_equal fst) in He. cbn [fst] in He.
    destruct (announced_live t0 k self t1 ltac:(lia) Ha) as (e & Hin & Hk & Hins).
    unfold announced. rewrite He. unfold spec_add. destruct (bool_decide _); [|destruct (_ <? _)]; cbn [fst].
    + destruct (decide (ekey e = (h, a))) as [E|E].
      * exists (ItemExpiration_new h a t2). rewrite elem_of_app, list_elem_of_singleton.
        split; [by right|]. split; [by rewrite <- Hk|]. simpl. lia.
      * exists e. rewrite elem_of_app. split; [left|done]. apply list_elem_of_In, List.filter_In.
        split; [by apply list_elem_of_In|]. apply negb_true_iff.
        destruct (ItemExpiration_eq _ _) eqn:Eq; [|done]. by apply ItemExpiration_eq_true in Eq.
    + exists e. rewrite elem_of_app. auto.
    + exists e. auto.
  - unfold find_items. destruct (find_spec self h t from Hw Ho) as (_ & He & _). unfold announced. rewrite He.
    apply announced_live; [lia|done].
Qed.

Lemma announced_runs t0 k l : ∀ from to self, good_store from self → store_clock from to l →
  (t0 ≤ from)%Z → (to < t0 + duration_hours EXPIRATION_TIME_HOURS)%Z →
  announced t0 k self → announced t0 k (foldl run_store self l).
Proof.
  induction l as [|c l IH]; intros from to self Hg Hc Hfrom Hto Ha; [done|]. simpl.
  pose proof (announced_step t0 k c from to l self Hg Hc Hfrom Hto Ha) as Ha'.
  destruct c as [h a t1 t2|h t]; destruct Hc as [Ht Hc].
  - apply IH with t2 to; [by apply good_store_add with from|done|lia|done|done].
  - apply IH with t to; [by apply good_store_find with from|done|lia|done|done].
Qed.

Lemma add_announced now self h a t1 t2 : good_store now self → (now ≤ t1)%Z →
  (add_item self h a t1 t2).2 = true → announced t2 (h, a) (add_item self h a t1 t2).1.
Proof.
  intros [Hw Ho] Ht. unfold add_item. destruct (add_spec self h a t1 t2 now Hw Ho) as [_ He].
  pose proof (f_equal fst He) as He1. pose proof (f_equal snd He) as He2. cbn [fst snd] in He1, He2.
  rewrite He2. unfold announced. rewrite He1. unfold spec_add.
  destruct (bool_decide _); [|destruct (_ <? _)]; cbn [fst snd]; [intros _|intros _|done];
    exists (ItemExpiration_new h a t2); rewrite elem_of_app, list_elem_of_singleton; simpl; auto with lia.
Qed.
End StorageSpec.

(** Claim C37. the store refines its expiration queue: [add] prunes the contacts of 24
    hours and more, renews a live contact or appends a new one while fewer than
    500 are live, and refuses otherwise; [find] hands out each live address of
    the info hash once.  The map and the queue stay consistent. *)
Theorem storage_refines_queue `{Chrono} (self : AnnounceStorage) (t : Z) (h : ShaHash) (a : SocketAddr) (t1 t2 : Z) :
  wf_store self → ordered t (expires self) →
  (wf_store (add_item self h a t1 t2).1 ∧
   (expires (add_item self h a t1 t2).1, (add_item self h a t1 t2).2) = spec_add (expires self) h a t1 t2) ∧
  (wf_store (find_items self h t1).1 ∧ expires (find_items self h t1).1 = live (expires self) t1 ∧
   NoDup (find_items self h t1).2 ∧
   ∀ a', a' ∈ (find_items self h t1).2 ↔ (h, a') ∈ ekey <$> live (expires self) t1).
Proof. intros Hw Ho. split; [by eapply add_spec|by eapply find_spec]. Qed.

Definition ex_hash : ShaHash := {| hash := replicate 20 1%Z |}.
Definition ex_contact : SocketAddr := SockV4 {| v4_ip := Ipv4 10 0 0 1; v4_port := 6881 |}.

Lemma storage_refines_queue_witness :
  wf_store (@add_item chrono_seconds AnnounceStorage_new ex_hash ex_contact 10 11).1 ∧
  (expires (@add_item chrono_seconds AnnounceStorage_new ex_hash ex_contact 10 11).1,
   (@add_item chrono_seconds AnnounceStorage_new ex_hash ex_contact 10 11).2) =
  @spec_add chrono_seconds [] ex_hash ex_contact 10 11.
Proof.
  apply (@storage_refines_queue chrono_seconds AnnounceStorage_new 10 ex_hash ex_contact 10 11).
  - apply wf_store_new.
  - split; constructor.
Defined.

(** [l] holds an announcement of the contact at [t2] that was accepted. *)
Definition accepted_at `{Chrono} (l : list StoreCall) (h : ShaHash) (a : SocketAddr) (t2 : Z) : Prop :=
  ∃ l1 t1 l2, l = l1 ++ SAdd h a t1 t2 :: l2 ∧ (add_item (foldl run_store AnnounceStorage_new l1) h a t1 t2).2 = true.

Section Lifetime.
Context `{Chrono}.

Lemma store_clock_app l1 l2 from to : store_clock from to (l1 ++ l2) →
  ∃ mid, store_clock from mid l1 ∧ store_clock mid to l2.
Proof.
  revert from. induction l1 as [|[h a t1 t2|h t] l1 IH]; intros from Hc; simpl in *.
  - exists from. split; [apply Z.le_refl|done].
  - destruct Hc as [Ht (mid & ? & ?)%IH]. by exists mid.
  - destruct Hc as [Ht (mid & ? & ?)%IH]. by exists mid.
Qed.

Lemma accepted_snoc l c h a t : accepted_at l h a t → accepted_at (l ++ [c]) h a t.
Proof. intros (l1 & t1 & l2 & -> & Ha). exists l1, t1, (l2 ++ [c]). by rewrite <- app_assoc. Qed.

(** Every entry of the queue after an [add] was there, or is the accepted one. *)
Lemma add_origin now self h a t1 t2 e : good_store now self → e ∈ expires (add_item self h a t1 t2).1 →
  e ∈ expires self ∨ (e = ItemExpiration_new h a t2 ∧ (add_item self h a t1 t2).2 = true).
Proof.
  intros [Hw Ho]. unfold add_item. destruct (add_spec self h a t1 t2 now Hw Ho) as [_ He].
  pose proof (f_equal fst He) as He1. pose proof (f_equal snd He) as He2. cbn [fst snd] in He1, He2.
  rewrite He2, He1. unfold spec_add. assert (Hsub : ∀ p x, x ∈ List.filter p (live (expires self) t1) → x ∈ expires self).
  { intros p x Hx%list_elem_of_In. apply List.filter_In in Hx as [Hx _]. by apply list_elem_of_In, in_live in Hx as [? _]. }
  destruct (bool_decide _); [|destruct (_ <? _)]; cbn [fst snd]; rewrite ?elem_of_app, ?list_elem_of_singleton.
  - intros [Hx| ->]; [left; by eapply Hsub|by right].
  - intros [[Hx _]%in_live| ->]; [by left|by right].
  - intros [Hx _]%in_live. by left.
Qed.

Lemma queue_origin l t0 t : store_clock t0 t l →
  ∀ e, e ∈ expires (foldl run_store AnnounceStorage_new l) → accepted_at l (exp_info_hash e) (exp_address e) (inserted e).
Proof.
  revert t. induction l as [|c l IH] using rev_ind; intros t Hc e; [intros []%elem_of_nil|].
  destruct (store_clock_app _ _ _ _ Hc) as (mid & Hl & _). specialize (IH mid Hl).
  pose proof (good_store_runs l t0 mid _ (good_store_new t0) Hl) as Hg. rewrite foldl_snoc.
  destruct c as [h a t1 t2|h t']; cbn [run_store].
  - intros [He|[-> Hok]]%(add_origin mid); [by apply accepted_snoc, IH| |done]. by exists l, t1, [].
  - destruct Hg as [Hw Ho]. unfold find_items. destruct (find_spec _ h t' mid Hw Ho) as (_ & -> & _).
    intros [He _]%in_live. by apply accepted_snoc, IH.
Qed.

Lemma accepted_announced l h a t0 t t2 : store_clock t0 t l → accepted_at l h a t2 →
  (t < t2 + duration_hours EXPIRATION_TIME_HOURS)%Z → announced t2 (h, a) (foldl run_store AnnounceStorage_new l).
Proof.
  intros Hc (l1 & t1 & l2 & -> & Hok) Hlt. apply store_clock_app in Hc as (mid & H1 & [Ht H2]).
  pose proof (good_store_runs l1 t0 mid _ (good_store_new t0) H1) as Hg. rewrite foldl_app. cbn [foldl run_store].
  apply announced_runs with t2 t; [by apply good_store_add with mid|done|lia|done|].
  apply add_announced with mid; [done|lia|done].
Qed.
End Lifetime.

(** Claim C38. after every history of calls on the store, [find] hands out an
    address for an info hash exactly when some announcement of it was accepted
    less than 24 hours ago: it is handed out at every instant of those 24 hours,
    whatever calls are made in between, and never again once the last accepted
    announcement is 24 hours old. *)
Theorem announced_contact_lifetime `{Chrono} (l : list StoreCall) (t0 t : Z) (h : ShaHash) (a : SocketAddr) :
  store_clock t0 t l →
  a ∈ (find_items (foldl run_store AnnounceStorage_new l) h t).2 ↔
  ∃ t2, accepted_at l h a t2 ∧ (t < t2 + duration_hours EXPIRATION_TIME_HOURS)%Z.
Proof.
  intros Hc. pose proof (good_store_runs l t0 t _ (good_store_new t0) Hc) as [Hw Ho].
  unfold find_items. destruct (find_spec _ h t t Hw Ho) as (_ & _ & _ & Hin). rewrite Hin. split.
  - intros (e & [= -> ->] & [He Hlt]%in_live)%list_elem_of_fmap. exists (inserted e). split; [|done].
    by apply queue_origin with t0 t.
  - intros (t2 & Ha & Hlt). pose proof (accepted_announced l h a t0 t t2 Hc Ha Hlt) as Han.
    destruct (announced_live t2 (h, a) _ t Hlt Han) as (e & He & <- & _). by apply list_elem_of_fmap_2.
Qed.

Lemma announced_contact_lifetime_witness :
  let l := [SAdd ex_hash ex_contact 10 11; SFind ex_hash 500] in
  ex_contact ∈ (@find_items chrono_seconds (foldl (@run_store chrono_seconds) AnnounceStorage_new l) ex_hash 86410).2 ∧
  ¬ (∃ t2, @accepted_at chrono_seconds l ex_hash ex_contact t2 ∧
       (86411 < t2 + @duration_hours chrono_seconds EXPIRATION_TIME_HOURS)%Z).
Proof.
  intros l. split.
  - apply (@announced_contact_lifetime chrono_seconds l 10 86410 ex_hash ex_contact); [simpl; lia|].
    exists 11%Z. split; [|vm_compute; reflexivity]. exists [], 10%Z, [SFind ex_hash 500]. split; [reflexivity|vm_compute; reflexivity].
  - intros Hex. apply (@announced_contact_lifetime chrono_seconds l 10 86411 ex_hash ex_contact) in Hex; [|simpl; lia].
    vm_compute in Hex. inversion Hex.
Defined.
