(* ===== verification/Transaction.v ===== *)
(** packages/dht/src/transaction.rs, packages/util/src/trans and
    [fisher_shuffle] of packages/util/src/lib.rs: transaction ids of an action
    part and a message part, handed out from shuffled blocks.

    The draws of the random generator are inputs: [draw i] is the value of the
    call in round [i] of a shuffle, which [random_range(i..len)] keeps in that
    range. *)

From stdpp Require Import base numbers list.
From S2P Require Import Prelude Convert.

(** * The shuffle (util/src/lib.rs) *)

Definition swap_slots {A} (l : list A) (i j : nat) : res False (list A) :=
  match l !! i, l !! j with
  | Some src_val, Some dst_val => Ok (<[j := src_val]> (<[i := dst_val]> l))
  | _, _ => Panic IndexOutOfBounds
  end.

Fixpoint shuffle_from {A} (draw : nat → nat) (rounds : nat) (i : nat) (l : list A) : res False (list A) :=
  match rounds with
  | O => Ok l
  | S rounds => l' ← swap_slots l i (draw i); shuffle_from draw rounds (S i) l'
  end.

Definition fisher_shuffle {A} (draw : nat → nat) (l : list A) : res False (list A) :=
  shuffle_from draw (length l) 0 l.

(** What [random_range] promises for a list of [len] elements. *)
Definition draws_ok (draw : nat → nat) (len : nat) : Prop := ∀ i, i < len → i ≤ draw i < len.

Lemma shuffle_from_perm {A} draw rounds : ∀ i (l : list A), draws_ok draw (length l) → i + rounds = length l →
  ∃ l', shuffle_from draw rounds i l = Ok l' ∧ l' ≡ₚ l.
Proof.
  induction rounds as [|n IH]; intros i l Hd Hi; simpl; [eauto|].
  destruct (lookup_lt_is_Some_2 l i) as [x Hx]; [lia|].
  destruct (lookup_lt_is_Some_2 l (draw i)) as [y Hy]; [by apply Hd; lia|].
  unfold swap_slots. rewrite Hx, Hy. cbn [mbind res_bind].
  pose proof (Permutation_insert_swap l i (draw i) x y Hx Hy) as Hp.
  assert (Hlen : length (<[draw i:=x]> (<[i:=y]> l)) = length l) by (by rewrite Hp).
  destruct (IH (S i) (<[draw i:=x]> (<[i:=y]> l))) as (l' & Hok & Hp'); [by rewrite Hlen|lia|].
  exists l'. split; [done|]. by rewrite Hp'.
Qed.

Lemma fisher_shuffle_perm {A} draw (l : list A) : draws_ok draw (length l) →
  ∃ l', fisher_shuffle draw l = Ok l' ∧ l' ≡ₚ l.
Proof. intros Hd. by apply shuffle_from_perm. Qed.

(** * Blocks of ids (transaction.rs) *)

Definition ACTION_ID_BYTES : nat := 5.
Definition MESSAGE_ID_BYTES : nat := 3.
Definition TRANSACTION_ID_BYTES : nat := ACTION_ID_BYTES + MESSAGE_ID_BYTES.
Definition ACTION_ID_SHIFT : Z := 40.
Definition MAX_ACTION_ID : Z := Z.shiftl 1 ACTION_ID_SHIFT.
Definition MESSAGE_ID_SHIFT : Z := 24.
Definition MAX_MESSAGE_ID : Z := Z.shiftl 1 MESSAGE_ID_SHIFT.
Definition ACTION_ID_PREALLOC_LEN : Z := 2048.
Definition MESSAGE_ID_PREALLOC_LEN : Z := 2048.

(** [generate_aids] and [generate_mids] differ in their constants only. *)
Definition generate_block (max_id prealloc : Z) (next_alloc : Z) : Z * list Z :=
  let (next_alloc_start, next_alloc_end) :=
    (if next_alloc =? max_id then (0, prealloc) else (next_alloc, next_alloc + prealloc))%Z in
  (next_alloc_end, seqZ next_alloc_start (next_alloc_end - next_alloc_start)).

Definition generate_aids (next_alloc : Z) : Z * list Z := generate_block MAX_ACTION_ID ACTION_ID_PREALLOC_LEN next_alloc.
Definition generate_mids (next_alloc : Z) : Z * list Z := generate_block MAX_MESSAGE_ID MESSAGE_ID_PREALLOC_LEN next_alloc.

(** The part the two generators share: the allocation marker, the index into
    the block and the block. *)
Record IdBlock := { next_alloc : Z; curr_index : nat; ids : list Z }.

(** [generate] after the shift or the [or]: the next id of the block, or of a
    new shuffled block ([generate] calls itself once then). *)
Fixpoint block_generate (gen : Z → Z * list Z) (fuel : nat) (draw : nat → nat) (self : IdBlock) : res False (IdBlock * Z) :=
  match fuel with
  | O => Panic OutOfFuel
  | S fuel =>
      match ids self !! curr_index self with
      | Some i => Ok ({| next_alloc := next_alloc self; curr_index := curr_index self + 1; ids := ids self |}, i)
      | None =>
          let (na, block) := gen (next_alloc self) in
          block' ← fisher_shuffle draw block;
          block_generate gen fuel draw {| next_alloc := na; curr_index := 0; ids := block' |}
      end
  end.

(** ** Message ids *)

Record MIDGenerator := { mid_action_id : Z; mid_block : IdBlock }.

Definition MIDGenerator_new (action_id : Z) : MIDGenerator :=
  {| mid_action_id := action_id;
     mid_block := {| next_alloc := 0; curr_index := Z.to_nat MESSAGE_ID_PREALLOC_LEN;
                     ids := replicate (Z.to_nat MESSAGE_ID_PREALLOC_LEN) 0%Z |} |}.

Record TransactionID := { trans_id : Z; trans_id_bytes : bytes }.

Definition TransactionID_new (trans_id : Z) : TransactionID :=
  {| trans_id := trans_id; trans_id_bytes := eight_bytes_to_array trans_id |}.

Definition TransactionID_from_bytes (l : bytes) : option TransactionID :=
  if negb (length l =? TRANSACTION_ID_BYTES) then None
  else Some (TransactionID_new (foldl (λ acc b, Z.lor (as_u64 (Z.shiftl acc 8)) b) 0%Z l)).

Definition ActionID_from_transaction_id (t : Z) : Z := Z.shiftr t MESSAGE_ID_SHIFT.
Definition MessageID_from_transaction_id (t : Z) : Z := Z.land t (MAX_MESSAGE_ID - 1).
Definition tid_action_id (self : TransactionID) : Z := ActionID_from_transaction_id (trans_id self).
Definition tid_message_id (self : TransactionID) : Z := MessageID_from_transaction_id (trans_id self).
Definition mid_gen_action_id (self : MIDGenerator) : Z := ActionID_from_transaction_id (mid_action_id self).

Definition MIDGenerator_generate (draw : nat → nat) (self : MIDGenerator) : res False (MIDGenerator * TransactionID) :=
  '(b, message_id) ← block_generate generate_mids 2 draw (mid_block self);
  Ok ({| mid_action_id := mid_action_id self; mid_block := b |},
      TransactionID_new (Z.lor (mid_action_id self) message_id)).

(** ** Action ids *)

Definition AIDGenerator_new (draw : nat → nat) : res False IdBlock :=
  let (na, action_ids) := generate_aids 0 in
  action_ids' ← fisher_shuffle draw action_ids;
  Ok {| next_alloc := na; curr_index := 0; ids := action_ids' |}.

Definition AIDGenerator_generate (draw : nat → nat) (self : IdBlock) : res False (IdBlock * MIDGenerator) :=
  '(b, action_id) ← block_generate generate_aids 2 draw self;
  Ok (b, MIDGenerator_new (as_u64 (Z.shiftl action_id MESSAGE_ID_SHIFT))).

(** * Ids of a cycle are distinct *)

Section Block.
Context (M B : Z) (HB : (0 < B)%Z) (HM : (B | M)%Z).

(** [out] has been handed out: with what is left of the block, the ids below
    the allocation marker. *)
Definition block_inv (out : list Z) (b : IdBlock) : Prop :=
  (B | next_alloc b)%Z ∧ (0 ≤ next_alloc b ≤ M)%Z ∧ out ++ drop (curr_index b) (ids b) ≡ₚ seqZ 0 (next_alloc b).

Lemma block_generate_spec draw out b :
  block_inv out b → (Z.of_nat (length out) < M)%Z → draws_ok draw (Z.to_nat B) →
  ∃ b' i, block_generate (generate_block M B) 2 draw b = Ok (b', i) ∧ block_inv (out ++ [i]) b'.
Proof.
  intros (Hdiv & Hna & Hp) Hlen Hd.
  assert (Htake : ∀ b i fuel, block_inv out b → ids b !! curr_index b = Some i →
    ∃ b', block_generate (generate_block M B) (S fuel) draw b = Ok (b', i) ∧ block_inv (out ++ [i]) b').
  { intros b0 i fuel (H1 & H2 & H3) Hi. cbn [block_generate]. rewrite Hi. eexists. split; [done|].
    split; [done|]. split; [done|]. cbn [next_alloc curr_index ids]. rewrite <- H3, (drop_S _ _ _ Hi), Nat.add_1_r.
    by rewrite <- app_assoc. }
  destruct (ids b !! curr_index b) as [i|] eqn:Ei.
  { destruct (Htake b i 1) as (b' & ? & ?); [done|done|eauto]. }
  cbn [block_generate]. rewrite Ei. rewrite drop_ge, app_nil_r in Hp by (by apply lookup_ge_None).
  assert (Hout : Z.of_nat (length out) = next_alloc b) by (rewrite Hp, length_seqZ; lia).
  unfold generate_block at 1. destruct (Z.eqb_spec (next_alloc b) M) as [|Hne]; [lia|].
  replace (next_alloc b + B - next_alloc b)%Z with B by lia.
  destruct (fisher_shuffle_perm draw (seqZ (next_alloc b) B)) as (blk & Hok & Hblk); [by rewrite length_seqZ|].
  rewrite Hok. cbn [mbind res_bind].
  destruct blk as [|i blk].
  { apply Permutation_length in Hblk. rewrite length_seqZ in Hblk. simpl in Hblk. lia. }
  set (b1 := {| next_alloc := next_alloc b + B; curr_index := 0; ids := i :: blk |}).
  destruct (Htake b1 i 0) as (b' & ? & ?); [|done|eauto]. split; [|split].
  - apply Z.divide_add_r; [done|]. apply Z.divide_refl.
  - change (next_alloc b1) with (next_alloc b + B)%Z. destruct HM as [q Hq], Hdiv as [r Hr].
    assert (r < q)%Z by nia. nia.
  - change (out ++ i :: blk ≡ₚ seqZ 0 (next_alloc b + B)). rewrite Hp, Hblk. rewrite seqZ_app by lia. done.
Qed.
End Block.

(** * Combining and splitting ids *)

Open Scope Z_scope.

Lemma tid_bounds a m : 0 ≤ a < MAX_ACTION_ID → 0 ≤ m < MAX_MESSAGE_ID →
  Z.lor (as_u64 (Z.shiftl a MESSAGE_ID_SHIFT)) m = a * MAX_MESSAGE_ID + m ∧ is_u64 (a * MAX_MESSAGE_ID + m).
Proof.
  change MAX_ACTION_ID with (2 ^ 40). change MAX_MESSAGE_ID with (2 ^ 24). unfold MESSAGE_ID_SHIFT, as_u64, is_u64.
  intros Ha Hm. rewrite Z.mod_small; [|rewrite Z.shiftl_mul_pow2 by lia; lia].
  split; [apply lor_shiftl_add_pow; lia|]. lia.
Qed.

Lemma tid_split a m : 0 ≤ a < MAX_ACTION_ID → 0 ≤ m < MAX_MESSAGE_ID →
  ActionID_from_transaction_id (a * MAX_MESSAGE_ID + m) = a ∧ MessageID_from_transaction_id (a * MAX_MESSAGE_ID + m) = m.
Proof.
  change MAX_ACTION_ID with (2 ^ 40). unfold ActionID_from_transaction_id, MessageID_from_transaction_id.
  change (MAX_MESSAGE_ID - 1) with (Z.ones 24). change MAX_MESSAGE_ID with (2 ^ 24). unfold MESSAGE_ID_SHIFT.
  intros Ha Hm. rewrite Z.shiftr_div_pow2, Z.land_ones by lia. split.
  - rewrite Z.div_add_l by lia. rewrite Z.div_small by lia. lia.
  - rewrite Z.add_comm, Z.mod_add by lia. by apply Z.mod_small.
Qed.

Lemma byte_step x n : 0 ≤ x → 0 ≤ n → x < 2 ^ 56 →
  Z.lor (as_u64 (Z.shiftl x 8)) (as_u8 n) = x * 256 + n mod 256.
Proof.
  intros Hx Hn Hlt. unfold as_u64, as_u8. rewrite Z.mod_small.
  - rewrite lor_shiftl_add_pow; [done|lia|]. apply Z.mod_pos_bound. lia.
  - rewrite Z.shiftl_mul_pow2 by lia. lia.
Qed.

Lemma shiftr_div_256 x k : 0 ≤ k → Z.shiftr x (k + 8) = Z.shiftr x k / 256.
Proof. intros. by rewrite <- Z.shiftr_shiftr, (Z.shiftr_div_pow2 _ 8) by lia. Qed.

Lemma from_bytes_new x : is_u64 x → TransactionID_from_bytes (eight_bytes_to_array x) = Some (TransactionID_new x).
Proof.
  unfold is_u64. intros Hx. unfold TransactionID_from_bytes, eight_bytes_to_array. simpl. do 2 f_equal.
  assert (Hb : ∀ k, 0 ≤ k → 0 ≤ Z.shiftr x k) by (intros; apply Z.shiftr_nonneg; lia).
  assert (Hstep : ∀ j k, j = k + 8 → 0 ≤ k → Z.shiftr x j < 2 ^ 56 →
    Z.lor (as_u64 (Z.shiftl (Z.shiftr x j) 8)) (as_u8 (Z.shiftr x k)) = Z.shiftr x k).
  { intros j k -> Hk Hlt. rewrite byte_step by auto with lia. rewrite shiftr_div_256 by done.
    rewrite Z.mul_comm. symmetry. apply Z.div_mod. lia. }
  assert (Hsmall : ∀ k, 8 ≤ k → Z.shiftr x k < 2 ^ 56).
  { intros k Hk. rewrite Z.shiftr_div_pow2 by lia. apply Z.div_lt_upper_bound; [lia|].
    assert (2 ^ 8 ≤ 2 ^ k) by (apply Z.pow_le_mono_r; lia). nia. }
  assert (as_u8 (Z.shiftr x 56) = Z.shiftr x 56) as ->.
  { apply as_u8_id. split; [auto with lia|]. rewrite Z.shiftr_div_pow2 by lia. apply Z.div_lt_upper_bound; lia. }
  change (Z.lor (as_u64 (Z.shiftl 0 8)) (Z.shiftr x 56)) with (Z.shiftr x 56).
  rewrite (Hstep 56 48), (Hstep 48 40), (Hstep 40 32), (Hstep 32 24), (Hstep 24 16), (Hstep 16 8)
    by first [reflexivity|lia|apply Hsmall; lia].
  pose proof (Hstep 8 0 eq_refl ltac:(lia) (Hsmall 8 ltac:(lia))) as H0. by rewrite Z.shiftr_0_r in H0.
Qed.
Close Scope Z_scope.

(** * Histories of one generator *)

(** The transaction ids of [n] calls, the draws of call [k] being [draws k]. *)
Fixpoint generate_tids (draws : nat → nat → nat) (n : nat) (g : MIDGenerator) : res False (list TransactionID) :=
  match n with
  | O => Ok []
  | S n' =>
      '(g', t) ← MIDGenerator_generate (draws n) g;
      rest ← generate_tids draws n' g';
      Ok (t :: rest)
  end.

Fixpoint generate_actions (draws : nat → nat → nat) (n : nat) (g : IdBlock) : res False (list Z) :=
  match n with
  | O => Ok []
  | S n' =>
      '(g', mg) ← AIDGenerator_generate (draws n) g;
      rest ← generate_actions draws n' g';
      Ok (mid_gen_action_id mg :: rest)
  end.

Lemma blocks_const : (0 < 2048)%Z ∧ (2048 | MAX_MESSAGE_ID)%Z ∧ (2048 | MAX_ACTION_ID)%Z.
Proof. split; [lia|]. split; [by exists 8192%Z|by exists 536870912%Z]. Qed.

Lemma inv_range M B out b : block_inv M B out b → NoDup out ∧ Forall (λ i, 0 ≤ i < M)%Z out.
Proof.
  intros (_ & Hna & Hp). assert (Hnd : NoDup (seqZ 0 (next_alloc b))) by apply NoDup_seqZ. rewrite <- Hp in Hnd.
  apply NoDup_app in Hnd as (Hnd & _ & _). split; [done|]. apply Forall_forall. intros i Hi.
  assert (Hin : i ∈ seqZ 0 (next_alloc b)) by (rewrite <- Hp; apply elem_of_app; by left). apply elem_of_seqZ in Hin. lia.
Qed.

Lemma generate_tids_spec draws a n : ∀ out g, mid_action_id g = as_u64 (Z.shiftl a MESSAGE_ID_SHIFT) →
  block_inv MAX_MESSAGE_ID 2048 out (mid_block g) → (Z.of_nat (length out + n) ≤ MAX_MESSAGE_ID)%Z →
  (∀ k, draws_ok (draws k) 2048) →
  ∃ ms, generate_tids draws n g = Ok ((λ m, TransactionID_new (Z.lor (as_u64 (Z.shiftl a MESSAGE_ID_SHIFT)) m)) <$> ms) ∧
    length ms = n ∧ NoDup (out ++ ms) ∧ Forall (λ m, 0 ≤ m < MAX_MESSAGE_ID)%Z ms.
Proof.
  destruct blocks_const as (HB & HM & _). induction n as [|n IH]; intros out g Ha Hinv Hlen Hd.
  { exists []. destruct (inv_range _ _ _ _ Hinv). rewrite app_nil_r. done. }
  destruct (block_generate_spec _ _ HB HM (draws (S n)) out (mid_block g) Hinv ltac:(lia) (Hd _)) as (b' & i & Hok & Hinv').
  destruct (IH (out ++ [i]) {| mid_action_id := mid_action_id g; mid_block := b' |}) as (ms & Hms & Hl & Hnd & Hf);
    [done|done|rewrite length_app; simpl; lia|done|].
  exists (i :: ms). cbn [generate_tids]. unfold MIDGenerator_generate.
  change (block_generate generate_mids) with (block_generate (generate_block MAX_MESSAGE_ID 2048)). rewrite Hok.
  cbn [mbind res_bind]. rewrite Hms. cbn [mbind res_bind]. split; [by rewrite Ha|]. split; [simpl; lia|].
  rewrite <- app_assoc in Hnd. split; [done|]. constructor; [|done].
  destruct (inv_range _ _ _ _ Hinv') as [_ Hr]. by apply Forall_app in Hr as [_ [Hr _]%Forall_cons].
Qed.

Lemma generate_actions_spec draws n : ∀ out g,
  block_inv MAX_ACTION_ID 2048 out g → (Z.of_nat (length out + n) ≤ MAX_ACTION_ID)%Z →
  (∀ k, draws_ok (draws k) 2048) →
  ∃ acts, generate_actions draws n g = Ok acts ∧ length acts = n ∧ NoDup (out ++ acts) ∧ Forall (λ a, 0 ≤ a < MAX_ACTION_ID)%Z acts.
Proof.
  destruct blocks_const as (HB & _ & HM). induction n as [|n IH]; intros out g Hinv Hlen Hd.
  { exists []. destruct (inv_range _ _ _ _ Hinv). rewrite app_nil_r. done. }
  destruct (block_generate_spec _ _ HB HM (draws (S n)) out g Hinv ltac:(lia) (Hd _)) as (b' & i & Hok & Hinv').
  destruct (IH (out ++ [i]) b') as (ms & Hms & Hl & Hnd & Hf); [done|rewrite length_app; simpl; lia|done|].
  destruct (inv_range _ _ _ _ Hinv') as [_ Hr]. apply Forall_app in Hr as [_ [Hr _]%Forall_cons].
  exists (i :: ms). cbn [generate_actions]. unfold AIDGenerator_generate.
  change (block_generate generate_aids) with (block_generate (generate_block MAX_ACTION_ID 2048)). rewrite Hok.
  cbn [mbind res_bind]. rewrite Hms. cbn [mbind res_bind]. split.
  { f_equal. f_equal. unfold mid_gen_action_id, MIDGenerator_new, mid_action_id.
    destruct (tid_bounds i 0 Hr ltac:(split; [lia|reflexivity])) as [E _]. rewrite Z.lor_0_r in E. rewrite E.
    by apply tid_split; [|split; [lia|reflexivity]]. }
  split; [simpl; lia|]. rewrite <- app_assoc in Hnd. split; [done|]. by constructor.
Qed.

Lemma MIDGenerator_new_inv a : block_inv MAX_MESSAGE_ID 2048 [] (mid_block (MIDGenerator_new a)).
Proof.
  unfold block_inv, MIDGenerator_new. cbn [mid_block next_alloc curr_index ids app].
  split; [apply Z.divide_0_r|]. split; [split; [lia|by compute]|]. rewrite drop_ge by (by rewrite length_replicate). done.
Qed.

Lemma AIDGenerator_new_inv draw : draws_ok draw 2048 →
  ∃ g, AIDGenerator_new draw = Ok g ∧ block_inv MAX_ACTION_ID 2048 [] g.
Proof.
  intros Hd. unfold AIDGenerator_new, generate_aids, generate_block.
  destruct (fisher_shuffle_perm draw (seqZ 0 2048)) as (l & Hok & Hp); [by rewrite length_seqZ|].
  change (0 =? MAX_ACTION_ID)%Z with false. cbv iota beta.
  change (0 + ACTION_ID_PREALLOC_LEN - 0)%Z with 2048%Z. change (0 + ACTION_ID_PREALLOC_LEN)%Z with 2048%Z.
  rewrite Hok. eexists. split; [done|]. unfold block_inv. cbn [next_alloc curr_index ids app].
  split; [apply Z.divide_refl|]. split; [split; [lia|by compute]|]. by rewrite drop_0.
Qed.

(** Claim C40. the first [n] transaction ids of an action, up to 2^24 of them, are
    distinct, carry the action's id and come back from their bytes, whatever
    the shuffles draw. *)
Theorem transaction_ids_unique (draws : nat → nat → nat) (a : Z) (n : nat) :
  (∀ k, draws_ok (draws k) 2048) → (0 ≤ a < MAX_ACTION_ID)%Z → (Z.of_nat n ≤ MAX_MESSAGE_ID)%Z →
  ∃ tids, generate_tids draws n (MIDGenerator_new (as_u64 (Z.shiftl a MESSAGE_ID_SHIFT))) = Ok tids ∧
    length tids = n ∧ NoDup (trans_id <$> tids) ∧
    Forall (λ t, tid_action_id t = a ∧ TransactionID_from_bytes (trans_id_bytes t) = Some t) tids.
Proof.
  intros Hd Ha Hn.
  set (g := MIDGenerator_new (as_u64 (Z.shiftl a MESSAGE_ID_SHIFT))).
  destruct (generate_tids_spec draws a n [] g eq_refl (MIDGenerator_new_inv _)) as (ms & Hok & Hl & Hnd & Hf);
    [simpl; lia|done|].
  eexists. split; [exact Hok|]. split; [by rewrite length_fmap|]. simpl in Hnd.
  assert (Hid : ∀ m, m ∈ ms → Z.lor (as_u64 (Z.shiftl a MESSAGE_ID_SHIFT)) m = (a * MAX_MESSAGE_ID + m)%Z).
  { intros m Hm. apply (proj1 (Forall_forall _ _) Hf) in Hm. by apply tid_bounds. }
  split.
  - rewrite <- list_fmap_compose. apply NoDup_fmap_2_strong; [|done]. intros x y Hx Hy. simpl. rewrite !Hid by done. lia.
  - apply Forall_fmap, Forall_forall. intros m Hm. simpl. rewrite Hid by done. pose proof (proj1 (Forall_forall _ _) Hf m Hm) as Hr.
    simpl in Hr. split; [by apply tid_split|]. apply from_bytes_new. by apply tid_bounds.
Qed.

Lemma transaction_ids_unique_witness :
  ∃ tids, generate_tids (λ _ i, i) 2 (MIDGenerator_new (as_u64 (Z.shiftl 7 MESSAGE_ID_SHIFT))) = Ok tids ∧
    length tids = 2 ∧ NoDup (trans_id <$> tids) ∧
    Forall (λ t, tid_action_id t = 7%Z ∧ TransactionID_from_bytes (trans_id_bytes t) = Some t) tids.
Proof.
  apply (transaction_ids_unique (λ _ i, i) 7 2).
  - intros k i Hi. lia.
  - split; [lia|reflexivity].
  - discriminate.
Defined.

(** a new action generator hands out distinct action ids for up to 2^40
    actions, whatever the shuffles draw. *)
Theorem action_ids_unique (draw : nat → nat) (draws : nat → nat → nat) (n : nat) :
  draws_ok draw 2048 → (∀ k, draws_ok (draws k) 2048) → (Z.of_nat n ≤ MAX_ACTION_ID)%Z →
  ∃ g acts, AIDGenerator_new draw = Ok g ∧ generate_actions draws n g = Ok acts ∧ length acts = n ∧ NoDup acts.
Proof.
  intros Hd Hds Hn. destruct (AIDGenerator_new_inv draw Hd) as (g & Hok & Hinv).
  destruct (generate_actions_spec draws n [] g Hinv) as (acts & Ha & Hl & Hnd & _); [simpl; lia|done|].
  exists g, acts. split; [done|]. split; [done|]. split; [done|]. exact Hnd.
Qed.

Lemma action_ids_unique_witness :
  ∃ g acts, AIDGenerator_new (λ i, i) = Ok g ∧ generate_actions (λ _ i, i) 3 g = Ok acts ∧ length acts = 3 ∧ NoDup acts.
Proof.
  apply (action_ids_unique (λ i, i) (λ _ i, i) 3).
  - intros i Hi. lia.
  - intros k i Hi. lia.
  - discriminate.
Defined.

(** * Sequential and locally shuffled ids (util/src/trans) *)

Module LocallyShuffled.
(** An integer type: its bounds, its values, the wrapping successor. *)
Record IntType := { min_value : Z; max_value : Z }.
Definition in_type (T : IntType) (x : Z) : Prop := (min_value T ≤ x ≤ max_value T)%Z.
Definition wrapping_succ (T : IntType) (x : Z) : Z := if (x =? max_value T)%Z then min_value T else (x + 1)%Z.

Record SequentialIds := { next_id : Z }.
Definition start_at_seq (start : Z) : SequentialIds := {| next_id := start |}.
Definition generate_seq (T : IntType) (self : SequentialIds) : SequentialIds * Z :=
  ({| next_id := wrapping_succ T (next_id self) |}, next_id self).

Definition TRANSACTION_ID_PREALLOC_LEN : nat := 2048.

Record LocallyShuffledIds := { sequential : SequentialIds; stored_ids : list Z }.

Definition start_at (start : Z) : LocallyShuffledIds := {| sequential := start_at_seq start; stored_ids := [] |}.

(** The [while] loop; [n] counts the ids that may still be generated. *)
Fixpoint refill_loop (T : IntType) (n : nat) (seen_min seen_max : bool) (s : SequentialIds) (acc : list Z) :
    SequentialIds * list Z :=
  match n with
  | O => (s, acc)
  | S n =>
      if negb seen_min || negb seen_max then
        let (s', next_id) := generate_seq T s in
        refill_loop T n (seen_min || (next_id =? min_value T)%Z) (seen_max || (next_id =? max_value T)%Z) s' (acc ++ [next_id])
      else (s, acc)
  end.

Definition refill_stored_ids (T : IntType) (draw : nat → nat) (self : LocallyShuffledIds) : res False LocallyShuffledIds :=
  let (s, block) := refill_loop T TRANSACTION_ID_PREALLOC_LEN false false (sequential self) [] in
  block' ← fisher_shuffle draw block;
  Ok {| sequential := s; stored_ids := block' |}.

(** [pop], or a refill and [generate] again. *)
Fixpoint generate (T : IntType) (fuel : nat) (draw : nat → nat) (self : LocallyShuffledIds) : res False (LocallyShuffledIds * Z) :=
  match fuel with
  | O => Panic OutOfFuel
  | S fuel =>
      match last (stored_ids self) with
      | Some i => Ok ({| sequential := sequential self; stored_ids := take (length (stored_ids self) - 1) (stored_ids self) |}, i)
      | None => self' ← refill_stored_ids T draw self; generate T fuel draw self'
      end
  end.

Section Refill.
Context (T : IntType).

(** The ids of a refill that starts at [start]: a run up to the maximum,
    continued from the minimum once. *)
Definition run_shape (start : Z) (acc : list Z) (next : Z) (sm sM : bool) : Prop :=
  in_type T next ∧ NoDup acc ∧ Forall (in_type T) acc ∧
  (sM = false → acc = seqZ start (next - start) ∧ (start ≤ next)%Z ∧ (sm = true ↔ (start = min_value T ∧ start < next)%Z)) ∧
  (sM = true → sm = false → acc = seqZ start (max_value T + 1 - start) ∧ next = min_value T ∧ start ≠ min_value T).

Lemma run_step start acc next sm sM : in_type T start → run_shape start acc next sm sM → negb sm || negb sM = true →
  run_shape start (acc ++ [next]) (wrapping_succ T next) (sm || (next =? min_value T)%Z) (sM || (next =? max_value T)%Z).
Proof.
  intros Hstart (Hn & Hnd & Hf & H1 & H2) Hgo. unfold in_type in *.
  assert (Hrun : ∀ m, NoDup (seqZ start m) ∧ ∀ k, k ∈ seqZ start m ↔ (start ≤ k < start + m)%Z).
  { intros m. split; [apply NoDup_seqZ|]. apply elem_of_seqZ. }
  assert (Hfresh : next ∉ acc).
  { destruct sM, sm; try done.
    - destruct (H2 eq_refl eq_refl) as (-> & -> & Hne). intros Hin%elem_of_seqZ. lia.
    - destruct (H1 eq_refl) as (-> & _). intros Hin%elem_of_seqZ. lia.
    - destruct (H1 eq_refl) as (-> & _). intros Hin%elem_of_seqZ. lia. }
  assert (Hnd' : NoDup (acc ++ [next])).
  { apply NoDup_app. split; [done|]. split; [|apply NoDup_singleton]. by intros x Hx ->%list_elem_of_singleton. }
  assert (Hf' : Forall (in_type T) (acc ++ [next])) by (apply Forall_app; split; [done|by apply Forall_singleton]).
  assert (Hw : in_type T (wrapping_succ T next)).
  { unfold in_type, wrapping_succ. destruct (Z.eqb_spec next (max_value T)); lia. }
  split; [done|]. split; [done|]. split; [done|].
  assert (Hsnoc : (start ≤ next)%Z → seqZ start (next - start) ++ [next] = seqZ start (next + 1 - start)).
  { intros Hle. replace (next + 1 - start)%Z with ((next - start) + 1)%Z by lia. rewrite seqZ_app by lia.
    f_equal. replace (start + (next - start))%Z with next by lia. done. }
  destruct sM; cbn [orb].
  - split; [done|]. intros _ Hsm. apply orb_false_iff in Hsm as [-> Hne%Z.eqb_neq].
    destruct (H2 eq_refl eq_refl) as (_ & ? & _). done.
  - destruct (H1 eq_refl) as (Hacc & Hle & Hsm). split.
    + intros HM%Z.eqb_neq. unfold wrapping_succ. destruct (Z.eqb_spec next (max_value T)); [done|].
      split; [rewrite Hacc; by apply Hsnoc|]. split; [lia|]. rewrite orb_true_iff, Z.eqb_eq, Hsm. lia.
    + intros ->%Z.eqb_eq [-> Hne%Z.eqb_neq]%orb_false_iff. unfold wrapping_succ. rewrite Z.eqb_refl.
      split; [rewrite Hacc; by apply Hsnoc|]. split; [done|]. intros ->.
      destruct (decide (min_value T = max_value T)); [lia|]. assert (false = true) by (apply Hsm; lia). done.
Qed.

Lemma refill_loop_spec start n : in_type T start → ∀ acc s sm sM,
  run_shape start acc (next_id s) sm sM →
  let (s', acc') := refill_loop T n sm sM s acc in
  NoDup acc' ∧ Forall (in_type T) acc' ∧ in_type T (next_id s') ∧ length acc ≤ length acc' ≤ length acc + n.
Proof.
  intros Hstart. induction n as [|n IH]; intros acc s sm sM Hr; cbn [refill_loop].
  - destruct Hr as (? & ? & ? & _). split; [done|]. split; [done|]. split; [done|]. lia.
  - destruct (negb sm || negb sM) eqn:Hgo.
    + cbn [generate_seq]. pose proof (run_step start acc (next_id s) sm sM Hstart Hr Hgo) as Hr'.
      specialize (IH _ {| next_id := wrapping_succ T (next_id s) |} _ _ Hr').
      unfold generate_seq. destruct (refill_loop _ _ _ _ _ _) as [s' acc']. rewrite length_app in IH. simpl in IH.
      destruct IH as (? & ? & ? & ?). split; [done|]. split; [done|]. split; [done|]. lia.
    + destruct Hr as (? & ? & ? & _). split; [done|]. split; [done|]. split; [done|]. lia.
Qed.

Lemma refill_loop_nonempty n s : n ≠ 0 → (refill_loop T n false false s []).2 ≠ [].
Proof.
  destruct n as [|n]; [done|]. intros _. cbn [refill_loop negb orb]. unfold generate_seq. simpl app.
  assert (Hgrow : ∀ n sm sM s acc, acc ≠ [] → (refill_loop T n sm sM s acc).2 ≠ []).
  { clear. induction n as [|n IH]; intros sm sM s acc Ha; cbn [refill_loop]; [done|].
    destruct (negb sm || negb sM); [|done]. unfold generate_seq. apply IH. by destruct acc. }
  by apply Hgrow.
Qed.

Lemma generate_block_spec draw self :
  in_type T (next_id (sequential self)) → stored_ids self = [] →
  draws_ok draw (length (refill_loop T TRANSACTION_ID_PREALLOC_LEN false false (sequential self) []).2) →
  ∃ self' i, generate T 2 draw self = Ok (self', i) ∧
    NoDup (stored_ids self' ++ [i]) ∧ Forall (in_type T) (stored_ids self' ++ [i]).
Proof.
  intros Hin Hs Hd. unfold generate. rewrite Hs. cbn [last]. unfold refill_stored_ids.
  assert (Hr : run_shape (next_id (sequential self)) [] (next_id (sequential self)) false false).
  { split; [done|]. split; [constructor|]. split; [constructor|]. split; [|done]. intros _.
    rewrite Z.sub_diag. split; [done|]. split; [lia|]. split; [done|lia]. }
  pose proof (refill_loop_spec _ TRANSACTION_ID_PREALLOC_LEN Hin [] (sequential self) false false Hr) as Hspec.
  pose proof (refill_loop_nonempty TRANSACTION_ID_PREALLOC_LEN (sequential self) ltac:(done)) as Hne.
  destruct (refill_loop T _ _ _ _ _) as [s' acc]. destruct Hspec as (Hnd & Hf & _). cbn [snd] in *.
  destruct (fisher_shuffle_perm draw acc Hd) as (l & -> & Hp). cbn [mbind res_bind stored_ids sequential].
  destruct l as [|i l _] using rev_ind; [by apply Permutation_nil_l in Hp|]. rewrite last_snoc. do 2 eexists. split; [done|].
  cbn [stored_ids]. rewrite length_app. simpl. replace (length l + 1 - 1) with (length l) by lia. rewrite take_app_length.
  split; rewrite Hp; done.
Qed.
End Refill.
End LocallyShuffled.

(** a block of locally shuffled ids has no duplicates, for every integer
    type, wrap-around included, every start and every shuffle; a request
    always finds an id, of the type. *)
Theorem locally_shuffled_block_unique (T : LocallyShuffled.IntType) (draw : nat → nat) (self : LocallyShuffled.LocallyShuffledIds) :
  LocallyShuffled.in_type T (LocallyShuffled.next_id (LocallyShuffled.sequential self)) →
  LocallyShuffled.stored_ids self = [] →
  draws_ok draw (length (LocallyShuffled.refill_loop T LocallyShuffled.TRANSACTION_ID_PREALLOC_LEN
                           false false (LocallyShuffled.sequential self) []).2) →
  ∃ self' i, LocallyShuffled.generate T 2 draw self = Ok (self', i) ∧
    NoDup (LocallyShuffled.stored_ids self' ++ [i]) ∧
    Forall (LocallyShuffled.in_type T) (LocallyShuffled.stored_ids self' ++ [i]).
Proof. apply LocallyShuffled.generate_block_spec. Qed.

Lemma locally_shuffled_block_unique_witness :
  ∃ self' i, LocallyShuffled.generate {| LocallyShuffled.min_value := 0; LocallyShuffled.max_value := 255 |} 2 (λ i, i)
               (LocallyShuffled.start_at 200) = Ok (self', i) ∧
    NoDup (LocallyShuffled.stored_ids self' ++ [i]) ∧
    Forall (LocallyShuffled.in_type {| LocallyShuffled.min_value := 0; LocallyShuffled.max_value := 255 |})
      (LocallyShuffled.stored_ids self' ++ [i]).
Proof.
  apply (locally_shuffled_block_unique {| LocallyShuffled.min_value := 0; LocallyShuffled.max_value := 255 |} (λ i, i)
           (LocallyShuffled.start_at 200)).
  - split; simpl; lia.
  - reflexivity.
  - intros i Hi. lia.
Defined.
