(* ===== verification/Security.v ===== *)
(** packages/dht/src/security.rs: node ids derived from an address and its
    CRC-32C checksum, and the check that an id fits an address.  The checksum
    is the [Crc32c] interface; random bytes are inputs. *)

From stdpp Require Import base numbers list.
From S2P Require Import Prelude Extern Convert Sha.

Definition IPV4_MASK : Z := 0x030F3FFF.
Definition IPV6_MASK : Z := 0x0103070F1F3F7FFF.
Definition CRC32C_ARG_SLICE_SIZE : nat := 8.

(** [u32::from(Ipv4Addr)] *)
Definition ipv4_to_u32 (a : Ipv4Addr) : Z :=
  match a with Ipv4 a b c d => a * 16777216 + b * 65536 + c * 256 + d end%Z.

Definition mask_ipv4_be (addr : Ipv4Addr) : Z := Z.land (ipv4_to_u32 addr) IPV4_MASK.

Section Security.
Context `{Crc32c}.

(** [rand2] and [filler] are the draws for the third byte and for bytes 3 to
    18. *)
Definition generate_compliant_id (masked_ip_be : Z) (num_octets : nat) (rand rand2 : Z) (filler : bytes) : bytes :=
  let r := Z.land rand 0x07 in
  let masked_ip_bytes := eight_bytes_to_array masked_ip_be in
  let starting_byte := length masked_ip_bytes - num_octets in
  let masked_ip_bytes :=
    <[starting_byte := Z.lor (nth starting_byte masked_ip_bytes 0%Z) (as_u8 (Z.shiftl r 5))]> masked_ip_bytes in
  let crc32c_result := checksum (drop starting_byte masked_ip_bytes) in
  [as_u8 (Z.shiftr crc32c_result 24); as_u8 (Z.shiftr crc32c_result 16);
   Z.lor (as_u8 (Z.land (Z.shiftr crc32c_result 8) 0xF8)) (Z.land rand2 0x07)] ++ filler ++ [rand].

Definition generate_compliant_id_ipv4 (addr : Ipv4Addr) (rand rand2 : Z) (filler : bytes) : ShaHash :=
  {| hash := generate_compliant_id (mask_ipv4_be addr) 4 rand rand2 filler |}.

Definition is_security_compliant_ipv4_exempt (addr : Ipv4Addr) : bool := false.

Definition is_compliant_id (crc32c_result : Z) (id_bytes : bytes) : bool :=
  let is_compliant := (nth 0 id_bytes 0 =? as_u8 (Z.shiftr crc32c_result 24))%Z in
  let is_compliant := is_compliant && (nth 1 id_bytes 0 =? as_u8 (Z.shiftr crc32c_result 16))%Z in
  let mid_id_bits := Z.land (nth 2 id_bytes 0%Z) 0xF8 in
  let mid_hash_bits := Z.land (as_u8 (Z.shiftr crc32c_result 8)) 0xF8 in
  is_compliant && (mid_id_bits =? mid_hash_bits)%Z.

Definition is_compliant_addr (masked_ip_be : Z) (num_octets : nat) (id : ShaHash) : res False bool :=
  if negb (num_octets <=? CRC32C_ARG_SLICE_SIZE) then Panic AssertFailed else
  let id_bytes := hash id in
  let rand := nth 19 id_bytes 0%Z in
  let r := Z.land rand 0x07 in
  let ip_bits_used := Z.of_nat (num_octets * 8) in
  let rand_masked_ip := Z.lor masked_ip_be (as_u64 (Z.shiftl r (ip_bits_used - 3))) in
  let rand_masked_ip_bytes := eight_bytes_to_array rand_masked_ip in
  let crc32c_result := checksum (drop 4 rand_masked_ip_bytes) in
  Ok (is_compliant_id crc32c_result id_bytes).

Definition is_compliant_ipv4_addr (addr : Ipv4Addr) (id : ShaHash) : res False bool :=
  if is_security_compliant_ipv4_exempt addr then Ok true
  else is_compliant_addr (mask_ipv4_be addr) 4 id.
End Security.

(** * Bits *)

Open Scope Z_scope.

Lemma as_u8_land x : as_u8 x = Z.land x 255.
Proof. unfold as_u8. change 255 with (Z.ones 8). by rewrite Z.land_ones by lia. Qed.

Lemma as_u8_lor x y : as_u8 (Z.lor x y) = Z.lor (as_u8 x) (as_u8 y).
Proof. rewrite !as_u8_land. apply Z.land_lor_distr_l. Qed.

Lemma as_u8_land_idem x y : as_u8 (Z.land x y) = Z.land (as_u8 x) (as_u8 y).
Proof.
  rewrite !as_u8_land. rewrite <- (Z.land_diag 255) at 1. rewrite <- !Z.land_assoc. f_equal.
  rewrite !Z.land_assoc. f_equal. apply Z.land_comm.
Qed.

Lemma land_7_range r : 0 ≤ Z.land r 7 < 8.
Proof. change 7 with (Z.ones 3). rewrite Z.land_ones by lia. apply Z.mod_pos_bound. lia. Qed.

Lemma as_u8_shiftl_high r k : 8 ≤ k → as_u8 (Z.shiftl r k) = 0.
Proof.
  intros Hk. unfold as_u8. rewrite Z.shiftl_mul_pow2 by lia. replace k with (8 + (k - 8)) by lia.
  rewrite Z.pow_add_r by lia. change (2 ^ 8) with 256. rewrite Z.mul_assoc, (Z.mul_comm r 256), <- Z.mul_assoc, Z.mul_comm.
  apply Z.mod_mul. lia.
Qed.

(** A random prefix in the top three bits of the fourth byte from the end. *)
Lemma rand_masked_tail m r : 0 ≤ r < 8 →
  drop 4 (eight_bytes_to_array (Z.lor m (as_u64 (Z.shiftl r (Z.of_nat (4 * 8) - 3))))) =
  Z.lor (as_u8 (Z.shiftr m 24)) (as_u8 (Z.shiftl r 5)) :: drop 5 (eight_bytes_to_array m).
Proof.
  intros Hr. change (Z.of_nat (4 * 8) - 3) with 29.
  assert (as_u64 (Z.shiftl r 29) = Z.shiftl r 29) as ->.
  { unfold as_u64. apply Z.mod_small. rewrite Z.shiftl_mul_pow2 by lia. lia. }
  unfold eight_bytes_to_array. simpl. rewrite !Z.shiftr_lor, !as_u8_lor.
  rewrite !(Z.shiftr_shiftl_l r 29) by lia.
  rewrite (as_u8_shiftl_high r (29 - 16)), (as_u8_shiftl_high r (29 - 8)), (as_u8_shiftl_high r 29) by lia. by rewrite !Z.lor_0_r.
Qed.

Lemma mid_bits x y : Z.land (Z.lor (as_u8 (Z.land x 0xF8)) (Z.land y 7)) 0xF8 = Z.land (as_u8 x) 0xF8.
Proof.
  rewrite as_u8_land_idem. change (as_u8 0xF8) with 0xF8. rewrite Z.land_lor_distr_l, <- !Z.land_assoc.
  change (Z.land 0xF8 0xF8) with 0xF8. change (Z.land 7 0xF8) with 0. by rewrite Z.land_0_r, Z.lor_0_r.
Qed.
Close Scope Z_scope.

(** the id generated for an IPv4 address passes the check for that address,
    for every checksum function and every random draw. *)
Theorem generated_id_compliant `{Crc32c} (addr : Ipv4Addr) (rand rand2 : Z) (filler : bytes) :
  length filler = 16 →
  is_compliant_ipv4_addr addr (generate_compliant_id_ipv4 addr rand rand2 filler) = Ok true.
Proof.
  intros Hf. unfold is_compliant_ipv4_addr, is_security_compliant_ipv4_exempt, is_compliant_addr.
  change (negb (4 <=? CRC32C_ARG_SLICE_SIZE)) with false. cbv iota. set (m := mask_ipv4_be addr).
  unfold generate_compliant_id_ipv4. cbn [hash]. fold m.
  set (crc := checksum (drop (length (eight_bytes_to_array m) - 4) (<[length (eight_bytes_to_array m) - 4 :=
    Z.lor (nth (length (eight_bytes_to_array m) - 4) (eight_bytes_to_array m) 0%Z) (as_u8 (Z.shiftl (Z.land rand 7) 5))]>
    (eight_bytes_to_array m)))).
  assert (Hid : generate_compliant_id m 4 rand rand2 filler =
    [as_u8 (Z.shiftr crc 24); as_u8 (Z.shiftr crc 16); Z.lor (as_u8 (Z.land (Z.shiftr crc 8) 0xF8)) (Z.land rand2 0x07)] ++ filler ++ [rand]) by done.
  assert (Hr : nth 19 (generate_compliant_id m 4 rand rand2 filler) 0%Z = rand).
  { rewrite Hid. rewrite !app_nth2; simpl; rewrite ?Hf; [|lia..]. done. }
  cbv zeta. rewrite Hr, rand_masked_tail by apply land_7_range. f_equal.
  change (checksum _) with crc. rewrite Hid. unfold is_compliant_id. cbn [nth app]. rewrite !Z.eqb_refl, mid_bits. by rewrite Z.eqb_refl.
Qed.

Lemma generated_id_compliant_witness :
  @is_compliant_ipv4_addr toy_crc (Ipv4 124 31 75 21)
    (@generate_compliant_id_ipv4 toy_crc (Ipv4 124 31 75 21) 1 200 (replicate 16 9%Z)) = Ok true.
Proof. apply (@generated_id_compliant toy_crc). reflexivity. Defined.

(** for eight octets the check hashes the last four bytes only: two
    addresses that agree there are never told apart. *)
Theorem eight_octet_check_ignores_high_half `{Crc32c} (m m' : Z) (id : ShaHash) :
  (∀ k, (0 ≤ k < 32)%Z → Z.testbit m k = Z.testbit m' k) →
  is_compliant_addr m 8 id = is_compliant_addr m' 8 id.
Proof.
  intros Hm. unfold is_compliant_addr. change (negb (8 <=? CRC32C_ARG_SLICE_SIZE)) with false. cbv iota zeta.
  set (x := as_u64 _). do 3 f_equal.
  assert (Hb : ∀ k, (0 ≤ k ≤ 24)%Z → as_u8 (Z.shiftr (Z.lor m x) k) = as_u8 (Z.shiftr (Z.lor m' x) k)).
  { intros k Hk. rewrite !as_u8_land. apply Z.bits_inj'. intros i Hi. rewrite !Z.land_spec, !Z.shiftr_spec, !Z.lor_spec by lia.
    destruct (decide (i < 8)%Z); [by rewrite (Hm (i + k)%Z) by lia|].
    assert (Z.testbit 255 i = false) as -> by (apply Z.bits_above_log2; simpl; lia). by rewrite !andb_false_r. }
  pose proof (Hb 0%Z ltac:(lia)) as Hb0. rewrite !Z.shiftr_0_r in Hb0.
  unfold eight_bytes_to_array. simpl. by rewrite Hb0, (Hb 8%Z), (Hb 16%Z), (Hb 24%Z) by lia.
Qed.

Lemma eight_octet_check_witness :
  @is_compliant_addr toy_crc 5 8 {| hash := replicate 20 0%Z |} =
  @is_compliant_addr toy_crc (5 + 2 ^ 32) 8 {| hash := replicate 20 0%Z |}.
Proof.
  apply (@eight_octet_check_ignores_high_half toy_crc 5 (5 + 2 ^ 32)). intros k Hk.
  rewrite <- (Z.mod_pow2_bits_low (5 + 2 ^ 32) 32 k) by lia. reflexivity.
Defined.
