(* ===== verification/DhtMessage.v ===== *)
(** packages/dht/src/message and error.rs: the KRPC messages, requests,
    responses and errors as bencode dictionaries, and the compact node and peer
    lists they carry.

    [B] is the bencode type a message is read from.  The text of an
    [InvalidResponse] is for logs and is not kept; the text of an
    [ErrorMessage] goes to the remote node and is. *)

From stdpp Require Import base numbers strings list.
From S2P Require Import Prelude RustStd Bencode Convert Sha.

(** * Keys (mod.rs, request.rs, response.rs, error.rs, announce_peer.rs) *)

Definition TRANSACTION_ID_KEY : bytes := bstr "t".
Definition MESSAGE_TYPE_KEY : bytes := bstr "y".
Definition REQUEST_TYPE_KEY : bytes := bstr "q".
Definition RESPONSE_TYPE_KEY : bytes := bstr "r".
Definition ERROR_TYPE_KEY : bytes := bstr "e".
Definition ROOT_ID_KEY : bytes := bstr "root".
Definition NODE_ID_KEY : bytes := bstr "id".
Definition NODES_KEY : bytes := bstr "nodes".
Definition VALUES_KEY : bytes := bstr "values".
Definition TARGET_ID_KEY : bytes := bstr "target".
Definition INFO_HASH_KEY : bytes := bstr "info_hash".
Definition TOKEN_KEY : bytes := bstr "token".

Definition REQUEST_ARGS_KEY : bytes := bstr "a".
Definition PING_TYPE_KEY : bytes := bstr "ping".
Definition FIND_NODE_TYPE_KEY : bytes := bstr "find_node".
Definition GET_PEERS_TYPE_KEY : bytes := bstr "get_peers".
Definition ANNOUNCE_PEER_TYPE_KEY : bytes := bstr "announce_peer".
Definition RESPONSE_ARGS_KEY : bytes := bstr "r".
Definition ERROR_ARGS_KEY : bytes := bstr "e".
Definition PORT_KEY : bytes := bstr "port".
Definition IMPLIED_PORT_KEY : bytes := bstr "implied_port".

(** * Errors (error.rs, message/error.rs) *)

Definition NUM_ERROR_ARGS : nat := 2.
Definition GENERIC_ERROR_CODE : Z := 201.
Definition SERVER_ERROR_CODE : Z := 202.
Definition PROTOCOL_ERROR_CODE : Z := 203.
Definition METHOD_UNKNOWN_CODE : Z := 204.

Inductive ErrorCode := GenericError | ServerError | ProtocolError | MethodUnknown.

Record ErrorMessage := { em_trans_id : bytes; em_code : ErrorCode; em_message : bytes }.

Inductive DhtError :=
  | DhtBencode (e : BencodeConvertError)
  | DhtInvalidMessage (code : bytes)
  | DhtInvalidResponse
  | DhtUnsolicitedResponse
  | DhtInvalidRequest (msg : ErrorMessage).

Definition ErrorCode_new (code : Z) : res DhtError ErrorCode :=
  if (code =? GENERIC_ERROR_CODE)%Z then Ok GenericError
  else if (code =? SERVER_ERROR_CODE)%Z then Ok ServerError
  else if (code =? PROTOCOL_ERROR_CODE)%Z then Ok ProtocolError
  else if (code =? METHOD_UNKNOWN_CODE)%Z then Ok MethodUnknown
  else Err DhtInvalidResponse.

Definition ErrorCode_to_u8 (val : ErrorCode) : Z :=
  match val with
  | GenericError => GENERIC_ERROR_CODE
  | ServerError => SERVER_ERROR_CODE
  | ProtocolError => PROTOCOL_ERROR_CODE
  | MethodUnknown => METHOD_UNKNOWN_CODE
  end.

(** * Compact lists (compact_info.rs) *)

Definition BYTES_PER_COMPACT_IP : nat := 6.
Definition BYTES_PER_COMPACT_NODE_INFO : nat := 26.

Definition socket_v4_from_bytes_be (l : bytes) : res LengthError SocketAddrV4 :=
  if length l =? BYTES_PER_COMPACT_IP then
    let '(oc_one, oc_two, oc_three, oc_four) := (nth 0 l 0%Z, nth 1 l 0%Z, nth 2 l 0%Z, nth 3 l 0%Z) in
    let port := Z.lor 0 (nth 4 l 0%Z) in
    let port := as_u16 (Z.shiftl port 8) in
    let port := Z.lor port (nth 5 l 0%Z) in
    Ok {| v4_ip := Ipv4 oc_one oc_two oc_three oc_four; v4_port := port |}
  else Err (LengthError_new LengthExpected BYTES_PER_COMPACT_IP).

(** [Result::unwrap] *)
Definition unwrap_res {E F A} (r : res E A) : res F A :=
  match r with Ok a => Ok a | Err _ => Panic UnwrapNone | Panic f => Panic f end.

(** [&l[i..j]] *)
Definition index_slice {E} (l : bytes) (i j : nat) : res E bytes :=
  if (i <=? j) && (j <=? length l) then Ok (slice l i j) else Panic IndexOutOfBounds.

Definition parts_from_compact_info (compact_info : bytes) : res False (ShaHash * SocketAddrV4) :=
  id_bytes ← index_slice compact_info 0 NODE_ID_LEN;
  node_id ← unwrap_res (ShaHash_from_hash id_bytes);
  let compact_ip_offset := NODE_ID_LEN + BYTES_PER_COMPACT_IP in
  ip_bytes ← index_slice compact_info NODE_ID_LEN compact_ip_offset;
  socket ← unwrap_res (socket_v4_from_bytes_be ip_bytes);
  Ok (node_id, socket).

Record CompactNodeInfo := { cn_nodes : bytes }.

Definition CompactNodeInfo_new (nodes : bytes) : res LengthError CompactNodeInfo :=
  if length nodes mod BYTES_PER_COMPACT_NODE_INFO =? 0 then Ok {| cn_nodes := nodes |}
  else Err (LengthError_new LengthMultipleExpected BYTES_PER_COMPACT_NODE_INFO).

Record CompactNodeInfoIter := { cni_nodes : bytes; cni_pos : nat }.

Definition CompactNodeInfo_into_iter (self : CompactNodeInfo) : CompactNodeInfoIter :=
  {| cni_nodes := cn_nodes self; cni_pos := 0 |}.

Definition CompactNodeInfoIter_next (self : CompactNodeInfoIter) :
    res False (CompactNodeInfoIter * option (ShaHash * SocketAddrV4)) :=
  if cni_pos self =? length (cni_nodes self) then Ok (self, None) else
  let compact_info_offset := cni_pos self + BYTES_PER_COMPACT_NODE_INFO in
  compact_info ← index_slice (cni_nodes self) (cni_pos self) compact_info_offset;
  parts ← parts_from_compact_info compact_info;
  Ok ({| cni_nodes := cni_nodes self; cni_pos := cni_pos self + BYTES_PER_COMPACT_NODE_INFO |}, Some parts).

(** Collecting the iterator; every call but the last moves past a node. *)
Fixpoint CompactNodeInfoIter_collect (fuel : nat) (self : CompactNodeInfoIter) :
    res False (list (ShaHash * SocketAddrV4)) :=
  match fuel with
  | O => Panic OutOfFuel
  | S fuel' =>
      '(self', item) ← CompactNodeInfoIter_next self;
      match item with
      | None => Ok []
      | Some n => rest ← CompactNodeInfoIter_collect fuel' self'; Ok (n :: rest)
      end
  end.

Section Values.
Context {B : Type} `{!BRefAccess B}.

Record CompactValueInfo := { cv_values : list B }.

(** The loop over [values.into_iter().enumerate()]; [unwrap] on a value that is
    not bytes. *)
Fixpoint check_values (index : nat) (values : list B) : res LengthError () :=
  match values with
  | [] => Ok ()
  | node :: values' =>
      compact_value ← unwrap (ben_bytes node);
      if negb (length compact_value =? BYTES_PER_COMPACT_IP)
      then Err (LengthError_with_index LengthExpected BYTES_PER_COMPACT_IP index)
      else check_values (index + 1) values'
  end.

Definition CompactValueInfo_new (values : list B) : res LengthError CompactValueInfo :=
  _ ← check_values 0 values; Ok {| cv_values := values |}.

Record CompactValueInfoIter := { cvi_values : list B; cvi_pos : nat }.

Definition CompactValueInfo_into_iter (self : CompactValueInfo) : CompactValueInfoIter :=
  {| cvi_values := cv_values self; cvi_pos := 0 |}.

Definition CompactValueInfoIter_next (self : CompactValueInfoIter) :
    res False (CompactValueInfoIter * option SocketAddrV4) :=
  if cvi_pos self =? length (cvi_values self) then Ok (self, None) else
  match cvi_values self !! cvi_pos self with
  | None => Panic IndexOutOfBounds
  | Some compact_info =>
      let self' := {| cvi_values := cvi_values self; cvi_pos := cvi_pos self + 1 |} in
      l ← unwrap (ben_bytes compact_info);
      sock ← unwrap_res (socket_v4_from_bytes_be l);
      Ok (self', Some sock)
  end.

Fixpoint CompactValueInfoIter_collect (fuel : nat) (self : CompactValueInfoIter) : res False (list SocketAddrV4) :=
  match fuel with
  | O => Panic OutOfFuel
  | S fuel' =>
      '(self', item) ← CompactValueInfoIter_next self;
      match item with
      | None => Ok []
      | Some s => rest ← CompactValueInfoIter_collect fuel' self'; Ok (s :: rest)
      end
  end.
End Values.
Arguments CompactValueInfo : clear implicits.
Arguments CompactValueInfoIter : clear implicits.

(** * Validation (request.rs, response.rs) *)

Definition protocol_error (trans_id text : bytes) : DhtError :=
  DhtInvalidRequest {| em_trans_id := trans_id; em_code := ProtocolError; em_message := text |}.

Definition RequestValidate_node_id (trans_id node_id : bytes) : res DhtError ShaHash :=
  res_map_err (λ _, protocol_error trans_id
    (bstr "Node ID With Length " ++ usize_to_string (length node_id) ++ bstr " Is Not Valid")) (ShaHash_from_hash node_id).

Definition RequestValidate_info_hash (trans_id info_hash : bytes) : res DhtError ShaHash :=
  res_map_err (λ _, protocol_error trans_id
    (bstr "InfoHash With Length " ++ usize_to_string (length info_hash) ++ bstr " Is Not Valid")) (ShaHash_from_hash info_hash).

Definition ResponseValidate_node_id (node_id : bytes) : res DhtError ShaHash :=
  res_map_err (λ _, DhtInvalidResponse) (ShaHash_from_hash node_id).

Definition ResponseValidate_nodes (nodes : bytes) : res DhtError CompactNodeInfo :=
  res_map_err (λ _, DhtInvalidResponse) (CompactNodeInfo_new nodes).

Definition ResponseValidate_values {B} `{!BRefAccess B} (values : list B) : res DhtError (CompactValueInfo B) :=
  if forallb (λ bencode, match ben_bytes bencode with Some _ => true | None => false end) values
  then res_map_err (λ _, DhtInvalidResponse) (CompactValueInfo_new values)
  else Err DhtInvalidResponse.

(** * Requests (ping.rs, find_node.rs, get_peers.rs, announce_peer.rs) *)

Record PingRequest := { pq_trans_id : bytes; pq_node_id : ShaHash }.
Record FindNodeRequest := { fq_trans_id : bytes; fq_node_id : ShaHash; fq_target_id : ShaHash }.
Record GetPeersRequest := { gq_trans_id : bytes; gq_node_id : ShaHash; gq_info_hash : ShaHash }.
Inductive ConnectPort := Implied | Explicit (port : Z).
Record AnnouncePeerRequest :=
  { aq_trans_id : bytes; aq_node_id : ShaHash; aq_info_hash : ShaHash; aq_token : bytes; aq_port : ConnectPort }.

(** * Responses *)

Record PingResponse := { ps_trans_id : bytes; ps_node_id : ShaHash }.
Record FindNodeResponse := { fs_trans_id : bytes; fs_node_id : ShaHash; fs_nodes : CompactNodeInfo }.

Inductive CompactInfoType (B : Type) :=
  | Nodes (nodes : CompactNodeInfo)
  | Values (values : CompactValueInfo B)
  | Both (nodes : CompactNodeInfo) (values : CompactValueInfo B).
Arguments Nodes {B} nodes.
Arguments Values {B} values.
Arguments Both {B} nodes values.

Record GetPeersResponse (B : Type) :=
  { gs_trans_id : bytes; gs_node_id : ShaHash; gs_token : option bytes; gs_info_type : CompactInfoType B }.
Arguments gs_trans_id {B} _.
Arguments gs_node_id {B} _.
Arguments gs_token {B} _.
Arguments gs_info_type {B} _.
Arguments Build_GetPeersResponse {B} _ _ _ _.

Record AnnouncePeerResponse := { as_trans_id : bytes; as_node_id : ShaHash }.

Inductive RequestType :=
  | RqPing (r : PingRequest)
  | RqFindNode (r : FindNodeRequest)
  | RqGetPeers (r : GetPeersRequest)
  | RqAnnouncePeer (r : AnnouncePeerRequest).

Inductive ResponseType (B : Type) :=
  | RsPing (r : PingResponse)
  | RsFindNode (r : FindNodeResponse)
  | RsGetPeers (r : GetPeersResponse B)
  | RsAnnouncePeer (r : AnnouncePeerResponse).
Arguments RsPing {B} r.
Arguments RsFindNode {B} r.
Arguments RsGetPeers {B} r.
Arguments RsAnnouncePeer {B} r.

Inductive ExpectedResponse := ExpPing | ExpFindNode | ExpGetPeers | ExpAnnouncePeer | ExpGetData | ExpPutData | ExpNone.

Inductive MessageType (B : Type) :=
  | MsgRequest (r : RequestType)
  | MsgResponse (r : ResponseType B)
  | MsgError (e : ErrorMessage).
Arguments MsgRequest {B} r.
Arguments MsgResponse {B} r.
Arguments MsgError {B} e.

(** * Reading *)

Section FromParts.
Context {B : Type} `{!BRefAccess B}.
Implicit Types root : list (bytes * B).

Definition get_bytes root (key : bytes) : res DhtError bytes := lookup_and_convert_bytes DhtBencode root key.

Definition PingRequest_from_parts root (trans_id : bytes) : res DhtError PingRequest :=
  node_id_bytes ← get_bytes root NODE_ID_KEY;
  node_id ← RequestValidate_node_id trans_id node_id_bytes;
  Ok {| pq_trans_id := trans_id; pq_node_id := node_id |}.

Definition FindNodeRequest_from_parts root (trans_id target_key : bytes) : res DhtError FindNodeRequest :=
  node_id_bytes ← get_bytes root NODE_ID_KEY;
  node_id ← RequestValidate_node_id trans_id node_id_bytes;
  target_id_bytes ← get_bytes root target_key;
  target_id ← RequestValidate_node_id trans_id target_id_bytes;
  Ok {| fq_trans_id := trans_id; fq_node_id := node_id; fq_target_id := target_id |}.

Definition GetPeersRequest_from_parts root (trans_id : bytes) : res DhtError GetPeersRequest :=
  node_id_bytes ← get_bytes root NODE_ID_KEY;
  node_id ← RequestValidate_node_id trans_id node_id_bytes;
  info_hash_bytes ← get_bytes root INFO_HASH_KEY;
  info_hash ← RequestValidate_info_hash trans_id info_hash_bytes;
  Ok {| gq_trans_id := trans_id; gq_node_id := node_id; gq_info_hash := info_hash |}.

(** [n.unsigned_abs() as u16] *)
Definition abs_as_u16 (n : Z) : Z := as_u16 (Z.abs n).

Definition AnnouncePeerRequest_from_parts root (trans_id : bytes) : res DhtError AnnouncePeerRequest :=
  node_id_bytes ← get_bytes root NODE_ID_KEY;
  node_id ← RequestValidate_node_id trans_id node_id_bytes;
  info_hash_bytes ← get_bytes root INFO_HASH_KEY;
  info_hash ← RequestValidate_info_hash trans_id info_hash_bytes;
  token ← get_bytes root TOKEN_KEY;
  let port := lookup_and_convert_int DhtBencode root PORT_KEY in
  response_port ←
    match ben_int <$> dict_lookup root IMPLIED_PORT_KEY with
    | Some (Some n) => if negb (n =? 0)%Z then Ok Implied else n ← port; Ok (Explicit (abs_as_u16 n))
    | _ => n ← port; Ok (Explicit (abs_as_u16 n))
    end;
  Ok {| aq_trans_id := trans_id; aq_node_id := node_id; aq_info_hash := info_hash; aq_token := token;
        aq_port := response_port |}.

Definition forward_compatible_find_node root : option bytes :=
  match dict_lookup root TARGET_ID_KEY, dict_lookup root INFO_HASH_KEY with
  | Some _, _ => Some TARGET_ID_KEY
  | _, Some _ => Some INFO_HASH_KEY
  | None, None => None
  end.

Definition RequestType_from_parts root (trans_id rqst_type : bytes) : res DhtError RequestType :=
  rqst_root ← lookup_and_convert_dict DhtBencode root REQUEST_ARGS_KEY;
  if bool_decide (rqst_type = PING_TYPE_KEY) then RqPing <$> PingRequest_from_parts rqst_root trans_id
  else if bool_decide (rqst_type = FIND_NODE_TYPE_KEY) then
    RqFindNode <$> FindNodeRequest_from_parts rqst_root trans_id TARGET_ID_KEY
  else if bool_decide (rqst_type = GET_PEERS_TYPE_KEY) then RqGetPeers <$> GetPeersRequest_from_parts rqst_root trans_id
  else if bool_decide (rqst_type = ANNOUNCE_PEER_TYPE_KEY) then
    RqAnnouncePeer <$> AnnouncePeerRequest_from_parts rqst_root trans_id
  else
    match forward_compatible_find_node rqst_root with
    | Some target_key => RqFindNode <$> FindNodeRequest_from_parts rqst_root trans_id target_key
    | None => Err (DhtInvalidRequest {| em_trans_id := trans_id; em_code := MethodUnknown;
                em_message := bstr "Received Unknown Request Method: " ++ rqst_type |})
    end.

Definition PingResponse_from_parts root (trans_id : bytes) : res DhtError PingResponse :=
  request ← PingRequest_from_parts root trans_id;
  Ok {| ps_trans_id := pq_trans_id request; ps_node_id := pq_node_id request |}.

Definition FindNodeResponse_new (trans_id : bytes) (node_id : ShaHash) (nodes : bytes) : res DhtError FindNodeResponse :=
  compact_nodes ← ResponseValidate_nodes nodes;
  Ok {| fs_trans_id := trans_id; fs_node_id := node_id; fs_nodes := compact_nodes |}.

Definition FindNodeResponse_from_parts root (trans_id : bytes) : res DhtError FindNodeResponse :=
  node_id_bytes ← get_bytes root NODE_ID_KEY;
  node_id ← ResponseValidate_node_id node_id_bytes;
  nodes ← get_bytes root NODES_KEY;
  FindNodeResponse_new trans_id node_id nodes.

Definition GetPeersResponse_from_parts root (trans_id : bytes) : res DhtError (GetPeersResponse B) :=
  node_id_bytes ← get_bytes root NODE_ID_KEY;
  node_id ← ResponseValidate_node_id node_id_bytes;
  let token := match get_bytes root TOKEN_KEY with Ok t => Some t | _ => None end in
  let maybe_nodes := get_bytes root NODES_KEY in
  let maybe_values := lookup_and_convert_list DhtBencode root VALUES_KEY in
  info_type ←
    match maybe_nodes, maybe_values with
    | Ok nodes, Ok values =>
        nodes_info ← ResponseValidate_nodes nodes;
        values_info ← ResponseValidate_values values;
        Ok (Both nodes_info values_info)
    | Ok nodes, _ => nodes_info ← ResponseValidate_nodes nodes; Ok (Nodes nodes_info)
    | _, Ok values => values_info ← ResponseValidate_values values; Ok (Values values_info)
    | _, _ => Err DhtInvalidResponse
    end;
  Ok {| gs_trans_id := trans_id; gs_node_id := node_id; gs_token := token; gs_info_type := info_type |}.

(** The response is checked with the request's validator. *)
Definition AnnouncePeerResponse_from_parts root (trans_id : bytes) : res DhtError AnnouncePeerResponse :=
  node_id_bytes ← get_bytes root NODE_ID_KEY;
  node_id ← RequestValidate_node_id trans_id node_id_bytes;
  Ok {| as_trans_id := trans_id; as_node_id := node_id |}.

(** [unimplemented!()] for the two kinds that are never expected. *)
Definition ResponseType_from_parts root (trans_id : bytes) (rsp_type : ExpectedResponse) : res DhtError (ResponseType B) :=
  rqst_root ← lookup_and_convert_dict DhtBencode root RESPONSE_ARGS_KEY;
  match rsp_type with
  | ExpPing => RsPing <$> PingResponse_from_parts rqst_root trans_id
  | ExpFindNode => RsFindNode <$> FindNodeResponse_from_parts rqst_root trans_id
  | ExpGetPeers => RsGetPeers <$> GetPeersResponse_from_parts rqst_root trans_id
  | ExpAnnouncePeer => RsAnnouncePeer <$> AnnouncePeerResponse_from_parts rqst_root trans_id
  | ExpGetData | ExpPutData => Panic AssertFailed
  | ExpNone => Err DhtUnsolicitedResponse
  end.

(** [code.unsigned_abs() as u8] *)
Definition extract_error_args (args : list B) : res DhtError (Z * bytes) :=
  match args with
  | [a0; a1] =>
      code ← convert_int DhtBencode a0 (ERROR_ARGS_KEY ++ bstr "[0]");
      message ← convert_str DhtBencode a1 (ERROR_ARGS_KEY ++ bstr "[1]");
      Ok (as_u8 (Z.abs code), message)
  | _ => Err DhtInvalidResponse
  end.

Definition ErrorMessage_from_parts root (trans_id : bytes) : res DhtError ErrorMessage :=
  error_args ← lookup_and_convert_list DhtBencode root ERROR_ARGS_KEY;
  '(code, message) ← extract_error_args error_args;
  error_code ← ErrorCode_new code;
  Ok {| em_trans_id := trans_id; em_code := error_code; em_message := message |}.

Definition MessageType_new (message : B) (trans_mapper : bytes → ExpectedResponse) : res DhtError (MessageType B) :=
  msg_root ← convert_dict DhtBencode message ROOT_ID_KEY;
  trans_id ← get_bytes msg_root TRANSACTION_ID_KEY;
  msg_type ← lookup_and_convert_str DhtBencode msg_root MESSAGE_TYPE_KEY;
  if bool_decide (msg_type = REQUEST_TYPE_KEY) then
    rqst_type ← lookup_and_convert_str DhtBencode msg_root REQUEST_TYPE_KEY;
    MsgRequest <$> RequestType_from_parts msg_root trans_id rqst_type
  else if bool_decide (msg_type = RESPONSE_TYPE_KEY) then
    let rsp_type := trans_mapper trans_id in
    MsgResponse <$> ResponseType_from_parts msg_root trans_id rsp_type
  else if bool_decide (msg_type = ERROR_TYPE_KEY) then MsgError <$> ErrorMessage_from_parts msg_root trans_id
  else Err (DhtInvalidMessage msg_type).
End FromParts.

(** * Writing *)

Definition PingRequest_encode (self : PingRequest) : bytes :=
  BencodeMut_encode (ben_map [
    (TRANSACTION_ID_KEY, new_bytes (pq_trans_id self)); (MESSAGE_TYPE_KEY, new_bytes REQUEST_TYPE_KEY);
    (REQUEST_TYPE_KEY, new_bytes PING_TYPE_KEY);
    (REQUEST_ARGS_KEY, ben_map [(NODE_ID_KEY, new_bytes (hash (pq_node_id self)))])]).

Definition FindNodeRequest_encode (self : FindNodeRequest) : bytes :=
  BencodeMut_encode (ben_map [
    (TRANSACTION_ID_KEY, new_bytes (fq_trans_id self)); (MESSAGE_TYPE_KEY, new_bytes REQUEST_TYPE_KEY);
    (REQUEST_TYPE_KEY, new_bytes FIND_NODE_TYPE_KEY);
    (REQUEST_ARGS_KEY, ben_map [(NODE_ID_KEY, new_bytes (hash (fq_node_id self)));
                                (TARGET_ID_KEY, new_bytes (hash (fq_target_id self)))])]).

Definition GetPeersRequest_encode (self : GetPeersRequest) : bytes :=
  BencodeMut_encode (ben_map [
    (TRANSACTION_ID_KEY, new_bytes (gq_trans_id self)); (MESSAGE_TYPE_KEY, new_bytes REQUEST_TYPE_KEY);
    (REQUEST_TYPE_KEY, new_bytes GET_PEERS_TYPE_KEY);
    (REQUEST_ARGS_KEY, ben_map [(NODE_ID_KEY, new_bytes (hash (gq_node_id self)));
                                (INFO_HASH_KEY, new_bytes (hash (gq_info_hash self)))])]).

Definition AnnouncePeerRequest_encode (self : AnnouncePeerRequest) : bytes :=
  let '(displayed_port, implied_value) := match aq_port self with Implied => (0, 1)%Z | Explicit n => (n, 0%Z) end in
  BencodeMut_encode (ben_map [
    (TRANSACTION_ID_KEY, new_bytes (aq_trans_id self)); (MESSAGE_TYPE_KEY, new_bytes REQUEST_TYPE_KEY);
    (REQUEST_TYPE_KEY, new_bytes ANNOUNCE_PEER_TYPE_KEY);
    (REQUEST_ARGS_KEY, ben_map [(NODE_ID_KEY, new_bytes (hash (aq_node_id self)));
                                (IMPLIED_PORT_KEY, new_int implied_value);
                                (INFO_HASH_KEY, new_bytes (hash (aq_info_hash self)));
                                (PORT_KEY, new_int displayed_port);
                                (TOKEN_KEY, new_bytes (aq_token self))])]).

(** A response that carries the node id alone, as ping and announce do. *)
Definition PingResponse_encode (self : PingResponse) : bytes :=
  BencodeMut_encode (ben_map [
    (TRANSACTION_ID_KEY, new_bytes (ps_trans_id self)); (MESSAGE_TYPE_KEY, new_bytes RESPONSE_TYPE_KEY);
    (RESPONSE_TYPE_KEY, ben_map [(NODE_ID_KEY, new_bytes (hash (ps_node_id self)))])]).

Definition AnnouncePeerResponse_encode (self : AnnouncePeerResponse) : bytes :=
  BencodeMut_encode (ben_map [
    (TRANSACTION_ID_KEY, new_bytes (as_trans_id self)); (MESSAGE_TYPE_KEY, new_bytes RESPONSE_TYPE_KEY);
    (RESPONSE_TYPE_KEY, ben_map [(NODE_ID_KEY, new_bytes (hash (as_node_id self)))])]).

Definition FindNodeResponse_encode (self : FindNodeResponse) : bytes :=
  BencodeMut_encode (ben_map [
    (TRANSACTION_ID_KEY, new_bytes (fs_trans_id self)); (MESSAGE_TYPE_KEY, new_bytes RESPONSE_TYPE_KEY);
    (RESPONSE_TYPE_KEY, ben_map [(NODE_ID_KEY, new_bytes (hash (fs_node_id self)));
                                 (NODES_KEY, new_bytes (cn_nodes (fs_nodes self)))])]).

(** [response_args], a [BTreeMap], is then copied into the bencode dictionary. *)
Definition get_peers_args (self : GetPeersResponse BencodeMut) : list (bytes * BencodeMut) :=
  let args := bt_insert NODE_ID_KEY (new_bytes (hash (gs_node_id self))) [] in
  let args := match gs_token self with Some token => bt_insert TOKEN_KEY (new_bytes token) args | None => args end in
  match gs_info_type self with
  | Nodes nodes => bt_insert NODES_KEY (new_bytes (cn_nodes nodes)) args
  | Values values => bt_insert VALUES_KEY (ben_list (cv_values values)) args
  | Both nodes values =>
      bt_insert VALUES_KEY (ben_list (cv_values values)) (bt_insert NODES_KEY (new_bytes (cn_nodes nodes)) args)
  end.

(** A response carries the request's method key as well. *)
Definition GetPeersResponse_encode (self : GetPeersResponse BencodeMut) : bytes :=
  BencodeMut_encode (ben_map [
    (TRANSACTION_ID_KEY, new_bytes (gs_trans_id self)); (MESSAGE_TYPE_KEY, new_bytes RESPONSE_TYPE_KEY);
    (REQUEST_TYPE_KEY, new_bytes GET_PEERS_TYPE_KEY); (RESPONSE_ARGS_KEY, ben_map (get_peers_args self))]).

Definition ErrorMessage_encode (self : ErrorMessage) : bytes :=
  let error_code := ErrorCode_to_u8 (em_code self) in
  BencodeMut_encode (ben_map [
    (TRANSACTION_ID_KEY, new_bytes (em_trans_id self)); (MESSAGE_TYPE_KEY, new_bytes ERROR_TYPE_KEY);
    (ERROR_TYPE_KEY, ben_list [new_int error_code; new_bytes (em_message self)])]).
