(* ===== verification/DhtMessageProps.v ===== *)
(** The DHT messages: what each writer encodes is read back as the same
    message, reading never panics on a message the node asked for, and the
    compact lists hand out what was put into them. *)

From stdpp Require Import base numbers strings list.
From S2P Require Import Prelude RustStd Bencode BencodeTheorems BencodeErase Convert Sha DhtMessage.

(** * Reading a decoded message like the value it stands for *)

Definition values_erase (i : CompactValueInfo BencodeRef) : CompactValueInfo BencodeMut :=
  {| cv_values := erase <$> cv_values i |}.
Definition info_erase (i : CompactInfoType BencodeRef) : CompactInfoType BencodeMut :=
  match i with Nodes n => Nodes n | Values v => Values (values_erase v) | Both n v => Both n (values_erase v) end.
Definition peers_erase (r : GetPeersResponse BencodeRef) : GetPeersResponse BencodeMut :=
  Build_GetPeersResponse (gs_trans_id r) (gs_node_id r) (gs_token r) (info_erase (gs_info_type r)).
Definition response_erase (r : ResponseType BencodeRef) : ResponseType BencodeMut :=
  match r with
  | RsPing r => RsPing r | RsFindNode r => RsFindNode r
  | RsGetPeers r => RsGetPeers (peers_erase r) | RsAnnouncePeer r => RsAnnouncePeer r
  end.
Definition message_erase (m : MessageType BencodeRef) : MessageType BencodeMut :=
  match m with MsgRequest r => MsgRequest r | MsgResponse r => MsgResponse (response_erase r) | MsgError e => MsgError e end.

(** Binds and maps of results. *)
Lemma fmap_bind {E A B C} (f : B → C) (m : res E A) (k : A → res E B) : f <$> (m ≫= k) = m ≫= λ a, f <$> k a.
Proof. by destruct m. Qed.

Lemma bind_fmap {E A B C} (f : A → B) (m : res E A) (k : B → res E C) : (f <$> m) ≫= k = m ≫= λ a, k (f a).
Proof. by destruct m. Qed.

Lemma bind_ext {E A B} (m : res E A) (k k' : A → res E B) : (∀ a, k a = k' a) → m ≫= k = m ≫= k'.
Proof. intros Hk. destruct m; simpl; auto. Qed.

Section Erase.
Implicit Types d : list (bytes * BencodeRef).

Lemma get_bytes_erase d k : get_bytes (B:=BencodeMut) (erase_pair <$> d) k = get_bytes d k.
Proof. symmetry. apply lookup_bytes_erase. Qed.

Lemma int_erase v : ben_int (T:=BencodeMut) (erase v) = ben_int v.
Proof. by destruct v. Qed.
Lemma bytes_erase v : ben_bytes (T:=BencodeMut) (erase v) = ben_bytes v.
Proof. by destruct v. Qed.
Lemma str_erase v : ben_str (T:=BencodeMut) (erase v) = ben_str v.
Proof. by destruct v. Qed.

Lemma ping_erase d t : PingRequest_from_parts (B:=BencodeMut) (erase_pair <$> d) t = PingRequest_from_parts d t.
Proof. unfold PingRequest_from_parts. by rewrite !get_bytes_erase. Qed.

Lemma find_node_erase d t k :
  FindNodeRequest_from_parts (B:=BencodeMut) (erase_pair <$> d) t k = FindNodeRequest_from_parts d t k.
Proof. unfold FindNodeRequest_from_parts. by rewrite !get_bytes_erase. Qed.

Lemma get_peers_erase d t : GetPeersRequest_from_parts (B:=BencodeMut) (erase_pair <$> d) t = GetPeersRequest_from_parts d t.
Proof. unfold GetPeersRequest_from_parts. by rewrite !get_bytes_erase. Qed.

Lemma announce_erase d t :
  AnnouncePeerRequest_from_parts (B:=BencodeMut) (erase_pair <$> d) t = AnnouncePeerRequest_from_parts d t.
Proof.
  unfold AnnouncePeerRequest_from_parts. rewrite !get_bytes_erase, <- lookup_int_erase.
  unfold dict_lookup. rewrite bt_lookup_erase.
  destruct (bt_lookup IMPLIED_PORT_KEY d) as [v|]; [|done].
  cbn [fmap option_fmap option_map]. by rewrite int_erase.
Qed.

Lemma request_erase d t q : RequestType_from_parts (B:=BencodeMut) (erase_pair <$> d) t q = RequestType_from_parts d t q.
Proof.
  unfold RequestType_from_parts. rewrite lookup_dict_erase, bind_fmap. apply bind_ext. intros a.
  rewrite ping_erase, get_peers_erase, announce_erase, find_node_erase.
  repeat case_match; try done; unfold forward_compatible_find_node, dict_lookup in *;
    rewrite ?bt_lookup_erase in *; rewrite ?find_node_erase;
    destruct (bt_lookup TARGET_ID_KEY a), (bt_lookup INFO_HASH_KEY a); simplify_eq/=; done.
Qed.

Lemma values_check_erase (l : list BencodeRef) i : check_values i (erase <$> l) = check_values i l.
Proof.
  revert i. induction l as [|v l IH]; intros i; [done|].
  cbn [fmap list_fmap check_values]. rewrite bytes_erase. destruct (ben_bytes v) as [s|]; simpl; [|done]. destruct (negb _); [done|]. apply IH.
Qed.

Lemma validate_values_erase (l : list BencodeRef) :
  ResponseValidate_values (erase <$> l) = values_erase <$> ResponseValidate_values l.
Proof.
  unfold ResponseValidate_values, CompactValueInfo_new. rewrite values_check_erase.
  assert (Hf : forallb (λ b, match ben_bytes b with Some _ => true | None => false end) (erase <$> l) =
               forallb (λ b, match ben_bytes b with Some _ => true | None => false end) l).
  { induction l as [|v l IH]; [done|]. cbn [fmap list_fmap forallb]. rewrite bytes_erase. f_equal. exact IH. }
  rewrite Hf. destruct (forallb _ l); [|done]. by destruct (check_values 0 l).
Qed.

Lemma get_peers_response_erase d t :
  GetPeersResponse_from_parts (B:=BencodeMut) (erase_pair <$> d) t = peers_erase <$> GetPeersResponse_from_parts d t.
Proof.
  unfold GetPeersResponse_from_parts. rewrite !get_bytes_erase, lookup_list_erase, fmap_bind.
  apply bind_ext. intros i. rewrite fmap_bind. apply bind_ext. intros n.
  destruct (get_bytes d NODES_KEY) as [nodes| |], (lookup_and_convert_list DhtBencode d VALUES_KEY) as [vs| |];
    cbn [fmap res_fmap]; rewrite ?validate_values_erase; try done;
    repeat (match goal with |- context [ResponseValidate_nodes ?x] => destruct (ResponseValidate_nodes x)
            | |- context [ResponseValidate_values ?x] => destruct (ResponseValidate_values x) end; try done).
Qed.

Lemma response_parts_erase d t x :
  ResponseType_from_parts (B:=BencodeMut) (erase_pair <$> d) t x = response_erase <$> ResponseType_from_parts d t x.
Proof.
  unfold ResponseType_from_parts. rewrite lookup_dict_erase, bind_fmap, fmap_bind. apply bind_ext. intros a.
  unfold PingResponse_from_parts, FindNodeResponse_from_parts, AnnouncePeerResponse_from_parts.
  rewrite ping_erase, get_peers_response_erase, !get_bytes_erase. destruct x; try done.
  - by destruct (PingRequest_from_parts a t).
  - rewrite !fmap_bind. apply bind_ext. intros i. rewrite !fmap_bind. apply bind_ext. intros j.
    rewrite !fmap_bind. apply bind_ext. intros k. by destruct (FindNodeResponse_new t j k).
  - by destruct (GetPeersResponse_from_parts a t).
  - rewrite !fmap_bind. apply bind_ext. intros i. by destruct (RequestValidate_node_id t i).
Qed.

Lemma error_parts_erase d t : ErrorMessage_from_parts (B:=BencodeMut) (erase_pair <$> d) t = ErrorMessage_from_parts d t.
Proof.
  unfold ErrorMessage_from_parts. rewrite lookup_list_erase, bind_fmap. apply bind_ext. intros l.
  destruct l as [|a [|b [|c l]]]; [done|done| |done]. cbn [fmap list_fmap extract_error_args].
  unfold convert_int, convert_str. by rewrite int_erase, str_erase.
Qed.

Lemma message_new_erase v f : MessageType_new (erase v) f = message_erase <$> MessageType_new v f.
Proof.
  unfold MessageType_new. destruct v as [n u|s u|l u|d u]; [done|done|done|]. rewrite erase_RDict.
  cbn [convert_dict ben_dict BencodeMut_access BencodeRef_access ok_or mbind res_bind].
  rewrite get_bytes_erase, <- !lookup_str_erase, fmap_bind. apply bind_ext. intros t.
  rewrite fmap_bind. apply bind_ext. intros y.
  case_bool_decide; [|case_bool_decide; [|case_bool_decide; [|done]]].
  - rewrite fmap_bind. apply bind_ext. intros q. rewrite request_erase. by destruct (RequestType_from_parts d t q).
  - rewrite response_parts_erase. by destruct (ResponseType_from_parts d t (f t)).
  - rewrite error_parts_erase. by destruct (ErrorMessage_from_parts d t).
Qed.
End Erase.

(** * The value each message is encoded from *)

(** All writers, by message. *)
Definition message_encode (m : MessageType BencodeMut) : bytes :=
  match m with
  | MsgRequest (RqPing r) => PingRequest_encode r
  | MsgRequest (RqFindNode r) => FindNodeRequest_encode r
  | MsgRequest (RqGetPeers r) => GetPeersRequest_encode r
  | MsgRequest (RqAnnouncePeer r) => AnnouncePeerRequest_encode r
  | MsgResponse (RsPing r) => PingResponse_encode r
  | MsgResponse (RsFindNode r) => FindNodeResponse_encode r
  | MsgResponse (RsGetPeers r) => GetPeersResponse_encode r
  | MsgResponse (RsAnnouncePeer r) => AnnouncePeerResponse_encode r
  | MsgError e => ErrorMessage_encode e
  end.

Abbreviation entries := (list (bytes * BencodeMut)) (only parsing).

Definition request_value (t q : bytes) (args : entries) : BencodeMut :=
  MDict [(REQUEST_ARGS_KEY, MDict args); (REQUEST_TYPE_KEY, MBytes q); (TRANSACTION_ID_KEY, MBytes t);
         (MESSAGE_TYPE_KEY, MBytes REQUEST_TYPE_KEY)].
Definition response_value (t : bytes) (args : entries) : BencodeMut :=
  MDict [(RESPONSE_ARGS_KEY, MDict args); (TRANSACTION_ID_KEY, MBytes t); (MESSAGE_TYPE_KEY, MBytes RESPONSE_TYPE_KEY)].

Definition announce_args (r : AnnouncePeerRequest) : entries :=
  let '(p, i) := match aq_port r with Implied => (0, 1)%Z | Explicit n => (n, 0%Z) end in
  [(NODE_ID_KEY, MBytes (hash (aq_node_id r))); (IMPLIED_PORT_KEY, MInt i); (INFO_HASH_KEY, MBytes (hash (aq_info_hash r)));
   (PORT_KEY, MInt p); (TOKEN_KEY, MBytes (aq_token r))].

Definition message_value (m : MessageType BencodeMut) : BencodeMut :=
  match m with
  | MsgRequest (RqPing r) => request_value (pq_trans_id r) PING_TYPE_KEY [(NODE_ID_KEY, MBytes (hash (pq_node_id r)))]
  | MsgRequest (RqFindNode r) => request_value (fq_trans_id r) FIND_NODE_TYPE_KEY
      [(NODE_ID_KEY, MBytes (hash (fq_node_id r))); (TARGET_ID_KEY, MBytes (hash (fq_target_id r)))]
  | MsgRequest (RqGetPeers r) => request_value (gq_trans_id r) GET_PEERS_TYPE_KEY
      [(NODE_ID_KEY, MBytes (hash (gq_node_id r))); (INFO_HASH_KEY, MBytes (hash (gq_info_hash r)))]
  | MsgRequest (RqAnnouncePeer r) => request_value (aq_trans_id r) ANNOUNCE_PEER_TYPE_KEY (announce_args r)
  | MsgResponse (RsPing r) => response_value (ps_trans_id r) [(NODE_ID_KEY, MBytes (hash (ps_node_id r)))]
  | MsgResponse (RsFindNode r) => response_value (fs_trans_id r)
      [(NODE_ID_KEY, MBytes (hash (fs_node_id r))); (NODES_KEY, MBytes (cn_nodes (fs_nodes r)))]
  | MsgResponse (RsGetPeers r) =>
      MDict [(REQUEST_TYPE_KEY, MBytes GET_PEERS_TYPE_KEY); (RESPONSE_ARGS_KEY, MDict (get_peers_args r));
             (TRANSACTION_ID_KEY, MBytes (gs_trans_id r)); (MESSAGE_TYPE_KEY, MBytes RESPONSE_TYPE_KEY)]
  | MsgResponse (RsAnnouncePeer r) => response_value (as_trans_id r) [(NODE_ID_KEY, MBytes (hash (as_node_id r)))]
  | MsgError e =>
      MDict [(ERROR_TYPE_KEY, MList [MInt (ErrorCode_to_u8 (em_code e)); MBytes (em_message e)]);
             (TRANSACTION_ID_KEY, MBytes (em_trans_id e)); (MESSAGE_TYPE_KEY, MBytes ERROR_TYPE_KEY)]
  end.

Lemma push_all (l acc : list BencodeMut) : foldl list_push acc l = acc ++ l.
Proof.
  revert acc. induction l as [|x l IH]; intros acc; simpl; [by rewrite app_nil_r|].
  rewrite IH. unfold list_push. by rewrite <- app_assoc.
Qed.

Lemma ben_list_id (l : list BencodeMut) : ben_list l = MList l.
Proof. unfold ben_list. by rewrite push_all. Qed.

Lemma get_peers_args_map r : ben_map (get_peers_args r) = MDict (get_peers_args r).
Proof. destruct r as [t i [tok|] [n|v|n v]]; reflexivity. Qed.

Lemma message_encode_value m : message_encode m = BencodeMut_encode (message_value m).
Proof.
  destruct m as [[r|r|r|r]|[r|r|r|r]|e]; try reflexivity.
  - destruct r as [t i h k [|n]]; reflexivity.
  - cbn [message_encode]. unfold GetPeersResponse_encode. by rewrite get_peers_args_map.
Qed.

(** * Well-formed messages *)

Abbreviation small l := (is_i64 (Z.of_nat (length l))) (only parsing).

Definition is_hash (h : ShaHash) : Prop := length (hash h) = SHA_HASH_LEN.

(** The bounds of the field types: hashes of 20 bytes, ports of 16 bits, texts
    in UTF-8; compact nodes and values as their constructors leave them. *)
Definition wf_nodes (n : CompactNodeInfo) : Prop :=
  length (cn_nodes n) mod BYTES_PER_COMPACT_NODE_INFO = 0 ∧ small (cn_nodes n).
Definition wf_values (v : CompactValueInfo BencodeMut) : Prop :=
  Forall (λ b, ∃ s, b = MBytes s ∧ length s = BYTES_PER_COMPACT_IP) (cv_values v).
Definition wf_info (i : CompactInfoType BencodeMut) : Prop :=
  match i with Nodes n => wf_nodes n | Values v => wf_values v | Both n v => wf_nodes n ∧ wf_values v end.

Definition wf_message (m : MessageType BencodeMut) : Prop :=
  match m with
  | MsgRequest (RqPing r) => small (pq_trans_id r) ∧ is_hash (pq_node_id r)
  | MsgRequest (RqFindNode r) => small (fq_trans_id r) ∧ is_hash (fq_node_id r) ∧ is_hash (fq_target_id r)
  | MsgRequest (RqGetPeers r) => small (gq_trans_id r) ∧ is_hash (gq_node_id r) ∧ is_hash (gq_info_hash r)
  | MsgRequest (RqAnnouncePeer r) =>
      small (aq_trans_id r) ∧ is_hash (aq_node_id r) ∧ is_hash (aq_info_hash r) ∧ small (aq_token r) ∧
      match aq_port r with Implied => True | Explicit p => is_u16 p end
  | MsgResponse (RsPing r) => small (ps_trans_id r) ∧ is_hash (ps_node_id r)
  | MsgResponse (RsFindNode r) => small (fs_trans_id r) ∧ is_hash (fs_node_id r) ∧ wf_nodes (fs_nodes r)
  | MsgResponse (RsGetPeers r) =>
      small (gs_trans_id r) ∧ is_hash (gs_node_id r) ∧ (∀ t, gs_token r = Some t → small t) ∧ wf_info (gs_info_type r)
  | MsgResponse (RsAnnouncePeer r) => small (as_trans_id r) ∧ is_hash (as_node_id r)
  | MsgError e => small (em_trans_id e) ∧ small (em_message e) ∧ utf8_valid (em_message e) = true
  end.

(** The transaction of a response and the kind it answers. *)
Definition expects (f : bytes → ExpectedResponse) (m : MessageType BencodeMut) : Prop :=
  match m with
  | MsgResponse (RsPing r) => f (ps_trans_id r) = ExpPing
  | MsgResponse (RsFindNode r) => f (fs_trans_id r) = ExpFindNode
  | MsgResponse (RsGetPeers r) => f (gs_trans_id r) = ExpGetPeers
  | MsgResponse (RsAnnouncePeer r) => f (as_trans_id r) = ExpAnnouncePeer
  | _ => True
  end.

Lemma small_nat (l : bytes) n : length l = n → n ≤ 1000 → small l.
Proof. intros -> Hn. unfold is_i64, i64_min, i64_max. lia. Qed.

Lemma hash_small h : is_hash h → small (hash h).
Proof. intros Hh. eapply small_nat; [exact Hh|unfold SHA_HASH_LEN; lia]. Qed.

(** Dictionary entries of bounded height. *)
Definition kv_ok (n : nat) (kv : bytes * BencodeMut) : Prop := small kv.1 ∧ wf_value kv.2 ∧ height kv.2 ≤ n.

Lemma max_heights (d : entries) n : Forall (λ kv, height kv.2 ≤ n) d → height (MDict d) ≤ S n.
Proof.
  intros Hd. simpl. apply le_n_S. induction Hd as [|[k v] d Hv _ IH]; csimpl; [lia|].
  apply Nat.max_lub; [exact Hv|exact IH].
Qed.

Lemma dict_ok n k d : small k → bt_sorted d → Forall (kv_ok n) d → kv_ok (S n) (k, MDict d).
Proof.
  intros Hk Hs Hd. split; [done|]. split.
  - apply wf_dict_Forall. split; [done|]. eapply Forall_impl; [exact Hd|]. by intros kv (? & ? & _).
  - apply max_heights. eapply Forall_impl; [exact Hd|]. by intros kv (_ & _ & ?).
Qed.

Lemma bytes_ok n k l : small k → small l → kv_ok (S n) (k, MBytes l).
Proof. intros. split; [done|]. split; [done|]. simpl. lia. Qed.
Lemma int_ok n k z : small k → is_i64 z → kv_ok (S n) (k, MInt z).
Proof. intros. split; [done|]. split; [done|]. simpl. lia. Qed.
Lemma values_ok n k v : small k → wf_values v → kv_ok (S (S n)) (k, ben_list (cv_values v)).
Proof.
  intros Hk Hv. rewrite ben_list_id. split; [done|]. unfold wf_values in Hv. split.
  - apply wf_list_Forall. eapply Forall_impl; [exact Hv|]. intros b (s & -> & Hs). simpl.
    eapply small_nat; [exact Hs|unfold BYTES_PER_COMPACT_IP; lia].
  - simpl. apply le_n_S. transitivity 1; [|lia].
    induction Hv as [|b l (s & -> & _) _ IH]; csimpl; [lia|]. apply Nat.max_lub; [lia|exact IH].
Qed.

(** The keys are concrete: their order and lengths are computed. *)
Ltac small_const := solve [eapply small_nat; [reflexivity|simpl; lia]].
Ltac sorted_const := solve [unfold bt_sorted; repeat constructor].
Ltac entries_ok :=
  repeat match goal with
  | |- Forall (kv_ok _) [] => constructor
  | |- Forall (kv_ok _) (_ :: _) => apply Forall_cons; split
  | |- kv_ok _ (_, MBytes _) => apply bytes_ok
  | |- kv_ok _ (_, MInt _) => apply int_ok
  | |- kv_ok _ (_, MDict _) => apply dict_ok
  | |- kv_ok _ (_, ben_list _) => apply values_ok
  | |- small (hash _) => by apply hash_small
  | |- small _ => first [small_const|fail 1]
  | |- bt_sorted _ => sorted_const
  end; eauto.

Lemma is_u16_i64 n : is_u16 n → is_i64 n.
Proof. unfold is_u16, is_i64, i64_min, i64_max. lia. Qed.

Lemma get_peers_args_ok r :
  is_hash (gs_node_id r) → (∀ t, gs_token r = Some t → small t) → wf_info (gs_info_type r) →
  bt_sorted (get_peers_args r) ∧ Forall (kv_ok 2) (get_peers_args r).
Proof.
  intros Hi Ht Hw. unfold get_peers_args. split.
  - destruct (gs_token r), (gs_info_type r); repeat apply bt_insert_sorted; constructor.
  - destruct (gs_token r) as [tok|]; [specialize (Ht _ eq_refl)|]; destruct (gs_info_type r) as [n|v|n v];
      cbn [wf_info] in Hw; unfold wf_nodes in Hw; repeat apply bt_insert_Forall; unfold new_bytes; entries_ok; tauto.
Qed.

Lemma error_list_ok n e : small (em_message e) →
  kv_ok (2 + n) (ERROR_TYPE_KEY, MList [MInt (ErrorCode_to_u8 (em_code e)); MBytes (em_message e)]).
Proof.
  intros Hm. split; [small_const|]. split; [|simpl; lia]. split; [|done]. by destruct (em_code e).
Qed.

Lemma request_value_ok n t q args :
  small t → small q → bt_sorted args → Forall (kv_ok (S n)) args → kv_ok (3 + n) ([], request_value t q args).
Proof. intros. unfold request_value. entries_ok. Qed.

Lemma response_value_ok n t args :
  small t → bt_sorted args → Forall (kv_ok (S n)) args → kv_ok (3 + n) ([], response_value t args).
Proof. intros. unfold response_value. entries_ok. Qed.

Lemma message_value_ok m : wf_message m → wf_value (message_value m) ∧ height (message_value m) ≤ 4.
Proof.
  intros Hm. enough (kv_ok 4 ([], message_value m)) as (_ & ? & ?) by done.
  destruct m as [[r|r|r|r]|[r|r|r|r]|e]; cbn [wf_message message_value] in *; destruct_and?;
    try (apply request_value_ok || apply response_value_ok); entries_ok.
  - unfold announce_args. destruct (aq_port r); sorted_const.
  - unfold announce_args. destruct (aq_port r); entries_ok; try done. by apply is_u16_i64.
  - match goal with H : wf_nodes _ |- _ => apply H end.
  - by apply get_peers_args_ok.
  - by apply get_peers_args_ok.
  - by apply error_list_ok.
Qed.

(** * Reading the value back *)

Lemma from_hash_ok h : is_hash h → ShaHash_from_hash (hash h) = Ok h.
Proof. unfold is_hash, ShaHash_from_hash. intros ->. by destruct h. Qed.

Lemma request_id_ok t h : is_hash h → RequestValidate_node_id t (hash h) = Ok h.
Proof. intros Hh. unfold RequestValidate_node_id. by rewrite from_hash_ok. Qed.
Lemma request_info_hash_ok t h : is_hash h → RequestValidate_info_hash t (hash h) = Ok h.
Proof. intros Hh. unfold RequestValidate_info_hash. by rewrite from_hash_ok. Qed.
Lemma response_id_ok h : is_hash h → ResponseValidate_node_id (hash h) = Ok h.
Proof. intros Hh. unfold ResponseValidate_node_id. by rewrite from_hash_ok. Qed.

Lemma validate_nodes_ok n : wf_nodes n → ResponseValidate_nodes (cn_nodes n) = Ok n.
Proof.
  intros [Hn _]. unfold ResponseValidate_nodes, CompactNodeInfo_new. rewrite Hn. by destruct n.
Qed.

Lemma check_values_ok (l : list BencodeMut) i :
  Forall (λ b, ∃ s, b = MBytes s ∧ length s = BYTES_PER_COMPACT_IP) l → check_values i l = Ok ().
Proof.
  intros Hl. revert i. induction Hl as [|b l (s & -> & Hs) _ IH]; intros i; [done|].
  cbn [check_values ben_bytes BencodeMut_access unwrap mbind res_bind]. rewrite Hs. apply IH.
Qed.

Lemma validate_values_ok v : wf_values v → ResponseValidate_values (cv_values v) = Ok v.
Proof.
  intros Hv. unfold ResponseValidate_values, CompactValueInfo_new. rewrite check_values_ok by exact Hv.
  replace (forallb _ _) with true; [by destruct v|]. symmetry. apply Is_true_true, forallb_True.
  eapply Forall_impl; [exact Hv|]. by intros b (s & -> & _).
Qed.

(** Looking up a concrete key of a dictionary with concrete keys computes. *)
Lemma read_request f t q args :
  utf8_valid q = true →
  MessageType_new (request_value t q args) f =
    MsgRequest <$> RequestType_from_parts [(REQUEST_ARGS_KEY, MDict args)] t q.
Proof.
  intros Hq. transitivity (ok_or (DhtBencode (WrongType REQUEST_TYPE_KEY EUtf8)) (str_from_utf8 q) ≫=
    λ q, MsgRequest (B:=BencodeMut) <$> RequestType_from_parts [(REQUEST_ARGS_KEY, MDict args)] t q); [reflexivity|].
  unfold str_from_utf8. by rewrite Hq.
Qed.

Lemma read_response f t args :
  MessageType_new (response_value t args) f =
    MsgResponse <$> ResponseType_from_parts [(RESPONSE_ARGS_KEY, MDict args)] t (f t).
Proof. reflexivity. Qed.

Lemma read_get_peers_response f r :
  MessageType_new (message_value (MsgResponse (RsGetPeers r))) f =
    MsgResponse <$> ResponseType_from_parts [(RESPONSE_ARGS_KEY, MDict (get_peers_args r))] (gs_trans_id r) (f (gs_trans_id r)).
Proof. reflexivity. Qed.

Ltac read_key t := let r := eval lazy -[hash cn_nodes cv_values aq_token] in t in change t with r.
Ltac read_keys :=
  repeat match goal with
  | |- context [get_bytes ?d ?k] => read_key (get_bytes d k)
  | |- context [lookup_and_convert_list ?e ?d ?k] => read_key (lookup_and_convert_list e d k)
  | |- context [lookup_and_convert_dict ?e ?d ?k] => read_key (lookup_and_convert_dict e d k)
  | |- context [lookup_and_convert_int ?e ?d ?k] => read_key (lookup_and_convert_int e d k)
  | |- context [ben_int <$> dict_lookup ?d ?k] => read_key (ben_int <$> dict_lookup d k)
  end; cbn [mbind res_bind].
Ltac read_fields :=
  repeat (read_keys; rewrite ?request_id_ok, ?request_info_hash_ok, ?response_id_ok, ?validate_nodes_ok, ?validate_values_ok
    by done; cbn [mbind res_bind fmap res_fmap]).

Lemma get_peers_from_args r :
  is_hash (gs_node_id r) → wf_info (gs_info_type r) →
  GetPeersResponse_from_parts (get_peers_args r) (gs_trans_id r) = Ok r.
Proof.
  destruct r as [t i tok inf]. cbn [gs_node_id gs_info_type gs_trans_id]. intros Hi Hw.
  unfold GetPeersResponse_from_parts, get_peers_args. cbn [gs_node_id gs_info_type gs_token].
  destruct tok as [tok|], inf as [n|v|n v]; rewrite ?ben_list_id; cbn [wf_info] in Hw; try destruct Hw as [? ?];
    read_keys; rewrite response_id_ok, ?validate_nodes_ok, ?validate_values_ok by done; reflexivity.
Qed.

Lemma announce_from_args r :
  is_hash (aq_node_id r) → is_hash (aq_info_hash r) →
  match aq_port r with Implied => True | Explicit p => is_u16 p end →
  AnnouncePeerRequest_from_parts (announce_args r) (aq_trans_id r) = Ok r.
Proof.
  destruct r as [t i h k p]. cbn [aq_node_id aq_info_hash aq_port aq_trans_id]. intros Hi Hh Hp.
  unfold AnnouncePeerRequest_from_parts, announce_args. cbn [aq_node_id aq_info_hash aq_port].
  destruct p as [|n]; read_keys; rewrite request_id_ok, request_info_hash_ok by done; cbn; [done|].
  unfold is_u16 in Hp. unfold abs_as_u16, as_u16. by rewrite Z.abs_eq, Z.mod_small by lia.
Qed.

Lemma error_from_args f e :
  utf8_valid (em_message e) = true → MessageType_new (message_value (MsgError e)) f = Ok (MsgError e).
Proof.
  intros Hu. transitivity (MsgError (B:=BencodeMut) <$> ('(code, message) ← (message ← ok_or (DhtBencode (WrongType (ERROR_ARGS_KEY ++ bstr "[1]") EUtf8))
      (str_from_utf8 (em_message e)); Ok (as_u8 (Z.abs (ErrorCode_to_u8 (em_code e))), message));
    error_code ← ErrorCode_new code;
    Ok {| em_trans_id := em_trans_id e; em_code := error_code; em_message := message |})); [reflexivity|].
  unfold str_from_utf8. rewrite Hu. by destruct e as [t [] m].
Qed.

Ltac reads_as t := transitivity t; [reflexivity|].

Lemma read_requests f r :
  wf_message (MsgRequest r) → MessageType_new (message_value (MsgRequest r)) f = Ok (MsgRequest r).
Proof.
  destruct r as [r|r|r|r]; intros Hw; cbn [wf_message message_value] in *; destruct_and? Hw;
    rewrite read_request by reflexivity.
  - by reads_as (MsgRequest (B:=BencodeMut) <$> (RqPing <$> (i ← RequestValidate_node_id (pq_trans_id r) (hash (pq_node_id r));
      Ok {| pq_trans_id := pq_trans_id r; pq_node_id := i |}))); rewrite request_id_ok by done; destruct r.
  - by reads_as (MsgRequest (B:=BencodeMut) <$> (RqFindNode <$> (i ← RequestValidate_node_id (fq_trans_id r) (hash (fq_node_id r));
      j ← RequestValidate_node_id (fq_trans_id r) (hash (fq_target_id r));
      Ok {| fq_trans_id := fq_trans_id r; fq_node_id := i; fq_target_id := j |})));
      rewrite !request_id_ok by done; destruct r.
  - by reads_as (MsgRequest (B:=BencodeMut) <$> (RqGetPeers <$> (i ← RequestValidate_node_id (gq_trans_id r) (hash (gq_node_id r));
      j ← RequestValidate_info_hash (gq_trans_id r) (hash (gq_info_hash r));
      Ok {| gq_trans_id := gq_trans_id r; gq_node_id := i; gq_info_hash := j |})));
      rewrite request_id_ok, request_info_hash_ok by done; destruct r.
  - by reads_as (MsgRequest (B:=BencodeMut) <$> (RqAnnouncePeer <$> AnnouncePeerRequest_from_parts (announce_args r) (aq_trans_id r)));
      rewrite announce_from_args.
Qed.

Lemma read_responses f r : wf_message (MsgResponse r) → expects f (MsgResponse r) →
  MessageType_new (message_value (MsgResponse r)) f = Ok (MsgResponse r).
Proof.
  destruct r as [r|r|r|r]; intros Hw Hf; cbn [wf_message expects] in *; destruct_and? Hw;
    [cbn [message_value]; rewrite read_response, Hf..|rewrite read_get_peers_response, Hf|
     cbn [message_value]; rewrite read_response, Hf].
  - by reads_as (MsgResponse (B:=BencodeMut) <$> (RsPing <$> (q ← (i ← RequestValidate_node_id (ps_trans_id r) (hash (ps_node_id r));
      Ok {| pq_trans_id := ps_trans_id r; pq_node_id := i |}); Ok {| ps_trans_id := pq_trans_id q; ps_node_id := pq_node_id q |})));
      rewrite request_id_ok by done; destruct r.
  - by reads_as (MsgResponse (B:=BencodeMut) <$> (RsFindNode <$> (i ← ResponseValidate_node_id (hash (fs_node_id r));
      n ← ResponseValidate_nodes (cn_nodes (fs_nodes r));
      Ok {| fs_trans_id := fs_trans_id r; fs_node_id := i; fs_nodes := n |})));
      rewrite response_id_ok, validate_nodes_ok by done; destruct r.
  - by reads_as (MsgResponse (B:=BencodeMut) <$> (RsGetPeers <$> GetPeersResponse_from_parts (get_peers_args r) (gs_trans_id r)));
      rewrite get_peers_from_args.
  - by reads_as (MsgResponse (B:=BencodeMut) <$> (RsAnnouncePeer <$> (i ← RequestValidate_node_id (as_trans_id r) (hash (as_node_id r));
      Ok {| as_trans_id := as_trans_id r; as_node_id := i |})));
      rewrite request_id_ok by done; destruct r.
Qed.

Lemma read_message m f : wf_message m → expects f m → MessageType_new (message_value m) f = Ok m.
Proof.
  destruct m as [r|r|e]; [intros; by apply read_requests|apply read_responses|].
  intros (_ & _ & Hu) _. by apply error_from_args.
Qed.

(** Claim C33. Every KRPC message the node writes (the four requests, the four
    responses, the error) is read back as itself: its bytes decode with the
    default options, and the decoded dictionary gives the message, a response
    being read with the kind the transaction was registered for. *)
Theorem dht_message_roundtrip m f : wf_message m → expects f m →
  ∃ v m', BencodeRef_decode (message_encode m) BDecodeOpt_default = Ok v ∧
    MessageType_new v f = Ok m' ∧ message_erase m' = m.
Proof.
  intros Hw Hf. destruct (message_value_ok m Hw) as [Hv Hh]. rewrite message_encode_value.
  destruct (decode_encode_prefix BDecodeOpt_default (message_value m) [] Hv) as (v & Hd & He & _);
    [etransitivity; [exact Hh|simpl; lia]|by right|].
  rewrite app_nil_r in Hd. pose proof (message_new_erase v f) as Hr. rewrite He, read_message in Hr by done.
  destruct (MessageType_new v f) as [m'| |] eqn:Hm; simplify_eq/=. by exists v, m'.
Qed.

Definition sample_id : ShaHash := {| hash := replicate 20 7%Z |}.
Definition sample_peers : MessageType BencodeMut :=
  MsgResponse (RsGetPeers (Build_GetPeersResponse (bstr "aa") sample_id (Some (bstr "tok"))
    (Both {| cn_nodes := replicate 26 9%Z |} {| cv_values := [MBytes [127; 0; 0; 1; 26; 225]%Z] |}))).

Lemma dht_message_roundtrip_witness :
  wf_message sample_peers ∧ expects (λ _, ExpGetPeers) sample_peers ∧
  ∃ v m', BencodeRef_decode (message_encode sample_peers) BDecodeOpt_default = Ok v ∧
    MessageType_new v (λ _, ExpGetPeers) = Ok m' ∧ message_erase m' = sample_peers.
Proof.
  assert (Hw : wf_message sample_peers).
  { cbn. unfold is_hash, wf_nodes, wf_values, is_i64, i64_min, i64_max. cbn. split_and!; try lia; try reflexivity.
    - intros t [= <-]. cbn. lia.
    - apply Forall_singleton. by eexists _. }
  split; [exact Hw|]. split; [reflexivity|]. apply (dht_message_roundtrip sample_peers (λ _, ExpGetPeers)); [exact Hw|reflexivity].
Defined.

(** * Compact nodes *)

Definition compact_bytes (p : ShaHash * SocketAddrV4) : bytes := hash p.1 ++ sock_v4_to_bytes_be p.2.
Definition compact_ok (p : ShaHash * SocketAddrV4) : Prop := is_hash p.1 ∧ wf_sock_v4 p.2.

Lemma compact_length p : compact_ok p → length (compact_bytes p) = BYTES_PER_COMPACT_NODE_INFO.
Proof. destruct p as [i [[a b c d] q]]. intros [Hi _]. unfold compact_bytes. rewrite length_app. by rewrite Hi. Qed.

Lemma index_slice_app {E} (p m s : bytes) i j :
  i = length p → j = length p + length m → index_slice (E:=E) (p ++ m ++ s) i j = Ok m.
Proof.
  intros Hi Hj. unfold index_slice. rewrite slice_app by done.
  rewrite !length_app, (proj2 (Nat.leb_le i j)), (proj2 (Nat.leb_le j _)) by lia. done.
Qed.

Lemma socket_from_bytes s : wf_sock_v4 s → socket_v4_from_bytes_be (sock_v4_to_bytes_be s) = Ok s.
Proof.
  destruct s as [[a b c d] q]. intros [_ Hq]. cbn [v4_port] in Hq. unfold socket_v4_from_bytes_be, sock_v4_to_bytes_be. simpl.
  unfold port_to_bytes_be. simpl. rewrite Z.lor_0_l. by rewrite u16_split.
Qed.

Lemma parts_of_compact p : compact_ok p → parts_from_compact_info (compact_bytes p) = Ok p.
Proof.
  destruct p as [i s]. intros [Hi Hs]. unfold parts_from_compact_info, compact_bytes. cbn [fst snd] in *.
  pose proof (index_slice_app (E:=False) [] (hash i) (sock_v4_to_bytes_be s) 0 NODE_ID_LEN) as Hid.
  cbn [app] in Hid. rewrite Hid by (rewrite ?Hi; done). cbn [mbind res_bind]. rewrite from_hash_ok by done.
  cbn [unwrap_res mbind res_bind].
  rewrite <- (app_nil_r (sock_v4_to_bytes_be s)), (index_slice_app (hash i) (sock_v4_to_bytes_be s) []);
    [|by rewrite Hi|rewrite Hi; by destruct s as [[] ?]].
  cbn [mbind res_bind]. by rewrite socket_from_bytes.
Qed.

Lemma collect_compact l pre : Forall compact_ok l →
  CompactNodeInfoIter_collect (S (length l)) {| cni_nodes := pre ++ concat (compact_bytes <$> l); cni_pos := length pre |} = Ok l.
Proof.
  intros Hl. revert pre. induction Hl as [|p l Hp Hl IH]; intros pre.
  - cbn [fmap list_fmap concat]. rewrite app_nil_r. cbn [length CompactNodeInfoIter_collect]. unfold CompactNodeInfoIter_next. cbn [cni_pos cni_nodes].
    by rewrite Nat.eqb_refl.
  - cbn [fmap list_fmap concat]. cbn [length]. remember (S (length l)) as fuel eqn:Hf. cbn [CompactNodeInfoIter_collect].
    unfold CompactNodeInfoIter_next at 1. cbn [cni_pos cni_nodes]. pose proof (compact_length p Hp) as Hlen.
    rewrite !length_app, Hlen. rewrite (proj2 (Nat.eqb_neq _ _)) by (unfold BYTES_PER_COMPACT_NODE_INFO; lia).
    rewrite index_slice_app by (rewrite ?Hlen; done). cbn [mbind res_bind]. rewrite parts_of_compact by done. cbn [mbind res_bind].
    specialize (IH (pre ++ compact_bytes p)). rewrite length_app, Hlen, <- app_assoc in IH. rewrite IH. done.
Qed.

Lemma chunk_compact (c : bytes) : are_u8 c → length c = BYTES_PER_COMPACT_NODE_INFO →
  ∃ p, compact_ok p ∧ compact_bytes p = c.
Proof.
  intros Hc Hl. rewrite <- (take_drop 20 c). set (h := take 20 c). assert (Hh : length h = 20).
  { unfold h. rewrite length_take, Hl. done. }
  assert (Hd : length (drop 20 c) = 6) by (rewrite length_drop, Hl; done).
  assert (Hu : are_u8 (drop 20 c)) by (by apply Forall_drop).
  destruct (drop 20 c) as [|a [|b [|e [|d [|x [|y [|]]]]]]]; try done.
  repeat (apply are_u8_cons in Hu as [? Hu]).
  destruct (u16_join x y) as (Hq & Hx & Hy); [done..|].
  exists ({| hash := h |}, {| v4_ip := Ipv4 a b e d; v4_port := Z.lor (as_u16 (Z.shiftl x 8)) y |}).
  split; [split; [done|split; [|done]]|].
  { change (are_u8 [a; b; e; d]). by repeat (apply are_u8_cons; split; [done|]). }
  unfold compact_bytes, sock_v4_to_bytes_be, port_to_bytes_be. cbn [fst snd hash v4_ip v4_port]. f_equal.
  simpl. by rewrite Hx, Hy.
Qed.

Lemma chunks_compact n (l : bytes) : are_u8 l → length l = n * BYTES_PER_COMPACT_NODE_INFO →
  ∃ ps, Forall compact_ok ps ∧ length ps = n ∧ concat (compact_bytes <$> ps) = l.
Proof.
  revert l. induction n as [|n IH]; intros l Hl Hn.
  - exists []. split_and!; [done|done|]. symmetry. by apply nil_length_inv.
  - destruct (chunk_compact (take BYTES_PER_COMPACT_NODE_INFO l)) as (p & Hp & Hb).
    { by apply Forall_take. } { rewrite length_take. lia. }
    destruct (IH (drop BYTES_PER_COMPACT_NODE_INFO l)) as (ps & Hps & Hlen & Hc).
    { by apply Forall_drop. } { rewrite length_drop. lia. }
    exists (p :: ps). split_and!; [by constructor|simpl; lia|]. cbn [fmap list_fmap concat]. rewrite Hb.
    change (concat _) with (concat (compact_bytes <$> ps)). rewrite Hc. apply take_drop.
Qed.

(** A list of compact nodes that passes validation can be walked
    without a panic: the iterator ends after one step per 26 bytes, and the
    nodes it hands out encode to the received bytes; conversely the compact
    form of any nodes passes validation and gives those nodes back. *)
Theorem compact_nodes_iterate :
  (∀ b ci, are_u8 b → CompactNodeInfo_new b = Ok ci →
    ∃ ps, CompactNodeInfoIter_collect (S (length b / BYTES_PER_COMPACT_NODE_INFO)) (CompactNodeInfo_into_iter ci) = Ok ps ∧
      Forall compact_ok ps ∧ concat (compact_bytes <$> ps) = b) ∧
  (∀ ps, Forall compact_ok ps → ∃ ci, CompactNodeInfo_new (concat (compact_bytes <$> ps)) = Ok ci ∧
    CompactNodeInfoIter_collect (S (length ps)) (CompactNodeInfo_into_iter ci) = Ok ps).
Proof.
  split.
  - intros b ci Hb Hn. unfold CompactNodeInfo_new in Hn. destruct (_ =? 0) eqn:E in Hn; simplify_eq.
    apply Nat.eqb_eq in E.
    pose proof (Nat.div_mod (length b) BYTES_PER_COMPACT_NODE_INFO ltac:(done)) as Hd. rewrite E in Hd.
    destruct (chunks_compact (length b / BYTES_PER_COMPACT_NODE_INFO) b Hb) as (ps & Hps & Hlen & Hc); [lia|].
    exists ps. split_and!; [|done|done]. rewrite <- Hlen. pose proof (collect_compact ps [] Hps) as H. rewrite Hc in H. exact H.
  - intros ps Hps. exists {| cn_nodes := concat (compact_bytes <$> ps) |}. split; [|exact (collect_compact ps [] Hps)].
    unfold CompactNodeInfo_new. replace (_ mod _) with 0; [done|]. symmetry.
    assert (Hl : length (concat (compact_bytes <$> ps)) = length ps * BYTES_PER_COMPACT_NODE_INFO).
    { induction Hps as [|p ps Hp Hps IH]; [done|]. cbn [fmap list_fmap concat length]. rewrite length_app, compact_length by done.
      change (concat _) with (concat (compact_bytes <$> ps)). rewrite IH. lia. }
    rewrite Hl. apply Nat.Div0.mod_mul.
Qed.

Lemma compact_nodes_iterate_witness :
  ∃ ps, CompactNodeInfoIter_collect 2 (CompactNodeInfo_into_iter {| cn_nodes := replicate 26 9%Z |}) = Ok ps ∧
    Forall compact_ok ps ∧ concat (compact_bytes <$> ps) = replicate 26 9%Z.
Proof.
  apply (proj1 compact_nodes_iterate (replicate 26 9%Z) {| cn_nodes := replicate 26 9%Z |}); [|reflexivity].
  apply Forall_replicate. unfold is_u8. lia.
Defined.

(** * Reading never panics *)

Section Total.
Context {B : Type} `{!BRefAccess B}.

Lemma ok_or_total {E A} (e : E) (o : option A) : no_panic (ok_or e o).
Proof. by destruct o. Qed.
Lemma map_err_total {E F A} (f : E → F) (r : res E A) : no_panic r → no_panic (res_map_err f r).
Proof. destruct r as [| |g]; [done|done|]. intros Hr. by destruct (Hr g). Qed.
Lemma fmap_total {E A C} (f : A → C) (r : res E A) : no_panic r → no_panic (f <$> r).
Proof. destruct r as [| |g]; [done|done|]. intros Hr. by destruct (Hr g). Qed.

Lemma lookup_total {E A} (he : BencodeConvertError → E) (d : list (bytes * B)) k (conv : B → res E A) :
  (∀ v, no_panic (conv v)) → no_panic (lookup he d k ≫= conv).
Proof. intros Hc. apply no_panic_bind; [|auto]. unfold lookup. destruct (dict_lookup d k); auto with rust. Qed.

Lemma get_bytes_total (d : list (bytes * B)) k : no_panic (get_bytes d k).
Proof. apply lookup_total. intros. apply ok_or_total. Qed.
Lemma lookup_dict_total (d : list (bytes * B)) k : no_panic (lookup_and_convert_dict DhtBencode d k).
Proof. apply lookup_total. intros. apply ok_or_total. Qed.
Lemma lookup_list_total (d : list (bytes * B)) k : no_panic (lookup_and_convert_list DhtBencode d k).
Proof. apply lookup_total. intros. apply ok_or_total. Qed.
Lemma lookup_str_total (d : list (bytes * B)) k : no_panic (lookup_and_convert_str DhtBencode d k).
Proof. apply lookup_total. intros. apply ok_or_total. Qed.
Lemma lookup_int_total (d : list (bytes * B)) k : no_panic (lookup_and_convert_int DhtBencode d k).
Proof. apply lookup_total. intros. apply ok_or_total. Qed.

Lemma from_hash_total l : no_panic (ShaHash_from_hash l).
Proof. unfold ShaHash_from_hash. case_match; auto with rust. Qed.
Lemma compact_new_total l : no_panic (CompactNodeInfo_new l).
Proof. unfold CompactNodeInfo_new. case_match; auto with rust. Qed.

Lemma check_values_total (l : list B) i :
  forallb (λ b, match ben_bytes b with Some _ => true | None => false end) l = true → no_panic (check_values i l).
Proof.
  revert i. induction l as [|b l IH]; intros i; cbn [forallb check_values]; [auto with rust|].
  intros [Hb Hl]%andb_prop. destruct (ben_bytes b) as [s|]; [|done]. cbn [unwrap mbind res_bind].
  destruct (negb _); [auto with rust|]. by apply IH.
Qed.

Lemma validate_values_total (l : list B) : no_panic (ResponseValidate_values l).
Proof.
  unfold ResponseValidate_values. destruct (forallb _ l) eqn:E; [|auto with rust]. apply map_err_total.
  unfold CompactValueInfo_new. apply no_panic_bind; [by apply check_values_total|auto with rust].
Qed.

Ltac total :=
  repeat first
    [ apply no_panic_Ok | apply no_panic_Err | apply fmap_total | apply from_hash_total | apply compact_new_total
    | apply map_err_total | apply ok_or_total | apply get_bytes_total | apply lookup_dict_total | apply lookup_list_total
    | apply lookup_str_total | apply lookup_int_total | apply validate_values_total
    | apply no_panic_bind; [|intros ? _] | case_match ].

Lemma request_total (d : list (bytes * B)) t q : no_panic (RequestType_from_parts d t q).
Proof.
  unfold RequestType_from_parts, PingRequest_from_parts, FindNodeRequest_from_parts, GetPeersRequest_from_parts,
    AnnouncePeerRequest_from_parts, RequestValidate_node_id, RequestValidate_info_hash. total.
Qed.

Lemma response_total (d : list (bytes * B)) t x : x ≠ ExpGetData → x ≠ ExpPutData → no_panic (ResponseType_from_parts d t x).
Proof.
  intros Hg Hp. unfold ResponseType_from_parts, PingResponse_from_parts, FindNodeResponse_from_parts,
    GetPeersResponse_from_parts, AnnouncePeerResponse_from_parts, PingRequest_from_parts, FindNodeResponse_new,
    RequestValidate_node_id, ResponseValidate_node_id, ResponseValidate_nodes.
  apply no_panic_bind; [total|]. intros r _. destruct x; [total..|done|done|total].
Qed.

Lemma error_total (d : list (bytes * B)) t : no_panic (ErrorMessage_from_parts d t).
Proof.
  unfold ErrorMessage_from_parts, extract_error_args, convert_int, convert_str, ErrorCode_new. total.
Qed.

Lemma message_read_no_panic (v : B) f : (∀ t, f t ≠ ExpGetData ∧ f t ≠ ExpPutData) → no_panic (MessageType_new v f).
Proof.
  intros Hf. unfold MessageType_new. apply no_panic_bind; [apply ok_or_total|]. intros d _.
  apply no_panic_bind; [apply get_bytes_total|]. intros t _. apply no_panic_bind; [apply lookup_str_total|]. intros y _.
  destruct (Hf t) as [Hg Hp].
  case_match; [|case_match; [|case_match; [|apply no_panic_Err]]].
  - apply no_panic_bind; [apply lookup_str_total|]. intros q _. apply fmap_total, request_total.
  - by apply fmap_total, response_total.
  - apply fmap_total, error_total.
Qed.

(** Whatever dictionary arrives, reading it as a KRPC message gives a
    message or an error and never panics, as long as the node expects none of
    the two response kinds that have no reader (it never does). *)
Theorem message_read_total (v : B) f : (∀ t, f t ≠ ExpGetData ∧ f t ≠ ExpPutData) → no_panic (MessageType_new v f).
Proof. apply message_read_no_panic. Qed.
End Total.

Lemma message_read_total_witness : no_panic (MessageType_new (MBytes (bstr "x")) (λ _, ExpNone)).
Proof. apply (message_read_total (MBytes (bstr "x")) (λ _, ExpNone)). by intros t. Defined.

(** * Narrowed integers *)

(** An announced port or an error code is not checked against its
    width: an announcement with port [n] is taken as one for [|n| mod 65536]. *)
Theorem announce_port_truncated t i h k n :
  is_hash i → is_hash h →
  AnnouncePeerRequest_from_parts (B:=BencodeMut)
    [(NODE_ID_KEY, MBytes (hash i)); (INFO_HASH_KEY, MBytes (hash h)); (PORT_KEY, MInt n); (TOKEN_KEY, MBytes k)] t =
  Ok {| aq_trans_id := t; aq_node_id := i; aq_info_hash := h; aq_token := k; aq_port := Explicit (Z.abs n mod 65536) |}.
Proof.
  intros Hi Hh. unfold AnnouncePeerRequest_from_parts. read_keys.
  by rewrite request_id_ok, request_info_hash_ok by done.
Qed.

Lemma announce_port_truncated_witness :
  ∃ r, AnnouncePeerRequest_from_parts (B:=BencodeMut)
    [(NODE_ID_KEY, MBytes (hash sample_id)); (INFO_HASH_KEY, MBytes (hash sample_id)); (PORT_KEY, MInt (-65537)); (TOKEN_KEY, MBytes [])]
    [] = Ok r ∧ aq_port r = Explicit 1.
Proof.
  eexists. split; [apply (announce_port_truncated [] sample_id sample_id [] (-65537)); reflexivity|reflexivity].
Defined.
