(* ===== verification/Worker.v ===== *)
(** packages/dht/src/worker/mod.rs and refresh.rs, and router.rs: what the
    actions of a DHT node share, and the periodic refresh of the table.

    A [World] is what an action acts on besides its own state: the routing
    table, the channel to the outgoing messenger, the timers it has spawned and
    the position in the sequence of shuffles.  A channel keeps what was sent
    through it; its receiver may go away, after which every send fails.

    The cells of a node are shared between its clones, the table holding one of
    them: marking a node is an update of the slot of the table that holds it.
    An action keeps clones of nodes for their id and address only. *)

From stdpp Require Import base numbers strings gmap list.
From S2P Require Import Prelude RustStd Extern Convert Sha Node RoutingTable Transaction Storage Bencode DhtMessage.

(** * Tasks and events (worker/mod.rs) *)

Inductive ShutdownCause := BootstrapFailed | ClientInitiated | Unspecified.

Inductive DhtEvent := BootstrapCompleted | LookupCompleted (info_hash : ShaHash) | ShuttingDown (cause : ShutdownCause).

Inductive ScheduledTaskCheck :=
  | CheckTableRefresh (t : TransactionID)
  | CheckBootstrapTimeout (t : TransactionID)
  | CheckLookupTimeout (t : TransactionID)
  | CheckLookupEndGame (t : TransactionID).

(** * Routers (router.rs)

    [to_socket_addrs] resolves a host name: an input. *)

Inductive Router := uTorrent | BitTorrent | BitComet | Transmission | CustomRouter (addr : SocketAddr).

Definition UTORRENT_DHT : bytes * Z := (bstr "router.utorrent.com", 6881%Z).
Definition BITTORRENT_DHT : bytes * Z := (bstr "router.bittorrent.com", 6881%Z).
Definition BITCOMET_DHT : bytes * Z := (bstr "router.bitcomet.com", 6881%Z).
Definition TRANSMISSION_DHT : bytes * Z := (bstr "dht.transmissionbt.com", 6881%Z).

Definition map_ipv4 (addr : SocketAddr) : option SocketAddrV4 := match addr with SockV4 n => Some n | SockV6 _ => None end.
Definition map_ipv6 (addr : SocketAddr) : option SocketAddrV6 := match addr with SockV4 _ => None | SockV6 n => Some n end.

(** [Iterator::find_map] *)
Fixpoint find_map {A B} (f : A → option B) (l : list A) : option B :=
  match l with [] => None | x :: l' => match f x with Some b => Some b | None => find_map f l' end end.

Inductive RouterError := ResolveError | NoAddressFound.

Section Router.
Context (to_socket_addrs : bytes * Z → option (list SocketAddr)).

Definition router_socket_addrs (self : Router) : res RouterError (list SocketAddr) :=
  match self with
  | uTorrent => ok_or ResolveError (to_socket_addrs UTORRENT_DHT)
  | BitTorrent => ok_or ResolveError (to_socket_addrs BITTORRENT_DHT)
  | BitComet => ok_or ResolveError (to_socket_addrs BITCOMET_DHT)
  | Transmission => ok_or ResolveError (to_socket_addrs TRANSMISSION_DHT)
  | CustomRouter addr => Ok [addr]
  end.

Definition router_ipv4_addr (self : Router) : res RouterError SocketAddrV4 :=
  addrs ← router_socket_addrs self; ok_or NoAddressFound (find_map map_ipv4 addrs).

Definition router_ipv6_addr (self : Router) : res RouterError SocketAddrV6 :=
  addrs ← router_socket_addrs self; ok_or NoAddressFound (find_map map_ipv6 addrs).

Definition router_socket_addr (self : Router) : res RouterError SocketAddr :=
  addrs ← router_socket_addrs self; ok_or NoAddressFound (head addrs).
End Router.

(** * Channels

    [room]: how many more sends the receiver is there for, if it goes away. *)

Record Chan (A : Type) := { sent : list A; room : option nat }.
Arguments sent {A} _.
Arguments room {A} _.
Arguments Build_Chan {A} _ _.

Definition chan_send {A} (c : Chan A) (x : A) : Chan A * bool :=
  match room c with
  | Some O => (c, false)
  | Some (S n) => ({| sent := sent c ++ [x]; room := Some n |}, true)
  | None => ({| sent := sent c ++ [x]; room := None |}, true)
  end.

(** * The world of an action *)

Record World := {
  w_table : RoutingTable;
  w_out : Chan (bytes * SocketAddr);
  w_timers : list (Z * ScheduledTaskCheck);
  w_seed : nat
}.

Definition set_table (w : World) (t : RoutingTable) : World :=
  {| w_table := t; w_out := w_out w; w_timers := w_timers w; w_seed := w_seed w |}.

Definition send_out (w : World) (m : bytes * SocketAddr) : World * bool :=
  let '(c, ok) := chan_send (w_out w) m in
  ({| w_table := w_table w; w_out := c; w_timers := w_timers w; w_seed := w_seed w |}, ok).

(** [tasks.spawn(async { sleep(ms).await; sender.send(check).await })] *)
Definition spawn_timer (w : World) (ms : Z) (check : ScheduledTaskCheck) : World :=
  {| w_table := w_table w; w_out := w_out w; w_timers := w_timers w ++ [(ms, check)]; w_seed := w_seed w |}.

(** [table.read().unwrap().find_node(node)] followed by an update of what was
    found: the first matching pingable slot of the bucket it looks in. *)
Fixpoint update_first {A} (p : A → bool) (f : A → A) (l : list A) : list A :=
  match l with [] => [] | x :: l' => if p x then f x :: l' else x :: update_first p f l' end.

Definition Bucket_update (p : Node → bool) (f : Node → Node) (b : Bucket) : Bucket := {| nodes := update_first p f (nodes b) |}.

(** The bucket [find_node] looks in: the last one for the local id itself. *)
Definition find_node_index (t : RoutingTable) (node : Node) : nat :=
  let i := leading_bit_count (node_id t) (id node) in
  if i <? MAX_BUCKETS then i else length (buckets t) - 1.

Section World.
Context `{Chrono} (now : Z) (draws : nat → nat → nat).

(** [id_generator.generate()], with the next shuffle of the sequence. *)
Definition world_generate (w : World) (g : MIDGenerator) : res False (World * MIDGenerator * TransactionID) :=
  '(g', t) ← MIDGenerator_generate (draws (w_seed w)) g;
  Ok ({| w_table := w_table w; w_out := w_out w; w_timers := w_timers w; w_seed := S (w_seed w) |}, g', t).

Definition mark_found (f : Node → Node) (t : RoutingTable) (node : Node) : res False RoutingTable :=
  found ← find_node now t node;
  match found with
  | None => Ok t
  | Some _ =>
      let p n := pingable_nodes_filter now n && Node_eq n node in
      Ok {| buckets := alter (Bucket_update p f) (find_node_index t node) (buckets t); node_id := node_id t |}
  end.

(** An update through a clone of a node the table holds: the slot it was cloned
    from. *)
Fixpoint mark_slot (f : Node → Node) (l : list Bucket) (node : Node) : list Bucket :=
  match l with
  | [] => []
  | b :: l' =>
      if bool_decide (node ∈ nodes b) then Bucket_update (λ n, bool_decide (n = node)) f b :: l'
      else b :: mark_slot f l' node
  end.

Definition mark_held (f : Node → Node) (t : RoutingTable) (node : Node) : RoutingTable :=
  {| buckets := mark_slot f (buckets t) node; node_id := node_id t |}.

(** Everything [closest_nodes(target)] yields; a table has at most
    [MAX_BUCKETS] buckets of [MAX_BUCKET_SIZE] nodes. *)
Definition closest_list (t : RoutingTable) (target : ShaHash) : res False (list Node) :=
  ClosestNodes_collect now (MAX_BUCKETS * MAX_BUCKET_SIZE + 1) (closest_nodes t target).
End World.

(** * The refresh of the table (refresh.rs) *)

Definition REFRESH_INTERVAL_TIMEOUT : Z := 6000.

Inductive RefreshStatus := Refreshing | RefreshFailed.

Record TableRefresh := { rf_id_generator : MIDGenerator; curr_refresh_bucket : nat }.

Definition TableRefresh_new (id_generator : MIDGenerator) : TableRefresh :=
  {| rf_id_generator := id_generator; curr_refresh_bucket := 0 |}.

(** Indexing the twenty bytes panics out of range. *)
Definition flip_id_bit_at_index (node_id : ShaHash) (index : nat) : res False ShaHash :=
  let id_bytes := hash node_id in
  let '(byte_index, bit_index) := (index / 8, index mod 8) in
  let actual_bit_index := 7 - bit_index in
  match id_bytes !! byte_index with
  | None => Panic IndexOutOfBounds
  | Some b => Ok {| hash := <[byte_index := Z.lxor b (Z.shiftl 1 (Z.of_nat actual_bit_index))]> id_bytes |}
  end.

Section Refresh.
Context `{Chrono} (now : Z) (draws : nat → nat → nat).

(** The [if let Some(node) = node] block; [None] is a failed send. *)
Definition refresh_ping (w : World) (g : MIDGenerator) (local target : ShaHash) (node : option Node) :
    res False (World * MIDGenerator * bool) :=
  match node with
  | None => Ok (w, g, true)
  | Some node =>
      '(w, g, t) ← world_generate draws w g;
      let find_node_msg := FindNodeRequest_encode
        {| fq_trans_id := trans_id_bytes t; fq_node_id := local; fq_target_id := target |} in
      let '(w, ok) := send_out w (find_node_msg, addr node) in
      if negb ok then Ok (w, g, false)
      else Ok (set_table w (mark_held (local_request now) (w_table w) node), g, true)
  end.

Definition continue_refresh (self : TableRefresh) (w : World) : res False (TableRefresh * World * RefreshStatus) :=
  let refresh_bucket := if curr_refresh_bucket self =? MAX_BUCKETS then 0 else curr_refresh_bucket self in
  let local := node_id (w_table w) in
  target_id ← flip_id_bit_at_index local refresh_bucket;
  closest ← closest_list now (w_table w) target_id;
  let node := List.find (λ n, bool_decide (status now n = Questionable)) closest in
  '(w, g, ok) ← refresh_ping w (rf_id_generator self) local target_id node;
  if negb ok then Ok ({| rf_id_generator := g; curr_refresh_bucket := refresh_bucket |}, w, RefreshFailed) else
  '(w, g, t) ← world_generate draws w g;
  let w := spawn_timer w REFRESH_INTERVAL_TIMEOUT (CheckTableRefresh t) in
  Ok ({| rf_id_generator := g; curr_refresh_bucket := refresh_bucket + 1 |}, w, Refreshing).
End Refresh.
