(* ===== verification/Lookup.v ===== *)
(** packages/dht/src/worker/lookup.rs: the iterative search for the peers of an
    info hash, and the announcement on the closest nodes at its end.

    Every operation is run by the single task of the DHT handler, so the locks
    and atomics are fields.  [now] and [instant] are the clocks an operation
    reads (wall clock and timer clock, in milliseconds); the deadlines kept
    with the active look-ups are never read. *)

From stdpp Require Import base numbers strings gmap list.
From S2P Require Import Prelude RustStd Extern Convert Sha Node RoutingTable Transaction Storage Bencode DhtMessage Worker.

Definition LOOKUP_TIMEOUT_MS : Z := 1500.
Definition ENDGAME_TIMEOUT_MS : Z := 1500.
Definition INITIAL_PICK_NUM : nat := 4.
Definition ITERATIVE_PICK_NUM : nat := 3.
Definition ANNOUNCE_PICK_NUM : nat := 8.

Inductive LookupStatus := Searching | FoundValues (values : list SocketAddrV4) | LookupDone | LookupFailed.

#[export] Instance LookupStatus_eq_dec : EqDecision LookupStatus.
Proof. solve_decision. Defined.

(** Maps and sets keyed by nodes, which hash and compare by id and address, as
    association lists; transactions are keyed by their number. *)
Record TableLookup := {
  lk_table_id : ShaHash;
  lk_target_id : ShaHash;
  lk_in_endgame : bool;
  lk_recv_values : bool;
  lk_id_generator : MIDGenerator;
  lk_will_announce : bool;
  active_lookups : gmap Z (ShaHash * Z);
  announce_tokens : list (Node * bytes);
  requested_nodes : list Node;
  all_sorted_nodes : list (ShaHash * Node * bool)
}.

Section Setters.
Context (s : TableLookup).
Definition set_endgame (b : bool) : TableLookup :=
  Build_TableLookup (lk_table_id s) (lk_target_id s) b (lk_recv_values s) (lk_id_generator s) (lk_will_announce s)
    (active_lookups s) (announce_tokens s) (requested_nodes s) (all_sorted_nodes s).
Definition set_recv_values (b : bool) : TableLookup :=
  Build_TableLookup (lk_table_id s) (lk_target_id s) (lk_in_endgame s) b (lk_id_generator s) (lk_will_announce s)
    (active_lookups s) (announce_tokens s) (requested_nodes s) (all_sorted_nodes s).
Definition set_generator (g : MIDGenerator) : TableLookup :=
  Build_TableLookup (lk_table_id s) (lk_target_id s) (lk_in_endgame s) (lk_recv_values s) g (lk_will_announce s)
    (active_lookups s) (announce_tokens s) (requested_nodes s) (all_sorted_nodes s).
Definition set_active (m : gmap Z (ShaHash * Z)) : TableLookup :=
  Build_TableLookup (lk_table_id s) (lk_target_id s) (lk_in_endgame s) (lk_recv_values s) (lk_id_generator s) (lk_will_announce s)
    m (announce_tokens s) (requested_nodes s) (all_sorted_nodes s).
Definition set_tokens (l : list (Node * bytes)) : TableLookup :=
  Build_TableLookup (lk_table_id s) (lk_target_id s) (lk_in_endgame s) (lk_recv_values s) (lk_id_generator s) (lk_will_announce s)
    (active_lookups s) l (requested_nodes s) (all_sorted_nodes s).
Definition set_requested (l : list Node) : TableLookup :=
  Build_TableLookup (lk_table_id s) (lk_target_id s) (lk_in_endgame s) (lk_recv_values s) (lk_id_generator s) (lk_will_announce s)
    (active_lookups s) (announce_tokens s) l (all_sorted_nodes s).
Definition set_sorted (l : list (ShaHash * Node * bool)) : TableLookup :=
  Build_TableLookup (lk_table_id s) (lk_target_id s) (lk_in_endgame s) (lk_recv_values s) (lk_id_generator s) (lk_will_announce s)
    (active_lookups s) (announce_tokens s) (requested_nodes s) l.
End Setters.

(** * Distances and picks *)

(** The derived order of [ShaHash]. *)
Definition sha_cmp (a b : ShaHash) : comparison := bytes_cmp (hash a) (hash b).
Definition sha_ltb (a b : ShaHash) : bool := match sha_cmp a b with Lt => true | _ => false end.

Definition entry_dist (e : ShaHash * Node * bool) : ShaHash := e.1.1.
Definition entry_node (e : ShaHash * Node * bool) : Node := e.1.2.
Definition entry_pinged (e : ShaHash * Node * bool) : bool := e.2.

Definition insert_sorted_node (nodes : list (ShaHash * Node * bool)) (target : ShaHash) (node : Node) (pinged : bool) :
    res False (list (ShaHash * Node * bool)) :=
  let node_dist := bitxor target (id node) in
  match binary_search_by (λ e, sha_cmp (entry_dist e) node_dist) nodes with
  | Found dup_index =>
      match nodes !! dup_index with
      | None => Panic IndexOutOfBounds
      | Some dup => if negb (Node_eq (entry_node dup) node) then vec_insert nodes dup_index (node_dist, node, pinged) else Ok nodes
      end
  | InsertAt ins_index => vec_insert nodes ins_index (node_dist, node, pinged)
  end.

Fixpoint insert_all (nodes : list (ShaHash * Node * bool)) (target : ShaHash) (l : list (Node * bool)) :
    res False (list (ShaHash * Node * bool)) :=
  match l with
  | [] => Ok nodes
  | (node, pinged) :: l' => nodes' ← insert_sorted_node nodes target node pinged; insert_all nodes' target l'
  end.

Definition default_pick : Node * bool := (as_bad {| hash := replicate NODE_ID_LEN 0%Z |} default_route_v4, false).

(** The picks and the marked list. *)
Fixpoint pick_initial_nodes (sorted_nodes : list (ShaHash * Node * bool)) (pick_nodes : list (Node * bool)) :
    list (ShaHash * Node * bool) * list (Node * bool) :=
  match sorted_nodes, pick_nodes with
  | (dist, node, _) :: sorted', _ :: picks' =>
      let '(sorted'', picks'') := pick_initial_nodes sorted' picks' in
      ((dist, node, true) :: sorted'', (node, true) :: picks'')
  | _, _ => (sorted_nodes, pick_nodes)
  end.

Fixpoint insert_closest_nodes (nodes : list (Node * bool)) (target_id : ShaHash) (new_node : Node) : list (Node * bool) :=
  match nodes with
  | [] => []
  | (old_node, used) :: nodes' =>
      if used then
        if sha_ltb (bitxor target_id (id new_node)) (bitxor target_id (id old_node)) then (new_node, true) :: nodes'
        else (old_node, true) :: insert_closest_nodes nodes' target_id new_node
      else (new_node, true) :: nodes'
  end.

Section Lookup.
Context `{Chrono} (now instant : Z) (draws : nat → nat → nat).

Definition node_of (info : ShaHash * SocketAddrV4) : Node := as_questionable now info.1 (SockV4 info.2).

Definition pick_iterate_nodes (unsorted_nodes : list (ShaHash * SocketAddrV4)) (target_id : ShaHash) : list (Node * bool) :=
  foldl (λ picks info, insert_closest_nodes picks target_id (node_of info))
    (replicate ITERATIVE_PICK_NUM default_pick) unsorted_nodes.

(** * Rounds *)

Definition current_lookup_status (self : TableLookup) : LookupStatus :=
  if lk_in_endgame self || negb (bool_decide (active_lookups self = ∅)) then Searching else LookupDone.

Definition get_peers_msg (self : TableLookup) (t : TransactionID) : bytes :=
  GetPeersRequest_encode {| gq_trans_id := trans_id_bytes t; gq_node_id := lk_table_id self; gq_info_hash := lk_target_id self |}.

(** The loop of [start_request_round]: the number of messages sent, or a failed
    send. *)
Fixpoint request_loop (self : TableLookup) (w : World) (nodes : list (Node * ShaHash)) (messages_sent : nat) :
    res False (TableLookup * World * option nat) :=
  match nodes with
  | [] => Ok (self, w, Some messages_sent)
  | (node, dist_to_beat) :: nodes' =>
      '(w, g, t) ← world_generate draws w (lk_id_generator self);
      let self := set_generator self g in
      let timeout := (instant + LOOKUP_TIMEOUT_MS)%Z in
      let self := set_active self (<[trans_id t := (dist_to_beat, timeout)]> (active_lookups self)) in
      let '(w, ok) := send_out w (get_peers_msg self t, addr node) in
      if negb ok then Ok (self, w, None) else
      let self := set_requested self (node :: requested_nodes self) in
      table ← mark_found now (local_request now) (w_table w) node;
      let w := spawn_timer (set_table w table) LOOKUP_TIMEOUT_MS (CheckLookupTimeout t) in
      request_loop self w nodes' (messages_sent + 1)
  end.

Definition start_request_round (self : TableLookup) (w : World) (nodes : list (Node * ShaHash)) :
    res False (TableLookup * World * LookupStatus) :=
  '(self, w, r) ← request_loop self w nodes 0;
  match r with
  | None => Ok (self, w, LookupFailed)
  | Some O => Ok (set_active self ∅, w, LookupDone)
  | Some _ => Ok (self, w, Searching)
  end.

(** The first loop of [start_endgame_round]: a transaction and a message for
    every node that was not asked; positions stand for the shared flags. *)
Fixpoint endgame_messages (self : TableLookup) (w : World) (i : nat) (l : list (ShaHash * Node * bool)) :
    res False (TableLookup * World * list (nat * Node * bytes)) :=
  match l with
  | [] => Ok (self, w, [])
  | (node_dist, node, req) :: l' =>
      if (req : bool) then endgame_messages self w (S i) l' else
      '(w, g, t) ← world_generate draws w (lk_id_generator self);
      let self := set_generator self g in
      let timeout := (instant + ENDGAME_TIMEOUT_MS)%Z in
      let self := set_active self (<[trans_id t := (node_dist, timeout)]> (active_lookups self)) in
      let msg := get_peers_msg self t in
      '(self, w, rest) ← endgame_messages self w (S i) l';
      Ok (self, w, (i, node, msg) :: rest)
  end.

Definition set_pinged (self : TableLookup) (i : nat) : TableLookup :=
  set_sorted self (alter (λ e : ShaHash * Node * bool, (entry_dist e, entry_node e, true)) i (all_sorted_nodes self)).

Fixpoint endgame_send (self : TableLookup) (w : World) (msgs : list (nat * Node * bytes)) :
    res False (TableLookup * World * LookupStatus) :=
  match msgs with
  | [] => Ok (self, w, Searching)
  | (i, node, msg) :: msgs' =>
      let '(w, ok) := send_out w (msg, addr node) in
      if negb ok then Ok (self, w, LookupFailed) else
      table ← mark_found now (local_request now) (w_table w) node;
      endgame_send (set_pinged self i) (set_table w table) msgs'
  end.

(** The scheduler handed in is not used. *)
Definition start_endgame_round (self : TableLookup) (w : World) : res False (TableLookup * World * LookupStatus) :=
  let self := set_endgame self true in
  if negb (lk_recv_values self) then
    '(self, w, msgs) ← endgame_messages self w 0 (all_sorted_nodes self);
    endgame_send self w msgs
  else Ok (self, w, Searching).

(** * Creation *)

Definition TableLookup_new (table_id target_id : ShaHash) (id_generator : MIDGenerator) (will_announce : bool) (w : World) :
    res False (World * option TableLookup) :=
  closest ← closest_list now (w_table w) target_id;
  let good := take MAX_BUCKET_SIZE (List.filter (λ n, bool_decide (status now n = Good)) closest) in
  all_sorted ← insert_all [] target_id ((λ n, (n, false)) <$> good);
  let '(all_sorted, picks) := pick_initial_nodes all_sorted (replicate INITIAL_PICK_NUM default_pick) in
  let filtered := (λ '(node, _), (node, bitxor (id node) target_id)) <$> List.filter snd picks in
  let table_lookup :=
    {| lk_table_id := table_id; lk_target_id := target_id; lk_in_endgame := false; lk_recv_values := false;
       lk_id_generator := id_generator; lk_will_announce := will_announce; active_lookups := ∅; announce_tokens := [];
       requested_nodes := []; all_sorted_nodes := all_sorted |} in
  '(table_lookup, w, st) ← start_request_round table_lookup w filtered;
  Ok (w, if bool_decide (st = LookupFailed) then None else Some table_lookup).

Definition lookup_info_hash (self : TableLookup) : ShaHash := lk_target_id self.

(** * Responses *)

(** [HashMap::insert] and look-ups by the equality of nodes. *)
Definition tokens_insert (l : list (Node * bytes)) (node : Node) (token : bytes) : list (Node * bytes) :=
  (node, token) :: List.filter (λ e, negb (Node_eq e.1 node)) l.
Definition tokens_get (l : list (Node * bytes)) (node : Node) : option bytes :=
  snd <$> List.find (λ e, Node_eq e.1 node) l.

Definition not_requested (self : TableLookup) (info : ShaHash * SocketAddrV4) : bool :=
  negb (existsb (λ n, Node_eq n (node_of info)) (requested_nodes self)).

(** The handling of the nodes of a response: the nodes to ask next, if any is
    closer, and the distance to beat. *)
Definition recv_nodes (self : TableLookup) (nodes : list (ShaHash * SocketAddrV4)) (dist_to_beat : ShaHash) :
    res False (TableLookup * option (list (Node * bool)) * ShaHash) :=
  let fresh := List.filter (not_requested self) nodes in
  let next_dist_to_beat :=
    foldl (λ closest info,
             let distance := bitxor (lk_target_id self) (fst info) in
             if sha_ltb distance closest then distance else closest) dist_to_beat fresh in
  if sha_ltb next_dist_to_beat dist_to_beat then
    let iterate_nodes := pick_iterate_nodes fresh (lk_target_id self) in
    let will_ping node := existsb (λ p, Node_eq p.1 node) iterate_nodes in
    l ← insert_all (all_sorted_nodes self) (lk_target_id self) ((λ info, (node_of info, will_ping (node_of info))) <$> nodes);
    Ok (set_sorted self l, Some iterate_nodes, next_dist_to_beat)
  else
    l ← insert_all (all_sorted_nodes self) (lk_target_id self) ((λ info, (node_of info, false)) <$> nodes);
    Ok (set_sorted self l, None, next_dist_to_beat).

Definition collect_nodes (n : CompactNodeInfo) : res False (list (ShaHash * SocketAddrV4)) :=
  CompactNodeInfoIter_collect (S (length (cn_nodes n))) (CompactNodeInfo_into_iter n).
Definition collect_values {B} `{!BRefAccess B} (v : CompactValueInfo B) : res False (list SocketAddrV4) :=
  CompactValueInfoIter_collect (S (length (cv_values v))) (CompactValueInfo_into_iter v).

(** The two checks outside the endgame; [None] is a failed send. *)
Definition continue_rounds (self : TableLookup) (w : World) (iterate_nodes : option (list (Node * bool)))
    (next_dist_to_beat : ShaHash) : res False (TableLookup * World * bool) :=
  if lk_in_endgame self then Ok (self, w, true) else
  '(self, w, ok) ←
    match iterate_nodes with
    | None => Ok (self, w, true)
    | Some nodes =>
        let filtered := (λ '(n, _), (n, next_dist_to_beat)) <$> List.filter snd nodes in
        '(self, w, st) ← start_request_round self w filtered;
        Ok (self, w, negb (bool_decide (st = LookupFailed)))
    end;
  if negb ok then Ok (self, w, false) else
  if bool_decide (active_lookups self = ∅) then
    '(self, w, st) ← start_endgame_round self w;
    Ok (self, w, negb (bool_decide (st = LookupFailed)))
  else Ok (self, w, true).

Definition lookup_recv_response {B} `{!BRefAccess B} (self : TableLookup) (w : World) (node : Node) (t : TransactionID)
    (msg : GetPeersResponse B) : res False (TableLookup * World * LookupStatus) :=
  match active_lookups self !! trans_id t with
  | None => Ok (self, w, current_lookup_status self)
  | Some (dist_to_beat, _) =>
      let self := set_active self (delete (trans_id t) (active_lookups self)) in
      let self := match gs_token msg with
                  | Some token => set_tokens self (tokens_insert (announce_tokens self) node token)
                  | None => self
                  end in
      '(self, opt_values, opt_nodes) ←
        match gs_info_type msg with
        | Nodes n => l ← collect_nodes n; Ok (self, None, Some l)
        | Values v => vs ← collect_values v; Ok (set_recv_values self true, Some vs, None)
        | Both n v => vs ← collect_values v; l ← collect_nodes n; Ok (self, Some vs, Some l)
        end;
      '(self, iterate_nodes, next_dist_to_beat) ←
        match opt_nodes with
        | Some nodes => recv_nodes self nodes dist_to_beat
        | None => Ok (self, None, dist_to_beat)
        end;
      '(self, w, ok) ← continue_rounds self w iterate_nodes next_dist_to_beat;
      if negb ok then Ok (self, w, LookupFailed) else
      Ok (self, w, match opt_values with Some vs => FoundValues vs | None => current_lookup_status self end)
  end.

Definition lookup_recv_timeout (self : TableLookup) (w : World) (t : TransactionID) :
    res False (TableLookup * World * LookupStatus) :=
  match active_lookups self !! trans_id t with
  | None => Ok (self, w, current_lookup_status self)
  | Some _ =>
      let self := set_active self (delete (trans_id t) (active_lookups self)) in
      if negb (lk_in_endgame self) && bool_decide (active_lookups self = ∅) then
        '(self, w, st) ← start_endgame_round self w;
        Ok (self, w, if bool_decide (st = LookupFailed) then LookupFailed else current_lookup_status self)
      else Ok (self, w, current_lookup_status self)
  end.

(** * The end: announcing *)

(** The first loop of [recv_finished]. *)
Fixpoint node_announces (self : TableLookup) (w : World) (handshake_port : Z) (l : list (Node * bytes)) :
    res False (TableLookup * World * list (Node * bytes)) :=
  match l with
  | [] => Ok (self, w, [])
  | (node, token) :: l' =>
      '(w, g, t) ← world_generate draws w (lk_id_generator self);
      let self := set_generator self g in
      let msg := AnnouncePeerRequest_encode
        {| aq_trans_id := trans_id_bytes t; aq_node_id := lk_table_id self; aq_info_hash := lk_target_id self;
           aq_token := token; aq_port := Explicit handshake_port |} in
      '(self, w, rest) ← node_announces self w handshake_port l';
      Ok (self, w, (node, msg) :: rest)
  end.

(** The second loop; a failed send does not end it. *)
Fixpoint send_announces (w : World) (fatal_error : bool) (l : list (Node * bytes)) : res False (World * bool) :=
  match l with
  | [] => Ok (w, fatal_error)
  | (node, msg) :: l' =>
      let '(w, ok) := send_out w (msg, addr node) in
      let fatal_error := fatal_error || negb ok in
      table ← if negb fatal_error then mark_found now (local_request now) (w_table w) node else Ok (w_table w);
      send_announces (set_table w table) fatal_error l'
  end.

(** The nodes that gave a token, closest first. *)
Definition announce_picks (self : TableLookup) : list (Node * bytes) :=
  take ANNOUNCE_PICK_NUM
    (omap (λ e, (λ token, (entry_node e, token)) <$> tokens_get (announce_tokens self) (entry_node e)) (all_sorted_nodes self)).

Definition lookup_recv_finished (self : TableLookup) (w : World) (handshake_port : Z) :
    res False (TableLookup * World * LookupStatus) :=
  '(self, w, fatal_error) ←
    (if lk_will_announce self then
       '(self, w, announces) ← node_announces self w handshake_port (announce_picks self);
       '(w, fatal_error) ← send_announces w false announces;
       Ok (self, w, fatal_error)
     else Ok (self, w, false));
  let self := set_endgame (set_active self ∅) false in
  Ok (self, w, if (fatal_error : bool) then LookupFailed else current_lookup_status self).
End Lookup.
