(* ===== verification/LookupProps.v ===== *)
(** The look-up: its list of nodes stays sorted by distance, it asks the closest
    node of a response first, and it never reports that it is done: the timer
    that would end it is not set. *)

From stdpp Require Import base numbers strings gmap sorting list.
From S2P Require Import Prelude RustStd Extern Convert Sha Node RoutingTable Transaction Storage Bencode DhtMessage Worker Lookup.

(** * Inverting computations *)

(** Take apart a hypothesis [m ≫= k = Ok _]. *)
Ltac bind_step :=
  match goal with
  | H : mbind ?k ?m = Ok _ |- _ =>
      let E := fresh "E" in destruct m as [?| |] eqn:E; [rewrite bind_Ok in H; cbv beta in H|discriminate H|discriminate H]
  | H : (let '(_, _) := ?p in _) = Ok _ |- _ => destruct p as [? ?] eqn:?
  | H : (if ?b then _ else _) = Ok _ |- _ => destruct b eqn:?
  | H : Ok _ = Ok _ |- _ => injection H as H; subst
  | H : (_, _) = (_, _) |- _ => injection H as ?; subst
  end.
Ltac bind_all := repeat bind_step.

(** * What an operation may do to its world: no timer for the end of a look-up *)

Definition no_endgame (w w' : World) : Prop :=
  ∀ ms t, (ms, CheckLookupEndGame t) ∈ w_timers w' → (ms, CheckLookupEndGame t) ∈ w_timers w.

#[export] Instance no_endgame_preorder : PreOrder no_endgame.
Proof. split; [by intros w ms t|]. intros w1 w2 w3 H1 H2 ms t Ht. by apply H1, H2. Qed.

Lemma no_endgame_eq w w' : w_timers w' = w_timers w → no_endgame w w'.
Proof. intros Hw ms t. by rewrite Hw. Qed.

Lemma generate_world draws w g w' g' t : world_generate draws w g = Ok (w', g', t) →
  w_table w' = w_table w ∧ w_out w' = w_out w ∧ w_timers w' = w_timers w.
Proof. unfold world_generate. intros H. by bind_all. Qed.

Lemma send_out_world w m w' ok : send_out w m = (w', ok) → w_table w' = w_table w ∧ w_timers w' = w_timers w.
Proof. unfold send_out. destruct (chan_send _ _). by intros [= <- <-]. Qed.

Lemma spawn_no_endgame w ms c : (∀ t, c ≠ CheckLookupEndGame t) → no_endgame w (spawn_timer w ms c).
Proof.
  intros Hc ms' t. cbn [spawn_timer w_timers]. rewrite elem_of_app, list_elem_of_singleton.
  intros [?|[= _ Ht]]; [done|]. by destruct (Hc t).
Qed.

Lemma generate_no_endgame draws w g w' g' t : world_generate draws w g = Ok (w', g', t) → no_endgame w w'.
Proof. intros (_ & _ & Ht)%generate_world. by apply no_endgame_eq. Qed.
Lemma send_no_endgame w m w' ok : send_out w m = (w', ok) → no_endgame w w'.
Proof. intros (_ & Ht)%send_out_world. by apply no_endgame_eq. Qed.

Ltac world_facts :=
  repeat match goal with
  | E : world_generate _ _ _ = Ok _ |- _ => apply generate_no_endgame in E
  | E : send_out _ _ = (_, _) |- _ => apply send_no_endgame in E
  end.
(** Chain the steps from one world to the next. *)
Ltac world_chain :=
  repeat match goal with
  | |- no_endgame ?w ?w => reflexivity
  | E : no_endgame ?w ?w' |- no_endgame ?w _ => etransitivity; [exact E|clear E]
  | |- no_endgame _ (spawn_timer _ _ _) => etransitivity; [|by apply spawn_no_endgame]
  | |- no_endgame _ (set_table ?w' _) => etransitivity; [|by apply (no_endgame_eq w')]
  end.

(** * Distances *)

Definition sha_le (a b : ShaHash) : Prop := sha_cmp a b ≠ Gt.

Lemma sha_le_alt a b : sha_le a b ↔ bytes_lt (hash a) (hash b) ∨ a = b.
Proof.
  unfold sha_le, sha_cmp, bytes_lt. destruct (bytes_cmp (hash a) (hash b)) eqn:E.
  - apply bytes_cmp_eq in E. destruct a, b; simpl in *. naive_solver.
  - naive_solver.
  - split; [done|]. intros [?|Heq]; [done|]. subst. by rewrite bytes_cmp_refl in E.
Qed.

#[export] Instance sha_le_preorder : PreOrder sha_le.
Proof.
  split; [intros a; apply sha_le_alt; by right|]. intros a b c. rewrite !sha_le_alt.
  intros [Hab| ->] [Hbc| ->]; auto. left. by eapply bytes_lt_trans.
Qed.

Lemma sha_cmp_flip a b : sha_cmp b a = CompOpp (sha_cmp a b).
Proof. apply bytes_cmp_opp. Qed.

Lemma sha_lt_le_trans a b c : sha_cmp a b = Lt → sha_le b c → sha_cmp a c = Lt.
Proof.
  intros Hab. rewrite sha_le_alt. intros [Hbc| <-]; [|done]. unfold sha_cmp. by eapply bytes_lt_trans.
Qed.
Lemma sha_le_lt_trans a b c : sha_le a b → sha_cmp b c = Lt → sha_cmp a c = Lt.
Proof. rewrite sha_le_alt. intros [Hab| ->] Hbc; [|done]. unfold sha_cmp. by eapply bytes_lt_trans. Qed.

Lemma sha_ltb_cases a b : (sha_ltb a b = true ∧ sha_cmp a b = Lt) ∨ (sha_ltb a b = false ∧ sha_le b a).
Proof.
  unfold sha_ltb, sha_le. rewrite (sha_cmp_flip a b). destruct (sha_cmp a b); [right|left|right]; by split.
Qed.

(** * The sorted list *)

Abbreviation entry := (ShaHash * Node * bool)%type (only parsing).

Definition ordered (l : list entry) : Prop := StronglySorted (λ x y, sha_le (entry_dist x) (entry_dist y)) l.

Lemma ordered_lookup l i j x y : ordered l → i ≤ j → l !! i = Some x → l !! j = Some y → sha_le (entry_dist x) (entry_dist y).
Proof.
  intros Hl. revert i j. induction Hl as [|z l Hl IH Hz]; intros i j Hij Hx Hy; [done|].
  destruct i as [|i], j as [|j]; simplify_eq/=; [done| |lia|].
  - rewrite Forall_forall in Hz. apply Hz. by eapply list_elem_of_lookup_2.
  - apply (IH i j); [lia|done..].
Qed.

Lemma ordered_partitioned l d : ordered l → partitioned (λ e, sha_cmp (entry_dist e) d) l.
Proof.
  intros Hl i j x y Hij Hx Hy. pose proof (ordered_lookup l i j x y Hl Hij Hx Hy) as Hle. split.
  - intros Hlt. by eapply sha_le_lt_trans.
  - rewrite (sha_cmp_flip d (entry_dist x)), (sha_cmp_flip d (entry_dist y)).
    destruct (sha_cmp d (entry_dist x)) eqn:E; try done. intros _. by rewrite (sha_lt_le_trans _ _ _ E Hle).
Qed.

Lemma ordered_insert l i (e : entry) : ordered l →
  (∀ j x, j < i → l !! j = Some x → sha_le (entry_dist x) (entry_dist e)) →
  (∀ j x, i ≤ j → l !! j = Some x → sha_le (entry_dist e) (entry_dist x)) →
  ordered (take i l ++ e :: drop i l).
Proof.
  intros Hl Hlo Hhi. apply StronglySorted_app. split_and!.
  - intros x y Hx [->|Hy]%elem_of_cons.
    + apply list_elem_of_lookup in Hx as [j Hj]. apply lookup_take_Some in Hj as [Hj ?]. by eapply Hlo.
    + apply list_elem_of_lookup in Hx as [j Hj], Hy as [k Hk]. apply lookup_take_Some in Hj as [Hj ?].
      rewrite lookup_drop in Hk. eapply ordered_lookup; [exact Hl| |exact Hj|exact Hk]. lia.
  - rewrite <- (take_drop i l) in Hl. by apply StronglySorted_app in Hl as (_ & ? & _).
  - constructor.
    + rewrite <- (take_drop i l) in Hl. by apply StronglySorted_app in Hl as (_ & _ & ?).
    + apply Forall_forall. intros x Hx. apply list_elem_of_lookup in Hx as [j Hj]. rewrite lookup_drop in Hj.
      eapply Hhi; [|exact Hj]. lia.
Qed.

(** Inserting always succeeds, keeps the order, and adds the node at most. *)
Lemma insert_sorted_spec l target node p : ordered l →
  ∃ l', insert_sorted_node l target node p = Ok l' ∧ ordered l' ∧
    (l' = l ∨ ∃ i, l' = take i l ++ (bitxor target (id node), node, p) :: drop i l).
Proof.
  intros Hl. unfold insert_sorted_node, vec_insert. set (d := bitxor target (id node)).
  pose proof (binary_search_spec _ l (ordered_partitioned l d Hl)) as Hs.
  destruct (binary_search_by _ l) as [i|i].
  - destruct Hs as (x & Hx & Heq). rewrite Hx. assert (Hdx : entry_dist x = d).
    { unfold sha_cmp in Heq. apply bytes_cmp_eq in Heq. destruct (entry_dist x), d. simpl in Heq. by subst. }
    destruct (negb _); [|by exists l; split_and!; [..|left]].
    rewrite (proj2 (Nat.leb_le _ _)) by (apply lookup_lt_Some in Hx; lia).
    eexists. split; [done|]. split; [|right; by exists i].
    apply ordered_insert; [done| |].
    + intros j y Hj Hy. change (entry_dist (d, node, p)) with d. rewrite <- Hdx.
      eapply ordered_lookup; [exact Hl| |exact Hy|exact Hx]. lia.
    + intros j y Hj Hy. change (entry_dist (d, node, p)) with d. rewrite <- Hdx. by eapply ordered_lookup.
  - destruct Hs as (Hi & Hlo & Hhi). rewrite (proj2 (Nat.leb_le _ _)) by done.
    eexists. split; [done|]. split; [|right; by exists i]. apply ordered_insert; [done| |].
    + intros j y Hj Hy. specialize (Hlo j y Hj Hy). simpl in Hlo. unfold sha_le. change (entry_dist (d, node, p)) with d. by rewrite Hlo.
    + intros j y Hj Hy. specialize (Hhi j y Hj Hy). simpl in Hhi. unfold sha_le. change (entry_dist (d, node, p)) with d.
      by rewrite (sha_cmp_flip (entry_dist y) d), Hhi.
Qed.

(** * The invariant of a look-up *)

(** The list is ordered by the distance of its nodes to the target. *)
Definition nodes_inv (target : ShaHash) (l : list entry) : Prop :=
  ordered l ∧ Forall (λ e, entry_dist e = bitxor target (id (entry_node e))) l.
Definition lookup_inv (s : TableLookup) : Prop := nodes_inv (lk_target_id s) (all_sorted_nodes s).

Lemma insert_sorted_inv target l node p : nodes_inv target l →
  ∃ l', insert_sorted_node l target node p = Ok l' ∧ nodes_inv target l'.
Proof.
  intros [Ho Hd]. destruct (insert_sorted_spec l target node p Ho) as (l' & Hl & Ho' & Hc). exists l'.
  split; [done|]. split; [done|]. destruct Hc as [->|[i ->]]; [done|]. apply Forall_app. split; [by apply Forall_take|].
  constructor; [done|by apply Forall_drop].
Qed.

Lemma insert_all_inv target ns l : nodes_inv target l → ∃ l', insert_all l target ns = Ok l' ∧ nodes_inv target l'.
Proof.
  revert l. induction ns as [|[n p] ns IH]; intros l Hl; simpl; [eauto|].
  destruct (insert_sorted_inv target l n p Hl) as (l1 & -> & H1). cbn [mbind res_bind]. by apply IH.
Qed.

(** The invariant depends on distances and nodes only. *)
Definition ident (e : entry) : ShaHash * Node := (entry_dist e, entry_node e).

Lemma nodes_inv_ident target l k : ident <$> l = ident <$> k → nodes_inv target l → nodes_inv target k.
Proof.
  revert k. induction l as [|e l IH]; intros [|f k]; try done. cbn [fmap list_fmap]. intros [= He Hn Hk] [Ho Hd].
  apply StronglySorted_inv in Ho as [Ho Hlt]. apply Forall_cons in Hd as [Hde Hd].
  destruct (IH k Hk (conj Ho Hd)) as [Ho' Hd']. split.
  - constructor; [done|]. apply Forall_forall. intros y Hy. rewrite <- He.
    assert (Hi : ident y ∈ ident <$> l) by (rewrite Hk; by apply list_elem_of_fmap_2).
    apply list_elem_of_fmap in Hi as (x & Hx & Hxl). rewrite Forall_forall in Hlt. injection Hx as -> _. by apply Hlt.
  - constructor; [congruence|done].
Qed.

(** What a round keeps of a look-up. *)
Record keeps (s s' : TableLookup) : Prop := {
  k_target : lk_target_id s' = lk_target_id s;
  k_nodes : ident <$> all_sorted_nodes s' = ident <$> all_sorted_nodes s;
}.

#[export] Instance keeps_preorder : PreOrder keeps.
Proof. split; [by split|]. intros a b c [? ?] [? ?]. split; congruence. Qed.

Lemma keeps_inv s s' : keeps s s' → lookup_inv s → lookup_inv s'.
Proof. intros [Ht Hn] Hi. unfold lookup_inv. rewrite Ht. by eapply nodes_inv_ident. Qed.

(** The look-up has something to wait for. *)
Definition busy (s : TableLookup) : Prop := lk_in_endgame s = true ∨ active_lookups s ≠ ∅.

Lemma busy_searching s : busy s → current_lookup_status s = Searching.
Proof.
  unfold current_lookup_status. intros [->|Ha]; [done|]. rewrite bool_decide_eq_false_2 by done. by rewrite orb_true_r.
Qed.

Section Rounds.
Context `{Chrono} (now instant : Z) (draws : nat → nat → nat).

Lemma request_loop_spec s w ns n s' w' r : request_loop now instant draws s w ns n = Ok (s', w', r) →
  keeps s s' ∧ no_endgame w w' ∧ lk_in_endgame s' = lk_in_endgame s ∧
  ((active_lookups s ≠ ∅ ∨ ns ≠ []) → active_lookups s' ≠ ∅) ∧
  (∀ m, r = Some m → m = n + length ns).
Proof.
  revert s w n. induction ns as [|[node d] ns IH]; intros s w n Hr; cbn [request_loop] in Hr.
  { bind_all. split_and!; [done|done|done|naive_solver|]. intros m [= <-]. simpl. lia. }
  bind_all; world_facts.
  - split_and!; [by split|by world_chain|done| |done]. intros _. cbn. apply insert_non_empty.
  - apply IH in Hr as (Hk & Hw & Hg & Ha & Hm). cbn in Hg. split_and!.
    + etransitivity; [|exact Hk]. by split.
    + etransitivity; [|exact Hw]. by world_chain.
    + done.
    + intros _. apply Ha. left. cbn. apply insert_non_empty.
    + intros m' ->. rewrite (Hm m' eq_refl). simpl. lia.
Qed.

Lemma request_round_spec s w ns s' w' st : start_request_round now instant draws s w ns = Ok (s', w', st) →
  keeps s s' ∧ no_endgame w w' ∧ lk_in_endgame s' = lk_in_endgame s ∧
  (ns ≠ [] → active_lookups s' ≠ ∅ ∧ st ≠ LookupDone).
Proof.
  unfold start_request_round. intros Hr. bind_all.
  apply request_loop_spec in E as (Hk & Hw & Hg & Ha & Hm).
  case_match; [case_match|]; bind_all; split_and!; try done; try (intros; split; [by auto|done]).
  { etransitivity; [exact Hk|by split]. }
  intros Hn. specialize (Hm 0 eq_refl). destruct ns; [done|]. simpl in Hm. lia.
Qed.

Lemma endgame_messages_spec s w i l s' w' msgs : endgame_messages instant draws s w i l = Ok (s', w', msgs) →
  keeps s s' ∧ no_endgame w w' ∧ lk_in_endgame s' = lk_in_endgame s.
Proof.
  revert s w i s' w' msgs. induction l as [|[[d node] [|]] l IH]; intros s w i s' w' msgs Hr; cbn [endgame_messages] in Hr.
  - by bind_all.
  - by apply IH in Hr.
  - bind_all. world_facts. match goal with H : endgame_messages _ _ _ _ _ _ = Ok _ |- _ => apply IH in H as (Hk & Hw & Hg) end.
    split_and!; [|by world_chain|done]. etransitivity; [|exact Hk]. by split.
Qed.

Lemma ident_alter (i : nat) (l : list entry) : ident <$> alter (λ e : entry, (entry_dist e, entry_node e, true)) i l = ident <$> l.
Proof. revert i. induction l as [|e l IH]; intros [|i]; csimpl; [done..|]. f_equal. apply IH. Qed.

Lemma endgame_send_spec s w msgs s' w' st : endgame_send now s w msgs = Ok (s', w', st) →
  keeps s s' ∧ no_endgame w w' ∧ lk_in_endgame s' = lk_in_endgame s.
Proof.
  revert s w. induction msgs as [|[[i node] msg] msgs IH]; intros s w Hr; cbn [endgame_send] in Hr; [by bind_all|].
  bind_all; world_facts; [by split_and!|]. apply IH in Hr as (Hk & Hw & Hg). split_and!; [| |done].
  - etransitivity; [|exact Hk]. split; [done|apply ident_alter].
  - etransitivity; [|exact Hw]. by world_chain.
Qed.

Lemma endgame_round_spec s w s' w' st : start_endgame_round now instant draws s w = Ok (s', w', st) →
  keeps s s' ∧ no_endgame w w' ∧ lk_in_endgame s' = true.
Proof.
  unfold start_endgame_round. intros Hr. bind_all; [|by split_and!].
  match goal with H : endgame_messages _ _ _ _ _ _ = Ok _ |- _ => apply endgame_messages_spec in H as (Hk & Hw & Hg) end.
  apply endgame_send_spec in Hr as (Hk' & Hw' & Hg'). split_and!; [|by etransitivity|by rewrite Hg', Hg].
  etransitivity; [|exact Hk']. etransitivity; [|exact Hk]. by split.
Qed.

(** The first slot of the picks is taken as soon as there is a candidate. *)
Lemma insert_closest_used target n picks : (∃ m r, picks = (m, true) :: r) → ∃ m r, insert_closest_nodes picks target n = (m, true) :: r.
Proof. intros (m & r & ->). simpl. case_match; eauto. Qed.

Lemma pick_iterate_used target l : l ≠ [] → ∃ m r, pick_iterate_nodes now l target = (m, true) :: r.
Proof.
  destruct l as [|x l]; [done|]. intros _. unfold pick_iterate_nodes. cbn [replicate ITERATIVE_PICK_NUM foldl insert_closest_nodes default_pick].
  set (p := _ :: _). assert (Hp : ∃ m r, p = (m, true) :: r) by (unfold p; eauto). clearbody p. revert p Hp.
  induction l as [|y l IH]; intros p Hp; [done|]. apply IH. by apply insert_closest_used.
Qed.

Lemma recv_nodes_spec s l d s' it nd : recv_nodes now s l d = Ok (s', it, nd) →
  lk_in_endgame s' = lk_in_endgame s ∧ active_lookups s' = active_lookups s ∧ (lookup_inv s → lookup_inv s') ∧
  (∀ picks, it = Some picks → ∃ m r, picks = (m, true) :: r).
Proof.
  unfold recv_nodes. intros Hr.
  assert (Hinv : ∀ ns l, insert_all (all_sorted_nodes s) (lk_target_id s) ns = Ok l → lookup_inv s → lookup_inv (set_sorted s l)).
  { intros ns l0 Hl Hi. destruct (insert_all_inv (lk_target_id s) ns _ Hi) as (l1 & Hl1 & H1). rewrite Hl in Hl1. by simplify_eq. }
  bind_all.
  - split_and!; [done|done|by eapply Hinv|]. intros picks [= <-]. apply pick_iterate_used. intros Hn.
    match goal with H : sha_ltb (foldl _ _ _) _ = true |- _ => rewrite Hn in H; simpl in H end.
    destruct (sha_ltb_cases d d) as [[_ Hd]|[Hd _]]; [|congruence]. unfold sha_cmp in Hd. by rewrite bytes_cmp_refl in Hd.
  - split_and!; [done|done|by eapply Hinv|done].
Qed.

Lemma continue_rounds_spec s w it nd s' w' ok : continue_rounds now instant draws s w it nd = Ok (s', w', ok) →
  (∀ picks, it = Some picks → ∃ m r, picks = (m, true) :: r) →
  keeps s s' ∧ no_endgame w w' ∧ busy s'.
Proof.
  unfold continue_rounds. intros Hr Hit. destruct (lk_in_endgame s) eqn:Eg; [bind_all; split_and!; [done..|by left]|].
  destruct it as [picks|].
  - destruct (Hit _ eq_refl) as (m & r & ->). cbn [List.filter snd fmap list_fmap] in Hr. bind_all;
      repeat match goal with
      | H : start_request_round _ _ _ _ _ _ = Ok _ |- _ => apply request_round_spec in H as (Hk1 & Hw1 & Hg1 & Ha1)
      | H : start_endgame_round _ _ _ _ _ = Ok _ |- _ => apply endgame_round_spec in H as (Hk2 & Hw2 & Hg2)
      end; destruct (Ha1 ltac:(done)) as [Ha _]; split_and!; try (by etransitivity); try done; by (left + right).
  - bind_all; repeat match goal with
      | H : start_endgame_round _ _ _ _ _ = Ok _ |- _ => apply endgame_round_spec in H as (Hk2 & Hw2 & Hg2)
      | H : bool_decide _ = false |- _ => apply bool_decide_eq_false in H
      end; try done; split_and!; try done; by (left + right).
Qed.

(** The look-up before the rounds of a response: the invariant carries over. *)
Lemma recv_info_spec {B} `{!BRefAccess B} s1 (i : CompactInfoType B) d s2 ov on s3 it nd :
  match i with
  | Nodes n => l ← collect_nodes n; Ok (s1, None, Some l)
  | Values v => vs ← collect_values v; Ok (set_recv_values s1 true, Some vs, None)
  | Both n v => vs ← collect_values v; l ← collect_nodes n; Ok (s1, Some vs, Some l)
  end = Ok (s2, ov, on) →
  match on with Some nodes => recv_nodes now s2 nodes d | None => Ok (s2, None, d) end = Ok (s3, it, nd) →
  (lookup_inv s1 → lookup_inv s3) ∧ (∀ picks, it = Some picks → ∃ m r, picks = (m, true) :: r).
Proof.
  intros H1 H2. assert (Hi : lookup_inv s1 → lookup_inv s2) by (destruct i; by bind_all).
  destruct on as [nodes|]; [|by bind_all]. apply recv_nodes_spec in H2 as (_ & _ & Hinv & Hp). split; [auto|done].
Qed.

Lemma recv_response_spec {B} `{!BRefAccess B} s w node t (msg : GetPeersResponse B) s' w' st :
  lookup_recv_response now instant draws s w node t msg = Ok (s', w', st) →
  no_endgame w w' ∧ (lookup_inv s → lookup_inv s') ∧ (busy s → busy s' ∧ st ≠ LookupDone).
Proof.
  unfold lookup_recv_response. intros Hr. destruct (active_lookups s !! trans_id t) as [[d ?]|] eqn:Ea.
  2: { bind_all. split_and!; [done|done|]. intros Hb. by rewrite busy_searching. }
  set (s1 := match gs_token msg with Some _ => _ | None => _ end) in Hr.
  assert (Hs1 : lookup_inv s → lookup_inv s1) by (unfold s1; by destruct (gs_token msg)).
  clearbody s1. bind_all;
    match goal with
    | H1 : match gs_info_type msg with Nodes _ => _ | Values _ => _ | Both _ _ => _ end = _, H2 : _ = Ok (_, ?it, _),
      H3 : continue_rounds _ _ _ _ _ ?it _ = _ |- _ =>
        destruct (recv_info_spec _ _ _ _ _ _ _ _ _ H1 H2) as [Hi Hp];
        destruct (continue_rounds_spec _ _ _ _ _ _ _ H3 Hp) as (Hk & Hw & Hb)
    end; (split_and!; [done|intros; eapply keeps_inv; [exact Hk|auto]|]); intros _; (split; [done|]); [done|].
  match goal with |- match ?o with _ => _ end ≠ _ => destruct o end; [done|]. by rewrite busy_searching.
Qed.

Lemma recv_timeout_spec s w t s' w' st : lookup_recv_timeout now instant draws s w t = Ok (s', w', st) →
  no_endgame w w' ∧ (lookup_inv s → lookup_inv s') ∧ (busy s → busy s' ∧ st ≠ LookupDone).
Proof.
  unfold lookup_recv_timeout. intros Hr. destruct (active_lookups s !! trans_id t) as [?|] eqn:Ea.
  2: { bind_all. split_and!; [done|done|]. intros Hb. by rewrite busy_searching. }
  bind_all.
  - match goal with H : start_endgame_round _ _ _ _ _ = Ok _ |- _ => apply endgame_round_spec in H as (Hk & Hw & Hg) end.
    split_and!; [done|intros; by eapply keeps_inv; [exact Hk|]|]. intros _. assert (Hb : busy s') by by left.
    split; [done|]. match goal with |- (if ?b then _ else _) ≠ _ => destruct b end; [done|]. by rewrite busy_searching.
  - split_and!; [done|done|]. intros _. match goal with H : _ && _ = false |- _ => apply andb_false_iff in H as [H|H] end.
    + apply negb_false_iff in Heqb. assert (Hb : busy (set_active s (delete (trans_id t) (active_lookups s)))) by by left.
      split; [done|]. by rewrite busy_searching.
    + apply bool_decide_eq_false in Heqb. assert (Hb : busy (set_active s (delete (trans_id t) (active_lookups s)))) by by right.
      split; [done|]. by rewrite busy_searching.
Qed.

Lemma pick_initial_ident l picks : ident <$> (pick_initial_nodes l picks).1 = ident <$> l.
Proof.
  revert picks. induction l as [|[[d n] b] l IH]; intros [|p picks]; simpl; try done.
  specialize (IH picks). destruct (pick_initial_nodes l picks). simpl in *. by f_equal.
Qed.

Lemma new_spec table_id target g announce w w' o : TableLookup_new now instant draws table_id target g announce w = Ok (w', o) →
  no_endgame w w' ∧ ∀ s, o = Some s → lookup_inv s.
Proof.
  unfold TableLookup_new. intros Hr. bind_step.
  match goal with H : insert_all [] target ?ns ≫= _ = _ |- _ =>
    destruct (insert_all_inv target ns []) as (l & Hl & Hinv) end.
  { split; constructor. }
  rewrite Hl in Hr. cbn [mbind res_bind] in Hr.
  pose proof (pick_initial_ident l (replicate INITIAL_PICK_NUM default_pick)) as Hid.
  destruct (pick_initial_nodes l _) as [l' picks]. cbn [fst] in Hid. bind_all.
  match goal with H : start_request_round _ _ _ _ _ _ = Ok _ |- _ => apply request_round_spec in H as (Hk & Hw & _) end.
  split; [done|]. intros s. case_bool_decide; [done|]. intros [= <-]. eapply keeps_inv; [exact Hk|].
  eapply nodes_inv_ident; [|exact Hinv]. by symmetry.
Qed.
End Rounds.

(** * Histories of a look-up *)

(** What reaches a look-up: responses and timeouts, at any time, with any world
    the other actions have left. *)
Inductive lookup_step (s : TableLookup) : LookupStatus → TableLookup → Prop :=
  | step_response {B} `{!BRefAccess B} `{Chrono} now instant draws w node t (msg : GetPeersResponse B) s' w' st :
      lookup_recv_response now instant draws s w node t msg = Ok (s', w', st) → lookup_step s st s'
  | step_timeout `{Chrono} now instant draws w t s' w' st :
      lookup_recv_timeout now instant draws s w t = Ok (s', w', st) → lookup_step s st s'.

Inductive lookup_run : TableLookup → list LookupStatus → TableLookup → Prop :=
  | run_nil s : lookup_run s [] s
  | run_cons s st s1 sts s2 : lookup_step s st s1 → lookup_run s1 sts s2 → lookup_run s (st :: sts) s2.

Lemma step_spec s st s' : lookup_step s st s' → (lookup_inv s → lookup_inv s') ∧ (busy s → busy s' ∧ st ≠ LookupDone).
Proof.
  destruct 1 as [B ? ? ? ? ? ? ? ? ? ? ? ? Hr|? ? ? ? ? ? ? ? ? Hr].
  - by apply recv_response_spec in Hr as (_ & ? & ?).
  - by apply recv_timeout_spec in Hr as (_ & ? & ?).
Qed.

Lemma run_inv s sts s' : lookup_run s sts s' → lookup_inv s → lookup_inv s'.
Proof. induction 1 as [|? ? ? ? ? Hs _ IH]; [done|]. intros Hi. apply IH. by apply (step_spec _ _ _ Hs). Qed.

Lemma run_busy s sts s' : lookup_run s sts s' → busy s → busy s' ∧ LookupDone ∉ sts.
Proof.
  induction 1 as [|? ? ? ? ? Hs _ IH]; intros Hb; [split; [done|apply not_elem_of_nil]|].
  destruct (step_spec _ _ _ Hs) as [_ Hd]. destruct (Hd Hb) as [Hb' Hn]. destruct (IH Hb') as [? ?]. split; [done|].
  by rewrite not_elem_of_cons.
Qed.

(** In every history of responses and timeouts, the list of nodes of a
    look-up stays sorted by the distance to the target, each entry carrying the
    distance of its node: inserting by binary search never misplaces one. *)
Theorem lookup_nodes_sorted `{Chrono} now instant draws table_id target g announce w w' s0 sts s :
  TableLookup_new now instant draws table_id target g announce w = Ok (w', Some s0) → lookup_run s0 sts s →
  StronglySorted (λ x y, sha_le (entry_dist x) (entry_dist y)) (all_sorted_nodes s) ∧
  Forall (λ e, entry_dist e = bitxor (lk_target_id s) (id (entry_node e))) (all_sorted_nodes s).
Proof. intros (_ & Hi)%new_spec Hr. apply (run_inv _ _ _ Hr). by apply Hi. Qed.

(** A look-up that has asked a node never reports its completion:
    whatever responses and timeouts follow, every status is searching, values
    or failure, because the endgame round sets no timer that would end it. *)
Theorem lookup_never_completes `{Chrono} now instant draws table_id target g announce w w' s0 sts s :
  TableLookup_new now instant draws table_id target g announce w = Ok (w', Some s0) → active_lookups s0 ≠ ∅ →
  lookup_run s0 sts s →
  LookupDone ∉ sts ∧ current_lookup_status s = Searching.
Proof.
  intros _ Ha Hr. destruct (run_busy _ _ _ Hr) as [Hb Hn]; [by right|]. split; [done|]. by apply busy_searching.
Qed.

(** A world with one good node to ask. *)
Definition lk_id (x : Z) : ShaHash := {| hash := x :: replicate 19 0%Z |}.
Definition lk_addr (p : Z) : SocketAddrV4 := {| v4_ip := Ipv4 10 0 0 1; v4_port := p |}.
Definition lk_table : RoutingTable :=
  match @add_node chrono_seconds 1000 (RoutingTable_new (lk_id 0)) (as_good 1000 (lk_id 128) (SockV4 (lk_addr 1))) with
  | Ok t => t | _ => RoutingTable_new (lk_id 0) end.
Definition lk_world : World := {| w_table := lk_table; w_out := {| sent := []; room := None |}; w_timers := []; w_seed := 0 |}.
Definition lk_generator : MIDGenerator :=
  {| mid_action_id := 16777216; mid_block := {| next_alloc := 2048; curr_index := 0; ids := [7; 8; 9]%Z |} |}.
Definition lk_start : res False (World * option TableLookup) :=
  @TableLookup_new chrono_seconds 1000 0 (λ _ i, i) (lk_id 0) (lk_id 1) lk_generator true lk_world.

Lemma lookup_nodes_sorted_witness :
  ∃ w' s0, lk_start = Ok (w', Some s0) ∧
    StronglySorted (λ x y, sha_le (entry_dist x) (entry_dist y)) (all_sorted_nodes s0) ∧
    Forall (λ e, entry_dist e = bitxor (lk_target_id s0) (id (entry_node e))) (all_sorted_nodes s0).
Proof.
  destruct lk_start as [[w' [s0|]]| |] eqn:E; [|vm_compute in E; discriminate E..].
  exists w', s0. split; [done|]. exact (lookup_nodes_sorted _ _ _ _ _ _ _ _ _ _ _ _ E (run_nil s0)).
Defined.

Lemma lookup_never_completes_witness :
  ∃ w' s0, lk_start = Ok (w', Some s0) ∧ active_lookups s0 ≠ ∅ ∧ current_lookup_status s0 = Searching.
Proof.
  assert (∃ w' s0, lk_start = Ok (w', Some s0) ∧ bool_decide (active_lookups s0 = ∅) = false) as (w' & s0 & E & Ha).
  { eexists _, _. split; [vm_compute; reflexivity|vm_compute; reflexivity]. }
  apply bool_decide_eq_false in Ha. exists w', s0. split; [done|]. split; [done|].
  exact (proj2 (lookup_never_completes _ _ _ _ _ _ _ _ _ _ [] _ E Ha (run_nil s0))).
Defined.

(** * The nodes asked next *)

Section Picks.
Context `{Chrono} (now : Z) (target : ShaHash).

Abbreviation dist n := (bitxor target (id n)) (only parsing).

(** The head of the picks is the closest of the nodes seen so far. *)
Definition head_closest (seen : list Node) (picks : list (Node * bool)) : Prop :=
  ∃ m r, picks = (m, true) :: r ∧ m ∈ seen ∧ Forall (λ n, sha_le (dist m) (dist n)) seen.

Lemma insert_head_closest seen picks n : head_closest seen picks →
  head_closest (seen ++ [n]) (insert_closest_nodes picks target n).
Proof.
  intros (m & r & -> & Hm & Hall). cbn [insert_closest_nodes].
  destruct (sha_ltb_cases (dist n) (dist m)) as [[-> Hlt]|[-> Hle]].
  - exists n, r. split; [done|]. split; [rewrite elem_of_app, list_elem_of_singleton; by right|].
    apply Forall_app. split; [|apply Forall_singleton; reflexivity]. eapply Forall_impl; [exact Hall|].
    intros x Hx. unfold sha_le. by rewrite (sha_lt_le_trans _ _ _ Hlt Hx).
  - eexists m, _. split; [done|]. split; [rewrite elem_of_app; by left|].
    apply Forall_app. split; [done|]. by constructor.
Qed.

(** Of the nodes a response brings, the first one asked next is the
    closest to the target. *)
Theorem pick_iterate_closest l : l ≠ [] →
  ∃ m r, pick_iterate_nodes now l target = (m, true) :: r ∧ m ∈ node_of now <$> l ∧
    Forall (λ x, sha_le (dist m) (bitxor target x.1)) l.
Proof.
  intros Hl. enough (head_closest (node_of now <$> l) (pick_iterate_nodes now l target)) as (m & r & Hp & Hm & Hall).
  { exists m, r. split_and!; [done|done|]. rewrite Forall_fmap in Hall. exact Hall. }
  destruct l as [|x l] using rev_ind; [done|]. clear Hl IHl.
  unfold pick_iterate_nodes. rewrite foldl_app, fmap_app. cbn [foldl fmap list_fmap].
  destruct (decide (l = [])) as [->|Hl].
  { exists (node_of now x), (replicate 2 default_pick). split_and!; [done|by constructor|apply Forall_singleton; reflexivity]. }
  apply insert_head_closest. revert Hl. induction l as [|y l IH] using rev_ind; [done|]. intros _.
  rewrite foldl_app, fmap_app. cbn [foldl fmap list_fmap]. destruct (decide (l = [])) as [->|Hl].
  - exists (node_of now y), (replicate 2 default_pick). split_and!; [done|by constructor|apply Forall_singleton; reflexivity].
  - apply insert_head_closest. by apply IH.
Qed.
End Picks.

Lemma pick_iterate_closest_witness :
  ∃ m r, @pick_iterate_nodes chrono_seconds 1000 [(lk_id 5, lk_addr 1); (lk_id 3, lk_addr 2)] (lk_id 0) = (m, true) :: r ∧
    m ∈ @node_of chrono_seconds 1000 <$> [(lk_id 5, lk_addr 1); (lk_id 3, lk_addr 2)] ∧
    Forall (λ x, sha_le (bitxor (lk_id 0) (id m)) (bitxor (lk_id 0) x.1)) [(lk_id 5, lk_addr 1); (lk_id 3, lk_addr 2)].
Proof. exact (@pick_iterate_closest chrono_seconds 1000 (lk_id 0) [(lk_id 5, lk_addr 1); (lk_id 3, lk_addr 2)] ltac:(done)). Defined.

(** A closer node replaces the one in its slot instead of moving it back: of two
    nodes, the farther first, only the closer is asked, with two slots free. *)
Example pick_iterate_drops_replaced :
  List.filter snd (@pick_iterate_nodes chrono_seconds 1000 [(lk_id 5, lk_addr 1); (lk_id 3, lk_addr 2)] (lk_id 0)) =
    [(@node_of chrono_seconds 1000 (lk_id 3, lk_addr 2), true)].
Proof. reflexivity. Qed.
