(* ===== verification/Bootstrap.v ===== *)
(** packages/dht/src/worker/bootstrap.rs: filling the routing table bucket by
    bucket, starting from the routers and the nodes given by the client.

    [bootstrap_next_bucket] and [send_bootstrap_requests] call each other while
    a bucket has nobody to ask; the bucket index grows at every turn, so the
    number of buckets is enough fuel. *)

From stdpp Require Import base numbers strings gmap list.
From S2P Require Import Prelude RustStd Extern Convert Sha Node RoutingTable Transaction Storage Bencode DhtMessage Worker.

Definition BOOTSTRAP_INITIAL_TIMEOUT : Z := 2500.
Definition BOOTSTRAP_NODE_TIMEOUT : Z := 500.
Definition BOOTSTRAP_PINGS_PER_BUCKET : nat := 8.

Inductive BootstrapStatus := BootIdle | Bootstrapping | BootCompleted | BootFailed.

#[export] Instance BootstrapStatus_eq_dec : EqDecision BootstrapStatus.
Proof. solve_decision. Defined.

Record TableBootstrap := {
  bs_table_id : ShaHash;
  bs_id_generator : MIDGenerator;
  starting_nodes : list SocketAddr;
  active_messages : gmap Z Z;
  starting_routers : gmap SocketAddr ();
  curr_bootstrap_bucket : nat
}.

Definition TableBootstrap_new (table_id : ShaHash) (id_generator : MIDGenerator) (nodes routers : list SocketAddr) :
    TableBootstrap :=
  {| bs_table_id := table_id; bs_id_generator := id_generator; starting_nodes := nodes; active_messages := ∅;
     starting_routers := foldl (λ s a, <[a := ()]> s) ∅ routers; curr_bootstrap_bucket := 0 |}.

Definition is_router (self : TableBootstrap) (addr : SocketAddr) : bool := bool_decide (is_Some (starting_routers self !! addr)).

Definition bs_update (s : TableBootstrap) (g : MIDGenerator) (m : gmap Z Z) (k : nat) : TableBootstrap :=
  {| bs_table_id := bs_table_id s; bs_id_generator := g; starting_nodes := starting_nodes s; active_messages := m;
     starting_routers := starting_routers s; curr_bootstrap_bucket := k |}.
Definition set_messages (s : TableBootstrap) (m : gmap Z Z) : TableBootstrap :=
  bs_update s (bs_id_generator s) m (curr_bootstrap_bucket s).

Definition current_bootstrap_status (self : TableBootstrap) : BootstrapStatus :=
  if (curr_bootstrap_bucket self =? MAX_BUCKETS) || bool_decide (active_messages self = ∅) then BootIdle else Bootstrapping.

(** Pinging the routers and nodes; a failed send ends it and aborts the timer. *)
Fixpoint ping_all (w : World) (msg : bytes) (l : list SocketAddr) : World * bool :=
  match l with
  | [] => (w, true)
  | a :: l' => let '(w, ok) := send_out w (msg, a) in if negb ok then (w, false) else ping_all w msg l'
  end.

Definition drop_last_timer (w : World) : World :=
  {| w_table := w_table w; w_out := w_out w; w_timers := removelast (w_timers w); w_seed := w_seed w |}.

Section Bootstrap.
Context `{Chrono} `{HashOrder} (now instant : Z) (draws : nat → nat → nat).

Definition start_bootstrap (self : TableBootstrap) (w : World) :
    res False (TableBootstrap * World * (BootstrapStatus + BootstrapStatus)) :=
  let self := bs_update self (bs_id_generator self) ∅ 0 in
  '(w, g, t) ← world_generate draws w (bs_id_generator self);
  let w := spawn_timer w BOOTSTRAP_INITIAL_TIMEOUT (CheckBootstrapTimeout t) in
  let self := bs_update self g (<[trans_id t := (instant + BOOTSTRAP_INITIAL_TIMEOUT)%Z]> (active_messages self)) 0 in
  let find_node_msg := FindNodeRequest_encode
    {| fq_trans_id := trans_id_bytes t; fq_node_id := bs_table_id self; fq_target_id := bs_table_id self |} in
  let '(w, ok) := ping_all w find_node_msg ((hash_iter (starting_routers self)).*1 ++ starting_nodes self) in
  if negb ok then Ok (self, drop_last_timer w, inr BootFailed)
  else Ok (self, w, inl (current_bootstrap_status self)).

(** The loop of [send_bootstrap_requests] over at most
    [BOOTSTRAP_PINGS_PER_BUCKET] nodes; [None] is a failed send. *)
Fixpoint bootstrap_loop (self : TableBootstrap) (w : World) (target_id : ShaHash) (nodes : list Node) (messages_sent : nat) :
    res False (TableBootstrap * World * option nat) :=
  match nodes with
  | [] => Ok (self, w, Some messages_sent)
  | node :: nodes' =>
      '(w, g, t) ← world_generate draws w (bs_id_generator self);
      let self := bs_update self g (active_messages self) (curr_bootstrap_bucket self) in
      let find_node_msg := FindNodeRequest_encode
        {| fq_trans_id := trans_id_bytes t; fq_node_id := bs_table_id self; fq_target_id := target_id |} in
      let timeout := (instant + BOOTSTRAP_NODE_TIMEOUT)%Z in
      let '(w, ok) := send_out w (find_node_msg, addr node) in
      if negb ok then Ok (self, w, None) else
      let w := set_table w (mark_held (local_request now) (w_table w) node) in
      let self := set_messages self (<[trans_id t := timeout]> (active_messages self)) in
      let w := spawn_timer w BOOTSTRAP_INITIAL_TIMEOUT (CheckBootstrapTimeout t) in
      bootstrap_loop self w target_id nodes' (messages_sent + 1)
  end.

(** A bucket of the iterator, as nodes ([dummy_bucket.iter()] is over the eight
    placeholders of a new bucket). *)
Definition bucket_nodes (c : option BucketContents) : list Node :=
  match c with
  | Some (Sorted b) | Some (Assorted b) => nodes b
  | Some EmptyBucket | None => nodes Bucket_new
  end.

Definition is_questionable (n : Node) : bool := bool_decide (status now n = Questionable).

(** [buckets().skip(k)], then three times [next()]. *)
Definition three_buckets (t : RoutingTable) (k : nat) : res False (list Node) :=
  b25 ← Buckets_nth k (table_buckets t);
  b50 ← Buckets_nth (k + 1) (table_buckets t);
  b100 ← Buckets_nth (k + 2) (table_buckets t);
  Ok (bucket_nodes b25 ++ bucket_nodes b50 ++ bucket_nodes b100).

Definition bootstrap_candidates (t : RoutingTable) (bootstrap_bucket : nat) (target_id : ShaHash) : res False (list Node) :=
  l ← (if (bootstrap_bucket =? 0) || (bootstrap_bucket =? 1) then closest_list now t target_id
       else three_buckets t (bootstrap_bucket - 2));
  Ok (List.filter is_questionable l).

Fixpoint bootstrap_next_bucket (fuel : nat) (self : TableBootstrap) (w : World) :
    res False (TableBootstrap * World * BootstrapStatus) :=
  match fuel with
  | O => Panic OutOfFuel
  | S fuel =>
      let bootstrap_bucket := curr_bootstrap_bucket self in
      target_id ← flip_id_bit_at_index (bs_table_id self) bootstrap_bucket;
      questionable_nodes ← bootstrap_candidates (w_table w) bootstrap_bucket target_id;
      '(self, w, r) ← bootstrap_loop self w target_id (take BOOTSTRAP_PINGS_PER_BUCKET questionable_nodes) 0;
      match r with
      | None => Ok (self, w, BootFailed)
      | Some messages_sent =>
          let bootstrap_bucket := curr_bootstrap_bucket self + 1 in
          let self := bs_update self (bs_id_generator self) (active_messages self) bootstrap_bucket in
          if bootstrap_bucket =? MAX_BUCKETS then Ok (self, w, BootCompleted)
          else if messages_sent =? 0 then bootstrap_next_bucket fuel self w
          else Ok (self, w, Bootstrapping)
      end
  end.

Definition next_bucket (self : TableBootstrap) (w : World) : res False (TableBootstrap * World * BootstrapStatus) :=
  bootstrap_next_bucket MAX_BUCKETS self w.

Definition bootstrap_recv_response (self : TableBootstrap) (w : World) (t : TransactionID) :
    res False (TableBootstrap * World * BootstrapStatus) :=
  match active_messages self !! trans_id t with
  | None => Ok (self, w, current_bootstrap_status self)
  | Some _ =>
      let self := if negb (curr_bootstrap_bucket self =? 0)
                  then set_messages self (delete (trans_id t) (active_messages self)) else self in
      if bool_decide (active_messages self = ∅) then next_bucket self w
      else Ok (self, w, current_bootstrap_status self)
  end.

Definition bootstrap_recv_timeout (self : TableBootstrap) (w : World) (t : TransactionID) :
    res False (TableBootstrap * World * BootstrapStatus) :=
  match active_messages self !! trans_id t with
  | None => Ok (self, w, current_bootstrap_status self)
  | Some _ =>
      let self := set_messages self (delete (trans_id t) (active_messages self)) in
      if bool_decide (active_messages self = ∅) then next_bucket self w
      else Ok (self, w, current_bootstrap_status self)
  end.
End Bootstrap.
