(* ===== verification/WorkerProps.v ===== *)
(** The refresh of the routing table and the bootstrap: which bucket they aim
    at, in which order, and where the bucket index can leave its range. *)

From stdpp Require Import base numbers strings gmap list.
From S2P Require Import Prelude RustStd Extern Convert Sha Node RoutingTable RoutingTheorems RoutingIter Transaction Storage Bencode DhtMessage RoutingProperties Worker Lookup LookupProps Bootstrap.

(** * Flipping a bit of the local id *)

Lemma lxor_u8 b k : is_u8 b → 0 ≤ k ≤ 7 → is_u8 (Z.lxor b (Z.shiftl 1 (Z.of_nat k))).
Proof.
  intros Hb Hk. unfold is_u8 in *. assert (Hp : (0 ≤ Z.shiftl 1 (Z.of_nat k) < 2 ^ 8)%Z).
  { rewrite Z.shiftl_1_l. split; [apply Z.pow_nonneg; lia|]. apply Z.pow_lt_mono_r; lia. }
  change 256%Z with (2 ^ 8)%Z in *. split; [apply Z.lxor_nonneg; lia|].
  assert (Hbits : ∀ x i, (0 ≤ x < 2 ^ 8)%Z → (8 ≤ i)%Z → Z.testbit x i = false).
  { intros x i Hx Hi. rewrite <- (Z.mod_small x (2 ^ 8)) by lia. by rewrite Z.mod_pow2_bits_high by lia. }
  destruct (Z.lt_ge_cases (Z.lxor b (Z.shiftl 1 (Z.of_nat k))) (2 ^ 8)) as [|Hge]; [done|exfalso].
  assert (Hpos : (0 < Z.lxor b (Z.shiftl 1 (Z.of_nat k)))%Z) by lia.
  pose proof (Z.bit_log2 _ Hpos) as Hbit. apply Z.log2_le_mono in Hge. rewrite Z.log2_pow2 in Hge by lia.
  rewrite Z.lxor_spec, !Hbits in Hbit by lia. done.
Qed.

(** Only that bit changes. *)
Lemma bit_at_flip l b i j : l !! (i / 8) = Some b →
  bit_at (<[i / 8 := Z.lxor b (Z.shiftl 1 (Z.of_nat (7 - i mod 8)))]> l) j = xorb (bit_at l j) (j =? i).
Proof.
  intros Hb. destruct (bit_pos_split i) as [Hi Hi8]. destruct (bit_pos_split j) as [Hj Hj8]. unfold bit_at.
  destruct (decide (j / 8 = i / 8)) as [He|Hne].
  - rewrite He. erewrite (nth_lookup_Some (<[_ := _]> l)) by (apply list_lookup_insert_eq; by eapply lookup_lt_Some).
    rewrite (nth_lookup_Some _ _ _ _ Hb), Z.lxor_spec, Z.shiftl_1_l, Z.pow2_bits_eqb by lia. f_equal.
    destruct (Nat.eqb_spec j i) as [->|Hn].
    + apply Z.eqb_eq. lia.
    + apply Z.eqb_neq. lia.
  - destruct (Nat.eqb_spec j i) as [->|Hn]; [done|]. rewrite xorb_false_r. f_equal.
    rewrite !nth_lookup. by rewrite list_lookup_insert_ne by done.
Qed.

Lemma flip_spec h i : wf_hash h → i < MAX_BUCKETS →
  ∃ h', flip_id_bit_at_index h i = Ok h' ∧ wf_hash h' ∧ leading_bit_count h h' = i.
Proof.
  intros Hw Hi. pose proof Hw as [Hl Hu]. unfold flip_id_bit_at_index.
  destruct (lookup_lt_is_Some_2 (hash h) (i / 8)) as [b Hb].
  { rewrite Hl. apply Nat.Div0.div_lt_upper_bound. unfold MAX_BUCKETS in Hi. lia. }
  rewrite Hb. eexists. split; [done|]. set (h' := {| hash := _ |}).
  assert (Hw' : wf_hash h').
  { split; cbn [h' hash]; [by rewrite length_insert|]. apply Forall_insert; [done|]. apply lxor_u8; [|lia].
    by eapply Forall_lookup_1. }
  split; [done|]. destruct (leading_bit_count_spec h h' Hw Hw') as (Hn & Hs & Hd). cbv zeta in *.
  set (n := leading_bit_count h h') in *.
  assert (Hbit : ∀ j, bit_at (hash h') j = xorb (bit_at (hash h) j) (j =? i)) by (intros j; by apply bit_at_flip).
  destruct (lt_eq_lt_dec n i) as [[Hlt|]|Hgt]; [|done|].
  - destruct (Hd ltac:(lia)). rewrite Hbit, (proj2 (Nat.eqb_neq n i)) by lia. by rewrite xorb_false_r.
  - specialize (Hs i Hgt). rewrite Hbit, Nat.eqb_refl in Hs. by destruct (bit_at (hash h) i).
Qed.

Lemma flip_out_of_range h i : length (hash h) = SHA_HASH_LEN → MAX_BUCKETS ≤ i →
  flip_id_bit_at_index h i = Panic IndexOutOfBounds.
Proof.
  intros Hl Hi. unfold flip_id_bit_at_index. rewrite lookup_ge_None_2; [done|]. rewrite Hl.
  apply Nat.div_le_lower_bound; [lia|]. unfold MAX_BUCKETS in Hi. lia.
Qed.

(** * Marking a node touches one slot of the table *)

Lemma update_first_spec {A} (p : A → bool) (f : A → A) l :
  update_first p f l = l ∨ ∃ j x, l !! j = Some x ∧ p x = true ∧ update_first p f l = <[j := f x]> l.
Proof.
  induction l as [|x l IH]; simpl; [by left|]. destruct (p x) eqn:Ep; [right; by exists 0, x|].
  destruct IH as [->|(j & y & Hj & Hp & ->)]; [by left|]. right. by exists (S j), y.
Qed.

Section Marks.
Context `{Chrono} (now : Z).

Lemma mark_held_touch op t n : pingable_nodes_filter now n = true →
  ∃ i j, mark_held (run_op now op) t n = touch now op t i j.
Proof.
  intros Hp. enough (∃ i j, mark_slot (run_op now op) (buckets t) n = buckets (touch now op t i j)) as (i & j & Hm).
  { exists i, j. unfold mark_held. rewrite Hm. unfold touch. repeat case_match; by destruct t. }
  destruct t as [bs self]. cbn [buckets]. induction bs as [|b bs (i & j & IH)]; cbn [mark_slot]; [by exists 0, 0|].
  case_bool_decide as Hin.
  - destruct (update_first_spec (λ m, bool_decide (m = n)) (run_op now op) (nodes b)) as [Hu|(j' & x & Hj & Hx & Hu)].
    + exists (S (length bs)), 0. unfold touch. cbn [buckets]. rewrite (lookup_ge_None_2 (b :: bs)) by (simpl; lia).
      cbn [buckets]. f_equal. unfold Bucket_update. rewrite Hu. by destruct b.
    + apply bool_decide_eq_true in Hx as ->. exists 0, j'. unfold touch. cbn [buckets].
      change ((b :: bs) !! 0) with (Some b). cbv beta iota. rewrite Hj, Hp. cbn. unfold Bucket_update. by rewrite Hu.
  - exists (S i), j. rewrite IH. unfold touch. cbn [buckets]. change ((b :: bs) !! S i) with (bs !! i).
    destruct (bs !! i) as [c|]; [|done]. destruct (nodes c !! j) as [m|]; [|done]. by destruct (pingable_nodes_filter now m).
Qed.

(** [find_node] returns on every table. *)
Lemma Buckets_next_total l k : 1 ≤ length l ≤ MAX_BUCKETS →
  ∃ x, Buckets_next {| buckets_slice := l; index := k |} =
         Ok (x, {| buckets_slice := l; index := if MAX_BUCKETS <? k then k else k + 1 |}) ∧
       (MAX_BUCKETS < k → x = None).
Proof.
  intros Hl. unfold Buckets_next. cbn [index buckets_slice].
  destruct (Nat.ltb_spec MAX_BUCKETS k) as [Hgt|Hle]; [by exists None|].
  destruct (Nat.eqb_spec k MAX_BUCKETS) as [->|Hne].
  - destruct (_ || _); [exists None; split; [done|lia]|].
    destruct (lookup_lt_is_Some_2 l (length l - 1)) as [b ->]; [lia|]. exists (Some (Assorted b)). split; [done|lia].
  - destruct (_ || _) eqn:E; [|exists (Some EmptyBucket); split; [done|lia]].
    replace (k + 1 - 1) with k by lia. destruct (lookup_lt_is_Some_2 l k) as [b ->].
    { apply orb_true_iff in E as [E|E]; bool_arith; lia. }
    exists (Some (Sorted b)). split; [done|lia].
Qed.

Lemma Buckets_nth_total l n k : 1 ≤ length l ≤ MAX_BUCKETS → ∃ x, Buckets_nth n {| buckets_slice := l; index := k |} = Ok x.
Proof.
  intros Hl. revert k. induction n as [|n IH]; intros k; cbn [Buckets_nth];
    destruct (Buckets_next_total l k Hl) as (x & -> & _); cbn [mbind res_bind]; destruct x; eauto.
Qed.

Lemma Buckets_find_total p l k fuel : 1 ≤ length l ≤ MAX_BUCKETS → MAX_BUCKETS + 1 < k + fuel → 0 < fuel →
  ∃ x, Buckets_find p fuel {| buckets_slice := l; index := k |} = Ok x.
Proof.
  intros Hl. revert k. induction fuel as [|fuel IH]; intros k Hf H0; [lia|]. cbn [Buckets_find].
  destruct (Buckets_next_total l k Hl) as (x & -> & Hx). cbn [mbind res_bind]. destruct x as [c|]; [|eauto].
  destruct (p c); [eauto|]. destruct (Nat.ltb_spec MAX_BUCKETS k) as [Hgt|Hle]; [by specialize (Hx Hgt)|].
  apply IH; lia.
Qed.

Lemma find_node_total t ls n : represents t ls → ∃ o, find_node now t n = Ok o.
Proof.
  intros Hr. assert (Hl : 1 ≤ length (buckets t) ≤ MAX_BUCKETS).
  { rewrite (rep_buckets_length _ _ Hr). by eapply rep_length. }
  unfold find_node, table_buckets, Buckets_new.
  destruct (Buckets_nth_total (buckets t) (leading_bit_count (node_id t) (id n)) 0 Hl) as (x & ->). cbn [mbind res_bind].
  destruct x as [c|]; cbn [mbind res_bind]; [destruct c; eauto|].
  destruct (Buckets_find_total is_assorted (buckets t) 0 (MAX_BUCKETS + 2) Hl) as (x & ->); [lia|lia|].
  cbn [mbind res_bind]. destruct x as [[]|]; eauto.
Qed.

Lemma mark_found_touch op t ls n : represents t ls →
  ∃ i j, mark_found now (run_op now op) t n = Ok (touch now op t i j).
Proof.
  intros Hr. unfold mark_found. destruct (find_node_total t ls n Hr) as (o & ->). cbn [mbind res_bind].
  destruct o as [m|]; [|exists (length (buckets t)), 0; unfold touch; by rewrite lookup_ge_None_2 by lia].
  set (i := find_node_index t n). destruct (buckets t !! i) as [b|] eqn:Eb.
  - destruct (update_first_spec (λ n0, pingable_nodes_filter now n0 && Node_eq n0 n) (run_op now op) (nodes b))
      as [Hu|(j & x & Hj & Hx & Hu)].
    + exists (length (buckets t)), 0. unfold touch. rewrite lookup_ge_None_2 by lia. f_equal. destruct t as [bs self].
      cbn [buckets node_id] in *. f_equal. apply list_eq. intros k. destruct (decide (k = i)) as [->|Hk].
      * rewrite list_lookup_alter_eq, Eb. cbn. unfold Bucket_update. rewrite Hu. by destruct b.
      * by rewrite list_lookup_alter_ne.
    + exists i, j. unfold touch. rewrite Eb, Hj. apply andb_prop in Hx as [-> _]. do 2 f_equal.
      rewrite list_insert_alter. apply list_eq. intros k. destruct (decide (k = i)) as [->|Hk].
      * rewrite !list_lookup_alter_eq, Eb. cbn. unfold Bucket_update. by rewrite Hu.
      * by rewrite !list_lookup_alter_ne.
  - exists (length (buckets t)), 0. unfold touch. rewrite lookup_ge_None_2 by lia. f_equal. destruct t as [bs self].
    cbn [buckets node_id] in *. f_equal. apply list_eq. intros k. destruct (decide (k = i)) as [->|Hk].
    + by rewrite list_lookup_alter_eq, Eb.
    + by rewrite list_lookup_alter_ne.
Qed.

(** So every table an action leaves behind is well formed. *)
Definition wf_table (t : RoutingTable) : Prop := ∃ ls, represents t ls.

Lemma touch_wf op t i j : wf_table t → wf_table (touch now op t i j) ∧ node_id (touch now op t i j) = node_id t.
Proof. intros [ls Hr]. split; [by eapply represents_touch|]. unfold touch. by repeat case_match. Qed.

Lemma mark_held_wf op t n : wf_table t → pingable_nodes_filter now n = true →
  wf_table (mark_held (run_op now op) t n) ∧ node_id (mark_held (run_op now op) t n) = node_id t.
Proof. intros Ht Hp. destruct (mark_held_touch op t n Hp) as (i & j & ->). by apply touch_wf. Qed.

Lemma mark_found_wf op t n : wf_table t →
  ∃ t', mark_found now (run_op now op) t n = Ok t' ∧ wf_table t' ∧ node_id t' = node_id t.
Proof.
  intros [ls Hr]. destruct (mark_found_touch op t ls n Hr) as (i & j & ->). eexists. split; [done|].
  apply touch_wf. by exists ls.
Qed.

Lemma collect_more fuel fuel' st l : ClosestNodes_collect now fuel st = Ok l → fuel ≤ fuel' → ClosestNodes_collect now fuel' st = Ok l.
Proof.
  revert fuel' st l. induction fuel as [|fuel IH]; intros fuel' st l Hc Hf; [done|]. destruct fuel' as [|fuel']; [lia|].
  cbn [ClosestNodes_collect] in *. destruct (ClosestNodes_next now (MAX_BUCKETS + 1) st) as [[x st']| |]; [|done|done].
  cbn [mbind res_bind] in *. destruct x as [n|]; [|done].
  destruct (ClosestNodes_collect now fuel st') as [r| |] eqn:E; [|done|done]. by rewrite (IH fuel' st' r E ltac:(lia)).
Qed.

(** [closest_nodes] returns, and hands out the pingable entries. *)
Lemma closest_list_total t target : wf_table t → wf_hash target →
  ∃ l, closest_list now t target = Ok l ∧ l ≡ₚ pingable_all now t.
Proof.
  intros [ls Hr] Ht. destruct (closest_nodes_spec now t ls target Hr Ht) as (l & Hl & Hp & _). exists l.
  split; [|done]. eapply collect_more; [exact Hl|]. unfold slots. rewrite (rep_buckets_length _ _ Hr).
  pose proof (rep_length _ _ Hr). unfold MAX_BUCKET_SIZE. lia.
Qed.

Lemma pingable_all_filter t n : n ∈ pingable_all now t → pingable_nodes_filter now n = true.
Proof.
  unfold pingable_all. intros Hn. apply list_elem_of_In, in_concat in Hn as (l & Hl & Hn).
  apply list_elem_of_In, list_elem_of_fmap in Hl as (b & -> & _). unfold pingable_nodes in Hn.
  by apply filter_In in Hn as [_ ?].
Qed.
End Marks.

(** * Transaction ids *)

(** A generator of the action [a]. *)
Definition gen_ok (a : Z) (g : MIDGenerator) : Prop :=
  (0 ≤ a < MAX_ACTION_ID)%Z ∧ mid_action_id g = as_u64 (Z.shiftl a MESSAGE_ID_SHIFT) ∧
  (2048 | next_alloc (mid_block g))%Z ∧ (0 ≤ next_alloc (mid_block g) ≤ MAX_MESSAGE_ID)%Z ∧
  Forall (λ i, 0 ≤ i < MAX_MESSAGE_ID)%Z (ids (mid_block g)).

(** Generating never fails and keeps the action. *)
Lemma generate_total draws a w g : draws_ok (draws (w_seed w)) 2048 → gen_ok a g →
  ∃ w' g' t, world_generate draws w g = Ok (w', g', t) ∧ gen_ok a g' ∧ tid_action_id t = a.
Proof.
  intros Hd (Ha & Hg & Hdiv & Hna & Hids).
  assert (Htid : ∀ i, (0 ≤ i < MAX_MESSAGE_ID)%Z → tid_action_id (TransactionID_new (Z.lor (mid_action_id g) i)) = a).
  { intros i Hi. unfold tid_action_id, TransactionID_new. cbn [trans_id]. rewrite Hg.
    destruct (tid_bounds a i Ha Hi) as [-> _]. by apply tid_split. }
  unfold world_generate, MIDGenerator_generate. cbn [block_generate].
  destruct (ids (mid_block g) !! curr_index (mid_block g)) as [i|] eqn:Ei.
  - cbn [mbind res_bind]. pose proof (Forall_lookup_1 _ _ _ _ Hids Ei). eexists _, _, _. split; [done|].
    split; [exact (conj Ha (conj Hg (conj Hdiv (conj Hna Hids))))|by apply Htid].
  - unfold generate_mids, generate_block.
    set (p := if (next_alloc (mid_block g) =? MAX_MESSAGE_ID)%Z then _ else _).
    assert (∃ s, p = (s, (s + 2048)%Z) ∧ (2048 | s)%Z ∧ (0 ≤ s)%Z ∧ (s + 2048 ≤ MAX_MESSAGE_ID)%Z) as (s & -> & Hs & Hs0 & HsM).
    { unfold p. destruct (Z.eqb_spec (next_alloc (mid_block g)) MAX_MESSAGE_ID) as [|Hne].
      - exists 0%Z. split_and!; [done|by exists 0%Z|lia|]. unfold MAX_MESSAGE_ID, MESSAGE_ID_SHIFT. by compute.
      - exists (next_alloc (mid_block g)). split_and!; [done|done|lia|].
        destruct blocks_const as (_ & [q Hq] & _), Hdiv as [r Hr]. nia. }
    cbv beta iota. replace (s + 2048 - s)%Z with 2048%Z by lia.
    destruct (fisher_shuffle_perm (draws (w_seed w)) (seqZ s 2048)) as (blk & -> & Hp); [by rewrite length_seqZ|].
    cbn [mbind res_bind ids curr_index]. assert (Hblk : Forall (λ i, 0 ≤ i < MAX_MESSAGE_ID)%Z blk).
    { rewrite Hp. apply Forall_forall. intros i Hi%elem_of_seqZ. lia. }
    destruct blk as [|i blk]; [apply Permutation_length in Hp; rewrite length_seqZ in Hp; simpl in Hp; lia|].
    change ((i :: blk) !! 0) with (Some i). cbn [mbind res_bind]. eexists _, _, _. split; [done|].
    split; [|apply Htid; by apply Forall_cons in Hblk as [? _]].
    assert (2048 | s + 2048)%Z by (apply Z.divide_add_r; [done|by exists 1%Z]).
    unfold gen_ok. cbn [mid_action_id mid_block next_alloc ids]. repeat (split; [done|]). split; [lia|done].
Qed.

(** * The refresh goes on *)

Lemma send_open w m : room (w_out w) = None →
  send_out w m = ({| w_table := w_table w; w_out := {| sent := sent (w_out w) ++ [m]; room := None |};
                     w_timers := w_timers w; w_seed := w_seed w |}, true).
Proof. intros Hr. unfold send_out, chan_send. by rewrite Hr. Qed.

(** What a refresh sends: nothing, or a request for an id that leaves the local
    one at bit [k]. *)
Definition refresh_msgs (local : ShaHash) (k : nat) (msgs : list (bytes * SocketAddr)) : Prop :=
  msgs = [] ∨ ∃ t target n, leading_bit_count local target = k ∧ msgs = [(FindNodeRequest_encode
    {| fq_trans_id := trans_id_bytes t; fq_node_id := local; fq_target_id := target |}, addr n)].

Section RefreshSpec.
Context `{Chrono} (now : Z) (draws : nat → nat → nat) (Hdraws : ∀ k, draws_ok (draws k) 2048).

Lemma refresh_ping_spec a w g target o :
  wf_table (w_table w) → gen_ok a g → room (w_out w) = None →
  (∀ n, o = Some n → pingable_nodes_filter now n = true) →
  ∃ w' g' msgs, refresh_ping now draws w g (node_id (w_table w)) target o = Ok (w', g', true) ∧ gen_ok a g' ∧
    wf_table (w_table w') ∧ node_id (w_table w') = node_id (w_table w) ∧ room (w_out w') = None ∧
    w_timers w' = w_timers w ∧ sent (w_out w') = sent (w_out w) ++ msgs ∧
    refresh_msgs (node_id (w_table w)) (leading_bit_count (node_id (w_table w)) target) msgs.
Proof.
  intros Ht Hg Hr Ho. destruct o as [n|]; cbn [refresh_ping].
  - destruct (generate_total draws a w g (Hdraws _) Hg) as (w1 & g1 & t & Hok & Hg1 & _). rewrite Hok. cbn [mbind res_bind].
    apply generate_world in Hok as (Htab & Hout & Htim). rewrite send_open by (by rewrite Hout). cbn [negb].
    eexists _, _, [_]. split; [done|]. cbn. rewrite Htab, Hout, Htim.
    destruct (mark_held_wf now LocalRequest (w_table w) n Ht (Ho n eq_refl)) as [Hwf Hid].
    split_and!; try done. right. by exists t, target, n.
  - exists w, g, []. rewrite app_nil_r. split_and!; try done. by left.
Qed.

Lemma refresh_bucket_mod c : c ≤ MAX_BUCKETS →
  ∃ k, (if c =? MAX_BUCKETS then 0 else c) = k ∧ k = c mod MAX_BUCKETS ∧ k < MAX_BUCKETS.
Proof.
  intros Hc. eexists. split; [done|]. destruct (Nat.eqb_spec c MAX_BUCKETS) as [->|Hn].
  - split; [by rewrite Nat.Div0.mod_same|apply Nat.ltb_lt; reflexivity].
  - rewrite Nat.mod_small by lia. split; [done|lia].
Qed.

(** While its channel is open a refresh always succeeds: it asks a
    questionable node, if there is one, for an id whose first differing bit is
    the bucket whose turn it is, moves on to the next bucket, wrapping around
    after the last, and sets the timer of its own next round. *)
Theorem refresh_continues a self w :
  wf_table (w_table w) → gen_ok a (rf_id_generator self) → curr_refresh_bucket self ≤ MAX_BUCKETS → room (w_out w) = None →
  ∃ self' w' t msgs, continue_refresh now draws self w = Ok (self', w', Refreshing) ∧
    curr_refresh_bucket self' = curr_refresh_bucket self mod MAX_BUCKETS + 1 ∧
    sent (w_out w') = sent (w_out w) ++ msgs ∧ refresh_msgs (node_id (w_table w)) (curr_refresh_bucket self mod MAX_BUCKETS) msgs ∧
    w_timers w' = w_timers w ++ [(REFRESH_INTERVAL_TIMEOUT, CheckTableRefresh t)] ∧ tid_action_id t = a ∧
    wf_table (w_table w') ∧ gen_ok a (rf_id_generator self') ∧ room (w_out w') = None.
Proof.
  intros Ht Hg Hc Hr. unfold continue_refresh.
  destruct (refresh_bucket_mod _ Hc) as (k & Hif & Hk & Hlt). rewrite Hif. clear Hif.
  assert (Hid : wf_hash (node_id (w_table w))) by (destruct Ht as [ls Hrep]; by eapply rep_id).
  destruct (flip_spec _ k Hid Hlt) as (target & Hf & Hwt & Hlead). rewrite Hf, bind_Ok. clear Hf.
  destruct (closest_list_total now (w_table w) target Ht Hwt) as (l & Hc' & Hp). rewrite Hc', bind_Ok. clear Hc'.
  destruct (refresh_ping_spec a w (rf_id_generator self) target
    (List.find (λ n, bool_decide (status now n = Questionable)) l)) as (w1 & g1 & msgs & -> & Hg1 & Ht1 & Hid1 & Hr1 & Hti1 & Hs1 & Hm);
    [done|done|done| |].
  { intros n Hn. apply List.find_some in Hn as [Hn _]. eapply pingable_all_filter. rewrite <- Hp. by apply list_elem_of_In. }
  cbn [mbind res_bind negb]. destruct (generate_total draws a w1 g1 (Hdraws _) Hg1) as (w2 & g2 & t & Hok & Hg2 & Hta).
  rewrite Hok. cbn [mbind res_bind]. apply generate_world in Hok as (Htab & Hout & Htim).
  eexists _, _, t, msgs. split; [done|]. cbn [curr_refresh_bucket rf_id_generator w_table w_out w_timers spawn_timer].
  rewrite Htab, Hout, Htim, Hti1, Hs1, <- Hk. rewrite Hlead in Hm. by split_and!.
Qed.
End RefreshSpec.

Lemma identity_draws len : draws_ok (λ i, i) len.
Proof. intros i Hi. lia. Qed.

Lemma lk_generator_ok : gen_ok 1 lk_generator.
Proof.
  unfold gen_ok. change MAX_ACTION_ID with (2 ^ 40)%Z. change MAX_MESSAGE_ID with (2 ^ 24)%Z. cbn [lk_generator mid_block next_alloc ids].
  split; [lia|]. split; [vm_compute; reflexivity|]. split; [by exists 1%Z|]. split; [lia|].
  repeat (apply Forall_cons; split; [lia|]). by apply Forall_nil.
Qed.

Lemma lk_id_wf : wf_hash (lk_id 0).
Proof.
  split; [reflexivity|]. apply are_u8_cons. split; [unfold is_u8; lia|]. apply Forall_replicate. unfold is_u8. lia.
Qed.

Definition empty_world : World :=
  {| w_table := RoutingTable_new (lk_id 0); w_out := {| sent := []; room := None |}; w_timers := []; w_seed := 0 |}.

Lemma refresh_continues_witness :
  ∃ self' w' t msgs, @continue_refresh chrono_seconds 1000 (λ _ i, i)
    {| rf_id_generator := lk_generator; curr_refresh_bucket := 160 |} empty_world = Ok (self', w', Refreshing) ∧
    curr_refresh_bucket self' = 1 ∧ sent (w_out w') = msgs ∧ refresh_msgs (lk_id 0) 0 msgs ∧
    w_timers w' = [(REFRESH_INTERVAL_TIMEOUT, CheckTableRefresh t)] ∧ tid_action_id t = 1%Z.
Proof.
  destruct (@refresh_continues chrono_seconds 1000 (λ _ i, i) (λ _, identity_draws 2048) 1
    {| rf_id_generator := lk_generator; curr_refresh_bucket := 160 |} empty_world)
    as (self' & w' & t & msgs & H1 & H2 & H3 & H4 & H5 & H6 & _);
    [exists [[]]; apply represents_new, lk_id_wf|apply lk_generator_ok|reflexivity|reflexivity|].
  exists self', w', t, msgs. by split_and!.
Defined.

(** * The bootstrap *)

Section BootstrapSpec.
Context `{Chrono} (now instant : Z) (draws : nat → nat → nat) (Hdraws : ∀ k, draws_ok (draws k) 2048).

(** What the bootstrap operations rely on and keep. *)
Record boot_ok (a : Z) (s : TableBootstrap) (w : World) : Prop := {
  bo_table : wf_table (w_table w);
  bo_id : wf_hash (bs_table_id s);
  bo_gen : gen_ok a (bs_id_generator s);
  bo_room : room (w_out w) = None
}.

Lemma bootstrap_loop_spec a target l : ∀ s w n, boot_ok a s w → Forall (λ m, pingable_nodes_filter now m = true) l →
  ∃ s' w', bootstrap_loop now instant draws s w target l n = Ok (s', w', Some (n + length l)) ∧ boot_ok a s' w' ∧
    curr_bootstrap_bucket s' = curr_bootstrap_bucket s ∧ (l = [] → active_messages s' = active_messages s) ∧
    (l ≠ [] → active_messages s' ≠ ∅).
Proof.
  enough (Hgen : ∀ s w n, boot_ok a s w → Forall (λ m, pingable_nodes_filter now m = true) l →
    ∃ s' w', bootstrap_loop now instant draws s w target l n = Ok (s', w', Some (n + length l)) ∧ boot_ok a s' w' ∧
      curr_bootstrap_bucket s' = curr_bootstrap_bucket s ∧ (l = [] → active_messages s' = active_messages s) ∧
      (l ≠ [] ∨ active_messages s ≠ ∅ → active_messages s' ≠ ∅)).
  { intros s w n Hb Hl. destruct (Hgen s w n Hb Hl) as (s' & w' & H1 & H2 & H3 & H4 & H5). exists s', w'. by split_and!; auto. }
  induction l as [|m l IH]; intros s w n Hb Hl; cbn [bootstrap_loop].
  { exists s, w. rewrite Nat.add_0_r. split_and!; try done. intros [?|?]; done. }
  apply Forall_cons in Hl as [Hm Hl].
  destruct (generate_total draws a w (bs_id_generator s) (Hdraws _) (bo_gen _ _ _ Hb)) as (w1 & g1 & t & Hok & Hg1 & _).
  rewrite Hok, bind_Ok. apply generate_world in Hok as (Htab & Hout & Htim).
  rewrite send_open by (rewrite Hout; apply Hb). cbn [negb].
  destruct (mark_held_wf now LocalRequest (w_table w1) m) as [Hwf _]; [rewrite Htab; apply Hb|done|].
  edestruct (IH (set_messages (bs_update s g1 (active_messages s) (curr_bootstrap_bucket s))
    (<[trans_id t:=(instant + BOOTSTRAP_NODE_TIMEOUT)%Z]> (active_messages s)))) as (s' & w' & Hok' & Hb' & Hc & _ & Ha);
    [|exact Hl|].
  2: { exists s', w'. rewrite Hok'. split_and!; [do 3 f_equal; simpl; lia|done|done|done|].
       intros _. apply Ha. right. apply insert_non_empty. }
  split; [exact Hwf|apply Hb|exact Hg1|done].
Qed.

Lemma questionable_pingable n : is_questionable now n = true → pingable_nodes_filter now n = true.
Proof. unfold is_questionable, pingable_nodes_filter. intros ->. apply orb_true_r. Qed.

Lemma candidates_total t k target : wf_table t → wf_hash target →
  ∃ l, bootstrap_candidates now t k target = Ok l ∧ Forall (λ m, pingable_nodes_filter now m = true) l.
Proof.
  intros Ht Hw. assert (∃ l, (if (k =? 0) || (k =? 1) then closest_list now t target else three_buckets t (k - 2)) = Ok l) as (l & Hl).
  { destruct (_ || _); [by destruct (closest_list_total now t target Ht Hw) as (l & -> & _); eauto|].
    assert (Hlen : 1 ≤ length (buckets t) ≤ MAX_BUCKETS).
    { destruct Ht as [ls Hr]. rewrite (rep_buckets_length _ _ Hr). by eapply rep_length. }
    unfold three_buckets, table_buckets, Buckets_new.
    destruct (Buckets_nth_total (buckets t) (k - 2) 0 Hlen) as (x & ->).
    destruct (Buckets_nth_total (buckets t) (k - 2 + 1) 0 Hlen) as (y & ->).
    destruct (Buckets_nth_total (buckets t) (k - 2 + 2) 0 Hlen) as (z & ->). rewrite !bind_Ok. eauto. }
  unfold bootstrap_candidates. rewrite Hl, bind_Ok. eexists. split; [done|]. apply Forall_forall. intros m Hm.
  apply list_elem_of_In, filter_In in Hm as [_ Hm]. by apply questionable_pingable.
Qed.

Lemma next_bucket_spec a fuel : ∀ s w, boot_ok a s w → curr_bootstrap_bucket s < MAX_BUCKETS →
  MAX_BUCKETS - curr_bootstrap_bucket s ≤ fuel →
  ∃ s' w' st, bootstrap_next_bucket now instant draws fuel s w = Ok (s', w', st) ∧ boot_ok a s' w' ∧
    curr_bootstrap_bucket s < curr_bootstrap_bucket s' ≤ MAX_BUCKETS ∧
    (st = BootCompleted ∧ curr_bootstrap_bucket s' = MAX_BUCKETS ∨
     st = Bootstrapping ∧ curr_bootstrap_bucket s' < MAX_BUCKETS ∧ active_messages s' ≠ ∅).
Proof.
  induction fuel as [|fuel IH]; intros s w Hb Hc Hf; [lia|]. cbn [bootstrap_next_bucket].
  destruct (flip_spec (bs_table_id s) (curr_bootstrap_bucket s) (bo_id _ _ _ Hb) Hc) as (target & Hflip & Hwt & _).
  rewrite Hflip, bind_Ok. clear Hflip.
  destruct (candidates_total (w_table w) (curr_bootstrap_bucket s) target (bo_table _ _ _ Hb) Hwt) as (l & Hl & Hp).
  rewrite Hl, bind_Ok. clear Hl.
  destruct (bootstrap_loop_spec a target (take BOOTSTRAP_PINGS_PER_BUCKET l) s w 0 Hb) as (s1 & w1 & Hok & Hb1 & Hc1 & He & Ha);
    [by apply Forall_take|].
  rewrite Hok, bind_Ok. cbv beta iota zeta. rewrite Hc1, Nat.add_0_l.
  set (s2 := bs_update s1 _ _ _). assert (Hb2 : boot_ok a s2 w1) by (destruct Hb1; by split).
  destruct (Nat.eqb_spec (curr_bootstrap_bucket s + 1) MAX_BUCKETS) as [Heq|Hne].
  { exists s2, w1, BootCompleted. split_and!; [done|done|simpl; lia|simpl; lia|by left]. }
  destruct (Nat.eqb_spec (length (take BOOTSTRAP_PINGS_PER_BUCKET l)) 0) as [Hlen|Hlen].
  - destruct (IH s2 w1 Hb2) as (s' & w' & st & Hok' & Hb' & Hc' & Hst); [simpl; lia|simpl; lia|].
    exists s', w', st. split_and!; [done|done|simpl in Hc'; lia|lia|done].
  - exists s2, w1, Bootstrapping. split_and!; [done|done|simpl; lia|simpl; lia|]. right. split_and!; [done|simpl; lia|].
    apply Ha. intros H0. by rewrite H0 in Hlen.
Qed.

(** Claim C36. Below the last bucket a bootstrap step never panics and always
    gets further: it passes over buckets with nobody to ask until it has sent
    requests or has reached the last one; the bucket index stays within
    bounds, and the step is done exactly when it has reached the bound. *)
Theorem bootstrap_progress a s w : boot_ok a s w → curr_bootstrap_bucket s < MAX_BUCKETS →
  ∃ s' w' st, next_bucket now instant draws s w = Ok (s', w', st) ∧ boot_ok a s' w' ∧
    curr_bootstrap_bucket s < curr_bootstrap_bucket s' ≤ MAX_BUCKETS ∧
    (st = BootCompleted ∧ curr_bootstrap_bucket s' = MAX_BUCKETS ∨
     st = Bootstrapping ∧ curr_bootstrap_bucket s' < MAX_BUCKETS ∧ active_messages s' ≠ ∅).
Proof. intros Hb Hc. apply next_bucket_spec; [done|done|lia]. Qed.

(** A bootstrap that has reached the last bucket with one message
    outstanding, and is not started over, panics when that message is answered
    or times out: it flips a bit past the end of the id. *)
Theorem bootstrap_past_last_bucket_panics s w t x :
  wf_hash (bs_table_id s) → curr_bootstrap_bucket s = MAX_BUCKETS → active_messages s = {[trans_id t := x]} →
  bootstrap_recv_timeout now instant draws s w t = Panic IndexOutOfBounds ∧
  bootstrap_recv_response now instant draws s w t = Panic IndexOutOfBounds.
Proof.
  intros [Hl _] Hc Ha. unfold bootstrap_recv_timeout, bootstrap_recv_response. rewrite Ha, lookup_singleton_eq.
  rewrite Hc. cbn [negb Nat.eqb MAX_BUCKETS SHA_HASH_LEN Nat.mul Nat.add]. rewrite delete_singleton_eq, bool_decide_eq_true_2 by done.
  unfold next_bucket. replace MAX_BUCKETS with (S 159) by done. cbn [bootstrap_next_bucket set_messages bs_update bs_table_id curr_bootstrap_bucket].
  rewrite Hc, flip_out_of_range by (done || reflexivity). done.
Qed.
End BootstrapSpec.

Definition ex_bootstrap (k : nat) (m : gmap Z Z) : TableBootstrap :=
  bs_update (TableBootstrap_new (lk_id 0) lk_generator [] []) lk_generator m k.

Lemma empty_world_ok m k : boot_ok 1 (ex_bootstrap k m) empty_world.
Proof. split; [exists [[]]; apply represents_new, lk_id_wf|apply lk_id_wf|apply lk_generator_ok|done]. Qed.

Lemma bootstrap_progress_witness :
  ∃ s' w' st, @next_bucket chrono_seconds 1000 0 (λ _ i, i) (ex_bootstrap 5 ∅) empty_world = Ok (s', w', st) ∧ boot_ok 1 s' w' ∧
    5 < curr_bootstrap_bucket s' ≤ MAX_BUCKETS.
Proof.
  destruct (@bootstrap_progress chrono_seconds 1000 0 (λ _ i, i) (λ _, identity_draws 2048) 1 (ex_bootstrap 5 ∅) empty_world)
    as (s' & w' & st & H1 & H2 & H3 & _); [apply empty_world_ok|apply Nat.ltb_lt; reflexivity|].
  exists s', w', st. by split_and!; [..|apply H3|apply H3].
Defined.

Lemma bootstrap_past_last_bucket_witness :
  @bootstrap_recv_timeout chrono_seconds 1000 0 (λ _ i, i) (ex_bootstrap 160 {[7%Z := 0%Z]}) empty_world (TransactionID_new 7) =
    Panic IndexOutOfBounds.
Proof.
  apply (@bootstrap_past_last_bucket_panics chrono_seconds 1000 0 (λ _ i, i) (ex_bootstrap 160 {[7%Z := 0%Z]}) empty_world
    (TransactionID_new 7) 0); [apply lk_id_wf|reflexivity|reflexivity].
Defined.
