(* ===== verification/DhtHandler.v ===== *)
(** packages/dht/src/worker/handler.rs: the task that owns the state of a DHT
    node and runs its requests, responses, look-ups, bootstrap and refresh.

    The handler runs one task at a time, so its locks and atomics are fields.
    An action is shared through an [Arc]; what an operation did to it is
    written back to the table of actions.  The handshaker is the client's: its
    port is a field and the connections it is asked for are recorded.  Log
    output is left out. *)

From stdpp Require Import base numbers strings gmap list.
From S2P Require Import Prelude RustStd Extern Convert Sha Node RoutingTable Token Storage Transaction Bencode DhtMessage Worker Lookup Bootstrap.

Definition MAX_BOOTSTRAP_ATTEMPTS : nat := 3.
Definition BOOTSTRAP_GOOD_NODE_THRESHOLD : nat := 10.

Inductive TableAction :=
  | ActLookup (l : TableLookup)
  | ActRefresh (r : TableRefresh)
  | ActBootstrap (b : TableBootstrap) (attempts : nat).

Inductive PostBootstrapAction :=
  | PostLookup (info_hash : ShaHash) (should_announce : bool)
  | PostRefresh (refresh : TableRefresh) (t : TransactionID).

Inductive OneshotTask :=
  | Incoming (buffer : bytes) (addr : SocketAddr)
  | RegisterSender (send : Chan DhtEvent)
  | StartBootstrap (routers : list Router) (nodes : list SocketAddr)
  | StartLookup (info_hash : ShaHash) (should_announce : bool)
  | Shutdown (cause : ShutdownCause).

Record DhtHandler := {
  h_handshaker_port : Z;
  h_connects : list (ShaHash * SocketAddr);
  h_world : World;
  table_actions : gmap Z TableAction;
  h_main_tasks : Chan OneshotTask;
  read_only : bool;
  bootstrapping : bool;
  token_store : TokenStore;
  aid_generator : IdBlock;
  active_stores : AnnounceStorage;
  future_actions : list PostBootstrapAction;
  event_notifiers : list (Chan DhtEvent)
}.

Section Setters.
Context (h : DhtHandler).
Definition with_world (w : World) : DhtHandler :=
  Build_DhtHandler (h_handshaker_port h) (h_connects h) w (table_actions h) (h_main_tasks h) (read_only h) (bootstrapping h)
    (token_store h) (aid_generator h) (active_stores h) (future_actions h) (event_notifiers h).
Definition with_connects (l : list (ShaHash * SocketAddr)) : DhtHandler :=
  Build_DhtHandler (h_handshaker_port h) l (h_world h) (table_actions h) (h_main_tasks h) (read_only h) (bootstrapping h)
    (token_store h) (aid_generator h) (active_stores h) (future_actions h) (event_notifiers h).
Definition with_actions (m : gmap Z TableAction) : DhtHandler :=
  Build_DhtHandler (h_handshaker_port h) (h_connects h) (h_world h) m (h_main_tasks h) (read_only h) (bootstrapping h)
    (token_store h) (aid_generator h) (active_stores h) (future_actions h) (event_notifiers h).
Definition with_main (c : Chan OneshotTask) : DhtHandler :=
  Build_DhtHandler (h_handshaker_port h) (h_connects h) (h_world h) (table_actions h) c (read_only h) (bootstrapping h)
    (token_store h) (aid_generator h) (active_stores h) (future_actions h) (event_notifiers h).
Definition with_bootstrapping (b : bool) : DhtHandler :=
  Build_DhtHandler (h_handshaker_port h) (h_connects h) (h_world h) (table_actions h) (h_main_tasks h) (read_only h) b
    (token_store h) (aid_generator h) (active_stores h) (future_actions h) (event_notifiers h).
Definition with_tokens (s : TokenStore) : DhtHandler :=
  Build_DhtHandler (h_handshaker_port h) (h_connects h) (h_world h) (table_actions h) (h_main_tasks h) (read_only h)
    (bootstrapping h) s (aid_generator h) (active_stores h) (future_actions h) (event_notifiers h).
Definition with_aids (g : IdBlock) : DhtHandler :=
  Build_DhtHandler (h_handshaker_port h) (h_connects h) (h_world h) (table_actions h) (h_main_tasks h) (read_only h)
    (bootstrapping h) (token_store h) g (active_stores h) (future_actions h) (event_notifiers h).
Definition with_stores (s : AnnounceStorage) : DhtHandler :=
  Build_DhtHandler (h_handshaker_port h) (h_connects h) (h_world h) (table_actions h) (h_main_tasks h) (read_only h)
    (bootstrapping h) (token_store h) (aid_generator h) s (future_actions h) (event_notifiers h).
Definition with_future (l : list PostBootstrapAction) : DhtHandler :=
  Build_DhtHandler (h_handshaker_port h) (h_connects h) (h_world h) (table_actions h) (h_main_tasks h) (read_only h)
    (bootstrapping h) (token_store h) (aid_generator h) (active_stores h) l (event_notifiers h).
Definition with_notifiers (l : list (Chan DhtEvent)) : DhtHandler :=
  Build_DhtHandler (h_handshaker_port h) (h_connects h) (h_world h) (table_actions h) (h_main_tasks h) (read_only h)
    (bootstrapping h) (token_store h) (aid_generator h) (active_stores h) (future_actions h) l.
End Setters.

Definition h_table (h : DhtHandler) : RoutingTable := w_table (h_world h).
Definition with_table (h : DhtHandler) (t : RoutingTable) : DhtHandler := with_world h (set_table (h_world h) t).
Definition set_action (h : DhtHandler) (aid : Z) (a : TableAction) : DhtHandler :=
  with_actions h (<[aid := a]> (table_actions h)).

(** * Events *)

(** [try_send] on a clone of the sender: a clone has a slot of its own, so it
    fails only when the receiver is gone. *)
Definition broadcast_dht_event (h : DhtHandler) (event : DhtEvent) : DhtHandler :=
  with_notifiers h (fst <$> List.filter snd ((λ c, chan_send c event) <$> event_notifiers h)).

(** Shutting down is announced; nothing is stopped. *)
Definition handle_shutdown (h : DhtHandler) (cause : ShutdownCause) : DhtHandler :=
  broadcast_dht_event h (ShuttingDown cause).

Definition handle_register_sender (h : DhtHandler) (sender : Chan DhtEvent) : DhtHandler :=
  with_notifiers h (event_notifiers h ++ [sender]).

(** Send a response; a closed channel is a shutdown. *)
Definition respond (h : DhtHandler) (msg : bytes) (addr : SocketAddr) : DhtHandler :=
  let '(w, ok) := send_out (h_world h) (msg, addr) in
  let h := with_world h w in
  if negb ok then handle_shutdown h Unspecified else h.

Section Handler.
Context `{Sha1} `{Chrono} `{HashOrder} (now instant : Z) (draws : nat → nat → nat) (secrets : nat → Z * Z)
  (to_socket_addrs : bytes * Z → option (list SocketAddr)).

Definition handler_generate_aid (h : DhtHandler) : res False (DhtHandler * MIDGenerator) :=
  let w := h_world h in
  '(b, g) ← AIDGenerator_generate (draws (w_seed w)) (aid_generator h);
  Ok (with_aids (with_world h {| w_table := w_table w; w_out := w_out w; w_timers := w_timers w; w_seed := S (w_seed w) |}) b, g).

(** The random numbers of the next call of the token store. *)
Definition next_secrets (h : DhtHandler) : DhtHandler * (Z * Z) :=
  let w := h_world h in
  (with_world h {| w_table := w_table w; w_out := w_out w; w_timers := w_timers w; w_seed := S (w_seed w) |}, secrets (w_seed w)).

(** [DhtHandler::new]; the shuffle of the action ids is the first one. *)
Definition DhtHandler_new (table : RoutingTable) (out : Chan (bytes * SocketAddr)) (main_tasks : Chan OneshotTask)
    (ro : bool) (handshaker_port : Z) : res False DhtHandler :=
  aids ← AIDGenerator_new (draws 0);
  '(aids, mid) ← AIDGenerator_generate (draws 1) aids;
  '(mid, refresh_trans_id) ← MIDGenerator_generate (draws 2) mid;
  let table_refresh := TableRefresh_new mid in
  Ok {| h_handshaker_port := handshaker_port; h_connects := [];
        h_world := {| w_table := table; w_out := out; w_timers := []; w_seed := 3 |};
        table_actions := ∅; h_main_tasks := main_tasks; read_only := ro; bootstrapping := false;
        token_store := TokenStore_new now (secrets 0).1 (secrets 0).2; aid_generator := aids;
        active_stores := AnnounceStorage_new; future_actions := [PostRefresh table_refresh refresh_trans_id];
        event_notifiers := [] |}.

(** * Bootstrapping again *)

Definition num_good_nodes (table : RoutingTable) : res False nat :=
  l ← closest_list now table (node_id table);
  Ok (length (List.filter (λ n, bool_decide (status now n = Good)) l)).

Definition should_rebootstrap (table : RoutingTable) : res False bool :=
  n ← num_good_nodes table; Ok (n <=? BOOTSTRAP_GOOD_NODE_THRESHOLD).

Definition shutdown_event_loop (h : DhtHandler) (cause : ShutdownCause) : DhtHandler :=
  with_main h (chan_send (h_main_tasks h) (Shutdown cause)).1.

(** [Ok(_) | Err(_)] of the last match is unreachable. *)
Definition attempt_rebootstrap (h : DhtHandler) (bootstrap : TableBootstrap) (attempts : nat) :
    res False (DhtHandler * TableBootstrap * nat * option bool) :=
  let attempt := attempts + 1 in
  if MAX_BOOTSTRAP_ATTEMPTS <=? attempt then
    n ← num_good_nodes (h_table h);
    if n =? 0 then Ok (shutdown_event_loop h BootstrapFailed, bootstrap, attempt, None)
    else Ok (h, bootstrap, attempt, Some false)
  else
    '(bootstrap, w, status) ← start_bootstrap instant draws bootstrap (h_world h);
    let h := with_world h w in
    match status with
    | inl BootIdle => Ok (h, bootstrap, attempt, Some false)
    | inl Bootstrapping => Ok (h, bootstrap, attempt, Some true)
    | inr BootFailed => Ok (shutdown_event_loop h Unspecified, bootstrap, attempt, None)
    | _ => Panic AssertFailed
    end.

(** * Refresh and look-ups *)

Definition handle_check_table_refresh (h : DhtHandler) (t : TransactionID) : res False DhtHandler :=
  match table_actions h !! tid_action_id t with
  | Some (ActRefresh refresh) =>
      '(refresh, w, status) ← continue_refresh now draws refresh (h_world h);
      let h := set_action (with_world h w) (tid_action_id t) (ActRefresh refresh) in
      match status with Refreshing => Ok h | RefreshFailed => Ok (handle_shutdown h Unspecified) end
  | Some (ActLookup _) | Some (ActBootstrap _ _) | None => Ok h
  end.

Definition handle_start_lookup (h : DhtHandler) (info_hash : ShaHash) (should_announce : bool) : res False DhtHandler :=
  '(h, mid_generator) ← handler_generate_aid h;
  let action_id := mid_gen_action_id mid_generator in
  if bootstrapping h then Ok (with_future h (future_actions h ++ [PostLookup info_hash should_announce])) else
  '(w, lookup) ← TableLookup_new now instant draws (node_id (h_table h)) info_hash mid_generator should_announce (h_world h);
  let h := with_world h w in
  match lookup with
  | Some lookup => Ok (set_action h action_id (ActLookup lookup))
  | None => Ok (handle_shutdown h Unspecified)
  end.

(** What the handler does with the status of a look-up. *)
Definition lookup_outcome (h : DhtHandler) (status : LookupStatus) (info_hash : ShaHash) : DhtHandler :=
  match status with
  | Searching => h
  | LookupDone => broadcast_dht_event h (LookupCompleted info_hash)
  | LookupFailed => handle_shutdown h Unspecified
  | FoundValues values => with_connects h (h_connects h ++ ((λ v4_addr, (info_hash, SockV4 v4_addr)) <$> values))
  end.

Definition handle_check_lookup_timeout (h : DhtHandler) (t : TransactionID) : res False DhtHandler :=
  match table_actions h !! tid_action_id t with
  | Some (ActLookup lookup) =>
      '(lookup, w, status) ← lookup_recv_timeout now instant draws lookup (h_world h) t;
      Ok (lookup_outcome (set_action (with_world h w) (tid_action_id t) (ActLookup lookup)) status (lookup_info_hash lookup))
  | Some (ActBootstrap _ _) | Some (ActRefresh _) | None => Ok h
  end.

Definition handle_check_lookup_endgame (h : DhtHandler) (t : TransactionID) : res False DhtHandler :=
  match table_actions h !! tid_action_id t with
  | Some (ActLookup lookup) =>
      '(lookup, w, status) ← lookup_recv_finished now draws lookup (h_world h) (h_handshaker_port h);
      Ok (lookup_outcome (set_action (with_world h w) (tid_action_id t) (ActLookup lookup)) status (lookup_info_hash lookup))
  | Some (ActBootstrap _ _) | Some (ActRefresh _) | None => Ok h
  end.

(** * Bootstrap *)

Fixpoint start_future (h : DhtHandler) (l : list PostBootstrapAction) : res False DhtHandler :=
  match l with
  | [] => Ok h
  | PostLookup info_hash should_announce :: l' =>
      h ← handle_start_lookup h info_hash should_announce; start_future h l'
  | PostRefresh refresh t :: l' =>
      h ← handle_check_table_refresh (set_action h (tid_action_id t) (ActRefresh refresh)) t; start_future h l'
  end.

Definition broadcast_bootstrap_completed (h : DhtHandler) (action_id : Z) : res False DhtHandler :=
  let h := broadcast_dht_event h BootstrapCompleted in
  let h := with_bootstrapping h false in
  let h := with_actions h (delete action_id (table_actions h)) in
  let l := future_actions h in
  start_future (with_future h []) l.

Definition handle_start_bootstrap (h : DhtHandler) (routers : list Router) (nodes : list SocketAddr) : res False DhtHandler :=
  let router_addrs :=
    omap (λ r, match router_ipv4_addr to_socket_addrs r with Ok a => Some (SockV4 a) | _ => None end) routers in
  '(h, mid_generator) ← handler_generate_aid h;
  let action_id := mid_gen_action_id mid_generator in
  let table_bootstrap := TableBootstrap_new (node_id (h_table h)) mid_generator nodes router_addrs in
  '(table_bootstrap, w, status) ← start_bootstrap instant draws table_bootstrap (h_world h);
  let h := with_bootstrapping (with_world h w) true in
  let h := set_action h action_id (ActBootstrap table_bootstrap 0) in
  match status with
  | inl BootIdle => broadcast_bootstrap_completed h action_id
  | inl Bootstrapping => Ok h
  | inr BootFailed => Ok (handle_shutdown h Unspecified)
  | _ => Panic AssertFailed
  end.

(** What the handler does with the status of a bootstrap, in the response and
    the timeout handlers alike: the state, and whether the bootstrap is over. *)
Definition bootstrap_outcome (h : DhtHandler) (aid : Z) (bootstrap : TableBootstrap) (attempts : nat)
    (status : BootstrapStatus) : res False (DhtHandler * bool) :=
  match status with
  | BootIdle => Ok (h, true)
  | Bootstrapping => Ok (h, false)
  | BootFailed => Ok (handle_shutdown h Unspecified, false)
  | BootCompleted =>
      again ← should_rebootstrap (h_table h);
      if again : bool then
        '(h, bootstrap, attempts, r) ← attempt_rebootstrap h bootstrap attempts;
        Ok (set_action h aid (ActBootstrap bootstrap attempts), bool_decide (r = Some false))
      else Ok (h, true)
  end.

Definition finish_bootstrap (h : DhtHandler) (aid : Z) (bootstrap_complete : bool) : res False DhtHandler :=
  if bootstrap_complete then broadcast_bootstrap_completed h aid else Ok h.

Definition handle_check_bootstrap_timeout (h : DhtHandler) (t : TransactionID) : res False DhtHandler :=
  let aid := tid_action_id t in
  match table_actions h !! aid with
  | Some (ActBootstrap bootstrap attempts) =>
      '(bootstrap, w, status) ← bootstrap_recv_timeout now instant draws bootstrap (h_world h) t;
      let h := set_action (with_world h w) aid (ActBootstrap bootstrap attempts) in
      '(h, complete) ← bootstrap_outcome h aid bootstrap attempts status;
      finish_bootstrap h aid complete
  | Some (ActLookup _) | Some (ActRefresh _) | None => Ok h
  end.

Definition handle_scheduled_task (h : DhtHandler) (task : ScheduledTaskCheck) : res False DhtHandler :=
  match task with
  | CheckTableRefresh t => handle_check_table_refresh h t
  | CheckBootstrapTimeout t => handle_check_bootstrap_timeout h t
  | CheckLookupTimeout t => handle_check_lookup_timeout h t
  | CheckLookupEndGame t => handle_check_lookup_endgame h t
  end.

(** * Requests *)

Definition mark_remote_request (h : DhtHandler) (node : Node) : res False DhtHandler :=
  t ← mark_found now (remote_request now) (h_table h) node; Ok (with_table h t).

(** [for node in closest_nodes(target).take(8) { extend_from_slice(&node.encode()) }] *)
Fixpoint encode_nodes (l : list Node) : res False bytes :=
  match l with
  | [] => Ok []
  | node :: l' => b ← Node_encode node; rest ← encode_nodes l'; Ok (b ++ rest)
  end.

Definition closest_nodes_bytes (t : RoutingTable) (target : ShaHash) : res False bytes :=
  l ← closest_list now t target; encode_nodes (take 8 l).

Definition handle_ping (h : DhtHandler) (p : PingRequest) (addr : SocketAddr) : res False DhtHandler :=
  h ← mark_remote_request h (as_good now (pq_node_id p) addr);
  let ping_rsp := {| ps_trans_id := pq_trans_id p; ps_node_id := node_id (h_table h) |} in
  Ok (respond h (PingResponse_encode ping_rsp) addr).

Definition handle_find_node (h : DhtHandler) (f : FindNodeRequest) (addr : SocketAddr) : res False DhtHandler :=
  h ← mark_remote_request h (as_good now (fq_node_id f) addr);
  closest ← closest_nodes_bytes (h_table h) (fq_target_id f);
  rsp ← unwrap_res (FindNodeResponse_new (fq_trans_id f) (node_id (h_table h)) closest);
  Ok (respond h (FindNodeResponse_encode rsp) addr).

(** The closure given to [find_items]: nothing for an IPv6 address. *)
Definition contact_bytes (a : SocketAddr) : bytes :=
  match a with
  | SockV4 v4_addr =>
      let b := copy_into (replicate 6 0%Z) (ipv4_to_bytes_be (v4_ip v4_addr)) in
      let port := sock_port a in
      <[5 := as_u8 (Z.land port 255)]> (<[4 := as_u8 (Z.shiftr port 8)]> b)
  | SockV6 _ => []
  end.

(** [for chunk_index in 0..(len / 6) { push(ben_bytes!(&bytes[start..end])) }] *)
Definition contact_bencode (contact_info_bytes : bytes) : list BencodeMut :=
  (λ chunk_index : nat, new_bytes (slice contact_info_bytes (chunk_index * 6) (chunk_index * 6 + 6)))
    <$> seq 0 (length contact_info_bytes / 6).

Definition handle_get_peers (h : DhtHandler) (g : GetPeersRequest) (addr : SocketAddr) : res False DhtHandler :=
  h ← mark_remote_request h (as_good now (gq_node_id g) addr);
  let '(stores, items) := find_items (active_stores h) (gq_info_hash g) now in
  let h := with_stores h stores in
  let contact_info_bencode := contact_bencode (concat (contact_bytes <$> items)) in
  closest ← closest_nodes_bytes (h_table h) (gq_info_hash g);
  let '(h, s) := next_secrets h in
  let '(tokens, token) := checkout now s.1 s.2 (token_store h) (IpAddr_from_socket_addr addr) in
  let h := with_tokens h tokens in
  compact_info_type ←
    (if bool_decide (contact_info_bencode = []) then
       n ← unwrap_res (CompactNodeInfo_new closest); Ok (Nodes n)
     else
       n ← unwrap_res (CompactNodeInfo_new closest);
       v ← unwrap_res (CompactValueInfo_new contact_info_bencode);
       Ok (Both n v));
  let rsp := {| gs_trans_id := gq_trans_id g; gs_node_id := node_id (h_table h); gs_token := Some (Token.token token);
                gs_info_type := compact_info_type |} in
  Ok (respond h (GetPeersResponse_encode rsp) addr).

Definition connect_addr (addr : SocketAddr) (p : ConnectPort) : SocketAddr :=
  match p with
  | Implied => addr
  | Explicit port =>
      match addr with
      | SockV4 v4_addr => SockV4 {| v4_ip := v4_ip v4_addr; v4_port := port |}
      | SockV6 v6_addr => SockV6 {| v6_ip := v6_ip v6_addr; v6_port := port; v6_flowinfo := v6_flowinfo v6_addr;
                                    v6_scope_id := v6_scope_id v6_addr |}
      end
  end.

Definition handle_announce_peer (h : DhtHandler) (a : AnnouncePeerRequest) (addr : SocketAddr) : res False DhtHandler :=
  h ← mark_remote_request h (as_good now (aq_node_id a) addr);
  let '(h, is_valid) :=
    match Token_new (aq_token a) with
    | Ok t =>
        let '(h, s) := next_secrets h in
        let '(tokens, ok) := checkin now s.1 s.2 (token_store h) (IpAddr_from_socket_addr addr) t in
        (with_tokens h tokens, ok)
    | _ => (h, false)
    end in
  let connect := connect_addr addr (aq_port a) in
  if negb is_valid then
    Ok (respond h (ErrorMessage_encode {| em_trans_id := aq_trans_id a; em_code := ProtocolError;
                                          em_message := bstr "Received An Invalid Token" |}) addr)
  else
    let '(stores, stored) := add_item (active_stores h) (aq_info_hash a) connect now now in
    let h := with_stores h stores in
    if (stored : bool) then
      Ok (respond h (AnnouncePeerResponse_encode {| as_trans_id := aq_trans_id a; as_node_id := node_id (h_table h) |}) addr)
    else
      Ok (respond h (ErrorMessage_encode {| em_trans_id := aq_trans_id a; em_code := ServerError;
                                            em_message := bstr "Announce Storage Is Full" |}) addr).

(** * Responses *)

Definition handle_find_node_response (h : DhtHandler) (f : FindNodeResponse) (addr : SocketAddr) : res False DhtHandler :=
  t ← unwrap (TransactionID_from_bytes (fs_trans_id f));
  let aid := tid_action_id t in
  let node := as_good now (fs_node_id f) addr in
  nodes ← collect_nodes (fs_nodes f);
  table ← add_all (add_node now) (h_table h) (node_of now <$> nodes);
  let h := with_table h table in
  match table_actions h !! aid with
  | Some (ActRefresh _) => table ← add_node now (h_table h) node; Ok (with_table h table)
  | Some (ActBootstrap bootstrap attempts) =>
      table ← (if negb (is_router bootstrap (Node.addr node)) then add_node now (h_table h) node else Ok (h_table h));
      let h := with_table h table in
      '(bootstrap, w, status) ← bootstrap_recv_response now instant draws bootstrap (h_world h) t;
      let h := set_action (with_world h w) aid (ActBootstrap bootstrap attempts) in
      '(h, complete) ← bootstrap_outcome h aid bootstrap attempts status;
      finish_bootstrap h aid complete
  | Some (ActLookup _) | None => Ok h
  end.

Definition handle_get_peers_response {B} `{!BRefAccess B} (h : DhtHandler) (g : GetPeersResponse B) (addr : SocketAddr) :
    res False DhtHandler :=
  t ← unwrap (TransactionID_from_bytes (gs_trans_id g));
  let aid := tid_action_id t in
  let node := as_good now (gs_node_id g) addr in
  table ← add_node now (h_table h) node;
  let h := with_table h table in
  match table_actions h !! aid with
  | Some (ActLookup lookup) =>
      '(lookup, w, status) ← lookup_recv_response now instant draws lookup (h_world h) node t g;
      Ok (lookup_outcome (set_action (with_world h w) aid (ActLookup lookup)) status (lookup_info_hash lookup))
  | Some (ActRefresh _) | Some (ActBootstrap _ _) | None => Ok h
  end.

(** * Messages and tasks *)

(** The closure given to [MessageType::new]. *)
Definition expected_response (h : DhtHandler) (trans : bytes) : ExpectedResponse :=
  match TransactionID_from_bytes trans with
  | None => ExpNone
  | Some t =>
      match table_actions h !! tid_action_id t with
      | None => ExpNone
      | Some (ActLookup _) => ExpGetPeers
      | Some (ActRefresh _) | Some (ActBootstrap _ _) => ExpFindNode
      end
  end.

Definition handle_message {B} `{!BRefAccess B} (h : DhtHandler) (message : res DhtError (MessageType B)) (addr : SocketAddr) :
    res False DhtHandler :=
  match message with
  | Panic f => Panic f
  | Err _ => Ok h
  | Ok (MsgRequest r) =>
      if read_only h then Ok h else
      match r with
      | RqPing p => handle_ping h p addr
      | RqFindNode f => handle_find_node h f addr
      | RqGetPeers g => handle_get_peers h g addr
      | RqAnnouncePeer a => handle_announce_peer h a addr
      end
  | Ok (MsgResponse (RsFindNode f)) => handle_find_node_response h f addr
  | Ok (MsgResponse (RsGetPeers g)) => handle_get_peers_response h g addr
  | Ok (MsgResponse (RsPing _)) | Ok (MsgResponse (RsAnnouncePeer _)) | Ok (MsgError _) => Ok h
  end.

Definition handle_incoming (h : DhtHandler) (buffer : bytes) (addr : SocketAddr) : res False DhtHandler :=
  match BencodeRef_decode buffer BDecodeOpt_default with
  | Ok bencode => handle_message h (MessageType_new bencode (expected_response h)) addr
  | Err _ => Ok h
  | Panic f => Panic f
  end.

Definition handle_task (h : DhtHandler) (task : OneshotTask) : res False DhtHandler :=
  match task with
  | Incoming buffer addr => handle_incoming h buffer addr
  | RegisterSender send => Ok (handle_register_sender h send)
  | StartBootstrap routers nodes => handle_start_bootstrap h routers nodes
  | StartLookup info_hash should_announce => handle_start_lookup h info_hash should_announce
  | Shutdown cause => Ok (handle_shutdown h cause)
  end.
End Handler.
