(* ===== verification/DhtHandlerProps.v ===== *)
(** The handler of a DHT node: which datagrams can change it, what it answers,
    who may announce, and that no look-up is ever brought to its end. *)

From stdpp Require Import base numbers strings gmap relations list.
From S2P Require Import Prelude RustStd Extern Convert Sha Node RoutingTable RoutingTheorems RoutingProperties Token Storage Transaction Bencode BencodeTheorems DhtMessage DhtMessageProps Worker Lookup LookupProps Bootstrap WorkerProps DhtHandler.

(** * No timer for the end of a look-up *)

Abbreviation quiet h h' := (no_endgame (h_world h) (h_world h')) (only parsing).

Lemma respond_quiet h m a : quiet h (respond h m a).
Proof.
  unfold respond. destruct (send_out _ _) as [w ok] eqn:E. apply send_no_endgame in E. by destruct ok.
Qed.

Lemma outcome_world h st i : h_world (lookup_outcome h st i) = h_world h.
Proof. by destruct st. Qed.

Lemma ping_all_quiet w m l w' ok : ping_all w m l = (w', ok) → no_endgame w w'.
Proof.
  revert w. induction l as [|a l IH]; intros w; cbn [ping_all]; [by intros [= <- <-]|].
  destruct (send_out w (m, a)) as [w1 []] eqn:E; apply send_no_endgame in E; cbn [negb].
  - intros Hp%IH. by etransitivity.
  - by intros [= <- <-].
Qed.

Lemma drop_last_quiet w : no_endgame w (drop_last_timer w).
Proof.
  intros ms t. cbn [drop_last_timer w_timers]. intros Hin. destruct (w_timers w) as [|x l] eqn:E using rev_ind; [done|].
  clear IHl. rewrite removelast_last in Hin. apply elem_of_app. by left.
Qed.

Section Quiet.
Context `{Sha1} `{Chrono} `{HashOrder} (now instant : Z) (draws : nat → nat → nat) (secrets : nat → Z * Z)
  (to_socket_addrs : bytes * Z → option (list SocketAddr)).

Lemma continue_refresh_quiet r w r' w' st : continue_refresh now draws r w = Ok (r', w', st) → no_endgame w w'.
Proof.
  unfold continue_refresh. intros Hr. bind_step. bind_step.
  assert (Hping : ∀ g local target o w1 g1 ok, refresh_ping now draws w g local target o = Ok (w1, g1, ok) → no_endgame w w1).
  { intros g local target [n|] w1 g1 ok Hp; cbn [refresh_ping] in Hp; bind_all; world_facts; by world_chain. }
  bind_all; match goal with E : refresh_ping _ _ _ _ _ _ _ = Ok _ |- _ => apply Hping in E end; world_facts; by world_chain.
Qed.

Lemma start_bootstrap_quiet b w b' w' st : start_bootstrap instant draws b w = Ok (b', w', st) → no_endgame w w'.
Proof.
  unfold start_bootstrap. intros Hr. bind_step. bind_step. bind_step. destruct (ping_all _ _ _) as [w1 ok] eqn:Ep in Hr.
  apply ping_all_quiet in Ep. world_facts.
  assert (Hq : no_endgame w w1) by (etransitivity; [|exact Ep]; by world_chain).
  destruct ok; cbn [negb] in Hr; bind_all; [done|]. etransitivity; [exact Hq|apply drop_last_quiet].
Qed.

Lemma bootstrap_loop_quiet s w target l n s' w' r : bootstrap_loop now instant draws s w target l n = Ok (s', w', r) → no_endgame w w'.
Proof.
  revert s w n. induction l as [|m l IH]; intros s w n Hr; cbn [bootstrap_loop] in Hr; [by bind_all|].
  bind_all; world_facts; [by world_chain|]. apply IH in Hr. etransitivity; [|exact Hr]. by world_chain.
Qed.

Lemma next_bucket_quiet fuel s w s' w' st : bootstrap_next_bucket now instant draws fuel s w = Ok (s', w', st) → no_endgame w w'.
Proof.
  revert s w. induction fuel as [|fuel IH]; intros s w Hr; cbn [bootstrap_next_bucket] in Hr; [done|].
  bind_step. bind_step. bind_step. bind_step. bind_step.
  match goal with E : bootstrap_loop _ _ _ _ _ _ _ _ = Ok _ |- _ => apply bootstrap_loop_quiet in E end.
  match type of Hr with match ?o with _ => _ end = _ => destruct o end; bind_all; [done| |done|done].
  apply IH in Hr. by etransitivity.
Qed.

Lemma bootstrap_recv_quiet s w t s' w' st :
  bootstrap_recv_response now instant draws s w t = Ok (s', w', st) ∨ bootstrap_recv_timeout now instant draws s w t = Ok (s', w', st) →
  no_endgame w w'.
Proof.
  unfold bootstrap_recv_response, bootstrap_recv_timeout, next_bucket.
  intros [Hr|Hr]; destruct (active_messages s !! _); bind_all; try done; by eapply next_bucket_quiet.
Qed.

Lemma announces_quiet s w p l s' w' r : node_announces draws s w p l = Ok (s', w', r) → no_endgame w w'.
Proof.
  revert s w s' w' r. induction l as [|[m k] l IH]; intros s w s' w' r Hr; cbn [node_announces] in Hr; [by bind_all|].
  bind_all. world_facts. match goal with E : node_announces _ _ _ _ _ = Ok _ |- _ => apply IH in E end. by etransitivity.
Qed.

Lemma send_announces_quiet w f l w' r : send_announces now w f l = Ok (w', r) → no_endgame w w'.
Proof.
  revert w f. induction l as [|[m k] l IH]; intros w f Hr; cbn [send_announces] in Hr; [by bind_all|].
  destruct (send_out _ _) as [w1 ok] eqn:E. world_facts. bind_step. apply IH in Hr. etransitivity; [|exact Hr]. by world_chain.
Qed.

Lemma recv_finished_quiet s w p s' w' st : lookup_recv_finished now draws s w p = Ok (s', w', st) → no_endgame w w'.
Proof.
  unfold lookup_recv_finished. intros Hr. destruct (lk_will_announce s); bind_all; [|done].
  match goal with E : node_announces _ _ _ _ _ = Ok _ |- _ => apply announces_quiet in E end.
  match goal with E : send_announces _ _ _ _ = Ok _ |- _ => apply send_announces_quiet in E end. by etransitivity.
Qed.

(** ** The handlers *)

Lemma generate_aid_quiet h h' g : handler_generate_aid draws h = Ok (h', g) → quiet h h'.
Proof. unfold handler_generate_aid. intros Hr. bind_all. by apply no_endgame_eq. Qed.

Lemma check_refresh_quiet h t h' : handle_check_table_refresh now draws h t = Ok h' → quiet h h'.
Proof.
  unfold handle_check_table_refresh. intros Hr. repeat case_match; bind_all; try done; 
    match goal with E : continue_refresh _ _ _ _ = Ok _ |- _ => apply continue_refresh_quiet in E end;
    repeat case_match; by bind_all.
Qed.

Lemma start_lookup_quiet h i b h' : handle_start_lookup now instant draws h i b = Ok h' → quiet h h'.
Proof.
  unfold handle_start_lookup. intros Hr. bind_step. bind_step.
  match goal with E : handler_generate_aid _ _ = Ok _ |- _ => apply generate_aid_quiet in E end.
  bind_all; [done|]. match goal with E : TableLookup_new _ _ _ _ _ _ _ _ = Ok _ |- _ => apply new_spec in E as [E _] end.
  match type of Hr with match ?o with _ => _ end = _ => destruct o end; bind_all; by etransitivity.
Qed.

Lemma check_lookup_quiet h t h' :
  handle_check_lookup_timeout now instant draws h t = Ok h' ∨ handle_check_lookup_endgame now draws h t = Ok h' → quiet h h'.
Proof.
  unfold handle_check_lookup_timeout, handle_check_lookup_endgame.
  intros [Hr|Hr]; destruct (table_actions h !! _) as [[l| |]|]; bind_all; try done; rewrite outcome_world.
  - match goal with E : lookup_recv_timeout _ _ _ _ _ _ = Ok _ |- _ => by apply recv_timeout_spec in E as [? _] end.
  - match goal with E : lookup_recv_finished _ _ _ _ _ = Ok _ |- _ => by apply recv_finished_quiet in E end.
Qed.

Lemma start_future_quiet l : ∀ h h', start_future now instant draws h l = Ok h' → quiet h h'.
Proof.
  induction l as [|[i b|r t] l IH]; intros h h' Hr; cbn [start_future] in Hr; bind_all; [done|..]; apply IH in Hr.
  - match goal with E : handle_start_lookup _ _ _ _ _ _ = Ok _ |- _ => apply start_lookup_quiet in E end. by etransitivity.
  - match goal with E : handle_check_table_refresh _ _ _ _ = Ok _ |- _ => apply check_refresh_quiet in E end. by etransitivity.
Qed.

Lemma completed_quiet h a h' : broadcast_bootstrap_completed now instant draws h a = Ok h' → quiet h h'.
Proof. unfold broadcast_bootstrap_completed. intros Hr. exact (start_future_quiet _ _ _ Hr). Qed.

Lemma boot_outcome_quiet h a b n st h' r : bootstrap_outcome now instant draws h a b n st = Ok (h', r) → quiet h h'.
Proof.
  unfold bootstrap_outcome, attempt_rebootstrap. intros Hr. destruct st; bind_all; try done.
  match goal with E : start_bootstrap _ _ _ _ = Ok _ |- _ => apply start_bootstrap_quiet in E end.
  repeat match goal with E : match ?s with inl _ => _ | inr _ => _ end = Ok _ |- _ => destruct s as [[]|[]] end; by bind_all.
Qed.

Lemma finish_quiet h a c h' : finish_bootstrap now instant draws h a c = Ok h' → quiet h h'.
Proof. unfold finish_bootstrap. destruct c; [apply completed_quiet|]. intros Hr. by bind_all. Qed.

Lemma check_bootstrap_quiet h t h' : handle_check_bootstrap_timeout now instant draws h t = Ok h' → quiet h h'.
Proof.
  unfold handle_check_bootstrap_timeout. intros Hr. destruct (table_actions h !! _) as [[|?|b n]|]; bind_all; try done.
  match goal with E : bootstrap_recv_timeout _ _ _ _ _ _ = Ok _ |- _ => pose proof (bootstrap_recv_quiet _ _ _ _ _ _ (or_intror E)) end.
  match goal with E : bootstrap_outcome _ _ _ _ _ _ _ _ = Ok _ |- _ => apply boot_outcome_quiet in E end.
  apply finish_quiet in Hr. do 2 (etransitivity; [eassumption|]). done.
Qed.

Lemma start_bootstrap_task_quiet h rs ns h' : handle_start_bootstrap now instant draws to_socket_addrs h rs ns = Ok h' → quiet h h'.
Proof.
  unfold handle_start_bootstrap. intros Hr. bind_step. bind_step. bind_step. bind_step. bind_step.
  match goal with E : handler_generate_aid _ _ = Ok _ |- _ => apply generate_aid_quiet in E end.
  match goal with E : start_bootstrap _ _ _ _ = Ok _ |- _ => apply start_bootstrap_quiet in E end.
  match type of Hr with match ?s with inl _ => _ | inr _ => _ end = Ok _ => destruct s as [[]|[]] end; bind_all; try done;
    try (by etransitivity). apply completed_quiet in Hr. etransitivity; [eassumption|]. by etransitivity.
Qed.

Lemma mark_quiet h n h' : mark_remote_request now h n = Ok h' → quiet h h'.
Proof. unfold mark_remote_request. intros Hr. bind_all. by apply no_endgame_eq. Qed.

Lemma requests_quiet h addr h' :
  (∃ p, handle_ping now h p addr = Ok h') ∨ (∃ f, handle_find_node now h f addr = Ok h') ∨
  (∃ g, handle_get_peers now secrets h g addr = Ok h') ∨ (∃ a, handle_announce_peer now secrets h a addr = Ok h') → quiet h h'.
Proof.
  unfold handle_ping, handle_find_node, handle_get_peers, handle_announce_peer.
  intros [[p Hr]|[[p Hr]|[[p Hr]|[p Hr]]]]; bind_step;
    match goal with E : mark_remote_request _ _ _ = Ok _ |- _ => apply mark_quiet in E end.
  - bind_all. etransitivity; [eassumption|apply respond_quiet].
  - bind_all. etransitivity; [eassumption|apply respond_quiet].
  - destruct (find_items _ _ _) as [stores items]. bind_step. cbn [next_secrets] in Hr.
    destruct (checkout _ _ _ _ _) as [tokens token]. bind_all;
      (etransitivity; [eassumption|]); (etransitivity; [|apply respond_quiet]); by apply no_endgame_eq.
  - set (hv := match Token_new (aq_token p) with Ok _ => _ | _ => _ end) in Hr.
    assert (Hv : quiet a hv.1).
    { unfold hv. destruct (Token_new _); [|done|done]. cbn [next_secrets]. destruct (checkin _ _ _ _ _ _). by apply no_endgame_eq. }
    destruct hv as [h1 ok]. cbn [fst] in Hv.
    destruct ok; cbn [negb] in Hr; [destruct (add_item _ _ _ _ _) as [stores []]|]; bind_all;
      (etransitivity; [eassumption|]); (etransitivity; [exact Hv|]); (etransitivity; [|apply respond_quiet]); done.
Qed.

Lemma responses_quiet {B} `{!BRefAccess B} h addr h' :
  (∃ f, handle_find_node_response now instant draws h f addr = Ok h') ∨
  (∃ g : GetPeersResponse B, handle_get_peers_response now instant draws h g addr = Ok h') → quiet h h'.
Proof.
  unfold handle_find_node_response, handle_get_peers_response. intros [[f Hr]|[g Hr]].
  - do 3 bind_step. match type of Hr with match ?o with _ => _ end = _ => destruct o as [[?|?|b n]|] end; bind_all; try done;
      try (by apply no_endgame_eq).
    all: match goal with E : bootstrap_recv_response _ _ _ _ _ _ = Ok _ |- _ => pose proof (bootstrap_recv_quiet _ _ _ _ _ _ (or_introl E)) end.
    all: match goal with E : bootstrap_outcome _ _ _ _ _ _ _ _ = Ok _ |- _ => apply boot_outcome_quiet in E end.
    all: apply finish_quiet in Hr; do 2 (etransitivity; [eassumption|]); done.
  - do 2 bind_step. match type of Hr with match ?o with _ => _ end = _ => destruct o as [[?|?|b n]|] end; bind_all; try done;
      try (by apply no_endgame_eq).
    rewrite outcome_world. match goal with E : lookup_recv_response _ _ _ _ _ _ _ _ = Ok _ |- _ => apply recv_response_spec in E as [E _] end.
    done.
Qed.

Lemma handle_task_quiet h task h' : handle_task now instant draws secrets to_socket_addrs h task = Ok h' → quiet h h'.
Proof.
  destruct task as [b a|c|rs ns|i an|c]; cbn [handle_task]; intros Hr; [|by bind_all|by eapply start_bootstrap_task_quiet|
    by eapply start_lookup_quiet|by bind_all].
  unfold handle_incoming, handle_message in Hr. destruct (BencodeRef_decode _ _); [|by bind_all|done].
  destruct (MessageType_new _ _) as [[r|r|e]| |]; [..|by bind_all|done].
  - destruct (read_only h); [by bind_all|]. eapply requests_quiet. destruct r; naive_solver.
  - destruct r as [r|r|r|r]; [by bind_all|..|by bind_all].
    + eapply (responses_quiet (B:=BencodeRef)). left. eauto.
    + eapply (responses_quiet (B:=BencodeRef)). right. eauto.
  - by bind_all.
Qed.

Lemma scheduled_quiet h task h' : handle_scheduled_task now instant draws h task = Ok h' → quiet h h'.
Proof.
  destruct task; cbn [handle_scheduled_task]; intros Hr.
  - by eapply check_refresh_quiet.
  - by eapply check_bootstrap_quiet.
  - eapply check_lookup_quiet. eauto.
  - eapply check_lookup_quiet. eauto.
Qed.
End Quiet.

(** * Histories of a node *)

Section History.
Context `{Sha1} `{Chrono} `{HashOrder} (draws : nat → nat → nat) (secrets : nat → Z * Z)
  (to_socket_addrs : bytes * Z → option (list SocketAddr)).

(** The handler runs tasks as they come in, and the checks whose timers it has
    set. *)
Inductive handler_step : DhtHandler → DhtHandler → Prop :=
  | handle_main now instant h task h' :
      handle_task now instant draws secrets to_socket_addrs h task = Ok h' → handler_step h h'
  | handle_timer now instant h ms check h' :
      (ms, check) ∈ w_timers (h_world h) → handle_scheduled_task now instant draws h check = Ok h' → handler_step h h'.

(** In no history of a node, whatever it receives and whichever of its
    timers fire, is there a timer for the end of a look-up: the check that
    would finish a look-up and announce is never run. *)
Theorem endgame_never_scheduled now table out main ro port h0 h :
  DhtHandler_new now draws secrets table out main ro port = Ok h0 → rtc handler_step h0 h →
  ∀ ms t, (ms, CheckLookupEndGame t) ∉ w_timers (h_world h).
Proof.
  intros Hn Hr. assert (Hnil : w_timers (h_world h0) = []) by (unfold DhtHandler_new in Hn; by bind_all).
  enough (no_endgame (h_world h0) (h_world h)) as Hq.
  { intros ms t Hin%Hq. rewrite Hnil in Hin. by apply not_elem_of_nil in Hin. }
  clear Hn Hnil. induction Hr as [|h1 h2 h3 Hs _ IH]; [done|]. etransitivity; [|exact IH].
  destruct Hs as [now' instant h1 task h2 Ht|now' instant h1 ms check h2 _ Ht].
  - by eapply handle_task_quiet.
  - by eapply scheduled_quiet.
Qed.
End History.

Definition ex_out : Chan (bytes * SocketAddr) := {| sent := []; room := None |}.
Definition ex_main : Chan OneshotTask := {| sent := []; room := None |}.

Lemma endgame_never_scheduled_witness :
  ∃ h0, DhtHandler_new 1000 (λ _ i, i) (λ _, (1, 2)%Z) (RoutingTable_new (lk_id 0)) ex_out ex_main false 6881 = Ok h0 ∧
    ∀ ms t, (ms, CheckLookupEndGame t) ∉ w_timers (h_world h0).
Proof.
  assert (Hok : match DhtHandler_new 1000 (λ _ i, i) (λ _, (1, 2)%Z) (RoutingTable_new (lk_id 0)) ex_out ex_main false 6881
                with Ok _ => true | _ => false end = true) by (vm_compute; reflexivity).
  destruct (DhtHandler_new _ _ _ _ _ _ _ _) as [h0| |] eqn:E in Hok; [|discriminate Hok..].
  exists h0. split; [exact E|].
  exact (@endgame_never_scheduled toy_sha1 chrono_seconds hash_order_lists _ _ (λ _, None) _ _ _ _ _ _ _ _ E (rtc_refl _ h0)).
Defined.

(** * Which datagrams count *)

(** The transaction a message belongs to. *)
Definition request_trans (r : RequestType) : bytes :=
  match r with
  | RqPing r => pq_trans_id r | RqFindNode r => fq_trans_id r | RqGetPeers r => gq_trans_id r | RqAnnouncePeer r => aq_trans_id r
  end.
Definition response_trans {B} (r : ResponseType B) : bytes :=
  match r with
  | RsPing r => ps_trans_id r | RsFindNode r => fs_trans_id r | RsGetPeers r => gs_trans_id r | RsAnnouncePeer r => as_trans_id r
  end.
Definition message_trans {B} (m : MessageType B) : bytes :=
  match m with MsgRequest r => request_trans r | MsgResponse r => response_trans r | MsgError e => em_trans_id e end.

(** A response is read only for a transaction that was expected. *)
Lemma response_expected {B} `{!BRefAccess B} (v : B) f r :
  MessageType_new v f = Ok (MsgResponse r) → f (response_trans r) ≠ ExpNone.
Proof.
  unfold MessageType_new. intros Hr. bind_all;
    repeat match goal with H : _ <$> ?m = Ok _ |- _ => destruct m eqn:?; [|discriminate H|discriminate H]; simplify_eq/= end; try discriminate.
  match goal with H : ResponseType_from_parts _ ?t _ = Ok ?r |- _ => rename H into Hp; assert (Ht : response_trans r = t) end.
  { unfold ResponseType_from_parts in Hp. bind_all.
    destruct (f _); try discriminate Hp;
      (match type of Hp with _ <$> ?m = Ok _ => destruct m as [q| |] eqn:Hq; [|discriminate Hp|discriminate Hp] end);
      cbn [fmap res_fmap] in Hp; injection Hp as <-; cbn [response_trans].
    - unfold PingResponse_from_parts, PingRequest_from_parts in Hq. by bind_all.
    - unfold FindNodeResponse_from_parts, FindNodeResponse_new in Hq. by bind_all.
    - unfold GetPeersResponse_from_parts in Hq. do 2 bind_step. bind_step. by bind_all.
    - unfold AnnouncePeerResponse_from_parts in Hq. by bind_all. }
  rewrite Ht. intros He. unfold ResponseType_from_parts in Hp. rewrite He in Hp. by bind_all.
Qed.

Lemma decode_never_panics b opts f : BencodeRef_decode b opts ≠ Panic f.
Proof.
  assert (Hd : no_panic (decode b 0 opts 0)) by (unfold decode, decode_budget; apply decode_fuel_total; lia).
  unfold BencodeRef_decode. destruct (decode b 0 opts 0) as [[v e]|e|g]; cbn [mbind res_bind];
    [by destruct (_ && _)|done|by destruct (Hd g)].
Qed.

Lemma expected_never_data h t : expected_response h t ≠ ExpGetData ∧ expected_response h t ≠ ExpPutData.
Proof. unfold expected_response. by repeat case_match. Qed.

(** The response belongs to an action of the node. *)
Definition known_transaction (h : DhtHandler) (t : bytes) : Prop :=
  ∃ tid, TransactionID_from_bytes t = Some tid ∧ is_Some (table_actions h !! tid_action_id tid).

Lemma expected_known h t : expected_response h t ≠ ExpNone → known_transaction h t.
Proof.
  unfold expected_response, known_transaction. destruct (TransactionID_from_bytes t) as [tid|]; [|done].
  intros Hn. exists tid. split; [done|]. destruct (table_actions h !! tid_action_id tid); [eauto|done].
Qed.

Section Datagrams.
Context `{Sha1} `{Chrono} `{HashOrder} (now instant : Z) (draws : nat → nat → nat) (secrets : nat → Z * Z).

(** A datagram leaves the node exactly as it was, and draws no reply,
    unless it is a well-formed request to a node that is not read-only, or a
    response to a transaction of one of the node's current actions. *)
Theorem datagram_ignored h b addr :
  handle_incoming now instant draws secrets h b addr = Ok h ∨
  ∃ v m, BencodeRef_decode b BDecodeOpt_default = Ok v ∧ MessageType_new v (expected_response h) = Ok m ∧
    ((∃ r, m = MsgRequest r ∧ read_only h = false) ∨ (∃ r, m = MsgResponse r ∧ known_transaction h (response_trans r))).
Proof.
  unfold handle_incoming. destruct (BencodeRef_decode b BDecodeOpt_default) as [v|e|f] eqn:Ed;
    [|by left|by apply decode_never_panics in Ed].
  destruct (MessageType_new v (expected_response h)) as [m|e|f] eqn:Em; [|by left|].
  - destruct m as [r|r|e]; [| |by left].
    + destruct (read_only h) eqn:Er; [left; unfold handle_message; by rewrite Er|]. right. exists v, (MsgRequest r). split_and!; [done|done|].
      left. by exists r.
    + right. exists v, (MsgResponse r). split_and!; [done|done|]. right. exists r. split; [done|].
      apply expected_known. exact (response_expected v (expected_response h) r Em).
  - exfalso. exact (message_read_no_panic v (expected_response h) (expected_never_data h) f Em).
Qed.

(** * Answers *)

(** [h'] has sent [msg] to [addr] and nothing else since [h]. *)
Definition answered (h h' : DhtHandler) (msg : bytes) (addr : SocketAddr) : Prop :=
  sent (w_out (h_world h')) = sent (w_out (h_world h)) ++ [(msg, addr)].

Lemma respond_answered h0 h msg addr : w_out (h_world h) = w_out (h_world h0) → room (w_out (h_world h0)) = None →
  answered h0 (respond h msg addr) msg addr.
Proof. intros Ho Hr. unfold respond, answered. rewrite send_open by (by rewrite Ho). cbn. by rewrite Ho. Qed.

Lemma respond_stores h msg addr : active_stores (respond h msg addr) = active_stores h ∧ token_store (respond h msg addr) = token_store h.
Proof. unfold respond. destruct (send_out _ _) as [w []]; done. Qed.

Lemma validate_some addr tok s1 s2 : validate_token_from_addr addr tok s1 s2 = true →
  ∃ s, (s = s1 ∨ s = s2) ∧ tok = generate_token_from_addr addr s.
Proof.
  destruct addr; cbn [validate_token_from_addr]; intros [Hv|Hv]%orb_true_iff; apply bool_decide_eq_true in Hv; subst; eauto.
Qed.

Lemma mark_out h n h' : mark_remote_request now h n = Ok h' →
  w_out (h_world h') = w_out (h_world h) ∧ active_stores h' = active_stores h ∧ token_store h' = token_store h.
Proof. unfold mark_remote_request. intros Hr. by bind_all. Qed.

Lemma get_peers_answered h g addr h' : room (w_out (h_world h)) = None → handle_get_peers now secrets h g addr = Ok h' →
  ∃ m, answered h h' (message_encode m) addr ∧ message_trans m = gq_trans_id g.
Proof.
  intros Hroom. unfold handle_get_peers. intros Hr. bind_step.
  match goal with E : mark_remote_request _ _ _ = Ok _ |- _ => apply mark_out in E as (Ho & _ & _) end.
  destruct (find_items _ _ _) as [stores items]. bind_step. cbn [next_secrets] in Hr.
  destruct (checkout _ _ _ _ _) as [tokens token].
  match type of Hr with mbind _ ?m = _ => destruct m as [ci| |]; [rewrite bind_Ok in Hr|discriminate Hr|discriminate Hr] end.
  injection Hr as <-. eexists (MsgResponse (RsGetPeers _)). split; [by apply respond_answered|done].
Qed.

(** An announcement: the answer, and the storage it leaves. *)
Lemma announce_answered h a addr h' : room (w_out (h_world h)) = None → handle_announce_peer now secrets h a addr = Ok h' →
  ∃ m, answered h h' (message_encode m) addr ∧ message_trans m = aq_trans_id a.
Proof.
  intros Hroom. unfold handle_announce_peer. intros Hr. bind_step.
  match goal with E : mark_remote_request _ _ ?n = Ok ?x |- _ => rename x into h1; apply mark_out in E as (Ho & _ & _) end.
  set (hv := match Token_new (aq_token a) with Ok _ => _ | _ => _ end) in Hr.
  assert (Hv : w_out (h_world hv.1) = w_out (h_world h)).
  { unfold hv. destruct (Token_new _); [|done|done]. cbn [next_secrets]. by destruct (checkin _ _ _ _ _ _). }
  destruct hv as [h2 ok]. cbn [fst] in Hv.
  destruct ok; cbn [negb] in Hr; [destruct (add_item _ _ _ _ _) as [stores []]|]; injection Hr as <-;
    [eexists (MsgResponse (RsAnnouncePeer _))|eexists (MsgError _)|eexists (MsgError _)];
    (split; [by apply respond_answered|done]).
Qed.

(** Claim C35. Every request a node handles, while its channel is open, is
    answered with exactly one message, sent back to where the request came
    from and carrying its transaction id. *)
Theorem request_answered {B} `{!BRefAccess B} h r addr h' :
  read_only h = false → room (w_out (h_world h)) = None →
  handle_message (B:=B) now instant draws secrets h (Ok (MsgRequest r)) addr = Ok h' →
  ∃ m, sent (w_out (h_world h')) = sent (w_out (h_world h)) ++ [(message_encode m, addr)] ∧ message_trans m = request_trans r.
Proof.
  intros Hro Hroom. cbn [handle_message]. rewrite Hro. destruct r as [p|f|g|a]; intros Hr.
  - unfold handle_ping in Hr. bind_all. match goal with E : mark_remote_request _ _ _ = Ok _ |- _ => apply mark_out in E as (Ho & _ & _) end.
    eexists (MsgResponse (RsPing _)). split; [by apply respond_answered|done].
  - unfold handle_find_node in Hr. bind_all. match goal with E : mark_remote_request _ _ _ = Ok _ |- _ => apply mark_out in E as (Ho & _ & _) end.
    match goal with E : unwrap_res (FindNodeResponse_new ?t ?i ?b) = Ok ?x |- _ => rename x into rsp;
      assert (fs_trans_id rsp = t) by (unfold FindNodeResponse_new, unwrap_res in E; by destruct (ResponseValidate_nodes b); simplify_eq/=) end.
    eexists (MsgResponse (RsFindNode rsp)). split; [by apply respond_answered|done].
  - by apply get_peers_answered.
  - by apply announce_answered.
Qed.

(** * Announcing *)

(** Claim C34. A node stores a contact only for an announcement whose token is
    the one it computes for the sender's address from one of its two current
    secrets; any other announcement is answered with an error and leaves the
    stored contacts as they were. *)
Theorem announce_needs_token h a addr h' : handle_announce_peer now secrets h a addr = Ok h' →
  (∃ s, (s = curr_secret (token_store h') ∨ s = last_secret (token_store h')) ∧
    Token_new (aq_token a) = Ok (generate_token_from_addr (IpAddr_from_socket_addr addr) s)) ∨
  (active_stores h' = active_stores h ∧ (room (w_out (h_world h)) = None →
    ∃ text, answered h h' (ErrorMessage_encode {| em_trans_id := aq_trans_id a; em_code := ProtocolError; em_message := text |}) addr)).
Proof.
  unfold handle_announce_peer. intros Hr. bind_step.
  match goal with E : mark_remote_request _ _ ?n = Ok ?x |- _ => rename x into h1; apply mark_out in E as (Ho & Hst & Htk) end.
  destruct (Token_new (aq_token a)) as [tok|e|f] eqn:Et.
  - cbn [next_secrets] in Hr. unfold checkin in Hr. destruct (validate_token_from_addr _ _ _ _) eqn:Hval; cbn [negb] in Hr.
    + left. apply validate_some in Hval as (s & Hs & ->).
      exists s. split; [|done]. destruct (add_item _ _ _ _ _) as [stores []]; injection Hr as <-;
        by rewrite (proj2 (respond_stores _ _ _)).
    + right. injection Hr as <-. split; [by rewrite (proj1 (respond_stores _ _ _))|]. intros Hroom. eexists.
      by apply respond_answered.
  - right. cbn [negb] in Hr. injection Hr as <-. split; [by rewrite (proj1 (respond_stores _ _ _))|]. intros Hroom. eexists.
    by apply respond_answered.
  - right. cbn [negb] in Hr. injection Hr as <-. split; [by rewrite (proj1 (respond_stores _ _ _))|]. intros Hroom. eexists.
    by apply respond_answered.
Qed.
End Datagrams.

(** A node with an empty table. *)
Definition ex_handler : DhtHandler :=
  {| h_handshaker_port := 6881; h_connects := []; h_world := empty_world; table_actions := ∅; h_main_tasks := ex_main;
     read_only := false; bootstrapping := false; token_store := {| curr_secret := 1; last_secret := 2; last_refresh := 1000 |};
     aid_generator := {| next_alloc := 2048; curr_index := 0; ids := [3; 4]%Z |}; active_stores := AnnounceStorage_new;
     future_actions := []; event_notifiers := [] |}.

Definition ex_ping : RequestType := RqPing {| pq_trans_id := bstr "aa"; pq_node_id := lk_id 9 |}.
Definition ex_ping_result : res False DhtHandler :=
  @handle_message toy_sha1 chrono_seconds hash_order_lists 1000 0 (λ _ i, i) (λ _, (1, 2)%Z) BencodeMut _ ex_handler
    (Ok (MsgRequest ex_ping)) (SockV4 (lk_addr 5)).

Lemma request_answered_witness :
  ∃ h' m, ex_ping_result = Ok h' ∧ sent (w_out (h_world h')) = [(message_encode m, SockV4 (lk_addr 5))] ∧ message_trans m = bstr "aa".
Proof.
  assert (Hok : match ex_ping_result with Ok _ => true | _ => false end = true) by (vm_compute; reflexivity).
  destruct ex_ping_result as [h'| |] eqn:E in Hok; [|discriminate Hok..].
  destruct (@request_answered toy_sha1 chrono_seconds hash_order_lists 1000 0 (λ _ i, i) (λ _, (1, 2)%Z) BencodeMut _ ex_handler ex_ping
    (SockV4 (lk_addr 5)) h' eq_refl eq_refl E) as (m & Hs & Ht).
  by exists h', m.
Defined.

Definition ex_announce : AnnouncePeerRequest :=
  {| aq_trans_id := bstr "aa"; aq_node_id := lk_id 9; aq_info_hash := lk_id 7; aq_token := bstr "short"; aq_port := Implied |}.
Definition ex_announce_result : res False DhtHandler :=
  @handle_announce_peer toy_sha1 chrono_seconds 1000 (λ _, (1, 2)%Z) ex_handler ex_announce (SockV4 (lk_addr 5)).

Lemma announce_needs_token_witness :
  ∃ h', ex_announce_result = Ok h' ∧
  ((∃ s, (s = curr_secret (token_store h') ∨ s = last_secret (token_store h')) ∧
     Token_new (bstr "short") = Ok (@generate_token_from_addr toy_sha1 (IpAddr_from_socket_addr (SockV4 (lk_addr 5))) s)) ∨
   (active_stores h' = active_stores ex_handler)).
Proof.
  assert (Hok : match ex_announce_result with Ok _ => true | _ => false end = true) by (vm_compute; reflexivity).
  destruct ex_announce_result as [h'| |] eqn:E in Hok; [|discriminate Hok..]. exists h'. split; [done|].
  destruct (@announce_needs_token toy_sha1 chrono_seconds 1000 (λ _, (1, 2)%Z) ex_handler ex_announce (SockV4 (lk_addr 5)) h' E)
    as [Hs|[Hs _]]; [by left|by right].
Defined.
