(* ===== verification/Handshake.v ===== *)
(** packages/handshake/src/message and bittorrent/message.rs: the protocol
    name, the extension bits and the handshake message, written and parsed. *)

From stdpp Require Import base numbers strings list.
From S2P Require Import Prelude Extern Convert Sha.

(** * [Protocol] (message/protocol.rs) *)

Definition BT_PROTOCOL : bytes := bstr "BitTorrent protocol".
Definition BT_PROTOCOL_LEN : Z := 19.

Inductive Protocol := BitTorrent | Custom (prot : bytes).

#[export] Instance Protocol_eq_dec : EqDecision Protocol.
Proof. solve_decision. Defined.

(** The bytes written; both writers do the same. *)
Definition Protocol_write_bytes (self : Protocol) : bytes :=
  let (len, l) := match self with
                  | BitTorrent => (BT_PROTOCOL_LEN, BT_PROTOCOL)
                  | Custom prot => (Z.of_nat (length prot), prot)
                  end in
  [as_u8 len] ++ l.

Definition Protocol_write_len (self : Protocol) : nat :=
  match self with BitTorrent => Z.to_nat BT_PROTOCOL_LEN | Custom custom => length custom end.

(** * [Extensions] (message/extensions.rs) *)

Definition NUM_EXTENSION_BYTES : nat := 8.

Inductive Extension := ExtensionProtocol.
Definition active_bit (e : Extension) : nat := match e with ExtensionProtocol => 43 end.

Record Extensions := { ext_bytes : bytes }.

#[export] Instance Extensions_eq_dec : EqDecision Extensions.
Proof. solve_decision. Defined.

Definition Extensions_new : Extensions := {| ext_bytes := replicate NUM_EXTENSION_BYTES 0%Z |}.

Definition ext_mask (e : Extension) : Z := Z.shiftr 0x80 (Z.of_nat (active_bit e mod 8)).

Definition Extensions_add (self : Extensions) (e : Extension) : Extensions :=
  let byte_index := active_bit e / 8 in
  {| ext_bytes := <[byte_index := Z.lor (nth byte_index (ext_bytes self) 0%Z) (ext_mask e)]> (ext_bytes self) |}.

(** [!x] on a [u8] is [255 - x]. *)
Definition Extensions_remove (self : Extensions) (e : Extension) : Extensions :=
  let byte_index := active_bit e / 8 in
  {| ext_bytes := <[byte_index := Z.land (nth byte_index (ext_bytes self) 0%Z) (255 - ext_mask e)]> (ext_bytes self) |}.

Definition Extensions_contains (self : Extensions) (e : Extension) : bool :=
  let byte_index := active_bit e / 8 in
  negb (Z.land (nth byte_index (ext_bytes self) 0%Z) (ext_mask e) =? 0)%Z.

Definition Extensions_write_bytes (self : Extensions) : bytes := ext_bytes self.

Definition Extensions_union (self ext : Extensions) : Extensions :=
  {| ext_bytes := (λ index, Z.land (nth index (ext_bytes self) 0%Z) (nth index (ext_bytes ext) 0%Z)) <$> seq 0 NUM_EXTENSION_BYTES |}.

(** * [HandshakeMessage] (bittorrent/message.rs) *)

Record HandshakeMessage := { prot : Protocol; ext : Extensions; info_hash : ShaHash; pid : ShaHash }.

#[export] Instance HandshakeMessage_eq_dec : EqDecision HandshakeMessage.
Proof. solve_decision. Defined.

Definition from_parts {E} (p : Protocol) (e : Extensions) (h i : ShaHash) : res E HandshakeMessage :=
  let m := {| prot := p; ext := e; info_hash := h; pid := i |} in
  match p with
  | Custom custom => if Z.of_nat (length custom) <=? u8_max then Ok m else Panic AssertFailed
  | BitTorrent => Ok m
  end%Z.

Definition write_bytes (self : HandshakeMessage) : bytes :=
  Protocol_write_bytes (prot self) ++ Extensions_write_bytes (ext self) ++ hash (info_hash self) ++ hash (pid self).

Definition write_len_with_protocol_len (protocol_len : Z) : nat :=
  1 + Z.to_nat protocol_len + NUM_EXTENSION_BYTES + INFO_HASH_LEN + PEER_ID_LEN.

Definition write_len (self : HandshakeMessage) : nat :=
  write_len_with_protocol_len (as_u8 (Z.of_nat (Protocol_write_len (prot self)))).

Definition into_parts (self : HandshakeMessage) : Protocol * Extensions * ShaHash * ShaHash :=
  (prot self, ext self, info_hash self, pid self).

Section Parse.
Context `{Nom}.

(** [bytes[0]] is evaluated before the parser runs. *)
Definition parse_real_protocol : parser Protocol := λ l,
  match l !! 0 with
  | None => Panic IndexOutOfBounds
  | Some b0 =>
      '(remaining, (_, raw_protocol)) ← nom_pair nom_u8 (nom_take (Z.to_nat b0)) l;
      if bool_decide (raw_protocol = BT_PROTOCOL) then Ok (remaining, BitTorrent)
      else Ok (remaining, Custom raw_protocol)
  end.

Definition parse_protocol : parser Protocol := λ l, parse_real_protocol l.

Definition parse_raw_protocol : parser bytes := λ l,
  match l !! 0 with
  | None => Panic IndexOutOfBounds
  | Some b0 =>
      '(remaining, (_, raw_protocol)) ← nom_pair nom_u8 (nom_take (Z.to_nat b0)) l;
      Ok (remaining, raw_protocol)
  end.

(** [copy_from_slice] into the eight-byte array. *)
Definition parse_extension_bits : parser Extensions := λ l,
  '(remaining, l') ← nom_take NUM_EXTENSION_BYTES l;
  if length l' =? NUM_EXTENSION_BYTES then Ok (remaining, {| ext_bytes := l' |}) else Panic AssertFailed.

Definition hash_of (l : bytes) : option ShaHash :=
  match ShaHash_from_hash l with Ok h => Some h | _ => None end.

Definition parse_remote_hash : parser ShaHash := nom_map_res (nom_take INFO_HASH_LEN) hash_of.
Definition parse_remote_pid : parser ShaHash := nom_map_res (nom_take PEER_ID_LEN) hash_of.

(** The four parsers in order; what they leave is dropped. *)
Definition parse_remote_handshake (l : bytes) : res NomErr HandshakeMessage :=
  '(_, (p, (e, (h, i)))) ←
    nom_pair parse_protocol (nom_pair parse_extension_bits (nom_pair parse_remote_hash parse_remote_pid)) l;
  from_parts p e h i.

Definition HandshakeMessage_from_bytes (l : bytes) : res NomErr HandshakeMessage := parse_remote_handshake l.
End Parse.

(** * Well-formed messages *)

(** A message as [from_parts] and the array types allow; a custom protocol is
    not the name of the default one. *)
Record wf_message (m : HandshakeMessage) : Prop := {
  wfm_prot : match prot m with BitTorrent => True | Custom c => length c ≤ 255 ∧ c ≠ BT_PROTOCOL end;
  wfm_ext : length (ext_bytes (ext m)) = NUM_EXTENSION_BYTES;
  wfm_hash : length (hash (info_hash m)) = INFO_HASH_LEN;
  wfm_pid : length (hash (pid m)) = PEER_ID_LEN
}.

(** The raw protocol name a message carries. *)
Definition raw_protocol (p : Protocol) : bytes := match p with BitTorrent => BT_PROTOCOL | Custom c => c end.

Lemma Protocol_write_raw p : Protocol_write_bytes p = as_u8 (Z.of_nat (length (raw_protocol p))) :: raw_protocol p.
Proof. by destruct p. Qed.

Section ParseSpec.
Context `{Nom}.

(** Parsing any complete message: length byte, name, bits, hash, id. *)
Lemma parse_remote_handshake_eq n e h i rest : length n ≤ 255 →
  length e = NUM_EXTENSION_BYTES → length h = INFO_HASH_LEN → length i = PEER_ID_LEN →
  parse_remote_handshake (Z.of_nat (length n) :: n ++ e ++ h ++ i ++ rest) =
    Ok {| prot := if bool_decide (n = BT_PROTOCOL) then BitTorrent else Custom n;
          ext := {| ext_bytes := e |}; info_hash := {| hash := h |}; pid := {| hash := i |} |}.
Proof.
  intros Hn He Hh Hi. unfold parse_remote_handshake, parse_protocol, parse_real_protocol.
  assert (Htake : ∀ k (l r : bytes), length l = k → nom_take k (l ++ r) = Ok (r, l)).
  { intros k l r <-. rewrite nom_take_enough by (rewrite length_app; lia). by rewrite drop_app_length, take_app_length. }
  assert (Hhash : ∀ l, length l = SHA_HASH_LEN → hash_of l = Some {| hash := l |}).
  { intros l Hl. unfold hash_of, ShaHash_from_hash. by rewrite Hl. }
  rewrite nom_pair_eq. simpl lookup. cbn iota. rewrite nom_pair_eq, nom_u8_cons. cbn [mbind res_bind].
  rewrite Nat2Z.id, (Htake (length n)) by done. cbn [mbind res_bind].
  destruct (bool_decide (n = BT_PROTOCOL)); cbn [mbind res_bind];
    rewrite nom_pair_eq; unfold parse_extension_bits; rewrite (Htake _ e) by done; cbn [mbind res_bind];
    rewrite He, Nat.eqb_refl; cbn [mbind res_bind]; rewrite nom_pair_eq; unfold parse_remote_hash, parse_remote_pid;
    rewrite !nom_map_res_eq, (Htake _ h) by done; cbn [mbind res_bind]; rewrite (Hhash h) by done; cbn [mbind res_bind];
    rewrite nom_map_res_eq, (Htake _ i) by done; cbn [mbind res_bind]; rewrite (Hhash i) by done; cbn [mbind res_bind from_parts].
  - done.
  - destruct (Z.leb_spec (Z.of_nat (length n)) u8_max); [done|]. unfold u8_max in *. lia.
Qed.

Lemma write_parse m rest : wf_message m → parse_remote_handshake (write_bytes m ++ rest) = Ok m.
Proof.
  intros [Hp He Hh Hi]. destruct m as [p e h i]. cbn [prot ext info_hash pid] in *. unfold write_bytes. cbn [prot ext info_hash pid].
  rewrite Protocol_write_raw. assert (Hl : length (raw_protocol p) ≤ 255) by (destruct p; [vm_compute; lia|apply Hp]).
  assert (as_u8 (Z.of_nat (length (raw_protocol p))) = Z.of_nat (length (raw_protocol p))) as ->.
  { apply as_u8_id. unfold is_u8. lia. }
  unfold Extensions_write_bytes. rewrite <- !app_assoc, <- app_comm_cons, parse_remote_handshake_eq by done.
  destruct e, h, i. do 2 f_equal. destruct p as [|c]; cbn [raw_protocol]; [by rewrite bool_decide_true|].
  rewrite bool_decide_false; [done|]. apply Hp.
Qed.
End ParseSpec.

Lemma write_length m : wf_message m → length (write_bytes m) = write_len m ∧
  ∃ b, write_bytes m !! 0 = Some b ∧ is_u8 b ∧ write_len m = write_len_with_protocol_len b.
Proof.
  intros [Hp He Hh Hi]. unfold write_len, write_bytes. rewrite Protocol_write_raw.
  assert (Hl : length (raw_protocol (prot m)) = Protocol_write_len (prot m)) by (by destruct (prot m)).
  assert (Protocol_write_len (prot m) ≤ 255) by (destruct (prot m); [vm_compute; lia|apply Hp]).
  assert (as_u8 (Z.of_nat (Protocol_write_len (prot m))) = Z.of_nat (Protocol_write_len (prot m))) as E.
  { apply as_u8_id. unfold is_u8. lia. }
  rewrite !Hl, !E. split.
  - unfold write_len_with_protocol_len, Extensions_write_bytes. simpl. rewrite !length_app, He, Hh, Hi, Hl, Nat2Z.id.
    unfold NUM_EXTENSION_BYTES, INFO_HASH_LEN, PEER_ID_LEN, SHA_HASH_LEN. lia.
  - exists (Z.of_nat (Protocol_write_len (prot m))). split; [done|]. split; [unfold is_u8; lia|done].
Qed.

(** Claim C30. a handshake message, whatever bytes follow it, is parsed back from the
    bytes written for it, and [write_len] is their number. *)
Theorem handshake_message_roundtrip `{Nom} (m : HandshakeMessage) (rest : bytes) :
  wf_message m →
  HandshakeMessage_from_bytes (write_bytes m ++ rest) = Ok m ∧ length (write_bytes m) = write_len m.
Proof. intros Hm. split; [by apply write_parse|by apply write_length]. Qed.

Definition ex_message : HandshakeMessage :=
  {| prot := BitTorrent; ext := Extensions_add Extensions_new ExtensionProtocol;
     info_hash := {| hash := replicate 20 1%Z |}; pid := {| hash := replicate 20 2%Z |} |}.

Lemma wf_ex_message : wf_message ex_message.
Proof. by split. Qed.

Lemma handshake_message_roundtrip_witness :
  @HandshakeMessage_from_bytes nom_lists (write_bytes ex_message ++ [7%Z]) = Ok ex_message ∧
  length (write_bytes ex_message) = write_len ex_message.
Proof. apply (@handshake_message_roundtrip nom_lists ex_message [7%Z] wf_ex_message). Defined.

(** * Extension bits *)

(** Bit [i] of the eight extension bytes. *)
Definition ext_bit (x : Extensions) (i : nat) : bool := bit_at (ext_bytes x) i.

Lemma nth_insert (l : bytes) k j x : k < length l → nth j (<[k := x]> l) 0%Z = if decide (j = k) then x else nth j l 0%Z.
Proof.
  intros Hk. rewrite !nth_lookup. destruct (decide (j = k)) as [->|Hne].
  - by rewrite list_lookup_insert_eq.
  - by rewrite list_lookup_insert_ne.
Qed.

Lemma bit_index i : i / 8 = 5 → (7 - Z.of_nat (i mod 8) =? 4)%Z = (i =? 43).
Proof.
  intros Hi. destruct (bit_pos_split i) as [Hs Hm].
  destruct (Nat.eqb_spec i 43) as [->|Hne]; [done|]. apply Z.eqb_neq. lia.
Qed.

Lemma testbit_16 k : (0 ≤ k)%Z → Z.testbit 16 k = (k =? 4)%Z.
Proof. intros. change 16%Z with (2 ^ 4)%Z. rewrite Z.pow2_bits_eqb by lia. apply Z.eqb_sym. Qed.

Lemma testbit_239 k : (0 ≤ k < 8)%Z → Z.testbit 239 k = negb (k =? 4)%Z.
Proof.
  intros Hk. assert (k = 0 ∨ k = 1 ∨ k = 2 ∨ k = 3 ∨ k = 4 ∨ k = 5 ∨ k = 6 ∨ k = 7)%Z as Hc by lia.
  by repeat destruct Hc as [->|Hc]; [..|subst].
Qed.

Lemma ext_bit_add x e i : length (ext_bytes x) = NUM_EXTENSION_BYTES →
  ext_bit (Extensions_add x e) i = (i =? active_bit e) || ext_bit x i.
Proof.
  intros Hl. destruct e. unfold ext_bit, bit_at, Extensions_add. cbn [ext_bytes]. change (active_bit ExtensionProtocol / 8) with 5.
  change (ext_mask ExtensionProtocol) with 16%Z. change (active_bit ExtensionProtocol) with 43.
  rewrite nth_insert by (rewrite Hl; unfold NUM_EXTENSION_BYTES; lia). destruct (bit_pos_split i) as [Hs Hm].
  destruct (decide (i / 8 = 5)) as [E|E].
  - rewrite E, Z.lor_spec, testbit_16, bit_index by (done || lia). apply orb_comm.
  - destruct (Nat.eqb_spec i 43) as [->|]; [by destruct E|done].
Qed.

Lemma ext_bit_remove x e i : length (ext_bytes x) = NUM_EXTENSION_BYTES →
  ext_bit (Extensions_remove x e) i = negb (i =? active_bit e) && ext_bit x i.
Proof.
  intros Hl. destruct e. unfold ext_bit, bit_at, Extensions_remove. cbn [ext_bytes]. change (active_bit ExtensionProtocol / 8) with 5.
  change (255 - ext_mask ExtensionProtocol)%Z with 239%Z. change (active_bit ExtensionProtocol) with 43.
  rewrite nth_insert by (rewrite Hl; unfold NUM_EXTENSION_BYTES; lia). destruct (bit_pos_split i) as [Hs Hm].
  destruct (decide (i / 8 = 5)) as [E|E].
  - rewrite E, Z.land_spec, testbit_239, bit_index by (done || lia). apply andb_comm.
  - destruct (Nat.eqb_spec i 43) as [->|]; [by destruct E|done].
Qed.

Lemma ext_bit_union x y i : i < NUM_EXTENSION_BYTES * 8 →
  ext_bit (Extensions_union x y) i = ext_bit x i && ext_bit y i.
Proof.
  intros Hi. unfold ext_bit, bit_at, Extensions_union. cbn [ext_bytes].
  assert (Hlt : i / 8 < NUM_EXTENSION_BYTES) by (apply Nat.Div0.div_lt_upper_bound; lia).
  rewrite nth_lookup, list_lookup_fmap, lookup_seq_lt by done. cbn [fmap option_fmap option_map default from_option].
  unfold Datatypes.id. rewrite Nat.add_0_l. by rewrite Z.land_spec.
Qed.

Lemma contains_ext_bit x e : Extensions_contains x e = ext_bit x (active_bit e).
Proof.
  destruct e. unfold Extensions_contains, ext_bit, bit_at. change (active_bit ExtensionProtocol / 8) with 5.
  change (ext_mask ExtensionProtocol) with (2 ^ 4)%Z. change (7 - Z.of_nat (active_bit ExtensionProtocol mod 8))%Z with 4%Z.
  set (v := nth 5 _ _). destruct (Z.testbit v 4) eqn:E.
  - destruct (Z.eqb_spec (Z.land v (2 ^ 4)) 0) as [E0|]; [|done].
    assert (Z.testbit (Z.land v (2 ^ 4)) 4 = true) by (rewrite Z.land_spec, E; done). by rewrite E0 in *.
  - assert (Z.land v (2 ^ 4) = 0)%Z as ->; [|done]. apply Z.bits_inj'. intros k Hk. rewrite Z.land_spec, Z.pow2_bits_eqb, Z.bits_0 by lia.
    destruct (Z.eqb_spec 4 k) as [<-|]; [by rewrite E|apply andb_false_r].
Qed.

(** [add] sets the extension's bit and [remove] clears it, both leaving the
    other 63 bits alone; [contains] reads it; [union] keeps the bits set on
    both sides. *)
Theorem extension_bits_spec (x y : Extensions) (e : Extension) :
  length (ext_bytes x) = NUM_EXTENSION_BYTES →
  (∀ i, ext_bit (Extensions_add x e) i = (i =? active_bit e) || ext_bit x i) ∧
  (∀ i, ext_bit (Extensions_remove x e) i = negb (i =? active_bit e) && ext_bit x i) ∧
  (∀ i, i < NUM_EXTENSION_BYTES * 8 → ext_bit (Extensions_union x y) i = ext_bit x i && ext_bit y i) ∧
  Extensions_contains x e = ext_bit x (active_bit e).
Proof.
  intros Hl. split; [intros i; by apply ext_bit_add|]. split; [intros i; by apply ext_bit_remove|].
  split; [intros i; apply ext_bit_union|apply contains_ext_bit].
Qed.

Lemma extension_bits_spec_witness :
  Extensions_contains (Extensions_add Extensions_new ExtensionProtocol) ExtensionProtocol = true ∧
  ∀ i, ext_bit (Extensions_add Extensions_new ExtensionProtocol) i = (i =? 43) || ext_bit Extensions_new i.
Proof.
  split; [vm_compute; reflexivity|].
  apply (extension_bits_spec Extensions_new Extensions_new ExtensionProtocol). reflexivity.
Defined.
