(* ===== verification/Framed.v ===== *)
(** packages/handshake/src/bittorrent/framed.rs: the polled state machine that
    reads and writes one handshake message.

    A socket is the bytes it will deliver with a plan of what each poll does:
    nothing yet, an error, or up to [k] bytes. *)

From stdpp Require Import base numbers list.
From S2P Require Import Prelude Extern Convert Sha Handshake.

(** * [FramedHandshake] *)

Inductive HandshakeState := Waiting | Reading | Ready | Finished | Errored.

Record FramedHandshake := {
  write_buffer : bytes;
  read_buffer : bytes;
  read_pos : nat;
  state : HandshakeState
}.

Definition FramedHandshake_new : FramedHandshake :=
  {| write_buffer := []; read_buffer := []; read_pos := 0; state := Waiting |}.

Inductive IoError := IoFail (code : Z) | WriteZero | InvalidData.
Inductive Poll (A : Type) := Pending | PollReady (a : A).
Arguments Pending {A}.
Arguments PollReady {A} a.

Inductive ReadStep := RWait | RFail (code : Z) | RGive (k : nat).
Record Socket := { incoming : bytes; plan : list ReadStep }.

(** [poll_read] into a buffer with [cap] free bytes. *)
Definition poll_read (sock : Socket) (cap : nat) : Socket * Poll (IoError + bytes) :=
  match plan sock with
  | [] => (sock, Pending)
  | RWait :: plan' => ({| incoming := incoming sock; plan := plan' |}, Pending)
  | RFail code :: plan' => ({| incoming := incoming sock; plan := plan' |}, PollReady (inl (IoFail code)))
  | RGive k :: plan' =>
      let n := Nat.min k cap in
      ({| incoming := drop n (incoming sock); plan := plan' |}, PollReady (inr (take n (incoming sock))))
  end.

Definition with_state (self : FramedHandshake) (rb : bytes) (pos : nat) (st : HandshakeState) : FramedHandshake :=
  {| write_buffer := write_buffer self; read_buffer := rb; read_pos := pos; state := st |}.

(** [Vec::resize(length, 0)] *)
Definition resize (l : bytes) (n : nat) : bytes := take n l ++ replicate (n - length l) 0%Z.

Section Framed.
Context `{Nom}.

Definition poll_next_waiting (self : FramedHandshake) (sock : Socket) :
    res False (FramedHandshake * Socket * Poll (option (IoError + HandshakeMessage))) :=
  if negb ((length (read_buffer self) =? 0) && (read_pos self =? 0)) then Panic AssertFailed else
  let (sock, ready) := poll_read sock 1 in
  match ready with
  | Pending => Ok (with_state self [] 0 Waiting, sock, Pending)
  | PollReady (inl e) => Ok (with_state self [0%Z] 0 Errored, sock, PollReady (Some (inl e)))
  | PollReady (inr filled) =>
      match filled with
      | [] => Ok (with_state self [] 0 Waiting, sock, Pending)
      | [b] => Ok (with_state self (resize [b] (write_len_with_protocol_len b)) 1 Reading, sock, Pending)
      | _ => Panic AssertFailed
      end
  end.

Definition poll_next_reading (self : FramedHandshake) (sock : Socket) :
    res False (FramedHandshake * Socket * Poll (option (IoError + HandshakeMessage))) :=
  let len := length (read_buffer self) in
  let pos := read_pos self in
  if negb (negb (len =? 0) && negb (pos =? 0) && (pos <? len)) then Panic AssertFailed else
  let (sock, ready) := poll_read sock (len - pos) in
  match ready with
  | Pending => Ok (self, sock, Pending)
  | PollReady (inl e) => Ok (with_state self (read_buffer self) pos Errored, sock, PollReady (Some (inl e)))
  | PollReady (inr data) =>
      let rb := take pos (read_buffer self) ++ data ++ drop (pos + length data) (read_buffer self) in
      let filled := pos + length data in
      if negb ((filled <=? len) && (pos <=? filled)) then Panic AssertFailed else
      Ok (with_state self rb filled (if filled =? len then Ready else Reading), sock, Pending)
  end.

Definition poll_next_ready (self : FramedHandshake) (sock : Socket) :
    res False (FramedHandshake * Socket * Poll (option (IoError + HandshakeMessage))) :=
  if negb (negb (length (read_buffer self) =? 0) && (read_pos self =? length (read_buffer self))) then Panic AssertFailed else
  match HandshakeMessage_from_bytes (read_buffer self) with
  | Ok message => Ok (with_state self [] (read_pos self) Finished, sock, PollReady (Some (inr message)))
  | Err _ => Ok (with_state self [] (read_pos self) Errored, sock, PollReady (Some (inl InvalidData)))
  | Panic f => Panic f
  end.

Definition poll_next (self : FramedHandshake) (sock : Socket) :
    res False (FramedHandshake * Socket * Poll (option (IoError + HandshakeMessage))) :=
  match state self with
  | Waiting => poll_next_waiting self sock
  | Reading => poll_next_reading self sock
  | Ready => poll_next_ready self sock
  | Finished | Errored => Ok (self, sock, PollReady None)
  end.

(** Polling until an item is ready. *)
Fixpoint next (fuel : nat) (self : FramedHandshake) (sock : Socket) :
    res False (FramedHandshake * Socket * option (IoError + HandshakeMessage)) :=
  match fuel with
  | O => Panic OutOfFuel
  | S fuel =>
      '(self', sock', p) ← poll_next self sock;
      match p with
      | Pending => next fuel self' sock'
      | PollReady item => Ok (self', sock', item)
      end
  end.
End Framed.

(** ** Sending *)

Inductive WriteStep := WWait | WFail (code : Z) | WTake (k : nat).

Definition start_send (self : FramedHandshake) (item : HandshakeMessage) : FramedHandshake :=
  {| write_buffer := write_buffer self ++ write_bytes item; read_buffer := read_buffer self;
     read_pos := read_pos self; state := state self |}.

(** The [while] loop: the plan says what each [poll_write] does with the
    buffer, [sent] is what the socket has taken; [flushed] is the result of the
    socket's own flush. *)
Fixpoint poll_flush (plan : list WriteStep) (flushed : Poll (option IoError)) (sent buffer : bytes) :
    list WriteStep * bytes * bytes * Poll (option IoError) :=
  match buffer with
  | [] => (plan, sent, buffer, flushed)
  | _ =>
      match plan with
      | [] => ([], sent, buffer, Pending)
      | WWait :: plan' => (plan', sent, buffer, Pending)
      | WFail code :: plan' => (plan', sent, buffer, PollReady (Some (IoFail code)))
      | WTake k :: plan' =>
          let written := Nat.min k (length buffer) in
          if written =? 0 then (plan', sent, buffer, PollReady (Some WriteZero))
          else poll_flush plan' flushed (sent ++ take written buffer) (drop written buffer)
      end
  end.

(** * Reading a message *)

Lemma lookup_0_cons (l : bytes) b : l !! 0 = Some b → ∃ r, l = b :: r.
Proof. destruct l; simpl; [done|]. intros [= ->]. eauto. Qed.

Section Reading.
Context `{Nom} (m : HandshakeMessage) (extra : bytes) (Hm : wf_message m).

Let strm := write_bytes m ++ extra.
Let total := write_len m.

(** Where the bytes of the stream are in each state. *)
Definition read_inv (f : FramedHandshake) (sock : Socket) : Prop :=
  match state f with
  | Waiting => read_buffer f = [] ∧ read_pos f = 0 ∧ incoming sock = strm
  | Reading => length (read_buffer f) = total ∧ 1 ≤ read_pos f < total ∧
      take (read_pos f) (read_buffer f) = take (read_pos f) strm ∧ incoming sock = drop (read_pos f) strm
  | Ready => read_buffer f = write_bytes m ∧ read_pos f = total ∧ incoming sock = extra
  | Finished => incoming sock = extra
  | Errored => False
  end.

Definition no_failure (p : list ReadStep) : Prop := Forall (λ s, match s with RFail _ => False | _ => True end) p.

(** Polls that deliver at least a byte. *)
Definition deliveries (p : list ReadStep) : nat :=
  length (List.filter (λ s, match s with RGive (S _) => true | _ => false end) p).

(** Bytes still to be read. *)
Definition missing (f : FramedHandshake) : nat :=
  match state f with Waiting => total | Reading => total - read_pos f | _ => 0 end.

Lemma stream_length : total ≤ length strm ∧ take total strm = write_bytes m ∧ drop total strm = extra.
Proof.
  destruct (write_length m Hm) as [Hl _]. unfold strm, total. rewrite <- Hl, length_app, take_app_length, drop_app_length.
  split; [lia|done].
Qed.

Lemma total_large : 48 < total.
Proof. unfold total, write_len, write_len_with_protocol_len, NUM_EXTENSION_BYTES, INFO_HASH_LEN, PEER_ID_LEN, SHA_HASH_LEN. lia. Qed.

(** What one poll before the message is complete does. *)
Definition advances (f : FramedHandshake) (sock : Socket)
    (r : res False (FramedHandshake * Socket * Poll (option (IoError + HandshakeMessage)))) : Prop :=
  ∃ f' sock', r = Ok (f', sock', Pending) ∧ read_inv f' sock' ∧ plan sock' = tail (plan sock) ∧
    state f' ≠ Finished ∧ (missing f ≤ deliveries (plan sock) → missing f' ≤ deliveries (plan sock')).

Lemma poll_waiting f sock : state f = Waiting → read_inv f sock → no_failure (plan sock) →
  advances f sock (poll_next_waiting f sock).
Proof.
  unfold read_inv. intros Hst Hinv Hnf. rewrite Hst in Hinv. destruct Hinv as (Hrb & Hpos & Hin).
  unfold poll_next_waiting, poll_read, advances, missing. rewrite Hst, Hrb, Hpos. cbn [negb length Nat.eqb andb].
  assert (Hstay : ∀ p', missing (with_state f [] 0 Waiting) = total ∧ read_inv (with_state f [] 0 Waiting) {| incoming := strm; plan := p' |}) by done.
  destruct (plan sock) as [|[|code|[|k]] p'] eqn:Ep; cbn [tail].
  - exists (with_state f [] 0 Waiting), sock. split; [done|]. split; [by split|]. split; [done|]. by rewrite Ep.
  - do 2 eexists. split; [done|]. split; [by split|]. done.
  - by apply Forall_cons in Hnf as [[] _].
  - do 2 eexists. split; [done|]. split; [by split|]. done.
  - rewrite Hin. replace (Nat.min (S k) 1) with 1 by lia.
    destruct (write_length m Hm) as (Hl & b & Hb & _ & Hwl). fold total in Hl, Hwl. pose proof total_large.
    assert (HS : ∃ rest, strm = b :: rest).
    { destruct (lookup_0_cons _ _ Hb) as [r Hr]. unfold strm. rewrite Hr. eauto. }
    destruct HS as [rest HS]. rewrite HS. cbn [take drop]. rewrite take_0, drop_0.
    do 2 eexists. split; [done|]. cbn [state with_state]. unfold read_inv. cbn [state with_state read_buffer read_pos incoming].
    rewrite <- Hwl. assert (Hres : resize [b] total = b :: replicate (total - 1) 0%Z).
    { unfold resize. rewrite take_ge by (cbn [length]; lia). done. }
    rewrite Hres. split; [|split; [done|split; [done|]]].
    + split; [cbn [length]; rewrite length_replicate; lia|]. split; [lia|]. by rewrite HS.
    + unfold deliveries. cbn [List.filter length plan]. lia.
Qed.

Lemma poll_reading f sock : state f = Reading → read_inv f sock → no_failure (plan sock) →
  advances f sock (poll_next_reading f sock).
Proof.
  unfold read_inv. intros Hst Hinv Hnf. rewrite Hst in Hinv. destruct Hinv as (Hrb & Hpos & Htake & Hin).
  unfold poll_next_reading, poll_read, advances, missing. rewrite Hst, Hrb. set (pos := read_pos f) in *.
  destruct (Nat.eqb_spec total 0) as [|_]; [lia|]. destruct (Nat.eqb_spec pos 0) as [|_]; [lia|]. destruct (Nat.ltb_spec pos total); [|lia]. cbn [negb andb].
  assert (Hstay : ∀ p', read_inv f {| incoming := drop pos strm; plan := p' |}) by (intros p'; unfold read_inv; by rewrite Hst).
  destruct (plan sock) as [|[|code|k] p'] eqn:Ep; cbn [tail].
  - exists f, sock. split; [done|]. split; [unfold read_inv; by rewrite Hst|]. split; [done|]. rewrite Hst. split; [done|]. by rewrite Ep.
  - exists f, {| incoming := incoming sock; plan := p' |}. split; [done|]. rewrite Hin. split; [done|]. split; [done|]. by rewrite Hst.
  - by apply Forall_cons in Hnf as [[] _].
  - destruct stream_length as (HL & HtakeL & HdropL). set (n := Nat.min k (total - pos)). rewrite Hin.
    assert (Hd : length (take n (drop pos strm)) = n) by (rewrite length_take, length_drop; lia).
    rewrite Hd. destruct (Nat.leb_spec (pos + n) total); [|lia]. destruct (Nat.leb_spec pos (pos + n)); [|lia]. cbn [negb andb].
    set (rb := take pos (read_buffer f) ++ take n (drop pos strm) ++ drop (pos + n) (read_buffer f)).
    assert (Hlen : length rb = total) by (unfold rb; rewrite !length_app, Hd, length_take, length_drop; lia).
    assert (Hpre : take (pos + n) rb = take (pos + n) strm).
    { unfold rb. rewrite Htake, app_assoc, take_take_drop. apply take_app_length'. rewrite length_take. lia. }
    do 2 eexists. split; [done|]. split; [|split; [done|split]]; unfold read_inv; cbn [state with_state read_buffer read_pos incoming].
    + rewrite drop_drop. destruct (Nat.eqb_spec (pos + n) total) as [E|E].
      * rewrite E in Hpre |- *. rewrite HdropL, <- HtakeL, <- Hpre. rewrite take_ge by lia. done.
      * split; [done|]. split; [lia|]. done.
    + by destruct (pos + n =? total).
    + unfold deliveries. cbn [List.filter plan]. destruct (Nat.eqb_spec (pos + n) total); [lia|].
      destruct k as [|k]; cbn [length]; lia.
Qed.

Lemma poll_ready f sock : state f = Ready → read_inv f sock →
  ∃ f', poll_next_ready f sock = Ok (f', sock, PollReady (Some (inr m))) ∧ state f' = Finished.
Proof.
  unfold read_inv. intros Hst Hinv. rewrite Hst in Hinv. destruct Hinv as (Hrb & Hpos & Hin).
  unfold poll_next_ready. rewrite Hrb, Hpos. destruct (write_length m Hm) as [Hl _]. rewrite Hl. fold total. pose proof total_large.
  destruct (Nat.eqb_spec total 0); [lia|]. rewrite Nat.eqb_refl. cbn [negb andb].
  rewrite <- (app_nil_r (write_bytes m)). unfold HandshakeMessage_from_bytes. rewrite write_parse by done. eauto.
Qed.

(** One poll, in any state before the end. *)
Lemma poll_next_inv f sock : read_inv f sock → no_failure (plan sock) →
  (advances f sock (poll_next f sock) ∧ (state f = Waiting ∨ state f = Reading)) ∨
  (∃ f', poll_next f sock = Ok (f', sock, PollReady (Some (inr m))) ∧ state f' = Finished ∧ incoming sock = extra ∧ state f = Ready) ∨
  (poll_next f sock = Ok (f, sock, PollReady None) ∧ state f = Finished).
Proof.
  intros Hinv Hnf. unfold poll_next. destruct (state f) eqn:Hst.
  - left. split; [by apply poll_waiting|by left].
  - left. split; [by apply poll_reading|by right].
  - right. left. destruct (poll_ready f sock Hst Hinv) as (f' & Hok & Hf). exists f'. split; [done|]. split; [done|].
    unfold read_inv in Hinv. rewrite Hst in Hinv. split; [apply Hinv|done].
  - right. right. done.
  - unfold read_inv in Hinv. by rewrite Hst in Hinv.
Qed.

Lemma framed_next_spec fuel : ∀ f sock, read_inv f sock → no_failure (plan sock) → state f ≠ Finished →
  missing f ≤ deliveries (plan sock) → length (plan sock) < fuel →
  ∃ f' sock', next fuel f sock = Ok (f', sock', Some (inr m)) ∧ incoming sock' = extra ∧ state f' = Finished.
Proof.
  induction fuel as [|fuel IH]; intros f sock Hinv Hnf Hst Hmiss Hfuel; [lia|]. cbn [next].
  destruct (poll_next_inv f sock Hinv Hnf) as [[(f' & sock' & Hok & Hinv' & Hplan & Hfin & Hmiss') Hs]|[(f' & Hok & Hf & Hin & _)|[_ ?]]]; [| |done].
  - rewrite Hok. cbn [mbind res_bind]. destruct (plan sock) as [|s p] eqn:Ep.
    { unfold deliveries in Hmiss. simpl in Hmiss. unfold missing in Hmiss. pose proof total_large. unfold read_inv in Hinv.
      destruct Hs as [E|E]; rewrite E in *; [lia|]. destruct Hinv as (_ & ? & _). lia. }
    apply IH; [done| | | |].
    + rewrite Hplan. cbn [tail]. by apply Forall_cons in Hnf as [_ ?].
    + done.
    + auto.
    + rewrite Hplan. simpl in *. lia.
  - rewrite Hok. cbn [mbind res_bind]. eauto.
Qed.
End Reading.

Lemma read_inv_new m extra p : read_inv m extra FramedHandshake_new {| incoming := write_bytes m ++ extra; plan := p |}.
Proof. by split. Qed.

(** Claim C29. however the bytes of a handshake are split over polls, and however many
    polls come up empty, the framed reader yields exactly that message, leaves
    the bytes after it in the socket and never panics; as many deliveries as
    the message has bytes are enough. *)
Theorem framed_reads_any_chunking `{Nom} (m : HandshakeMessage) (extra : bytes) (p : list ReadStep) :
  wf_message m → no_failure p → write_len m ≤ deliveries p →
  ∃ f sock, next (S (length p)) FramedHandshake_new {| incoming := write_bytes m ++ extra; plan := p |} =
              Ok (f, sock, Some (inr m)) ∧
    incoming sock = extra ∧ state f = Finished.
Proof. intros Hm Hnf Hd. apply framed_next_spec; auto using read_inv_new. Qed.

Lemma framed_reads_any_chunking_witness :
  ∃ f sock, @next nom_lists (S (length (RWait :: replicate 70 (RGive 1)))) FramedHandshake_new
      {| incoming := write_bytes ex_message ++ [9%Z]; plan := RWait :: replicate 70 (RGive 1) |} =
      Ok (f, sock, Some (inr ex_message)) ∧ incoming sock = [9%Z] ∧ state f = Finished.
Proof.
  apply (@framed_reads_any_chunking nom_lists ex_message [9%Z] (RWait :: replicate 70 (RGive 1)) wf_ex_message).
  - constructor; [exact I|]. apply (Forall_replicate _ 70 (RGive 1)). exact I.
  - vm_compute. lia.
Defined.

(** at the end of the stream the reader neither yields nor fails: a poll
    that reads nothing leaves it as it was, pending. *)
Theorem framed_spins_at_eof `{Nom} (f : FramedHandshake) (k : nat) (p : list ReadStep) :
  (state f = Waiting ∧ read_buffer f = [] ∧ read_pos f = 0) ∨
  (state f = Reading ∧ 1 ≤ read_pos f < length (read_buffer f)) →
  poll_next f {| incoming := []; plan := RGive k :: p |} = Ok (f, {| incoming := []; plan := p |}, Pending).
Proof.
  unfold poll_next. destruct f as [wb rb pos st]. intros [(Hst & Hrb & Hpos)|[Hst Hpos]]; simpl in Hst, Hpos; subst; simpl.
  - simpl in Hrb. subst. unfold poll_next_waiting, poll_read. cbn. rewrite take_nil, drop_nil. done.
  - unfold poll_next_reading, poll_read. cbn [read_buffer read_pos plan incoming].
    destruct (Nat.eqb_spec (length rb) 0); [lia|]. destruct (Nat.eqb_spec pos 0); [lia|]. destruct (Nat.ltb_spec pos (length rb)); [|lia].
    cbn [negb andb]. rewrite take_nil, drop_nil. cbn [length app]. rewrite Nat.add_0_r, take_drop.
    destruct (Nat.leb_spec pos (length rb)); [|lia]. rewrite Nat.leb_refl. cbn [negb andb].
    destruct (Nat.eqb_spec pos (length rb)); [lia|done].
Qed.

Lemma framed_spins_at_eof_witness :
  @poll_next nom_lists FramedHandshake_new {| incoming := []; plan := [RGive 5] |} =
    Ok (FramedHandshake_new, {| incoming := []; plan := [] |}, Pending).
Proof. apply (@framed_spins_at_eof nom_lists FramedHandshake_new 5 []). left. repeat split. Defined.

(** [start_send] queues the message after what is queued already and
    [poll_flush] hands the queue to the socket in order, losing and repeating
    nothing; it reports success only when the queue is empty. *)
Theorem flush_in_order (f : FramedHandshake) (m : HandshakeMessage) (p : list WriteStep) (flushed : Poll (option IoError)) (sent : bytes) :
  let '(_, sent', buffer', r) := poll_flush p flushed sent (write_buffer (start_send f m)) in
  sent' ++ buffer' = sent ++ write_buffer f ++ write_bytes m ∧ (r = PollReady None → buffer' = []).
Proof.
  simpl. generalize (write_buffer f ++ write_bytes m). intros b. revert sent b.
  induction p as [|s p IH]; intros sent [|x b]; simpl; try done.
  destruct s as [|code|[|k]]; try done. cbn [Nat.min Nat.eqb].
  specialize (IH (sent ++ take (S (Nat.min k (length b))) (x :: b)) (drop (S (Nat.min k (length b))) (x :: b))).
  simpl in IH. destruct (poll_flush p flushed _ _) as [[[p' s'] l'] r]. destruct IH as [IH1 IH2]. split; [|done].
  rewrite IH1, <- app_assoc. simpl. by rewrite take_drop.
Qed.
