(* ===== verification/Handler.v ===== *)
(** packages/handshake/src/filter and handshake/handler: the set of filters and
    the decision they make, and the two sides of a handshake with the loop that
    runs them.  What the timed socket operations of a handshake return is an
    input. *)

From stdpp Require Import base numbers sorting list.
From S2P Require Import Prelude RustStd Extern Convert Sha Handshake Framed.

(** * Filters (filter/mod.rs, filter/filters.rs) *)

Inductive FilterDecision := Pass | Block | NeedData | Allow.

#[export] Instance FilterDecision_eq_dec : EqDecision FilterDecision.
Proof. solve_decision. Defined.

Definition decision_num (d : FilterDecision) : nat :=
  match d with Pass => 0 | Block => 1 | NeedData => 2 | Allow => 3 end.

Definition choose (self other : FilterDecision) : FilterDecision :=
  if decision_num other <? decision_num self then self else other.

(** The trait; [EqDecision] stands for the downcast followed by [==]. *)
Class HandshakeFilter (F : Type) := {
  on_addr : F → option SocketAddr → FilterDecision;
  on_prot : F → option Protocol → FilterDecision;
  on_ext : F → option Extensions → FilterDecision;
  on_hash : F → option ShaHash → FilterDecision;
  on_pid : F → option ShaHash → FilterDecision
}.

Section Filters.
Context `{EqDecision F}.

Definition check_index (filters : list F) (filter : F) : option nat :=
  iter_position (λ f, bool_decide (f = filter)) filters.

Definition add_filter (filters : list F) (filter : F) : list F :=
  match check_index filters filter with None => filters ++ [filter] | Some _ => filters end.

Definition remove_filter (filters : list F) (filter : F) : list F :=
  match check_index filters filter with Some index => swap_remove filters index | None => filters end.

Definition clear_filters (filters : list F) : list F := [].
End Filters.

(** * The decision (handshake/handler/mod.rs) *)

Definition should_filter `{HandshakeFilter F} (a : option SocketAddr) (p : option Protocol) (e : option Extensions)
    (h i : option ShaHash) (filters : list F) : bool :=
  let '(addr_filter, prot_filter, ext_filter, hash_filter, pid_filter) :=
    foldl (λ '(da, dp, de, dh, di) f,
             (choose da (on_addr f a), choose dp (on_prot f p), choose de (on_ext f e),
              choose dh (on_hash f h), choose di (on_pid f i)))
          (Pass, Pass, Pass, Pass, Pass) filters in
  bool_decide (choose (choose (choose (choose addr_filter prot_filter) ext_filter) hash_filter) pid_filter = Block).

(** * A handshake (handshake/handler/handshaker.rs) *)

Inductive Timed (A : Type) := TimedOut | Done (a : A).
Arguments TimedOut {A}.
Arguments Done {A} a.

Record InitiateMessage := { im_prot : Protocol; im_hash : ShaHash; im_addr : SocketAddr }.
Record CompleteMessage := {
  cm_prot : Protocol; cm_ext : Extensions; cm_hash : ShaHash; cm_pid : ShaHash; cm_addr : SocketAddr
}.

Inductive HandshakeError := ItemError | NotMatchingHash | NotMatchingProtocol | ShouldNotFilter.
Inductive HandshakeType := Initiate (m : InitiateMessage) | Complete (a : SocketAddr).

Section Handshaker.
Context `{HandshakeFilter F}.

(** [send_result.is_err()] asks whether the send timed out; an error of the send
    itself is inside [Done]. *)
Definition initiate_handshake (init_msg : InitiateMessage) (e : Extensions) (i : ShaHash) (filters : list F)
    (send : Timed (option IoError)) (recv : Timed (option (IoError + HandshakeMessage))) :
    res HandshakeError (option CompleteMessage) :=
  let p := im_prot init_msg in
  let h := im_hash init_msg in
  let a := im_addr init_msg in
  _ ← from_parts p e h i;
  match send with
  | TimedOut => Ok None
  | Done _ =>
      match recv with
      | Done (Some (inr msg)) =>
          let '(remote_prot, remote_ext, remote_hash, remote_pid) := into_parts msg in
          if bool_decide (remote_hash ≠ h) then Err NotMatchingHash
          else if bool_decide (remote_prot ≠ p) then Err NotMatchingProtocol
          else if should_filter (Some a) (Some remote_prot) (Some remote_ext) (Some remote_hash) (Some remote_pid) filters
          then Err ShouldNotFilter
          else Ok (Some {| cm_prot := p; cm_ext := Extensions_union e remote_ext; cm_hash := h;
                           cm_pid := remote_pid; cm_addr := a |})
      | _ => Ok None
      end
  end.

Definition complete_handshake (a : SocketAddr) (e : Extensions) (i : ShaHash) (filters : list F)
    (recv : Timed (option (IoError + HandshakeMessage))) (send : Timed (option IoError)) :
    res HandshakeError (option CompleteMessage) :=
  match recv with
  | Done (Some (inr msg)) =>
      let '(remote_prot, remote_ext, remote_hash, remote_pid) := into_parts msg in
      if should_filter (Some a) (Some remote_prot) (Some remote_ext) (Some remote_hash) (Some remote_pid) filters
      then Err ShouldNotFilter
      else
        _ ← from_parts remote_prot e remote_hash i;
        match send with
        | TimedOut => Ok None
        | Done _ => Ok (Some {| cm_prot := remote_prot; cm_ext := Extensions_union e remote_ext; cm_hash := remote_hash;
                                cm_pid := remote_pid; cm_addr := a |})
        end
  | _ => Ok None
  end.

Definition execute_handshake (item : IoError + HandshakeType) (e : Extensions) (i : ShaHash) (filters : list F)
    (send : Timed (option IoError)) (recv : Timed (option (IoError + HandshakeMessage))) :
    res HandshakeError (option CompleteMessage) :=
  match item with
  | inr (Initiate m) => initiate_handshake m e i filters send recv
  | inr (Complete a) => complete_handshake a e i filters recv send
  | inl _ => Err ItemError
  end.

(** [initiator_handler]: the connection attempt is the transport's. *)
Definition initiator_handler (item : InitiateMessage) (filters : list F) (connected : res HandshakeError unit) :
    res HandshakeError (option HandshakeType) :=
  if should_filter (Some (im_addr item)) (Some (im_prot item)) None (Some (im_hash item)) None filters then Ok None
  else _ ← connected; Ok (Some (Initiate item)).

(** [ListenerHandler]: the item is made in [new], [poll] hands it out once. *)
Definition ListenerHandler_new (item : IoError + SocketAddr) (filters : list F) : res HandshakeError (option HandshakeType) :=
  match item with
  | inl _ => Err ItemError
  | inr a => if should_filter (Some a) None None None None filters then Ok None else Ok (Some (Complete a))
  end.

Definition ListenerHandler_poll (opt_item : res HandshakeError (option HandshakeType)) :
    res HandshakeError (option HandshakeType) * res HandshakeError (option HandshakeType) := (Ok None, opt_item).
End Handshaker.

(** [loop_handler]: what reaches the sink, and whether the stream was used up. *)
Fixpoint loop_handler {I R} (handler : I → res HandshakeError (option R)) (stream : list I) : list R * bool :=
  match stream with
  | [] => ([], true)
  | item :: stream' =>
      match handler item with
      | Ok (Some r) => let (out, done) := loop_handler handler stream' in (r :: out, done)
      | Ok None => loop_handler handler stream'
      | _ => ([], false)
      end
  end.

(** * Filters as a set *)

Section FilterSet.
Context `{EqDecision F}.

Lemma check_index_spec (l : list F) f :
  match check_index l f with Some i => l !! i = Some f | None => f ∉ l end.
Proof.
  unfold check_index. destruct (iter_position _ l) as [i|] eqn:E.
  - apply iter_position_Some in E as (x & Hx & He%bool_decide_eq_true & _). congruence.
  - apply iter_position_None in E. intros Hin. apply (proj1 (Forall_forall _ _) E) in Hin. by apply bool_decide_eq_false in Hin.
Qed.
End FilterSet.

(** * The decision is the strongest one *)

Definition all_decisions `{HandshakeFilter F} (a : option SocketAddr) (p : option Protocol) (e : option Extensions)
    (h i : option ShaHash) (filters : list F) : list FilterDecision :=
  concat ((λ f, [on_addr f a; on_prot f p; on_ext f e; on_hash f h; on_pid f i]) <$> filters).

Lemma decision_num_inj a b : decision_num a = decision_num b → a = b.
Proof. by destruct a, b. Qed.

Lemma choose_num a b : decision_num (choose a b) = Nat.max (decision_num a) (decision_num b).
Proof. unfold choose. destruct (Nat.ltb_spec (decision_num b) (decision_num a)); lia. Qed.

Definition strongest (l : list FilterDecision) : nat := foldr (λ d n, Nat.max (decision_num d) n) 0 l.

Lemma strongest_app l k : strongest (l ++ k) = Nat.max (strongest l) (strongest k).
Proof. induction l as [|d l IH]; simpl; [done|]. by rewrite IH, Nat.max_assoc. Qed.

(** The fold of a field, and the fold over the fields, by upper bounds. *)
Lemma should_filter_bound `{HandshakeFilter F} a p e h i k (l : list F) : ∀ da dp de dh di,
  let '(ra, rp, re, rh, ri) := foldl (λ '(da, dp, de, dh, di) f,
      (choose da (on_addr f a), choose dp (on_prot f p), choose de (on_ext f e), choose dh (on_hash f h), choose di (on_pid f i)))
    (da, dp, de, dh, di) l in
  decision_num (choose (choose (choose (choose ra rp) re) rh) ri) ≤ k ↔
  decision_num (choose (choose (choose (choose da dp) de) dh) di) ≤ k ∧ strongest (all_decisions a p e h i l) ≤ k.
Proof.
  induction l as [|f l IH]; intros da dp de dh di; [simpl; split; [intros; split; [done|lia]|by intros [? _]]|].
  cbn [foldl]. specialize (IH (choose da (on_addr f a)) (choose dp (on_prot f p)) (choose de (on_ext f e)) (choose dh (on_hash f h)) (choose di (on_pid f i))).
  destruct (foldl _ _ l) as [[[[ra rp] re] rh] ri]. rewrite IH. unfold all_decisions. rewrite fmap_cons. cbn [concat].
  fold (all_decisions a p e h i l). rewrite strongest_app. cbn [strongest foldr]. rewrite !choose_num, !Nat.max_lub_iff.
  assert (0 ≤ k) by lia. tauto.
Qed.

Lemma should_filter_strongest `{HandshakeFilter F} a p e h i (filters : list F) :
  should_filter a p e h i filters = true ↔ strongest (all_decisions a p e h i filters) = 1.
Proof.
  unfold should_filter. pose proof (λ k, should_filter_bound a p e h i k filters Pass Pass Pass Pass Pass) as Hf.
  destruct (foldl _ _ filters) as [[[[ra rp] re] rh] ri]. set (r := choose _ ri) in *. simpl in Hf.
  set (n := strongest _) in *. assert (E : decision_num r = n).
  { pose proof (proj1 (Hf (decision_num r)) ltac:(lia)). pose proof (proj2 (Hf n) ltac:(lia)). lia. }
  rewrite bool_decide_eq_true, <- E. split; [by intros ->|]. intros H1. by apply decision_num_inj.
Qed.

Lemma strongest_one l : strongest l = 1 ↔ Block ∈ l ∧ Forall (λ d, d = Pass ∨ d = Block) l.
Proof.
  assert (Hle : ∀ l, strongest l ≤ 1 ↔ Forall (λ d, d = Pass ∨ d = Block) l).
  { clear. induction l as [|d l IH]; simpl; [split; [constructor|lia]|]. rewrite Forall_cons, <- IH.
    split; [intros; split; [destruct d; simpl in *; auto; lia|lia]|]. intros [[->| ->] ?]; simpl; lia. }
  assert (Hz : ∀ l, strongest l = 0 ↔ Forall (λ d, d = Pass) l).
  { clear. induction l as [|d l IH]; simpl; [split; [constructor|done]|]. rewrite Forall_cons, <- IH.
    split; [intros; split; [destruct d; simpl in *; done || lia|lia]|]. intros [-> ?]; simpl; lia. }
  split.
  - intros E. split; [|apply Hle; lia]. induction l as [|d l IH]; [done|]. simpl in E.
    destruct (decide (d = Block)) as [->|Hd]; [by left|]. right. apply IH. destruct d; simpl in E; done || lia.
  - intros [Hin Hf%Hle]. assert (strongest l ≠ 0); [|lia]. intros E%Hz. by apply (proj1 (Forall_forall _ _) E) in Hin.
Qed.

(** * Properties *)

(** a handshake is filtered exactly when some filter blocks some field and
    no filter allows, or needs data for, any field: one permission on any field
    outweighs every block on the others. *)
Theorem should_filter_iff `{HandshakeFilter F} (a : option SocketAddr) (p : option Protocol) (e : option Extensions)
    (h i : option ShaHash) (filters : list F) :
  should_filter a p e h i filters = true ↔
  Block ∈ all_decisions a p e h i filters ∧ Forall (λ d, d = Pass ∨ d = Block) (all_decisions a p e h i filters).
Proof. rewrite should_filter_strongest. apply strongest_one. Qed.

(** the filters are a set: adding is idempotent and keeps them distinct,
    removing takes exactly the filter out, in whatever order is left. *)
Theorem filters_as_set `{EqDecision F} (l : list F) (f : F) :
  NoDup l →
  NoDup (add_filter l f) ∧ (∀ g, g ∈ add_filter l f ↔ g ∈ l ∨ g = f) ∧
  NoDup (remove_filter l f) ∧ (∀ g, g ∈ remove_filter l f ↔ g ∈ l ∧ g ≠ f).
Proof.
  intros Hnd. unfold add_filter, remove_filter. pose proof (check_index_spec l f) as Hc.
  destruct (check_index l f) as [i|].
  - pose proof (swap_remove_perm l i f Hc) as Hp. assert (Hnd' := Hnd). rewrite <- Hp in Hnd'. apply NoDup_cons in Hnd' as [Hn Hnd'].
    split; [done|]. split; [|split; [done|]].
    + intros g. split; [by left|]. intros [?| ->]; [done|]. by eapply list_elem_of_lookup_2.
    + intros g. rewrite <- Hp at 2. rewrite elem_of_cons. split; [intros Hg; split; [by right|by intros ->]|]. intros [[->|?] ?]; done.
  - split; [|split; [|split; [done|]]].
    + apply NoDup_app. split; [done|]. split; [|apply NoDup_singleton]. by intros x Hx ->%list_elem_of_singleton.
    + intros g. by rewrite elem_of_app, list_elem_of_singleton.
    + intros g. split; [intros Hg; split; [done|by intros ->]|by intros [? _]].
Qed.

Lemma filters_as_set_witness : NoDup (add_filter [1; 2; 3] 4) ∧ ∀ g, g ∈ remove_filter [1; 2; 3] 1 ↔ g ∈ [1; 2; 3] ∧ g ≠ 1.
Proof.
  assert (Hnd : NoDup [1; 2; 3]) by (apply (bool_decide_unpack _); reflexivity).
  split; [apply (filters_as_set [1; 2; 3] 4 Hnd)|apply (filters_as_set [1; 2; 3] 1 Hnd)].
Defined.

(** our side of a handshake completes only with a peer that answered with
    our info hash and protocol and passed the filters; the extensions reported
    are those both sides have. *)
Theorem initiate_handshake_sound `{HandshakeFilter F} (m : InitiateMessage) (e : Extensions) (i : ShaHash) (filters : list F)
    (send : Timed (option IoError)) (recv : Timed (option (IoError + HandshakeMessage))) (c : CompleteMessage) :
  initiate_handshake m e i filters send recv = Ok (Some c) →
  ∃ msg, recv = Done (Some (inr msg)) ∧ info_hash msg = im_hash m ∧ prot msg = im_prot m ∧
    should_filter (Some (im_addr m)) (Some (prot msg)) (Some (ext msg)) (Some (info_hash msg)) (Some (pid msg)) filters = false ∧
    c = {| cm_prot := im_prot m; cm_ext := Extensions_union e (ext msg); cm_hash := im_hash m; cm_pid := pid msg; cm_addr := im_addr m |}.
Proof.
  unfold initiate_handshake. destruct (from_parts _ _ _ _) as [x| |]; [|done|done]. cbn [mbind res_bind].
  destruct send as [|s]; [done|]. destruct recv as [|[[?|msg]|]]; try done. destruct msg as [p' e' h' i']. cbn [into_parts prot ext info_hash pid].
  destruct (bool_decide_reflect (h' ≠ im_hash m)) as [|Hh]; [done|]. destruct (bool_decide_reflect (p' ≠ im_prot m)) as [|Hp]; [done|].
  destruct (should_filter _ _ _ _ _ _) eqn:Ef; [done|]. intros [= <-]. eexists. split; [done|]. cbn [prot ext info_hash pid].
  split; [by apply dec_stable|]. split; [by apply dec_stable|]. done.
Qed.

#[export] Instance allow_all : HandshakeFilter unit :=
  {| on_addr _ _ := Pass; on_prot _ _ := Pass; on_ext _ _ := Pass; on_hash _ _ := Pass; on_pid _ _ := Pass |}.

Definition ex_peer_addr : SocketAddr := SockV4 {| v4_ip := Ipv4 10 0 0 2; v4_port := 6881 |}.

Lemma initiate_handshake_sound_witness :
  ∃ msg, @Done (option (IoError + HandshakeMessage)) (Some (inr ex_message)) = Done (Some (inr msg)) ∧
    info_hash msg = {| hash := replicate 20 1%Z |} ∧ prot msg = BitTorrent.
Proof.
  destruct (initiate_handshake_sound {| im_prot := BitTorrent; im_hash := {| hash := replicate 20 1%Z |}; im_addr := ex_peer_addr |}
    Extensions_new {| hash := replicate 20 3%Z |} [tt] (Done None) (Done (Some (inr ex_message)))
    {| cm_prot := BitTorrent; cm_ext := Extensions_union Extensions_new (ext ex_message); cm_hash := {| hash := replicate 20 1%Z |};
       cm_pid := pid ex_message; cm_addr := ex_peer_addr |}) as (msg & H1 & H2 & H3 & _).
  - vm_compute. reflexivity.
  - exists msg. auto.
Defined.

(** the answering side reports a completed handshake even when sending its
    own message failed: only a time-out of the send is noticed. *)
Theorem complete_handshake_ignores_send_error `{HandshakeFilter F} (a : SocketAddr) (e : Extensions) (i : ShaHash)
    (filters : list F) (msg : HandshakeMessage) (err : IoError) :
  should_filter (Some a) (Some (prot msg)) (Some (ext msg)) (Some (info_hash msg)) (Some (pid msg)) filters = false →
  wf_message msg →
  complete_handshake a e i filters (Done (Some (inr msg))) (Done (Some err)) =
    Ok (Some {| cm_prot := prot msg; cm_ext := Extensions_union e (ext msg); cm_hash := info_hash msg; cm_pid := pid msg; cm_addr := a |}).
Proof.
  intros Hf [Hp _ _ _]. destruct msg as [p' e' h' i']. unfold complete_handshake. cbn [into_parts prot ext info_hash pid] in *.
  rewrite Hf. unfold from_parts. destruct p' as [|c]; [done|].
  destruct (Z.leb_spec (Z.of_nat (length c)) u8_max); [done|]. unfold u8_max in *. lia.
Qed.

Lemma complete_handshake_ignores_send_error_witness :
  complete_handshake ex_peer_addr Extensions_new {| hash := replicate 20 3%Z |} [tt] (Done (Some (inr ex_message))) (Done (Some (IoFail 32))) =
    Ok (Some {| cm_prot := prot ex_message; cm_ext := Extensions_union Extensions_new (ext ex_message); cm_hash := info_hash ex_message;
                cm_pid := pid ex_message; cm_addr := ex_peer_addr |}).
Proof. apply (complete_handshake_ignores_send_error ex_peer_addr); [vm_compute; reflexivity|exact wf_ex_message]. Defined.

(** the handler loop forwards the results of its items in order up to the
    first error, and nothing after it. *)
Theorem loop_handler_prefix {I R : Type} (handler : I → res HandshakeError (option R)) (before : list I) (bad : I) (after : list I) :
  Forall (λ x, ∃ o, handler x = Ok o) before → (∀ o, handler bad ≠ Ok o) →
  loop_handler handler (before ++ bad :: after) = (omap (λ x, match handler x with Ok o => o | _ => None end) before, false).
Proof.
  intros Hb Hbad. induction before as [|x l IH]; simpl.
  - destruct (handler bad) as [o| |]; [by destruct (Hbad o)|done|done].
  - apply Forall_cons in Hb as [[o Ho] Hl]. rewrite Ho, (IH Hl). by destruct o.
Qed.

Lemma loop_handler_prefix_witness :
  loop_handler (λ n : nat, if n =? 3 then Err NotMatchingHash else Ok (Some n)) ([1; 2] ++ 3 :: [4; 5]) =
    (omap (λ x, match (if x =? 3 then Err NotMatchingHash else Ok (Some x)) with Ok o => o | _ => None end) [1; 2], false).
Proof.
  apply (loop_handler_prefix (λ n : nat, if n =? 3 then Err NotMatchingHash else Ok (Some n)) [1; 2] 3 [4; 5]).
  - repeat constructor; eexists; reflexivity.
  - intros o. discriminate.
Defined.
