(* ===== verification/Io.v ===== *)
(** [std::io::Write] and the results of the peer crate's writers.

    A writer of type [W] takes a slice and reports success or an error; a
    routine that writes is a computation on the writer's state, so that what it
    wrote before it failed stays written.  Error values keep their kind, not
    their message. *)

From stdpp Require Import base numbers list.
From S2P Require Import Prelude Extern.

Inductive io_error :=
  | IoOther
  | IoUnsupported
  | IoInvalidInput
  | IoSink (code : Z).

(** [Write::write_all] *)
Class Write (W : Type) := write_all_to : bytes → W → W * option io_error.

(** [impl Write for Vec<u8>] and the writer of a [BytesMut]: append, never fail. *)
#[export] Instance vec_write : Write (list Z) := λ l w, (w ++ l, None).

Definition wr (W A : Type) : Type := W → W * res io_error A.

#[export] Instance wr_ret {W} : MRet (wr W) := λ A a w, (w, Ok a).
#[export] Instance wr_bind {W} : MBind (wr W) := λ A B k m w,
  match m w with
  | (w', Ok a) => k a w'
  | (w', Err e) => (w', Err e)
  | (w', Panic f) => (w', Panic f)
  end.

(** A computation that does not write. *)
Definition lift {W A} (r : res io_error A) : wr W A := λ w, (w, r).

Section Writers.
Context {W : Type} `{Write W}.

Definition write_all (l : bytes) : wr W () := λ w,
  match write_all_to l w with
  | (w', None) => (w', Ok ())
  | (w', Some e) => (w', Err e)
  end.

Context `{ByteOrder}.
Definition write_u8 (x : Z) : wr W () := write_all (u8_bytes x).
Definition write_u32 (x : Z) : wr W () := write_all (u32_be_bytes x).
End Writers.

(** [usize::try_into::<u32>().map_err(Unsupported)] *)
Definition try_u32 (x : Z) : res io_error Z :=
  if decide (is_u32 x) then Ok x else Err IoUnsupported.

(** [u32 + u32] with overflow checks. *)
Definition u32_add (x y : Z) : res io_error Z :=
  if decide (is_u32 (x + y)) then Ok (x + y)%Z else Panic ArithOverflow.

(** * What a routine emits into a buffer *)

(** [m] appends [out] to a buffer and returns [a]. *)
Definition emits {A} (m : wr (list Z) A) (out : bytes) (a : A) : Prop := ∀ w, m w = (w ++ out, Ok a).

Lemma emits_ret {A} (a : A) : emits (mret a) [] a.
Proof. intros w. by rewrite app_nil_r. Qed.

Lemma emits_bind {A B} (m : wr (list Z) A) (k : A → wr (list Z) B) o1 o2 a b :
  emits m o1 a → emits (k a) o2 b → emits (m ≫= k) (o1 ++ o2) b.
Proof. intros Hm Hk w. unfold mbind, wr_bind. rewrite Hm, Hk. by rewrite app_assoc. Qed.

Lemma emits_write_all l : emits (write_all l) l ().
Proof. by intros w. Qed.

Lemma emits_lift {A} (a : A) : emits (lift (Ok a)) [] a.
Proof. apply (emits_ret a). Qed.

Lemma emits_eq {A} (m : wr (list Z) A) o1 o2 a b : emits m o1 a → o1 = o2 → a = b → emits m o2 b.
Proof. by intros ? -> ->. Qed.

Lemma try_u32_Ok x : is_u32 x → try_u32 x = Ok x.
Proof. intros. unfold try_u32. by rewrite decide_True. Qed.

Lemma u32_add_Ok x y : is_u32 (x + y) → u32_add x y = Ok (x + y)%Z.
Proof. intros. unfold u32_add. by rewrite decide_True. Qed.

Section BigEndian.
Context `{ByteOrder}.

Lemma emits_write_u8 x : is_u8 x → emits (write_u8 x) [x] ().
Proof. intros Hx. unfold write_u8. rewrite u8_bytes_eq by done. apply emits_write_all. Qed.

Lemma emits_write_u32 x : emits (write_u32 x) (u32_be_bytes x) ().
Proof. apply emits_write_all. Qed.

Lemma u32_be_length x : is_u32 x → length (u32_be_bytes x) = 4.
Proof. intros Hx. by rewrite u32_be_bytes_eq. Qed.

Lemma u16_be_length x : is_u16 x → length (u16_be_bytes x) = 2.
Proof. intros Hx. by rewrite u16_be_bytes_eq. Qed.

Lemma div_mod_join x k : (0 < k)%Z → (x / k * k + x mod k = x)%Z.
Proof. intros. rewrite Z.mul_comm. symmetry. by apply Z_div_mod_eq_full. Qed.

Context `{Nom}.

Lemma be_u32_of_bytes x i : is_u32 x → nom_be_u32 (u32_be_bytes x ++ i) = Ok (i, x).
Proof.
  intros Hx. rewrite u32_be_bytes_eq by done. simpl app. rewrite nom_be_u32_cons. do 2 f_equal.
  replace (x / 16777216)%Z with (x / 65536 / 256)%Z by (rewrite Z.div_div by lia; done).
  rewrite div_mod_join by lia.
  replace (x / 65536)%Z with (x / 256 / 256)%Z by (rewrite Z.div_div by lia; done).
  by rewrite !div_mod_join by lia.
Qed.

Lemma be_u16_of_bytes x i : is_u16 x → nom_be_u16 (u16_be_bytes x ++ i) = Ok (i, x).
Proof.
  intros Hx. rewrite u16_be_bytes_eq by done. simpl app. rewrite nom_be_u16_cons. do 2 f_equal.
  by rewrite div_mod_join by lia.
Qed.
End BigEndian.

Create HintDb emits discriminated.
#[export] Hint Resolve emits_ret emits_write_all emits_write_u32 emits_lift : emits.
