(* ===== verification/PeerStandard.v ===== *)
(** packages/peer/src/message/standard.rs and bits_ext/port.rs, with the length
    and id header of message/mod.rs: the messages of the peer wire protocol that
    carry a payload, their writers and parsers, and the bit field's iterator.

    A [usize] field that is not a length of a slice is an integer. *)

From stdpp Require Import base numbers list.
From S2P Require Import Prelude Extern Convert Io.

(** * Header (message/mod.rs) *)

Definition KEEP_ALIVE_MESSAGE_LEN : Z := 0.
Definition CHOKE_MESSAGE_LEN : Z := 1.
Definition UNCHOKE_MESSAGE_LEN : Z := 1.
Definition INTERESTED_MESSAGE_LEN : Z := 1.
Definition UNINTERESTED_MESSAGE_LEN : Z := 1.
Definition HAVE_MESSAGE_LEN : Z := 5.
Definition BASE_BITFIELD_MESSAGE_LEN : Z := 1.
Definition REQUEST_MESSAGE_LEN : Z := 13.
Definition BASE_PIECE_MESSAGE_LEN : Z := 9.
Definition CANCEL_MESSAGE_LEN : Z := 13.
Definition PORT_MESSAGE_LEN : Z := 3.

Definition CHOKE_MESSAGE_ID : Z := 0.
Definition UNCHOKE_MESSAGE_ID : Z := 1.
Definition INTERESTED_MESSAGE_ID : Z := 2.
Definition UNINTERESTED_MESSAGE_ID : Z := 3.
Definition HAVE_MESSAGE_ID : Z := 4.
Definition BITFIELD_MESSAGE_ID : Z := 5.
Definition REQUEST_MESSAGE_ID : Z := 6.
Definition PIECE_MESSAGE_ID : Z := 7.
Definition CANCEL_MESSAGE_ID : Z := 8.
Definition PORT_MESSAGE_ID : Z := 9.

Definition MESSAGE_LENGTH_LEN_BYTES : nat := 4.
Definition MESSAGE_ID_LEN_BYTES : nat := 1.
Definition HEADER_LEN : nat := MESSAGE_LENGTH_LEN_BYTES + MESSAGE_ID_LEN_BYTES.

(** [u32_to_usize]; a [usize] has 64 bits. *)
Definition u32_to_usize (value : Z) : nat := Z.to_nat value.

Section Header.
Context {W : Type} `{Write W, ByteOrder}.

Definition write_length_id_pair (len : Z) (opt_id : option Z) : wr W nat :=
  write_u32 len ;;
  match opt_id with
  | Some id => write_u8 id ;; mret 5
  | None => mret 4
  end.
End Header.

(** How the [parse_bytes] functions end: [match parse(bytes) { Ok((_, msg)) =>
    msg, Err(_) => Err(..) }]. *)
Definition run_parser {A} (r : res NomErr (bytes * res io_error A)) : res io_error A :=
  match r with
  | Ok (_, msg) => msg
  | Err _ => Err IoOther
  | Panic f => Panic f
  end.

(** * Data (standard.rs, bits_ext/port.rs) *)

Record HaveMessage := { have_piece_index : Z }.
Record BitFieldMessage := { bf_bytes : bytes }.
Record RequestMessage := { req_piece_index : Z; req_block_offset : Z; req_block_length : Z }.
Record PieceMessage := { pc_piece_index : Z; pc_block_offset : Z; pc_block : bytes }.
Record CancelMessage := { can_piece_index : Z; can_block_offset : Z; can_block_length : Z }.
Record PortMessage := { pm_port : Z }.

#[export] Instance HaveMessage_eq_dec : EqDecision HaveMessage.
Proof. solve_decision. Defined.
#[export] Instance RequestMessage_eq_dec : EqDecision RequestMessage.
Proof. solve_decision. Defined.
#[export] Instance PieceMessage_eq_dec : EqDecision PieceMessage.
Proof. solve_decision. Defined.

(** * Writers *)

Section Write.
Context {W : Type} `{Write W, ByteOrder}.

Definition HaveMessage_write_bytes (self : HaveMessage) : wr W nat :=
  id_length ← write_length_id_pair HAVE_MESSAGE_LEN (Some HAVE_MESSAGE_ID);
  write_u32 (have_piece_index self) ;;
  mret (id_length + 4).

Definition BitFieldMessage_write_bytes (self : BitFieldMessage) : wr W nat :=
  message_length ← lift (try_u32 (Z.of_nat (length (bf_bytes self))));
  actual_length ← lift (u32_add message_length 1);
  id_length ← write_length_id_pair actual_length (Some BITFIELD_MESSAGE_ID);
  write_all (bf_bytes self) ;;
  mret (id_length + u32_to_usize message_length).

Definition RequestMessage_write_bytes (self : RequestMessage) : wr W nat :=
  id_length ← write_length_id_pair REQUEST_MESSAGE_LEN (Some REQUEST_MESSAGE_ID);
  write_u32 (req_piece_index self) ;;
  write_u32 (req_block_offset self) ;;
  block_length ← lift (try_u32 (req_block_length self));
  write_u32 block_length ;;
  mret (id_length + 12).

(** [actual_length.try_into().unwrap()] *)
Definition PieceMessage_write_bytes (self : PieceMessage) : wr W nat :=
  block_length ← lift (try_u32 (Z.of_nat (length (pc_block self))));
  let actual_length := (Z.of_nat (length (pc_block self)) + 9)%Z in
  actual_length ← lift (if decide (is_u32 actual_length) then Ok actual_length else Panic UnwrapNone);
  length_length ← write_length_id_pair actual_length (Some PIECE_MESSAGE_ID);
  write_u32 (pc_piece_index self) ;;
  write_u32 (pc_block_offset self) ;;
  write_all (pc_block self) ;;
  mret (length_length + u32_to_usize block_length + 8).

Definition CancelMessage_write_bytes (self : CancelMessage) : wr W nat :=
  id_length ← write_length_id_pair CANCEL_MESSAGE_LEN (Some CANCEL_MESSAGE_ID);
  write_u32 (can_piece_index self) ;;
  write_u32 (can_block_offset self) ;;
  block_length ← lift (try_u32 (can_block_length self));
  write_u32 block_length ;;
  mret (id_length + 12).

Definition PortMessage_write_bytes (self : PortMessage) : wr W nat :=
  length_len ← write_length_id_pair PORT_MESSAGE_LEN (Some PORT_MESSAGE_ID);
  write_all (u16_be_bytes (pm_port self)) ;;
  mret (length_len + 2).
End Write.

(** * Parsers *)

Section Parse.
Context `{Nom}.

Definition standard_parse_have : parser (res io_error HaveMessage) :=
  nom_map nom_be_u32 (λ index, Ok {| have_piece_index := index |}).
Definition HaveMessage_parse_bytes (l : bytes) : res io_error HaveMessage := run_parser (standard_parse_have l).

Definition standard_parse_bitfield (l : bytes) (len : nat) : res NomErr (bytes * res io_error BitFieldMessage) :=
  if len <=? length l then Ok (drop len l, Ok {| bf_bytes := take len l |}) else Err NomIncomplete.
Definition BitFieldMessage_parse_bytes (l : bytes) : res io_error BitFieldMessage :=
  let len := length l in run_parser (standard_parse_bitfield l len).

Definition standard_parse_request : parser (res io_error RequestMessage) :=
  nom_map (nom_pair nom_be_u32 (nom_pair nom_be_u32 nom_be_u32)) (λ '(index, (offset, len)),
    Ok {| req_piece_index := index; req_block_offset := offset; req_block_length := Z.of_nat (u32_to_usize len) |}).
Definition RequestMessage_parse_bytes (l : bytes) : res io_error RequestMessage :=
  run_parser (standard_parse_request l).

(** [len - 8] is evaluated when the parser is built. *)
Definition standard_parse_piece (l : bytes) (len : nat) : res NomErr (bytes * res io_error PieceMessage) :=
  if len <? 8 then Panic ArithOverflow else
  nom_map (nom_pair nom_be_u32 (nom_pair nom_be_u32 (nom_take (len - 8)))) (λ '(piece_index, (block_offset, block)),
    Ok {| pc_piece_index := piece_index; pc_block_offset := block_offset; pc_block := block |}) l.
Definition PieceMessage_parse_bytes (l : bytes) (len : nat) : res io_error PieceMessage :=
  run_parser (standard_parse_piece l len).

Definition standard_parse_cancel : parser (res io_error CancelMessage) :=
  nom_map (nom_pair nom_be_u32 (nom_pair nom_be_u32 nom_be_u32)) (λ '(index, (offset, len)),
    Ok {| can_piece_index := index; can_block_offset := offset; can_block_length := Z.of_nat (u32_to_usize len) |}).
Definition CancelMessage_parse_bytes (l : bytes) : res io_error CancelMessage :=
  run_parser (standard_parse_cancel l).

Definition PortMessage_parse_bytes : parser PortMessage := nom_map nom_be_u16 (λ p, {| pm_port := p |}).
End Parse.

(** * The bit field's iterator *)

Record BitFieldIter := { bi_bytes : bytes; cur_bit : nat }.

Definition BitFieldMessage_iter (self : BitFieldMessage) : BitFieldIter :=
  {| bi_bytes := bf_bytes self; cur_bit := 0 |}.

(** [next] calls itself past clear bits; [fuel] bounds those calls. *)
Fixpoint BitFieldIter_next (fuel : nat) (self : BitFieldIter) : res False (BitFieldIter * option HaveMessage) :=
  match fuel with
  | O => Panic OutOfFuel
  | S fuel' =>
      let byte_in_bytes := cur_bit self / 8 in
      let bit_in_byte := cur_bit self mod 8 in
      match bi_bytes self !! byte_in_bytes with
      | None => Ok (self, None)
      | Some byte =>
          if decide (is_u32 (Z.of_nat (cur_bit self))) then
            let have_message := {| have_piece_index := Z.of_nat (cur_bit self) |} in
            let self' := {| bi_bytes := bi_bytes self; cur_bit := cur_bit self + 1 |} in
            if (Z.shiftr (as_u8 (Z.shiftl byte (Z.of_nat bit_in_byte))) 7 =? 1)%Z
            then Ok (self', Some have_message)
            else BitFieldIter_next fuel' self'
          else Panic UnwrapNone
      end
  end.

(** Every call but the last moves past one bit of the field. *)
Definition bit_budget (l : bytes) : nat := 8 * length l + 1.

(** Collecting the iterator. *)
Fixpoint BitFieldIter_collect (fuel : nat) (self : BitFieldIter) : res False (list HaveMessage) :=
  match fuel with
  | O => Panic OutOfFuel
  | S fuel' =>
      '(self', item) ← BitFieldIter_next (bit_budget (bi_bytes self)) self;
      match item with
      | None => Ok []
      | Some have => rest ← BitFieldIter_collect fuel' self'; Ok (have :: rest)
      end
  end.

(** * Lemmas: writers *)

(** [w] writes the length prefix of [id :: body], then [id] and [body], and
    returns the number of bytes written. *)
Definition framed_as `{ByteOrder} (id : Z) (w : wr (list Z) nat) (body : bytes) : Prop :=
  is_u32 (1 + Z.of_nat (length body)) ∧
  emits w (u32_be_bytes (1 + Z.of_nat (length body)) ++ id :: body) (5 + length body).

(** Discharge a writer: one [emits] lemma per call. *)
Ltac emit :=
  repeat first
    [ eapply emits_bind
    | apply emits_ret
    | (apply emits_write_u8; first [done | unfold is_u8; lia])
    | apply emits_write_u32
    | apply emits_write_all
    | apply emits_lift ].

Section Writers.
Context `{ByteOrder}.

Lemma header_emits len id : is_u8 id → emits (write_length_id_pair len (Some id)) (u32_be_bytes len ++ [id]) 5.
Proof.
  intros Hid. unfold write_length_id_pair.
  eapply emits_eq; [emit|by rewrite app_nil_r|done].
Qed.

(** The header, then computations that emit the body. *)
Lemma framed_intro id len (k : nat → wr (list Z) nat) body :
  is_u8 id → len = (1 + Z.of_nat (length body))%Z → is_u32 len → emits (k 5) body (5 + length body) →
  framed_as id (write_length_id_pair len (Some id) ≫= k) body.
Proof.
  intros Hid -> Hlen Hk. split; [done|].
  eapply emits_eq; [eapply emits_bind; [by apply header_emits|exact Hk]|by rewrite <- app_assoc|done].
Qed.

Lemma framed_lift {A} id (r : res io_error A) a (k : A → wr (list Z) nat) body :
  r = Ok a → framed_as id (k a) body → framed_as id (lift r ≫= k) body.
Proof. intros -> [? He]. split; [done|]. intros w. apply He. Qed.

Lemma have_framed i : is_u32 i →
  framed_as HAVE_MESSAGE_ID (HaveMessage_write_bytes {| have_piece_index := i |}) (u32_be_bytes i).
Proof.
  intros Hi. pose proof (u32_be_length i Hi) as Hl. unfold HaveMessage_write_bytes.
  apply framed_intro; [unfold is_u8, HAVE_MESSAGE_ID; lia|rewrite Hl; done|unfold is_u32, HAVE_MESSAGE_LEN; lia|].
  eapply emits_eq; [emit|by rewrite app_nil_r|simpl; lia].
Qed.

Lemma bitfield_framed l : is_u32 (1 + Z.of_nat (length l)) →
  framed_as BITFIELD_MESSAGE_ID (BitFieldMessage_write_bytes {| bf_bytes := l |}) l.
Proof.
  intros Hl. unfold BitFieldMessage_write_bytes. simpl bf_bytes.
  eapply framed_lift; [apply try_u32_Ok; unfold is_u32 in *; lia|].
  eapply framed_lift; [apply u32_add_Ok; unfold is_u32 in *; lia|].
  apply framed_intro; [unfold is_u8, BITFIELD_MESSAGE_ID; lia|lia|unfold is_u32 in *; lia|].
  eapply emits_eq; [emit|by rewrite app_nil_r|unfold u32_to_usize; lia].
Qed.

Lemma request_framed i o len : is_u32 i → is_u32 o → is_u32 len →
  framed_as REQUEST_MESSAGE_ID
    (RequestMessage_write_bytes {| req_piece_index := i; req_block_offset := o; req_block_length := len |})
    (u32_be_bytes i ++ u32_be_bytes o ++ u32_be_bytes len).
Proof.
  intros Hi Ho Hl. unfold RequestMessage_write_bytes. simpl.
  apply framed_intro; [unfold is_u8, REQUEST_MESSAGE_ID; lia| |unfold is_u32, REQUEST_MESSAGE_LEN; lia|];
    rewrite ?length_app, ?u32_be_length by done; [done|].
  eapply emits_eq; [emit; rewrite try_u32_Ok by done; emit|by rewrite app_nil_r|done].
Qed.

Lemma cancel_framed i o len : is_u32 i → is_u32 o → is_u32 len →
  framed_as CANCEL_MESSAGE_ID
    (CancelMessage_write_bytes {| can_piece_index := i; can_block_offset := o; can_block_length := len |})
    (u32_be_bytes i ++ u32_be_bytes o ++ u32_be_bytes len).
Proof.
  intros Hi Ho Hl. unfold CancelMessage_write_bytes. simpl.
  apply framed_intro; [unfold is_u8, CANCEL_MESSAGE_ID; lia| |unfold is_u32, CANCEL_MESSAGE_LEN; lia|];
    rewrite ?length_app, ?u32_be_length by done; [done|].
  eapply emits_eq; [emit; rewrite try_u32_Ok by done; emit|by rewrite app_nil_r|done].
Qed.

Lemma piece_framed i o l : is_u32 i → is_u32 o → is_u32 (9 + Z.of_nat (length l)) →
  framed_as PIECE_MESSAGE_ID
    (PieceMessage_write_bytes {| pc_piece_index := i; pc_block_offset := o; pc_block := l |})
    (u32_be_bytes i ++ u32_be_bytes o ++ l).
Proof.
  intros Hi Ho Hl. unfold PieceMessage_write_bytes. simpl.
  eapply framed_lift; [apply try_u32_Ok; unfold is_u32 in *; lia|].
  eapply framed_lift; [rewrite decide_True; [done|unfold is_u32 in *; lia]|].
  apply framed_intro; [unfold is_u8, PIECE_MESSAGE_ID; lia| |unfold is_u32 in *; lia|];
    rewrite ?length_app, ?u32_be_length by done; [lia|].
  eapply emits_eq; [emit|by rewrite app_nil_r|unfold u32_to_usize; lia].
Qed.

Lemma port_framed p : is_u16 p →
  framed_as PORT_MESSAGE_ID (PortMessage_write_bytes {| pm_port := p |}) (u16_be_bytes p).
Proof.
  intros Hp. pose proof (u16_be_length p Hp) as Hl. unfold PortMessage_write_bytes.
  apply framed_intro; [unfold is_u8, PORT_MESSAGE_ID; lia|rewrite Hl; done|unfold is_u32, PORT_MESSAGE_LEN; lia|].
  eapply emits_eq; [emit|by rewrite app_nil_r|simpl; lia].
Qed.

(** A header whose body fails after [partial]: the header and [partial] stay written. *)
Lemma request_too_long i o len w : ¬ is_u32 len →
  RequestMessage_write_bytes {| req_piece_index := i; req_block_offset := o; req_block_length := len |} w =
    (w ++ u32_be_bytes REQUEST_MESSAGE_LEN ++ REQUEST_MESSAGE_ID :: u32_be_bytes i ++ u32_be_bytes o, Err IoUnsupported).
Proof.
  intros Hl. unfold RequestMessage_write_bytes, mbind, wr_bind at 1.
  rewrite (header_emits REQUEST_MESSAGE_LEN REQUEST_MESSAGE_ID) by (unfold is_u8, REQUEST_MESSAGE_ID; lia).
  simpl. unfold wr_bind. simpl. unfold lift, try_u32. rewrite decide_False by done. simpl.
  by rewrite <- !app_assoc.
Qed.
End Writers.

(** * Lemmas: parsers *)

Section Parsers.
Context `{ByteOrder, Nom}.

Lemma have_parse i rest : is_u32 i → HaveMessage_parse_bytes (u32_be_bytes i ++ rest) = Ok {| have_piece_index := i |}.
Proof.
  intros Hi. unfold HaveMessage_parse_bytes, standard_parse_have.
  by rewrite nom_map_eq, be_u32_of_bytes.
Qed.

Lemma bitfield_parse l : BitFieldMessage_parse_bytes l = Ok {| bf_bytes := l |}.
Proof.
  unfold BitFieldMessage_parse_bytes, standard_parse_bitfield. rewrite Nat.leb_refl. simpl.
  by rewrite firstn_all.
Qed.

Lemma three_u32 i o len rest : is_u32 i → is_u32 o → is_u32 len →
  nom_pair nom_be_u32 (nom_pair nom_be_u32 nom_be_u32) (u32_be_bytes i ++ u32_be_bytes o ++ u32_be_bytes len ++ rest)
  = Ok (rest, (i, (o, len))).
Proof.
  intros Hi Ho Hl. rewrite nom_pair_eq, be_u32_of_bytes by done. cbn [mbind res_bind].
  rewrite nom_pair_eq, be_u32_of_bytes by done. cbn [mbind res_bind].
  by rewrite be_u32_of_bytes by done.
Qed.

Lemma request_parse i o len rest : is_u32 i → is_u32 o → is_u32 len →
  RequestMessage_parse_bytes (u32_be_bytes i ++ u32_be_bytes o ++ u32_be_bytes len ++ rest) =
    Ok {| req_piece_index := i; req_block_offset := o; req_block_length := len |}.
Proof.
  intros. unfold RequestMessage_parse_bytes, standard_parse_request.
  rewrite nom_map_eq, three_u32 by done. simpl. unfold u32_to_usize, is_u32 in *. by rewrite Z2Nat.id by lia.
Qed.

Lemma cancel_parse i o len rest : is_u32 i → is_u32 o → is_u32 len →
  CancelMessage_parse_bytes (u32_be_bytes i ++ u32_be_bytes o ++ u32_be_bytes len ++ rest) =
    Ok {| can_piece_index := i; can_block_offset := o; can_block_length := len |}.
Proof.
  intros. unfold CancelMessage_parse_bytes, standard_parse_cancel.
  rewrite nom_map_eq, three_u32 by done. simpl. unfold u32_to_usize, is_u32 in *. by rewrite Z2Nat.id by lia.
Qed.

Lemma piece_parse i o l rest : is_u32 i → is_u32 o →
  PieceMessage_parse_bytes (u32_be_bytes i ++ u32_be_bytes o ++ l ++ rest) (8 + length l) =
    Ok {| pc_piece_index := i; pc_block_offset := o; pc_block := l |}.
Proof.
  intros Hi Ho. unfold PieceMessage_parse_bytes, standard_parse_piece.
  destruct (Nat.ltb_spec (8 + length l) 8); [lia|].
  rewrite nom_map_eq, nom_pair_eq, be_u32_of_bytes by done. cbn [mbind res_bind].
  rewrite nom_pair_eq, be_u32_of_bytes by done. cbn [mbind res_bind].
  replace (8 + length l - 8) with (length l) by lia.
  rewrite nom_take_enough by (rewrite length_app; lia). cbn [mbind res_bind].
  by rewrite take_app_length.
Qed.

Lemma port_parse p rest : is_u16 p → PortMessage_parse_bytes (u16_be_bytes p ++ rest) = Ok (rest, {| pm_port := p |}).
Proof. intros Hp. unfold PortMessage_parse_bytes. by rewrite nom_map_eq, be_u16_of_bytes. Qed.
End Parsers.

(** * Lemmas: the bit field's iterator *)

(** Bit [i] of a field, counting from the most significant bit of the first byte. *)
Definition has_piece (l : bytes) (i : nat) : bool :=
  Z.testbit (nth (i / 8) l 0%Z) (7 - Z.of_nat (i mod 8)).

(** The set bits at [c] and the [n] - 1 positions after it, in order. *)
Definition pieces_from (l : bytes) (c n : nat) : list nat := filter (λ i, has_piece l i = true) (seq c n).

Definition have_of (i : nat) : HaveMessage := {| have_piece_index := Z.of_nat i |}.

Lemma shift_test x b : (0 ≤ b < 8)%Z →
  (Z.shiftr (as_u8 (Z.shiftl x b)) 7 =? 1)%Z = Z.testbit x (7 - b).
Proof.
  intros Hb. set (y := as_u8 (Z.shiftl x b)). pose proof (as_u8_range (Z.shiftl x b)) as Hy. fold y in Hy.
  assert (Ht : Z.testbit y 7 = Z.testbit x (7 - b)).
  { unfold y, as_u8. change 256%Z with (2 ^ 8)%Z. rewrite Z.mod_pow2_bits_low by lia.
    by rewrite Z.shiftl_spec by lia. }
  rewrite <- Ht, Z.testbit_odd. rewrite Z.shiftr_div_pow2 by lia. change (2 ^ 7)%Z with 128%Z.
  unfold is_u8 in Hy. assert (y / 128 = 0 ∨ y / 128 = 1)%Z as [->| ->]; [|done|done].
  assert (0 ≤ y / 128 < 2)%Z; [|lia]. split; [apply Z.div_pos; lia|apply Z.div_lt_upper_bound; lia].
Qed.

Lemma pieces_from_S l c n :
  pieces_from l c (S n) = (if has_piece l c then [c] else []) ++ pieces_from l (c + 1) n.
Proof.
  unfold pieces_from. simpl. rewrite filter_cons. rewrite Nat.add_1_r.
  by destruct (has_piece l c).
Qed.

(** One call of [next] is a clear bit skipped, a set bit returned, or the end. *)
Lemma next_step fuel l c n : c + n = 8 * length l → (Z.of_nat (8 * length l) ≤ 2 ^ 32)%Z →
  BitFieldIter_next (S fuel) {| bi_bytes := l; cur_bit := c |} =
    match n with
    | O => Ok ({| bi_bytes := l; cur_bit := c |}, None)
    | S _ => let self' := {| bi_bytes := l; cur_bit := c + 1 |} in
             if has_piece l c then Ok (self', Some (have_of c)) else BitFieldIter_next fuel self'
    end.
Proof.
  intros Hc Hl. cbn [BitFieldIter_next bi_bytes cur_bit]. destruct n as [|n].
  - rewrite (proj2 (lookup_ge_None l (c / 8))); [done|]. apply Nat.div_le_lower_bound; lia.
  - destruct (lookup_lt_is_Some_2 l (c / 8)) as [x Hx]; [apply Nat.Div0.div_lt_upper_bound; lia|].
    rewrite Hx, decide_True by (unfold is_u32; lia).
    assert (c mod 8 < 8) by (apply Nat.mod_upper_bound; lia).
    rewrite shift_test by lia. unfold has_piece, have_of. by rewrite (nth_lookup_Some _ _ 0%Z _ Hx).
Qed.

Lemma bits_next_spec l n : ∀ c fuel, c + n = 8 * length l → (Z.of_nat (8 * length l) ≤ 2 ^ 32)%Z → n < fuel →
  BitFieldIter_next fuel {| bi_bytes := l; cur_bit := c |} =
    match pieces_from l c n with
    | [] => Ok ({| bi_bytes := l; cur_bit := 8 * length l |}, None)
    | i :: _ => Ok ({| bi_bytes := l; cur_bit := i + 1 |}, Some (have_of i))
    end.
Proof.
  induction n as [|n IH]; intros c fuel Hc Hl Hf; (destruct fuel as [|fuel]; [lia|]).
  - rewrite (next_step _ _ _ 0) by done. by replace c with (8 * length l) by lia.
  - rewrite (next_step _ _ _ (S n)) by done. rewrite pieces_from_S. cbv zeta.
    destruct (has_piece l c); [done|]. simpl app. apply IH; lia.
Qed.

Lemma pieces_from_tail l n : ∀ c i rest, pieces_from l c n = i :: rest →
  c ≤ i < c + n ∧ rest = pieces_from l (i + 1) (c + n - (i + 1)).
Proof.
  induction n as [|n IH]; intros c i rest; [done|]. rewrite pieces_from_S.
  destruct (has_piece l c); simpl app.
  - intros [= -> <-]. split; [lia|]. f_equal; lia.
  - intros Hp. destruct (IH _ _ _ Hp) as [? ->]. split; [lia|]. f_equal; lia.
Qed.

Lemma bits_collect_spec l fuel : ∀ c n, c + n = 8 * length l → (Z.of_nat (8 * length l) ≤ 2 ^ 32)%Z → n < fuel →
  BitFieldIter_collect fuel {| bi_bytes := l; cur_bit := c |} = Ok (have_of <$> pieces_from l c n).
Proof.
  induction fuel as [|fuel IH]; intros c n Hc Hl Hf; [lia|]. cbn [BitFieldIter_collect bi_bytes].
  rewrite (bits_next_spec l n) by (unfold bit_budget; lia).
  destruct (pieces_from l c n) as [|i rest] eqn:Ep; [done|]. cbn [mbind res_bind].
  destruct (pieces_from_tail l n c i rest Ep) as [Hi Hr].
  rewrite (IH (i + 1) (c + n - (i + 1))) by lia. by rewrite <- Hr.
Qed.

(** * Properties *)

Section Properties.
Context `{ByteOrder, Nom}.

(** Round trips: for fields within 32 bits (16 for a port) each
    message is written as a length prefix that counts the id and the body, the
    id and the body, the writer reports the number of bytes written, and the
    message's parser reads the message back from the body. *)
Theorem standard_messages_roundtrip i o len p (l : bytes) :
  is_u32 i → is_u32 o → is_u32 len → is_u16 p → is_u32 (9 + Z.of_nat (length l)) →
  (∃ body, framed_as HAVE_MESSAGE_ID (HaveMessage_write_bytes {| have_piece_index := i |}) body ∧
     HaveMessage_parse_bytes body = Ok {| have_piece_index := i |}) ∧
  (∃ body, framed_as BITFIELD_MESSAGE_ID (BitFieldMessage_write_bytes {| bf_bytes := l |}) body ∧
     BitFieldMessage_parse_bytes body = Ok {| bf_bytes := l |}) ∧
  (let m := {| req_piece_index := i; req_block_offset := o; req_block_length := len |} in
   ∃ body, framed_as REQUEST_MESSAGE_ID (RequestMessage_write_bytes m) body ∧ RequestMessage_parse_bytes body = Ok m) ∧
  (let m := {| pc_piece_index := i; pc_block_offset := o; pc_block := l |} in
   ∃ body, framed_as PIECE_MESSAGE_ID (PieceMessage_write_bytes m) body ∧
     PieceMessage_parse_bytes body (length body) = Ok m) ∧
  (let m := {| can_piece_index := i; can_block_offset := o; can_block_length := len |} in
   ∃ body, framed_as CANCEL_MESSAGE_ID (CancelMessage_write_bytes m) body ∧ CancelMessage_parse_bytes body = Ok m) ∧
  (∃ body, framed_as PORT_MESSAGE_ID (PortMessage_write_bytes {| pm_port := p |}) body ∧
     PortMessage_parse_bytes body = Ok ([], {| pm_port := p |})).
Proof.
  intros Hi Ho Hlen Hp Hl. split_and!; eexists; (split; [eauto using have_framed, request_framed, piece_framed, cancel_framed, port_framed|]).
  - rewrite <- (app_nil_r (u32_be_bytes i)). by apply have_parse.
  - apply bitfield_framed. unfold is_u32 in *. lia.
  - apply bitfield_parse.
  - rewrite <- (app_nil_r (u32_be_bytes len)). by apply request_parse.
  - rewrite !length_app, !u32_be_length by done. rewrite <- (app_nil_r l) at 1. by apply piece_parse.
  - rewrite <- (app_nil_r (u32_be_bytes len)). by apply cancel_parse.
  - rewrite <- (app_nil_r (u16_be_bytes p)). by apply port_parse.
Qed.

(** A block length of more than 32 bits is refused after the header
    was written: a request leaves 13 of the 17 bytes its prefix announces in
    the writer. *)
Theorem request_overflow_leaves_partial_frame i o len (w : list Z) :
  is_u32 i → is_u32 o → (2 ^ 32 ≤ len)%Z →
  ∃ out, RequestMessage_write_bytes {| req_piece_index := i; req_block_offset := o; req_block_length := len |} w =
           (w ++ out, Err IoUnsupported) ∧
    length out = 13 ∧ ∃ rest, nom_be_u32 out = Ok (rest, 13%Z) ∧ length rest = 9.
Proof.
  intros Hi Ho Hl. eexists. split; [apply request_too_long; unfold is_u32; lia|].
  assert (Hr : is_u32 REQUEST_MESSAGE_LEN) by (unfold is_u32, REQUEST_MESSAGE_LEN; lia).
  rewrite be_u32_of_bytes by done. rewrite !length_app, u32_be_length by done.
  cbn [length]. rewrite length_app, !u32_be_length by done.
  split; [done|]. eexists. split; [reflexivity|]. cbn [length]. by rewrite length_app, !u32_be_length by done.
Qed.

(** Iterating a bit field ends and yields exactly the indices of
    its set bits, in increasing order, the most significant bit of a byte
    first (for fields of up to 2^32 bits; no index repeats or is skipped). *)
Theorem bitfield_iter_spec (m : BitFieldMessage) :
  (Z.of_nat (8 * length (bf_bytes m)) ≤ 2 ^ 32)%Z →
  BitFieldIter_collect (bit_budget (bf_bytes m)) (BitFieldMessage_iter m) =
    Ok (have_of <$> filter (λ i, has_piece (bf_bytes m) i = true) (seq 0 (8 * length (bf_bytes m)))).
Proof.
  intros Hl. unfold BitFieldMessage_iter, bit_budget. apply bits_collect_spec; lia.
Qed.
End Properties.

Lemma standard_messages_roundtrip_witness :
  let _ := byteorder_lists in let _ := nom_lists in
  ∃ body, framed_as HAVE_MESSAGE_ID (HaveMessage_write_bytes {| have_piece_index := 7 |}) body ∧
     HaveMessage_parse_bytes body = Ok {| have_piece_index := 7 |}.
Proof.
  intros BO NM. refine (proj1 (standard_messages_roundtrip 7 0 16384 6881 [1; 2]%Z _ _ _ _ _));
    unfold is_u32, is_u16; simpl; lia.
Defined.

Lemma request_overflow_leaves_partial_frame_witness :
  let _ := byteorder_lists in let _ := nom_lists in
  ∃ out, RequestMessage_write_bytes {| req_piece_index := 0; req_block_offset := 0; req_block_length := 2 ^ 32 |} [] =
           ([] ++ out, Err IoUnsupported) ∧
    length out = 13 ∧ ∃ rest, nom_be_u32 out = Ok (rest, 13%Z) ∧ length rest = 9.
Proof.
  intros BO NM. apply request_overflow_leaves_partial_frame; unfold is_u32; lia.
Defined.

Lemma bitfield_iter_spec_witness :
  BitFieldIter_collect 17 (BitFieldMessage_iter {| bf_bytes := [160; 1]%Z |}) = Ok [have_of 0; have_of 2; have_of 15].
Proof. exact (bitfield_iter_spec {| bf_bytes := [160; 1]%Z |} ltac:(simpl; lia)). Defined.
