(* ===== verification/PeerExtended.v ===== *)
(** packages/peer/src/message: bencode_util.rs, bits_ext/handshake.rs (the BEP 10
    extended handshake and its builder), bits_ext/mod.rs and
    prot_ext/ut_metadata.rs.

    A [HashMap] is a [gmap]; its iteration order is unspecified, so what walks
    one takes the order from the class [HashOrder] of RustStd.  A [String] is its bytes. *)

From stdpp Require Import base numbers strings gmap list.
From S2P Require Import Prelude RustStd Extern Bencode BencodeTheorems Convert Io PeerStandard.

(** * [ExtendedType] (bits_ext/handshake.rs) *)

Definition UT_METADATA_ID : bytes := bstr "ut_metadata".
Definition UT_PEX_ID : bytes := bstr "ut_pex".

Inductive ExtendedType := ExtUtMetadata | ExtUtPex | ExtCustom (id : bytes).

#[export] Instance ExtendedType_eq_dec : EqDecision ExtendedType.
Proof. solve_decision. Defined.

#[export] Instance ExtendedType_countable : Countable ExtendedType.
Proof.
  refine (inj_countable'
    (λ t, match t with ExtUtMetadata => inl true | ExtUtPex => inl false | ExtCustom id => inr id end)
    (λ s, match s with inl true => ExtUtMetadata | inl false => ExtUtPex | inr id => ExtCustom id end) _).
  by intros [| |].
Defined.

Definition ExtendedType_from_id (id : bytes) : ExtendedType :=
  if decide (id = UT_METADATA_ID) then ExtUtMetadata
  else if decide (id = UT_PEX_ID) then ExtUtPex
  else ExtCustom id.

Definition ExtendedType_id (self : ExtendedType) : bytes :=
  match self with ExtUtMetadata => UT_METADATA_ID | ExtUtPex => UT_PEX_ID | ExtCustom id => id end.

(** * bencode_util.rs *)

Definition io_convert_error (_ : BencodeConvertError) : io_error := IoOther.

Definition ID_MAP_KEY : bytes := bstr "m".
Definition CLIENT_ID_KEY : bytes := bstr "v".
Definition CLIENT_TCP_PORT_KEY : bytes := bstr "p".
Definition OUR_IP_KEY : bytes := bstr "yourip".
Definition CLIENT_IPV6_ADDR_KEY : bytes := bstr "ipv6".
Definition CLIENT_IPV4_ADDR_KEY : bytes := bstr "ipv4".
Definition CLIENT_MAX_REQUESTS_KEY : bytes := bstr "reqq".
Definition METADATA_SIZE_KEY : bytes := bstr "metadata_size".
Definition MESSAGE_TYPE_KEY : bytes := bstr "msg_type".
Definition PIECE_INDEX_KEY : bytes := bstr "piece".
Definition TOTAL_SIZE_KEY : bytes := bstr "total_size".

(** [Result::ok] *)
Definition res_ok {E A} (r : res E A) : option A := match r with Ok a => Some a | _ => None end.

Section BencodeUtil.
Context {T : Type} `{!BRefAccess T}.
Implicit Types root : list (bytes * T).

(** The loop over [ben_id_map.to_list()]; [value.try_into().unwrap()] panics on
    a value that is not a [u8]. *)
Fixpoint parse_id_entries (entries : list (bytes * T)) (id_map : gmap ExtendedType Z) :
    res io_error (gmap ExtendedType Z) :=
  match entries with
  | [] => Ok id_map
  | (id, ben_value) :: entries' =>
      match str_from_utf8 id, res_ok (convert_int io_convert_error ben_value id) with
      | Some str_id, Some value =>
          if decide (is_u8 value)
          then parse_id_entries entries' (<[ExtendedType_from_id str_id := value]> id_map)
          else Panic UnwrapNone
      | _, _ => parse_id_entries entries' id_map
      end
  end.

Definition parse_id_map root : res io_error (gmap ExtendedType Z) :=
  match res_ok (lookup_and_convert_dict io_convert_error root ID_MAP_KEY) with
  | Some ben_id_map => parse_id_entries (dict_to_list ben_id_map) ∅
  | None => Ok ∅
  end.

Definition parse_client_id root : option bytes := res_ok (lookup_and_convert_str io_convert_error root CLIENT_ID_KEY).

Definition parse_client_tcp_port root : option Z :=
  port ← res_ok (lookup_and_convert_int io_convert_error root CLIENT_TCP_PORT_KEY);
  if decide (is_u16 port) then Some port else None.

Definition parse_ipv4_addr (l : bytes) : Ipv4Addr :=
  bytes_be_to_ipv4 [nth 0 l 0%Z; nth 1 l 0%Z; nth 2 l 0%Z; nth 3 l 0%Z].

Definition parse_ipv6_addr (l : bytes) : Ipv6Addr :=
  bytes_be_to_ipv6 [nth 0 l 0%Z; nth 1 l 0%Z; nth 2 l 0%Z; nth 3 l 0%Z; nth 4 l 0%Z; nth 5 l 0%Z; nth 6 l 0%Z;
    nth 7 l 0%Z; nth 8 l 0%Z; nth 9 l 0%Z; nth 10 l 0%Z; nth 11 l 0%Z; nth 12 l 0%Z; nth 13 l 0%Z; nth 14 l 0%Z;
    nth 15 l 0%Z].

Definition parse_our_ip root : option IpAddr :=
  ip_bytes ← res_ok (lookup_and_convert_bytes io_convert_error root OUR_IP_KEY);
  if length ip_bytes =? 4 then Some (IpV4 (parse_ipv4_addr ip_bytes))
  else if length ip_bytes =? 16 then Some (IpV6 (parse_ipv6_addr ip_bytes))
  else None.

Definition parse_client_ipv6_addr root : option Ipv6Addr :=
  ipv6_bytes ← res_ok (lookup_and_convert_bytes io_convert_error root CLIENT_IPV6_ADDR_KEY);
  if length ipv6_bytes =? 16 then Some (parse_ipv6_addr ipv6_bytes) else None.

Definition parse_client_ipv4_addr root : option Ipv4Addr :=
  ipv4_bytes ← res_ok (lookup_and_convert_bytes io_convert_error root CLIENT_IPV4_ADDR_KEY);
  if length ipv4_bytes =? 4 then Some (parse_ipv4_addr ipv4_bytes) else None.

Definition parse_client_max_requests root : option Z :=
  res_ok (lookup_and_convert_int io_convert_error root CLIENT_MAX_REQUESTS_KEY).

Definition parse_metadata_size root : option Z :=
  res_ok (lookup_and_convert_int io_convert_error root METADATA_SIZE_KEY).

(** [msg_type.try_into().unwrap()] to a [u8]. *)
Definition parse_message_type root : res io_error Z :=
  msg_type ← lookup_and_convert_int io_convert_error root MESSAGE_TYPE_KEY;
  if decide (is_u8 msg_type) then Ok msg_type else Panic UnwrapNone.

Definition parse_piece_index root : res io_error Z := lookup_and_convert_int io_convert_error root PIECE_INDEX_KEY.
Definition parse_total_size root : res io_error Z := lookup_and_convert_int io_convert_error root TOTAL_SIZE_KEY.
End BencodeUtil.

(** * [ExtendedMessageBuilder] (bits_ext/handshake.rs) *)

Record ExtendedMessageBuilder := {
  b_id_map : gmap ExtendedType Z;
  b_our_id : option bytes;
  b_our_tcp_port : option Z;
  b_their_ip : option IpAddr;
  b_our_ipv6_addr : option Ipv6Addr;
  b_our_ipv4_addr : option Ipv4Addr;
  b_our_max_requests : option Z;
  b_metadata_size : option Z;
  b_custom_entries : gmap bytes BencodeMut
}.

Definition ExtendedMessageBuilder_new : ExtendedMessageBuilder :=
  {| b_id_map := ∅; b_our_id := None; b_our_tcp_port := None; b_their_ip := None; b_our_ipv6_addr := None;
     b_our_ipv4_addr := None; b_our_max_requests := None; b_metadata_size := None; b_custom_entries := ∅ |}.

Definition set_entry {K V} `{Countable K} (k : K) (o : option V) (m : gmap K V) : gmap K V :=
  match o with Some v => <[k := v]> m | None => delete k m end.

Definition with_our_id (self : ExtendedMessageBuilder) (id : option bytes) : ExtendedMessageBuilder :=
  let '(Build_ExtendedMessageBuilder m _ p t i6 i4 r s c) := self in Build_ExtendedMessageBuilder m id p t i6 i4 r s c.
Definition with_extended_type (self : ExtendedMessageBuilder) (ext_type : ExtendedType) (opt_value : option Z) :=
  let '(Build_ExtendedMessageBuilder m i p t i6 i4 r s c) := self in
  Build_ExtendedMessageBuilder (set_entry ext_type opt_value m) i p t i6 i4 r s c.
Definition with_our_tcp_port (self : ExtendedMessageBuilder) (tcp : option Z) : ExtendedMessageBuilder :=
  let '(Build_ExtendedMessageBuilder m i _ t i6 i4 r s c) := self in Build_ExtendedMessageBuilder m i tcp t i6 i4 r s c.
Definition with_their_ip (self : ExtendedMessageBuilder) (ip : option IpAddr) : ExtendedMessageBuilder :=
  let '(Build_ExtendedMessageBuilder m i p _ i6 i4 r s c) := self in Build_ExtendedMessageBuilder m i p ip i6 i4 r s c.
Definition with_our_ipv6_addr (self : ExtendedMessageBuilder) (ipv6 : option Ipv6Addr) : ExtendedMessageBuilder :=
  let '(Build_ExtendedMessageBuilder m i p t _ i4 r s c) := self in Build_ExtendedMessageBuilder m i p t ipv6 i4 r s c.
Definition with_our_ipv4_addr (self : ExtendedMessageBuilder) (ipv4 : option Ipv4Addr) : ExtendedMessageBuilder :=
  let '(Build_ExtendedMessageBuilder m i p t i6 _ r s c) := self in Build_ExtendedMessageBuilder m i p t i6 ipv4 r s c.
Definition with_max_requests (self : ExtendedMessageBuilder) (max_requests : option Z) : ExtendedMessageBuilder :=
  let '(Build_ExtendedMessageBuilder m i p t i6 i4 _ s c) := self in
  Build_ExtendedMessageBuilder m i p t i6 i4 max_requests s c.
Definition with_metadata_size (self : ExtendedMessageBuilder) (metadata_size : option Z) : ExtendedMessageBuilder :=
  let '(Build_ExtendedMessageBuilder m i p t i6 i4 r _ c) := self in
  Build_ExtendedMessageBuilder m i p t i6 i4 r metadata_size c.
Definition with_custom_entry (self : ExtendedMessageBuilder) (key : bytes) (opt_value : option BencodeMut) :=
  let '(Build_ExtendedMessageBuilder m i p t i6 i4 r s c) := self in
  Build_ExtendedMessageBuilder m i p t i6 i4 r s (set_entry key opt_value c).

(** * [ExtendedMessage] *)

Definition BASE_EXTENDED_MESSAGE_LEN : Z := 6.
Definition EXTENDED_MESSAGE_ID : Z := 20.
Definition EXTENDED_MESSAGE_HANDSHAKE_ID : Z := 0.
Definition EXTENDED_ROOT_ERROR_KEY : bytes := bstr "ExtendedMessage".

Record ExtendedMessage := {
  m_id_map : gmap ExtendedType Z;
  m_our_id : option bytes;
  m_our_tcp_port : option Z;
  m_their_ip : option IpAddr;
  m_our_ipv6_addr : option Ipv6Addr;
  m_our_ipv4_addr : option Ipv4Addr;
  m_our_max_requests : option Z;
  m_metadata_size : option Z;
  m_raw_bencode : bytes
}.

Abbreviation entries := (list (bytes * BencodeMut)) (only parsing).

(** [root_map_access.insert(key, value)], the previous value dropped. *)
Definition dict_put (d : entries) (key : bytes) (value : BencodeMut) : entries := (dict_insert d key value).1.

(** [opt.map(|x| root_map_access.insert(key, f(x)))] *)
Definition dict_put_opt {A} (d : entries) (key : bytes) (f : A → BencodeMut) (o : option A) : entries :=
  match o with Some x => dict_put d key (f x) | None => d end.

Definition ip_bytes (their_ip : IpAddr) : bytes :=
  match their_ip with IpV4 ipv4_addr => ipv4_to_bytes_be ipv4_addr | IpV6 ipv6_addr => ipv6_to_bytes_be ipv6_addr end.

Section Build.
Context `{HashOrder}.

Definition ben_id_map (id_map : gmap ExtendedType Z) : entries :=
  foldl (λ d '(ext_id, value), dict_put d (ExtendedType_id ext_id) (new_int value)) [] (hash_iter id_map).

Definition root_dict (builder : ExtendedMessageBuilder) (custom_entries : gmap bytes BencodeMut) : entries :=
  let root := dict_put [] ID_MAP_KEY (MDict (ben_id_map (b_id_map builder))) in
  let root := foldl (λ d '(key, value), dict_put d key value) root (hash_iter custom_entries) in
  let root := dict_put_opt root CLIENT_ID_KEY new_bytes (b_our_id builder) in
  let root := dict_put_opt root CLIENT_TCP_PORT_KEY new_int (b_our_tcp_port builder) in
  let root := dict_put_opt root OUR_IP_KEY (λ ip, new_bytes (ip_bytes ip)) (b_their_ip builder) in
  let root := dict_put_opt root CLIENT_IPV6_ADDR_KEY (λ ip, new_bytes (ipv6_to_bytes_be ip)) (b_our_ipv6_addr builder) in
  let root := dict_put_opt root CLIENT_IPV4_ADDR_KEY (λ ip, new_bytes (ipv4_to_bytes_be ip)) (b_our_ipv4_addr builder) in
  let root := dict_put_opt root CLIENT_MAX_REQUESTS_KEY new_int (b_our_max_requests builder) in
  dict_put_opt root METADATA_SIZE_KEY new_int (b_metadata_size builder).

Definition bencode_from_builder (builder : ExtendedMessageBuilder) (custom_entries : gmap bytes BencodeMut) : bytes :=
  BencodeMut_encode (MDict (root_dict builder custom_entries)).

Definition ExtendedMessage_from_builder (builder : ExtendedMessageBuilder) : ExtendedMessage :=
  {| m_id_map := b_id_map builder; m_our_id := b_our_id builder; m_our_tcp_port := b_our_tcp_port builder;
     m_their_ip := b_their_ip builder; m_our_ipv6_addr := b_our_ipv6_addr builder;
     m_our_ipv4_addr := b_our_ipv4_addr builder; m_our_max_requests := b_our_max_requests builder;
     m_metadata_size := b_metadata_size builder;
     m_raw_bencode := bencode_from_builder builder (b_custom_entries builder) |}.

Definition build (self : ExtendedMessageBuilder) : ExtendedMessage := ExtendedMessage_from_builder self.
End Build.

Definition bencode_size (self : ExtendedMessage) : nat := length (m_raw_bencode self).

Definition query_id (self : ExtendedMessage) (ext_type : ExtendedType) : option Z := m_id_map self !! ext_type.

(** The closure of [and_then]: the message of a decoded dictionary. *)
Definition ExtendedMessage_of_bencode (raw_bencode : bytes) (bencode : BencodeRef) : res io_error ExtendedMessage :=
  ben_dict ← convert_dict io_convert_error bencode EXTENDED_ROOT_ERROR_KEY;
  id_map ← parse_id_map ben_dict;
  Ok {| m_id_map := id_map; m_our_id := parse_client_id ben_dict; m_our_tcp_port := parse_client_tcp_port ben_dict;
        m_their_ip := parse_our_ip ben_dict; m_our_ipv6_addr := parse_client_ipv6_addr ben_dict;
        m_our_ipv4_addr := parse_client_ipv4_addr ben_dict; m_our_max_requests := parse_client_max_requests ben_dict;
        m_metadata_size := parse_metadata_size ben_dict; m_raw_bencode := raw_bencode |}.

(** The whole input is handed back as the remaining bytes. *)
Definition ExtendedMessage_parse_bytes (l : bytes) (len : Z) : res NomErr (bytes * res io_error ExtendedMessage) :=
  let cast_len := u32_to_usize len in
  if cast_len <=? length l then
    let raw_bencode := take cast_len l in
    Ok (l, bencode ← res_map_err (λ _, IoOther) (BencodeRef_decode raw_bencode BDecodeOpt_default);
           ExtendedMessage_of_bencode raw_bencode bencode)
  else Err NomIncomplete.

Definition ExtendedMessage_write_bytes {W} `{Write W, ByteOrder} (self : ExtendedMessage) : wr W nat :=
  real_length ← lift (try_u32 (Z.of_nat (bencode_size self) + 2));
  len ← write_length_id_pair real_length (Some EXTENDED_MESSAGE_ID);
  write_all [EXTENDED_MESSAGE_HANDSHAKE_ID] ;;
  write_all (m_raw_bencode self) ;;
  mret (u32_to_usize real_length + len).

(** [bencode_ref]: decode again, [unwrap]. *)
Definition bencode_ref (self : ExtendedMessage) : res io_error BencodeRef :=
  match BencodeRef_decode (m_raw_bencode self) BDecodeOpt_default with
  | Ok v => Ok v
  | Err _ => Panic UnwrapNone
  | Panic f => Panic f
  end.

(** * [BitsExtensionMessage] (bits_ext/mod.rs) *)

Inductive BitsExtensionMessage := Port (msg : PortMessage) | Extended (msg : ExtendedMessage).

Section BitsExtension.
Context `{Nom}.

(** Both alternatives hand back the whole input. *)
Definition port_fn : parser (res io_error BitsExtensionMessage) := λ input,
  '(_, (message_len, message_id)) ← nom_pair nom_be_u32 nom_u8 input;
  if bool_decide ((message_len, message_id) = (PORT_MESSAGE_LEN, PORT_MESSAGE_ID)) then
    if length input <? HEADER_LEN then Panic IndexOutOfBounds else
    '(_, res_port) ← PortMessage_parse_bytes (drop HEADER_LEN input);
    Ok (input, Ok (Port res_port))
  else Err NomError.

Definition ext_fn : parser (res io_error BitsExtensionMessage) := λ input,
  '(_, (message_len, (extended_message_id, extended_message_handshake_id))) ←
    (nom_pair nom_be_u32 (nom_pair nom_u8 nom_u8) input : res NomErr _);
  if bool_decide ((message_len, extended_message_id, extended_message_handshake_id)
                  = (message_len, EXTENDED_MESSAGE_ID, EXTENDED_MESSAGE_HANDSHAKE_ID)) then
    if length input <? HEADER_LEN + 1 then Panic IndexOutOfBounds else
    if (message_len <? 2)%Z then Panic ArithOverflow else
    '(_, res_extended) ← ExtendedMessage_parse_bytes (drop (HEADER_LEN + 1) input) (message_len - 2);
    Ok (input, Extended <$> (res_extended : res io_error _))
  else Err NomError.

Definition BitsExtensionMessage_parse_bytes : parser (res io_error BitsExtensionMessage) := nom_alt [port_fn; ext_fn].
End BitsExtension.

Definition BitsExtensionMessage_write_bytes {W} `{Write W, ByteOrder} (self : BitsExtensionMessage) : wr W nat :=
  match self with Port msg => PortMessage_write_bytes msg | Extended msg => ExtendedMessage_write_bytes msg end.

Definition BitsExtensionMessage_message_size (self : BitsExtensionMessage) : nat :=
  match self with
  | Port _ => Z.to_nat PORT_MESSAGE_LEN
  | Extended msg => Z.to_nat BASE_EXTENDED_MESSAGE_LEN + bencode_size msg
  end.

(** * [UtMetadataMessage] (prot_ext/ut_metadata.rs) *)

Definition REQUEST_MESSAGE_TYPE_ID : Z := 0.
Definition DATA_MESSAGE_TYPE_ID : Z := 1.
Definition REJECT_MESSAGE_TYPE_ID : Z := 2.
Definition UT_ROOT_ERROR_KEY : bytes := bstr "PeerExtensionProtocolMessage".

Inductive UtMetadataMessageError := UnknownMessageType (t : Z).

Record UtMetadataRequestMessage := { utq_piece : Z; utq_bencode_size : nat }.
Record UtMetadataDataMessage := { utd_piece : Z; utd_total_size : Z; utd_data : bytes; utd_bencode_size : nat }.
Record UtMetadataRejectMessage := { utr_piece : Z; utr_bencode_size : nat }.

Inductive UtMetadataMessage :=
  | UtRequest (request : UtMetadataRequestMessage)
  | UtData (data : UtMetadataDataMessage)
  | UtReject (reject : UtMetadataRejectMessage).

(** The [ben_map!] of a request or a reject, and of a data message. *)
Definition ut_map (msg_type piece : Z) : BencodeMut :=
  ben_map [(MESSAGE_TYPE_KEY, new_int msg_type); (PIECE_INDEX_KEY, new_int piece)].
Definition ut_data_map (piece total_size : Z) : BencodeMut :=
  ben_map [(MESSAGE_TYPE_KEY, new_int DATA_MESSAGE_TYPE_ID); (PIECE_INDEX_KEY, new_int piece);
           (TOTAL_SIZE_KEY, new_int total_size)].

Definition UtMetadataRequestMessage_new (piece : Z) : UtMetadataRequestMessage :=
  {| utq_piece := piece; utq_bencode_size := length (BencodeMut_encode (ut_map REQUEST_MESSAGE_TYPE_ID piece)) |}.
Definition UtMetadataRequestMessage_with_bytes (piece : Z) (l : bytes) : UtMetadataRequestMessage :=
  {| utq_piece := piece; utq_bencode_size := length l |}.
Definition UtMetadataDataMessage_new (piece total_size : Z) (data : bytes) : UtMetadataDataMessage :=
  {| utd_piece := piece; utd_total_size := total_size; utd_data := data;
     utd_bencode_size := length (BencodeMut_encode (ut_data_map piece total_size)) |}.
Definition UtMetadataDataMessage_with_bytes (piece total_size : Z) (data l : bytes) : UtMetadataDataMessage :=
  {| utd_piece := piece; utd_total_size := total_size; utd_data := data; utd_bencode_size := length l |}.
Definition UtMetadataRejectMessage_new (piece : Z) : UtMetadataRejectMessage :=
  {| utr_piece := piece; utr_bencode_size := length (BencodeMut_encode (ut_map REJECT_MESSAGE_TYPE_ID piece)) |}.
Definition UtMetadataRejectMessage_with_bytes (piece : Z) (l : bytes) : UtMetadataRejectMessage :=
  {| utr_piece := piece; utr_bencode_size := length l |}.

Definition UtMetadataMessage_parse_bytes (l : bytes) : res io_error (UtMetadataMessageError + UtMetadataMessage) :=
  let decode_opts := {| max_recursion := 2; check_key_sort := false; enforce_full_decode := false |} in
  match BencodeRef_decode l decode_opts with
  | Ok bencode =>
      bencode_dict ← convert_dict io_convert_error bencode UT_ROOT_ERROR_KEY;
      msg_type ← parse_message_type bencode_dict;
      piece ← parse_piece_index bencode_dict;
      let bencode_bytes := take (length (buffer bencode)) l in
      let extra_bytes := drop (length (buffer bencode)) l in
      if (msg_type =? REQUEST_MESSAGE_TYPE_ID)%Z then
        Ok (inr (UtRequest (UtMetadataRequestMessage_with_bytes piece bencode_bytes)))
      else if (msg_type =? REJECT_MESSAGE_TYPE_ID)%Z then
        Ok (inr (UtReject (UtMetadataRejectMessage_with_bytes piece bencode_bytes)))
      else if (msg_type =? DATA_MESSAGE_TYPE_ID)%Z then
        total_size ← parse_total_size bencode_dict;
        Ok (inr (UtData (UtMetadataDataMessage_with_bytes piece total_size extra_bytes bencode_bytes)))
      else Ok (inl (UnknownMessageType msg_type))
  | Err _ => Err IoOther
  | Panic f => Panic f
  end.

Definition UtMetadataMessage_write_bytes {W} `{Write W} (self : UtMetadataMessage) : wr W () :=
  match self with
  | UtRequest request => write_all (BencodeMut_encode (ut_map REQUEST_MESSAGE_TYPE_ID (utq_piece request)))
  | UtData data =>
      write_all (BencodeMut_encode (ut_data_map (utd_piece data) (utd_total_size data))) ;;
      write_all (utd_data data)
  | UtReject reject => write_all (BencodeMut_encode (ut_map REJECT_MESSAGE_TYPE_ID (utr_piece reject)))
  end.

Definition UtMetadataMessage_message_size (self : UtMetadataMessage) : nat :=
  match self with
  | UtRequest request => utq_bencode_size request
  | UtData data => utd_bencode_size data + length (utd_data data)
  | UtReject reject => utr_bencode_size reject
  end.
