(* ===== verification/PeerExtendedProps.v ===== *)
(** The extended handshake and the metadata messages of packages/peer: what a
    builder encodes is parsed back, and out-of-range identifiers in received
    dictionaries panic. *)

From stdpp Require Import base numbers strings gmap list.
From S2P Require Import Prelude RustStd Extern Bencode BencodeTheorems BencodeErase Convert Io PeerStandard PeerExtended.

(** * Decoded dictionaries read like built ones *)

Section Erased.
Implicit Types d : list (bytes * BencodeRef).

Lemma id_entries_erase d m : parse_id_entries d m = parse_id_entries (erase_pair <$> d) m.
Proof.
  revert m. induction d as [|[k v] d IH]; intros m; [done|]. csimpl.
  assert (Hv : convert_int io_convert_error v k = convert_int io_convert_error (erase v) k) by (by destruct v).
  rewrite Hv. destruct (str_from_utf8 k) as [i|]; [|apply IH].
  destruct (res_ok _) as [n|]; [|apply IH]. case_decide; [apply IH|done].
Qed.

Lemma id_map_erase d : parse_id_map d = parse_id_map (erase_pair <$> d).
Proof.
  unfold parse_id_map, lookup_and_convert_dict, lookup, dict_lookup. rewrite bt_lookup_erase.
  destruct (bt_lookup ID_MAP_KEY d) as [[| | |e u]|]; simpl; [done|done|done| |done].
  unfold dict_to_list. rewrite id_entries_erase. f_equal. apply list_fmap_ext. by intros ? [k v] ?.
Qed.

Lemma of_bencode_erase raw d u :
  ExtendedMessage_of_bencode raw (RDict d u) =
    (let ben_dict := erase_pair <$> d in
     id_map ← parse_id_map ben_dict;
     Ok {| m_id_map := id_map; m_our_id := parse_client_id ben_dict; m_our_tcp_port := parse_client_tcp_port ben_dict;
           m_their_ip := parse_our_ip ben_dict; m_our_ipv6_addr := parse_client_ipv6_addr ben_dict;
           m_our_ipv4_addr := parse_client_ipv4_addr ben_dict; m_our_max_requests := parse_client_max_requests ben_dict;
           m_metadata_size := parse_metadata_size ben_dict; m_raw_bencode := raw |}).
Proof.
  unfold ExtendedMessage_of_bencode. cbn [convert_dict ben_dict BencodeRef_access ok_or mbind res_bind].
  rewrite id_map_erase. unfold parse_client_id, parse_client_tcp_port, parse_our_ip, parse_client_ipv6_addr,
    parse_client_ipv4_addr, parse_client_max_requests, parse_metadata_size.
  by rewrite !lookup_str_erase, !lookup_int_erase, !lookup_bytes_erase.
Qed.
End Erased.

(** * Building a dictionary *)

Definition good_entry (kv : bytes * BencodeMut) : Prop :=
  is_i64 (Z.of_nat (length kv.1)) ∧ wf_value kv.2 ∧ height kv.2 ≤ 49.

(** The invariant of the dictionary under construction. *)
Definition good_dict (d : list (bytes * BencodeMut)) : Prop := bt_sorted d ∧ Forall good_entry d.

Lemma good_nil : good_dict [].
Proof. split; constructor. Qed.

Lemma good_put d k v : good_dict d → good_entry (k, v) → good_dict (dict_put d k v).
Proof.
  intros [Hs Hf] Hv. split; [by apply bt_insert_sorted|]. simpl. by apply bt_insert_Forall.
Qed.

Lemma good_put_opt {A} d k (f : A → BencodeMut) o :
  good_dict d → (∀ x, o = Some x → good_entry (k, f x)) → good_dict (dict_put_opt d k f o).
Proof. intros Hd Hf. destruct o as [x|]; simpl; [by apply good_put; auto|done]. Qed.

Lemma lookup_put d k v k2 : good_dict d →
  bt_lookup k2 (dict_put d k v) = if decide (k2 = k) then Some v else bt_lookup k2 d.
Proof. intros [Hs _]. by apply bt_lookup_insert. Qed.

Lemma lookup_put_opt {A} d k (f : A → BencodeMut) o k2 : good_dict d →
  bt_lookup k2 (dict_put_opt d k f o) =
    if decide (k2 = k) then match o with Some x => Some (f x) | None => bt_lookup k2 d end else bt_lookup k2 d.
Proof. intros Hd. destruct o; simpl; [by apply lookup_put|by case_decide]. Qed.

Lemma good_puts d kvs : good_dict d → Forall good_entry kvs →
  good_dict (foldl (λ d '(key, value), dict_put d key value) d kvs).
Proof.
  intros Hd Hk. revert d Hd. induction Hk as [|[k v] kvs ? _ IH]; intros d Hd; [done|].
  simpl. apply IH. by apply good_put.
Qed.

Lemma lookup_puts d kvs k : good_dict d → Forall good_entry kvs → k ∉ kvs.*1 →
  bt_lookup k (foldl (λ d '(key, value), dict_put d key value) d kvs) = bt_lookup k d.
Proof.
  intros Hd Hk. revert d Hd. induction Hk as [|[k' v] kvs ? _ IH]; intros d Hd Hn; [done|].
  csimpl in Hn. apply not_elem_of_cons in Hn as [Hne Hn]. simpl.
  rewrite IH by (done || by apply good_put). rewrite lookup_put by done. by rewrite decide_False.
Qed.

(** Optional fields, one after the other. *)
Definition put_field (d : list (bytes * BencodeMut)) (f : bytes * option BencodeMut) : list (bytes * BencodeMut) :=
  dict_put_opt d f.1 id f.2.
Definition good_field (f : bytes * option BencodeMut) : Prop := ∀ v, f.2 = Some v → good_entry (f.1, v).

Lemma good_fields fs d : good_dict d → Forall good_field fs → good_dict (foldl put_field d fs).
Proof.
  intros Hd Hf. revert d Hd. induction Hf as [|[k o] fs Hk _ IH]; intros d Hd; [done|].
  simpl. apply IH. apply good_put_opt; [done|]. exact Hk.
Qed.

Lemma lookup_other_fields fs d k : good_dict d → Forall good_field fs → k ∉ fs.*1 →
  bt_lookup k (foldl put_field d fs) = bt_lookup k d.
Proof.
  intros Hd Hf. revert d Hd. induction Hf as [|[k' o] fs Hk _ IH]; intros d Hd Hn; [done|].
  csimpl in Hn. apply not_elem_of_cons in Hn as [Hne Hn]. simpl.
  rewrite IH by (done || (apply good_put_opt; [done|exact Hk])).
  unfold put_field. rewrite lookup_put_opt by done. by rewrite decide_False.
Qed.

Lemma lookup_field fs d k o : good_dict d → Forall good_field fs → NoDup fs.*1 → (k, o) ∈ fs →
  bt_lookup k d = None → bt_lookup k (foldl put_field d fs) = o.
Proof.
  intros Hd Hf. revert d Hd. induction Hf as [|[k' o'] fs Hk Hf IH]; intros d Hd Hn Hin Hl; [by apply not_elem_of_nil in Hin|].
  csimpl in Hn. apply NoDup_cons in Hn as [Hn1 Hn2]. simpl.
  assert (Hg : good_dict (put_field d (k', o'))) by (apply good_put_opt; [done|exact Hk]).
  assert (Hp : ∀ k2, bt_lookup k2 (put_field d (k', o')) =
    if decide (k2 = k') then match o' with Some x => Some x | None => bt_lookup k2 d end else bt_lookup k2 d).
  { intros k2. by apply lookup_put_opt. }
  apply elem_of_cons in Hin as [[= -> ->]|Hin].
  - rewrite lookup_other_fields by done. rewrite Hp, decide_True by done. by destruct o'.
  - apply IH; [done|done|done|]. rewrite Hp. destruct (decide (k = k')) as [->|]; [|done].
    destruct Hn1. by apply (list_elem_of_fmap_2 fst) in Hin.
Qed.

Lemma puts_perm d kvs : NoDup (kvs.*1 ++ d.*1) →
  foldl (λ d '(key, value), dict_put d key value) d kvs ≡ₚ kvs ++ d.
Proof.
  revert d. induction kvs as [|[k v] kvs IH]; intros d Hn; [done|]. csimpl in Hn. csimpl.
  apply NoDup_cons in Hn as [Hk Hn]. apply not_elem_of_app in Hk as [Hk1 Hk2].
  assert (Hp : dict_put d k v ≡ₚ (k, v) :: d) by (by apply bt_insert_perm).
  rewrite IH.
  - rewrite Hp. symmetry. apply Permutation_middle.
  - rewrite Hp. csimpl. rewrite <- Permutation_middle. constructor; [|done].
    by apply not_elem_of_app.
Qed.

Lemma good_wf d : good_dict d → wf_value (MDict d) ∧ height (MDict d) ≤ 50.
Proof.
  intros [Hs Hf]. split.
  - apply wf_dict_Forall. split; [done|]. eapply Forall_impl; [exact Hf|]. by intros kv (? & ? & _).
  - simpl. apply le_n_S. clear Hs. induction Hf as [|[k v] d (_ & _ & Hh) _ IH]; csimpl; [lia|].
    apply Nat.max_lub; [exact Hh|exact IH].
Qed.

(** * The identifier map *)

(** An extension's identifier names it alone. *)
Definition own_id (t : ExtendedType) : Prop :=
  ExtendedType_from_id (ExtendedType_id t) = t ∧ utf8_valid (ExtendedType_id t) = true ∧
  is_i64 (Z.of_nat (length (ExtendedType_id t))).

Definition id_entry (kv : ExtendedType * Z) : bytes * BencodeMut := (ExtendedType_id kv.1, new_int kv.2).

Lemma u8_i64 n : is_u8 n → is_i64 n.
Proof. unfold is_u8, is_i64, i64_min, i64_max. lia. Qed.

Lemma u16_i64 n : is_u16 n → is_i64 n.
Proof. unfold is_u16, is_i64, i64_min, i64_max. lia. Qed.

Lemma good_int k n : is_i64 (Z.of_nat (length k)) → is_i64 n → good_entry (k, new_int n).
Proof. intros Hk Hn. split; [done|]. split; [done|]. simpl. lia. Qed.

Lemma good_bytes k l : is_i64 (Z.of_nat (length k)) → is_i64 (Z.of_nat (length l)) → good_entry (k, new_bytes l).
Proof. intros Hk Hn. split; [done|]. split; [done|]. simpl. lia. Qed.

Lemma parse_id_entries_of kvs m :
  Forall (λ kv : ExtendedType * Z, own_id kv.1 ∧ is_u8 kv.2) kvs →
  parse_id_entries (id_entry <$> kvs) m = Ok (foldl (λ m kv, <[kv.1 := kv.2]> m) m kvs).
Proof.
  intros Hf. revert m. induction Hf as [|[t n] kvs [(Ht & Hu & _) Hn] _ IH]; intros m; [done|]. csimpl.
  simpl in Hu, Hn, Ht. unfold str_from_utf8. rewrite Hu. simpl. rewrite decide_True by done. by rewrite Ht, IH.
Qed.

Lemma foldl_insert_list {K V} `{Countable K} (kvs : list (K * V)) :
  foldl (λ (m : gmap K V) kv, <[kv.1 := kv.2]> m) ∅ kvs = list_to_map (reverse kvs).
Proof.
  unfold list_to_map, reverse. rewrite <- rev_alt, fold_left_rev_right.
  generalize (∅ : gmap K V). induction kvs as [|kv kvs IH]; intros m; [done|]. apply IH.
Qed.

Section IdMap.
Context `{HashOrder}.

Lemma ben_id_map_puts m :
  ben_id_map m = foldl (λ d '(key, value), dict_put d key value) [] (id_entry <$> hash_iter m).
Proof.
  unfold ben_id_map. generalize (@nil (bytes * BencodeMut)). induction (hash_iter m) as [|[t n] l IH]; intros d; [done|].
  csimpl. apply IH.
Qed.

Lemma iter_Forall {K V} `{Countable K} (P : K → V → Prop) (m : gmap K V) :
  map_Forall P m → Forall (λ kv, P kv.1 kv.2) (hash_iter m).
Proof.
  intros Hm. rewrite hash_iter_perm. apply map_Forall_to_list in Hm.
  eapply Forall_impl; [exact Hm|]. by intros [k v].
Qed.

Definition wf_ids (m : gmap ExtendedType Z) : Prop := map_Forall (λ t n, own_id t ∧ is_u8 n) m.

Lemma id_keys_nodup m : wf_ids m → NoDup ((id_entry <$> hash_iter m).*1).
Proof.
  intros Hw. apply iter_Forall in Hw. rewrite <- list_fmap_compose.
  assert (Hn : NoDup (ExtendedType_from_id <$> (fst ∘ id_entry <$> hash_iter m))); [|by apply NoDup_fmap_1 in Hn].
  rewrite <- list_fmap_compose. erewrite (list_fmap_ext _ fst).
  - rewrite hash_iter_perm. apply NoDup_fst_map_to_list.
  - intros i [t n] Hi. simpl. rewrite Forall_forall in Hw.
    by destruct (Hw (t, n)) as [(Ht & _) _]; [by eapply list_elem_of_lookup_2|].
Qed.

Lemma good_id_map m : wf_ids m → good_dict (ben_id_map m).
Proof.
  intros Hw. rewrite ben_id_map_puts. apply good_puts; [apply good_nil|].
  apply Forall_fmap. eapply Forall_impl; [by apply iter_Forall|].
  intros [t n] [(_ & _ & Hl) Hn]. apply good_int; [done|by apply u8_i64].
Qed.

Lemma id_map_height m : wf_ids m → height (MDict (ben_id_map m)) ≤ 2.
Proof.
  intros Hw. assert (Hf : Forall (λ kv : bytes * BencodeMut, height kv.2 ≤ 1) (ben_id_map m)).
  { rewrite ben_id_map_puts. rewrite (puts_perm [] _) by (rewrite app_nil_r; by apply id_keys_nodup).
    rewrite app_nil_r. apply Forall_fmap, Forall_forall. intros [t n] _. simpl. lia. }
  simpl. apply le_n_S. induction Hf as [|[k v] d Hh _ IH]; csimpl; [lia|].
  apply Nat.max_lub; [exact Hh|exact IH].
Qed.

(** Reading back the dictionary of identifiers. *)
Lemma parse_ben_id_map m : wf_ids m → parse_id_entries (ben_id_map m) ∅ = Ok m.
Proof.
  intros Hw. assert (Hp : ben_id_map m ≡ₚ id_entry <$> hash_iter m).
  { rewrite ben_id_map_puts, (puts_perm [] _) by (rewrite app_nil_r; by apply id_keys_nodup).
    by rewrite app_nil_r. }
  apply Permutation_map_inv in Hp as (kvs & -> & Hk).
  change (map id_entry kvs) with (id_entry <$> kvs). rewrite parse_id_entries_of.
  - rewrite foldl_insert_list. f_equal. symmetry. apply list_to_map_flip.
    by rewrite reverse_Permutation, <- Hk, hash_iter_perm.
  - rewrite <- Hk. by apply (iter_Forall (λ t n, own_id t ∧ is_u8 n)).
Qed.
End IdMap.

(** * Builders *)

Definition reserved_keys : list bytes :=
  [ID_MAP_KEY; CLIENT_ID_KEY; CLIENT_TCP_PORT_KEY; OUR_IP_KEY; CLIENT_IPV6_ADDR_KEY; CLIENT_IPV4_ADDR_KEY;
   CLIENT_MAX_REQUESTS_KEY; METADATA_SIZE_KEY].

Definition wf_ip (a : IpAddr) : Prop := match a with IpV4 a => wf_ipv4 a | IpV6 a => wf_ipv6 a end.

Definition for_some {A} (P : A → Prop) (o : option A) : Prop := ∀ x, o = Some x → P x.

(** The ranges of the field types; beyond them: distinct identifiers for the
    extensions, custom entries under keys of their own and not nested too deep
    for the decoder. *)
Record wf_builder (b : ExtendedMessageBuilder) : Prop := {
  wfb_ids : wf_ids (b_id_map b);
  wfb_our_id : for_some (λ l, utf8_valid l = true ∧ is_i64 (Z.of_nat (length l))) (b_our_id b);
  wfb_port : for_some is_u16 (b_our_tcp_port b);
  wfb_ip : for_some wf_ip (b_their_ip b);
  wfb_ipv6 : for_some wf_ipv6 (b_our_ipv6_addr b);
  wfb_ipv4 : for_some wf_ipv4 (b_our_ipv4_addr b);
  wfb_max : for_some is_i64 (b_our_max_requests b);
  wfb_size : for_some is_i64 (b_metadata_size b);
  wfb_custom : map_Forall (λ k v, (k ∉ reserved_keys) ∧ good_entry (k, v)) (b_custom_entries b)
}.

Lemma is_i64_nat n : n ≤ 1000 → is_i64 (Z.of_nat n).
Proof. unfold is_i64, i64_min, i64_max. lia. Qed.

Lemma ipv4_bytes_len a : length (ipv4_to_bytes_be a) = 4.
Proof. by destruct a. Qed.
Lemma ipv6_bytes_len a : length (ipv6_to_bytes_be a) = 16.
Proof. done. Qed.

Lemma ip_bytes_len a : length (ip_bytes a) ≤ 16.
Proof. destruct a; unfold ip_bytes; [rewrite ipv4_bytes_len|rewrite ipv6_bytes_len]; lia. Qed.

Lemma parse_ipv4_bytes a : parse_ipv4_addr (ipv4_to_bytes_be a) = a.
Proof. by destruct a. Qed.

Lemma parse_ipv6_bytes a : wf_ipv6 a → parse_ipv6_addr (ipv6_to_bytes_be a) = a.
Proof. intros Ha. by rewrite <- (ipv6_roundtrip a Ha) at 2. Qed.

Section Builders.
Context `{HashOrder}.

(** The dictionary before the optional fields. *)
Definition base_dict (b : ExtendedMessageBuilder) : list (bytes * BencodeMut) :=
  foldl (λ d '(key, value), dict_put d key value) (dict_put [] ID_MAP_KEY (MDict (ben_id_map (b_id_map b))))
    (hash_iter (b_custom_entries b)).

Lemma custom_good b : wf_builder b → Forall good_entry (hash_iter (b_custom_entries b)).
Proof.
  intros Hw. eapply Forall_impl; [apply iter_Forall, (wfb_custom b Hw)|]. by intros [k v] [_ ?].
Qed.

Lemma id_dict_good b : wf_builder b → good_dict (dict_put [] ID_MAP_KEY (MDict (ben_id_map (b_id_map b)))).
Proof.
  intros Hw. apply good_put; [apply good_nil|]. split; [by apply is_i64_nat; simpl; lia|]. split.
  - by apply good_wf, good_id_map, wfb_ids.
  - simpl snd. etrans; [by apply id_map_height, wfb_ids|lia].
Qed.

Lemma base_good b : wf_builder b → good_dict (base_dict b).
Proof. intros Hw. apply good_puts; [by apply id_dict_good|by apply custom_good]. Qed.

Lemma base_lookup b k : wf_builder b → k ∈ reserved_keys →
  bt_lookup k (base_dict b) = if decide (k = ID_MAP_KEY) then Some (MDict (ben_id_map (b_id_map b))) else None.
Proof.
  intros Hw Hk. unfold base_dict. rewrite lookup_puts.
  - by rewrite lookup_put by apply good_nil.
  - by apply id_dict_good.
  - by apply custom_good.
  - intros Hi. apply list_elem_of_fmap in Hi as ([k' v] & -> & Hi). simpl in Hk.
    rewrite hash_iter_perm, elem_of_map_to_list in Hi. by destruct (wfb_custom b Hw _ _ Hi) as [? _].
Qed.

(** The optional fields in the order they are inserted. *)
Definition fields (b : ExtendedMessageBuilder) : list (bytes * option BencodeMut) :=
  [(CLIENT_ID_KEY, new_bytes <$> b_our_id b); (CLIENT_TCP_PORT_KEY, new_int <$> b_our_tcp_port b);
   (OUR_IP_KEY, new_bytes ∘ ip_bytes <$> b_their_ip b);
   (CLIENT_IPV6_ADDR_KEY, new_bytes ∘ ipv6_to_bytes_be <$> b_our_ipv6_addr b);
   (CLIENT_IPV4_ADDR_KEY, new_bytes ∘ ipv4_to_bytes_be <$> b_our_ipv4_addr b);
   (CLIENT_MAX_REQUESTS_KEY, new_int <$> b_our_max_requests b); (METADATA_SIZE_KEY, new_int <$> b_metadata_size b)].

Lemma put_opt_field {A} d k (f : A → BencodeMut) o : dict_put_opt d k f o = put_field d (k, f <$> o).
Proof. by destruct o. Qed.

Lemma root_fields b : root_dict b (b_custom_entries b) = foldl put_field (base_dict b) (fields b).
Proof. unfold root_dict. fold (base_dict b). by rewrite !put_opt_field. Qed.

Lemma fields_good b : wf_builder b → Forall good_field (fields b).
Proof.
  intros Hw. pose proof Hw as []. unfold for_some in *.
  unfold fields. rewrite !Forall_cons, Forall_nil. unfold good_field. simpl fst. simpl snd.
  split_and!; try done; intros v (x & E & ->)%fmap_Some.
  - destruct (wfb_our_id0 _ E). apply good_bytes; [apply is_i64_nat; simpl; lia|done].
  - apply good_int; [apply is_i64_nat; simpl; lia|eauto using u16_i64].
  - apply good_bytes; [apply is_i64_nat; simpl; lia|].
    eapply is_i64_nat, Nat.le_trans; [apply ip_bytes_len|lia].
  - apply good_bytes; apply is_i64_nat; [simpl; lia|]. rewrite ipv6_bytes_len. lia.
  - apply good_bytes; apply is_i64_nat; [simpl; lia|]. rewrite ipv4_bytes_len. lia.
  - apply good_int; [apply is_i64_nat; simpl; lia|eauto].
  - apply good_int; [apply is_i64_nat; simpl; lia|eauto].
Qed.

Lemma fields_nodup b : NoDup (fields b).*1.
Proof. apply (bool_decide_unpack _). vm_compute. exact I. Qed.

Lemma root_good b : wf_builder b → good_dict (root_dict b (b_custom_entries b)).
Proof. intros Hw. rewrite root_fields. apply good_fields; [by apply base_good|by apply fields_good]. Qed.

Lemma root_field b k o : wf_builder b → (k, o) ∈ fields b → k ∈ reserved_keys → k ≠ ID_MAP_KEY →
  bt_lookup k (root_dict b (b_custom_entries b)) = o.
Proof.
  intros Hw Hin Hk Hne. rewrite root_fields. apply lookup_field;
    [by apply base_good|by apply fields_good|apply fields_nodup|done|].
  rewrite base_lookup by done. by rewrite decide_False.
Qed.

Lemma root_id_map b : wf_builder b →
  bt_lookup ID_MAP_KEY (root_dict b (b_custom_entries b)) = Some (MDict (ben_id_map (b_id_map b))).
Proof.
  intros Hw. rewrite root_fields, lookup_other_fields; [|by apply base_good|by apply fields_good|].
  - rewrite base_lookup by (done || apply list_elem_of_here). done.
  - apply (bool_decide_unpack _). vm_compute. exact I.
Qed.
End Builders.

(** * Reading the fields back *)

Section ReadBack.
Implicit Types d : list (bytes * BencodeMut).

Lemma lookup_int_of d k o :
  bt_lookup k d = new_int <$> o → res_ok (lookup_and_convert_int io_convert_error d k) = o.
Proof. intros Hl. unfold lookup_and_convert_int, lookup, dict_lookup. rewrite Hl. by destruct o. Qed.

Lemma lookup_bytes_of {A} (f : A → bytes) d k o :
  bt_lookup k d = new_bytes ∘ f <$> o → res_ok (lookup_and_convert_bytes io_convert_error d k) = f <$> o.
Proof. intros Hl. unfold lookup_and_convert_bytes, lookup, dict_lookup. rewrite Hl. by destruct o. Qed.

Lemma lookup_str_of d k o :
  bt_lookup k d = new_bytes <$> o → for_some (λ l, utf8_valid l = true) o →
  res_ok (lookup_and_convert_str io_convert_error d k) = o.
Proof.
  intros Hl Hu. unfold lookup_and_convert_str, lookup, dict_lookup. rewrite Hl. destruct o as [l|]; [|done].
  simpl. unfold convert_str, str_from_utf8. simpl. unfold str_from_utf8. by rewrite (Hu l eq_refl).
Qed.

Lemma port_field d o : bt_lookup CLIENT_TCP_PORT_KEY d = new_int <$> o → for_some is_u16 o → parse_client_tcp_port d = o.
Proof.
  intros Hl Hp. unfold parse_client_tcp_port. rewrite (lookup_int_of _ _ _ Hl).
  destruct o as [p|]; [|done]. simpl. by rewrite decide_True by auto.
Qed.

Lemma our_ip_field d o :
  bt_lookup OUR_IP_KEY d = new_bytes ∘ ip_bytes <$> o → for_some wf_ip o → parse_our_ip d = o.
Proof.
  intros Hl Hp. unfold parse_our_ip. rewrite (lookup_bytes_of _ _ _ _ Hl). destruct o as [[a|a]|]; [| |done];
    specialize (Hp _ eq_refl); cbn [fmap option_fmap option_map mbind option_bind ip_bytes].
  - rewrite ipv4_bytes_len. simpl Nat.eqb. cbn iota. by rewrite parse_ipv4_bytes.
  - rewrite ipv6_bytes_len. simpl Nat.eqb. cbn iota. by rewrite parse_ipv6_bytes.
Qed.

Lemma ipv6_field d o :
  bt_lookup CLIENT_IPV6_ADDR_KEY d = new_bytes ∘ ipv6_to_bytes_be <$> o → for_some wf_ipv6 o →
  parse_client_ipv6_addr d = o.
Proof.
  intros Hl Hp. unfold parse_client_ipv6_addr. rewrite (lookup_bytes_of _ _ _ _ Hl). destruct o as [a|]; [|done].
  cbn [fmap option_fmap option_map mbind option_bind]. rewrite ipv6_bytes_len. simpl Nat.eqb. cbn iota.
  by rewrite parse_ipv6_bytes by auto.
Qed.

Lemma ipv4_field d o :
  bt_lookup CLIENT_IPV4_ADDR_KEY d = new_bytes ∘ ipv4_to_bytes_be <$> o → parse_client_ipv4_addr d = o.
Proof.
  intros Hl. unfold parse_client_ipv4_addr. rewrite (lookup_bytes_of _ _ _ _ Hl). destruct o as [a|]; [|done].
  cbn [fmap option_fmap option_map mbind option_bind]. rewrite ipv4_bytes_len. simpl Nat.eqb. cbn iota.
  by rewrite parse_ipv4_bytes.
Qed.

Context `{HashOrder}.

Lemma of_root b (d : list (bytes * BencodeRef)) u : wf_builder b → erase_pair <$> d = root_dict b (b_custom_entries b) →
  ExtendedMessage_of_bencode (m_raw_bencode (build b)) (RDict d u) = Ok (build b).
Proof.
  intros Hw Hd. rewrite of_bencode_erase, Hd. cbv zeta.
  assert (Hf : ∀ k o, (k, o) ∈ fields b → k ∈ reserved_keys → k ≠ ID_MAP_KEY →
    bt_lookup k (root_dict b (b_custom_entries b)) = o) by (intros; by apply root_field).
  pose proof (root_id_map b Hw) as Hm. set (root := root_dict b (b_custom_entries b)) in *.
  unfold parse_id_map, lookup_and_convert_dict, lookup, dict_lookup. rewrite Hm. simpl res_ok.
  unfold dict_to_list. cbn iota. rewrite parse_ben_id_map by apply Hw. cbn [mbind res_bind].
  unfold parse_client_id, parse_client_max_requests, parse_metadata_size.
  assert (Hr : ∀ k, (k ∈ reserved_keys ∧ k ≠ ID_MAP_KEY) →
    ∀ o, (k, o) ∈ fields b → bt_lookup k root = o) by (intros ? [? ?] ? ?; by apply Hf).
  clear Hf. unfold reserved_keys, fields in Hr. set_unfold in Hr.
  rewrite (lookup_str_of _ _ (b_our_id b)), (port_field _ (b_our_tcp_port b)), (our_ip_field _ (b_their_ip b)),
    (ipv6_field _ (b_our_ipv6_addr b)), (ipv4_field _ (b_our_ipv4_addr b)), (lookup_int_of _ _ (b_our_max_requests b)),
    (lookup_int_of _ _ (b_metadata_size b)); first done.
  all: first [apply Hr; [split; [tauto|done]|tauto] | apply Hw | intros l Hl; by apply (wfb_our_id b Hw)].
Qed.
End ReadBack.

(** * Frames *)

(** The frame of an extended handshake with this bencode. *)
Definition extended_frame `{ByteOrder} (raw : bytes) : bytes :=
  u32_be_bytes (Z.of_nat (length raw) + 2) ++ [EXTENDED_MESSAGE_ID] ++ [EXTENDED_MESSAGE_HANDSHAKE_ID] ++ raw.

(** What parsing this bencode yields. *)
Definition extended_of_raw (raw : bytes) : res io_error ExtendedMessage :=
  bencode ← res_map_err (λ _, IoOther) (BencodeRef_decode raw BDecodeOpt_default);
  ExtendedMessage_of_bencode raw bencode.

Section Frames.
Context `{ByteOrder}.

Lemma extended_emits m : is_u32 (Z.of_nat (bencode_size m) + 2) →
  emits (ExtendedMessage_write_bytes m) (extended_frame (m_raw_bencode m)) (length (extended_frame (m_raw_bencode m)) + 1).
Proof.
  intros Hl. unfold ExtendedMessage_write_bytes. rewrite try_u32_Ok by done.
  eapply emits_eq.
  - eapply emits_bind; [apply emits_lift|]. eapply emits_bind; [|emit].
    apply header_emits. unfold is_u8, EXTENDED_MESSAGE_ID. lia.
  - unfold extended_frame. by rewrite app_nil_l, app_nil_r, <- app_assoc.
  - unfold extended_frame, u32_to_usize, bencode_size in *. rewrite !length_app, u32_be_length by done. simpl. lia.
Qed.

Context `{Nom}.

Lemma extended_frame_parse raw rest : is_u32 (Z.of_nat (length raw) + 2) →
  BitsExtensionMessage_parse_bytes (extended_frame raw ++ rest) =
    Ok (extended_frame raw ++ rest, Extended <$> extended_of_raw raw).
Proof.
  intros Hl. unfold BitsExtensionMessage_parse_bytes. rewrite nom_alt_more.
  set (input := extended_frame raw ++ rest).
  assert (Hin : input = u32_be_bytes (Z.of_nat (length raw) + 2) ++ 20%Z :: 0%Z :: raw ++ rest).
  { unfold input, extended_frame. rewrite <- app_assoc. done. }
  assert (Hd : drop 6 input = raw ++ rest).
  { rewrite Hin, u32_be_bytes_eq by done. done. }
  assert (Hlen : 6 ≤ length input) by (rewrite Hin, length_app, u32_be_length by done; simpl; lia).
  assert (Hport : port_fn input = Err NomError).
  { unfold port_fn. rewrite Hin, nom_pair_eq, be_u32_of_bytes by done. cbn [mbind res_bind].
    rewrite nom_u8_cons. cbn [mbind res_bind]. by rewrite bool_decide_eq_false_2. }
  rewrite Hport, nom_alt_one. unfold ext_fn. rewrite Hin at 1.
  rewrite nom_pair_eq, be_u32_of_bytes by done. cbn [mbind res_bind].
  rewrite nom_pair_eq, nom_u8_cons. cbn [mbind res_bind]. rewrite nom_u8_cons. cbn [mbind res_bind].
  rewrite bool_decide_eq_true_2 by done. change (HEADER_LEN + 1) with 6.
  destruct (Nat.ltb_spec (length input) 6); [lia|].
  destruct (Z.ltb_spec (Z.of_nat (length raw) + 2) 2); [lia|].
  rewrite Hd. unfold ExtendedMessage_parse_bytes, u32_to_usize.
  replace (Z.to_nat (Z.of_nat (length raw) + 2 - 2)) with (length raw) by lia.
  destruct (Nat.leb_spec (length raw) (length (raw ++ rest))) as [_|Hf]; [|rewrite length_app in Hf; lia].
  rewrite take_app_length. done.
Qed.
End Frames.

Lemma extended_of_build `{HashOrder} b : wf_builder b → extended_of_raw (m_raw_bencode (build b)) = Ok (build b).
Proof.
  intros Hw. destruct (good_wf _ (root_good b Hw)) as [Hwf Hh].
  destruct (decode_encode_prefix BDecodeOpt_default (MDict (root_dict b (b_custom_entries b))) [] Hwf Hh
    (or_intror eq_refl)) as (v & Hv & He & _).
  rewrite app_nil_r in Hv. apply erase_dict_inv in He as (d & u & -> & He).
  assert (Hraw : BencodeRef_decode (m_raw_bencode (build b)) BDecodeOpt_default = Ok (RDict d u)) by exact Hv.
  unfold extended_of_raw. rewrite Hraw. cbn [res_map_err mbind res_bind]. by apply of_root.
Qed.

(** * Metadata messages *)

Definition ut_opts : BDecodeOpt := {| max_recursion := 2; check_key_sort := false; enforce_full_decode := false |}.

Definition ut_dict (msg_type piece : Z) (extra : list (bytes * BencodeMut)) : BencodeMut :=
  MDict ([(MESSAGE_TYPE_KEY, MInt msg_type); (PIECE_INDEX_KEY, MInt piece)] ++ extra).

Lemma ut_map_eq t p : ut_map t p = ut_dict t p [].
Proof. reflexivity. Qed.

Lemma ut_data_map_eq p s : ut_data_map p s = ut_dict DATA_MESSAGE_TYPE_ID p [(TOTAL_SIZE_KEY, MInt s)].
Proof. reflexivity. Qed.

Definition total_entry (o : option Z) : list (bytes * BencodeMut) :=
  match o with Some s => [(TOTAL_SIZE_KEY, MInt s)] | None => [] end.

Lemma ut_dict_wf t p o : is_i64 t → is_i64 p → for_some is_i64 o → wf_value (ut_dict t p (total_entry o)).
Proof.
  intros Ht Hp Hs. apply wf_dict_Forall. destruct o as [s|]; simpl.
  - split; [repeat constructor|]. repeat (apply Forall_cons; split; [split; [by apply is_i64_nat; simpl; lia|simpl; auto]|]).
    constructor.
  - split; [repeat constructor|]. repeat (apply Forall_cons; split; [split; [by apply is_i64_nat; simpl; lia|simpl; auto]|]).
    constructor.
Qed.

(** Decoding a metadata dictionary in front of other bytes. *)
Lemma ut_decode t p o post : is_i64 t → is_i64 p → for_some is_i64 o →
  ∃ d u, BencodeRef_decode (BencodeMut_encode (ut_dict t p (total_entry o)) ++ post) ut_opts = Ok (RDict d u) ∧
    u = BencodeMut_encode (ut_dict t p (total_entry o)) ∧
    lookup_and_convert_int io_convert_error d MESSAGE_TYPE_KEY = Ok t ∧
    lookup_and_convert_int io_convert_error d PIECE_INDEX_KEY = Ok p ∧
    (∀ s, o = Some s → lookup_and_convert_int io_convert_error d TOTAL_SIZE_KEY = Ok s).
Proof.
  intros Ht Hp Hs. destruct (decode_encode_prefix ut_opts (ut_dict t p (total_entry o)) post) as (v & Hv & He & Hb).
  - by apply ut_dict_wf.
  - destruct o; simpl; lia.
  - by left.
  - apply erase_dict_inv in He as (d & u & -> & He). exists d, u. rewrite !lookup_int_erase, He.
    split_and!; [done|done|by destruct o|by destruct o|]. by intros s ->.
Qed.

Lemma ut_parse t p o post : is_u8 t → is_i64 p → for_some is_i64 o → (t = DATA_MESSAGE_TYPE_ID → is_Some o) →
  UtMetadataMessage_parse_bytes (BencodeMut_encode (ut_dict t p (total_entry o)) ++ post) =
    (let e := BencodeMut_encode (ut_dict t p (total_entry o)) in
     if (t =? REQUEST_MESSAGE_TYPE_ID)%Z then Ok (inr (UtRequest (UtMetadataRequestMessage_with_bytes p e)))
     else if (t =? REJECT_MESSAGE_TYPE_ID)%Z then Ok (inr (UtReject (UtMetadataRejectMessage_with_bytes p e)))
     else if (t =? DATA_MESSAGE_TYPE_ID)%Z then
       match o with
       | Some s => Ok (inr (UtData (UtMetadataDataMessage_with_bytes p s post e)))
       | None => Err IoOther
       end
     else Ok (inl (UnknownMessageType t))).
Proof.
  intros Ht Hp Ho Hne. destruct (ut_decode t p o post (u8_i64 _ Ht) Hp Ho) as (d & u & Hd & Hu & Hm & Hpi & Hs).
  unfold UtMetadataMessage_parse_bytes. fold ut_opts. rewrite Hd.
  cbn [convert_dict ben_dict BencodeRef_access ok_or mbind res_bind buffer].
  unfold parse_message_type, parse_piece_index. rewrite Hm, Hpi. cbn [mbind res_bind].
  rewrite decide_True by done. cbn [mbind res_bind]. rewrite Hu, take_app_length, drop_app_length. cbv zeta.
  destruct (t =? REQUEST_MESSAGE_TYPE_ID)%Z; [done|]. destruct (t =? REJECT_MESSAGE_TYPE_ID)%Z; [done|].
  destruct (Z.eqb_spec t DATA_MESSAGE_TYPE_ID); [|done].
  destruct (Hne ltac:(done)) as [s ->]. unfold parse_total_size. by rewrite (Hs s eq_refl).
Qed.

(** * Properties *)

Section Properties.
Context `{ByteOrder, Nom, HashOrder}.

(** Claim C28. Round trip of the extended handshake: the message a builder
    makes is written as one frame, and parsing that frame, whatever follows it,
    gives back the same message (identifiers, client fields, addresses, sizes
    and raw bencode), in every iteration order of the builder's hash maps. *)
Theorem extended_message_roundtrip (b : ExtendedMessageBuilder) rest :
  wf_builder b → is_u32 (Z.of_nat (bencode_size (build b)) + 2) →
  ∃ out n, emits (BitsExtensionMessage_write_bytes (Extended (build b))) out n ∧
    BitsExtensionMessage_parse_bytes (out ++ rest) = Ok (out ++ rest, Ok (Extended (build b))).
Proof.
  intros Hw Hl. do 2 eexists. split; [by apply extended_emits|].
  rewrite extended_frame_parse by done. by rewrite extended_of_build.
Qed.

(** A peer can make the parsers panic: an extension identifier
    outside a byte in an extended handshake, or a metadata message type outside
    a byte, ends in a failed [unwrap], not in an error. *)
Theorem out_of_range_ids_panic t n p :
  own_id t → is_i64 n → is_i64 p → ¬ is_u8 n →
  let raw := BencodeMut_encode (MDict [(ID_MAP_KEY, MDict [(ExtendedType_id t, MInt n)])]) in
  is_u32 (Z.of_nat (length raw) + 2) →
  BitsExtensionMessage_parse_bytes (extended_frame raw) = Ok (extended_frame raw, Panic UnwrapNone) ∧
  UtMetadataMessage_parse_bytes (BencodeMut_encode (ut_map n p)) = Panic UnwrapNone.
Proof.
  intros (Ht & Hu & Hlen) Hn Hp Hn8 raw Hl. split.
  - rewrite <- (app_nil_r (extended_frame raw)), extended_frame_parse by done. rewrite app_nil_r. do 2 f_equal.
    destruct (decode_encode_prefix BDecodeOpt_default (MDict [(ID_MAP_KEY, MDict [(ExtendedType_id t, MInt n)])]) [])
      as (v & Hv & He & _); [|simpl; lia|by right|].
    { simpl. unfold bt_sorted, is_i64, i64_min, i64_max in *. simpl. repeat split; try lia; repeat constructor. }
    apply erase_dict_inv in He as (d & u & -> & He). rewrite app_nil_r in Hv. fold raw in Hv.
    unfold extended_of_raw. rewrite Hv. cbn [res_map_err mbind res_bind].
    rewrite of_bencode_erase, He. cbv zeta. unfold parse_id_map. simpl. unfold str_from_utf8. rewrite Hu. simpl.
    by rewrite decide_False.
  - rewrite ut_map_eq. change (@nil (bytes * BencodeMut)) with (total_entry None).
    destruct (ut_decode n p None [] Hn Hp) as (d & u & Hd & _ & Hm & _); [done|]. rewrite app_nil_r in Hd.
    unfold UtMetadataMessage_parse_bytes. fold ut_opts. rewrite Hd.
    cbn [convert_dict ben_dict BencodeRef_access ok_or mbind res_bind].
    unfold parse_message_type. rewrite Hm. cbn [mbind res_bind]. by rewrite decide_False.
Qed.

(** Round trip of metadata messages: a request, a reject and a data
    message with any payload are written with as many bytes as
    [message_size] says and parsed back as they were, the payload being the
    bytes after the dictionary. *)
Theorem ut_metadata_roundtrip piece total data :
  is_i64 piece → is_i64 total →
  ∀ m, m ∈ [UtRequest (UtMetadataRequestMessage_new piece); UtReject (UtMetadataRejectMessage_new piece);
            UtData (UtMetadataDataMessage_new piece total data)] →
  ∃ out, emits (UtMetadataMessage_write_bytes m) out () ∧ length out = UtMetadataMessage_message_size m ∧
    UtMetadataMessage_parse_bytes out = Ok (inr m).
Proof.
  intros Hp Ht m Hm.
  assert (Hn : for_some is_i64 (@None Z)) by done.
  assert (Hs : for_some is_i64 (Some total)) by (by intros ? [= <-]).
  rewrite !elem_of_cons in Hm. destruct Hm as [->|[->|[->|Hm]]]; [| | |by apply not_elem_of_nil in Hm].
  - eexists. split; [apply emits_write_all|]. split; [done|].
    rewrite ut_map_eq, <- (app_nil_r (BencodeMut_encode _)). rewrite (ut_parse _ _ None); [done|unfold is_u8, REQUEST_MESSAGE_TYPE_ID; lia|done|done|done].
  - eexists. split; [apply emits_write_all|]. split; [done|].
    rewrite ut_map_eq, <- (app_nil_r (BencodeMut_encode _)). rewrite (ut_parse _ _ None); [done|unfold is_u8, REJECT_MESSAGE_TYPE_ID; lia|done|done|done].
  - eexists. split; [eapply emits_bind; apply emits_write_all|]. split; [by rewrite length_app|].
    simpl utd_piece. simpl utd_total_size. simpl utd_data. rewrite ut_data_map_eq.
    rewrite (ut_parse _ _ (Some total)); [done|unfold is_u8, DATA_MESSAGE_TYPE_ID; lia|done|done|done].
Qed.
End Properties.

Definition sample_builder : ExtendedMessageBuilder :=
  with_our_tcp_port (with_their_ip (with_extended_type ExtendedMessageBuilder_new ExtUtMetadata (Some 3%Z))
    (Some (IpV4 (Ipv4 10 0 0 1)))) (Some 6881%Z).

Lemma sample_builder_wf : wf_builder sample_builder.
Proof.
  constructor; try (intros x; discriminate); try (intros x [= <-]).
  - apply map_Forall_insert_2; [|apply map_Forall_empty].
    split; [split; [reflexivity|split; [reflexivity|by apply is_i64_nat; simpl; lia]]|unfold is_u8; lia].
  - unfold is_u16. lia.
  - repeat constructor; unfold is_u8; lia.
Qed.

Lemma extended_message_roundtrip_witness :
  let _ := byteorder_lists in let _ := nom_lists in let _ := hash_order_lists in
  ∃ out n, emits (BitsExtensionMessage_write_bytes (Extended (build sample_builder))) out n ∧
    BitsExtensionMessage_parse_bytes (out ++ [7]%Z) = Ok (out ++ [7]%Z, Ok (Extended (build sample_builder))).
Proof.
  intros BO NM HO. apply extended_message_roundtrip; [exact sample_builder_wf|].
  vm_compute. split; [discriminate|reflexivity].
Defined.

Lemma out_of_range_ids_panic_witness :
  let _ := byteorder_lists in let _ := nom_lists in
  UtMetadataMessage_parse_bytes (bstr "d8:msg_typei256e5:piecei0ee") = Panic UnwrapNone.
Proof.
  intros BO NM. refine (proj2 (out_of_range_ids_panic ExtUtPex 256 0 _ _ _ _ _)).
  - split; [reflexivity|split; [reflexivity|by apply is_i64_nat; simpl; lia]].
  - unfold is_i64, i64_min, i64_max. lia.
  - unfold is_i64, i64_min, i64_max. lia.
  - unfold is_u8. lia.
  - vm_compute. split; [discriminate|reflexivity].
Defined.

Lemma ut_metadata_roundtrip_witness :
  ∃ out, emits (UtMetadataMessage_write_bytes (UtData (UtMetadataDataMessage_new 1 20000 [1; 2; 3]%Z))) out () ∧
    length out = UtMetadataMessage_message_size (UtData (UtMetadataDataMessage_new 1 20000 [1; 2; 3]%Z)) ∧
    UtMetadataMessage_parse_bytes out = Ok (inr (UtData (UtMetadataDataMessage_new 1 20000 [1; 2; 3]%Z))).
Proof.
  apply (ut_metadata_roundtrip 1 20000 [1; 2; 3]%Z); [unfold is_i64, i64_min, i64_max; lia..|].
  right. right. left.
Defined.
