(* ===== verification/PeerWire.v ===== *)
(** packages/peer: the protocol trait and its implementations (the files of protocol),
    the peer wire and extension messages (message/mod.rs, message/prot_ext/mod.rs)
    and the codec (codec.rs).

    A protocol is a state [P] with messages [M] and message errors [E];
    [Result<M, E>] is [E + M].  What a method does to [&mut self] is the state
    it returns. *)

From stdpp Require Import base numbers strings gmap list.
From S2P Require Import Prelude Extern Convert Io PeerStandard PeerExtended.

(** * The traits (protocol/mod.rs) *)

Class PeerProtocol (P M E : Type) := {
  proto_bytes_needed : P → bytes → P * res io_error (option nat);
  proto_parse_bytes : P → bytes → P * res io_error (E + M);
  proto_write_bytes {W : Type} `{Write W} : P → E + M → W → P * (W * res io_error nat);
  proto_message_size : P → E + M → P * res io_error nat
}.

Class NestedPeerProtocol (P Msg : Type) := {
  received_message : P → Msg → P * nat;
  sent_message : P → Msg → P * nat
}.

(** * [NullProtocol] and [UnitProtocol] *)

Inductive NullProtocol := NullProtocol_new.
Inductive NullProtocolMessage : Set :=.

#[export] Instance NullProtocol_protocol : PeerProtocol NullProtocol NullProtocolMessage io_error := {
  proto_bytes_needed p _ := (p, Ok (Some 0));
  proto_parse_bytes p _ := (p, Err IoOther);
  proto_write_bytes W _ p _ w := (p, (w, Panic AssertFailed));
  proto_message_size p _ := (p, Ok 0)
}.
#[export] Instance NullProtocol_nested Msg : NestedPeerProtocol NullProtocol Msg :=
  {| received_message p _ := (p, 0); sent_message p _ := (p, 0) |}.

Inductive UnitProtocol := UnitProtocol_new.

#[export] Instance UnitProtocol_protocol : PeerProtocol UnitProtocol () io_error := {
  proto_bytes_needed p _ := (p, Ok (Some 0));
  proto_parse_bytes p _ := (p, Ok (inr ()));
  proto_write_bytes W _ p _ w := (p, (w, Ok 0));
  proto_message_size p _ := (p, Ok 0)
}.
#[export] Instance UnitProtocol_nested Msg : NestedPeerProtocol UnitProtocol Msg :=
  {| received_message p _ := (p, 0); sent_message p _ := (p, 0) |}.

(** * [PeerWireProtocolMessage] (message/mod.rs) *)

Inductive PeerWireProtocolMessage (M E : Type) :=
  | KeepAlive
  | Choke
  | UnChoke
  | Interested
  | UnInterested
  | Have (msg : HaveMessage)
  | BitField (msg : BitFieldMessage)
  | Request (msg : RequestMessage)
  | Piece (msg : PieceMessage)
  | Cancel (msg : CancelMessage)
  | BitsExtension (ext : BitsExtensionMessage)
  | ProtExtension (ext : E + M).
Arguments KeepAlive {M E}.
Arguments Choke {M E}.
Arguments UnChoke {M E}.
Arguments Interested {M E}.
Arguments UnInterested {M E}.
Arguments Have {M E} msg.
Arguments BitField {M E} msg.
Arguments Request {M E} msg.
Arguments Piece {M E} msg.
Arguments Cancel {M E} msg.
Arguments BitsExtension {M E} ext.
Arguments ProtExtension {M E} ext.

Inductive PeerWireProtocolMessageError : Set :=.

(** [ManagedMessage] *)
Definition keep_alive {M E} : PeerWireProtocolMessage M E := KeepAlive.
Definition is_keep_alive {M E} (self : PeerWireProtocolMessage M E) : bool :=
  match self with KeepAlive => true | _ => false end.

Section Wire.
Context {P M E : Type} `{PP : PeerProtocol P M E}.
Context `{Nom, ByteOrder}.
Abbreviation msg := (PeerWireProtocolMessage M E).

Definition bytes_needed (l : bytes) : res io_error (option nat) :=
  match nom_be_u32 l with
  | Ok (_, len) => Ok (Some (MESSAGE_LENGTH_LEN_BYTES + u32_to_usize len))
  | _ => Ok None
  end.

Definition parse_message_length (l : bytes) : res io_error nat :=
  match nom_be_u32 l with
  | Ok (_, len) => Ok (u32_to_usize len)
  | _ => Panic AssertFailed
  end.

(** [value(v, p)] runs [p] and returns [v]: the bytes are not compared with it. *)
Definition header_parser (len id : Z) : parser (Z * option Z) :=
  nom_pair (nom_value len nom_be_u32) (nom_value (Some id) nom_u8).

Definition parse_keep_alive : parser (res io_error msg) :=
  nom_map (nom_pair nom_be_u32 (nom_opt nom_u8)) (λ _, Ok KeepAlive).
Definition parse_choke : parser (res io_error msg) :=
  nom_map (header_parser CHOKE_MESSAGE_LEN CHOKE_MESSAGE_ID) (λ _, Ok Choke).
Definition parse_unchoke : parser (res io_error msg) :=
  nom_map (header_parser UNCHOKE_MESSAGE_LEN UNCHOKE_MESSAGE_ID) (λ _, Ok UnChoke).
Definition parse_interested : parser (res io_error msg) :=
  nom_map (header_parser INTERESTED_MESSAGE_LEN INTERESTED_MESSAGE_ID) (λ _, Ok Interested).
Definition parse_uninterested : parser (res io_error msg) :=
  nom_map (header_parser UNINTERESTED_MESSAGE_LEN UNINTERESTED_MESSAGE_ID) (λ _, Ok UnInterested).
Definition parse_have : parser (res io_error msg) :=
  nom_map (nom_preceded (header_parser HAVE_MESSAGE_LEN HAVE_MESSAGE_ID) (nom_take 4))
    (λ have, Have <$> HaveMessage_parse_bytes have).
Definition parse_bitfield : parser (res io_error msg) :=
  nom_map (nom_preceded (header_parser BASE_BITFIELD_MESSAGE_LEN BITFIELD_MESSAGE_ID) (nom_take 4))
    (λ bitfield, BitField <$> BitFieldMessage_parse_bytes bitfield).
Definition parse_request : parser (res io_error msg) :=
  nom_map (nom_preceded (header_parser REQUEST_MESSAGE_LEN REQUEST_MESSAGE_ID) (nom_take 4))
    (λ request, Request <$> RequestMessage_parse_bytes request).
Definition parse_piece : parser (res io_error msg) :=
  nom_map (nom_preceded (header_parser BASE_PIECE_MESSAGE_LEN PIECE_MESSAGE_ID) (nom_take 4))
    (λ piece, len ← parse_message_length piece; Piece <$> PieceMessage_parse_bytes piece len).
Definition parse_cancel : parser (res io_error msg) :=
  nom_map (nom_preceded (header_parser CANCEL_MESSAGE_LEN CANCEL_MESSAGE_ID) (nom_take 4))
    (λ cancel, Cancel <$> CancelMessage_parse_bytes cancel).
Definition parse_bits_extension : parser (res io_error msg) :=
  nom_map BitsExtensionMessage_parse_bytes (λ res_bits_ext, BitsExtension <$> (res_bits_ext : res io_error _)).

(** The alternative that uses [ext_protocol]; an error of it is recoverable. *)
Definition parse_prot_extension (input : bytes) (ext_protocol : P) : P * res NomErr (bytes * res io_error msg) :=
  let '(ext_protocol', r) := proto_parse_bytes ext_protocol input in
  (ext_protocol', match r with
                  | Ok m => Ok (input, Ok (ProtExtension m))
                  | Err _ => Err NomError
                  | Panic f => Panic f
                  end).

(** [alt] tries the alternatives in order until one does not fail with a
    recoverable error; the last one is kept apart because it changes
    [ext_protocol]. *)
Definition parse_message (l : bytes) (ext_protocol : P) : P * res NomErr (bytes * res io_error msg) :=
  match nom_alt [parse_keep_alive; parse_choke; parse_unchoke; parse_interested; parse_uninterested; parse_have;
                 parse_bitfield; parse_request; parse_piece; parse_cancel; parse_bits_extension] l with
  | Err NomError => parse_prot_extension l ext_protocol
  | r => (ext_protocol, r)
  end.

Definition PeerWireProtocolMessage_parse_bytes (l : bytes) (ext_protocol : P) : P * res io_error msg :=
  let '(ext_protocol', r) := parse_message l ext_protocol in (ext_protocol', run_parser r).

Definition PeerWireProtocolMessage_write_bytes {W} `{Write W} (self : msg) (writer : W) (ext_protocol : P) :
    P * (W * res io_error nat) :=
  match self with
  | KeepAlive => (ext_protocol, write_length_id_pair KEEP_ALIVE_MESSAGE_LEN None writer)
  | Choke => (ext_protocol, write_length_id_pair CHOKE_MESSAGE_LEN (Some CHOKE_MESSAGE_ID) writer)
  | UnChoke => (ext_protocol, write_length_id_pair UNCHOKE_MESSAGE_LEN (Some UNCHOKE_MESSAGE_ID) writer)
  | Interested => (ext_protocol, write_length_id_pair INTERESTED_MESSAGE_LEN (Some INTERESTED_MESSAGE_ID) writer)
  | UnInterested => (ext_protocol, write_length_id_pair UNINTERESTED_MESSAGE_LEN (Some UNINTERESTED_MESSAGE_ID) writer)
  | Have msg => (ext_protocol, HaveMessage_write_bytes msg writer)
  | BitField msg => (ext_protocol, BitFieldMessage_write_bytes msg writer)
  | Request msg => (ext_protocol, RequestMessage_write_bytes msg writer)
  | Piece msg => (ext_protocol, PieceMessage_write_bytes msg writer)
  | Cancel msg => (ext_protocol, CancelMessage_write_bytes msg writer)
  | BitsExtension ext => (ext_protocol, BitsExtensionMessage_write_bytes ext writer)
  | ProtExtension ext => proto_write_bytes ext_protocol ext writer
  end.

Definition PeerWireProtocolMessage_message_size (self : msg) (ext_protocol : P) : P * res io_error nat :=
  let '(ext_protocol', message_specific_len) :=
    match self with
    | KeepAlive => (ext_protocol, Ok (Z.to_nat KEEP_ALIVE_MESSAGE_LEN))
    | Choke => (ext_protocol, Ok (Z.to_nat CHOKE_MESSAGE_LEN))
    | UnChoke => (ext_protocol, Ok (Z.to_nat UNCHOKE_MESSAGE_LEN))
    | Interested => (ext_protocol, Ok (Z.to_nat INTERESTED_MESSAGE_LEN))
    | UnInterested => (ext_protocol, Ok (Z.to_nat UNINTERESTED_MESSAGE_LEN))
    | Have _ => (ext_protocol, Ok (Z.to_nat HAVE_MESSAGE_LEN))
    | BitField msg => (ext_protocol, Ok (Z.to_nat BASE_BITFIELD_MESSAGE_LEN + length (bf_bytes msg)))
    | Request _ => (ext_protocol, Ok (Z.to_nat REQUEST_MESSAGE_LEN))
    | Piece msg => (ext_protocol, Ok (Z.to_nat BASE_PIECE_MESSAGE_LEN + length (pc_block msg)))
    | Cancel _ => (ext_protocol, Ok (Z.to_nat CANCEL_MESSAGE_LEN))
    | BitsExtension ext => (ext_protocol, Ok (BitsExtensionMessage_message_size ext))
    | ProtExtension ext => proto_message_size ext_protocol ext
    end in
  (ext_protocol', len ← message_specific_len; Ok (MESSAGE_LENGTH_LEN_BYTES + len)).
End Wire.

(** * [PeerExtensionProtocolMessage] (message/prot_ext/mod.rs) *)

Definition EXTENSION_HEADER_LEN : nat := HEADER_LEN + 1.

Inductive PeerExtensionProtocolMessageError :=
  | UtMetadataError (e : UtMetadataMessageError)
  | UnknownId
  | UnknownExtensionId (id : Z)
  | ParseExtensionError (e : NomErr).

Inductive PeerExtensionProtocolMessage (M E : Type) :=
  | PeUtMetadata (msg : UtMetadataMessage)
  | PeCustom (msg : E + M).
Arguments PeUtMetadata {M E} msg.
Arguments PeCustom {M E} msg.

Section Extension.
Context {P M E : Type} `{PP : PeerProtocol P M E}.
Context `{Nom, ByteOrder}.
Abbreviation ext_result := (PeerExtensionProtocolMessageError + PeerExtensionProtocolMessage M E)%type.

Definition PeerExtensionProtocolMessage_bytes_needed (l : bytes) : res io_error (option nat) := bytes_needed l.

(** The identifier [id] is not looked at. *)
Definition parse_extensions_with_id (l : bytes) (extended : ExtendedMessage) (id : Z) : res io_error ext_result :=
  match query_id extended ExtUtMetadata with
  | None => Ok (inl UnknownId)
  | Some lt_metadata_id =>
      item ← UtMetadataMessage_parse_bytes l;
      match item with
      | inr message => Ok (inr (PeUtMetadata message))
      | inl err => Ok (inl (UtMetadataError err))
      end
  end.

Definition ut_metadata_fn (extended : ExtendedMessage) : parser (res io_error ext_result) := λ input,
  '(_, (message_len, (extended_message_id, message_id))) ←
    (nom_pair nom_be_u32 (nom_pair nom_u8 nom_u8) input : res NomErr _);
  if (extended_message_id =? EXTENDED_MESSAGE_ID)%Z then
    let from := EXTENSION_HEADER_LEN in
    let to := EXTENSION_HEADER_LEN + Z.to_nat message_len - 2 in
    if (from <=? to) && (to <=? length input)
    then Ok (input, parse_extensions_with_id (slice input from to) extended message_id)
    else Panic IndexOutOfBounds
  else Ok (input, Ok (inl (UnknownExtensionId extended_message_id))).

(** [alt((ut_metadata_fn, custom_fn))]; [custom_fn] does not fail. *)
Definition parse_extensions (l : bytes) (extended : ExtendedMessage) (custom_prot : P) :
    P * res NomErr (bytes * res io_error ext_result) :=
  match ut_metadata_fn extended l with
  | Err NomError =>
      let '(custom_prot', r) := proto_parse_bytes custom_prot l in
      (custom_prot', Ok (l, item ← r; Ok (inr (PeCustom item))))
  | r => (custom_prot, r)
  end.

Definition PeerExtensionProtocolMessage_parse_bytes (l : bytes) (extended : ExtendedMessage) (custom_prot : P) :
    P * res io_error ext_result :=
  let '(custom_prot', r) := parse_extensions l extended custom_prot in
  (custom_prot', match r with
                 | Ok (_, result) => result
                 | Err err => Ok (inl (ParseExtensionError err))
                 | Panic f => Panic f
                 end).

(** [total_len.try_into().unwrap()] to a [u32]. *)
Definition PeerExtensionProtocolMessage_write_bytes {W} `{Write W} (self : PeerExtensionProtocolMessage M E) (writer : W)
    (extended : ExtendedMessage) (custom_prot : P) : P * (W * res io_error nat) :=
  match self with
  | PeUtMetadata msg =>
      match query_id extended ExtUtMetadata with
      | None => (custom_prot, (writer, Err IoOther))
      | Some ext_id =>
          let total_len := 2 + UtMetadataMessage_message_size msg in
          (custom_prot,
           (len ← lift (if decide (is_u32 (Z.of_nat total_len)) then Ok (Z.of_nat total_len) else Panic UnwrapNone);
            id_length ← write_length_id_pair len (Some EXTENDED_MESSAGE_ID);
            write_u8 ext_id ;;
            UtMetadataMessage_write_bytes msg ;;
            mret (id_length + total_len)) writer)
      end
  | PeCustom msg => proto_write_bytes custom_prot msg writer
  end.

Definition PeerExtensionProtocolMessage_message_size (self : PeerExtensionProtocolMessage M E) (custom_prot : P) :
    P * res io_error nat :=
  match self with
  | PeUtMetadata msg => (custom_prot, Ok (UtMetadataMessage_message_size msg))
  | PeCustom msg => proto_message_size custom_prot msg
  end.
End Extension.

(** * [PeerExtensionProtocol] (protocol/extension.rs) *)

Record PeerExtensionProtocol (P : Type) := {
  our_extended_msg : option ExtendedMessage;
  their_extended_msg : option ExtendedMessage;
  custom_protocol : P
}.
Arguments our_extended_msg {P} _.
Arguments their_extended_msg {P} _.
Arguments custom_protocol {P} _.
Arguments Build_PeerExtensionProtocol {P} _ _ _.

Definition PeerExtensionProtocol_new {P} (custom_protocol : P) : PeerExtensionProtocol P :=
  Build_PeerExtensionProtocol None None custom_protocol.

Definition set_custom {P} (self : PeerExtensionProtocol P) (p : P) : PeerExtensionProtocol P :=
  Build_PeerExtensionProtocol (our_extended_msg self) (their_extended_msg self) p.

#[export] Instance PeerExtensionProtocol_protocol `{Nom, ByteOrder} {P M E} `{PeerProtocol P M E} :
    PeerProtocol (PeerExtensionProtocol P) (PeerExtensionProtocolMessage M E) PeerExtensionProtocolMessageError := {
  proto_bytes_needed self l := (self, PeerExtensionProtocolMessage_bytes_needed l);
  proto_parse_bytes self l :=
    match our_extended_msg self with
    | Some extended_msg =>
        let '(p, r) := PeerExtensionProtocolMessage_parse_bytes l extended_msg (custom_protocol self) in
        (set_custom self p, r)
    | None => (self, Err IoOther)
    end;
  proto_write_bytes W _ self item writer :=
    match item with
    | inl _ => (self, (writer, Err IoInvalidInput))
    | inr message =>
        match their_extended_msg self with
        | Some extended_msg =>
            let '(p, r) := PeerExtensionProtocolMessage_write_bytes message writer extended_msg (custom_protocol self) in
            (set_custom self p, r)
        | None => (self, (writer, Err IoOther))
        end
    end;
  proto_message_size self item :=
    match item with
    | inl _ => (self, Err IoInvalidInput)
    | inr message =>
        let '(p, r) := PeerExtensionProtocolMessage_message_size message (custom_protocol self) in (set_custom self p, r)
    end
}.

#[export] Instance PeerExtensionProtocol_nested {P} `{NestedPeerProtocol P ExtendedMessage} :
    NestedPeerProtocol (PeerExtensionProtocol P) ExtendedMessage := {
  received_message self message :=
    let '(p, n) := received_message (custom_protocol self) message in
    (Build_PeerExtensionProtocol (our_extended_msg self) (Some message) p, n);
  sent_message self message :=
    let '(p, n) := sent_message (custom_protocol self) message in
    (Build_PeerExtensionProtocol (Some message) (their_extended_msg self) p, n)
}.

(** * [PeerWireProtocol] (protocol/wire.rs) *)

Record PeerWireProtocol (P : Type) := PeerWireProtocol_new { ext_protocol : P }.
Arguments PeerWireProtocol_new {P} _.
Arguments ext_protocol {P} _.

#[export] Instance PeerWireProtocol_protocol `{Nom, ByteOrder} {P M E} `{PeerProtocol P M E}
    `{NestedPeerProtocol P ExtendedMessage} :
    PeerProtocol (PeerWireProtocol P) (PeerWireProtocolMessage M E) PeerWireProtocolMessageError := {
  proto_bytes_needed self l := (self, bytes_needed l);
  proto_parse_bytes self l :=
    let '(p, r) := PeerWireProtocolMessage_parse_bytes l (ext_protocol self) in
    match r with
    | Ok (BitsExtension (Extended msg)) =>
        (PeerWireProtocol_new (received_message p msg).1, Ok (inr (BitsExtension (Extended msg))))
    | Ok other => (PeerWireProtocol_new p, Ok (inr other))
    | Err e => (PeerWireProtocol_new p, Err e)
    | Panic f => (PeerWireProtocol_new p, Panic f)
    end;
  proto_write_bytes W _ self item writer :=
    match item with
    | inl e => match e with end
    | inr message =>
        let '(p, (w, r)) := PeerWireProtocolMessage_write_bytes message writer (ext_protocol self) in
        match r with
        | Ok message_bytes_written =>
            match message with
            | BitsExtension (Extended extended_message) =>
                let '(p', n) := sent_message p extended_message in (PeerWireProtocol_new p', (w, Ok n))
            | _ => (PeerWireProtocol_new p, (w, Ok message_bytes_written))
            end
        | Err e => (PeerWireProtocol_new p, (w, Err e))
        | Panic f => (PeerWireProtocol_new p, (w, Panic f))
        end
    end;
  proto_message_size self item :=
    match item with
    | inl e => match e with end
    | inr message =>
        let '(p, r) := PeerWireProtocolMessage_message_size message (ext_protocol self) in (PeerWireProtocol_new p, r)
    end
}.

(** * [PeerProtocolCodec] (codec.rs) *)

Record PeerProtocolCodec (P : Type) := { protocol : P; max_payload : option nat }.
Arguments protocol {P} _.
Arguments max_payload {P} _.
Arguments Build_PeerProtocolCodec {P} _ _.

Definition PeerProtocolCodec_new {P} (p : P) : PeerProtocolCodec P := Build_PeerProtocolCodec p None.
Definition with_max_payload {P} (p : P) (max : nat) : PeerProtocolCodec P := Build_PeerProtocolCodec p (Some max).

Section Codec.
Context {P M E : Type} `{PP : PeerProtocol P M E}.

(** The codec, the buffer after [split_to], and the result. *)
Definition codec_decode (self : PeerProtocolCodec P) (src : bytes) :
    PeerProtocolCodec P * bytes * res io_error (option M) :=
  let '(p, r) := proto_bytes_needed (protocol self) src in
  let self := Build_PeerProtocolCodec p (max_payload self) in
  match r with
  | Err e => (self, src, Err e)
  | Panic f => (self, src, Panic f)
  | Ok None => (self, src, Ok None)
  | Ok (Some needed) =>
      if match max_payload self with Some max => max <? needed | None => false end then (self, src, Err IoOther)
      else if needed <=? length src then
        let '(p, r) := proto_parse_bytes (protocol self) (take needed src) in
        (Build_PeerProtocolCodec p (max_payload self), drop needed src,
         item ← r; match item with inr m => Ok (Some m) | inl _ => Err IoOther end)
      else (self, src, Ok None)
  end.

(** [dst.reserve(size)] only makes room. *)
Definition codec_encode (self : PeerProtocolCodec P) (item : io_error + M) (dst : bytes) :
    PeerProtocolCodec P * bytes * res io_error () :=
  match item with
  | inl e => (self, dst, Err e)
  | inr m =>
      let '(p, size) := proto_message_size (protocol self) (inr m) in
      match size with
      | Err e => (Build_PeerProtocolCodec p (max_payload self), dst, Err e)
      | Panic f => (Build_PeerProtocolCodec p (max_payload self), dst, Panic f)
      | Ok _ =>
          let '(p, (dst', written)) := proto_write_bytes p (inr m) dst in
          (Build_PeerProtocolCodec p (max_payload self), dst', _ ← written; Ok ())
      end
  end.
End Codec.
