(* ===== verification/PeerWireProps.v ===== *)
(** Peer wire messages, protocols and codec: frames have the length their
    prefix, writer and size function say; the codec splits a stream into
    frames; every frame parses as a keep-alive message. *)

From stdpp Require Import base numbers strings gmap list.
From S2P Require Import Prelude Extern Bencode Convert Io PeerStandard PeerExtended PeerExtendedProps PeerWire.

(** * Protocols that frame by a length prefix *)

(** What the codec relies on: [bytes_needed] reads a 32-bit length and leaves
    the protocol alone. *)
Class LengthPrefixed (P M E : Type) `{PeerProtocol P M E} `{Nom} :=
  needed_prefix : ∀ (p : P) l, proto_bytes_needed p l =
    (p, Ok (match nom_be_u32 l with Ok (_, len) => Some (4 + Z.to_nat len) | _ => None end)).

Lemma bytes_needed_eq `{Nom} l :
  bytes_needed l = Ok (match nom_be_u32 l with Ok (_, len) => Some (4 + Z.to_nat len) | _ => None end).
Proof. unfold bytes_needed. by destruct (nom_be_u32 l) as [[? ?]| |]. Qed.

#[export] Instance wire_prefixed `{Nom, ByteOrder} {P M E} `{PeerProtocol P M E, NestedPeerProtocol P ExtendedMessage} :
  LengthPrefixed (PeerWireProtocol P) (PeerWireProtocolMessage M E) PeerWireProtocolMessageError.
Proof. intros p l. simpl. by rewrite bytes_needed_eq. Qed.

#[export] Instance extension_prefixed `{Nom, ByteOrder} {P M E} `{PeerProtocol P M E} :
  LengthPrefixed (PeerExtensionProtocol P) (PeerExtensionProtocolMessage M E) PeerExtensionProtocolMessageError.
Proof. intros p l. simpl. unfold PeerExtensionProtocolMessage_bytes_needed. by rewrite bytes_needed_eq. Qed.

(** A length prefix and the bytes it counts. *)
Definition frame `{ByteOrder} (body : bytes) : bytes := u32_be_bytes (Z.of_nat (length body)) ++ body.

Section Frames.
Context `{Nom, ByteOrder}.

Lemma frame_length body : is_u32 (Z.of_nat (length body)) → length (frame body) = 4 + length body.
Proof. intros Hb. unfold frame. by rewrite length_app, u32_be_length. Qed.

Lemma be_u32_few l : length l < 4 → nom_be_u32 l = Err NomError.
Proof. apply nom_be_u32_short. Qed.

Lemma frame_prefix body n rest : is_u32 (Z.of_nat (length body)) → 4 ≤ n →
  ∃ l, nom_be_u32 (take n (frame body ++ rest)) = Ok (l, Z.of_nat (length body)).
Proof.
  intros Hb Hn. unfold frame. rewrite <- app_assoc.
  exists (take (n - 4) (body ++ rest)). rewrite take_app, u32_be_length by done.
  rewrite take_ge by (by rewrite u32_be_length). by apply be_u32_of_bytes.
Qed.

Context {P M E : Type} `{PP : PeerProtocol P M E} `{!LengthPrefixed P M E}.

(** The buffer holds fewer than four bytes, part of a frame, or at least one frame. *)
Lemma decode_few (c : PeerProtocolCodec P) l : length l < 4 → codec_decode c l = (c, l, Ok None).
Proof.
  intros Hl. destruct c as [p max]. unfold codec_decode. cbn [protocol max_payload].
  by rewrite needed_prefix, be_u32_few.
Qed.

Lemma decode_at (c : PeerProtocolCodec P) body n rest :
  is_u32 (Z.of_nat (length body)) → 4 ≤ n →
  let src := take n (frame body ++ rest) in
  codec_decode c src =
    if match max_payload c with Some max => max <? length (frame body) | None => false end then (c, src, Err IoOther)
    else if length (frame body) <=? length src then
      let '(p, r) := proto_parse_bytes (protocol c) (take (length (frame body)) src) in
      (Build_PeerProtocolCodec p (max_payload c), drop (length (frame body)) src,
       item ← r; match item with inr m => Ok (Some m) | inl _ => Err IoOther end)
    else (c, src, Ok None).
Proof.
  intros Hb Hn src. destruct c as [p max]. destruct (frame_prefix body n rest Hb Hn) as [l Hl]. fold src in Hl.
  unfold codec_decode. cbn [protocol max_payload]. rewrite needed_prefix, Hl.
  rewrite Nat2Z.id, <- (frame_length body Hb). done.
Qed.
End Frames.

(** * Frames written by the wire protocol *)

(** The field ranges of the messages that are not part of an extension protocol. *)
Definition wf_wire {M E} (m : PeerWireProtocolMessage M E) : Prop :=
  match m with
  | KeepAlive | Choke | UnChoke | Interested | UnInterested => True
  | Have msg => is_u32 (have_piece_index msg)
  | BitField msg => is_u32 (1 + Z.of_nat (length (bf_bytes msg)))
  | Request msg => is_u32 (req_piece_index msg) ∧ is_u32 (req_block_offset msg) ∧ is_u32 (req_block_length msg)
  | Piece msg => is_u32 (pc_piece_index msg) ∧ is_u32 (pc_block_offset msg) ∧ is_u32 (9 + Z.of_nat (length (pc_block msg)))
  | Cancel msg => is_u32 (can_piece_index msg) ∧ is_u32 (can_block_offset msg) ∧ is_u32 (can_block_length msg)
  | BitsExtension (Port msg) => is_u16 (pm_port msg)
  | BitsExtension (Extended _) | ProtExtension _ => False
  end.

Section Wire.
Context `{Nom, ByteOrder} {P M E : Type} `{PP : PeerProtocol P M E}.

(** [m] is written as one frame of this body; the writer's count and
    [message_size] are the frame's length. *)
Definition writes_frame (m : PeerWireProtocolMessage M E) (body : bytes) : Prop :=
  is_u32 (Z.of_nat (length body)) ∧
  (∀ w p, PeerWireProtocolMessage_write_bytes m w p = (p, (w ++ frame body, Ok (4 + length body)))) ∧
  (∀ p, PeerWireProtocolMessage_message_size m p = (p, Ok (4 + length body))).

Lemma framed_writes m id wm body :
  framed_as id wm body →
  (∀ w p, PeerWireProtocolMessage_write_bytes m w p = (p, wm w)) →
  (∀ p, PeerWireProtocolMessage_message_size m p = (p, Ok (5 + length body))) →
  writes_frame m (id :: body).
Proof.
  intros [Hu He] Hw Hs. unfold writes_frame, frame. cbn [length].
  replace (Z.of_nat (S (length body))) with (1 + Z.of_nat (length body))%Z by lia.
  split; [done|]. split; [|exact Hs]. intros w p. by rewrite Hw, He.
Qed.

Lemma id_only_framed len id : is_u8 id → len = 1%Z → framed_as id (write_length_id_pair len (Some id)) [].
Proof. intros Hid ->. split; [unfold is_u32; simpl; lia|]. by apply header_emits. Qed.

Lemma wire_frames m : wf_wire m → ∃ body, writes_frame m body.
Proof.
  destruct m as [| | | | |[i]|[l]|[i o len]|[i o l]|[i o len]|[[p]|x]|x]; simpl; intros Hw; try done.
  - exists []. split; [unfold is_u32; simpl; lia|]. split; [|done]. intros w p.
    assert (He : emits (write_length_id_pair KEEP_ALIVE_MESSAGE_LEN None) (frame []) 4).
    { eapply emits_eq; [emit|done|done]. }
    unfold PeerWireProtocolMessage_write_bytes. by rewrite He.
  - eexists. eapply framed_writes; [apply (id_only_framed CHOKE_MESSAGE_LEN CHOKE_MESSAGE_ID)|..]; done.
  - eexists. eapply framed_writes; [apply (id_only_framed UNCHOKE_MESSAGE_LEN UNCHOKE_MESSAGE_ID)|..]; done.
  - eexists. eapply framed_writes; [apply (id_only_framed INTERESTED_MESSAGE_LEN INTERESTED_MESSAGE_ID)|..]; done.
  - eexists. eapply framed_writes; [apply (id_only_framed UNINTERESTED_MESSAGE_LEN UNINTERESTED_MESSAGE_ID)|..]; done.
  - eexists. eapply framed_writes; [by apply have_framed|done|by rewrite u32_be_length].
  - eexists. eapply framed_writes; [by apply bitfield_framed|done|done].
  - destruct Hw as (? & ? & ?). eexists. eapply framed_writes; [by apply (request_framed i o len)|done|].
    by rewrite !length_app, !u32_be_length.
  - destruct Hw as (? & ? & ?). eexists. eapply framed_writes; [by apply (piece_framed i o l)|done|].
    by rewrite !length_app, !u32_be_length.
  - destruct Hw as (? & ? & ?). eexists. eapply framed_writes; [by apply (cancel_framed i o len)|done|].
    by rewrite !length_app, !u32_be_length.
  - eexists. eapply framed_writes; [by apply port_framed|done|by rewrite u16_be_length].
Qed.

(** * Parsing *)

Lemma keep_alive_first l :
  4 ≤ length l → ∃ r, parse_keep_alive (M:=M) (E:=E) l = Ok (r, Ok KeepAlive).
Proof.
  intros Hl. destruct l as [|a [|b [|c [|d l]]]]; simpl in Hl; [lia|lia|lia|lia|].
  unfold parse_keep_alive. rewrite nom_map_eq, nom_pair_eq, nom_be_u32_cons. cbn [mbind res_bind].
  rewrite nom_opt_eq. destruct l as [|x l]; [rewrite nom_u8_nil|rewrite nom_u8_cons]; cbn [mbind res_bind]; eauto.
Qed.

(** Every alternative that does not use the extension protocol starts with a
    32-bit length. *)
Lemma pair_short {A B} (p : parser A) (q : parser B) l : p l = Err NomError → nom_pair p q l = Err NomError.
Proof. intros Hp. rewrite nom_pair_eq, Hp. done. Qed.
Lemma map_short {A B} (p : parser A) (f : A → B) l : p l = Err NomError → nom_map p f l = Err NomError.
Proof. intros Hp. rewrite nom_map_eq, Hp. done. Qed.
Lemma preceded_short {A B} (p : parser A) (q : parser B) l : p l = Err NomError → nom_preceded p q l = Err NomError.
Proof. intros Hp. rewrite nom_preceded_eq, Hp. done. Qed.
Lemma value_short {A B} (v : B) (p : parser A) l : p l = Err NomError → nom_value v p l = Err NomError.
Proof. intros Hp. rewrite nom_value_eq, Hp. done. Qed.

Lemma bits_extension_short l : length l < 4 → BitsExtensionMessage_parse_bytes l = Err NomError.
Proof.
  intros Hl. unfold BitsExtensionMessage_parse_bytes. rewrite nom_alt_more, nom_alt_one. unfold port_fn, ext_fn.
  rewrite !pair_short by (by apply be_u32_few). done.
Qed.

Lemma alternatives_short l : length l < 4 →
  nom_alt [parse_keep_alive (M:=M) (E:=E); parse_choke; parse_unchoke; parse_interested; parse_uninterested; parse_have;
           parse_bitfield; parse_request; parse_piece; parse_cancel; parse_bits_extension] l = Err NomError.
Proof.
  intros Hl. pose proof (be_u32_few l Hl) as Hs.
  assert (Hh : ∀ len id, header_parser len id l = Err NomError) by (intros; by apply pair_short, value_short).
  rewrite !nom_alt_more, nom_alt_one.
  unfold parse_keep_alive, parse_choke, parse_unchoke, parse_interested, parse_uninterested, parse_have, parse_bitfield,
    parse_request, parse_piece, parse_cancel, parse_bits_extension.
  rewrite !map_short; auto using preceded_short, pair_short, bits_extension_short.
Qed.

Lemma parse_message_eq l (p : P) :
  PeerWireProtocolMessage_parse_bytes (M:=M) (E:=E) l p =
    if 4 <=? length l then (p, Ok KeepAlive)
    else let '(p', r) := proto_parse_bytes p l in
         (p', match r with Ok m => Ok (ProtExtension m) | Err _ => Err IoOther | Panic f => Panic f end).
Proof.
  unfold PeerWireProtocolMessage_parse_bytes, parse_message. destruct (Nat.leb_spec 4 (length l)) as [Hl|Hl].
  - destruct (keep_alive_first l Hl) as [r Hr]. rewrite nom_alt_more, Hr. done.
  - rewrite alternatives_short by done. unfold parse_prot_extension.
    destruct (proto_parse_bytes p l) as [p' [m|e|f]]; done.
Qed.
End Wire.

(** * Properties *)

Section Properties.
Context `{Nom, ByteOrder} {P M E : Type} `{PP : PeerProtocol P M E}.

(** Every wire message outside the extension protocols is written
    as one frame: the count the writer returns, [message_size] and, once four
    bytes are there, [bytes_needed] all equal the number of bytes written;
    with fewer bytes [bytes_needed] asks for more. *)
Theorem wire_message_frames (m : PeerWireProtocolMessage M E) (p : P) w rest :
  wf_wire m →
  ∃ out, PeerWireProtocolMessage_write_bytes m w p = (p, (w ++ out, Ok (length out))) ∧
    PeerWireProtocolMessage_message_size m p = (p, Ok (length out)) ∧
    bytes_needed (out ++ rest) = Ok (Some (length out)) ∧
    ∀ n, n < 4 → bytes_needed (take n out) = Ok None.
Proof.
  intros Hm. destruct (wire_frames m Hm) as (body & Hb & Hw & Hs). exists (frame body).
  rewrite frame_length by done. split_and!; [done|done| |].
  - rewrite bytes_needed_eq. destruct (frame_prefix body (length (frame body ++ rest)) rest Hb) as [l Hl].
    { rewrite length_app, frame_length by done. lia. }
    rewrite take_ge in Hl by lia. rewrite Hl. by rewrite Nat2Z.id.
  - intros n Hn. rewrite bytes_needed_eq, be_u32_few; [done|]. rewrite length_take. lia.
Qed.

(** Claim C32. The codec over any length-prefixed protocol splits a stream
    into frames: with a whole frame in the buffer it takes exactly that frame
    out and parses it, with less it waits and touches nothing, and a frame over
    the configured maximum is refused as soon as its prefix is there, without
    consuming it. *)
Theorem codec_splits_frames `{!LengthPrefixed P M E} (c : PeerProtocolCodec P) body rest n :
  is_u32 (Z.of_nat (length body)) →
  match max_payload c with
  | Some max => max < length (frame body) → 4 ≤ n →
      codec_decode c (take n (frame body ++ rest)) = (c, take n (frame body ++ rest), Err IoOther)
  | None => True
  end ∧
  (match max_payload c with Some max => length (frame body) ≤ max | None => True end →
   (n < length (frame body) → codec_decode c (take n (frame body)) = (c, take n (frame body), Ok None)) ∧
   codec_decode c (frame body ++ rest) =
     let '(p, r) := proto_parse_bytes (protocol c) (frame body) in
     (Build_PeerProtocolCodec p (max_payload c), rest,
      item ← r; match item with inr m => Ok (Some m) | inl _ => Err IoOther end)).
Proof.
  intros Hb. pose proof (frame_length body Hb) as Hf. split.
  - destruct (max_payload c) as [max|] eqn:Hmax; [|done]. intros Hlt Hn. rewrite decode_at, Hmax by done.
    by rewrite (proj2 (Nat.ltb_lt _ _) Hlt).
  - intros Hmax.
    assert (Hno : match max_payload c with Some max => max <? length (frame body) | None => false end = false).
    { destruct (max_payload c); [|done]. apply Nat.ltb_ge. exact Hmax. }
    split.
    + intros Hn. destruct (decide (n < 4)) as [Hn4|Hn4].
      { apply decode_few. rewrite length_take. lia. }
      pose proof (decode_at c body n [] Hb) as Hd. rewrite app_nil_r, Hno in Hd. cbv zeta in Hd. rewrite Hd by lia.
      destruct (Nat.leb_spec (length (frame body)) (length (take n (frame body)))) as [Hl|_]; [|done].
      rewrite length_take in Hl. lia.
    + pose proof (decode_at c body (length (frame body ++ rest)) rest Hb) as Hd. rewrite Hno in Hd. cbv zeta in Hd.
      rewrite take_ge in Hd by lia. rewrite Hd by (rewrite length_app; lia).
      destruct (Nat.leb_spec (length (frame body)) (length (frame body ++ rest))) as [_|Hl];
        [|rewrite length_app in Hl; lia].
      by rewrite take_app_length, drop_app_length.
Qed.

(** Claim C31. The keep-alive alternative comes first and checks nothing: any
    four bytes or more parse as a keep-alive message without reaching the
    extension protocol, so every message the codec encodes (a block, a request,
    ...) is decoded by the other side as a keep-alive. *)
Theorem wire_decodes_everything_as_keep_alive `{NestedPeerProtocol P ExtendedMessage} (p : P) l
    (m : PeerWireProtocolMessage M E) :
  wf_wire m →
  let c := PeerProtocolCodec_new (PeerWireProtocol_new p) in
  (4 ≤ length l → PeerWireProtocolMessage_parse_bytes (M:=M) (E:=E) l p = (p, Ok KeepAlive)) ∧
  ∃ out, codec_encode c (inr m) [] = (c, out, Ok ()) ∧
    codec_decode (M:=PeerWireProtocolMessage M E) c out = (c, [], Ok (Some KeepAlive)).
Proof.
  intros Hm c. split.
  - intros Hl. rewrite parse_message_eq. by rewrite (proj2 (Nat.leb_le _ _) Hl).
  - destruct (wire_frames m Hm) as (body & Hb & Hw & Hs). exists (frame body).
    pose proof (frame_length body Hb) as Hf. split.
    + unfold codec_encode, c. cbn. rewrite Hs, Hw. simpl.
      by destruct m as [| | | | | | | | | |[|]|].
    + pose proof (decode_at (M:=PeerWireProtocolMessage M E) c body (length (frame body)) [] Hb ltac:(lia)) as Hd.
      rewrite app_nil_r, take_ge in Hd by lia. cbv zeta in Hd. rewrite Hd. cbn [max_payload protocol c PeerProtocolCodec_new].
      rewrite Nat.leb_refl, firstn_all, drop_all. unfold proto_parse_bytes, PeerWireProtocol_protocol. cbn [ext_protocol].
      rewrite parse_message_eq, (proj2 (Nat.leb_le 4 (length (frame body)))) by lia. done.
Qed.

(** The counts and sizes of the extension messages: an extended handshake of
    [n] bencode bytes occupies [n + 6] bytes, its writer reports one more and
    its size is given as four more; a metadata message of [n] bytes occupies
    [n + 6], is reported as one more and its size is given as two fewer. *)
Lemma extension_sizes_disagree (p : P) x ext_id piece :
  is_u32 (Z.of_nat (bencode_size x) + 2) → is_u8 ext_id → query_id x ExtUtMetadata = Some ext_id → is_i64 piece →
  let m : PeerWireProtocolMessage M E := BitsExtension (Extended x) in
  let u := UtRequest (UtMetadataRequestMessage_new piece) in
  let n := UtMetadataMessage_message_size u in
  is_u32 (Z.of_nat n + 2) →
  (∃ out, PeerWireProtocolMessage_write_bytes m [] p = (p, ([] ++ out, Ok (length out + 1))) ∧
     length out = bencode_size x + 6 ∧ PeerWireProtocolMessage_message_size m p = (p, Ok (length out + 4))) ∧
  (∃ out, PeerExtensionProtocolMessage_write_bytes (M:=M) (E:=E) (PeUtMetadata u) [] x p =
            (p, ([] ++ out, Ok (length out + 1))) ∧
     length out = n + 6).
Proof.
  intros Hx Hid Hq Hp m u n Hn. split.
  - exists (extended_frame (m_raw_bencode x)).
    assert (Hl : length (extended_frame (m_raw_bencode x)) = bencode_size x + 6).
    { unfold extended_frame, bencode_size in *. rewrite !length_app, u32_be_length by done. simpl. lia. }
    split_and!; [|done|].
    + unfold m, PeerWireProtocolMessage_write_bytes, BitsExtensionMessage_write_bytes. by rewrite (extended_emits x Hx []).
    + rewrite Hl. unfold m, PeerWireProtocolMessage_message_size. simpl. do 3 f_equal. lia.
  - exists (u32_be_bytes (Z.of_nat n + 2) ++ [EXTENDED_MESSAGE_ID] ++ [ext_id] ++
            BencodeMut_encode (ut_map REQUEST_MESSAGE_TYPE_ID piece)).
    assert (Hl : length (BencodeMut_encode (ut_map REQUEST_MESSAGE_TYPE_ID piece)) = n) by done.
    split.
    + unfold PeerExtensionProtocolMessage_write_bytes. rewrite Hq. fold n.
      rewrite decide_True by (replace (Z.of_nat (2 + n)) with (Z.of_nat n + 2)%Z by lia; done). f_equal.
      assert (Hh : emits (write_length_id_pair (Z.of_nat (2 + n)) (Some EXTENDED_MESSAGE_ID))
        (u32_be_bytes (Z.of_nat (2 + n)) ++ [EXTENDED_MESSAGE_ID]) 5).
      { apply header_emits. unfold is_u8, EXTENDED_MESSAGE_ID. lia. }
      apply (emits_eq _ ([] ++ (u32_be_bytes (Z.of_nat (2 + n)) ++ [EXTENDED_MESSAGE_ID]) ++ [ext_id] ++
        BencodeMut_encode (ut_map REQUEST_MESSAGE_TYPE_ID piece) ++ []) _ (5 + (2 + n))).
      * eapply emits_bind; [apply emits_lift|]. eapply emits_bind; [exact Hh|].
        eapply emits_bind; [by apply emits_write_u8|]. eapply emits_bind; [apply emits_write_all|apply emits_ret].
      * rewrite app_nil_r. replace (Z.of_nat (2 + n)) with (Z.of_nat n + 2)%Z by lia. by rewrite <- app_assoc.
      * rewrite !length_app, u32_be_length, Hl by done. cbn [length]. lia.
    + rewrite !length_app, u32_be_length, Hl by done. cbn [length]. lia.
Qed.
End Properties.

(** A message the codec of a connection gives is a keep-alive. *)
Lemma decoded_keep_alive `{Nom} `{ByteOrder} {P M E} `{PP : PeerProtocol P M E} `{!NestedPeerProtocol P ExtendedMessage}
    (c c' : PeerProtocolCodec (PeerWireProtocol P)) src src' (m : PeerWireProtocolMessage M E) :
  codec_decode c src = (c', src', Ok (Some m)) → m = KeepAlive.
Proof.
  unfold codec_decode, proto_bytes_needed, proto_parse_bytes, PeerWireProtocol_protocol, bytes_needed. cbn [max_payload protocol].
  destruct (nom_be_u32 src) as [[rest len]|e|f]; [|by intros [= _ _ ?]..]. destruct (match max_payload c with Some _ => _ | None => _ end); [done|].
  destruct (Nat.leb_spec (MESSAGE_LENGTH_LEN_BYTES + u32_to_usize len) (length src)) as [Hl|]; [|done].
  rewrite parse_message_eq, (proj2 (Nat.leb_le _ _)); [by intros [= _ _ <-]|]. rewrite length_take, Nat.min_l by done.
  unfold MESSAGE_LENGTH_LEN_BYTES. lia.
Qed.


Lemma wire_message_frames_witness :
  let _ := byteorder_lists in let _ := nom_lists in
  ∃ out, PeerWireProtocolMessage_write_bytes (M:=NullProtocolMessage) (E:=io_error)
      (Piece {| pc_piece_index := 1; pc_block_offset := 2; pc_block := [3; 4]%Z |}) [] NullProtocol_new
      = (NullProtocol_new, ([] ++ out, Ok (length out))) ∧
    PeerWireProtocolMessage_message_size (M:=NullProtocolMessage) (E:=io_error)
      (Piece {| pc_piece_index := 1; pc_block_offset := 2; pc_block := [3; 4]%Z |}) NullProtocol_new
      = (NullProtocol_new, Ok (length out)) ∧
    bytes_needed (out ++ [9]%Z) = Ok (Some (length out)) ∧
    ∀ n, n < 4 → bytes_needed (take n out) = Ok None.
Proof.
  intros NM BO. apply wire_message_frames. simpl. unfold is_u32. lia.
Defined.

Lemma codec_splits_frames_witness :
  let _ := byteorder_lists in let _ := nom_lists in
  codec_decode (M:=PeerWireProtocolMessage NullProtocolMessage io_error)
    (with_max_payload (PeerWireProtocol_new NullProtocol_new) 4) (take 5 (frame [0]%Z ++ []))
  = (with_max_payload (PeerWireProtocol_new NullProtocol_new) 4, take 5 (frame [0]%Z ++ []), Err IoOther).
Proof.
  intros BO NM. refine (proj1 (codec_splits_frames (with_max_payload (PeerWireProtocol_new NullProtocol_new) 4) [0]%Z [] 5 _) _ _).
  - unfold is_u32. simpl. lia.
  - unfold frame. rewrite length_app. simpl. lia.
  - lia.
Defined.

Lemma wire_decodes_everything_as_keep_alive_witness :
  let _ := byteorder_lists in let _ := nom_lists in
  ∃ out, codec_encode (PeerProtocolCodec_new (PeerWireProtocol_new NullProtocol_new))
           (inr (Have {| have_piece_index := 5 |})) []
         = (PeerProtocolCodec_new (PeerWireProtocol_new NullProtocol_new), out, Ok ()) ∧
    codec_decode (M:=PeerWireProtocolMessage NullProtocolMessage io_error)
      (PeerProtocolCodec_new (PeerWireProtocol_new NullProtocol_new)) out
    = (PeerProtocolCodec_new (PeerWireProtocol_new NullProtocol_new), [], Ok (Some KeepAlive)).
Proof.
  intros BO NM. refine (proj2 (wire_decodes_everything_as_keep_alive NullProtocol_new [] (Have {| have_piece_index := 5 |}) _)).
  simpl. unfold is_u32. lia.
Defined.
