(* ===== verification/Path.v ===== *)
(** [std::path] on a Unix system and [String::from_utf8_lossy]: the part of the
    standard library the metainfo and disk crates build paths with.

    A [Path], an [OsStr] and a [str] are their bytes. *)

From stdpp Require Import base numbers list.
From S2P Require Import Prelude RustStd.

Definition SEP : byte := 47.
Definition DOT : byte := 46.

(** * [PathBuf] *)

Definition has_root (p : bytes) : bool := bool_decide (head p = Some SEP).

(** [PathBuf::push]: an absolute argument replaces the path. *)
Definition path_push (self path : bytes) : bytes :=
  if has_root path then path
  else match last self with
       | Some c => if (c =? SEP)%Z then self ++ path else self ++ SEP :: path
       | None => path
       end.

Definition path_join (self path : bytes) : bytes := path_push self path.

(** * [Path::components] and [Path::iter] *)

(** The pieces between separators. *)
Fixpoint split_sep (l : bytes) : list bytes :=
  match l with
  | [] => [[]]
  | c :: l' =>
      if (c =? SEP)%Z then [] :: split_sep l'
      else match split_sep l' with s :: r => (c :: s) :: r | [] => [[c]] end
  end.

Definition is_component (s : bytes) : bool := negb (bool_decide (s = [])) && negb (bool_decide (s = [DOT])).

(** Empty pieces and [.] are skipped, but for a [.] that opens a relative path. *)
Definition path_iter (p : bytes) : list bytes :=
  if has_root p then [SEP] :: List.filter is_component (split_sep p)
  else match split_sep p with
       | s :: r => (if bool_decide (s = [DOT]) then [[DOT]] else []) ++ List.filter is_component (s :: r)
       | [] => []
       end.

(** * [to_string_lossy]

    One step of [Utf8Chunks]: how many bytes the sequence at the front takes,
    and whether it is a scalar value; an invalid sequence ends before the first
    byte that cannot continue it. *)

Definition cont (l : bytes) (i : nat) : bool :=
  match l !! i with Some c => in_range 128 191 c | None => false end.
Definition second (l : bytes) (lo hi : Z) : bool :=
  match l !! 1 with Some c => in_range lo hi c | None => false end.

Definition utf8_step (l : bytes) : bool * nat :=
  match l with
  | [] => (true, 0)
  | a :: _ =>
      if in_range 0 127 a then (true, 1)
      else if in_range 194 223 a then (if cont l 1 then (true, 2) else (false, 1))
      else if in_range 224 239 a then
        if negb (if (a =? 224)%Z then second l 160 191 else if (a =? 237)%Z then second l 128 159 else second l 128 191)
        then (false, 1)
        else if cont l 2 then (true, 3) else (false, 2)
      else if in_range 240 244 a then
        if negb (if (a =? 240)%Z then second l 144 191 else if (a =? 244)%Z then second l 128 143 else second l 128 191)
        then (false, 1)
        else if negb (cont l 2) then (false, 2)
        else if cont l 3 then (true, 4) else (false, 3)
      else (false, 1)
  end.

(** U+FFFD *)
Definition REPLACEMENT : bytes := [239; 191; 189]%Z.

Fixpoint lossy_fuel (fuel : nat) (l : bytes) : bytes :=
  match fuel with
  | O => []
  | S fuel =>
      match l with
      | [] => []
      | _ => let '(ok, n) := utf8_step l in
             (if ok then take n l else REPLACEMENT) ++ lossy_fuel fuel (drop n l)
      end
  end.

(** Every step takes a byte. *)
Definition to_string_lossy (l : bytes) : bytes := lossy_fuel (length l) l.

(** * Facts *)

Lemma utf8_step_progress l : l ≠ [] → 1 ≤ (utf8_step l).2.
Proof. destruct l as [|a l]; [done|]. intros _. unfold utf8_step. repeat case_match; simpl; lia. Qed.

Lemma utf8_valid_step l : l ≠ [] → utf8_valid l = true →
  (utf8_step l).1 = true ∧ utf8_valid (drop (utf8_step l).2 l) = true.
Proof.
  destruct l as [|a l1]; [done|]. intros _ H. cbn [utf8_valid] in H. unfold utf8_step, cont, second.
  destruct (in_range 0 127 a); [by destruct l1|].
  destruct l1 as [|c l2]; [done|]. cbn [lookup list_lookup].
  destruct (in_range 194 223 a); [by apply andb_prop in H as [-> H]|].
  destruct l2 as [|d l3]; [done|]. cbn [lookup list_lookup].
  destruct (in_range 224 239 a).
  - apply andb_prop in H as [H Hv]. apply andb_prop in H as [Hc Hd].
    destruct (a =? 224)%Z; [|destruct (a =? 237)%Z]; rewrite Hc, Hd; by split.
  - destruct l3 as [|e l4]; [done|]. cbn [lookup list_lookup].
    apply andb_prop in H as [H Hv]. apply andb_prop in H as [H He]. apply andb_prop in H as [H Hd].
    apply andb_prop in H as [Ha Hc]. rewrite Ha.
    destruct (a =? 240)%Z; [|destruct (a =? 244)%Z]; rewrite Hc, Hd, He; by split.
Qed.

Lemma lossy_valid fuel l : length l ≤ fuel → utf8_valid l = true → lossy_fuel fuel l = l.
Proof.
  revert l. induction fuel as [|fuel IH]; intros l Hl Hv; [by destruct l; simpl in *; [|lia]|].
  destruct (decide (l = [])) as [->|Hn]; [done|].
  destruct (utf8_valid_step l Hn Hv) as [H1 H2]. pose proof (utf8_step_progress l Hn) as Hp.
  cbn [lossy_fuel]. destruct l as [|a l]; [done|]. destruct (utf8_step (a :: l)) as [ok n]. simpl in H1, H2, Hp. subst ok.
  rewrite IH; [by rewrite take_drop|rewrite length_drop; simpl in *; lia|done].
Qed.

(** Valid text is not changed. *)
Lemma to_string_lossy_valid l : utf8_valid l = true → to_string_lossy l = l.
Proof. by apply lossy_valid. Qed.

(** A clean component: not empty, not [.], without a separator. *)
Definition clean (s : bytes) : Prop := s ≠ [] ∧ s ≠ [DOT] ∧ SEP ∉ s.
#[export] Instance clean_dec s : Decision (clean s).
Proof. unfold clean. apply _. Defined.

Lemma has_root_clean s : SEP ∉ s → has_root s = false.
Proof.
  intros H. unfold has_root. apply bool_decide_eq_false. destruct s as [|c s]; [done|]. simpl.
  intros [= ->]. apply H. left.
Qed.

Lemma split_sep_clean s : SEP ∉ s → split_sep s = [s].
Proof.
  induction s as [|c s IH]; [done|]. intros H. apply not_elem_of_cons in H as [Hc H]. cbn [split_sep].
  rewrite IH by done. destruct (Z.eqb_spec c SEP); [by subst|done].
Qed.

Lemma split_sep_app s l : SEP ∉ s → split_sep (s ++ SEP :: l) = s :: split_sep l.
Proof.
  induction s as [|c s IH]; intros H; [done|]. apply not_elem_of_cons in H as [Hc H]. cbn [split_sep app].
  rewrite IH by done. destruct (Z.eqb_spec c SEP); [by subst|done].
Qed.

(** Components joined by separators: what pushing them in order builds. *)
Fixpoint join_sep (cs : list bytes) : bytes :=
  match cs with [] => [] | [s] => s | s :: cs => s ++ SEP :: join_sep cs end.

Lemma join_sep_last cs : Forall clean cs → cs ≠ [] → ∃ c, last (join_sep cs) = Some c ∧ c ≠ SEP.
Proof.
  induction 1 as [|s cs (Hn & _ & Hs) Hcs IH]; [done|]. intros _. destruct cs as [|t cs].
  - simpl. destruct s as [|c s] using rev_ind; [done|]. rewrite last_snoc. exists c. split; [done|].
    intros ->. apply Hs. apply elem_of_app. right. left.
  - destruct IH as (c & Hc & ?); [done|]. exists c. split; [|done].
    change (join_sep (s :: t :: cs)) with (s ++ SEP :: join_sep (t :: cs)).
    rewrite last_app, last_cons, Hc. done.
Qed.

Lemma join_sep_snoc cs s : cs ≠ [] → join_sep (cs ++ [s]) = join_sep cs ++ SEP :: s.
Proof.
  induction cs as [|t cs IH]; [done|]. intros _. destruct cs as [|u cs]; [done|].
  change (join_sep ((t :: u :: cs) ++ [s])) with (t ++ SEP :: join_sep ((u :: cs) ++ [s])).
  rewrite IH by done. change (join_sep (t :: u :: cs)) with (t ++ SEP :: join_sep (u :: cs)).
  by rewrite <- app_assoc.
Qed.

Lemma push_all_clean cs : Forall clean cs → foldl path_push [] cs = join_sep cs.
Proof.
  induction cs as [|s cs IH] using rev_ind; [done|]. intros H. apply Forall_app in H as [Hcs Hs].
  apply Forall_singleton in Hs as (Hn & _ & Hs). rewrite foldl_app. simpl. rewrite IH by done.
  unfold path_push. rewrite has_root_clean by done.
  destruct (decide (cs = [])) as [->|Hne]; [done|].
  destruct (join_sep_last cs Hcs Hne) as (c & -> & Hc). rewrite join_sep_snoc by done.
  by destruct (Z.eqb_spec c SEP).
Qed.

Lemma split_join cs : Forall clean cs → cs ≠ [] → split_sep (join_sep cs) = cs.
Proof.
  induction 1 as [|s cs (_ & _ & Hs) Hcs IH]; [done|]. intros _. destruct cs as [|t cs]; [by apply split_sep_clean|].
  change (join_sep (s :: t :: cs)) with (s ++ SEP :: join_sep (t :: cs)).
  rewrite split_sep_app by done. by rewrite IH.
Qed.

Lemma filter_clean cs : Forall clean cs → List.filter is_component cs = cs.
Proof.
  induction 1 as [|s cs (Hn & Hd & _) _ IH]; [done|]. cbn [List.filter].
  unfold is_component at 1. rewrite !bool_decide_eq_false_2 by done. simpl. by rewrite IH.
Qed.

(** Clean components are read back from the path they were pushed onto. *)
Lemma path_iter_join cs : Forall clean cs → cs ≠ [] → path_iter (join_sep cs) = cs.
Proof.
  intros Hcs Hne. unfold path_iter. rewrite split_join by done.
  assert (has_root (join_sep cs) = false) as ->.
  { destruct Hcs as [|s cs (Hn & _ & Hs) Hcs]; [done|]. unfold has_root. apply bool_decide_eq_false.
    destruct s as [|c s]; [done|]. apply not_elem_of_cons in Hs as [? _].
    destruct cs; simpl; intros [= ->]; done. }
  destruct cs as [|s cs]; [done|]. rewrite filter_clean by done.
  apply Forall_cons in Hcs as [(_ & Hd & _) _]. by rewrite bool_decide_eq_false_2 by done.
Qed.
