(* ===== verification/Metainfo.v ===== *)
(** packages/metainfo: parse.rs, error.rs, iter.rs, accessor.rs and the reading
    half of metainfo.rs, the contents of a torrent file taken from its bencoded
    form.

    A [PathBuf] or a [str] is its bytes ([Path.v]).  [u64] values are [Z]; a
    conversion [try_into().unwrap()] panics out of range.  The file system and
    the [walkdir] crate are the interface [OsFiles]. *)

From stdpp Require Import base numbers strings list.
From S2P Require Import Prelude RustStd Extern Io Sha Path Bencode.

(** * Errors (error.rs) *)

Inductive ParseError :=
  | PE_Io (e : io_error)
  | PE_Dir (e : io_error)
  | PE_BencodeConvert (e : BencodeConvertError)
  | PE_BencodeParse (e : BencodeParseError)
  | PE_MissingData (len : nat).

(** [.ok()] on a look-up, which never panics. *)
Definition lookup_ok {E A} (r : res E A) : option A := match r with Ok a => Some a | _ => None end.

(** [len.try_into().unwrap()] from [i64] to [u64] *)
Definition u64_of_i64 {E} (n : Z) : res E Z := if (0 <=? n)%Z then Ok n else Panic UnwrapNone.

(** * Keys (parse.rs) *)

Definition ROOT_ERROR_KEY : bytes := bstr "root".
Definition ANNOUNCE_LIST_KEY : bytes := bstr "announce-list".
Definition ANNOUNCE_URL_KEY : bytes := bstr "announce".
Definition CREATION_DATE_KEY : bytes := bstr "creation date".
Definition COMMENT_KEY : bytes := bstr "comment".
Definition CREATED_BY_KEY : bytes := bstr "created by".
Definition ENCODING_KEY : bytes := bstr "encoding".
Definition INFO_KEY : bytes := bstr "info".
Definition PIECE_LENGTH_KEY : bytes := bstr "piece length".
Definition PIECES_KEY : bytes := bstr "pieces".
Definition PRIVATE_KEY : bytes := bstr "private".
Definition NAME_KEY : bytes := bstr "name".
Definition FILES_KEY : bytes := bstr "files".
Definition LENGTH_KEY : bytes := bstr "length".
Definition MD5SUM_KEY : bytes := bstr "md5sum".
Definition PATH_KEY : bytes := bstr "path".

(** * Fields (parse.rs), on any form of a bencoded value *)

Section Parse.
Context {B : Type} `{!BRefAccess B}.
Implicit Types d : list (bytes * B).

(** [MetainfoConverter::handle_error] *)
Definition CONVERT (e : BencodeConvertError) : ParseError := PE_BencodeConvert e.

Definition parse_root_dict (root_bencode : B) : res ParseError (list (bytes * B)) :=
  convert_dict CONVERT root_bencode ROOT_ERROR_KEY.
Definition parse_announce_list d : option (list B) := lookup_ok (lookup_and_convert_list CONVERT d ANNOUNCE_LIST_KEY).
Definition convert_announce_list (l : list B) : list (list bytes) :=
  (λ entry, omap ben_str entry) <$> omap ben_list_of l.
Definition parse_announce_url d : option bytes := lookup_ok (lookup_and_convert_str CONVERT d ANNOUNCE_URL_KEY).
Definition parse_creation_date d : option Z := lookup_ok (lookup_and_convert_int CONVERT d CREATION_DATE_KEY).
Definition parse_comment d : option bytes := lookup_ok (lookup_and_convert_str CONVERT d COMMENT_KEY).
Definition parse_created_by d : option bytes := lookup_ok (lookup_and_convert_str CONVERT d CREATED_BY_KEY).
Definition parse_encoding d : option bytes := lookup_ok (lookup_and_convert_str CONVERT d ENCODING_KEY).
Definition parse_info_bencode d : res ParseError B := Bencode.lookup CONVERT d INFO_KEY.

Definition parse_piece_length d : res ParseError Z :=
  len ← lookup_and_convert_int CONVERT d PIECE_LENGTH_KEY; u64_of_i64 len.
Definition parse_pieces d : res ParseError bytes := lookup_and_convert_bytes CONVERT d PIECES_KEY.
Definition parse_private d : option bool :=
  (λ p, (p =? 1)%Z) <$> lookup_ok (lookup_and_convert_int CONVERT d PRIVATE_KEY).
Definition parse_name d : res ParseError bytes := lookup_and_convert_str CONVERT d NAME_KEY.
Definition parse_files_list d : res ParseError (list B) := lookup_and_convert_list CONVERT d FILES_KEY.

Definition parse_file_dict (file_bencode : B) : res ParseError (list (bytes * B)) :=
  convert_dict CONVERT file_bencode FILES_KEY.
Definition parse_length d : res ParseError Z :=
  len ← lookup_and_convert_int CONVERT d LENGTH_KEY; u64_of_i64 len.
Definition parse_md5sum d : option bytes := lookup_ok (lookup_and_convert_bytes CONVERT d MD5SUM_KEY).
Definition parse_path_list d : res ParseError (list B) := lookup_and_convert_list CONVERT d PATH_KEY.
Definition parse_path_str (path_bencode : B) : res ParseError bytes := convert_str CONVERT path_bencode PATH_KEY.
End Parse.

(** * Files (metainfo.rs) *)

Record File := { f_len : Z; f_path : bytes; f_md5sum : option bytes }.

Section Files.
Context {B : Type} `{!BRefAccess B}.
Implicit Types d : list (bytes * B).

Definition as_single_file d : res ParseError File :=
  length ← parse_length d;
  let md5sum := parse_md5sum d in
  name ← parse_name d;
  Ok {| f_len := length; f_path := name; f_md5sum := md5sum |}.

(** The loop that pushes the path elements. *)
Fixpoint push_path_list (path_buf : bytes) (path_list : list B) : res ParseError bytes :=
  match path_list with
  | [] => Ok path_buf
  | path_bencode :: path_list =>
      path ← parse_path_str path_bencode;
      push_path_list (path_push path_buf path) path_list
  end.

Definition as_multi_file d : res ParseError File :=
  length ← parse_length d;
  let md5sum := parse_md5sum d in
  path_list_bencode ← parse_path_list d;
  path_buf ← push_path_list [] path_list_bencode;
  Ok {| f_len := length; f_path := path_buf; f_md5sum := md5sum |}.

(** [parse_length(info_dict).is_err()] *)
Definition is_multi_file_torrent d : res ParseError bool :=
  match parse_length d with
  | Ok _ => Ok false
  | Err _ => Ok true
  | Panic f => Panic f
  end.
End Files.

(** * [Info] (metainfo.rs) *)

Record Info := {
  i_info_hash : ShaHash;
  i_files : list File;
  i_pieces : list bytes;
  i_piece_len : Z;
  i_is_private : option bool;
  i_file_directory : option bytes
}.

(** [for (src, dst) in chunk.iter().zip(hash_bytes.iter_mut()) { *dst = *src }] *)
Definition copy_zip (chunk hash_bytes : bytes) : bytes :=
  take (length hash_bytes) chunk ++ drop (length chunk) hash_bytes.

(** [hash_bytes] is reused from one chunk to the next. *)
Fixpoint copy_chunks (hash_bytes : bytes) (l : list bytes) : list bytes :=
  match l with
  | [] => []
  | chunk :: l => let hash_bytes := copy_zip chunk hash_bytes in hash_bytes :: copy_chunks hash_bytes l
  end.

Definition allocate_pieces (pieces : bytes) : res ParseError (list bytes) :=
  if length pieces mod SHA_HASH_LEN =? 0
  then Ok (copy_chunks (replicate SHA_HASH_LEN 0%Z) (chunks SHA_HASH_LEN pieces))
  else Err (PE_MissingData (length pieces)).

Section Info.
Context `{Sha1}.

(** [parse_info_dictionary], for a value whose slice of the input is
    [info_buffer]. *)
Section Dictionary.
Context {B : Type} `{!BRefAccess B}.

Definition parse_file (file_bencode : B) : res ParseError File :=
  file_dict ← parse_file_dict file_bencode;
  as_multi_file file_dict.

Definition parse_info_value (info_buffer : bytes) (info_bencode : B) : res ParseError Info :=
  let info_hash := ShaHash_from_bytes info_buffer in
  info_dict ← parse_root_dict info_bencode;
  piece_len ← parse_piece_length info_dict;
  let is_private := parse_private info_dict in
  pieces ← parse_pieces info_dict;
  piece_buffers ← allocate_pieces pieces;
  multi ← is_multi_file_torrent info_dict;
  if (multi : bool) then
    file_directory ← parse_name info_dict;
    let file_directory_path := path_push [] file_directory in
    files_bencode ← parse_files_list info_dict;
    files_list ← mapM parse_file files_bencode;
    Ok {| i_info_hash := info_hash; i_files := files_list; i_pieces := piece_buffers; i_piece_len := piece_len;
          i_is_private := is_private; i_file_directory := Some file_directory_path |}
  else
    file ← as_single_file info_dict;
    Ok {| i_info_hash := info_hash; i_files := [file]; i_pieces := piece_buffers; i_piece_len := piece_len;
          i_is_private := is_private; i_file_directory := None |}.
End Dictionary.

Definition parse_info_dictionary (info_bencode : BencodeRef) : res ParseError Info :=
  parse_info_value (buffer info_bencode) info_bencode.

Definition parse_info_bytes (l : bytes) : res ParseError Info :=
  info_bencode ← res_map_err PE_BencodeParse (BencodeRef_decode l BDecodeOpt_default);
  parse_info_dictionary info_bencode.

Definition Info_from_bytes (l : bytes) : res ParseError Info := parse_info_bytes l.
End Info.

(** * [Metainfo] (metainfo.rs) *)

Record Metainfo := {
  m_comment : option bytes;
  m_announce : option bytes;
  m_announce_list : option (list (list bytes));
  m_encoding : option bytes;
  m_created_by : option bytes;
  m_creation_date : option Z;
  m_info : Info
}.

Definition Metainfo_new (info : Info) : Metainfo :=
  {| m_comment := None; m_announce := None; m_announce_list := None; m_encoding := None;
     m_created_by := None; m_creation_date := None; m_info := info |}.

Definition Metainfo_from (info : Info) : Metainfo :=
  {| m_comment := None; m_announce := None; m_announce_list := None; m_encoding := None;
     m_created_by := None; m_creation_date := None; m_info := info |}.

Section Metainfo.
Context `{Sha1}.

Definition parse_meta_bytes (l : bytes) : res ParseError Metainfo :=
  root_bencode ← res_map_err PE_BencodeParse (BencodeRef_decode l BDecodeOpt_default);
  root_dict ← parse_root_dict root_bencode;
  let announce := parse_announce_url root_dict in
  let opt_announce_list := convert_announce_list <$> parse_announce_list root_dict in
  let opt_comment := parse_comment root_dict in
  let opt_encoding := parse_encoding root_dict in
  let opt_created_by := parse_created_by root_dict in
  let opt_creation_date := parse_creation_date root_dict in
  info_bencode ← parse_info_bencode root_dict;
  info ← parse_info_dictionary info_bencode;
  Ok {| m_comment := opt_comment; m_announce := announce; m_announce_list := opt_announce_list;
        m_encoding := opt_encoding; m_created_by := opt_created_by; m_creation_date := opt_creation_date;
        m_info := info |}.

Definition Metainfo_from_bytes (l : bytes) : res ParseError Metainfo := parse_meta_bytes l.
End Metainfo.

(** * Iterators (iter.rs) *)

Record Files := { fi_index : nat; fi_files : list File }.
Definition Files_new (files : list File) : Files := {| fi_index := 0; fi_files := files |}.
Definition Files_next (self : Files) : option File * Files :=
  match fi_files self !! fi_index self with
  | Some file => (Some file, {| fi_index := fi_index self + 1; fi_files := fi_files self |})
  | None => (None, self)
  end.

Record Pieces := { pi_index : nat; pi_pieces : list bytes }.
Definition Pieces_new (pieces : list bytes) : Pieces := {| pi_index := 0; pi_pieces := pieces |}.
Definition Pieces_next (self : Pieces) : option bytes * Pieces :=
  match pi_pieces self !! pi_index self with
  | Some h => (Some h, {| pi_index := pi_index self + 1; pi_pieces := pi_pieces self |})
  | None => (None, self)
  end.

(** A [for] loop over an iterator; [None] when [fuel] items are not enough. *)
Fixpoint drain {S A} (next : S → option A * S) (fuel : nat) (it : S) : option (list A) :=
  match fuel with
  | O => None
  | S fuel =>
      match next it with
      | (None, _) => Some []
      | (Some a, it) => cons a <$> drain next fuel it
      end
  end.

Definition files (self : Info) : Files := Files_new (i_files self).
Definition pieces (self : Info) : Pieces := Pieces_new (i_pieces self).
Definition files_of (self : Info) : option (list File) := drain Files_next (S (length (i_files self))) (files self).
Definition pieces_of (self : Info) : option (list bytes) := drain Pieces_next (S (length (i_pieces self))) (pieces self).

Lemma drain_step {S A} (next : S → option A * S) fuel it :
  drain next (Datatypes.S fuel) it = match next it with (None, _) => Some [] | (Some a, it) => cons a <$> drain next fuel it end.
Proof. done. Qed.

Lemma drain_files l i : i ≤ length l →
  drain Files_next (S (length l - i)) {| fi_index := i; fi_files := l |} = Some (drop i l).
Proof.
  intros Hi. remember (length l - i) as k eqn:Hk. revert i Hi Hk. induction k as [|k IH]; intros i Hi Hk.
  - cbn [drain]. unfold Files_next. simpl. rewrite lookup_ge_None_2 by lia. by rewrite drop_ge by lia.
  - rewrite drain_step. unfold Files_next at 1. simpl fi_index. simpl fi_files. simpl pi_index. simpl pi_pieces.
    destruct (l !! i) as [x|] eqn:Hx; [|apply lookup_ge_None in Hx; lia].
    rewrite Nat.add_1_r, IH by lia. by rewrite (drop_S l x i).
Qed.

Lemma files_of_all i : files_of i = Some (i_files i).
Proof. unfold files_of. pose proof (drain_files (i_files i) 0) as H. rewrite Nat.sub_0_r in H. apply H. lia. Qed.

Lemma drain_pieces l i : i ≤ length l →
  drain Pieces_next (S (length l - i)) {| pi_index := i; pi_pieces := l |} = Some (drop i l).
Proof.
  intros Hi. remember (length l - i) as k eqn:Hk. revert i Hi Hk. induction k as [|k IH]; intros i Hi Hk.
  - cbn [drain]. unfold Pieces_next. simpl. rewrite lookup_ge_None_2 by lia. by rewrite drop_ge by lia.
  - rewrite drain_step. unfold Pieces_next at 1. simpl fi_index. simpl fi_files. simpl pi_index. simpl pi_pieces.
    destruct (l !! i) as [x|] eqn:Hx; [|apply lookup_ge_None in Hx; lia].
    rewrite Nat.add_1_r, IH by lia. by rewrite (drop_S l x i).
Qed.

Lemma pieces_of_all i : pieces_of i = Some (i_pieces i).
Proof. unfold pieces_of. pose proof (drain_pieces (i_pieces i) 0) as H. rewrite Nat.sub_0_r in H. apply H. lia. Qed.

(** * Accessors (accessor.rs)

    A [Read] is the results of its successive reads: a non-empty piece of data,
    cut when the caller's buffer is smaller, or an error; past the last one it
    is at its end. *)

Inductive ReadEvent := Data (l : bytes) | Fail (e : io_error).
Definition Region : Type := list ReadEvent.

Definition region_read (cap : nat) (r : Region) : res io_error bytes * Region :=
  match r with
  | [] => (Ok [], [])
  | Fail e :: r => (Err e, r)
  | Data l :: r => if length l <=? cap then (Ok l, r) else (Ok (take cap l), Data (drop cap l) :: r)
  end.

(** [Cursor::new(contents)] gives all it has. *)
Definition cursor (contents : bytes) : Region := match contents with [] => [] | _ => [Data contents] end.

Inductive PieceAccess := Compute (r : Region) | PreComputed (h : ShaHash).

(** What an accessor does: the callbacks it makes, in order, and its result when
    no callback fails; a callback that fails ends it with that error. *)
Class Accessor (A : Type) := {
  access_directory : A → option bytes;
  access_metadata : A → list (Z * bytes) * res io_error ();
  access_pieces : A → list PieceAccess * res io_error ()
}.

(** [ShaHash::from_hash(piece).unwrap()] for each piece. *)
Fixpoint precomputed (l : list bytes) : list PieceAccess * res io_error () :=
  match l with
  | [] => ([], Ok ())
  | piece :: l =>
      match ShaHash_from_hash piece with
      | Ok h => let '(acc, r) := precomputed l in (PreComputed h :: acc, r)
      | _ => ([], Panic UnwrapNone)
      end
  end.

#[export] Instance Info_accessor : Accessor Info := {
  access_directory self := i_file_directory self;
  access_metadata self := match files_of self with
                          | Some fs => ((λ f, (f_len f, f_path f)) <$> fs, Ok ())
                          | None => ([], Panic OutOfFuel)
                          end;
  access_pieces self := match pieces_of self with
                        | Some ps => precomputed ps
                        | None => ([], Panic OutOfFuel)
                        end
}.

Record DirectAccessor := { da_file_name : bytes; da_file_contents : bytes }.
Definition DirectAccessor_new (file_name file_contents : bytes) : DirectAccessor :=
  {| da_file_name := file_name; da_file_contents := file_contents |}.

#[export] Instance DirectAccessor_accessor : Accessor DirectAccessor := {
  access_directory _ := None;
  access_metadata self := ([(Z.of_nat (length (da_file_contents self)), da_file_name self)], Ok ());
  access_pieces self := ([Compute (cursor (da_file_contents self))], Ok ())
}.

(** The operating system and the [walkdir] crate: the walk of a directory yields
    entries and errors in the walk's order. *)
Record DirEntry := { de_path : bytes; de_is_file : bool; de_len : res io_error Z; de_open : res io_error Region }.
Class OsFiles := {
  canonicalize : bytes → res io_error bytes;
  is_dir : bytes → bool;
  walk_dir : bytes → list (res io_error DirEntry)
}.

Record FileAccessor := { fa_absolute_path : bytes; fa_directory_name : option bytes }.

Section FileAccessor.
Context `{OsFiles}.

Definition FileAccessor_new (path : bytes) : res io_error FileAccessor :=
  absolute_path ← canonicalize path;
  directory_name ←
    (if is_dir absolute_path then dir_name ← unwrap (last (path_iter absolute_path)); Ok (Some dir_name) else Ok None);
  Ok {| fa_absolute_path := absolute_path; fa_directory_name := directory_name |}.

Definition entry_file_filter (res_entry : res io_error DirEntry) : bool :=
  match res_entry with Ok f => de_is_file f | _ => true end.

Definition relative_path (num_skip_paths : nat) (p : bytes) : bytes :=
  foldl path_push [] (drop num_skip_paths (path_iter p)).

(** The loop over the entries, which ends at the first error. *)
Fixpoint walk_entries {A} (k : DirEntry → res io_error A) (l : list (res io_error DirEntry)) : list A * res io_error () :=
  match l with
  | [] => ([], Ok ())
  | res_entry :: l =>
      match (entry ← res_entry; k entry) with
      | Ok a => let '(acc, r) := walk_entries k l in (a :: acc, r)
      | Err e => ([], Err e)
      | Panic f => ([], Panic f)
      end
  end.

Definition file_entries (self : FileAccessor) : list (res io_error DirEntry) :=
  List.filter entry_file_filter (walk_dir (fa_absolute_path self)).

Definition FileAccessor_access_metadata (self : FileAccessor) : list (Z * bytes) * res io_error () :=
  let count := length (path_iter (fa_absolute_path self)) in
  let walk num_skip_paths :=
    walk_entries (λ entry, file_length ← de_len entry; Ok (file_length, relative_path num_skip_paths (de_path entry)))
      (file_entries self) in
  match fa_directory_name self with
  | Some _ => walk count
  | None => if count =? 0 then ([], Panic ArithOverflow) else walk (count - 1)
  end.

Definition FileAccessor_access_pieces (self : FileAccessor) : list PieceAccess * res io_error () :=
  walk_entries (λ entry, file ← de_open entry; Ok (Compute file)) (file_entries self).

#[export] Instance FileAccessor_accessor : Accessor FileAccessor := {
  access_directory self := fa_directory_name self;
  access_metadata := FileAccessor_access_metadata;
  access_pieces := FileAccessor_access_pieces
}.
End FileAccessor.
