(* ===== verification/Float.v ===== *)
(** The [f64] arithmetic the metainfo builder uses: IEEE 754 binary64 with
    rounding to nearest even, as the Standard Library specifies it
    ([SpecFloat]), the conversions from and to integers, and bounds on the
    results. *)

From Stdlib Require Import SpecFloat.
From stdpp Require Import base numbers list.
From S2P Require Import Prelude.
Local Open Scope Z_scope.

Definition f64 : Type := spec_float.
Definition prec64 : Z := 53.
Definition emax64 : Z := 1024.

(** [n as f64] *)
Definition f64_of (n : Z) : f64 := binary_normalize prec64 emax64 n 0 false.
Definition f64_div (x y : f64) : f64 := SFdiv prec64 emax64 x y.
Definition f64_add (x y : f64) : f64 := SFadd prec64 emax64 x y.
Definition f64_leb (x y : f64) : bool := SFleb x y.
Definition f64_half : f64 := f64_div (f64_of 1) (f64_of 2).

Definition f64_in (lo hi x : f64) : bool := f64_leb lo x && f64_leb x hi.

Definition clamp (lo hi x : Z) : Z := Z.max lo (Z.min hi x).

(** [x as u64]: toward zero, saturating; NaN is 0. *)
Definition f64_trunc (x : f64) : Z :=
  match x with
  | S754_finite s m e =>
      let a := if 0 <=? e then Z.pos m * 2 ^ e else Z.pos m / 2 ^ (- e) in if s then - a else a
  | _ => 0
  end.
Definition f64_as_u64 (x : f64) : Z :=
  match x with
  | S754_infinity s => if s then 0 else u64_max
  | _ => clamp 0 u64_max (f64_trunc x)
  end.

(** [x.ceil() as i64] *)
Definition f64_ceil (x : f64) : Z :=
  match x with
  | S754_finite s m e =>
      if 0 <=? e then (if s then - (Z.pos m * 2 ^ e) else Z.pos m * 2 ^ e)
      else if s then - (Z.pos m / 2 ^ (- e)) else - ((- Z.pos m) / 2 ^ (- e))
  | _ => 0
  end.
Definition f64_ceil_as_i64 (x : f64) : Z :=
  match x with
  | S754_infinity s => if s then i64_min else i64_max
  | _ => clamp i64_min i64_max (f64_ceil x)
  end.

(** [u64::next_power_of_two], with the overflow check of a debug build. *)
Definition next_power_of_two {E} (n : Z) : res E Z :=
  let p := if n <=? 1 then 1 else 2 ^ Z.log2_up n in
  if p <=? u64_max then Ok p else Panic ArithOverflow.

(** * Bounds on the results

    [at_most k x]: [x] is a number between zero and [2^k].  Exponents are
    shifted by [bias] so that the powers stay integers. *)

Definition bias : Z := 4000.

Lemma bias_eq : bias = 4000.
Proof. reflexivity. Qed.
Opaque bias.
Ltac blia := pose proof bias_eq; lia.

Definition at_most (k : Z) (x : f64) : Prop :=
  match x with
  | S754_zero false => True
  | S754_finite false m e => -1074 ≤ e ≤ k - 52 ∧ Z.pos m * 2 ^ (e + bias) ≤ 2 ^ (k + bias)
  | _ => False
  end.

Lemma fexp64 e : fexp prec64 emax64 e = Z.max (e - 53) (-1074).
Proof. reflexivity. Qed.

Lemma digits2_bounds m : 2 ^ (Z.pos (digits2_pos m) - 1) ≤ Z.pos m < 2 ^ Z.pos (digits2_pos m).
Proof.
  induction m as [m IH|m IH|]; cbn [digits2_pos]; [| |simpl; lia]; rewrite Pos2Z.inj_succ;
    (replace (Z.succ (Z.pos (digits2_pos m)) - 1) with (Z.succ (Z.pos (digits2_pos m) - 1)) by blia);
    rewrite !Z.pow_succ_r by blia; lia.
Qed.

Lemma zdigits_bound m k : 0 ≤ m → 0 ≤ k → m ≤ 2 ^ k → 0 ≤ Zdigits2 m ≤ k + 1.
Proof.
  intros Hm Hk H. destruct m as [|m|m]; [simpl; lia| |blia]. cbn [Zdigits2].
  destruct (digits2_bounds m) as [H1 _].
  assert (2 ^ (Z.pos (digits2_pos m) - 1) ≤ 2 ^ k) as Hle by blia.
  apply Z.pow_le_mono_r_iff in Hle; lia.
Qed.

(** The record of a shift bounds the value: exactly when no bit was lost, and
    strictly otherwise. *)
Definition below (k : Z) (s : shr_record) (e : Z) : Prop :=
  0 ≤ shr_m s ∧ shr_m s * 2 ^ (e + bias) ≤ 2 ^ (k + bias) ∧
  (shr_r s || shr_s s = true → shr_m s * 2 ^ (e + bias) < 2 ^ (k + bias)).

Lemma below_shr_1 k s e : 0 ≤ e + bias → below k s e → below k (shr_1 s) (e + 1).
Proof.
  intros He (H0 & H1 & H2). destruct s as [m r f]. simpl in H0, H1, H2. unfold below.
  replace (e + 1 + bias) with (Z.succ (e + bias)) by blia. rewrite Z.pow_succ_r by blia.
  pose proof (Z.pow_pos_nonneg 2 (e + bias) ltac:(lia) He) as Hp.
  set (P := 2 ^ (e + bias)) in *. set (X := 2 ^ (k + bias)) in *.
  assert (0 ≤ X) by (apply Z.pow_nonneg; lia).
  destruct m as [|[p|p|]|p]; [..|blia]; simpl shr_m in *; simpl shr_r in *; simpl shr_s in *.
  - split; [blia|]. split; [blia|]. intros Hf. specialize (H2 Hf). lia.
  - rewrite Pos2Z.inj_xI in *. split; [blia|]. split; [nia|]. intros _. nia.
  - rewrite Pos2Z.inj_xO in *. split; [blia|]. split; [nia|]. intros Hf. specialize (H2 Hf). nia.
  - split; [blia|]. split; [blia|]. intros _. nia.
Qed.

Lemma below_shr k p s e : 0 ≤ e + bias → below k s e → below k (SpecFloat.iter_pos shr_1 p s) (e + Z.pos p).
Proof.
  revert s e. induction p as [p IH|p IH|]; intros s e He Hs; cbn [SpecFloat.iter_pos].
  - replace (e + Z.pos p~1) with (e + 1 + Z.pos p + Z.pos p) by blia.
    apply IH; [blia|]. apply IH; [blia|]. by apply below_shr_1.
  - replace (e + Z.pos p~0) with (e + Z.pos p + Z.pos p) by blia. apply IH; [blia|]. by apply IH.
  - by apply below_shr_1.
Qed.

Lemma below_shr_fexp k m e l : 0 ≤ e + bias → below k (shr_record_of_loc m l) e →
  below k (shr_fexp prec64 emax64 m e l).1 (shr_fexp prec64 emax64 m e l).2 ∧
  (shr_fexp prec64 emax64 m e l).2 = Z.max e (Z.max (Zdigits2 m + e - 53) (-1074)).
Proof.
  intros He Hb. unfold shr_fexp, shr. rewrite fexp64.
  destruct (Z.max (Zdigits2 m + e - 53) (-1074) - e) as [|p|p] eqn:Hd; simpl; [split; [done|blia]| |split; [done|blia]].
  split; [|blia]. rewrite <- Hd. replace (e + _) with (e + Z.pos p) by blia. by apply below_shr.
Qed.

Lemma below_round k s e : 0 ≤ e + bias → e ≤ k → below k s e →
  0 ≤ round_nearest_even (shr_m s) (loc_of_shr_record s) ∧
  round_nearest_even (shr_m s) (loc_of_shr_record s) * 2 ^ (e + bias) ≤ 2 ^ (k + bias).
Proof.
  intros He Hk (H0 & H1 & H2).
  assert (shr_r s || shr_s s = true → (shr_m s + 1) * 2 ^ (e + bias) ≤ 2 ^ (k + bias)) as Hup.
  { intros Hf. specialize (H2 Hf).
    assert (2 ^ (k + bias) = 2 ^ (k - e) * 2 ^ (e + bias)) as E by (rewrite <- Z.pow_add_r by blia; f_equal; lia).
    rewrite E in *. pose proof (Z.pow_pos_nonneg 2 (e + bias) ltac:(lia) He).
    apply Z.mul_le_mono_nonneg_r; [blia|]. apply Z.mul_lt_mono_pos_r in H2; lia. }
  destruct s as [m [] []]; simpl in *; [| |blia|blia]; specialize (Hup eq_refl); [blia|].
  match goal with |- context [if ?b then _ else _] => destruct b end; lia.
Qed.

Lemma digits_of_below k m e : 0 ≤ m → 0 ≤ e + bias → e ≤ k → m * 2 ^ (e + bias) ≤ 2 ^ (k + bias) → 0 ≤ Zdigits2 m ≤ k - e + 1.
Proof.
  intros Hm He Hk H. apply zdigits_bound; [blia|blia|].
  assert (2 ^ (k + bias) = 2 ^ (k - e) * 2 ^ (e + bias)) as E by (rewrite <- Z.pow_add_r by blia; f_equal; lia).
  rewrite E in H. apply Z.mul_le_mono_pos_r in H; [done|]. apply Z.pow_pos_nonneg; lia.
Qed.

(** Rounding a value of at most [2^k] gives at most [2^k]. *)
Lemma round_aux_at_most k mx ex lx : 0 ≤ k ≤ 900 → 0 ≤ ex + bias → ex ≤ k - 52 → 0 ≤ mx →
  below k (shr_record_of_loc mx lx) ex → at_most k (binary_round_aux prec64 emax64 false mx ex lx).
Proof.
  intros Hk He1 He2 Hm Hb. unfold binary_round_aux.
  assert (mx * 2 ^ (ex + bias) ≤ 2 ^ (k + bias)) as Hv.
  { destruct Hb as (_ & H & _). by destruct lx as [|[]]. }
  pose proof (digits_of_below k mx ex Hm He1 ltac:(lia) Hv) as Hd1.
  destruct (below_shr_fexp k mx ex lx He1 Hb) as [Hb1 Hx1].
  destruct (shr_fexp prec64 emax64 mx ex lx) as [s1 e1]. simpl in Hb1, Hx1.
  destruct (below_round k s1 e1) as [HR0 HR]; [blia|blia|done|].
  set (R := round_nearest_even (shr_m s1) (loc_of_shr_record s1)) in *.
  assert (below k (shr_record_of_loc R loc_Exact) e1) as Hb2 by (split; [done|]; split; [done|]; discriminate).
  pose proof (digits_of_below k R e1 HR0 ltac:(lia) ltac:(lia) HR) as Hd2.
  destruct (below_shr_fexp k R e1 loc_Exact ltac:(lia) Hb2) as [(H0 & H1 & _) Hx2].
  destruct (shr_fexp prec64 emax64 R e1 loc_Exact) as [s2 e2]. simpl in H0, H1, Hx2.
  destruct (shr_m s2) as [|m|m]; [done| |blia].
  change (emax64 - prec64) with 971. rewrite (proj2 (Z.leb_le e2 971)) by blia. simpl. lia.
Qed.

Lemma iter_xO m d : Z.pos (Pos.iter xO m d) = Z.pos m * 2 ^ Z.pos d.
Proof.
  induction d as [|d IH] using Pos.peano_ind; [simpl; lia|].
  rewrite Pos.iter_succ, Pos2Z.inj_succ, Z.pow_succ_r by blia. rewrite (Pos2Z.inj_xO (Pos.iter xO m d)), IH. lia.
Qed.

Lemma shl_align_value m e e' :
  let '(m', x) := shl_align m e e' in x = Z.min e e' ∧ Z.pos m' = Z.pos m * 2 ^ (e - x).
Proof.
  unfold shl_align. destruct (e' - e) as [|d|d] eqn:Hd; [|split; [blia|rewrite Z.sub_diag; lia]|].
  - split; [blia|]. rewrite Z.sub_diag. lia.
  - split; [blia|]. rewrite iter_xO. f_equal. f_equal. lia.
Qed.

Lemma binary_round_at_most k m e : 0 ≤ k ≤ 900 → -1074 ≤ e → e ≤ k →
  Z.pos m * 2 ^ (e + bias) ≤ 2 ^ (k + bias) → at_most k (binary_round prec64 emax64 false m e).
Proof.
  intros Hk He1 He2 Hv. unfold binary_round. rewrite fexp64.
  pose proof (digits_of_below k (Z.pos m) e ltac:(lia) ltac:(blia) He2 Hv) as Hd. cbn [Zdigits2] in Hd.
  pose proof (shl_align_value m e (Z.max (Z.pos (digits2_pos m) + e - 53) (-1074))) as Hs.
  destruct (shl_align m e _) as [mz ez]. destruct Hs as [Hez Hmz].
  apply round_aux_at_most; [done|blia|blia|lia|].
  assert (Z.pos mz * 2 ^ (ez + bias) ≤ 2 ^ (k + bias)) as Hle.
  { rewrite Hmz, <- Z.mul_assoc, <- Z.pow_add_r by blia. by replace (e - ez + (ez + bias)) with (e + bias) by blia. }
  split; [simpl; lia|]. split; [exact Hle|discriminate].
Qed.

Lemma f64_of_at_most k n : 52 ≤ k ≤ 900 → 0 ≤ n ≤ 2 ^ k → at_most k (f64_of n).
Proof.
  intros Hk Hn. unfold f64_of, binary_normalize. destruct n as [|m|m]; [done| |blia].
  apply binary_round_at_most; [blia|blia|lia|]. rewrite Z.add_0_l, (Z.pow_add_r 2 k) by blia.
  apply Z.mul_le_mono_nonneg_r; [|blia]. apply Z.pow_nonneg. lia.
Qed.

(** A number of at least [2^j]. *)
Definition at_least (j : Z) (x : f64) : Prop :=
  match x with
  | S754_finite false m e => -1074 ≤ e ≤ 900 ∧ 2 ^ (j + bias) ≤ Z.pos m * 2 ^ (e + bias)
  | _ => False
  end.

Lemma new_location_below k q e m2 r : 0 ≤ q → 0 ≤ r →
  (q * m2 + r) * 2 ^ (e + bias) ≤ m2 * 2 ^ (k + bias) → 0 < m2 → 0 ≤ e + bias →
  below k (shr_record_of_loc q (new_location m2 r)) e.
Proof.
  intros Hq Hr Hv Hm He. pose proof (Z.pow_pos_nonneg 2 (e + bias) ltac:(lia) He) as HP.
  set (P := 2 ^ (e + bias)) in *. set (X := 2 ^ (k + bias)) in *.
  assert (q * P ≤ X) as Hle by nia.
  assert (0 < r → q * P < X) as Hlt by nia.
  assert (new_location m2 r = loc_Exact ∨ 0 < r ∧ ∃ c, new_location m2 r = loc_Inexact c) as [->|(Hr0 & c & ->)].
  { unfold new_location, new_location_even, new_location_odd. change (IntDef.Z.eqb r 0) with (Z.eqb r 0).
    destruct (IntDef.Z.even m2); (destruct (Z.eqb_spec r 0) as [|Hr0]; [by left|right]);
      (split; [blia|]); eexists; reflexivity. }
  - split; [simpl; lia|]. split; [exact Hle|discriminate].
  - specialize (Hlt Hr0). unfold below. fold P X. destruct c; simpl; lia.
Qed.

(** Dividing by at least [2^j] lowers the bound. *)
Lemma f64_div_at_most k j x y : 0 ≤ j ≤ k → k ≤ 900 → at_most k x → at_least j y → at_most (k - j) (f64_div x y).
Proof.
  intros Hj Hk Hx Hy. destruct y as [|[]| |[] m2 e2]; try done.
  destruct x as [[]|[]| |[] m1 e1]; try done.
  destruct Hx as [He1 Hv1], Hy as [He2 Hv2]. unfold f64_div, SFdiv, SFdiv_core_binary. rewrite fexp64.
  assert (e1 ≤ k) as Hek by lia.
  pose proof (digits_of_below k (Z.pos m1) e1 ltac:(lia) ltac:(blia) Hek Hv1) as Hd1.
  assert (1 + j - e2 ≤ Zdigits2 (Z.pos m2)) as Hd2.
  { cbn [Zdigits2]. destruct (digits2_bounds m2) as [_ Hu].
    assert (2 ^ (j + bias) < 2 ^ (Z.pos (digits2_pos m2) + e2 + bias)) as Hlt.
    { eapply Z.le_lt_trans; [exact Hv2|]. rewrite <- Z.add_assoc, (Z.pow_add_r 2 (Z.pos (digits2_pos m2))) by blia.
      apply Z.mul_lt_mono_pos_r; [|done]. apply Z.pow_pos_nonneg; blia. }
    apply Z.pow_lt_mono_r_iff in Hlt; blia. }
  set (e' := Z.min (Z.max (Zdigits2 (Z.pos m1) + e1 - (Zdigits2 (Z.pos m2) + e2) - 53) (-1074)) (e1 - e2)).
  set (s := e1 - e2 - e').
  assert (match s with Z0 => Z.pos m1 | Zpos _ => Z.shiftl (Z.pos m1) s | Zneg _ => 0 end = Z.pos m1 * 2 ^ s) as ->.
  { destruct s as [|p|p] eqn:Hs; [simpl; lia|by apply Z.shiftl_mul_pow2|unfold s in Hs; lia]. }
  pose proof (Z_div_mod (Z.pos m1 * 2 ^ s) (Z.pos m2) ltac:(lia)) as Hdm.
  destruct (Z.div_eucl _ _) as [q r]. destruct Hdm as [Heq Hr].
  assert (0 ≤ s) as Hs by (unfold s; lia).
  assert (0 ≤ q) as Hq.
  { assert (0 ≤ Z.pos m1 * 2 ^ s) as Hm1 by (apply Z.mul_nonneg_nonneg; [lia|apply Z.pow_nonneg; lia]).
    destruct (Z_lt_le_dec q 0); [exfalso|done].
    assert (Z.pos m2 * q ≤ Z.pos m2 * -1) by (apply Z.mul_le_mono_nonneg_l; lia). lia. }
  simpl xorb. apply round_aux_at_most; [lia|unfold e'; blia|unfold e'; blia|done|].
  apply new_location_below; [done|lia| |lia|unfold e'; blia].
  assert (q * Z.pos m2 + r = Z.pos m1 * 2 ^ s) as -> by lia.
  rewrite <- Z.mul_assoc, <- Z.pow_add_r by (unfold e'; blia).
  assert (2 ^ (s + (e' + bias)) * 2 ^ (e2 + bias) = 2 ^ (e1 + bias) * 2 ^ bias) as Hp.
  { rewrite <- !Z.pow_add_r by (unfold s; blia). f_equal. unfold s. lia. }
  assert (2 ^ (k - j + bias) * 2 ^ (j + bias) = 2 ^ (k + bias) * 2 ^ bias) as Hq2.
  { rewrite <- !Z.pow_add_r by blia. f_equal. lia. }
  pose proof (Z.pow_pos_nonneg 2 (e2 + bias) ltac:(lia) ltac:(blia)) as P2.
  apply (Z.mul_le_mono_pos_r _ _ (2 ^ (e2 + bias))); [done|].
  rewrite <- (Z.mul_assoc (Z.pos m1)), Hp.
  transitivity (2 ^ (k + bias) * 2 ^ bias); [rewrite Z.mul_assoc; apply Z.mul_le_mono_nonneg_r; [apply Z.pow_nonneg; lia|done]|].
  rewrite <- Hq2, (Z.mul_comm (Z.pos m2)), <- Z.mul_assoc. apply Z.mul_le_mono_nonneg_l; [apply Z.pow_nonneg; lia|done].
Qed.

Definition f64_zero : f64 := S754_zero false.
(** [i64::MAX] as a literal of type [f64] rounds to [2^63]. *)
Definition f64_i64_max : f64 := f64_of i64_max.

Lemma at_most_in x : at_most 63 x → f64_in f64_zero f64_i64_max x = true.
Proof.
  intros Hx. assert (∃ c, f64_i64_max = S754_finite false c 11 ∧ Z.pos c = 2 ^ 52) as (c & Hm & Hc)
    by (by eexists; split; [reflexivity|]).
  unfold f64_in. rewrite Hm. clear Hm. destruct x as [[]|[]| |[] m e]; try done. destruct Hx as [He Hv].
  unfold f64_leb, SFleb. cbn [SFcompare f64_zero andb].
  change (IntDef.Z.compare e 11) with (Z.compare e 11).
  destruct (Z.compare_spec e 11) as [->|?|?]; [|done|blia].
  rewrite (Z.pow_add_r 2 11), (Z.pow_add_r 2 63), Z.mul_assoc in Hv by blia.
  apply Z.mul_le_mono_pos_r in Hv; [|apply Z.pow_pos_nonneg; blia].
  change (PosDef.Pos.compare_cont Eq m c) with (Pos.compare m c).
  destruct (Pos.compare_spec m c); [done|done|]. lia.
Qed.

Lemma f64_half_eq : f64_half = S754_finite false 4503599627370496 (-53).
Proof. reflexivity. Qed.

(** Adding one half to at most [2^k]. *)
Lemma f64_add_half_at_most k x : 0 ≤ k ≤ 800 → at_most k x → at_most (k + 1) (f64_add x f64_half).
Proof.
  intros Hk Hx. rewrite f64_half_eq. destruct x as [[]|[]| |[] m e]; try done.
  { simpl. split; [lia|]. replace (Z.pos 4503599627370496) with (2 ^ 52) by reflexivity.
    rewrite <- Z.pow_add_r by blia. apply Z.pow_le_mono_r; blia. }
  destruct Hx as [He Hv]. unfold f64_add, SFadd. set (ez := Z.min e (-53)).
  change (IntDef.Z.min e (-53)) with ez.
  pose proof (shl_align_value m e ez) as H1. pose proof (shl_align_value 4503599627370496 (-53) ez) as H2.
  destruct (shl_align m e ez) as [m1 x1], (shl_align 4503599627370496 (-53) ez) as [m2 x2].
  destruct H1 as [E1 V1], H2 as [E2 V2]. cbn [fst cond_Zopp].
  replace x1 with ez in V1 by (unfold ez in *; lia). replace x2 with ez in V2 by (unfold ez in *; lia).
  change (IntDef.Z.add (Z.pos m1) (Z.pos m2)) with (Z.pos (m1 + m2)). cbn [binary_normalize].
  apply binary_round_at_most; [lia|unfold ez; lia|unfold ez; lia|].
  rewrite Pos2Z.inj_add, Z.mul_add_distr_r, V1, V2.
  replace (k + 1 + bias) with (Z.succ (k + bias)) by lia. rewrite Z.pow_succ_r by blia.
  rewrite <- !Z.mul_assoc, <- !Z.pow_add_r by (unfold ez; blia).
  replace (e - ez + (ez + bias)) with (e + bias) by lia. replace (-53 - ez + (ez + bias)) with (-53 + bias) by lia.
  assert (Z.pos 4503599627370496 * 2 ^ (-53 + bias) ≤ 2 ^ (k + bias)); [|lia].
  replace (Z.pos 4503599627370496) with (2 ^ 52) by reflexivity.
  rewrite <- Z.pow_add_r by blia. apply Z.pow_le_mono_r; blia.
Qed.

Lemma digits2_iter_xO m d : Z.pos (digits2_pos (Pos.iter xO m d)) = Z.pos (digits2_pos m) + Z.pos d.
Proof.
  induction d as [|d IH] using Pos.peano_ind; [simpl; lia|].
  rewrite Pos.iter_succ. cbn [digits2_pos]. rewrite Pos2Z.inj_succ, IH. lia.
Qed.

(** A mantissa of 53 bits is not rounded. *)
Lemma round_aux_exact m e : Z.pos (digits2_pos m) = 53 → -1074 ≤ e ≤ 971 →
  binary_round_aux prec64 emax64 false (Z.pos m) e loc_Exact = S754_finite false m e.
Proof.
  intros Hm He. unfold binary_round_aux, shr_fexp. rewrite !fexp64. cbn [Zdigits2]. rewrite Hm.
  replace (Z.max (53 + e - 53) (-1074) - e) with 0 by lia. cbn [shr shr_record_of_loc shr_m loc_of_shr_record round_nearest_even].
  rewrite fexp64. cbn [Zdigits2]. rewrite Hm.
  replace (Z.max (53 + e - 53) (-1074) - e) with 0 by lia. cbn [shr shr_m].
  change (emax64 - prec64) with 971. by rewrite (proj2 (Z.leb_le e 971)) by lia.
Qed.

(** Integers of at most 53 bits are exact. *)
Lemma f64_of_exact n : 1 ≤ n < 2 ^ 53 → ∃ m e, f64_of n = S754_finite false m e ∧ -52 ≤ e ≤ 0 ∧ Z.pos m = n * 2 ^ (- e).
Proof.
  intros Hn. destruct n as [|n|n]; [lia| |lia]. unfold f64_of, binary_normalize, binary_round. rewrite fexp64.
  destruct (digits2_bounds n) as [Hl _].
  assert (Z.pos (digits2_pos n) - 1 < 53) as Hd.
  { apply (Z.pow_lt_mono_r_iff 2); lia. }
  replace (Z.max (Z.pos (digits2_pos n) + 0 - 53) (-1074)) with (Z.pos (digits2_pos n) - 53) by lia.
  unfold shl_align. change (IntDef.Z.sub ?a ?b) with (Z.sub a b). rewrite Z.sub_0_r.
  destruct (Z.pos (digits2_pos n) - 53) as [|d|d] eqn:Hx; [|lia|].
  - exists n, 0. rewrite round_aux_exact by lia. split; [done|]. split; [lia|]. simpl. lia.
  - exists (Pos.iter xO n d), (Z.neg d). rewrite round_aux_exact by (rewrite ?digits2_iter_xO; lia).
    split; [done|]. split; [lia|]. by rewrite iter_xO.
Qed.

Lemma f64_of_at_least j n : 0 ≤ j → 2 ^ j ≤ n < 2 ^ 53 → at_least j (f64_of n).
Proof.
  intros Hj Hn. assert (0 < 2 ^ j) by (apply Z.pow_pos_nonneg; lia).
  destruct (f64_of_exact n ltac:(lia)) as (m & e & -> & He & Hm). simpl. split; [lia|].
  rewrite Hm, <- Z.mul_assoc, <- Z.pow_add_r by blia. replace (- e + (e + bias)) with bias by lia.
  rewrite Z.pow_add_r by blia. apply Z.mul_le_mono_nonneg_r; [apply Z.pow_nonneg; lia|lia].
Qed.
