(* ===== verification/Hasher.v ===== *)
(** packages/metainfo/src/builder/buffer.rs and worker.rs: the pool of piece
    buffers and the threads that hash pieces.

    The master and the workers are separate threads over a work queue (a
    [SegQueue], first in first out), a pool of free buffers and a channel back to
    the master.  The state machine below has one step per operation on a shared
    object; a schedule is the order in which the threads take their steps.  A
    thread that waits (for a buffer, for work or for a message) has no step. *)

From stdpp Require Import base numbers list.
From S2P Require Import Prelude RustStd Extern Io Sha Metainfo Float.

(** * Piece buffers (buffer.rs) *)

Record PieceBuffer := { pb_buffer : bytes; pb_bytes_read : nat }.

Definition PieceBuffer_new (piece_length : nat) : PieceBuffer :=
  {| pb_buffer := replicate piece_length 0%Z; pb_bytes_read := 0 |}.

(** [write_bytes(|buffer| piece_region.read(buffer))] *)
Definition PieceBuffer_write_bytes (self : PieceBuffer) (piece_region : Region) : res io_error (nat * PieceBuffer) * Region :=
  if length (pb_buffer self) <? pb_bytes_read self then (Panic IndexOutOfBounds, piece_region) else
  let '(r, piece_region) := region_read (length (pb_buffer self) - pb_bytes_read self) piece_region in
  (l ← r;
   Ok (length l,
       {| pb_buffer := take (pb_bytes_read self) (pb_buffer self) ++ l ++ drop (pb_bytes_read self + length l) (pb_buffer self);
          pb_bytes_read := pb_bytes_read self + length l |}), piece_region).

Definition is_whole (self : PieceBuffer) : bool := pb_bytes_read self =? length (pb_buffer self).
Definition PieceBuffer_is_empty (self : PieceBuffer) : bool := pb_bytes_read self =? 0.
Definition as_slice (self : PieceBuffer) : bytes := take (pb_bytes_read self) (pb_buffer self).

Definition TOTAL_BUFFERS_MULTIPLICATIVE : nat := 2.
Definition TOTAL_BUFFERS_ADDITIVE : nat := 0.
Definition calculate_total_buffers (num_workers : nat) : nat :=
  num_workers * TOTAL_BUFFERS_MULTIPLICATIVE + TOTAL_BUFFERS_ADDITIVE.

(** [PieceBuffers]: the free buffers, in the order they were checked in. *)
Definition PieceBuffers_new (piece_length num_workers : nat) : list PieceBuffer :=
  replicate (calculate_total_buffers num_workers) (PieceBuffer_new piece_length).
Definition PieceBuffers_checkin (buffer : PieceBuffer) (self : list PieceBuffer) : list PieceBuffer :=
  self ++ [{| pb_buffer := pb_buffer buffer; pb_bytes_read := 0 |}].
(** [None]: the caller sleeps and tries again. *)
Definition PieceBuffers_checkout (self : list PieceBuffer) : option (PieceBuffer * list PieceBuffer) :=
  match self with pb :: self => Some (pb, self) | [] => None end.

(** * Messages (worker.rs) *)

Inductive MasterMessage := AcceptPiece (index : nat) (piece : ShaHash) | WorkerFinished.
Inductive WorkerMessage := HashPiece (index : nat) (buffer : PieceBuffer) | Finish.

(** Where a worker is in its loop: at [pop], at [send] with a piece, at
    [checkin], at the last [send], finished; [WPanicked] when the master's
    receiver is gone. *)
Inductive worker :=
  | WPop
  | WSend (index : nat) (buffer : PieceBuffer)
  | WCheckin (buffer : PieceBuffer)
  | WExit
  | WDone
  | WPanicked.

(** Where the master is: between two callbacks of the accessor, at the first
    [checkout] of a callback, at [write_bytes], at the [checkout] after a full
    piece, pushing the [Finish] messages, receiving, returned. *)
Inductive master :=
  | MNext (l : list PieceAccess) (opt_piece_buffer : option PieceBuffer)
  | MCheckout (r : Region) (l : list PieceAccess)
  | MRead (r : Region) (curr_piece_buffer : PieceBuffer) (l : list PieceAccess)
  | MRefill (r : Region) (end_of_region : bool) (l : list PieceAccess)
  | MFinish (rest : nat)
  | MRecv (workers_finished : nat)
  | MReturned (r : res ParseError (list (nat * ShaHash))).

Record hasher := {
  h_master : master;
  h_workers : list worker;
  h_work : list WorkerMessage;
  h_buffers : list PieceBuffer;
  h_recv : list MasterMessage;
  h_pieces : list (nat * ShaHash);
  h_piece_index : nat;
  h_progress : list nat;
  h_result : res io_error ()
}.

Definition num_workers (s : hasher) : nat := length (h_workers s).

Definition set_master (m : master) (s : hasher) : hasher :=
  {| h_master := m; h_workers := h_workers s; h_work := h_work s; h_buffers := h_buffers s; h_recv := h_recv s;
     h_pieces := h_pieces s; h_piece_index := h_piece_index s; h_progress := h_progress s; h_result := h_result s |}.
Definition set_worker (i : nat) (w : worker) (s : hasher) : hasher :=
  {| h_master := h_master s; h_workers := <[i := w]> (h_workers s); h_work := h_work s; h_buffers := h_buffers s;
     h_recv := h_recv s; h_pieces := h_pieces s; h_piece_index := h_piece_index s; h_progress := h_progress s;
     h_result := h_result s |}.
Definition set_work (l : list WorkerMessage) (s : hasher) : hasher :=
  {| h_master := h_master s; h_workers := h_workers s; h_work := l; h_buffers := h_buffers s; h_recv := h_recv s;
     h_pieces := h_pieces s; h_piece_index := h_piece_index s; h_progress := h_progress s; h_result := h_result s |}.
Definition set_buffers (l : list PieceBuffer) (s : hasher) : hasher :=
  {| h_master := h_master s; h_workers := h_workers s; h_work := h_work s; h_buffers := l; h_recv := h_recv s;
     h_pieces := h_pieces s; h_piece_index := h_piece_index s; h_progress := h_progress s; h_result := h_result s |}.
Definition set_recv (l : list MasterMessage) (s : hasher) : hasher :=
  {| h_master := h_master s; h_workers := h_workers s; h_work := h_work s; h_buffers := h_buffers s; h_recv := l;
     h_pieces := h_pieces s; h_piece_index := h_piece_index s; h_progress := h_progress s; h_result := h_result s |}.
Definition add_piece (p : nat * ShaHash) (s : hasher) : hasher :=
  {| h_master := h_master s; h_workers := h_workers s; h_work := h_work s; h_buffers := h_buffers s; h_recv := h_recv s;
     h_pieces := h_pieces s ++ [p]; h_piece_index := h_piece_index s; h_progress := h_progress s; h_result := h_result s |}.
Definition next_index (s : hasher) : hasher :=
  {| h_master := h_master s; h_workers := h_workers s; h_work := h_work s; h_buffers := h_buffers s; h_recv := h_recv s;
     h_pieces := h_pieces s; h_piece_index := h_piece_index s + 1; h_progress := h_progress s; h_result := h_result s |}.
(** [progress_sender.send(piece_index)] *)
Definition send_progress (s : hasher) : hasher :=
  {| h_master := h_master s; h_workers := h_workers s; h_work := h_work s; h_buffers := h_buffers s; h_recv := h_recv s;
     h_pieces := h_pieces s; h_piece_index := h_piece_index s; h_progress := h_progress s ++ [h_piece_index s];
     h_result := h_result s |}.

Definition push_work (m : WorkerMessage) (s : hasher) : hasher := set_work (h_work s ++ [m]) s.
Definition send_master (m : MasterMessage) (s : hasher) : hasher := set_recv (h_recv s ++ [m]) s.

(** [pieces.sort_by_key(|one| one.0)] *)
Definition sort_pieces (l : list (nat * ShaHash)) : list (nat * ShaHash) := sort_by (λ x y, Nat.compare x.1 y.1) l.

(** * The master thread ([start_hash_master]) *)

Definition master_step (s : hasher) : option hasher :=
  match h_master s with
  | MNext (Compute r :: l) None => Some (set_master (MCheckout r l) s)
  | MNext (Compute r :: l) (Some curr_piece_buffer) => Some (set_master (MRead r curr_piece_buffer l) s)
  | MNext (PreComputed hash :: l) opt =>
      Some (set_master (MNext l opt) (next_index (add_piece (h_piece_index s, hash) s)))
  | MNext [] opt =>
      match h_result s with
      | Err e => Some (set_master (MReturned (Err (PE_Io e))) s)
      | Panic f => Some (set_master (MReturned (Panic f)) s)
      | Ok _ =>
          match opt with
          | Some piece_buffer =>
              if PieceBuffer_is_empty piece_buffer then Some (set_master (MFinish (num_workers s)) s)
              else Some (set_master (MFinish (num_workers s))
                          (send_progress (next_index (push_work (HashPiece (h_piece_index s) piece_buffer) s))))
          | None => Some (set_master (MFinish (num_workers s)) s)
          end
      end
  | MCheckout r l =>
      '(b, free) ← PieceBuffers_checkout (h_buffers s);
      Some (set_master (MRead r b l) (set_buffers free s))
  | MRead r curr_piece_buffer l =>
      match PieceBuffer_write_bytes curr_piece_buffer r with
      | (Err e, _) => Some (set_master (MReturned (Err (PE_Io e))) s)
      | (Panic f, _) => Some (set_master (MReturned (Panic f)) s)
      | (Ok (n, curr_piece_buffer), r) =>
          let end_of_region := n =? 0 in
          if is_whole curr_piece_buffer
          then Some (set_master (MRefill r end_of_region l)
                      (next_index (push_work (HashPiece (h_piece_index s) curr_piece_buffer) s)))
          else if (end_of_region : bool) then Some (set_master (MNext l (Some curr_piece_buffer)) s)
          else Some (set_master (MRead r curr_piece_buffer l) s)
      end
  | MRefill r end_of_region l =>
      '(b, free) ← PieceBuffers_checkout (h_buffers s);
      let s := send_progress (set_buffers free s) in
      Some (set_master (if (end_of_region : bool) then MNext l (Some b) else MRead r b l) s)
  | MFinish (S rest) => Some (set_master (MFinish rest) (push_work Finish s))
  | MFinish O => Some (set_master (MRecv 0) s)
  | MRecv workers_finished =>
      if workers_finished <? num_workers s then
        match h_recv s with
        | [] => None
        | AcceptPiece index piece :: recv => Some (add_piece (index, piece) (set_recv recv s))
        | WorkerFinished :: recv => Some (set_master (MRecv (workers_finished + 1)) (set_recv recv s))
        end
      else Some (set_master (MReturned (Ok (sort_pieces (h_pieces s)))) s)
  | MReturned _ => None
  end.

(** * A worker thread ([start_hash_worker]) *)

Definition receiver_gone (s : hasher) : bool := match h_master s with MReturned _ => true | _ => false end.

Section Worker.
Context `{Sha1}.

Definition worker_step (i : nat) (s : hasher) : option hasher :=
  w ← h_workers s !! i;
  match w with
  | WPop =>
      match h_work s with
      | [] => None
      | Finish :: work => Some (set_worker i WExit (set_work work s))
      | HashPiece index buffer :: work => Some (set_worker i (WSend index buffer) (set_work work s))
      end
  | WSend index buffer =>
      let hash := ShaHash_from_bytes (as_slice buffer) in
      if receiver_gone s then Some (set_worker i WPanicked s)
      else Some (set_worker i (WCheckin buffer) (send_master (AcceptPiece index hash) s))
  | WCheckin buffer => Some (set_worker i WPop (set_buffers (PieceBuffers_checkin buffer (h_buffers s)) s))
  | WExit =>
      if receiver_gone s then Some (set_worker i WPanicked s)
      else Some (set_worker i WDone (send_master WorkerFinished s))
  | WDone | WPanicked => None
  end.

Inductive actor := Master | Worker (i : nat).

Definition hasher_step (a : actor) (s : hasher) : option hasher :=
  match a with Master => master_step s | Worker i => worker_step i s end.

(** A thread that cannot move when its turn comes leaves the state alone. *)
Definition hasher_turn (s : hasher) (a : actor) : hasher := default s (hasher_step a s).
Definition hasher_run (sched : list actor) (s : hasher) : hasher := foldl hasher_turn s sched.

(** The state when the threads have been spawned. *)
Definition hasher_start (piece_length workers : nat) (accesses : list PieceAccess) (result : res io_error ()) : hasher :=
  {| h_master := MNext accesses None; h_workers := replicate workers WPop; h_work := [];
     h_buffers := PieceBuffers_new piece_length workers; h_recv := []; h_pieces := []; h_piece_index := 0;
     h_progress := []; h_result := result |}.

(** What the master returned under a schedule. *)
Definition start_hasher_workers {A} `{!Accessor A} (sched : list actor) (accessor : A) (piece_length workers : nat)
    : res ParseError (list (nat * ShaHash)) :=
  let '(accesses, result) := access_pieces accessor in
  match h_master (hasher_run sched (hasher_start piece_length workers accesses result)) with
  | MReturned r => r
  | _ => Panic OutOfFuel
  end.
End Worker.

(** [start_progress_updater]: what the callback is given for the indices sent. *)
Definition start_progress_updater (recv : list nat) (num_pieces : Z) : list f64 :=
  (λ finished_piece, f64_div (f64_of (Z.of_nat finished_piece)) (f64_of num_pieces)) <$> recv.
