(* ===== verification/HasherProps.v ===== *)
(** The hashing threads of the metainfo builder are correct under every
    schedule: no deadlock, termination under every fair schedule, and the pieces
    of a sequential reference in order. *)

From stdpp Require Import base numbers sorting list.
From S2P Require Import Prelude RustStd Extern Io Sha Metainfo Float Hasher.

(** * Sums over the workers and the queues *)

Fixpoint sum_of {A} (f : A → nat) (l : list A) : nat :=
  match l with [] => 0 | x :: l => f x + sum_of f l end.

Lemma sum_of_app {A} (f : A → nat) l k : sum_of f (l ++ k) = sum_of f l + sum_of f k.
Proof. induction l as [|x l IH]; simpl; lia. Qed.

Lemma sum_of_replicate {A} (f : A → nat) n x : sum_of f (replicate n x) = n * f x.
Proof. induction n as [|n IH]; simpl; lia. Qed.

Lemma sum_of_insert {A} (f : A → nat) l i x y : l !! i = Some x →
  sum_of f (<[i := y]> l) + f x = sum_of f l + f y.
Proof.
  revert i. induction l as [|z l IH]; intros [|i] H; simplify_eq/=; [lia|]. specialize (IH _ H). lia.
Qed.

Lemma sum_of_lookup {A} (f : A → nat) l i x : l !! i = Some x → f x ≤ sum_of f l.
Proof. revert i. induction l as [|z l IH]; intros [|i] H; simplify_eq/=; [lia|]. specialize (IH _ H). lia. Qed.

Lemma sum_of_pos {A} (f : A → nat) l : 0 < sum_of f l → ∃ i x, l !! i = Some x ∧ 0 < f x.
Proof.
  induction l as [|x l IH]; simpl; [lia|]. intros H. destruct (decide (0 < f x)); [by exists 0, x|].
  destruct IH as (i & y & ? & ?); [lia|]. by exists (S i), y.
Qed.

Lemma bind_insert {A B} (f : A → list B) l i x y : l !! i = Some x →
  f x ++ (<[i := y]> l ≫= f) ≡ₚ f y ++ (l ≫= f).
Proof.
  revert i. induction l as [|z l IH]; intros [|i] H; simplify_eq/=; [solve_Permutation|].
  specialize (IH _ H). rewrite (Permutation_app_swap_app (f x)), IH. solve_Permutation.
Qed.

(** * Counting *)

Definition is_finish (m : WorkerMessage) : nat := match m with Finish => 1 | _ => 0 end.
Definition is_piece (m : WorkerMessage) : nat := match m with HashPiece _ _ => 1 | _ => 0 end.
Definition is_finished (m : MasterMessage) : nat := match m with WorkerFinished => 1 | _ => 0 end.
Definition is_exiting (w : worker) : nat := match w with WExit | WDone => 1 | _ => 0 end.
Definition is_done (w : worker) : nat := match w with WDone => 1 | _ => 0 end.
Definition is_holding (w : worker) : nat := match w with WSend _ _ | WCheckin _ => 1 | _ => 0 end.
Definition is_exit (w : worker) : nat := match w with WExit => 1 | _ => 0 end.
Definition is_panicked (w : worker) : nat := match w with WPanicked => 1 | _ => 0 end.

Lemma sum_of_lt {A} (f : A → nat) l i x : (∀ y, f y ≤ 1) → l !! i = Some x → f x = 0 → sum_of f l < length l.
Proof.
  intros Hf. assert (∀ k, sum_of f k ≤ length k) as Hle.
  { induction k as [|y k IH]; simpl; [lia|]. specialize (Hf y). lia. }
  revert i. induction l as [|z l IH]; intros [|i] H Hx; simplify_eq/=; [specialize (Hle l); lia|].
  specialize (IH _ H Hx). specialize (Hf z). lia.
Qed.

Lemma exiting_split l : sum_of is_exiting l = sum_of is_exit l + sum_of is_done l.
Proof. induction l as [|[] l IH]; simpl; lia. Qed.

(** [Finish] messages the master has still to push, and how many workers it
    knows to be finished. *)
Definition to_push (s : hasher) : nat :=
  match h_master s with
  | MFinish k => k
  | MRecv _ | MReturned (Ok _) => 0
  | _ => num_workers s
  end.
Definition received (s : hasher) : nat :=
  match h_master s with MRecv k => k | MReturned (Ok _) => num_workers s | _ => 0 end.

(** The pieces come before the [Finish] messages. *)
Fixpoint work_ordered (l : list WorkerMessage) : Prop :=
  match l with
  | [] => True
  | HashPiece _ _ :: l => work_ordered l
  | Finish :: l => sum_of is_piece l = 0 ∧ work_ordered l
  end.

Lemma work_ordered_piece l i b : sum_of is_finish l = 0 → work_ordered l → work_ordered (l ++ [HashPiece i b]).
Proof. induction l as [|[] l IH]; simpl; [done|auto|lia]. Qed.
Lemma work_ordered_finish l : work_ordered l → work_ordered (l ++ [Finish]).
Proof.
  induction l as [|[] l IH]; simpl; [done|auto|]. intros [H1 H2]. split; [|auto]. rewrite sum_of_app. simpl. lia.
Qed.

(** * The shut-down protocol *)

Record protocol (s : hasher) : Prop := {
  p_finish : sum_of is_finish (h_work s) + sum_of is_exiting (h_workers s) + to_push s = num_workers s;
  p_alive : receiver_gone s = false → sum_of is_panicked (h_workers s) = 0;
  p_received : received s + sum_of is_finished (h_recv s) = sum_of is_done (h_workers s);
  p_ordered : work_ordered (h_work s);
  p_exit : 0 < sum_of is_exiting (h_workers s) → sum_of is_piece (h_work s) = 0;
  p_last : sum_of is_done (h_workers s) = num_workers s → h_recv s = [] ∨ last (h_recv s) = Some WorkerFinished
}.

Lemma start_protocol n k l r : protocol (hasher_start n k l r).
Proof.
  split; simpl; rewrite ?sum_of_replicate; unfold to_push, num_workers; simpl; rewrite ?length_replicate; try done; try lia.
  by left.
Qed.

Lemma last_tail {A} (x y : A) l : x :: l = [] ∨ last (x :: l) = Some y → l = [] ∨ last l = Some y.
Proof. intros [|H]; [done|]. destruct l; [by left|right; exact H]. Qed.

Ltac open_hasher s := destruct s as [m ws work bufs recv ps idx prog result].


(** The cases of a step of the master. *)
Ltac master_cases Hs m :=
  unfold master_step, PieceBuffers_checkout in Hs; simpl in Hs;
  destruct m as [[|[?r|?h] ?l] ?o|?r ?l|?r ?b ?l|?r ?e ?l|[|?k]|?k|?r]; simpl in *;
  repeat match type of Hs with
  | match ?x with _ => _ end = _ => destruct x eqn:?
  | (match ?x with _ => _ end ≫= _) = _ => destruct x eqn:?
  | _ => progress simpl in Hs
  end; simplify_eq; unfold num_workers in *; simpl in *; try match goal with e : bool |- _ => destruct e end.

Lemma master_protocol s s' : master_step s = Some s' → protocol s → protocol s'.
Proof.
  intros Hs Hp. destruct Hp as [H1 H2 H3 H4 H5 H6]. open_hasher s.
  unfold to_push, received, num_workers in *; simpl in *. pose proof (exiting_split ws). master_cases Hs m.
  all: bool_arith; split; unfold to_push, received, num_workers; simpl; rewrite ?sum_of_app; simpl; try done; try lia;
    try (intros; apply H2; done); try (apply work_ordered_piece; [lia|done]); try (by apply work_ordered_finish);
    try (intros Hd; eapply last_tail, H6, Hd).
Qed.

(** Replace the sums over an updated list of workers. *)
Ltac insert_sums Hsum :=
  repeat match goal with
  | |- context [sum_of ?f (<[?i := ?y]> ?ws)] =>
      let H := fresh "Hs" in pose proof (Hsum f y) as H; simpl in H;
      generalize dependent (sum_of f (<[i := y]> ws)); intros
  end.

Lemma worker_protocol `{Sha1} i s s' : worker_step i s = Some s' → protocol s → protocol s'.
Proof.
  intros Hs [H1 H2 H3 H4 H5 H6]. open_hasher s. unfold to_push, received, num_workers, receiver_gone in *; simpl in *.
  unfold worker_step, receiver_gone in Hs. simpl in Hs. destruct (ws !! i) as [w|] eqn:Hw; [|done]. simpl in Hs.
  pose proof (exiting_split ws) as Hsplit.
  pose proof (λ f y, sum_of_insert f ws i w y Hw) as Hsum.
  pose proof (sum_of_lookup is_exit ws i w Hw) as Hex.
  pose proof (sum_of_lt is_done ws i w ltac:(by intros []; simpl; lia) Hw) as Hlt.
  destruct w; [destruct work as [|[] work]|destruct m|..|destruct m| |]; simplify_eq; simpl in *.
  all: split; unfold to_push, received, num_workers, receiver_gone; simpl; rewrite ?length_insert, ?sum_of_app; simpl; try done.
  all: insert_sums Hsum; try lia; try tauto; try (specialize (H2 ltac:(assumption)); lia); try (destruct r; lia); try (intros; right; by rewrite last_snoc).
Qed.

(** * Regions and chunks *)

Fixpoint region_bytes (r : Region) : bytes :=
  match r with [] => [] | Data l :: r => l ++ region_bytes r | Fail _ :: r => region_bytes r end.

(** A reader that gives data until its end and does not fail. *)
Definition wf_event (e : ReadEvent) : Prop := match e with Data l => l ≠ [] | Fail _ => False end.
Definition wf_region (r : Region) : Prop := Forall wf_event r.
Definition wf_access (a : PieceAccess) : Prop := match a with Compute r => wf_region r | PreComputed _ => True end.

Definition full_len {A} (n : nat) (d : list A) : nat := length d / n * n.
Definition full_chunks {A} (n : nat) (d : list A) : list (list A) := chunks n (take (full_len n d) d).
Definition chunk_rest {A} (n : nat) (d : list A) : list A := drop (full_len n d) d.

Section FullChunks.
Context {A : Type} (n : nat) (Hn : 0 < n).
Implicit Types d x : list A.

Lemma full_app x d : length x = n →
  full_chunks n (x ++ d) = x :: full_chunks n d ∧ chunk_rest n (x ++ d) = chunk_rest n d.
Proof using Hn.
  intros Hx. unfold full_chunks, chunk_rest, full_len. rewrite length_app, Hx.
  replace (n + length d) with (length d + 1 * n) by lia. rewrite Nat.div_add by lia.
  replace ((length d / n + 1) * n) with (length x + length d / n * n) by lia.
  rewrite take_app_add, drop_app_add. by rewrite chunks_app.
Qed.

Lemma full_short d : length d < n → full_chunks n d = [] ∧ chunk_rest n d = d.
Proof using Hn. intros Hd. unfold full_chunks, chunk_rest, full_len. by rewrite Nat.div_small by done. Qed.

Lemma chunk_rest_short d : length (chunk_rest n d) < n.
Proof using Hn.
  unfold chunk_rest, full_len. rewrite length_drop. pose proof (Nat.div_mod_eq (length d) n).
  pose proof (Nat.mod_upper_bound (length d) n). nia.
Qed.

Lemma chunks_split_full d x : chunks n (d ++ x) = full_chunks n d ++ chunks n (chunk_rest n d ++ x).
Proof using Hn.
  remember (length d) as k eqn:Hk. revert d Hk. induction (lt_wf k) as [k _ IH]. intros d ->.
  destruct (decide (length d < n)) as [Hd|Hd]; [by destruct (full_short d Hd) as [-> ->]|].
  rewrite <- (take_drop n d). destruct (full_app (take n d) (drop n d)) as [-> ->]; [rewrite length_take; lia|].
  rewrite <- app_assoc, chunks_app by (rewrite ?length_take; lia). simpl. f_equal.
  eapply IH; [|reflexivity]. rewrite length_drop. lia.
Qed.
End FullChunks.

Lemma chunks_nil {A} n : chunks n (@nil A) = [].
Proof. done. Qed.

(** The reference: the regions are one stream of bytes cut into pieces of [n],
    with the hashes given in between taken as pieces of their own. *)
Section Reference.
Context `{Sha1} (n : nat).

Fixpoint piece_hashes (partial : bytes) (l : list PieceAccess) : list ShaHash :=
  match l with
  | [] => match partial with [] => [] | _ => [ShaHash_from_bytes partial] end
  | PreComputed h :: l => h :: piece_hashes partial l
  | Compute r :: l =>
      let d := partial ++ region_bytes r in
      (ShaHash_from_bytes <$> full_chunks n d) ++ piece_hashes (chunk_rest n d) l
  end.

(** Without such hashes: the pieces of the concatenated regions. *)
Lemma piece_hashes_regions partial (rs : list Region) : 0 < n → length partial < n →
  piece_hashes partial (Compute <$> rs) =
    ShaHash_from_bytes <$> chunks n (partial ++ concat (region_bytes <$> rs)).
Proof.
  intros Hn. revert partial. induction rs as [|r rs IH]; intros p Hp; csimpl.
  - rewrite app_nil_r. destruct p as [|c p]; [done|]. by rewrite chunks_short by (done || lia).
  - rewrite IH by (by apply chunk_rest_short). by rewrite app_assoc, (chunks_split_full n Hn (p ++ region_bytes r)), fmap_app.
Qed.

Lemma piece_hashes_given partial hs : 0 < n → length partial = 0 → piece_hashes partial (PreComputed <$> hs) = hs.
Proof. intros Hn Hp. destruct partial; [|done]. induction hs as [|h hs IH]; [done|]. csimpl. by rewrite IH. Qed.
End Reference.

(** * Buffers *)

Section Buffers.
Context (n : nat).

Definition ok_free (b : PieceBuffer) : Prop := length (pb_buffer b) = n ∧ pb_bytes_read b = 0.
Definition ok_held (b : PieceBuffer) : Prop := length (pb_buffer b) = n ∧ pb_bytes_read b < n.
Definition ok_full (b : PieceBuffer) : Prop := length (pb_buffer b) = n ∧ 0 < pb_bytes_read b ≤ n.

Lemma region_read_ok cap r : wf_region r → 0 < cap → ∃ l r', region_read cap r = (Ok l, r') ∧
  region_bytes r = l ++ region_bytes r' ∧ length l ≤ cap ∧ wf_region r' ∧ (l = [] → r = []).
Proof.
  intros Hr Hc. destruct r as [|[l|e] r]; [|
    |by inversion Hr].
  { exists [], []. split; [done|]. split; [done|]. split; [simpl; lia|]. by split. }
  apply Forall_cons in Hr as [Hl Hr]. simpl in Hl. cbn [region_read].
  destruct (Nat.leb_spec (length l) cap).
  - exists l, r. repeat split; [done|done|]. by intros ->.
  - exists (take cap l), (Data (drop cap l) :: r). split; [done|]. repeat split.
    + simpl. by rewrite app_assoc, take_drop.
    + rewrite length_take. lia.
    + constructor; [|done]. simpl. intros Hd. apply (f_equal length) in Hd. rewrite length_drop in Hd. simpl in Hd. lia.
    + intros Hd. apply (f_equal length) in Hd. rewrite length_take in Hd. simpl in Hd. lia.
Qed.

(** Writing from a region extends what the buffer holds. *)
Lemma write_bytes_ok b r : ok_held b → wf_region r → ∃ l b' r', PieceBuffer_write_bytes b r = (Ok (length l, b'), r') ∧
  region_bytes r = l ++ region_bytes r' ∧ wf_region r' ∧ as_slice b' = as_slice b ++ l ∧
  length (pb_buffer b') = n ∧ pb_bytes_read b' = pb_bytes_read b + length l ∧ pb_bytes_read b' ≤ n ∧ (l = [] → r = []).
Proof.
  intros [Hl Hb] Hr. destruct (region_read_ok (n - pb_bytes_read b) r Hr ltac:(lia)) as (l & r' & E & Hd & Hc & Hr' & He).
  exists l. eexists. exists r'. unfold PieceBuffer_write_bytes. rewrite (proj2 (Nat.ltb_ge _ _)) by lia. rewrite Hl, E.
  split; [reflexivity|]. split; [done|]. split; [done|]. split; [|split; [|split; [done|split; [simpl; lia|done]]]].
  - unfold as_slice. simpl. rewrite app_assoc, take_app_length'; [done|].
    rewrite length_app, length_take. lia.
  - simpl. rewrite !length_app, length_take, length_drop. lia.
Qed.

Lemma as_slice_length b : ok_held b → length (as_slice b) = pb_bytes_read b.
Proof. intros [Hl Hb]. unfold as_slice. rewrite length_take. lia. Qed.
End Buffers.

(** * What has been produced and what is left *)

Section Consistent.
Context `{Sha1} (n : nat) (Hn : 0 < n).

Definition sent_piece (m : MasterMessage) : list (nat * ShaHash) := match m with AcceptPiece i h => [(i, h)] | _ => [] end.
Definition queued_piece (m : WorkerMessage) : list (nat * ShaHash) :=
  match m with HashPiece i b => [(i, ShaHash_from_bytes (as_slice b))] | Finish => [] end.
Definition worker_piece (w : worker) : list (nat * ShaHash) :=
  match w with WSend i b => [(i, ShaHash_from_bytes (as_slice b))] | _ => [] end.

(** Every piece that has left the master, wherever it is. *)
Definition produced (s : hasher) : list (nat * ShaHash) :=
  h_pieces s ++ (h_recv s ≫= sent_piece) ++ (h_workers s ≫= worker_piece) ++ (h_work s ≫= queued_piece).

Definition held_bytes (o : option PieceBuffer) : bytes := match o with Some b => as_slice b | None => [] end.
Definition remaining (s : hasher) : list ShaHash :=
  match h_master s with
  | MNext l o => piece_hashes n (held_bytes o) l
  | MCheckout r l => piece_hashes n [] (Compute r :: l)
  | MRead r b l => piece_hashes n (as_slice b) (Compute r :: l)
  | MRefill r e l => piece_hashes n [] (if (e : bool) then l else Compute r :: l)
  | _ => []
  end.

Definition numbered (l : list ShaHash) : list (nat * ShaHash) := imap pair l.

Definition split_at (total : list ShaHash) (s : hasher) : Prop :=
  ∃ done, done ++ remaining s = total ∧ produced s ≡ₚ numbered done ∧ h_piece_index s = length done.

Lemma split_same total s s' : remaining s' = remaining s → produced s' ≡ₚ produced s → h_piece_index s' = h_piece_index s →
  split_at total s → split_at total s'.
Proof. intros H1 H2 H3 (d & ? & ? & ?). exists d. rewrite H1, H2, H3. done. Qed.

Lemma split_next total s s' h : remaining s = h :: remaining s' → produced s' ≡ₚ produced s ++ [(h_piece_index s, h)] →
  h_piece_index s' = h_piece_index s + 1 → split_at total s → split_at total s'.
Proof.
  intros H1 H2 H3 (d & Hd & Hp & Hi). exists (d ++ [h]). rewrite H2, H3, Hp, Hi. split; [|split].
  - rewrite <- app_assoc. simpl. by rewrite <- H1.
  - unfold numbered. rewrite imap_app. simpl. by rewrite Nat.add_0_r.
  - by rewrite length_app.
Qed.

Definition ok_work (m : WorkerMessage) : Prop := match m with HashPiece _ b => ok_full n b | Finish => True end.
Definition ok_worker (w : worker) : Prop := match w with WSend _ b | WCheckin b => ok_full n b | _ => True end.
Definition ok_master (m : master) : Prop :=
  match m with
  | MNext l o => Forall wf_access l ∧ match o with Some b => ok_held n b | None => True end
  | MCheckout r l | MRefill r _ l => wf_region r ∧ Forall wf_access l
  | MRead r b l => wf_region r ∧ ok_held n b ∧ Forall wf_access l
  | _ => True
  end.

(** Buffers in the hands of the master, while it reads. *)
Definition held (m : master) : option nat :=
  match m with
  | MNext _ (Some _) | MRead _ _ _ => Some 1
  | MNext _ None | MCheckout _ _ | MRefill _ _ _ => Some 0
  | _ => None
  end.

Record consistent (total : list ShaHash) (s : hasher) : Prop := {
  c_split : split_at total s;
  c_free : Forall (ok_free n) (h_buffers s);
  c_work : Forall ok_work (h_work s);
  c_workers : Forall ok_worker (h_workers s);
  c_master : ok_master (h_master s);
  c_pool : ∀ k, held (h_master s) = Some k →
    length (h_buffers s) + sum_of is_piece (h_work s) + sum_of is_holding (h_workers s) + k = 2 * num_workers s;
  c_result : h_result s = Ok ();
  c_returned : ∀ r, h_master s = MReturned r → r = Ok (numbered total)
}.

Lemma start_consistent k l : Forall wf_access l → consistent (piece_hashes n [] l) (hasher_start n k l (Ok ())).
Proof using Type.
  clear Hn. intros Hl. split; simpl; try done.
  - exists []. split; [done|]. split; [|done]. unfold produced. simpl.
    assert (replicate k WPop ≫= worker_piece = []) as -> by (induction k; simpl; auto). done.
  - apply Forall_replicate. split; [apply length_replicate|done].
  - by apply Forall_replicate.
  - intros j [= <-]. rewrite sum_of_replicate. unfold PieceBuffers_new, num_workers, calculate_total_buffers. simpl.
    rewrite !length_replicate. unfold TOTAL_BUFFERS_MULTIPLICATIVE, TOTAL_BUFFERS_ADDITIVE. lia.
Qed.

(** Reading fills the buffer: the piece it completes, or a longer partial one. *)
Lemma read_whole p l r ls : length (p ++ l) = n →
  piece_hashes n p (Compute (Data l :: r) :: ls) = ShaHash_from_bytes (p ++ l) :: piece_hashes n [] (Compute r :: ls).
Proof using Hn. intros Hl. simpl. rewrite app_assoc. by destruct (full_app n Hn (p ++ l) (region_bytes r) Hl) as [-> ->]. Qed.

Lemma piece_hashes_bytes p r r' ls : region_bytes r = region_bytes r' →
  piece_hashes n p (Compute r :: ls) = piece_hashes n p (Compute r' :: ls).
Proof. intros E. simpl. by rewrite E. Qed.

Lemma read_part p l r ls : piece_hashes n p (Compute (Data l :: r) :: ls) = piece_hashes n (p ++ l) (Compute r :: ls).
Proof. simpl. by rewrite app_assoc. Qed.

Lemma read_end p ls : length p < n → piece_hashes n p (Compute [] :: ls) = piece_hashes n p ls.
Proof using Hn. intros Hp. simpl. rewrite app_nil_r. by destruct (full_short n Hn p Hp) as [-> ->]. Qed.

Lemma produced_push m s : produced (push_work m s) ≡ₚ produced s ++ queued_piece m.
Proof. unfold produced, push_work, set_work. simpl. rewrite bind_app. simpl. rewrite app_nil_r. solve_Permutation. Qed.

(** The step at [write_bytes]. *)
Lemma read_consistent total s s' r b l : h_master s = MRead r b l → master_step s = Some s' →
  consistent total s → consistent total s'.
Proof using Hn.
  intros Hm Hs [H1 H2 H3 H4 H5 H6 H7 H8]. rewrite Hm in H5. destruct H5 as (Hr & Hb & Hl).
  specialize (H6 1). rewrite Hm in H6. specialize (H6 eq_refl).
  destruct (write_bytes_ok n b r Hb Hr) as (d & b' & r' & E & Hd & Hr' & Hsl & Hlen & Hread & Hle & He).
  unfold master_step in Hs. rewrite Hm, E in Hs. unfold is_whole in Hs. rewrite Hlen in Hs.
  assert (remaining s = piece_hashes n (as_slice b) (Compute (Data d :: r') :: l)) as Hrem.
  { unfold remaining. rewrite Hm. by apply piece_hashes_bytes. }
  destruct (Nat.eqb_spec (pb_bytes_read b') n) as [Hw|Hw].
  - assert (0 < length d) as Hd0 by (destruct Hb; lia).
    rewrite (proj2 (Nat.eqb_neq (length d) 0)) in Hs by lia. simplify_eq. split; simpl; try done.
    + eapply split_next; [| | |exact H1]; [|by simpl; apply (produced_push (HashPiece (h_piece_index s) b') s)|done].
      rewrite Hrem, read_whole; [by rewrite <- Hsl|]. rewrite <- Hsl. unfold as_slice. rewrite length_take. lia.
    + apply Forall_app. split; [done|]. apply Forall_singleton. simpl. split; [done|lia].
    + intros k [= <-]. rewrite sum_of_app. simpl. unfold num_workers in *. simpl. lia.
  - destruct (Nat.eqb_spec (length d) 0) as [Hd0|Hd0]; simplify_eq; (split; simpl; try done).
    + destruct d; [|done]. rewrite app_nil_r in Hsl. eapply split_same; [| | |exact H1]; [|done|done].
      rewrite Hrem, read_part. unfold remaining. simpl. rewrite <- Hsl, app_nil_r.
      rewrite (He eq_refl) in Hd. simpl in Hd. rewrite <- (read_end (as_slice b') l).
      * by apply piece_hashes_bytes.
      * unfold as_slice. rewrite length_take. lia.
    + split; [done|]. split; [done|lia].
    + intros k [= <-]. done.
    + eapply split_same; [| | |exact H1]; [|done|done]. rewrite Hrem, read_part. unfold remaining. simpl. by rewrite Hsl.
    + split; [done|]. split; [|done]. split; [done|lia].
    + intros k [= <-]. done.
Qed.

(** When the master has heard from every worker, every piece has reached it. *)
Lemma all_received s k : protocol s → h_master s = MRecv k → num_workers s ≤ k → 0 < num_workers s →
  produced s = h_pieces s.
Proof.
  intros [H1 _ H3 _ H5 H6] Hm Hk HN. unfold to_push, received in *. rewrite Hm in *.
  pose proof (exiting_split (h_workers s)) as Hsp. unfold num_workers in *.
  assert (sum_of is_finished (h_recv s) = 0) as Hf by lia.
  assert (sum_of is_piece (h_work s) = 0) as Hp by (apply H5; lia).
  assert (h_recv s = []) as Hrecv.
  { destruct H6 as [|Hlast]; [lia|done|]. apply last_Some in Hlast as [l' E]. rewrite E, sum_of_app in Hf. simpl in Hf. lia. }
  assert (h_work s = []) as Hwork.
  { assert (sum_of is_finish (h_work s) = 0) as Hz by lia. clear -Hz Hp. destruct (h_work s) as [|[] l]; simpl in *; [done|lia|lia]. }
  assert (h_workers s ≫= worker_piece = []) as Hws.
  { assert (length (h_workers s) ≤ sum_of is_done (h_workers s)) as Hall by lia. clear -Hall.
    induction (h_workers s) as [|w l IH]; [done|].
    assert (sum_of is_done l ≤ length l) by (clear; induction l as [|[] l IH]; simpl; lia).
    destruct w; simpl in *; try lia. apply IH. lia. }
  unfold produced. rewrite Hrecv, Hwork, Hws. simpl. by rewrite app_nil_r.
Qed.

Lemma numbered_sorted d : StronglySorted (λ x y, x.1 ≤ y.1) (numbered d).
Proof.
  unfold numbered. induction d as [|h d IH] using rev_ind; [constructor|]. rewrite imap_app. simpl.
  apply StronglySorted_app_2; [|done|repeat constructor].
  intros [i x] [j y] Hi Hj. apply list_elem_of_singleton in Hj as [= -> ->].
  apply elem_of_lookup_imap in Hi as (k & z & [= -> ->] & Hk). simpl. apply lookup_lt_Some in Hk. lia.
Qed.

Lemma numbered_key d x y : x ∈ numbered d → y ∈ numbered d → x.1 = y.1 → x = y.
Proof.
  intros (i & a & -> & Ha)%elem_of_lookup_imap (j & c & -> & Hc)%elem_of_lookup_imap E. simpl in E. by simplify_eq.
Qed.

Lemma sort_pieces_sorted l : StronglySorted (λ x y, x.1 ≤ y.1) (sort_pieces l).
Proof.
  unfold sort_pieces, sort_by. induction l as [|x l IH]; [constructor|]. cbn [foldr].
  set (k := foldr _ [] l) in *. clearbody k. clear l. induction k as [|y k IHk]; simpl; [repeat constructor|].
  apply StronglySorted_inv in IH as [Hk Hy].
  assert (x.1 ≤ y.1 → StronglySorted (λ x y, x.1 ≤ y.1) (x :: y :: k)) as Hfront.
  { intros Hx. constructor; [by constructor|]. constructor; [done|]. eapply Forall_impl; [exact Hy|]. simpl. lia. }
  destruct (Nat.compare_spec x.1 y.1) as [E|E|E]; [apply Hfront; lia|apply Hfront; lia|].
  constructor; [by apply IHk|]. apply Forall_forall. intros z Hz. rewrite (sort_by_insert_perm _ x k) in Hz.
  apply elem_of_cons in Hz as [->|Hz]; [lia|]. by apply (proj1 (Forall_forall _ k) Hy).
Qed.

(** Sorting by index puts the pieces in order. *)
Lemma sort_pieces_numbered l d : l ≡ₚ numbered d → sort_pieces l = numbered d.
Proof.
  intros E. assert (sort_pieces l ≡ₚ numbered d) as Ep by (rewrite <- E; apply sort_by_perm).
  eapply (StronglySorted_unique_strong (λ x y, x.1 ≤ y.1)); [|apply sort_pieces_sorted|apply numbered_sorted|done].
  intros x y Hx Hy H1 H2. rewrite Ep in Hx. apply (numbered_key d); [done|done|lia].
Qed.

(** A callback that checks a buffer out. *)
Lemma checkout_consistent total s s' : (∃ r l, h_master s = MCheckout r l) ∨ (∃ r e l, h_master s = MRefill r e l) →
  master_step s = Some s' → consistent total s → consistent total s'.
Proof using Hn.
  intros Hm Hs [H1 H2 H3 H4 H5 H6 H7 H8].
  assert (∀ k, h_buffers s ≠ [] ∧ held (h_master s) = Some k → k = 0) as Hz.
  { intros k [_ Hk]. destruct Hm as [(r & l & E)|(r & e & l & E)]; rewrite E in Hk; by injection Hk. }
  destruct (h_buffers s) as [|b free] eqn:Hb.
  { destruct Hm as [(r & l & E)|(r & e & l & E)]; unfold master_step in Hs; rewrite E, Hb in Hs; done. }
  apply Forall_cons in H2 as [[Hl Hr] Hfree].
  assert (as_slice b = []) as Hsl by (unfold as_slice; by rewrite Hr).
  assert (ok_held n b) as Hok by (split; [done|lia]).
  destruct Hm as [(r & l & E)|(r & e & l & E)]; unfold master_step in Hs; rewrite E, Hb in Hs; simpl in Hs; simplify_eq;
    rewrite E in H5, H6; destruct H5 as [Hwr Hwl]; specialize (H6 0 eq_refl); simpl in H6; (split; simpl; try done).
  - eapply split_same; [| | |exact H1]; [|done|done]. unfold remaining. rewrite E. simpl. by rewrite Hsl.
  - intros k [= <-]. unfold num_workers in *. simpl. lia.
  - eapply split_same; [| | |exact H1]; [|done|done]. unfold remaining. rewrite E. simpl. destruct e; simpl; by rewrite Hsl.
  - by destruct e.
  - intros k Hk. unfold num_workers in *. simpl. destruct e; injection Hk as <-; lia.
  - by destruct e.
Qed.

(** The end of the callbacks. *)
Lemma last_piece_consistent total s s' o : h_master s = MNext [] o → master_step s = Some s' →
  consistent total s → consistent total s'.
Proof.
  intros Hm Hs [H1 H2 H3 H4 H5 H6 H7 H8]. unfold master_step in Hs. rewrite Hm, H7 in Hs.
  assert (∀ s', remaining s = [] → produced s' = produced s → remaining s' = [] → h_piece_index s' = h_piece_index s →
    split_at total s') as Hsame.
  { intros t Hr Hp Hr' Hi. eapply split_same; [| | |exact H1]; [by rewrite Hr|by rewrite Hp|done]. }
  rewrite Hm in H5. destruct H5 as [_ Hb]. destruct o as [b|]; [unfold PieceBuffer_is_empty in Hs; destruct (Nat.eqb_spec (pb_bytes_read b) 0) as [Hz|Hz]|];
    simplify_eq; (split; simpl; try done).
  - apply Hsame; [|done..]. unfold remaining. rewrite Hm. simpl. unfold as_slice. by rewrite Hz.
  - eapply split_next; [| | |exact H1]; [|by simpl; apply (produced_push (HashPiece (h_piece_index s) b) s)|done].
    unfold remaining. rewrite Hm. simpl. destruct (as_slice b) as [|c p] eqn:Hsl; [|done].
    pose proof (as_slice_length n b Hb) as Hlen. rewrite Hsl in Hlen. simpl in Hlen. lia.
  - apply Forall_app. split; [done|]. apply Forall_singleton. destruct Hb. split; [done|lia].
  - apply Hsame; [|done..]. unfold remaining. by rewrite Hm.
Qed.

(** A message for the master. *)
Lemma recv_consistent total s s' k : h_master s = MRecv k → protocol s → 0 < num_workers s → master_step s = Some s' →
  consistent total s → consistent total s'.
Proof.
  intros Hm Hp HN Hs [H1 H2 H3 H4 H5 H6 H7 H8]. unfold master_step in Hs. rewrite Hm in Hs.
  destruct (Nat.ltb_spec k (num_workers s)) as [Hk|Hk].
  - destruct (h_recv s) as [|[i h|] recv] eqn:Hr; [done|..]; simplify_eq; (split; simpl; try done); try (by rewrite Hm).
    + eapply split_same; [| | |exact H1]; [|..|done]; [unfold remaining; simpl; by rewrite Hm|].
      unfold produced. rewrite Hr. simpl. solve_Permutation.
    + eapply split_same; [| | |exact H1]; [|..|done]; [unfold remaining; simpl; by rewrite Hm|].
      unfold produced. rewrite Hr. done.
  - simplify_eq. split; simpl; try done.
    + eapply split_same; [| | |exact H1]; [unfold remaining; simpl; by rewrite Hm|done|done].
    + intros r [= <-]. f_equal. apply sort_pieces_numbered. destruct H1 as (d & Hd & Hpr & _).
      unfold remaining in Hd. rewrite Hm, app_nil_r in Hd. subst d. by rewrite <- (all_received s k).
Qed.

(** Every step of the master. *)
Lemma master_consistent total s s' : protocol s → 0 < num_workers s → master_step s = Some s' →
  consistent total s → consistent total s'.
Proof using Hn.
  intros Hp HN Hs Hc. destruct (h_master s) as [[|[r|h] l] o|r l|r b l|r e l|k|k|r] eqn:Hm.
  - by eapply last_piece_consistent.
  - destruct Hc as [H1 H2 H3 H4 H5 H6 H7 H8]. unfold master_step in Hs. rewrite Hm in Hs, H5, H6.
    destruct H5 as [[Hr Hl]%Forall_cons Ho]. destruct o as [b|]; simplify_eq; (split; simpl; try done).
    all: eapply split_same; [| | |exact H1]; [|done|done]; unfold remaining; by rewrite Hm.
  - destruct Hc as [H1 H2 H3 H4 H5 H6 H7 H8]. unfold master_step in Hs. rewrite Hm in Hs, H5, H6.
    destruct H5 as [[Hr Hl]%Forall_cons Ho]. simplify_eq. split; simpl; try done.
    eapply split_next; [| | |exact H1]; [unfold remaining; by rewrite Hm| |done].
    unfold produced. simpl. solve_Permutation.
  - eapply checkout_consistent; eauto.
  - by eapply read_consistent.
  - eapply checkout_consistent; eauto 10.
  - destruct Hc as [H1 H2 H3 H4 H5 H6 H7 H8]. unfold master_step in Hs. rewrite Hm in Hs.
    destruct k as [|k]; simplify_eq; (split; simpl; try done).
    + eapply split_same; [| | |exact H1]; [|done|done]. unfold remaining. by rewrite Hm.
    + eapply split_same; [| | |exact H1]; [unfold remaining; by rewrite Hm| |done].
      unfold produced. simpl. rewrite bind_app. simpl. by rewrite !app_nil_r.
    + apply Forall_app. by split; [|constructor].
  - by eapply recv_consistent.
  - unfold master_step in Hs. by rewrite Hm in Hs.
Qed.

(** After a successful return every worker is done. *)
Lemma returned_all_done total i s w : protocol s → consistent total s → h_workers s !! i = Some w → is_done w = 0 →
  receiver_gone s = false.
Proof.
  intros Hp Hc Hw Hd. unfold receiver_gone. destruct (h_master s) as [| | | | | |r] eqn:Hm; try done.
  pose proof (c_returned _ _ Hc r Hm) as ->. pose proof (p_received _ Hp) as Hr. unfold received in Hr. rewrite Hm in Hr.
  pose proof (sum_of_lt is_done (h_workers s) i w ltac:(by intros []; simpl; lia) Hw Hd). unfold num_workers in Hr. lia.
Qed.

(** Every step of a worker. *)
Lemma worker_consistent total i s s' : protocol s → worker_step i s = Some s' →
  consistent total s → consistent total s'.
Proof using Hn.
  intros Hp Hs Hc. pose proof (returned_all_done total i s) as Hgone.
  unfold worker_step in Hs. destruct (h_workers s !! i) as [w|] eqn:Hw; [|done]. simpl in Hs.
  specialize (Hgone w Hp Hc eq_refl). destruct Hc as [H1 H2 H3 H4 H5 H6 H7 H8].
  pose proof (λ f y, sum_of_insert f (h_workers s) i w y Hw) as Hsum.
  pose proof (λ y, bind_insert worker_piece (h_workers s) i w y Hw) as Hins.
  assert (ok_worker w) as Hokw by (by eapply (proj1 (Forall_lookup _ _) H4)).
  destruct w as [|j b|b| | |]; [destruct (h_work s) as [|[j b|] work] eqn:Hwk; [done|..]|..]; try rewrite Hgone in Hs by done; simplify_eq;
    (split; simpl; try done; try (by apply Forall_insert)); try (by apply Forall_cons in H3 as [??]).
  all: try (intros k Hk; specialize (H6 k Hk); unfold num_workers, PieceBuffers_checkin in *; simpl; rewrite ?length_insert, ?length_app;
    simpl in *; insert_sums Hsum; simpl; lia).
  - eapply split_same; [| | |exact H1]; [done| |done]. unfold produced. simpl. rewrite Hwk. simpl.
    specialize (Hins (WSend j b)). simpl in Hins. rewrite Hins. solve_Permutation.
  - apply Forall_cons in H3 as [Hb _]. by apply Forall_insert.
  - eapply split_same; [| | |exact H1]; [done| |done]. unfold produced. simpl. rewrite Hwk. simpl.
    specialize (Hins WExit). simpl in Hins. by rewrite Hins.
  - eapply split_same; [| | |exact H1]; [done| |done]. unfold produced. simpl. rewrite bind_app. simpl.
    specialize (Hins (WCheckin b)). simpl in Hins. rewrite <- Hins. solve_Permutation.
  - eapply split_same; [| | |exact H1]; [done| |done]. unfold produced. simpl.
    specialize (Hins WPop). simpl in Hins. by rewrite Hins.
  - apply Forall_app. split; [done|]. apply Forall_singleton. destruct Hokw. by split.
  - eapply split_same; [| | |exact H1]; [done| |done]. unfold produced. simpl. rewrite bind_app. simpl.
    specialize (Hins WDone). simpl in Hins. by rewrite Hins, app_nil_r.
Qed.

(** * Deadlock freedom *)

Definition returned (s : hasher) : Prop := ∃ r, h_master s = MReturned r.

Lemma busy_worker s i w : h_workers s !! i = Some w → is_holding w = 1 ∨ is_exit w = 1 ∨ w = WPop ∧ h_work s ≠ [] →
  is_Some (worker_step i s).
Proof.
  intros Hw Hb. unfold worker_step. rewrite Hw. simpl.
  destruct w; simpl in Hb; try (by destruct Hb as [|[|[]]]); try (destruct (receiver_gone s); eauto; fail).
  destruct Hb as [|[|[_ Hq]]]; [done|done|]. destruct (h_work s) as [|[] l]; eauto. done.
Qed.

(** Some worker can move when the work queue and the workers hold something and
    no worker has panicked. *)
Lemma some_worker_moves s : sum_of is_panicked (h_workers s) = 0 →
  0 < sum_of is_holding (h_workers s) ∨ 0 < sum_of is_exit (h_workers s) ∨
    h_work s ≠ [] ∧ sum_of is_done (h_workers s) < num_workers s → ∃ i, is_Some (worker_step i s).
Proof.
  intros Hpan Hb. destruct (decide (0 < sum_of is_holding (h_workers s))) as [Hh|Hh].
  { destruct (sum_of_pos _ _ Hh) as (i & w & Hw & Hi). exists i. eapply busy_worker; [done|].
    left. destruct w; simpl in *; lia. }
  destruct (decide (0 < sum_of is_exit (h_workers s))) as [He|He].
  { destruct (sum_of_pos _ _ He) as (i & w & Hw & Hi). exists i. eapply busy_worker; [done|].
    right; left. destruct w; simpl in *; lia. }
  destruct Hb as [|[|[Hq Hd]]]; [lia|lia|].
  assert (∃ i, h_workers s !! i = Some WPop) as [i Hi].
  { unfold num_workers in Hd. clear Hq. induction (h_workers s) as [|w l IH]; simpl in *; [lia|].
    destruct w; simpl in *; try lia; [by exists 0|]. destruct IH as [i Hi]; try lia. by exists (S i). }
  exists i. eapply busy_worker; [done|]. auto.
Qed.

(** Until the master returns, some thread can move. *)
Lemma hasher_progress total s : protocol s → consistent total s → 0 < num_workers s → ¬ returned s →
  ∃ a, is_Some (hasher_step a s).
Proof.
  intros Hp Hc HN Hr.
  assert (receiver_gone s = false) as Hg.
  { unfold receiver_gone. destruct (h_master s) eqn:Hm; try done. destruct Hr. by eexists. }
  pose proof (p_alive _ Hp Hg) as Hpan. pose proof (p_finish _ Hp) as Hfin. pose proof (p_received _ Hp) as Hrec.
  pose proof (c_pool _ _ Hc) as Hpool. pose proof (exiting_split (h_workers s)) as Hsp.
  destruct (master_step s) as [s'|] eqn:Hs; [by exists Master; simpl; rewrite Hs; eauto|].
  cut (∃ i, is_Some (worker_step i s)); [intros [i Hi]; by exists (Worker i)|].
  apply some_worker_moves; [done|].
  assert (sum_of is_finish (h_work s) + sum_of is_piece (h_work s) = length (h_work s)) as Hlen.
  { clear. induction (h_work s) as [|[] l IH]; simpl; lia. }
  unfold master_step in Hs. unfold to_push, received in *.
  destruct (h_master s) as [[|[r|h] l] o|r l|r b l|r e l|[|k]|k|r] eqn:Hm; simpl in *; try done.
  - destruct (h_result s); [|done|done]. destruct o; [destruct (PieceBuffer_is_empty p)|]; done.
  - by destruct o.
  - destruct (h_buffers s); [|done]. specialize (Hpool 0 eq_refl). simpl in Hpool.
    destruct (decide (0 < sum_of is_holding (h_workers s))); [auto|]. right; right. split; [|lia].
    intros E. rewrite E in Hpool. simpl in Hpool. lia.
  - repeat case_match; done.
  - destruct (h_buffers s); [|done]. specialize (Hpool 0 eq_refl). simpl in Hpool.
    destruct (decide (0 < sum_of is_holding (h_workers s))); [auto|]. right; right. split; [|lia].
    intros E. rewrite E in Hpool. simpl in Hpool. lia.
  - destruct (Nat.ltb_spec k (num_workers s)) as [Hk|Hk]; [|done]. destruct (h_recv s) as [|[] ?]; [|done|done].
    simpl in Hrec. destruct (decide (0 < sum_of is_exit (h_workers s))); [auto|]. right; right. split; [|lia].
    intros E. rewrite E in Hfin. simpl in Hfin. lia.
  - destruct Hr. by eexists.
Qed.

(** * Termination

    Every step lowers the cost: a byte to read pays for the piece it may
    complete, a piece for its way through a worker and back. *)

Definition region_cost (r : Region) : nat := 6 * length (region_bytes r).
Definition access_cost (a : PieceAccess) : nat := match a with Compute r => region_cost r + 3 | PreComputed _ => 1 end.
Definition work_cost (m : WorkerMessage) : nat := match m with HashPiece _ _ => 4 | Finish => 3 end.
Definition worker_cost (w : worker) : nat := match w with WSend _ _ => 3 | WCheckin _ => 1 | WExit => 2 | _ => 0 end.
Definition reading_cost (workers : nat) (l : list PieceAccess) : nat := sum_of access_cost l + 4 * workers + 7.
Definition master_cost (workers : nat) (m : master) : nat :=
  match m with
  | MNext l _ => reading_cost workers l
  | MCheckout r l => region_cost r + 2 + reading_cost workers l
  | MRead r _ l => region_cost r + 1 + reading_cost workers l
  | MRefill r _ l => region_cost r + 2 + reading_cost workers l
  | MFinish k => 4 * k + 2
  | MRecv _ => 1
  | MReturned _ => 0
  end.
Definition hasher_cost (s : hasher) : nat :=
  master_cost (num_workers s) (h_master s) + sum_of work_cost (h_work s) + sum_of worker_cost (h_workers s) + length (h_recv s).

Lemma read_step_cost total s s' r b l : h_master s = MRead r b l → consistent total s → master_step s = Some s' →
  hasher_cost s' < hasher_cost s.
Proof using Hn.
  intros Hm Hc Hs. pose proof (c_master _ _ Hc) as Hok. rewrite Hm in Hok. destruct Hok as (Hr & Hb & _).
  destruct (write_bytes_ok n b r Hb Hr) as (d & b' & r' & E & Hd & _ & _ & Hlen & Hread & _ & _).
  unfold master_step in Hs. rewrite Hm, E in Hs. unfold is_whole in Hs. rewrite Hlen in Hs.
  unfold hasher_cost, num_workers. rewrite Hm. simpl master_cost.
  assert (region_cost r = 6 * length d + region_cost r') as -> by (unfold region_cost; rewrite Hd, length_app; lia).
  destruct Hb as [_ Hb].
  destruct (Nat.eqb_spec (pb_bytes_read b') n); [|destruct (Nat.eqb_spec (length d) 0)]; simplify_eq;
    simpl; rewrite ?sum_of_app; simpl; lia.
Qed.

Lemma master_step_cost total s s' : consistent total s → master_step s = Some s' → hasher_cost s' < hasher_cost s.
Proof using Hn.
  intros Hc Hs. destruct (h_master s) as [| |r b l| | | |] eqn:Hm; [| |by eapply read_step_cost|..].
  all: clear Hc; open_hasher s; simpl in Hm; subst m; unfold master_step, PieceBuffers_checkout, reading_cost in *; simpl in *.
  all: repeat match type of Hs with
    | match ?x with _ => _ end = _ => destruct x eqn:?
    | (match ?x with _ => _ end ≫= _) = _ => destruct x eqn:?
    | _ => progress simpl in Hs
    end; simplify_eq; unfold hasher_cost, num_workers, reading_cost; simpl; unfold reading_cost; rewrite ?sum_of_app; simpl; try lia.
  all: case_match; simpl; unfold reading_cost; lia.
Qed.

Lemma worker_step_cost i s s' : worker_step i s = Some s' → hasher_cost s' < hasher_cost s.
Proof.
  intros Hs. unfold worker_step in Hs. destruct (h_workers s !! i) as [w|] eqn:Hw; [|done]. simpl in Hs.
  pose proof (λ f y, sum_of_insert f (h_workers s) i w y Hw) as Hsum. unfold hasher_cost, num_workers.
  destruct w as [|j b|b| | |]; [destruct (h_work s) as [|[j b|] work] eqn:Hwk; [done|..]|destruct (receiver_gone s)| |destruct (receiver_gone s)|..];
    simplify_eq; simpl; rewrite ?length_insert, ?length_app, ?Hwk; simpl; insert_sums Hsum; lia.
Qed.

(** * Runs *)

Record sound_state (total : list ShaHash) (workers : nat) (s : hasher) : Prop := {
  ss_protocol : protocol s;
  ss_consistent : consistent total s;
  ss_workers : num_workers s = workers
}.

Lemma step_workers a s s' : hasher_step a s = Some s' → num_workers s' = num_workers s.
Proof.
  destruct a as [|i]; intros Hs; simpl in Hs.
  - open_hasher s. master_cases Hs m; done.
  - unfold worker_step in Hs. destruct (h_workers s !! i) as [w|]; [|done]. simpl in Hs. unfold num_workers.
    repeat case_match; simplify_eq; simpl; by rewrite length_insert.
Qed.

Lemma step_protocol a s s' : hasher_step a s = Some s' → protocol s → protocol s'.
Proof. destruct a as [|i]; simpl; [apply master_protocol|apply worker_protocol]. Qed.

Lemma run_protocol sched s : protocol s → protocol (hasher_run sched s).
Proof.
  revert s. induction sched as [|a sched IH]; intros s Hp; [done|]. simpl. apply IH. unfold hasher_turn.
  destruct (hasher_step a s) eqn:E; [by eapply step_protocol|done].
Qed.

Section Runs.
Context (total : list ShaHash) (workers : nat) (HN : 0 < workers).

Lemma sound_step a s s' : sound_state total workers s → hasher_step a s = Some s' →
  sound_state total workers s' ∧ hasher_cost s' < hasher_cost s.
Proof using Hn HN.
  intros [Hp Hc Hw] Hs. split; [split|].
  - by eapply step_protocol.
  - destruct a as [|i]; simpl in Hs; [eapply master_consistent; eauto; lia|by eapply worker_consistent].
  - by rewrite (step_workers a s s').
  - destruct a as [|i]; simpl in Hs; [by eapply master_step_cost|by eapply worker_step_cost].
Qed.

Lemma sound_run sched s : sound_state total workers s →
  sound_state total workers (hasher_run sched s) ∧ hasher_cost (hasher_run sched s) ≤ hasher_cost s.
Proof using Hn HN.
  revert s. induction sched as [|a sched IH]; intros s Hs; [by split|].
  change (hasher_run (a :: sched) s) with (hasher_run sched (default s (hasher_step a s))).
  destruct (hasher_step a s) as [s'|] eqn:E; simpl; [|by apply IH].
  destruct (sound_step a s s' Hs E) as [Hs' Hlt]. destruct (IH s' Hs') as [H1 H2]. split; [done|lia].
Qed.

(** A schedule with a turn for a thread that can move lowers the cost. *)
Lemma turn_lowers sched s a : sound_state total workers s → is_Some (hasher_step a s) → a ∈ sched →
  hasher_cost (hasher_run sched s) < hasher_cost s.
Proof using Hn HN.
  intros Hs Ha. induction sched as [|b sched IH]; [by intros ?%not_elem_of_nil|]. intros Hin.
  change (hasher_run (b :: sched) s) with (hasher_run sched (default s (hasher_step b s))).
  destruct (hasher_step b s) as [s'|] eqn:E; simpl.
  - destruct (sound_step b s s' Hs E) as [Hs' Hlt]. destruct (sound_run sched s' Hs') as [_ ?]. lia.
  - apply elem_of_cons in Hin as [->|Hin]; [by rewrite E in Ha; destruct Ha|by apply IH].
Qed.

(** A round gives every thread a turn. *)
Definition fair_round (r : list actor) : Prop := Master ∈ r ∧ ∀ i, i < workers → Worker i ∈ r.

Lemma returned_turn s a : returned s → returned (hasher_turn s a).
Proof.
  intros [r Hr]. unfold hasher_turn. destruct (hasher_step a s) as [s'|] eqn:E; [|by exists r]. simpl.
  destruct a as [|i]; simpl in E; [unfold master_step in E; by rewrite Hr in E|].
  exists r. unfold worker_step in E. destruct (h_workers s !! i) as [w|]; [|done]. simpl in E. repeat case_match; simplify_eq; done.
Qed.

Lemma returned_run sched s : returned s → returned (hasher_run sched s).
Proof. revert s. induction sched as [|a sched IH]; intros s Hs; [done|]. apply IH. by apply returned_turn. Qed.

Lemma fair_round_lowers r s : sound_state total workers s → fair_round r → ¬ returned s →
  hasher_cost (hasher_run r s) < hasher_cost s.
Proof using Hn HN.
  intros Hs [Hm Hw] Hr. pose proof Hs as [Hp Hc HNs].
  destruct (hasher_progress total s Hp Hc ltac:(lia) Hr) as [a Ha]. eapply turn_lowers; [done|done|].
  destruct a as [|i]; [done|]. apply Hw. destruct Ha as [s' Ha]. simpl in Ha. unfold worker_step in Ha.
  destruct (h_workers s !! i) eqn:E; [|done]. apply lookup_lt_Some in E. unfold num_workers in HNs. lia.
Qed.

Lemma fair_rounds_return rounds s : sound_state total workers s → Forall fair_round rounds →
  hasher_cost s < length rounds → returned (hasher_run (concat rounds) s).
Proof using Hn HN.
  intros Hs Hf. revert s Hs. induction Hf as [|r rounds Hr _ IH]; intros s Hs Hlt; [simpl in Hlt; lia|].
  cbn [concat]. unfold hasher_run. rewrite foldl_app. fold (hasher_run r s).
  destruct (decide (hasher_cost (hasher_run r s) < hasher_cost s)) as [Hd|Hd].
  - apply IH; [by apply sound_run|]. simpl in Hlt. lia.
  - apply returned_run. destruct (h_master s) as [| | | | | |x] eqn:Hm; [..|apply returned_run; by exists x].
    all: exfalso; apply Hd; apply fair_round_lowers; [done|done|]; intros [? E]; by rewrite Hm in E.
Qed.
End Runs.
End Consistent.

(** * The hashing threads *)

Section Theorems.
Context `{Sha1}.

Lemma start_sound n workers l : Forall wf_access l →
  sound_state n (piece_hashes n [] l) workers (hasher_start n workers l (Ok ())).
Proof. intros Hl. split; [apply start_protocol|apply (start_consistent n workers l Hl)|apply length_replicate]. Qed.

Lemma hashers_return n workers l rounds : 0 < n → 0 < workers → Forall wf_access l →
  Forall (fair_round workers) rounds → hasher_cost (hasher_start n workers l (Ok ())) < length rounds →
  h_master (hasher_run (concat rounds) (hasher_start n workers l (Ok ()))) = MReturned (Ok (numbered (piece_hashes n [] l))).
Proof.
  intros Hn HN Hl Hf Hc. pose proof (start_sound n workers l Hl) as Hs.
  destruct (fair_rounds_return n Hn _ workers HN rounds _ Hs Hf Hc) as [r Hr].
  destruct (sound_run n Hn _ workers HN (concat rounds) _ Hs) as [[_ Hcons _] _].
  rewrite Hr. by rewrite (c_returned _ _ _ Hcons r Hr).
Qed.

(** Claim C9. The schedule has no influence: whatever order the threads run in, the
    master can only return the hashes of the reference in order, and it does
    return under every schedule that keeps giving each thread its turn. *)
Theorem hash_workers_correct n workers l : 0 < n → 0 < workers → Forall wf_access l →
  (∀ sched r, h_master (hasher_run sched (hasher_start n workers l (Ok ()))) = MReturned r →
    r = Ok (numbered (piece_hashes n [] l))) ∧
  (∀ rounds, Forall (fair_round workers) rounds → hasher_cost (hasher_start n workers l (Ok ())) < length rounds →
    h_master (hasher_run (concat rounds) (hasher_start n workers l (Ok ()))) = MReturned (Ok (numbered (piece_hashes n [] l)))).
Proof.
  intros Hn HN Hl. split; [|intros rounds Hf Hc; by apply hashers_return].
  intros sched r Hr. pose proof (start_sound n workers l Hl) as Hs.
  destruct (sound_run n Hn _ workers HN sched _ Hs) as [[_ Hcons _] _]. by apply (c_returned _ _ _ Hcons r Hr).
Qed.
End Theorems.

(** Two workers, pieces of three bytes, two regions read in uneven parts. *)
Definition sample_regions : list Region := [[Data [1; 2]; Data [3; 4]]; [Data [5; 6; 7]]]%Z.
Definition turns (workers : nat) : list actor := Master :: (Worker <$> seq 0 workers).

Lemma turns_fair workers : fair_round workers (turns workers).
Proof.
  split; [left|]. intros i Hi. right. apply list_elem_of_fmap_2. apply elem_of_seq. lia.
Qed.

Lemma hash_workers_witness :
  let _ := toy_sha1 in
  let s := hasher_start 3 2 (Compute <$> sample_regions) (Ok ()) in
  h_master (hasher_run (concat (replicate 100 (turns 2))) s) =
    MReturned (Ok (numbered (ShaHash_from_bytes <$> [[1; 2; 3]; [4; 5; 6]; [7]]%Z))).
Proof.
  intros HS s. assert (Forall wf_access (Compute <$> sample_regions)) as Hl by (repeat (discriminate || constructor)).
  pose proof (proj2 (@hash_workers_correct HS 3 2 (Compute <$> sample_regions) ltac:(lia) ltac:(lia) Hl)
    (replicate 100 (turns 2)) (Forall_replicate _ 100 _ (turns_fair 2)) ltac:(vm_compute; lia)) as Hm.
  exact Hm.
Defined.

(** When a read or the accessor fails, the master returns the error without
    telling the workers: no worker ever ends its loop. *)
Theorem failed_master_leaves_workers `{Sha1} n workers l result sched e :
  h_master (hasher_run sched (hasher_start n workers l result)) = MReturned (Err e) →
  Forall (λ w, w ≠ WExit ∧ w ≠ WDone) (h_workers (hasher_run sched (hasher_start n workers l result))) ∧
  Finish ∉ h_work (hasher_run sched (hasher_start n workers l result)).
Proof.
  intros Hm. pose proof (run_protocol sched _ (start_protocol n workers l result)) as Hp.
  destruct (hasher_run sched _) as [m ws work]. simpl in *. subst m.
  pose proof (p_finish _ Hp) as Hf. unfold to_push, num_workers in Hf. simpl in Hf.
  assert (sum_of is_exiting ws = 0) as Hw by lia. assert (sum_of is_finish work = 0) as Hq by lia. split.
  - apply Forall_lookup. intros i w Hi. pose proof (sum_of_lookup is_exiting ws i w Hi). destruct w; simpl in *; (done || lia).
  - intros (i & Hi)%list_elem_of_lookup. pose proof (sum_of_lookup is_finish work i Finish Hi). simpl in *. lia.
Qed.

Lemma failed_master_witness :
  let _ := toy_sha1 in
  let s := hasher_run (turns 2 ++ turns 2 ++ turns 2) (hasher_start 3 2 [Compute [Fail IoOther]] (Ok ())) in
  h_master s = MReturned (Err (PE_Io IoOther)) ∧ Forall (λ w, w ≠ WExit ∧ w ≠ WDone) (h_workers s).
Proof.
  intros HS s. split; [reflexivity|].
  apply (@failed_master_leaves_workers HS 3 2 [Compute [Fail IoOther]] (Ok ()) (turns 2 ++ turns 2 ++ turns 2) (PE_Io IoOther)).
  reflexivity.
Defined.
