(* ===== verification/MetaBuild.v ===== *)
(** packages/metainfo/src/builder/mod.rs and the writing half of metainfo.rs:
    the builders of a torrent file, the choice of a piece length and
    [to_bytes].

    A [usize] is 64 bits wide.  The hashing threads run under a schedule, the
    argument [sched] ([Hasher.v]); [into_accessor] gives the accessor or an
    error. *)

From stdpp Require Import base numbers strings list.
From S2P Require Import Prelude RustStd Extern Io Sha Path Bencode Metainfo Float Hasher.
Local Open Scope Z_scope.

(** * Piece lengths *)

Definition ALL_OPT_MAX_PIECE_LENGTH : Z := 16 * 1024 * 1024.
Definition BALANCED_MAX_PIECES_SIZE : Z := 40000.
Definition BALANCED_MIN_PIECE_LENGTH : Z := 512 * 1024.
Definition FILE_SIZE_MAX_PIECES_SIZE : Z := 20000.
Definition FILE_SIZE_MIN_PIECE_LENGTH : Z := 1024 * 1024.
Definition TRANSFER_MAX_PIECES_SIZE : Z := 60000.
Definition TRANSFER_MIN_PIECE_LENGTH : Z := 1024.

Inductive PieceLength := OptBalanced | OptFileSize | OptTransfer | Custom (len : Z).

Definition calculate_piece_length (total_file_size max_pieces_size min_piece_length : Z) : res ParseError Z :=
  let num_pieces := f64_div (f64_of max_pieces_size) (f64_of (Z.of_nat SHA_HASH_LEN)) in
  let piece_length := f64_add (f64_div (f64_of total_file_size) num_pieces) f64_half in
  if negb (f64_in f64_zero f64_i64_max piece_length) then Panic AssertFailed else
  let piece_length := f64_as_u64 piece_length in
  pot_piece_length ← next_power_of_two piece_length;
  Ok (match min_piece_length <? pot_piece_length, pot_piece_length <? ALL_OPT_MAX_PIECE_LENGTH with
      | true, true => pot_piece_length
      | false, _ => min_piece_length
      | _, false => ALL_OPT_MAX_PIECE_LENGTH
      end).

Definition determine_piece_length (total_file_size : Z) (piece_length : PieceLength) : res ParseError Z :=
  match piece_length with
  | Custom len => Ok len
  | OptBalanced => calculate_piece_length total_file_size BALANCED_MAX_PIECES_SIZE BALANCED_MIN_PIECE_LENGTH
  | OptFileSize => calculate_piece_length total_file_size FILE_SIZE_MAX_PIECES_SIZE FILE_SIZE_MIN_PIECE_LENGTH
  | OptTransfer => calculate_piece_length total_file_size TRANSFER_MAX_PIECES_SIZE TRANSFER_MIN_PIECE_LENGTH
  end.

Definition map_pieces_list (pieces : list ShaHash) : bytes :=
  foldl (λ concated_pieces piece, concated_pieces ++ hash piece) [] pieces.

(** * Builders *)

Abbreviation entries := (list (bytes * BencodeMut)).

Record InfoBuilder := { ib_info : BencodeMut; ib_piece_length : PieceLength }.
Record MetainfoBuilder := { mb_root : BencodeMut; mb_info : InfoBuilder }.

Definition InfoBuilder_new : InfoBuilder := {| ib_info := new_dict; ib_piece_length := OptBalanced |}.
Definition MetainfoBuilder_new : MetainfoBuilder := {| mb_root := new_dict; mb_info := InfoBuilder_new |}.

(** [self.root.dict_mut().unwrap()], a change of the dictionary. *)
Definition on_dict (v : BencodeMut) (f : entries → entries) : res ParseError BencodeMut :=
  match v with MDict d => Ok (MDict (f d)) | _ => Panic UnwrapNone end.

(** [if let Some(..) { insert } else { remove }] *)
Definition set_or_remove (key : bytes) (v : option BencodeMut) (d : entries) : entries :=
  match v with Some v => (dict_insert d key v).1 | None => (dict_remove d key).1 end.

Definition on_root (self : MetainfoBuilder) (f : entries → entries) : res ParseError MetainfoBuilder :=
  root ← on_dict (mb_root self) f; Ok {| mb_root := root; mb_info := mb_info self |}.

Definition tracker_lists (groups : list (list bytes)) : BencodeMut :=
  MList (foldl (λ list_access group,
    list_push list_access (MList (foldl (λ l tracker_url, list_push l (MBytes tracker_url)) [] group))) [] groups).

Definition set_trackers (self : MetainfoBuilder) (opt_trackers : option (list (list bytes))) : res ParseError MetainfoBuilder :=
  on_root self (set_or_remove ANNOUNCE_LIST_KEY (tracker_lists <$> opt_trackers)).
Definition set_main_tracker (self : MetainfoBuilder) (opt_tracker_url : option bytes) : res ParseError MetainfoBuilder :=
  on_root self (set_or_remove ANNOUNCE_URL_KEY (MBytes <$> opt_tracker_url)).
Definition set_creation_date (self : MetainfoBuilder) (opt_secs_epoch : option Z) : res ParseError MetainfoBuilder :=
  on_root self (set_or_remove CREATION_DATE_KEY (MInt <$> opt_secs_epoch)).
Definition set_comment (self : MetainfoBuilder) (opt_comment : option bytes) : res ParseError MetainfoBuilder :=
  on_root self (set_or_remove COMMENT_KEY (MBytes <$> opt_comment)).
Definition set_created_by (self : MetainfoBuilder) (opt_created_by : option bytes) : res ParseError MetainfoBuilder :=
  on_root self (set_or_remove CREATED_BY_KEY (MBytes <$> opt_created_by)).

(** [opt.and_then(|n| dict.insert(..)).or_else(|| dict.remove(..))]: [insert]
    gives the value it replaced, and [remove] runs when that is [None]. *)
Definition private_flag (opt_is_private : option bool) (d : entries) : entries :=
  let opt_numeric_is_private := (λ b : bool, if b then 1 else 0) <$> opt_is_private in
  let '(d, replaced) := match opt_numeric_is_private with
                        | Some n => dict_insert d PRIVATE_KEY (MInt n)
                        | None => (d, None)
                        end in
  match replaced with Some _ => d | None => (dict_remove d PRIVATE_KEY).1 end.

Definition InfoBuilder_set_private_flag (self : InfoBuilder) (opt_is_private : option bool) : res ParseError InfoBuilder :=
  info ← on_dict (ib_info self) (private_flag opt_is_private);
  Ok {| ib_info := info; ib_piece_length := ib_piece_length self |}.
Definition InfoBuilder_set_piece_length (self : InfoBuilder) (piece_length : PieceLength) : InfoBuilder :=
  {| ib_info := ib_info self; ib_piece_length := piece_length |}.
Definition set_private_flag (self : MetainfoBuilder) (opt_is_private : option bool) : res ParseError MetainfoBuilder :=
  info ← InfoBuilder_set_private_flag (mb_info self) opt_is_private;
  Ok {| mb_root := mb_root self; mb_info := info |}.
Definition set_piece_length (self : MetainfoBuilder) (piece_length : PieceLength) : MetainfoBuilder :=
  {| mb_root := mb_root self; mb_info := InfoBuilder_set_piece_length (mb_info self) piece_length |}.

(** The getters, [self.root.dict().unwrap()] first. *)
Definition of_root_dict {A} (self : MetainfoBuilder) (f : entries → A) : res ParseError A :=
  match mb_root self with MDict d => Ok (f d) | _ => Panic UnwrapNone end.
Definition get_trackers (self : MetainfoBuilder) : res ParseError (option (list (list bytes))) :=
  of_root_dict self (λ d, convert_announce_list <$> parse_announce_list d).
Definition get_main_tracker (self : MetainfoBuilder) : res ParseError (option bytes) := of_root_dict self parse_announce_url.
Definition get_creation_date (self : MetainfoBuilder) : res ParseError (option Z) := of_root_dict self parse_creation_date.
Definition get_comment (self : MetainfoBuilder) : res ParseError (option bytes) := of_root_dict self parse_comment.
Definition get_created_by (self : MetainfoBuilder) : res ParseError (option bytes) := of_root_dict self parse_created_by.

(** * Building *)

(** [try_into().unwrap()] from [u64] or [usize] to [i64] *)
Definition i64_of_u64 (n : Z) : res ParseError Z := if n <=? i64_max then Ok n else Panic UnwrapNone.

Fixpoint total_len (acc : Z) (files_info : list (Z * list bytes)) : res ParseError Z :=
  match files_info with
  | [] => Ok acc
  | nex :: files_info => if acc + nex.1 <=? u64_max then total_len (acc + nex.1) files_info else Panic ArithOverflow
  end.

Definition file_entry (f : Z * list bytes) : res ParseError BencodeMut :=
  let bencode_path := foldl (λ l path_element, list_push l (MBytes path_element)) [] f.2 in
  len ← i64_of_u64 f.1;
  Ok (ben_map [(LENGTH_KEY, MInt len); (PATH_KEY, MList bencode_path)]).

(** The loop that fills [bencode_files]. *)
Definition file_entries_of (files_info : list (Z * list bytes)) : res ParseError BencodeMut :=
  l ← mapM file_entry files_info; Ok (MList (foldl list_push [] l)).

Definition fill_info (info : entries) (piece_length : Z) (pieces : bytes) (access_directory : option bytes)
    (files_info : list (Z * list bytes)) : res ParseError entries :=
  pl ← i64_of_u64 piece_length;
  let info := (dict_insert info PIECE_LENGTH_KEY (MInt pl)).1 in
  let info := (dict_insert info PIECES_KEY (MBytes pieces)).1 in
  match access_directory, (1 <? length files_info)%nat with
  | Some directory, _ =>
      bencode_files ← file_entries_of files_info;
      let info := (dict_insert info NAME_KEY (MBytes directory)).1 in
      Ok (dict_insert info FILES_KEY bencode_files).1
  | None, true =>
      bencode_files ← file_entries_of files_info;
      let info := (dict_insert info NAME_KEY (MBytes [])).1 in
      Ok (dict_insert info FILES_KEY bencode_files).1
  | None, false =>
      match files_info with
      | [] => Panic IndexOutOfBounds
      | f :: _ =>
          let single_file_name := foldl (λ s name_component, s ++ name_component) [] f.2 in
          len ← i64_of_u64 f.1;
          let info := (dict_insert info LENGTH_KEY (MInt len)).1 in
          Ok (dict_insert info NAME_KEY (MBytes single_file_name)).1
      end
  end.

(** The number of pieces announced to the progress callback. *)
Definition count_pieces (total_files_len piece_length : Z) : res ParseError Z :=
  let total_num_pieces := f64_div (f64_of total_files_len) (f64_of piece_length) in
  if negb (f64_in f64_zero f64_i64_max total_num_pieces) then Panic AssertFailed else
  u64_of_i64 (f64_ceil_as_i64 total_num_pieces).

Section Build.
Context `{Sha1} (sched : list actor).

Definition build_with_accessor {A} `{!Accessor A} (threads : nat) (accessor : A) (opt_root : option BencodeMut)
    (info : BencodeMut) (piece_length : PieceLength) : res ParseError bytes :=
  if (threads =? 0)%nat then Panic AssertFailed else
  let '(calls, result) := access_metadata accessor in
  let files_info := (λ '(len, path), (len, to_string_lossy <$> path_iter path)) <$> calls in
  _ ← res_map_err PE_Io result;
  total_files_len ← total_len 0 files_info;
  piece_length ← determine_piece_length total_files_len piece_length;
  total_num_pieces ← count_pieces total_files_len piece_length;
  pieces_list ← start_hasher_workers sched accessor (Z.to_nat piece_length) threads;
  let pieces := map_pieces_list (snd <$> pieces_list) in
  let access_directory := to_string_lossy <$> access_directory accessor in
  info ← match info with MDict d => Ok d | _ => Panic UnwrapNone end;
  info ← fill_info info piece_length pieces access_directory files_info;
  match opt_root with
  | Some root =>
      root ← on_dict root (λ d, (dict_insert d INFO_KEY (MDict info)).1);
      Ok (BencodeMut_encode root)
  | None => Ok (BencodeMut_encode (MDict info))
  end.

Definition MetainfoBuilder_build {A} `{!Accessor A} (self : MetainfoBuilder) (threads : nat)
    (into_accessor : res io_error A) : res ParseError bytes :=
  accessor ← res_map_err PE_Io into_accessor;
  build_with_accessor threads accessor (Some (mb_root self)) (ib_info (mb_info self)) (ib_piece_length (mb_info self)).

Definition InfoBuilder_build {A} `{!Accessor A} (self : InfoBuilder) (threads : nat) (into_accessor : res io_error A)
    : res ParseError bytes :=
  accessor ← res_map_err PE_Io into_accessor;
  build_with_accessor threads accessor None (ib_info self) (ib_piece_length self).

(** * [to_bytes] (metainfo.rs) *)

Definition unwrap_result {E A} (r : res E A) : res E A := match r with Err _ => Panic UnwrapNone | _ => r end.

Definition Info_to_bytes (self : Info) : res ParseError bytes :=
  builder ← InfoBuilder_set_private_flag InfoBuilder_new (i_is_private self);
  unwrap_result (InfoBuilder_build (InfoBuilder_set_piece_length builder (Custom (i_piece_len self))) 1 (Ok self)).

Definition Metainfo_to_bytes (self : Metainfo) : res ParseError bytes :=
  builder ← set_main_tracker MetainfoBuilder_new (m_announce self);
  builder ← set_creation_date builder (m_creation_date self);
  builder ← set_comment builder (m_comment self);
  builder ← set_created_by builder (m_created_by self);
  builder ← set_private_flag builder (i_is_private (m_info self));
  unwrap_result (MetainfoBuilder_build (set_piece_length builder (Custom (i_piece_len (m_info self)))) 1 (Ok (m_info self))).
End Build.
