(* ===== verification/MetaProps.v ===== *)
(** Properties of the metainfo component: what the builder writes is read back,
    the piece lengths it chooses, and how the parser treats hostile fields. *)

From stdpp Require Import base numbers strings list.
From S2P Require Import Prelude RustStd Extern Io Sha Path Bencode BencodeTheorems BencodeErase DhtMessageProps Metainfo Float Hasher HasherProps MetaBuild.

(** * Reading a decoded value and the value it stands for *)

Section Erase.
Implicit Types d : list (bytes * BencodeRef).

Lemma convert_dict_erase {E} (he : BencodeConvertError → E) v k :
  convert_dict he (erase v) k = (λ d, erase_pair <$> d) <$> convert_dict he v k.
Proof. destruct v; try done. cbn [convert_dict ben_dict BencodeRef_access]. by rewrite erase_RDict. Qed.

Lemma parse_length_erase d : parse_length (erase_pair <$> d) = parse_length d.
Proof. unfold parse_length. by rewrite lookup_int_erase. Qed.
Lemma parse_piece_length_erase d : parse_piece_length (erase_pair <$> d) = parse_piece_length d.
Proof. unfold parse_piece_length. by rewrite lookup_int_erase. Qed.
Lemma parse_private_erase d : parse_private (erase_pair <$> d) = parse_private d.
Proof. unfold parse_private. by rewrite lookup_int_erase. Qed.
Lemma parse_pieces_erase d : parse_pieces (erase_pair <$> d) = parse_pieces d.
Proof. unfold parse_pieces. by rewrite lookup_bytes_erase. Qed.
Lemma parse_md5sum_erase d : parse_md5sum (erase_pair <$> d) = parse_md5sum d.
Proof. unfold parse_md5sum. by rewrite lookup_bytes_erase. Qed.
Lemma parse_name_erase d : parse_name (erase_pair <$> d) = parse_name d.
Proof. unfold parse_name. by rewrite lookup_str_erase. Qed.

Lemma push_path_erase buf (l : list BencodeRef) : push_path_list buf (erase <$> l) = push_path_list buf l.
Proof.
  revert buf. induction l as [|v l IH]; intros buf; [done|]. csimpl. unfold parse_path_str, convert_str.
  rewrite str_erase. destruct (ben_str v); simpl; [apply IH|done].
Qed.

Lemma as_single_erase d : as_single_file (erase_pair <$> d) = as_single_file d.
Proof. unfold as_single_file. by rewrite parse_length_erase, parse_md5sum_erase, parse_name_erase. Qed.

Lemma as_multi_erase d : as_multi_file (erase_pair <$> d) = as_multi_file d.
Proof.
  unfold as_multi_file. rewrite parse_length_erase, parse_md5sum_erase. unfold parse_path_list. rewrite lookup_list_erase.
  destruct (parse_length d); [|done|done]. cbn [mbind res_bind].
  destruct (lookup_and_convert_list CONVERT d PATH_KEY); [|done|done]. cbn [mbind res_bind fmap res_fmap].
  by rewrite push_path_erase.
Qed.

Lemma parse_file_erase v : parse_file (erase v) = parse_file v.
Proof.
  unfold parse_file, parse_file_dict. rewrite convert_dict_erase.
  destruct (convert_dict CONVERT v FILES_KEY); [|done|done]. cbn [mbind res_bind fmap res_fmap]. apply as_multi_erase.
Qed.

Lemma parse_files_erase l : mapM parse_file (erase <$> l) = mapM parse_file l.
Proof. induction l as [|v l IH]; [done|]. rewrite fmap_cons. cbn [mapM]. by rewrite parse_file_erase, IH. Qed.

Lemma parse_info_erase `{Sha1} u v : parse_info_value u (erase v) = parse_info_value u v.
Proof.
  unfold parse_info_value, parse_root_dict. rewrite convert_dict_erase.
  destruct (convert_dict CONVERT v ROOT_ERROR_KEY) as [d| |]; [|done|done]. cbn [mbind res_bind fmap res_fmap].
  rewrite parse_piece_length_erase, parse_private_erase, parse_pieces_erase.
  destruct (parse_piece_length d); [|done|done]. cbn [mbind res_bind].
  destruct (parse_pieces d) as [ps| |]; [|done|done]. cbn [mbind res_bind].
  destruct (allocate_pieces ps); [|done|done]. cbn [mbind res_bind].
  unfold is_multi_file_torrent. rewrite parse_length_erase.
  destruct (parse_length d); cbn [mbind res_bind]; [by rewrite as_single_erase| |done].
  rewrite parse_name_erase. destruct (parse_name d); [|done|done]. cbn [mbind res_bind].
  unfold parse_files_list. rewrite lookup_list_erase.
  destruct (lookup_and_convert_list CONVERT d FILES_KEY); [|done|done]. cbn [mbind res_bind fmap res_fmap].
  by rewrite parse_files_erase.
Qed.
End Erase.

(** * Piece lengths *)

Local Open Scope Z_scope.

Lemma f64_trunc_at_most k x : 0 ≤ k → at_most k x → 0 ≤ f64_trunc x ≤ 2 ^ k.
Proof.
  intros Hk. destruct x as [[]|[]| |[] m e]; try done; [pose proof (Z.pow_nonneg 2 k); simpl; lia|].
  intros [He Hv]. simpl. destruct (Z.leb_spec 0 e).
  - split; [pose proof (Z.pow_nonneg 2 e); lia|].
    rewrite (Z.pow_add_r 2 e), (Z.pow_add_r 2 k), Z.mul_assoc in Hv by blia.
    apply Z.mul_le_mono_pos_r in Hv; [done|apply Z.pow_pos_nonneg; blia].
  - assert (0 < 2 ^ (- e)) as Hp by (apply Z.pow_pos_nonneg; lia). split; [apply Z.div_pos; lia|].
    apply Z.div_le_upper_bound; [done|].
    assert (2 ^ (k + bias) = 2 ^ (- e) * 2 ^ k * 2 ^ (e + bias)) as E.
    { rewrite <- !Z.pow_add_r by blia. f_equal. lia. }
    rewrite E in Hv. apply Z.mul_le_mono_pos_r in Hv; [done|apply Z.pow_pos_nonneg; blia].
Qed.

Lemma next_power_spec {E} n : 0 ≤ n ≤ 2 ^ 63 → ∃ k, 0 ≤ k ∧ @next_power_of_two E n = Ok (2 ^ k) ∧ n ≤ 2 ^ k.
Proof.
  intros Hn. unfold next_power_of_two. destruct (Z.leb_spec n 1) as [H1|H1].
  - exists 0. simpl. split; [lia|]. split; [done|lia].
  - exists (Z.log2_up n). destruct (Z.log2_up_spec n H1) as [_ Hu]. split; [apply Z.log2_up_nonneg|].
    assert (2 ^ Z.log2_up n ≤ 2 ^ 63) as Hle.
    { apply Z.pow_le_mono_r; [lia|]. change 63 with (Z.log2_up (2 ^ 63)). apply Z.log2_up_le_mono. lia. }
    rewrite (proj2 (Z.leb_le _ _)); [done|]. unfold u64_max. lia.
Qed.

(** A strategy keeps between [1000] and [3000] pieces. *)
Definition strategy (size min : Z) : Prop :=
  (size = 40000 ∧ min = 2 ^ 19) ∨ (size = 20000 ∧ min = 2 ^ 20) ∨ (size = 60000 ∧ min = 2 ^ 10).

Lemma pieces_per_at_least size min : strategy size min →
  at_least 9 (f64_div (f64_of size) (f64_of (Z.of_nat SHA_HASH_LEN))).
Proof.
  intros Hs.
  assert (∃ n, f64_div (f64_of size) (f64_of (Z.of_nat SHA_HASH_LEN)) = f64_of n ∧ 2 ^ 9 ≤ n < 2 ^ 53) as (n & -> & Hn).
  { destruct Hs as [[-> _]|[[-> _]|[-> _]]]; [exists 2000|exists 1000|exists 3000]; (split; [reflexivity|lia]). }
  apply f64_of_at_least; [lia|done].
Qed.

Lemma calculate_spec total size min : is_u64 total → strategy size min →
  ∃ k, 0 ≤ k ∧ calculate_piece_length total size min = Ok (2 ^ k) ∧ min ≤ 2 ^ k ≤ ALL_OPT_MAX_PIECE_LENGTH.
Proof.
  intros Ht Hs. unfold calculate_piece_length.
  pose proof (pieces_per_at_least size min Hs) as Hp.
  set (n := f64_div (f64_of size) (f64_of (Z.of_nat SHA_HASH_LEN))) in *. clearbody n.
  assert (at_most 55 (f64_div (f64_of total) n)) as Hq.
  { apply (f64_div_at_most 64 9); [lia|lia| |done]. apply f64_of_at_most; [lia|]. unfold is_u64 in Ht. lia. }
  pose proof (f64_add_half_at_most 55 _ ltac:(lia) Hq) as Hl. change (55 + 1) with 56 in Hl.
  set (x := f64_add _ _) in *. clearbody x.
  assert (at_most 63 x) as H63.
  { destruct x as [[]|[]| |[] m e]; try done. destruct Hl as [He Hv]. split; [lia|]. etransitivity; [exact Hv|].
    apply Z.pow_le_mono_r; blia. }
  rewrite (at_most_in x H63). cbn [negb].
  destruct (f64_trunc_at_most 63 x ltac:(lia) H63) as [Ht1 Ht2].
  assert (f64_as_u64 x = f64_trunc x) as ->.
  { destruct x as [[]|[]| |[] m e]; try done. unfold f64_as_u64, clamp, u64_max. lia. }
  destruct (@next_power_spec ParseError (f64_trunc x)) as (k & Hk & -> & _); [lia|]. rewrite bind_Ok.
  destruct (Z.ltb_spec min (2 ^ k)) as [H1|H1]; [destruct (Z.ltb_spec (2 ^ k) ALL_OPT_MAX_PIECE_LENGTH) as [H2|H2]|].
  - exists k. split; [done|]. split; [done|lia].
  - exists 24. split; [lia|]. split; [done|]. destruct Hs as [[_ ->]|[[_ ->]|[_ ->]]]; unfold ALL_OPT_MAX_PIECE_LENGTH in *; lia.
  - destruct Hs as [[_ ->]|[[_ ->]|[_ ->]]]; eexists; (split; [|split; [reflexivity|]]); unfold ALL_OPT_MAX_PIECE_LENGTH; lia.
Qed.

(** Claim C39. Whatever the size of the files, each strategy gives a piece length that is a
    power of two, at least the strategy's minimum and at most 16 MiB; no
    assertion or conversion on the way panics. *)
Theorem piece_length_bounds total : is_u64 total →
  (∃ k, 0 ≤ k ∧ determine_piece_length total OptBalanced = Ok (2 ^ k) ∧ BALANCED_MIN_PIECE_LENGTH ≤ 2 ^ k ≤ ALL_OPT_MAX_PIECE_LENGTH) ∧
  (∃ k, 0 ≤ k ∧ determine_piece_length total OptFileSize = Ok (2 ^ k) ∧ FILE_SIZE_MIN_PIECE_LENGTH ≤ 2 ^ k ≤ ALL_OPT_MAX_PIECE_LENGTH) ∧
  (∃ k, 0 ≤ k ∧ determine_piece_length total OptTransfer = Ok (2 ^ k) ∧ TRANSFER_MIN_PIECE_LENGTH ≤ 2 ^ k ≤ ALL_OPT_MAX_PIECE_LENGTH).
Proof.
  intros Ht. split; [|split]; cbn [determine_piece_length]; apply calculate_spec; try done;
    unfold strategy, BALANCED_MAX_PIECES_SIZE, FILE_SIZE_MAX_PIECES_SIZE, TRANSFER_MAX_PIECES_SIZE; [left|right; left|right; right]; by split.
Qed.

Lemma piece_length_bounds_witness :
  is_u64 (2 ^ 32 + 5) ∧ determine_piece_length (2 ^ 32 + 5) OptBalanced = Ok (2 ^ 22) ∧
  ∃ k, 0 ≤ k ∧ determine_piece_length (2 ^ 32 + 5) OptBalanced = Ok (2 ^ k) ∧ BALANCED_MIN_PIECE_LENGTH ≤ 2 ^ k ≤ ALL_OPT_MAX_PIECE_LENGTH.
Proof.
  assert (is_u64 (2 ^ 32 + 5)) as H by (vm_compute; split; [discriminate|reflexivity]). split; [exact H|].
  split; [vm_compute; reflexivity|]. apply (proj1 (piece_length_bounds (2 ^ 32 + 5) H)).
Defined.

(** One byte more than the balanced strategy's pieces hold makes one piece more
    than its limit. *)
Example pieces_past_the_limit :
  determine_piece_length (2000 * 524288 + 600) OptBalanced = Ok 524288 ∧
  count_pieces (2000 * 524288 + 600) 524288 = Ok 2001 ∧ 2001 * 20 > BALANCED_MAX_PIECES_SIZE.
Proof. vm_compute. repeat split. Qed.

(** * Writing an info dictionary and reading it back *)

Definition path_names (p : bytes) : list bytes := to_string_lossy <$> path_iter p.

(** A name a path element can hold and a torrent file can carry. *)
Definition path_name (c : bytes) : Prop := clean c ∧ utf8_valid c = true ∧ small c.

Definition files_total (l : list File) : Z := foldr (λ f a, f_len f + a) 0 l.

(** The torrents whose fields fit what is written: hashes of 20 bytes, a piece
    length of at least one, sizes that add up to an [i64], and names. *)
Record wf_torrent (i : Info) : Prop := {
  wt_pieces : Forall (λ p, length p = SHA_HASH_LEN) (i_pieces i);
  wt_pieces_len : small (concat (i_pieces i));
  wt_piece_len : 1 ≤ i_piece_len i < 2 ^ 53;
  wt_lens : Forall (λ f, 0 ≤ f_len f) (i_files i);
  wt_total : files_total (i_files i) ≤ i64_max;
  wt_names : match i_file_directory i with
             | Some d => utf8_valid d = true ∧ small d ∧
                 Forall (λ f, ∃ cs, f_path f = join_sep cs ∧ Forall path_name cs) (i_files i)
             | None => ∃ f, i_files i = [f] ∧ path_name (f_path f)
             end
}.

Definition file_value (f : File) : BencodeMut :=
  MDict [(LENGTH_KEY, MInt (f_len f)); (PATH_KEY, MList (MBytes <$> path_names (f_path f)))].

Definition info_entries (i : Info) : entries :=
  match i_file_directory i with
  | Some d => [(FILES_KEY, MList (file_value <$> i_files i)); (NAME_KEY, MBytes d)]
  | None => match i_files i with
            | f :: _ => [(LENGTH_KEY, MInt (f_len f)); (NAME_KEY, MBytes (f_path f))]
            | [] => []
            end
  end ++ [(PIECE_LENGTH_KEY, MInt (i_piece_len i)); (PIECES_KEY, MBytes (concat (i_pieces i)))].

(** What is lost: the private flag and the MD5 sums; the hash is that of the
    bytes written. *)
Definition info_reread `{Sha1} (i : Info) (l : bytes) : Info :=
  {| i_info_hash := ShaHash_from_bytes l;
     i_files := (λ f, {| f_len := f_len f; f_path := f_path f; f_md5sum := None |}) <$> i_files i;
     i_pieces := i_pieces i; i_piece_len := i_piece_len i; i_is_private := None; i_file_directory := i_file_directory i |}.

Lemma path_names_join cs : Forall path_name cs → path_names (join_sep cs) = cs.
Proof.
  intros H. unfold path_names.
  assert (path_iter (join_sep cs) = cs) as ->.
  { destruct cs as [|c cs]; [done|]. apply path_iter_join; [|done]. eapply Forall_impl; [exact H|]. by intros c' []. }
  induction H as [|c cs (_ & Hu & _) _ IH]; [done|]. csimpl. rewrite IH. by rewrite to_string_lossy_valid.
Qed.

Lemma push_all_bytes (cs : list bytes) acc :
  foldl (λ l path_element, list_push l (MBytes path_element)) acc cs = acc ++ (MBytes <$> cs).
Proof.
  revert acc. induction cs as [|c cs IH]; intros acc; simpl; [by rewrite app_nil_r|]. rewrite IH. unfold list_push.
  by rewrite <- app_assoc.
Qed.

Lemma total_len_files acc l : 0 ≤ acc → Forall (λ f, 0 ≤ f_len f) l → acc + files_total l ≤ i64_max →
  total_len acc ((λ f, (f_len f, path_names (f_path f))) <$> l) = Ok (acc + files_total l) ∧ 0 ≤ files_total l.
Proof.
  intros Ha Hl. revert acc Ha. induction Hl as [|f l Hf _ IH]; intros acc Ha Ht; [by rewrite Z.add_0_r|].
  cbn [files_total foldr] in Ht. fold (files_total l) in Ht.
  destruct (IH (acc + f_len f)) as [E Hpos]; [lia|lia|]. csimpl. cbn [total_len fst].
  rewrite (proj2 (Z.leb_le _ _)) by (unfold u64_max, i64_max in *; lia). fold (files_total l). rewrite E. split; [f_equal; lia|lia].
Qed.

Lemma files_total_le l f : Forall (λ f, 0 ≤ f_len f) l → f ∈ l → f_len f ≤ files_total l.
Proof.
  induction 1 as [|g l Hg Hl IH]; [by intros ?%not_elem_of_nil|]. cbn [files_total foldr]. fold (files_total l).
  assert (0 ≤ files_total l) as Hpos.
  { clear IH. induction Hl as [|g' l Hg' _ IH]; [done|]. cbn [files_total foldr]. fold (files_total l). lia. }
  intros [->|Hin]%elem_of_cons; [lia|]. specialize (IH Hin). lia.
Qed.

Lemma count_pieces_Ok total pl : 0 ≤ total ≤ i64_max → 1 ≤ pl < 2 ^ 53 → ∃ k, count_pieces total pl = Ok k.
Proof.
  intros Ht Hp. unfold count_pieces.
  assert (at_most 63 (f64_div (f64_of total) (f64_of pl))) as Hq.
  { apply (f64_div_at_most 63 0); [lia|lia| |by apply f64_of_at_least].
    apply f64_of_at_most; [lia|]. unfold i64_max in Ht. lia. }
  rewrite at_most_in by done. cbn [negb]. unfold u64_of_i64. set (x := f64_div _ _) in *. clearbody x.
  assert (0 ≤ f64_ceil_as_i64 x) as H0; [|rewrite (proj2 (Z.leb_le _ _)) by done; eauto].
  destruct x as [[]|[]| |[] m e]; try done. unfold f64_ceil_as_i64, f64_ceil, clamp, i64_min, i64_max.
  destruct (Z.leb_spec 0 e); [pose proof (Z.pow_nonneg 2 e); lia|].
  assert (- Z.pos m / 2 ^ (- e) ≤ 0); [|lia]. apply Z.div_le_upper_bound; [apply Z.pow_pos_nonneg|]; lia.
Qed.

Lemma i64_of_u64_Ok n : n ≤ i64_max → i64_of_u64 n = Ok n.
Proof. intros Hn. unfold i64_of_u64. by rewrite (proj2 (Z.leb_le _ _)). Qed.

Lemma file_entry_value f : 0 ≤ f_len f ≤ i64_max → file_entry (f_len f, path_names (f_path f)) = Ok (file_value f).
Proof.
  intros Hf. unfold file_entry. cbn [fst snd]. rewrite i64_of_u64_Ok, bind_Ok by lia.
  rewrite push_all_bytes. reflexivity.
Qed.

Lemma file_entries_values l : Forall (λ f, 0 ≤ f_len f ≤ i64_max) l →
  file_entries_of ((λ f, (f_len f, path_names (f_path f))) <$> l) = Ok (MList (file_value <$> l)).
Proof.
  intros Hl. unfold file_entries_of.
  assert (mapM file_entry ((λ f, (f_len f, path_names (f_path f))) <$> l) = Ok (file_value <$> l)) as ->.
  { induction Hl as [|f l Hf _ IH]; [done|]. rewrite fmap_cons. cbn [mapM]. rewrite file_entry_value, bind_Ok by done.
    rewrite IH. done. }
  rewrite bind_Ok. by rewrite push_all.
Qed.

Lemma precomputed_pieces (ps : list bytes) : Forall (λ p, length p = SHA_HASH_LEN) ps →
  precomputed ps = (PreComputed <$> (Build_ShaHash <$> ps), Ok ()).
Proof.
  induction 1 as [|p ps Hp _ IH]; [done|]. cbn [precomputed]. unfold ShaHash_from_hash. rewrite Hp. simpl Nat.eqb. cbn iota.
  by rewrite IH.
Qed.

Lemma map_pieces_concat (ps : list bytes) : map_pieces_list (snd <$> numbered (Build_ShaHash <$> ps)) = concat ps.
Proof.
  assert (snd <$> numbered (Build_ShaHash <$> ps) = Build_ShaHash <$> ps) as ->.
  { unfold numbered. rewrite fmap_imap. apply list_eq. intros i. rewrite list_lookup_imap. by destruct (_ !! i). }
  unfold map_pieces_list. assert (∀ acc, foldl (λ c piece, c ++ hash piece) acc (Build_ShaHash <$> ps) = acc ++ concat ps) as E;
    [|apply E].
  induction ps as [|p ps IH]; intros acc; simpl; [by rewrite app_nil_r|]. by rewrite IH, app_assoc.
Qed.

Section Reread.
Context `{Sha1}.

(** The hashers are given the pieces and return them. *)
Lemma info_pieces_returned i rounds : wf_torrent i → Forall (fair_round 1) rounds →
  (length (i_pieces i) + 11 < length rounds)%nat →
  start_hasher_workers (concat rounds) i (Z.to_nat (i_piece_len i)) 1 = Ok (numbered (Build_ShaHash <$> i_pieces i)).
Proof.
  intros Hw Hf Hr. unfold start_hasher_workers. cbn [access_pieces Info_accessor]. rewrite pieces_of_all.
  rewrite precomputed_pieces by apply Hw. pose proof (wt_piece_len _ Hw) as Hp.
  rewrite (hashers_return (Z.to_nat (i_piece_len i)) 1 _ rounds); [|lia|lia| |done|].
  - by rewrite piece_hashes_given by (done || lia).
  - apply Forall_fmap. by apply Forall_true.
  - unfold hasher_cost, master_cost, reading_cost. simpl.
    assert (∀ hs, sum_of access_cost (PreComputed <$> hs) = length hs) as E by (induction hs; simpl; auto).
    rewrite E, length_fmap. lia.
Qed.

Lemma info_metadata i : access_metadata i = ((λ f, (f_len f, f_path f)) <$> i_files i, Ok ()).
Proof. cbn [access_metadata Info_accessor]. by rewrite files_of_all. Qed.

Lemma single_names f : path_name (f_path f) → path_names (f_path f) = [f_path f].
Proof. intros Hp. change (f_path f) with (join_sep [f_path f]) at 1. apply path_names_join. by constructor. Qed.

Lemma fill_info_entries i : wf_torrent i →
  fill_info [] (i_piece_len i) (concat (i_pieces i)) (to_string_lossy <$> i_file_directory i)
    ((λ f, (f_len f, path_names (f_path f))) <$> i_files i) = Ok (info_entries i).
Proof.
  intros Hw. pose proof (wt_piece_len _ Hw) as Hp. pose proof (wt_names _ Hw) as Hn.
  assert (Forall (λ f, 0 ≤ f_len f ≤ i64_max) (i_files i)) as Hlens.
  { apply Forall_forall. intros f Hf. pose proof (files_total_le _ f (wt_lens _ Hw) Hf).
    pose proof (proj1 (Forall_forall _ _) (wt_lens _ Hw) f Hf). pose proof (wt_total _ Hw). simpl in *. lia. }
  unfold fill_info. rewrite (i64_of_u64_Ok (i_piece_len i)), bind_Ok by (unfold i64_max; lia).
  unfold info_entries. destruct (i_file_directory i) as [d|].
  - destruct Hn as (Hu & _ & _). cbn [fmap option_fmap option_map]. rewrite to_string_lossy_valid by done.
    rewrite file_entries_values by done. reflexivity.
  - destruct Hn as (f & Hf & Hc). rewrite Hf in *. rewrite Forall_singleton in Hlens.
    csimpl. rewrite single_names by done. cbn [foldl fst snd]. rewrite app_nil_l.
    rewrite i64_of_u64_Ok, bind_Ok by lia. reflexivity.
Qed.

(** What is written of an accessor that has the files, the directory and the
    hashes of [i]. *)
Lemma build_written {A} `{!Accessor A} (a : A) i sched threads opt_root piece_length : wf_torrent i → threads ≠ 0%nat →
  access_metadata a = ((λ f, (f_len f, f_path f)) <$> i_files i, Ok ()) → access_directory a = i_file_directory i →
  determine_piece_length (files_total (i_files i)) piece_length = Ok (i_piece_len i) →
  start_hasher_workers sched a (Z.to_nat (i_piece_len i)) threads = Ok (numbered (Build_ShaHash <$> i_pieces i)) →
  build_with_accessor sched threads a opt_root (MDict []) piece_length =
    match opt_root with
    | Some root => root ← on_dict root (λ d, (dict_insert d INFO_KEY (MDict (info_entries i))).1); Ok (BencodeMut_encode root)
    | None => Ok (BencodeMut_encode (MDict (info_entries i)))
    end.
Proof.
  intros Hw Ht Em Ed El Eh. unfold build_with_accessor. rewrite (proj2 (Nat.eqb_neq _ _) Ht), Em, <- list_fmap_compose.
  cbn [res_map_err]. rewrite bind_Ok.
  change ((λ '(len, path), (len, to_string_lossy <$> path_iter path)) ∘ (λ f, (f_len f, f_path f)))
    with (λ f, (f_len f, path_names (f_path f))).
  destruct (total_len_files 0 (i_files i) ltac:(done) (wt_lens _ Hw) (wt_total _ Hw)) as [-> Hpos]. rewrite bind_Ok.
  rewrite Z.add_0_l, El, bind_Ok. destruct (count_pieces_Ok (files_total (i_files i)) (i_piece_len i)) as [k ->];
    [pose proof (wt_total _ Hw); lia|apply Hw|].
  rewrite bind_Ok, Eh, bind_Ok, map_pieces_concat, bind_Ok, Ed, fill_info_entries by done. by rewrite bind_Ok.
Qed.

Lemma info_written i rounds : wf_torrent i → Forall (fair_round 1) rounds →
  (length (i_pieces i) + 11 < length rounds)%nat →
  Info_to_bytes (concat rounds) i = Ok (BencodeMut_encode (MDict (info_entries i))).
Proof.
  intros Hw Hf Hr. unfold Info_to_bytes.
  assert (InfoBuilder_set_private_flag InfoBuilder_new (i_is_private i) = Ok InfoBuilder_new) as ->
    by (by destruct (i_is_private i) as [[]|]).
  rewrite bind_Ok. unfold InfoBuilder_build. cbn [res_map_err]. rewrite bind_Ok.
  cbn [InfoBuilder_set_piece_length ib_info ib_piece_length InfoBuilder_new new_dict].
  by rewrite (build_written i i) by (done || apply info_metadata || by apply info_pieces_returned).
Qed.

Lemma copy_chunks_full (l : list bytes) buf : length buf = SHA_HASH_LEN → Forall (λ c, length c = SHA_HASH_LEN) l →
  copy_chunks buf l = l.
Proof.
  intros Hb Hl. revert buf Hb. induction Hl as [|c l Hc _ IH]; intros buf Hb; [done|]. cbn [copy_chunks].
  assert (copy_zip c buf = c) as ->.
  { unfold copy_zip. rewrite take_ge, drop_ge by lia. by rewrite app_nil_r. }
  by rewrite IH.
Qed.

Lemma allocate_concat ps : Forall (λ p : bytes, length p = SHA_HASH_LEN) ps → allocate_pieces (concat ps) = Ok ps.
Proof.
  intros Hp. unfold allocate_pieces.
  assert (length (concat ps) = length ps * SHA_HASH_LEN)%nat as E.
  { induction Hp as [|p ps E _ IH]; [done|]. cbn [concat length]. rewrite length_app, IH, E. lia. }
  rewrite E, Nat.Div0.mod_mul. cbn [Nat.eqb]. rewrite chunks_concat by (done || unfold SHA_HASH_LEN; lia).
  by rewrite copy_chunks_full by (done || apply length_replicate).
Qed.

Lemma push_names buf cs : Forall (λ c, utf8_valid c = true) cs →
  push_path_list buf (MBytes <$> cs) = Ok (foldl path_push buf cs).
Proof.
  intros Hc. revert buf. induction Hc as [|c cs Hu _ IH]; intros buf; [done|]. csimpl.
  unfold parse_path_str, convert_str, str_from_utf8. cbn [ben_str BencodeMut_access]. unfold str_from_utf8. rewrite Hu.
  cbn [ok_or]. rewrite bind_Ok. apply IH.
Qed.

Lemma parse_file_value f cs : 0 ≤ f_len f → f_path f = join_sep cs → Forall path_name cs →
  parse_file (file_value f) = Ok {| f_len := f_len f; f_path := f_path f; f_md5sum := None |}.
Proof.
  intros Hl Hp Hc. unfold file_value. rewrite Hp, path_names_join by done. unfold parse_file, parse_file_dict.
  cbn [convert_dict ben_dict BencodeMut_access ok_or]. rewrite bind_Ok. unfold as_multi_file.
  change (parse_length [(LENGTH_KEY, MInt (f_len f)); (PATH_KEY, MList (MBytes <$> cs))]) with (@u64_of_i64 ParseError (f_len f)).
  unfold u64_of_i64. rewrite (proj2 (Z.leb_le _ _)) by done. rewrite bind_Ok.
  change (parse_path_list [(LENGTH_KEY, MInt (f_len f)); (PATH_KEY, MList (MBytes <$> cs))]) with (@Ok ParseError _ (MBytes <$> cs)).
  rewrite bind_Ok, push_names, bind_Ok by (eapply Forall_impl; [exact Hc|]; by intros c (_ & ? & _)).
  rewrite push_all_clean by (eapply Forall_impl; [exact Hc|]; by intros c (? & _)). done.
Qed.

Lemma parse_file_values l :
  Forall (λ f, 0 ≤ f_len f) l → Forall (λ f, ∃ cs, f_path f = join_sep cs ∧ Forall path_name cs) l →
  mapM parse_file (file_value <$> l) = Ok ((λ f, {| f_len := f_len f; f_path := f_path f; f_md5sum := None |}) <$> l).
Proof.
  induction 1 as [|f l Hf _ IH]; [done|]. intros [(cs & Hp & Hc) Hl]%Forall_cons. rewrite !fmap_cons. cbn [mapM].
  rewrite (parse_file_value f cs), bind_Ok by done. by rewrite IH.
Qed.

(** Reading the dictionary written. *)
Lemma info_read u i : wf_torrent i → parse_info_value u (MDict (info_entries i)) = Ok (info_reread i u).
Proof.
  intros Hw. pose proof (wt_piece_len _ Hw) as Hp. pose proof (wt_names _ Hw) as Hn.
  unfold parse_info_value, parse_root_dict. cbn [convert_dict ben_dict BencodeMut_access ok_or]. rewrite bind_Ok.
  assert (∀ n, 0 ≤ n → @u64_of_i64 ParseError n = Ok n) as Hu64 by (intros; unfold u64_of_i64; by rewrite (proj2 (Z.leb_le _ _))).
  unfold info_entries, info_reread. destruct (i_file_directory i) as [d|].
  - destruct Hn as (Hu & _ & Hfs). cbn [app]. set (e := [_; _; _; _]).
    change (parse_piece_length e) with (@u64_of_i64 ParseError (i_piece_len i)). rewrite Hu64, bind_Ok by lia.
    change (parse_pieces e) with (@Ok ParseError _ (concat (i_pieces i))). rewrite bind_Ok, allocate_concat, bind_Ok by apply Hw.
    change (is_multi_file_torrent e) with (@Ok ParseError _ true). rewrite bind_Ok. cbn iota.
    change (parse_name e) with (@ok_or ParseError _ (CONVERT (WrongType NAME_KEY EUtf8)) (str_from_utf8 d)).
    unfold str_from_utf8. rewrite Hu. cbn [ok_or]. rewrite bind_Ok.
    change (parse_files_list e) with (@Ok ParseError _ (file_value <$> i_files i)). rewrite bind_Ok.
    rewrite parse_file_values, bind_Ok by (done || apply Hw).
    change (parse_private e) with (@None bool). unfold path_push. cbn [last]. by destruct (has_root d).
  - destruct Hn as (f & Hf & Hc & Hu & _). rewrite Hf. cbn [app]. set (e := [_; _; _; _]).
    pose proof (wt_lens _ Hw) as Hl. rewrite Hf in Hl. rewrite Forall_singleton in Hl.
    change (parse_piece_length e) with (@u64_of_i64 ParseError (i_piece_len i)). rewrite Hu64, bind_Ok by lia.
    change (parse_pieces e) with (@Ok ParseError _ (concat (i_pieces i))). rewrite bind_Ok, allocate_concat, bind_Ok by apply Hw.
    unfold is_multi_file_torrent, as_single_file.
    change (parse_length e) with (@u64_of_i64 ParseError (f_len f)). rewrite Hu64 by done. rewrite !bind_Ok. cbn iota.
    change (parse_name e) with (@ok_or ParseError _ (CONVERT (WrongType NAME_KEY EUtf8)) (str_from_utf8 (f_path f))).
    unfold str_from_utf8. rewrite Hu. cbn [ok_or]. by rewrite !bind_Ok.
Qed.
End Reread.

(** ** The dictionary is a proper value *)

Lemma mlist_ok n k l : small k → Forall (λ v, wf_value v ∧ (height v ≤ n)%nat) l → kv_ok (S n) (k, MList l).
Proof.
  intros Hk Hl. split; [done|]. split.
  - apply wf_list_Forall. eapply Forall_impl; [exact Hl|]. by intros v [? _].
  - cbn [snd height]. apply le_n_S. induction Hl as [|v l [_ Hv] _ IH]; csimpl; [lia|]. by apply Nat.max_lub.
Qed.

Lemma dict_value_ok n d : bt_sorted d → Forall (kv_ok n) d → wf_value (MDict d) ∧ (height (MDict d) ≤ S n)%nat.
Proof. intros Hs Hd. assert (small (@nil Z)) as Hk by small_const. by destruct (dict_ok n [] d Hk Hs Hd) as (_ & ? & ?). Qed.

Lemma file_value_ok f cs : is_i64 (f_len f) → f_path f = join_sep cs → Forall path_name cs →
  wf_value (file_value f) ∧ (height (file_value f) ≤ 3)%nat.
Proof.
  intros Hl Hp Hc. unfold file_value. rewrite Hp, path_names_join by done.
  apply (dict_value_ok 2); [sorted_const|]. repeat apply Forall_cons_2; [..|constructor].
  - apply int_ok; [small_const|done].
  - apply mlist_ok; [small_const|]. apply Forall_fmap. eapply Forall_impl; [exact Hc|].
    intros c (_ & _ & Hs). simpl. split; [done|lia].
Qed.

Lemma info_entries_ok i : wf_torrent i → wf_value (MDict (info_entries i)) ∧ (height (MDict (info_entries i)) ≤ 5)%nat.
Proof.
  intros Hw. pose proof (wt_piece_len _ Hw) as Hp. pose proof (wt_names _ Hw) as Hn.
  assert (∀ f, f ∈ i_files i → is_i64 (f_len f)) as Hlen.
  { intros f Hf. pose proof (files_total_le _ f (wt_lens _ Hw) Hf). pose proof (wt_total _ Hw).
    pose proof (proj1 (Forall_forall _ _) (wt_lens _ Hw) f Hf). unfold is_i64, i64_min. simpl in *. lia. }
  assert (is_i64 (i_piece_len i)) as Hpl by (unfold is_i64, i64_min, i64_max; lia).
  unfold info_entries. destruct (i_file_directory i) as [d|].
  - destruct Hn as (_ & Hd & Hfs). apply (dict_value_ok 4); [sorted_const|]. repeat apply Forall_cons_2; [..|constructor].
    + apply mlist_ok; [small_const|]. apply Forall_fmap. apply Forall_forall. intros f Hf.
      destruct (proj1 (Forall_forall _ _) Hfs f Hf) as (cs & Hc & Hcs). eapply file_value_ok; [by apply Hlen|done|done].
    + apply bytes_ok; [small_const|done].
    + apply int_ok; [small_const|done].
    + apply bytes_ok; [small_const|apply Hw].
  - destruct Hn as (f & Hf & _ & _ & Hs). rewrite Hf in *. apply (dict_value_ok 4); [sorted_const|].
    repeat apply Forall_cons_2; [..|constructor].
    + apply int_ok; [small_const|]. apply Hlen. left.
    + apply bytes_ok; [small_const|done].
    + apply int_ok; [small_const|done].
    + apply bytes_ok; [small_const|apply Hw].
Qed.

Lemma info_entries_read `{Sha1} i : wf_torrent i →
  Info_from_bytes (BencodeMut_encode (MDict (info_entries i))) = Ok (info_reread i (BencodeMut_encode (MDict (info_entries i)))).
Proof.
  intros Hw. destruct (info_entries_ok i Hw) as [Hv Hh].
  destruct (decode_encode_prefix BDecodeOpt_default (MDict (info_entries i)) [] Hv) as (v & Hd & He & Hb);
    [etransitivity; [exact Hh|simpl; lia]|by right|].
  rewrite app_nil_r in Hd. unfold Info_from_bytes, parse_info_bytes. rewrite Hd. cbn [res_map_err]. rewrite bind_Ok.
  unfold parse_info_dictionary. rewrite Hb, <- parse_info_erase, He. by apply info_read.
Qed.

(** Claim C11. An info dictionary that is written and read again: the same files, lengths,
    directory, pieces and piece length, under the hash of the bytes written; the
    private flag and the MD5 sums do not survive.  The writer's threads may run
    in any fair order. *)
Theorem info_bytes_roundtrip `{Sha1} i rounds : wf_torrent i → Forall (fair_round 1) rounds →
  (length (i_pieces i) + 11 < length rounds)%nat →
  ∃ l, Info_to_bytes (concat rounds) i = Ok l ∧ Info_from_bytes l = Ok (info_reread i l).
Proof.
  intros Hw Hf Hr. exists (BencodeMut_encode (MDict (info_entries i))). split; [by apply info_written|by apply info_entries_read].
Qed.

Definition sample_info : Info :=
  {| i_info_hash := {| hash := replicate 20 0 |};
     i_files := [{| f_len := 5; f_path := bstr "a/b"; f_md5sum := Some (bstr "x") |}; {| f_len := 3; f_path := bstr "c"; f_md5sum := None |}];
     i_pieces := [replicate 20 7; replicate 20 9]; i_piece_len := 4; i_is_private := Some true;
     i_file_directory := Some (bstr "dir") |}.

Lemma sample_info_wf : wf_torrent sample_info.
Proof.
  split; cbn [sample_info i_pieces i_piece_len i_files i_file_directory].
  - repeat constructor.
  - small_const.
  - lia.
  - repeat constructor; simpl; lia.
  - vm_compute. discriminate.
  - split; [reflexivity|]. split; [small_const|].
    assert (∀ c, clean c → utf8_valid c = true → (length c ≤ 1000)%nat → path_name c) as Hn
      by (intros c ???; split; [done|]; split; [done|]; by eapply small_nat).
    repeat apply Forall_cons_2; [exists [bstr "a"; bstr "b"]|exists [bstr "c"]|constructor]; (split; [reflexivity|]);
      repeat constructor; apply Hn; try (vm_compute; reflexivity || lia); by apply (bool_decide_unpack _).
Qed.

Lemma info_bytes_roundtrip_witness :
  let _ := toy_sha1 in
  wf_torrent sample_info ∧ i_is_private sample_info = Some true ∧
  ∃ l, Info_to_bytes (concat (replicate 20 (turns 1))) sample_info = Ok l ∧ Info_from_bytes l = Ok (info_reread sample_info l).
Proof.
  intros HS. split; [exact sample_info_wf|]. split; [reflexivity|].
  apply (@info_bytes_roundtrip HS sample_info (replicate 20 (turns 1)) sample_info_wf).
  - apply Forall_replicate. apply turns_fair.
  - simpl. lia.
Defined.

(** * The private flag *)

Inductive builder_op :=
  | SetTrackers (o : option (list (list bytes)))
  | SetMainTracker (o : option bytes)
  | SetCreationDate (o : option Z)
  | SetComment (o : option bytes)
  | SetCreatedBy (o : option bytes)
  | SetPrivateFlag (o : option bool)
  | SetPieceLength (p : PieceLength).

Definition apply_op (b : MetainfoBuilder) (op : builder_op) : res ParseError MetainfoBuilder :=
  match op with
  | SetTrackers o => set_trackers b o
  | SetMainTracker o => set_main_tracker b o
  | SetCreationDate o => set_creation_date b o
  | SetComment o => set_comment b o
  | SetCreatedBy o => set_created_by b o
  | SetPrivateFlag o => set_private_flag b o
  | SetPieceLength p => Ok (set_piece_length b p)
  end.

Fixpoint apply_ops (b : MetainfoBuilder) (ops : list builder_op) : res ParseError MetainfoBuilder :=
  match ops with [] => Ok b | op :: ops => b ← apply_op b op; apply_ops b ops end.

Lemma private_flag_empty o : private_flag o [] = [].
Proof. by destruct o as [[]|]. Qed.

Lemma apply_op_info b op d : mb_root b = MDict d → ib_info (mb_info b) = MDict [] →
  ∃ b' d', apply_op b op = Ok b' ∧ mb_root b' = MDict d' ∧ ib_info (mb_info b') = MDict [].
Proof.
  intros Hr Hi. destruct b as [root [info pl]]. simpl in *. subst.
  destruct op as [| | | | |o|]; try (by eexists _, _); simpl. unfold set_private_flag, InfoBuilder_set_private_flag. simpl.
  rewrite private_flag_empty. by eexists _, _.
Qed.

(** Whatever setters a caller applies to a new builder, in any order, none of
    them panics and the info dictionary stays without a [private] key: setting
    the flag inserts the key and removes it again. *)
Theorem private_flag_never_kept ops :
  ∃ b d, apply_ops MetainfoBuilder_new ops = Ok b ∧ ib_info (mb_info b) = MDict d ∧ bt_lookup PRIVATE_KEY d = None.
Proof.
  assert (∀ b d, mb_root b = MDict d → ib_info (mb_info b) = MDict [] →
    ∃ b', apply_ops b ops = Ok b' ∧ ib_info (mb_info b') = MDict []) as Hall.
  { induction ops as [|op ops IH]; intros b d Hr Hi; [by exists b|]. cbn [apply_ops].
    destruct (apply_op_info b op d Hr Hi) as (b' & d' & -> & Hr' & Hi'). rewrite bind_Ok. by eapply IH. }
  destruct (Hall MetainfoBuilder_new [] eq_refl eq_refl) as (b & Hb & Hi). by exists b, [].
Qed.

(** * Hostile fields *)

(** The integers the parser converts to [u64]. *)
Definition non_negative {B} `{!BRefAccess B} (d : list (bytes * B)) (key : bytes) : Prop :=
  ∀ n, lookup_and_convert_int CONVERT d key = Ok n → 0 ≤ n.

Section Hostile.
Context {B : Type} `{!BRefAccess B} `{Sha1}.
Implicit Types d : list (bytes * B).

Lemma u64_no_panic d key : non_negative d key →
  no_panic (len ← lookup_and_convert_int CONVERT d key; u64_of_i64 len).
Proof.
  intros Hd. apply no_panic_bind; [apply lookup_total; intros; apply ok_or_total|].
  intros n Hn. unfold u64_of_i64. rewrite (proj2 (Z.leb_le _ _)) by (by apply Hd). apply no_panic_Ok.
Qed.

Lemma push_path_total buf (l : list B) : no_panic (push_path_list buf l).
Proof.
  revert buf. induction l as [|v l IH]; intros buf; [apply no_panic_Ok|]. apply no_panic_bind; [apply ok_or_total|auto].
Qed.

Lemma parse_file_total (v : B) : (∀ d, ben_dict v = Some d → non_negative d LENGTH_KEY) → no_panic (parse_file v).
Proof.
  intros Hv. unfold parse_file, parse_file_dict, convert_dict. apply no_panic_bind; [apply ok_or_total|].
  intros d Hd. destruct (ben_dict v) as [d'|] eqn:E; simplify_eq/=. unfold as_multi_file.
  apply no_panic_bind; [by apply u64_no_panic, Hv|]. intros len _. cbv zeta.
  apply no_panic_bind; [apply lookup_total; intros; apply ok_or_total|]. intros l _.
  apply no_panic_bind; [apply push_path_total|]. intros p _. apply no_panic_Ok.
Qed.

Lemma mapM_total {A C} (f : A → res ParseError C) l : Forall (λ a, no_panic (f a)) l → no_panic (mapM f l).
Proof.
  induction 1 as [|a l Ha _ IH]; [apply no_panic_Ok|]. cbn [mapM]. apply no_panic_bind; [done|]. intros c _.
  apply no_panic_bind; [done|]. intros cs _. apply no_panic_Ok.
Qed.

(** The lengths of an info dictionary and of the files it lists. *)
Definition lengths_non_negative (v : B) : Prop :=
  ∀ d, ben_dict v = Some d → non_negative d PIECE_LENGTH_KEY ∧ non_negative d LENGTH_KEY ∧
    ∀ l, lookup_and_convert_list CONVERT d FILES_KEY = Ok l →
      Forall (λ f, ∀ fd, ben_dict f = Some fd → non_negative fd LENGTH_KEY) l.

(** Every info dictionary is read to the end or refused with an error, provided
    the lengths in it are not negative. *)
Theorem info_parse_total u (v : B) : lengths_non_negative v → no_panic (parse_info_value u v).
Proof.
  intros Hv. unfold parse_info_value, parse_root_dict, convert_dict. cbv zeta.
  apply no_panic_bind; [apply ok_or_total|]. intros d Hd. destruct (ben_dict v) as [d'|] eqn:E; simplify_eq/=.
  destruct (Hv d E) as (Hp & Hl & Hfs). apply no_panic_bind; [by apply u64_no_panic|]. intros pl _.
  apply no_panic_bind; [apply lookup_total; intros; apply ok_or_total|]. intros ps _.
  apply no_panic_bind; [unfold allocate_pieces; case_match; auto with rust|]. intros pb _.
  pose proof (u64_no_panic d LENGTH_KEY Hl) as Hlen.
  apply no_panic_bind; [unfold is_multi_file_torrent; intros f; unfold parse_length; destruct (_ ≫= _) as [| |g] eqn:Eg;
    [done|done|]; by destruct (Hlen g)|].
  intros [] _.
  - apply no_panic_bind; [apply lookup_total; intros; apply ok_or_total|]. intros name _.
    apply no_panic_bind; [apply lookup_total; intros; apply ok_or_total|]. intros l Hfl.
    apply no_panic_bind; [|intros; apply no_panic_Ok]. apply mapM_total. eapply Forall_impl; [exact (Hfs l Hfl)|].
    intros f Hf. by apply parse_file_total.
  - apply no_panic_bind; [|intros; apply no_panic_Ok]. unfold as_single_file.
    apply no_panic_bind; [done|]. intros len _. cbv zeta.
    apply no_panic_bind; [apply lookup_total; intros; apply ok_or_total|]. intros; apply no_panic_Ok.
Qed.
End Hostile.

Lemma info_parse_total_witness :
  let _ := toy_sha1 in
  lengths_non_negative (MDict (info_entries sample_info)) ∧ no_panic (parse_info_value [] (MDict (info_entries sample_info))).
Proof.
  intros HS. assert (lengths_non_negative (MDict (info_entries sample_info))) as Hl.
  { intros d [= <-]. split; [intros n [= <-]; lia|]. split; [intros n E; discriminate E|]. intros l [= <-].
    repeat constructor; intros fd [= <-] n [= <-]; lia. }
  split; [exact Hl|]. exact (@info_parse_total BencodeMut _ HS [] _ Hl).
Defined.

(** A negative piece length in the file is not refused: the parser panics. *)
Theorem negative_piece_length_panics `{Sha1} u d n : bt_lookup PIECE_LENGTH_KEY d = Some (MInt n) → n < 0 →
  parse_info_value u (MDict d) = Panic UnwrapNone.
Proof.
  intros Hd Hn. unfold parse_info_value. cbn [parse_root_dict convert_dict ben_dict BencodeMut_access ok_or]. rewrite bind_Ok.
  unfold parse_piece_length, lookup_and_convert_int, Bencode.lookup, dict_lookup. rewrite Hd. cbn [mbind res_bind convert_int ben_int BencodeMut_access ok_or].
  unfold u64_of_i64. by rewrite (proj2 (Z.leb_gt _ _)) by done.
Qed.

Lemma negative_piece_length_witness :
  let _ := toy_sha1 in
  Info_from_bytes (bstr "d12:piece lengthi-1ee") = Panic UnwrapNone ∧
  parse_info_value [] (MDict [(PIECE_LENGTH_KEY, MInt (-1))]) = Panic UnwrapNone.
Proof.
  intros HS. split; [vm_compute; reflexivity|].
  apply (@negative_piece_length_panics HS [] [(PIECE_LENGTH_KEY, MInt (-1))] (-1)); [reflexivity|lia].
Defined.

(** An absolute element of a path list discards the elements before it, so a
    file's path can leave the torrent's directory. *)
Theorem absolute_element_replaces buf before p after :
  Forall (λ c, utf8_valid c = true) before → utf8_valid p = true → has_root p = true →
  Forall (λ c, utf8_valid c = true) after →
  push_path_list buf (MBytes <$> (before ++ p :: after)) = Ok (foldl path_push p after).
Proof.
  intros Hb Hp Hr Ha. rewrite push_names by (apply Forall_app; split; [done|by constructor]).
  rewrite foldl_app. cbn [foldl]. unfold path_push at 2. by rewrite Hr.
Qed.

Lemma absolute_element_witness :
  push_path_list [] (MBytes <$> [bstr "data"; bstr "/etc"; bstr "passwd"]) = Ok (bstr "/etc/passwd").
Proof.
  change (bstr "/etc/passwd") with (foldl path_push (bstr "/etc") [bstr "passwd"]).
  apply (absolute_element_replaces [] [bstr "data"] (bstr "/etc") [bstr "passwd"]); repeat constructor.
Defined.
