(* ===== verification/MetaCreate.v ===== *)
(** A torrent file that is built is read back: from any accessor, with any number
    of threads under any fair schedule, the file describes the data it was built
    from, and its fields are those of the builder but for the private flag, which
    the builder loses. *)

From stdpp Require Import base numbers strings list.
From S2P Require Import Prelude RustStd Extern Io Sha Path Bencode BencodeTheorems BencodeErase BencodeAccess DhtMessageProps Metainfo Float Hasher HasherProps MetaBuild MetaProps.

Local Open Scope Z_scope.

(** * Reading the root *)

Section Root.
Context (vs : list (bytes * BencodeRef)) (d : entries) (v : BencodeMut).
Context (Hvs : erase_pair <$> vs = bt_insert INFO_KEY v d) (Hd : bt_sorted d).

Lemma root_lookup k : k ≠ INFO_KEY → bt_lookup k (erase_pair <$> vs) = bt_lookup k d.
Proof using Hvs Hd. intros Hk. rewrite Hvs, bt_lookup_insert by done. by rewrite decide_False. Qed.

Lemma root_info : bt_lookup INFO_KEY (erase_pair <$> vs) = Some v.
Proof using Hvs Hd. rewrite Hvs, bt_lookup_insert by done. by rewrite decide_True. Qed.

Lemma root_str k : k ≠ INFO_KEY → lookup_and_convert_str CONVERT vs k = lookup_and_convert_str CONVERT d k.
Proof using Hvs Hd.
  intros Hk. rewrite lookup_str_erase. unfold lookup_and_convert_str, lookup, dict_lookup. by rewrite root_lookup.
Qed.

Lemma root_int k : k ≠ INFO_KEY → lookup_and_convert_int CONVERT vs k = lookup_and_convert_int CONVERT d k.
Proof using Hvs Hd.
  intros Hk. rewrite lookup_int_erase. unfold lookup_and_convert_int, lookup, dict_lookup. by rewrite root_lookup.
Qed.
End Root.

Lemma bt_lookup_elem {V} k (v : V) m : bt_lookup k m = Some v → (k, v) ∈ m.
Proof.
  induction m as [|[k' v'] m IH]; cbn [bt_lookup]; [done|].
  destruct (bytes_cmpP k k') as [->|H|H]; [intros [= ->]; left|done|intros Hl; right; by apply IH].
Qed.

Lemma list_of_erase (v : BencodeRef) : ben_list_of (T := BencodeMut) (erase v) = (λ l : list BencodeRef, erase <$> l) <$> ben_list_of v.
Proof. by destruct v. Qed.

Lemma strs_erase (l : list BencodeRef) : omap (ben_str (T := BencodeMut)) (erase <$> l) = omap ben_str l.
Proof. induction l as [|v l IH]; [done|]. rewrite fmap_cons. cbn [omap list_omap]. by rewrite str_erase, IH. Qed.

Lemma lists_erase (l : list BencodeRef) :
  omap (ben_list_of (T := BencodeMut)) (erase <$> l) = (λ k : list BencodeRef, erase <$> k) <$> omap ben_list_of l.
Proof.
  induction l as [|v l IH]; [done|]. rewrite fmap_cons. cbn [omap list_omap]. rewrite list_of_erase.
  destruct (ben_list_of v) as [k|]; cbn [fmap option_fmap option_map]; [|exact IH]. rewrite IH. done.
Qed.

Lemma announce_list_erase (l : list BencodeRef) : convert_announce_list (erase <$> l) = convert_announce_list l.
Proof.
  unfold convert_announce_list. rewrite lists_erase, <- list_fmap_compose. apply list_fmap_ext. intros _ k _. apply strs_erase.
Qed.

Lemma root_announce_list vs d v : erase_pair <$> vs = bt_insert INFO_KEY v d → bt_sorted d →
  convert_announce_list <$> parse_announce_list vs = convert_announce_list <$> parse_announce_list d.
Proof.
  intros Hvs Hd. assert (parse_announce_list (erase_pair <$> vs) = parse_announce_list d) as <-.
  { unfold parse_announce_list, lookup_and_convert_list, lookup, dict_lookup. by rewrite (root_lookup vs d v). }
  unfold parse_announce_list. rewrite lookup_list_erase. destruct (lookup_and_convert_list CONVERT vs ANNOUNCE_LIST_KEY); [|done|done].
  csimpl. by rewrite announce_list_erase.
Qed.

(** The root written with [info] in it. *)
Lemma root_read `{Sha1} d info i : bt_sorted d → Forall (kv_ok 40) d → kv_ok 40 (INFO_KEY, MDict info) →
  parse_info_value (BencodeMut_encode (MDict info)) (MDict info) = Ok i →
  Metainfo_from_bytes (BencodeMut_encode (MDict (bt_insert INFO_KEY (MDict info) d))) =
    Ok {| m_comment := parse_comment d; m_announce := parse_announce_url d; m_announce_list := convert_announce_list <$> parse_announce_list d;
          m_encoding := parse_encoding d; m_created_by := parse_created_by d; m_creation_date := parse_creation_date d; m_info := i |}.
Proof.
  intros Hs Hd Hi Hp. destruct (dict_value_ok 40 (bt_insert INFO_KEY (MDict info) d)) as [Hw Hh];
    [by apply bt_insert_sorted|by apply bt_insert_Forall|].
  destruct (decode_encode_dict BDecodeOpt_default (bt_insert INFO_KEY (MDict info) d) Hw) as (vs & b & E & Hvs & Hx); [simpl in *; lia|].
  unfold Metainfo_from_bytes, parse_meta_bytes. rewrite E. cbn [res_map_err]. rewrite bind_Ok.
  change (parse_root_dict (RDict vs b)) with (@Ok ParseError _ vs). rewrite bind_Ok.
  assert (∃ w, bt_lookup INFO_KEY vs = Some w ∧ erase w = MDict info) as (w & Ew & Hw').
  { pose proof (root_info vs d _ Hvs Hs) as Hl. rewrite bt_lookup_erase in Hl. destruct (bt_lookup INFO_KEY vs) as [w|]; [|done].
    injection Hl as Hl. by exists w. }
  unfold parse_info_bencode, lookup, dict_lookup. rewrite Ew, bind_Ok. unfold parse_info_dictionary.
  assert (buffer w = BencodeMut_encode (MDict info)) as ->.
  { rewrite <- Hw'. assert ((INFO_KEY, w) ∈ vs) as Hin by (by apply bt_lookup_elem). by apply (proj1 (Forall_forall _ _) Hx) in Hin. }
  rewrite <- parse_info_erase, Hw', Hp, bind_Ok. unfold parse_comment, parse_announce_url, parse_encoding, parse_created_by, parse_creation_date.
  rewrite !(root_str vs d _ Hvs Hs), (root_int vs d _ Hvs Hs) by done. by rewrite (root_announce_list vs d _ Hvs Hs).
Qed.

(** * The builder *)

(** Strings and dates that fit a torrent file. *)
Definition str_ok (s : bytes) : Prop := small s ∧ utf8_valid s = true.
Definition op_ok (op : builder_op) : Prop :=
  match op with
  | SetTrackers (Some groups) => Forall (Forall str_ok) groups
  | SetMainTracker (Some s) | SetComment (Some s) | SetCreatedBy (Some s) => str_ok s
  | SetCreationDate (Some n) => is_i64 n
  | _ => True
  end.

Definition builder_ok (b : MetainfoBuilder) : Prop :=
  ∃ d, mb_root b = MDict d ∧ bt_sorted d ∧ Forall (kv_ok 40) d ∧ ib_info (mb_info b) = MDict [].

Lemma set_or_remove_ok k v d : (∀ x, v = Some x → kv_ok 40 (k, x)) → bt_sorted d → Forall (kv_ok 40) d →
  bt_sorted (set_or_remove k v d) ∧ Forall (kv_ok 40) (set_or_remove k v d).
Proof.
  intros Hv Hs Hd. destruct v as [x|]; cbn.
  - split; [by apply bt_insert_sorted|]. apply bt_insert_Forall; [by apply Hv|done].
  - split; [by apply bt_remove_sorted|by apply bt_remove_Forall].
Qed.

Lemma on_root_ok b k v : (∀ x, v = Some x → kv_ok 40 (k, x)) → builder_ok b →
  ∃ b', on_root b (set_or_remove k v) = Ok b' ∧ builder_ok b'.
Proof.
  intros Hv (d & Hr & Hs & Hd & Hi). unfold on_root. rewrite Hr. cbn [on_dict]. rewrite bind_Ok. eexists. split; [done|].
  destruct (set_or_remove_ok k v d Hv Hs Hd). by eexists.
Qed.

Lemma tracker_lists_eq groups : tracker_lists groups = MList ((λ group, MList (MBytes <$> group)) <$> groups).
Proof.
  unfold tracker_lists. assert (∀ acc, foldl (λ l group, list_push l (MList (foldl (λ l tracker_url, list_push l (MBytes tracker_url)) [] group)))
    acc groups = acc ++ ((λ group, MList (MBytes <$> group)) <$> groups)) as E; [|by rewrite E].
  induction groups as [|g groups IH]; intros acc; simpl; [by rewrite app_nil_r|]. rewrite IH, push_all_bytes. unfold list_push.
  by rewrite <- app_assoc.
Qed.

Lemma tracker_lists_ok k groups : small k → Forall (Forall str_ok) groups → kv_ok 40 (k, tracker_lists groups).
Proof.
  intros Hk Hg. rewrite tracker_lists_eq.
  apply mlist_ok; [done|]. apply Forall_fmap. eapply Forall_impl; [exact Hg|]. intros g Hgs. cbn beta.
  destruct (mlist_ok 2 k (MBytes <$> g) Hk) as (_ & Hw & Hh); [|split; [exact Hw|cbn in *; lia]].
  apply Forall_fmap. eapply Forall_impl; [exact Hgs|]. intros s [Hsm _]. cbn. split; [done|lia].
Qed.

Lemma apply_op_ok b op : op_ok op → builder_ok b → ∃ b', apply_op b op = Ok b' ∧ builder_ok b'.
Proof.
  intros Ho Hb. destruct op as [o|o|o|o|o|o|p]; cbn [apply_op].
  - apply on_root_ok; [|done]. destruct o as [groups|]; [|done]. intros x [= <-]. apply tracker_lists_ok; [small_const|done].
  - apply on_root_ok; [|done]. destruct o as [s|]; [|done]. intros x [= <-]. apply bytes_ok; [small_const|apply Ho].
  - apply on_root_ok; [|done]. destruct o as [s|]; [|done]. intros x [= <-]. apply int_ok; [small_const|done].
  - apply on_root_ok; [|done]. destruct o as [s|]; [|done]. intros x [= <-]. apply bytes_ok; [small_const|apply Ho].
  - apply on_root_ok; [|done]. destruct o as [s|]; [|done]. intros x [= <-]. apply bytes_ok; [small_const|apply Ho].
  - destruct Hb as (d & Hr & Hs & Hd & Hi). unfold set_private_flag, InfoBuilder_set_private_flag. rewrite Hi. cbn [on_dict].
    rewrite !bind_Ok, private_flag_empty. eexists. split; [done|]. by exists d.
  - destruct Hb as (d & Hr & Hs & Hd & Hi). eexists. split; [done|]. by exists d.
Qed.

Lemma apply_ops_ok ops : ∀ b, Forall op_ok ops → builder_ok b → ∃ b', apply_ops b ops = Ok b' ∧ builder_ok b'.
Proof.
  induction ops as [|op ops IH]; intros b Ho Hb; cbn [apply_ops]; [by exists b|]. apply Forall_cons in Ho as [Ho Hos].
  destruct (apply_op_ok b op Ho Hb) as (b1 & -> & Hb1). rewrite bind_Ok. by apply IH.
Qed.

Lemma new_builder_ok : builder_ok MetainfoBuilder_new.
Proof. exists []. split; [done|]. split; [constructor|]. split; [constructor|done]. Qed.

(** ** The fields set *)

(** The entry of the root a setter changes. *)
Definition op_entry (op : builder_op) : option (bytes * option BencodeMut) :=
  match op with
  | SetTrackers o => Some (ANNOUNCE_LIST_KEY, tracker_lists <$> o)
  | SetMainTracker o => Some (ANNOUNCE_URL_KEY, MBytes <$> o)
  | SetCreationDate o => Some (CREATION_DATE_KEY, MInt <$> o)
  | SetComment o => Some (COMMENT_KEY, MBytes <$> o)
  | SetCreatedBy o => Some (CREATED_BY_KEY, MBytes <$> o)
  | SetPrivateFlag _ | SetPieceLength _ => None
  end.

Definition entry_after (k : bytes) (e : option BencodeMut) (op : builder_op) : option BencodeMut :=
  match op_entry op with Some (k', v) => if decide (k = k') then v else e | None => e end.

Lemma set_or_remove_lookup k v d k' : bt_sorted d →
  bt_lookup k' (set_or_remove k v d) = if decide (k' = k) then v else bt_lookup k' d.
Proof. intros Hs. destruct v; cbn; [by apply bt_lookup_insert|by apply bt_lookup_remove]. Qed.

Lemma apply_op_lookup b op b' d d' : apply_op b op = Ok b' → mb_root b = MDict d → bt_sorted d → mb_root b' = MDict d' →
  ∀ k, bt_lookup k d' = entry_after k (bt_lookup k d) op.
Proof.
  intros Ha Hr Hs Hr' k. destruct op as [o|o|o|o|o|o|p]; cbn [apply_op] in Ha; unfold entry_after; cbn [op_entry].
  1-5: unfold set_trackers, set_main_tracker, set_creation_date, set_comment, set_created_by, on_root in Ha; rewrite Hr in Ha;
    cbn [on_dict] in Ha; rewrite bind_Ok in Ha; injection Ha as <-; injection Hr' as <-; by apply set_or_remove_lookup.
  - unfold set_private_flag in Ha. bind_inv Ha as i eqn Ei. injection Ha as <-. cbn in Hr'. congruence.
  - injection Ha as <-. cbn in Hr'. congruence.
Qed.

Lemma apply_ops_lookup ops : ∀ b b' d d', Forall op_ok ops → builder_ok b → apply_ops b ops = Ok b' → mb_root b = MDict d → mb_root b' = MDict d' →
  ∀ k, bt_lookup k d' = foldl (entry_after k) (bt_lookup k d) ops.
Proof.
  induction ops as [|op ops IH]; intros b b' d d' Ho Hb Ha Hr Hr' k; cbn [apply_ops foldl] in *; [congruence|].
  apply Forall_cons in Ho as [Ho Hos]. bind_inv Ha as b1 eqn E1. destruct (apply_op_ok b op Ho Hb) as (b2 & E2 & Hb2).
  rewrite E1 in E2. injection E2 as <-. destruct (id Hb2) as (d1 & Hr1 & Hs1 & _). destruct Hb as (d0 & Hr0 & Hs0 & _).
  rewrite Hr in Hr0. injection Hr0 as <-. rewrite <- (apply_op_lookup b op b1 d d1 E1 Hr Hs0 Hr1). by eapply IH.
Qed.

(** The value last set, by [f]. *)
Definition last_set {A} (f : builder_op → option (option A)) (ops : list builder_op) : option A := foldl (λ acc op, default acc (f op)) None ops.

Definition of_trackers (op : builder_op) : option (option (list (list bytes))) := match op with SetTrackers o => Some o | _ => None end.
Definition of_main_tracker (op : builder_op) : option (option bytes) := match op with SetMainTracker o => Some o | _ => None end.
Definition of_creation_date (op : builder_op) : option (option Z) := match op with SetCreationDate o => Some o | _ => None end.
Definition of_comment (op : builder_op) : option (option bytes) := match op with SetComment o => Some o | _ => None end.
Definition of_created_by (op : builder_op) : option (option bytes) := match op with SetCreatedBy o => Some o | _ => None end.

Lemma last_entry {A} (f : builder_op → option (option A)) (enc : A → BencodeMut) k ops :
  (∀ e op, entry_after k e op = match f op with Some o => enc <$> o | None => e end) →
  foldl (entry_after k) None ops = enc <$> last_set f ops.
Proof.
  intros He. unfold last_set. change (@None BencodeMut) with (enc <$> @None A). generalize (@None A) as acc.
  induction ops as [|op ops IH]; intros acc; cbn [foldl]; [done|]. rewrite He. rewrite <- IH. by destruct (f op).
Qed.

Lemma last_set_ok {A} (f : builder_op → option (option A)) (P : A → Prop) ops : 
  (∀ op x, op_ok op → f op = Some (Some x) → P x) → Forall op_ok ops → ∀ x, last_set f ops = Some x → P x.
Proof.
  intros Hf Ho. unfold last_set. assert (∀ acc, (∀ x, acc = Some x → P x) →
    ∀ x, foldl (λ acc op, default acc (f op)) acc ops = Some x → P x) as Hall; [|by apply Hall].
  induction Ho as [|op ops Hop _ IH]; intros acc Ha x; cbn [foldl]; [apply Ha|]. apply IH. intros y Hy.
  destruct (f op) as [o|] eqn:E; [|by apply Ha]. cbn in Hy. subst o. by eapply Hf.
Qed.

Lemma str_field (d : entries) k o : (∀ s, o = Some s → str_ok s) → bt_lookup k d = MBytes <$> o →
  lookup_ok (lookup_and_convert_str CONVERT d k) = o.
Proof.
  intros Ho Hl. unfold lookup_and_convert_str, lookup, dict_lookup. rewrite Hl. destruct o as [s|]; [|done].
  assert (str_from_utf8 s = Some s) as E by (unfold str_from_utf8; by rewrite (proj2 (Ho s eq_refl))).
  cbn [fmap option_fmap option_map]. rewrite bind_Ok. unfold convert_str. cbn [ben_str BencodeMut_access]. by rewrite E.
Qed.

Lemma int_field (d : entries) k o : bt_lookup k d = MInt <$> o → lookup_ok (lookup_and_convert_int CONVERT d k) = o.
Proof. intros Hl. unfold lookup_and_convert_int, lookup, dict_lookup. rewrite Hl. by destruct o. Qed.

Lemma valid_strs (l : list bytes) : Forall str_ok l → omap (ben_str (T := BencodeMut)) (MBytes <$> l) = l.
Proof.
  induction 1 as [|s l [_ Hs] _ IH]; [done|]. rewrite fmap_cons. cbn [omap list_omap]. rewrite IH. cbn. unfold str_from_utf8. by rewrite Hs.
Qed.

Lemma trackers_field (d : entries) o : (∀ groups, o = Some groups → Forall (Forall str_ok) groups) →
  bt_lookup ANNOUNCE_LIST_KEY d = tracker_lists <$> o → convert_announce_list <$> parse_announce_list d = o.
Proof.
  intros Ho Hl. unfold parse_announce_list, lookup_and_convert_list, lookup, dict_lookup. rewrite Hl. destruct o as [groups|]; [|done].
  specialize (Ho groups eq_refl). cbn [fmap option_fmap option_map]. rewrite tracker_lists_eq. cbn. f_equal. unfold convert_announce_list. clear Hl.
  induction Ho as [|g groups Hg _ IH]; [done|]. rewrite fmap_cons. cbn [omap list_omap]. cbn. f_equal; [by apply valid_strs|exact IH].
Qed.

(** * Building *)

Definition new_file (c : Z * bytes) : File := {| f_len := c.1; f_path := c.2; f_md5sum := None |}.

(** An accessor without errors: the lengths and paths of files, and their bytes as
    they are read. *)
Record gives {A} `{!Accessor A} (a : A) (files : list (Z * bytes)) (directory : option bytes) (regions : list Region) : Prop := {
  gv_files : access_metadata a = (files, Ok ());
  gv_directory : access_directory a = directory;
  gv_pieces : access_pieces a = (Compute <$> regions, Ok ());
  gv_regions : Forall wf_region regions
}.

(** The torrent of the files: the SHA-1 hashes of the pieces of all their bytes. *)
Definition torrent_of `{Sha1} (files : list (Z * bytes)) (directory : option bytes) (regions : list Region) (piece_len : Z) (info_hash : ShaHash) : Info :=
  {| i_info_hash := info_hash; i_files := new_file <$> files;
     i_pieces := sha1 <$> chunks (Z.to_nat piece_len) (concat (region_bytes <$> regions));
     i_piece_len := piece_len; i_is_private := None; i_file_directory := directory |}.

Section Create.
Context `{Sha1}.

Lemma hashes_of_pieces (l : list bytes) : Build_ShaHash <$> (sha1 <$> l) = ShaHash_from_bytes <$> l.
Proof. by rewrite <- list_fmap_compose. Qed.

Lemma regions_hashed {A} `{!Accessor A} (a : A) files directory regions n threads rounds h : gives a files directory regions → (0 < n)%Z →
  (0 < threads)%nat → Forall (fair_round threads) rounds →
  (hasher_cost (hasher_start (Z.to_nat n) threads (Compute <$> regions) (Ok ())) < length rounds)%nat →
  start_hasher_workers (concat rounds) a (Z.to_nat n) threads = Ok (numbered (Build_ShaHash <$> i_pieces (torrent_of files directory regions n h))).
Proof.
  intros [_ _ Hp Hr] Hn Ht Hf Hc. unfold start_hasher_workers. rewrite Hp.
  rewrite (hashers_return (Z.to_nat n) threads _ rounds); [|lia|done| |done|done].
  - cbn [torrent_of i_pieces]. rewrite hashes_of_pieces, piece_hashes_regions by (simpl; lia). done.
  - apply Forall_fmap. exact Hr.
Qed.

Lemma new_files (files : list (Z * bytes)) : (λ f, (f_len f, f_path f)) <$> (new_file <$> files) = files.
Proof. induction files as [|[x y] files IH]; [done|]. rewrite !fmap_cons, IH. done. Qed.

Lemma torrent_reread files directory regions n h u :
  info_reread (torrent_of files directory regions n h) u = torrent_of files directory regions n (ShaHash_from_bytes u).
Proof. unfold info_reread, torrent_of. cbn. by rewrite <- list_fmap_compose. Qed.

Lemma created_and_read {A} `{!Accessor A} (a : A) ops b files directory regions n threads rounds :
  Forall op_ok ops → apply_ops MetainfoBuilder_new ops = Ok b → gives a files directory regions →
  determine_piece_length (files_total (new_file <$> files)) (ib_piece_length (mb_info b)) = Ok n →
  wf_torrent (torrent_of files directory regions n {| hash := [] |}) →
  (0 < threads)%nat → Forall (fair_round threads) rounds →
  (hasher_cost (hasher_start (Z.to_nat n) threads (Compute <$> regions) (Ok ())) < length rounds)%nat →
  ∃ l info_bytes m, MetainfoBuilder_build (concat rounds) b threads (Ok a) = Ok l ∧ Metainfo_from_bytes l = Ok m ∧
    m_info m = torrent_of files directory regions n (ShaHash_from_bytes info_bytes) ∧ Info_from_bytes info_bytes = Ok (m_info m) ∧
    m_announce m = last_set of_main_tracker ops ∧ m_announce_list m = last_set of_trackers ops ∧ m_comment m = last_set of_comment ops ∧
    m_created_by m = last_set of_created_by ops ∧ m_creation_date m = last_set of_creation_date ops.
Proof.
  intros Ho Hb Hg Hl Hw Ht Hf Hc. destruct (apply_ops_ok ops _ Ho new_builder_ok) as (b' & Hb' & d & Hr & Hs & Hd & Hi).
  rewrite Hb in Hb'. injection Hb' as <-. pose proof (apply_ops_lookup ops _ b [] d Ho new_builder_ok Hb eq_refl Hr) as Hk.
  set (i := torrent_of files directory regions n {| hash := [] |}) in *.
  set (u := BencodeMut_encode (MDict (info_entries i))). pose proof (wt_piece_len _ Hw) as Hn.
  destruct (info_entries_ok i Hw) as [Hv Hh].
  eexists (BencodeMut_encode (MDict (bt_insert INFO_KEY (MDict (info_entries i)) d))), u, _. split_and!.
  - unfold MetainfoBuilder_build. cbn [res_map_err]. rewrite bind_Ok, Hr, Hi.
    rewrite (build_written a i); [done|done|lia| |by apply Hg|done|].
    + unfold i. cbn [torrent_of i_files]. rewrite new_files. apply Hg.
    + apply (regions_hashed a files directory regions n threads rounds _ Hg); [change (i_piece_len i) with n in Hn; lia|done..].
  - apply root_read; [done|done| |by apply (info_read u i)]. split; [small_const|]. split; [exact Hv|]. cbn [snd]. lia.
  - cbn [m_info]. apply torrent_reread.
  - by apply info_entries_read.
  - apply str_field; [apply (last_set_ok of_main_tracker str_ok ops); [by intros [] ? ? [= ->]|done]|]. rewrite Hk. apply last_entry. by intros e [].
  - apply trackers_field; [apply (last_set_ok of_trackers (Forall (Forall str_ok)) ops); [by intros [] ? ? [= ->]|done]|]. rewrite Hk. apply last_entry. by intros e [].
  - apply str_field; [apply (last_set_ok of_comment str_ok ops); [by intros [] ? ? [= ->]|done]|]. rewrite Hk. apply last_entry. by intros e [].
  - apply str_field; [apply (last_set_ok of_created_by str_ok ops); [by intros [] ? ? [= ->]|done]|]. rewrite Hk. apply last_entry. by intros e [].
  - apply int_field. rewrite Hk. apply last_entry. by intros e [].
Qed.

(** Claim C10. A torrent file is built and read back.  Whatever setters were called, from an
    accessor without errors, with any number of threads and whatever order they run
    in, the file is written; reading it gives the files and directory with their
    lengths, the SHA-1 hash of every piece of all the bytes and the piece length,
    under the hash of the bytes of the info dictionary, and the trackers, the
    comment, the creator and the creation date as each was set last.  The private
    flag is the exception: it is lost, and no torrent reads back as private or as
    not private, whatever was set, although [set_private_flag] is documented to set
    it. *)
Theorem torrent_created {A} `{!Accessor A} (a : A) ops b files directory regions n threads rounds :
  Forall op_ok ops → apply_ops MetainfoBuilder_new ops = Ok b → gives a files directory regions →
  determine_piece_length (files_total (new_file <$> files)) (ib_piece_length (mb_info b)) = Ok n →
  wf_torrent (torrent_of files directory regions n {| hash := [] |}) →
  (0 < threads)%nat → Forall (fair_round threads) rounds →
  (hasher_cost (hasher_start (Z.to_nat n) threads (Compute <$> regions) (Ok ())) < length rounds)%nat →
  ∃ l info_bytes m, MetainfoBuilder_build (concat rounds) b threads (Ok a) = Ok l ∧ Metainfo_from_bytes l = Ok m ∧
    m_info m = torrent_of files directory regions n (ShaHash_from_bytes info_bytes) ∧ Info_from_bytes info_bytes = Ok (m_info m) ∧
    m_announce m = last_set of_main_tracker ops ∧ m_announce_list m = last_set of_trackers ops ∧ m_comment m = last_set of_comment ops ∧
    m_created_by m = last_set of_created_by ops ∧ m_creation_date m = last_set of_creation_date ops ∧
    i_is_private (m_info m) = None.
Proof.
  intros Ho Hb Hg Hl Hw Ht Hf Hc.
  destruct (created_and_read a ops b files directory regions n threads rounds Ho Hb Hg Hl Hw Ht Hf Hc) as (l & u & m & H1 & H2 & H3 & H4 & ?&?&?&?&?).
  exists l, u, m. split_and!; [done..|]. by rewrite H3.
Qed.
End Create.

(** * Accessors *)

(** A file in memory. *)
Lemma direct_gives name contents :
  gives (DirectAccessor_new name contents) [(Z.of_nat (length contents), name)] None [cursor contents].
Proof.
  split; try done. apply Forall_singleton. destruct contents as [|c contents]; [constructor|]. constructor; [done|constructor].
Qed.

(** Files on disk: entries of the walk that are files, with their length and what
    reading them gives, and no error. *)
Section OnDisk.
Context `{OsFiles}.

Definition disk_file : Type := bytes * Z * Region.
Definition disk_entry (f : disk_file) : DirEntry := {| de_path := f.1.1; de_is_file := true; de_len := Ok f.1.2; de_open := Ok f.2 |}.

Lemma walk_all {A} (k : DirEntry → res io_error A) (g : disk_file → A) fs : (∀ f, k (disk_entry f) = Ok (g f)) →
  walk_entries k (Ok <$> (disk_entry <$> fs)) = (g <$> fs, Ok ()).
Proof.
  intros Hk. induction fs as [|f fs IH]; [done|]. rewrite !fmap_cons. cbn [walk_entries]. rewrite bind_Ok, Hk, IH. done.
Qed.

(** A directory: the paths are those below it. *)
Lemma file_accessor_gives accessor name fs : fa_directory_name accessor = Some name →
  file_entries accessor = Ok <$> (disk_entry <$> fs) → Forall (λ f, wf_region f.2) fs →
  gives accessor ((λ f : disk_file, (f.1.2, relative_path (length (path_iter (fa_absolute_path accessor))) f.1.1)) <$> fs) (Some name) (snd <$> fs).
Proof.
  intros Hn He Hr. split.
  - cbn [access_metadata FileAccessor_accessor]. unfold FileAccessor_access_metadata. rewrite Hn, He. by apply walk_all.
  - done.
  - cbn [access_pieces FileAccessor_accessor]. unfold FileAccessor_access_pieces. rewrite He.
    rewrite (walk_all _ (λ f : disk_file, Compute f.2)) by done. by rewrite <- list_fmap_compose.
  - by apply Forall_fmap.
Qed.
End OnDisk.

(** * A torrent of one file *)

Definition sample_ops : list builder_op :=
  [SetComment (Some (bstr "c")); SetMainTracker (Some (bstr "t")); SetComment None; SetCreationDate (Some 5); SetPrivateFlag (Some true);
   SetPieceLength (Custom 3)].
Definition sample_contents : bytes := [1; 2; 3; 4; 5; 6; 7].

Lemma sample_ops_ok : Forall op_ok sample_ops.
Proof.
  constructor; [split; [small_const|done]|]. constructor; [split; [small_const|done]|]. constructor; [exact I|].
  constructor; [by vm_compute|]. constructor; [exact I|]. constructor; [exact I|]. constructor.
Qed.

Lemma sample_created_wf `{Sha1} : wf_torrent (torrent_of [(7, bstr "a")] None [cursor sample_contents] 3 {| hash := [] |}).
Proof.
  split; cbn [torrent_of i_pieces i_piece_len i_files i_file_directory].
  - apply Forall_fmap, Forall_forall. intros l _. apply sha1_length.
  - change (chunks _ _) with [[1; 2; 3]; [4; 5; 6]; [7]]. cbn [fmap list_fmap concat]. rewrite !length_app, !sha1_length. vm_compute. by split.
  - lia.
  - by repeat constructor.
  - vm_compute. discriminate.
  - eexists. split; [reflexivity|]. split; [by apply (bool_decide_unpack _)|]. split; [by vm_compute|small_const].
Qed.

Lemma torrent_created_witness :
  let _ := toy_sha1 in
  ∃ b l m, apply_ops MetainfoBuilder_new sample_ops = Ok b ∧
    MetainfoBuilder_build (concat (replicate 100 (turns 2))) b 2 (Ok (DirectAccessor_new (bstr "a") sample_contents)) = Ok l ∧
    Metainfo_from_bytes l = Ok m ∧ i_pieces (m_info m) = sha1 <$> [[1; 2; 3]; [4; 5; 6]; [7]] ∧
    m_comment m = None ∧ m_announce m = Some (bstr "t") ∧ SetPrivateFlag (Some true) ∈ sample_ops ∧ i_is_private (m_info m) = None.
Proof.
  intros HS. destruct (apply_ops_ok sample_ops MetainfoBuilder_new) as (b & Hb & _); [apply sample_ops_ok|apply new_builder_ok|].
  destruct (@torrent_created HS _ _ (DirectAccessor_new (bstr "a") sample_contents) sample_ops b [(7, bstr "a")] None [cursor sample_contents] 3 2
    (replicate 100 (turns 2))) as (l & u & m & H1 & H2 & H3 & _ & H4 & _ & H5 & _ & _ & H6).
  - apply sample_ops_ok.
  - exact Hb.
  - apply direct_gives.
  - vm_compute in Hb. injection Hb as <-. reflexivity.
  - apply sample_created_wf.
  - lia.
  - apply Forall_replicate, turns_fair.
  - vm_compute. lia.
  - exists b, l, m. split_and!; [done|done|done|by rewrite H3|done|done|by do 4 right; left|done].
Defined.
