(* ===== verification/Disk.v ===== *)
(** packages/disk: memory/block.rs, error.rs, disk/mod.rs, disk/fs, the file
    regions of a block (piece_accessor.rs) and the tasks of the disk manager.

    A [FileSystem] is an interface over a state [S]; a task is a computation on
    the state that ends in a value, an error or a panic.  [u64] sums panic on
    overflow. *)

From stdpp Require Import base numbers gmap strings list.
From S2P Require Import Prelude RustStd Extern Io Sha Path Bencode Metainfo.
Local Open Scope Z_scope.

(** * Computations on a state *)

Definition st (S E A : Type) : Type := S → S * res E A.

#[export] Instance st_ret {S E} : MRet (st S E) := λ A a s, (s, Ok a).
#[export] Instance st_bind {S E} : MBind (st S E) := λ A B k m s,
  match m s with
  | (s, Ok a) => k a s
  | (s, Err e) => (s, Err e)
  | (s, Panic f) => (s, Panic f)
  end.

Definition st_res {S E A} (r : res E A) : st S E A := λ s, (s, r).
Definition st_map_err {S E E' A} (f : E → E') (m : st S E A) : st S E' A := λ s,
  let '(s, r) := m s in (s, res_map_err f r).
(** [.expect(..)] *)
Definition st_expect {S E E' A} (m : st S E A) : st S E' A := λ s,
  match m s with
  | (s, Ok a) => (s, Ok a)
  | (s, Err _) => (s, Panic UnwrapNone)
  | (s, Panic f) => (s, Panic f)
  end.

Definition u64_add {E} (x y : Z) : res E Z := if x + y <=? u64_max then Ok (x + y) else Panic ArithOverflow.
Definition u64_mul {E} (x y : Z) : res E Z := if x * y <=? u64_max then Ok (x * y) else Panic ArithOverflow.

(** * Blocks (memory/block.rs) *)

Record BlockMetadata := {
  bm_info_hash : ShaHash;
  bm_piece_index : Z;
  bm_block_offset : Z;
  bm_block_length : Z
}.

#[export] Instance BlockMetadata_eq_dec : EqDecision BlockMetadata.
Proof. solve_decision. Defined.

Definition BlockMetadata_new (info_hash : ShaHash) (piece_index block_offset block_length : Z) : BlockMetadata :=
  {| bm_info_hash := info_hash; bm_piece_index := piece_index; bm_block_offset := block_offset;
     bm_block_length := block_length |}.
Definition zero_hash : ShaHash := {| hash := replicate INFO_HASH_LEN 0 |}.
Definition with_default_hash (piece_index block_offset block_length : Z) : BlockMetadata :=
  BlockMetadata_new zero_hash piece_index block_offset block_length.
Definition BlockMetadata_default : BlockMetadata := BlockMetadata_new zero_hash 0 0 0.

Record Block := { b_metadata : BlockMetadata; b_block_data : bytes }.
Definition Block_new (metadata : BlockMetadata) (block_data : bytes) : Block :=
  {| b_metadata := metadata; b_block_data := block_data |}.
Definition Block_into_parts (self : Block) : BlockMetadata * bytes := (b_metadata self, b_block_data self).

Record BlockMut := { bmut_metadata : BlockMetadata; bmut_block_data : bytes }.
Definition BlockMut_new (metadata : BlockMetadata) (block_data : bytes) : BlockMut :=
  {| bmut_metadata := metadata; bmut_block_data := block_data |}.
Definition BlockMut_into_parts (self : BlockMut) : BlockMetadata * bytes := (bmut_metadata self, bmut_block_data self).
Definition Block_from (block : BlockMut) : Block := Block_new (bmut_metadata block) (bmut_block_data block).

(** * Errors (error.rs) and messages (disk/mod.rs) *)

Inductive BlockError := BE_Io (e : io_error) | BE_InfoHashNotFound (hash : ShaHash).
Inductive TorrentError :=
  | TE_Block (e : BlockError)
  | TE_Io (e : io_error)
  | TE_ExistingFileSizeCheck (file_path : bytes) (expected_size actual_size : Z)
  | TE_ExistingInfoHash (hash : ShaHash)
  | TE_InfoHashNotFound (hash : ShaHash).

Inductive IDiskMessage :=
  | AddTorrent (m : Metainfo)
  | RemoveTorrent (hash : ShaHash)
  | SyncTorrent (hash : ShaHash)
  | LoadBlock (b : BlockMut)
  | ProcessBlock (b : Block).

Inductive ODiskMessage :=
  | TorrentAdded (hash : ShaHash)
  | TorrentRemoved (hash : ShaHash)
  | TorrentSynced (hash : ShaHash)
  | FoundGoodPiece (hash : ShaHash) (index : Z)
  | FoundBadPiece (hash : ShaHash) (index : Z)
  | BlockLoaded (b : BlockMut)
  | BlockProcessed (b : Block)
  | OTorrentError (hash : ShaHash) (e : TorrentError)
  | LoadBlockError (b : BlockMut) (e : BlockError)
  | ProcessBlockError (b : Block) (e : BlockError).

(** * File systems (fs/mod.rs): a read gives the bytes it put in the buffer *)

Class FileSystem (S F : Type) := {
  open_file : bytes → st S io_error F;
  sync_file : bytes → st S io_error ();
  file_size : F → st S io_error Z;
  read_file : F → Z → nat → st S io_error bytes;
  write_file : F → Z → bytes → st S io_error nat
}.

(** * Paths (tasks/helpers/mod.rs) *)

Definition build_path (parent_directory : option bytes) (file : File) : bytes :=
  match parent_directory with
  | None => f_path file
  | Some dir => path_join dir (f_path file)
  end.

(** * The regions of a block (piece_accessor.rs) *)

Section Regions.
Context {X F : Type} (open : bytes → st X io_error F) (info : Info)
  (callback : F → Z → Z → Z → st X io_error ()).

(** The loop over the files. *)
Fixpoint file_regions (total_block_length : Z) (files : list File) (total_bytes_to_skip total_bytes_accessed : Z)
    : st X io_error () :=
  match files with
  | [] => mret ()
  | file :: files =>
      let total_file_size := f_len file in
      let min_bytes_to_skip := Z.min total_bytes_to_skip total_file_size in
      let total_bytes_to_skip := total_bytes_to_skip - min_bytes_to_skip in
      let bytes_to_access := total_file_size - min_bytes_to_skip in
      if (0 <? bytes_to_access) && (total_bytes_accessed <? total_block_length) then
        fs_file ← open (build_path (i_file_directory info) file);
        let total_max_bytes_to_access := total_block_length - total_bytes_accessed in
        let actual_bytes_to_access := Z.min total_max_bytes_to_access bytes_to_access in
        let offset := total_file_size - bytes_to_access in
        _ ← callback fs_file offset total_bytes_accessed (total_bytes_accessed + actual_bytes_to_access);
        file_regions total_block_length files total_bytes_to_skip (total_bytes_accessed + actual_bytes_to_access)
      else file_regions total_block_length files total_bytes_to_skip total_bytes_accessed
  end.

Definition run_with_file_regions (message : BlockMetadata) : st X io_error () :=
  start ← st_res (u64_mul (bm_piece_index message) (i_piece_len info));
  total_bytes_to_skip ← st_res (u64_add start (bm_block_offset message));
  file_regions (bm_block_length message) (i_files info) total_bytes_to_skip 0.
End Regions.

Section Accessor.
Context {S F : Type} `{!FileSystem S F}.

(** [&mut piece_buffer[begin..end]] *)
Definition in_buffer (piece_buffer : bytes) (b e : Z) : bool := (0 <=? b) && (b <=? e) && (e <=? Z.of_nat (length piece_buffer)).

(** A computation on the file system next to the caller's buffer. *)
Definition on_fs {A} (m : st S io_error A) : st (S * bytes) io_error A := λ '(s, buf),
  let '(s, r) := m s in ((s, buf), r).

Definition read_region (file : F) (offset b e : Z) : st (S * bytes) io_error () := λ '(s, piece_buffer),
  if negb (in_buffer piece_buffer b e) then ((s, piece_buffer), Panic IndexOutOfBounds) else
  match read_file file offset (Z.to_nat (e - b)) s with
  | (s, Ok l) =>
      let piece_buffer := take (Z.to_nat b) piece_buffer ++ l ++ drop (Z.to_nat b + length l) piece_buffer in
      ((s, piece_buffer), if Z.of_nat (length l) =? e - b then Ok () else Panic AssertFailed)
  | (s, Err err) => ((s, piece_buffer), Err err)
  | (s, Panic f) => ((s, piece_buffer), Panic f)
  end.

Definition read_piece (info : Info) (message : BlockMetadata) : st (S * bytes) io_error () :=
  run_with_file_regions (λ p, on_fs (open_file p)) info read_region message.

Definition write_region (piece_buffer : bytes) (file : F) (offset b e : Z) : st S io_error () :=
  if negb (in_buffer piece_buffer b e) then st_res (Panic IndexOutOfBounds) else
  bytes_written ← write_file file offset (slice piece_buffer (Z.to_nat b) (Z.to_nat e));
  st_res (if Z.of_nat bytes_written =? e - b then Ok () else Panic AssertFailed).

Definition write_piece (info : Info) (piece_buffer : bytes) (message : BlockMetadata) : st S io_error () :=
  run_with_file_regions open_file info (write_region piece_buffer) message.
End Accessor.

(** * Piece states (piece_checker.rs) *)

Inductive PieceState := Good (index : Z) | Bad (index : Z).

#[export] Instance PieceState_eq_dec : EqDecision PieceState.
Proof. solve_decision. Defined.
#[export] Instance PieceState_countable : Countable PieceState :=
  inj_countable' (λ p, match p with Good i => inl i | Bad i => inr i end)
    (λ s, match s with inl i => Good i | inr i => Bad i end) ltac:(by intros []).

Record PieceCheckerState := {
  pc_new_states : list PieceState;
  pc_old_states : gset PieceState;
  pc_pending_blocks : gmap Z (list BlockMetadata);
  pc_total_blocks : nat;
  pc_last_block_size : Z
}.

Definition PieceCheckerState_new (total_blocks : nat) (last_block_size : Z) : PieceCheckerState :=
  {| pc_new_states := []; pc_old_states := ∅; pc_pending_blocks := ∅; pc_total_blocks := total_blocks;
     pc_last_block_size := last_block_size |}.

Definition set_pending (p : gmap Z (list BlockMetadata)) (self : PieceCheckerState) : PieceCheckerState :=
  {| pc_new_states := pc_new_states self; pc_old_states := pc_old_states self; pc_pending_blocks := p;
     pc_total_blocks := pc_total_blocks self; pc_last_block_size := pc_last_block_size self |}.
Definition push_state (p : PieceState) (self : PieceCheckerState) : PieceCheckerState :=
  {| pc_new_states := pc_new_states self ++ [p]; pc_old_states := pc_old_states self;
     pc_pending_blocks := pc_pending_blocks self; pc_total_blocks := pc_total_blocks self;
     pc_last_block_size := pc_last_block_size self |}.

(** [pending_blocks.entry(index).or_default().push(msg)] *)
Definition add_pending_block (msg : BlockMetadata) (self : PieceCheckerState) : PieceCheckerState :=
  let messages := default [] (pc_pending_blocks self !! bm_piece_index msg) in
  set_pending (<[bm_piece_index msg := messages ++ [msg]]> (pc_pending_blocks self)) self.

(** [run_with_diff]: the states given to the callback, in order. *)
Definition run_with_diff (self : PieceCheckerState) : list PieceState * PieceCheckerState :=
  (pc_new_states self,
   {| pc_new_states := []; pc_old_states := foldl (λ s p, {[p]} ∪ s) (pc_old_states self) (pc_new_states self);
      pc_pending_blocks := pc_pending_blocks self; pc_total_blocks := pc_total_blocks self;
      pc_last_block_size := pc_last_block_size self |}).

Definition merge_piece_messages {E} (message_a message_b : BlockMetadata) : res E (option BlockMetadata) :=
  if negb (bool_decide (bm_info_hash message_a = bm_info_hash message_b))
     || negb (bm_piece_index message_a =? bm_piece_index message_b) then Ok None else
  let start_a := bm_block_offset message_a in
  end_a ← u64_add start_a (bm_block_length message_a);
  let start_b := bm_block_offset message_b in
  end_b ← u64_add start_b (bm_block_length message_b);
  let merged start := BlockMetadata_new (bm_info_hash message_a) (bm_piece_index message_a) start (Z.max end_a end_b - start) in
  if (start_a <=? start_b) && (start_b <=? end_a) then Ok (Some (merged start_a))
  else if (start_b <=? start_a) && (start_a <=? end_b) then Ok (Some (merged start_b))
  else Ok None.

(** The merge loop on the messages from the last to the first. *)
Fixpoint merge_backward {E} (last : BlockMetadata) (rev_messages : list BlockMetadata) : res E (list BlockMetadata) :=
  match rev_messages with
  | [] => Ok [last]
  | second_last :: rest =>
      opt_merged ← merge_piece_messages second_last last;
      match opt_merged with
      | Some merged => merge_backward merged rest
      | None => Ok (reverse (last :: second_last :: rest))
      end
  end.

Definition sort_messages (messages : list BlockMetadata) : list BlockMetadata :=
  sort_by (λ x y, Z.compare (bm_block_offset x) (bm_block_offset y)) messages.

Definition merge_messages {E} (messages : list BlockMetadata) : res E (list BlockMetadata) :=
  match reverse (sort_messages messages) with
  | [] => Ok []
  | last :: rest => merge_backward last rest
  end.

Definition piece_is_complete {E} (total_blocks : nat) (last_block_size piece_length : Z) (messages : list BlockMetadata)
    : res E bool :=
  match messages with
  | [] => Ok false
  | message :: _ =>
      let is_single_message := (length messages =? 1)%nat in
      let is_piece_length := bm_block_length message =? piece_length in
      if (total_blocks =? 0)%nat then Panic ArithOverflow else
      let is_last_block := bm_piece_index message =? Z.of_nat (total_blocks - 1) in
      let is_last_block_length := bm_block_length message =? last_block_size in
      Ok (is_single_message && (is_piece_length || (is_last_block && is_last_block_length)))
  end.

Section Checker.
Context `{HashOrder}.

(** The loop over [values_mut()]. *)
Fixpoint merge_all {E} (keys : list (Z * list BlockMetadata)) (self : PieceCheckerState) : res E PieceCheckerState :=
  match keys with
  | [] => Ok self
  | (k, messages) :: keys =>
      merged ← merge_messages messages;
      merge_all keys (set_pending (<[k := merged]> (pc_pending_blocks self)) self)
  end.
Definition merge_pieces {E} (self : PieceCheckerState) : res E PieceCheckerState :=
  merge_all (hash_iter (pc_pending_blocks self)) self.

(** A computation on a state next to the locked checker state. *)
Definition on_left {X Y E A} (m : st X E A) : st (X * Y) E A := λ '(x, y), let '(x, r) := m x in ((x, y), r).
Definition get_right {X Y E} : st (X * Y) E Y := λ '(x, y), ((x, y), Ok y).
Definition set_right {X Y E} (y : Y) : st (X * Y) E () := λ '(x, _), ((x, y), Ok ()).

Section Whole.
Context {X : Type} (callback : BlockMetadata → st X io_error bool) (piece_length : Z).

(** The loop over the complete pieces that are not known to be good: the
    callback decides, and the messages are cleared; an error of the callback
    ends the loop. *)
Fixpoint check_pieces (entries : list (Z * list BlockMetadata)) : st (X * PieceCheckerState) io_error () :=
  match entries with
  | [] => mret ()
  | (k, messages) :: entries =>
      self ← get_right;
      complete ← st_res (piece_is_complete (pc_total_blocks self) (pc_last_block_size self) piece_length messages);
      match messages with
      | message :: _ =>
          if (complete : bool) && bool_decide (Good (bm_piece_index message) ∉ pc_old_states self) then
            is_good ← on_left (callback message);
            let state := if (is_good : bool) then Good (bm_piece_index message) else Bad (bm_piece_index message) in
            _ ← set_right (set_pending (<[k := []]> (pc_pending_blocks self)) (push_state state self));
            check_pieces entries
          else check_pieces entries
      | [] => check_pieces entries
      end
  end.

Definition run_with_whole_pieces : st (X * PieceCheckerState) io_error () :=
  self ← get_right;
  merged ← st_res (merge_pieces self);
  _ ← set_right merged;
  check_pieces (hash_iter (pc_pending_blocks merged)).
End Whole.
End Checker.

(** * The piece checker (piece_checker.rs) *)

Section PieceChecker.
Context {S F : Type} `{!FileSystem S F} `{HashOrder} `{Sha1}.

Fixpoint sum_lengths {E} (acc : Z) (files : list File) : res E Z :=
  match files with
  | [] => Ok acc
  | file :: files => acc ← u64_add acc (f_len file); sum_lengths acc files
  end.

(** [a / b] and [a % b], which panic for [b = 0]. *)
Definition u64_div {E} (a b : Z) : res E Z := if b =? 0 then Panic ArithOverflow else Ok (a / b).
Definition u64_rem {E} (a b : Z) : res E Z := if b =? 0 then Panic ArithOverflow else Ok (a `mod` b).

Definition last_piece_size {E} (info_dict : Info) : res E Z :=
  total_bytes ← sum_lengths 0 (i_files info_dict);
  u64_rem total_bytes (i_piece_len info_dict).

(** The closure of [calculate_diff]: reads the piece into the shared buffer and
    compares its hash. *)
Definition check_piece (info : Info) (message : BlockMetadata) : st (S * bytes) io_error bool := λ '(s, piece_buffer),
  let len := Z.to_nat (bm_block_length message) in
  if (length piece_buffer <? len)%nat then ((s, piece_buffer), Panic IndexOutOfBounds) else
  match read_piece info message (s, take len piece_buffer) with
  | ((s, l), Ok _) =>
      let piece_buffer := l ++ drop len piece_buffer in
      let calculated_hash := ShaHash_from_bytes l in
      ((s, piece_buffer),
       expected ← unwrap (i_pieces info !! Z.to_nat (bm_piece_index message));
       match ShaHash_from_hash expected with
       | Ok expected_hash => Ok (bool_decide (calculated_hash = expected_hash))
       | _ => Panic UnwrapNone
       end)
  | ((s, l), Err e) => ((s, l ++ drop len piece_buffer), Err e)
  | ((s, l), Panic f) => ((s, l ++ drop len piece_buffer), Panic f)
  end.

Definition calculate_diff (info : Info) : st (S * PieceCheckerState) io_error () := λ '(s, checker),
  let piece_length := i_piece_len info in
  let piece_buffer := replicate (Z.to_nat piece_length) 0 in
  let '(((s, _), checker), r) := run_with_whole_pieces (check_piece info) piece_length ((s, piece_buffer), checker) in
  ((s, checker), r).

Fixpoint add_full_pieces (count : nat) (piece_index piece_length : Z) (self : PieceCheckerState) : PieceCheckerState :=
  match count with
  | O => self
  | Datatypes.S count =>
      add_full_pieces count (piece_index + 1) piece_length (add_pending_block (with_default_hash piece_index 0 piece_length) self)
  end.

Definition fill_checker_state {E} (info : Info) (check_state : PieceCheckerState) : res E PieceCheckerState :=
  let piece_length := i_piece_len info in
  total_bytes ← sum_lengths 0 (i_files info);
  full_pieces ← u64_div total_bytes piece_length;
  last_piece_size ← last_piece_size info;
  let check_state := add_full_pieces (Z.to_nat full_pieces) 0 piece_length check_state in
  Ok (if last_piece_size =? 0 then check_state
      else add_pending_block (with_default_hash full_pieces 0 last_piece_size) check_state).

Fixpoint validate_files_sizes (directory : option bytes) (files : list File) : st S TorrentError () :=
  match files with
  | [] => mret ()
  | file :: files =>
      let file_path := build_path directory file in
      let expected_size := f_len file in
      fs_file ← st_map_err TE_Io (open_file file_path);
      actual_size ← st_map_err TE_Io (file_size fs_file);
      let size_matches := actual_size =? expected_size in
      let size_is_zero := actual_size =? 0 in
      if negb size_matches && size_is_zero then
        _ ← st_expect (write_file fs_file (expected_size - 1) [0]);
        validate_files_sizes directory files
      else if negb size_matches then
        st_res (Err (TE_ExistingFileSizeCheck file_path expected_size actual_size))
      else validate_files_sizes directory files
  end.

(** The diff of a new torrent, whose errors are [TorrentError]s. *)
Definition initial_diff (info_dict : Info) (checker_state : PieceCheckerState) : st S TorrentError PieceCheckerState := λ s,
  match calculate_diff info_dict (s, checker_state) with
  | ((s, checker_state), Ok _) => (s, Ok checker_state)
  | ((s, _), Err e) => (s, Err (TE_Io e))
  | ((s, _), Panic f) => (s, Panic f)
  end.

Definition init_state (info_dict : Info) : st S TorrentError PieceCheckerState :=
  let total_blocks := length (i_pieces info_dict) in
  last_piece_size ← st_res (last_piece_size info_dict);
  let checker_state := PieceCheckerState_new total_blocks last_piece_size in
  _ ← validate_files_sizes (i_file_directory info_dict) (i_files info_dict);
  checker_state ← st_res (fill_checker_state info_dict checker_state);
  initial_diff info_dict checker_state.

(** * Tasks (tasks/context.rs, tasks/mod.rs)

    A task runs to its end; the checker state behind the [Arc] is the one in the
    table. *)

Record MetainfoState := { ms_file : Metainfo; ms_checker : PieceCheckerState }.

Record DiskManagerContext := {
  dc_torrents : gmap bytes MetainfoState;
  dc_out : list ODiskMessage;
  dc_fs : S
}.

Definition DiskManagerContext_new (fs : S) : DiskManagerContext := {| dc_torrents := ∅; dc_out := []; dc_fs := fs |}.

Definition set_torrents (t : gmap bytes MetainfoState) (c : DiskManagerContext) : DiskManagerContext :=
  {| dc_torrents := t; dc_out := dc_out c; dc_fs := dc_fs c |}.
Definition send_messages (l : list ODiskMessage) (c : DiskManagerContext) : DiskManagerContext :=
  {| dc_torrents := dc_torrents c; dc_out := dc_out c ++ l; dc_fs := dc_fs c |}.
Definition set_fs (s : S) (c : DiskManagerContext) : DiskManagerContext :=
  {| dc_torrents := dc_torrents c; dc_out := dc_out c; dc_fs := s |}.

Definition insert_torrent (file : Metainfo) (state : PieceCheckerState) (c : DiskManagerContext)
    : DiskManagerContext * res ShaHash ShaHash :=
  let h := i_info_hash (m_info file) in
  match dc_torrents c !! hash h with
  | Some _ => (c, Err h)
  | None => (set_torrents (<[hash h := {| ms_file := file; ms_checker := state |}]> (dc_torrents c)) c, Ok h)
  end.

Definition remove_torrent (h : ShaHash) (c : DiskManagerContext) : DiskManagerContext * bool :=
  (set_torrents (delete (hash h) (dc_torrents c)) c, bool_decide (is_Some (dc_torrents c !! hash h))).

(** [send_piece_diff]: the messages and the state after [run_with_diff]. *)
Definition diff_message (h : ShaHash) (ignore_bad : bool) (p : PieceState) : list ODiskMessage :=
  match p, ignore_bad with
  | Good index, _ => [FoundGoodPiece h index]
  | Bad index, false => [FoundBadPiece h index]
  | Bad _, true => []
  end.
Definition send_piece_diff (checker : PieceCheckerState) (h : ShaHash) (ignore_bad : bool)
    : list ODiskMessage * PieceCheckerState :=
  let '(states, checker) := run_with_diff checker in (states ≫= diff_message h ignore_bad, checker).

Definition execute_add_torrent (file : Metainfo) : st DiskManagerContext TorrentError () := λ c,
  let info_hash := i_info_hash (m_info file) in
  match init_state (m_info file) (dc_fs c) with
  | (s, Ok init) =>
      let '(messages, init) := send_piece_diff init info_hash true in
      let c := send_messages messages (set_fs s c) in
      match insert_torrent file init c with
      | (c, Ok _) => (c, Ok ())
      | (c, Err h) => (c, Err (TE_ExistingInfoHash h))
      | (c, Panic f) => (c, Panic f)
      end
  | (s, Err e) => (set_fs s c, Err e)
  | (s, Panic f) => (set_fs s c, Panic f)
  end.

Definition execute_remove_torrent (h : ShaHash) : st DiskManagerContext TorrentError () := λ c,
  let '(c, removed) := remove_torrent h c in
  (c, if removed : bool then Ok () else Err (TE_InfoHashNotFound h)).

Fixpoint sync_files (directory : option bytes) (files : list File) : st S io_error () :=
  match files with
  | [] => mret ()
  | file :: files => _ ← sync_file (build_path directory file); sync_files directory files
  end.

Definition execute_sync_torrent (h : ShaHash) : st DiskManagerContext TorrentError () := λ c,
  match dc_torrents c !! hash h with
  | Some state =>
      let '(s, r) := sync_files (i_file_directory (m_info (ms_file state))) (i_files (m_info (ms_file state))) (dc_fs c) in
      (set_fs s c, res_map_err TE_Io r)
  | None => (c, Err (TE_InfoHashNotFound h))
  end.

(** The block's memory is changed in place, also by a read that fails. *)
Definition execute_load_block (block : BlockMut) (c : DiskManagerContext) : DiskManagerContext * BlockMut * res BlockError () :=
  let metadata := bmut_metadata block in
  let info_hash := bm_info_hash metadata in
  match dc_torrents c !! hash info_hash with
  | Some state =>
      let '((s, data), r) := read_piece (m_info (ms_file state)) metadata (dc_fs c, bmut_block_data block) in
      (set_fs s c, {| bmut_metadata := metadata; bmut_block_data := data |}, res_map_err BE_Io r)
  | None => (c, block, Err (BE_InfoHashNotFound info_hash))
  end.

(** A failed write leaves the checker alone; the diff is sent in every case. *)
Definition write_and_check (info : Info) (data : bytes) (metadata : BlockMetadata) : st (S * PieceCheckerState) io_error () :=
  _ ← on_left (write_piece info data metadata);
  checker ← get_right;
  _ ← set_right (add_pending_block metadata checker);
  calculate_diff info.

Definition execute_process_block (block : Block) : st DiskManagerContext BlockError () := λ c,
  let metadata := b_metadata block in
  let info_hash := bm_info_hash metadata in
  match dc_torrents c !! hash info_hash with
  | Some state =>
      let info := m_info (ms_file state) in
      let '((s, checker), block_result) := write_and_check info (b_block_data block) metadata (dc_fs c, ms_checker state) in
      let keep checker c :=
        set_torrents (<[hash info_hash := {| ms_file := ms_file state; ms_checker := checker |}]> (dc_torrents c)) c in
      match block_result with
      | Panic f => (keep checker (set_fs s c), Panic f)
      | _ =>
          let '(messages, checker) := send_piece_diff checker (i_info_hash info) false in
          (keep checker (send_messages messages (set_fs s c)), res_map_err BE_Io block_result)
      end
  | None => (c, Err (BE_InfoHashNotFound info_hash))
  end.

(** [execute]: the answer is sent when the task is done. *)
Definition answer {A} (ok : A → ODiskMessage) {E} (err : E → ODiskMessage) (r : DiskManagerContext * res E A)
    : DiskManagerContext * res Empty_set () :=
  match r with
  | (c, Ok a) => (send_messages [ok a] c, Ok ())
  | (c, Err e) => (send_messages [err e] c, Ok ())
  | (c, Panic f) => (c, Panic f)
  end.

Definition execute (msg : IDiskMessage) : st DiskManagerContext Empty_set () := λ c,
  match msg with
  | AddTorrent metainfo =>
      let info_hash := i_info_hash (m_info metainfo) in
      answer (λ _, TorrentAdded info_hash) (OTorrentError info_hash) (execute_add_torrent metainfo c)
  | RemoveTorrent h => answer (λ _, TorrentRemoved h) (OTorrentError h) (execute_remove_torrent h c)
  | SyncTorrent h => answer (λ _, TorrentSynced h) (OTorrentError h) (execute_sync_torrent h c)
  | LoadBlock block =>
      let '(c, block, r) := execute_load_block block c in
      answer (λ _, BlockLoaded block) (LoadBlockError block) (c, r)
  | ProcessBlock block => answer (λ _, BlockProcessed block) (ProcessBlockError block) (execute_process_block block c)
  end.
End PieceChecker.
