(* ===== verification/DiskFs.v ===== *)
(** packages/disk/src/disk/fs: file systems in runs without I/O errors, the native
    file system on the operating system's calls, and the cache of file handles,
    specified over any file system, errors included.

    The [lru_cache] crate and the operating system are interfaces. *)

From stdpp Require Import base numbers gmap strings list.
From S2P Require Import Prelude RustStd Extern Io Path Disk.

(** * Files without I/O errors

    Every operation of a file system may return an I/O error (fs/mod.rs); the
    operations of [FileSystem] are any functions with that type, and the theorem
    on the cache below is about all of them.  [FsLaws] singles out the runs in
    which none occurs: [fs_inv] is true of the states from which the file system
    answers every operation, transfers all that was asked for and keeps the
    handles it gave good for their paths; in those states the contents of the
    files are told by path, opening creates an empty file, and a write past the
    end fills with zeroes.  A file system that fails in other states is in the class all the
    same ([device_laws]). *)

Definition pad (n : nat) (c : bytes) : bytes := c ++ replicate (n - length c) 0%Z.
Definition overwrite (offset : nat) (l c : bytes) : bytes :=
  take offset (pad offset c) ++ l ++ drop (offset + length l) c.

Class FsLaws (S F : Type) `{FileSystem S F} := {
  fs_inv : S → Prop;
  fs_view : S → gmap bytes bytes;
  fs_handle : F → bytes → Prop;
  fs_open s p : fs_inv s → ∃ s' f, open_file p s = (s', Ok f) ∧ fs_inv s' ∧ fs_handle f p ∧
    fs_view s' = <[p := default [] (fs_view s !! p)]> (fs_view s);
  fs_size s f p c : fs_inv s → fs_handle f p → fs_view s !! p = Some c →
    ∃ s', file_size f s = (s', Ok (Z.of_nat (length c))) ∧ fs_inv s' ∧ fs_view s' = fs_view s;
  fs_read s f p c offset n : fs_inv s → fs_handle f p → fs_view s !! p = Some c →
    ∃ s', read_file f (Z.of_nat offset) n s = (s', Ok (take n (drop offset c))) ∧ fs_inv s' ∧ fs_view s' = fs_view s;
  fs_write s f p c offset l : fs_inv s → fs_handle f p → fs_view s !! p = Some c →
    ∃ s', write_file f (Z.of_nat offset) l s = (s', Ok (length l)) ∧ fs_inv s' ∧
      fs_view s' = <[p := overwrite offset l c]> (fs_view s);
  fs_sync s p : fs_inv s → ∃ s', sync_file p s = (s', Ok ()) ∧ fs_inv s' ∧ fs_view s' = fs_view s
}.

(** * Files in memory: a handle is the path *)

Abbreviation memory := (gmap (list Z) (list Z)) (only parsing).

#[export] Instance memory_fs : FileSystem memory bytes := {
  open_file p s := (<[p := default [] (s !! p)]> s, Ok p);
  sync_file _ s := (s, Ok ());
  file_size f s := (s, match s !! f with Some c => Ok (Z.of_nat (length c)) | None => Err IoOther end);
  read_file f offset n s := (s, match s !! f with Some c => Ok (take n (drop (Z.to_nat offset) c)) | None => Err IoOther end);
  write_file f offset l s :=
    match s !! f with
    | Some c => (<[f := overwrite (Z.to_nat offset) l c]> s, Ok (length l))
    | None => (s, Err IoOther)
    end
}.

#[export] Instance memory_laws : FsLaws memory bytes.
Proof.
  refine {| fs_inv _ := True; fs_view s := s; fs_handle f p := f = p |}.
  - intros s p _. by eexists _, _.
  - intros s f p c _ -> Hc. simpl in *. exists s. by rewrite Hc.
  - intros s f p c o n _ -> Hc. simpl in *. exists s. by rewrite Hc, Nat2Z.id.
  - intros s f p c o l _ -> Hc. simpl in *. rewrite Hc, Nat2Z.id. by eexists.
  - intros s p _. by eexists.
Defined.

(** * The cache of handles (fs/cache/file_handle.rs) *)

(** [lru_cache::LruCache]: the items, the last used first.  A look-up counts as
    a use; an insertion beyond the capacity drops the least recently used. *)
Fixpoint lru_lookup {V} (k : bytes) (l : list (bytes * V)) : option V :=
  match l with [] => None | e :: l => if bool_decide (e.1 = k) then Some e.2 else lru_lookup k l end.
Definition lru_remove {V} (k : bytes) (l : list (bytes * V)) : list (bytes * V) := filter (λ e, e.1 ≠ k) l.

Class LruCache (L V : Type) := {
  lru_get_mut : bytes → L → L * option V;
  lru_insert : bytes → V → L → L;
  lru_clear : L → L;
  lru_new : nat → L;
  lru_items : L → list (bytes * V);
  lru_cap : L → nat;
  lru_new_items n : lru_items (lru_new n) = [] ∧ lru_cap (lru_new n) = n;
  lru_get_items l k : lru_cap (lru_get_mut k l).1 = lru_cap l ∧ (lru_get_mut k l).2 = lru_lookup k (lru_items l) ∧
    lru_items (lru_get_mut k l).1 =
      match lru_lookup k (lru_items l) with Some v => (k, v) :: lru_remove k (lru_items l) | None => lru_items l end;
  lru_insert_items l k v : lru_cap (lru_insert k v l) = lru_cap l ∧
    lru_items (lru_insert k v l) = take (lru_cap l) ((k, v) :: lru_remove k (lru_items l));
  lru_clear_items l : lru_cap (lru_clear l) = lru_cap l ∧ lru_items (lru_clear l) = []
}.

Lemma lru_lookup_in {V} k (l : list (bytes * V)) v : lru_lookup k l = Some v → (k, v) ∈ l.
Proof.
  induction l as [|[k' v'] l IH]; [done|]. cbn [lru_lookup fst snd]. case_bool_decide; intros E; [|right; by apply IH].
  simplify_eq. by left.
Qed.

Lemma lru_remove_in {V} k (l : list (bytes * V)) e : e ∈ lru_remove k l ↔ e.1 ≠ k ∧ e ∈ l.
Proof. unfold lru_remove. by rewrite list_elem_of_filter. Qed.

Section Cache.
Context {S F L : Type} `{!FileSystem S F} `{!LruCache L F}.

Record FileHandleCache := { fh_cache : L; fh_inner : S }.

Definition FileHandleCache_new (inner : S) (capacity : nat) : FileHandleCache :=
  {| fh_cache := lru_new capacity; fh_inner := inner |}.

(** The lock is held for one call; a computation on the inner file system. *)
Definition on_inner {E A} (m : st S E A) : st FileHandleCache E A := λ c,
  let '(s, r) := m (fh_inner c) in ({| fh_cache := fh_cache c; fh_inner := s |}, r).

Definition cache_open_file (path : bytes) : st FileHandleCache io_error F := λ c,
  match lru_get_mut path (fh_cache c) with
  | (l, Some entry) => ({| fh_cache := l; fh_inner := fh_inner c |}, Ok entry)
  | (l, None) =>
      match open_file path (fh_inner c) with
      | (s, Ok file) => ({| fh_cache := lru_insert path file l; fh_inner := s |}, Ok file)
      | (s, Err e) => ({| fh_cache := l; fh_inner := s |}, Err e)
      | (s, Panic f) => ({| fh_cache := l; fh_inner := s |}, Panic f)
      end
  end.

Definition cache_sync_file (path : bytes) : st FileHandleCache io_error () := λ c,
  on_inner (sync_file path) {| fh_cache := lru_clear (fh_cache c); fh_inner := fh_inner c |}.

#[export] Instance FileHandleCache_fs : FileSystem FileHandleCache F := {
  open_file := cache_open_file;
  sync_file := cache_sync_file;
  file_size f := on_inner (file_size f);
  read_file f offset n := on_inner (read_file f offset n);
  write_file f offset l := on_inner (write_file f offset l)
}.

Context `{!FsLaws S F}.

(** A cached handle is a handle of its path, on a file that exists. *)
Definition cache_inv (c : FileHandleCache) : Prop :=
  fs_inv (fh_inner c) ∧
  ∀ p f, (p, f) ∈ lru_items (fh_cache c) → fs_handle f p ∧ is_Some (fs_view (fh_inner c) !! p).

Lemma cache_open_laws (c : FileHandleCache) p : cache_inv c → ∃ c' f, cache_open_file p c = (c', Ok f) ∧ cache_inv c' ∧ fs_handle f p ∧
  fs_view (fh_inner c') = <[p := default [] (fs_view (fh_inner c) !! p)]> (fs_view (fh_inner c)).
Proof.
  intros [Hi Hc]. unfold cache_open_file. destruct (lru_get_items (fh_cache c) p) as (_ & Hr & Hit).
  destruct (lru_get_mut p (fh_cache c)) as [l r]. cbn [fst snd] in Hr, Hit. subst r.
  destruct (lru_lookup p (lru_items (fh_cache c))) as [f|] eqn:E.
  - destruct (Hc p f (lru_lookup_in _ _ _ E)) as [Hf [d Hd]]. eexists _, f. split; [done|]. split; [|split; [done|]].
    + split; [done|]. cbn [fh_cache fh_inner]. rewrite Hit. intros p' f' [[= -> ->]|[_ He]%lru_remove_in]%elem_of_cons; [|by apply Hc].
      eauto.
    + simpl. rewrite Hd. simpl. by rewrite insert_id.
  - destruct (fs_open (fh_inner c) p Hi) as (s' & f & -> & Hi' & Hf & Hv). eexists _, f. split; [done|].
    split; [|by split]. split; [done|]. cbn [fh_cache fh_inner]. rewrite (proj2 (lru_insert_items _ _ _)), Hit, Hv.
    intros p' f' (i & Hi2 & _)%elem_of_take. apply list_elem_of_lookup_2, elem_of_cons in Hi2 as [[= -> ->]|[_ He]%lru_remove_in].
    + split; [done|]. rewrite lookup_insert_eq. eauto.
    + destruct (Hc p' f' He) as [Hf' Hs]. split; [done|].
      destruct (decide (p = p')) as [->|Hne]; [rewrite lookup_insert_eq; eauto|by rewrite lookup_insert_ne].
Qed.

Lemma on_inner_inv {A} (m : st S io_error A) (c : FileHandleCache) (s' : S) (r : res io_error A) (v' : gmap bytes bytes) : m (fh_inner c) = (s', r) → cache_inv c →
  fs_inv s' → fs_view s' = v' → (∀ p, is_Some (fs_view (fh_inner c) !! p) → is_Some (v' !! p)) →
  ∃ c', on_inner m c = (c', r) ∧ cache_inv c' ∧ fs_view (fh_inner c') = v'.
Proof.
  intros E [Hi Hc] Hi' Hv Hd. unfold on_inner. rewrite E. eexists. split; [done|]. split; [|done].
  split; [done|]. simpl. intros p f He. destruct (Hc p f He) as [Hf Hs]. split; [done|]. rewrite Hv. by apply Hd.
Qed.

(** The cache keeps the promise of the file system inside it: same contents,
    whatever is evicted and when. *)
#[export] Instance FileHandleCache_laws : FsLaws FileHandleCache F.
Proof.
  refine {| fs_inv := cache_inv; fs_view c := fs_view (fh_inner c); fs_handle := fs_handle |}.
  - intros c p Hc. by apply cache_open_laws.
  - intros c f p d Hc Hf Hd. destruct (fs_size (fh_inner c) f p d (proj1 Hc) Hf Hd) as (s' & E & Hi & Hv).
    by eapply on_inner_inv.
  - intros c f p d o n Hc Hf Hd. destruct (fs_read (fh_inner c) f p d o n (proj1 Hc) Hf Hd) as (s' & E & Hi & Hv).
    by eapply on_inner_inv.
  - intros c f p d o l Hc Hf Hd. destruct (fs_write (fh_inner c) f p d o l (proj1 Hc) Hf Hd) as (s' & E & Hi & Hv).
    eapply on_inner_inv; [done|done|done|done|]. intros q Hq.
    destruct (decide (p = q)) as [->|Hne]; [rewrite lookup_insert_eq; eauto|by rewrite lookup_insert_ne].
  - intros c p Hc. destruct Hc as [Hi Hc]. destruct (fs_sync (fh_inner c) p Hi) as (s' & E & Hi' & Hv).
    eexists. cbn [sync_file FileHandleCache_fs]. unfold cache_sync_file, on_inner. simpl. rewrite E. split; [done|].
    split; [|done]. split; [done|]. simpl. rewrite (proj2 (lru_clear_items _)). by intros q f He%elem_of_nil.
Defined.
End Cache.
Arguments FileHandleCache S L : clear implicits.

(** * The native file system (fs/native.rs) *)

(** The calls of the operating system. *)
Class Os (O H : Type) := {
  create_dir_all : bytes → st O io_error ();
  os_open : bytes → st O io_error H;
  os_len : H → st O io_error Z;
  os_seek : H → Z → st O io_error ();
  os_read : H → nat → st O io_error bytes;
  os_write : H → bytes → st O io_error nat
}.

(** [Path::parent], up to redundant separators. *)
Definition path_parent (p : bytes) : option bytes :=
  match reverse (path_iter p) with
  | [] => None
  | last :: rest => if bool_decide (last = [SEP]) then None else Some (foldl path_push [] (reverse rest))
  end.

Definition combine_user_path (user_path current_dir : bytes) : bytes :=
  if has_root user_path then user_path else foldl path_push current_dir (path_iter user_path).

Section Native.
Context {O H : Type} `{!Os O H}.

Definition create_new_file (path : bytes) : st O io_error H :=
  match path_parent path with
  | Some parent_dir => _ ← create_dir_all parent_dir; os_open path
  | None => st_res (Err IoInvalidInput)
  end.

Definition NativeFileSystem (current_dir : bytes) : FileSystem O H := {|
  open_file path := create_new_file (combine_user_path path current_dir);
  sync_file _ := mret ();
  file_size file := os_len file;
  read_file file offset n := _ ← os_seek file offset; os_read file n;
  write_file file offset l := _ ← os_seek file offset; os_write file l
|}.
End Native.

Lemma st_bind_ok {S E A B} (m : st S E A) (k : A → st S E B) s s' a : m s = (s', Ok a) → (m ≫= k) s = k a s'.
Proof. intros H. unfold mbind, st_bind. by rewrite H. Qed.

(** * A device that can break *)

(** Files in memory behind a device: once it is broken every operation fails. *)
Definition on_device {A} (m : st memory io_error A) : st (bool * memory) io_error A := λ s,
  if s.1 then (s, Err IoOther) else let '(v, r) := m s.2 in ((false, v), r).

Definition device_fs : FileSystem (bool * memory) bytes := {|
  open_file p := on_device (open_file p);
  sync_file p := on_device (sync_file p);
  file_size f := on_device (file_size f);
  read_file f offset n := on_device (read_file f offset n);
  write_file f offset l := on_device (write_file f offset l)
|}.

Definition device_laws : @FsLaws (bool * memory) bytes device_fs.
Proof.
  refine (@Build_FsLaws _ _ device_fs (λ s, s.1 = false) snd (λ f p, f = p) _ _ _ _ _).
  - intros [b v] p [= ->]. by eexists _, _.
  - intros [b v] f p c [= ->] -> Hc. simpl in *. exists (false, v). unfold on_device. simpl. by rewrite Hc.
  - intros [b v] f p c o n [= ->] -> Hc. simpl in *. exists (false, v). unfold on_device. simpl. by rewrite Hc, Nat2Z.id.
  - intros [b v] f p c o l [= ->] -> Hc. simpl in *. unfold on_device. simpl. rewrite Hc, Nat2Z.id. by eexists.
  - intros [b v] p [= ->]. by eexists.
Defined.

(** * What the cache of handles does, whatever the file system does *)

(** A call of a client, on handles it got before, and what it gives. *)
Inductive fs_call (F : Type) :=
| CallOpen (p : bytes) | CallSync (p : bytes) | CallSize (f : F)
| CallRead (f : F) (offset : Z) (n : nat) | CallWrite (f : F) (offset : Z) (l : bytes).
Inductive fs_value (F : Type) := VFile (f : F) | VSynced | VSize (n : Z) | VRead (l : bytes) | VWritten (n : nat).
Arguments CallOpen {F} p.
Arguments CallSync {F} p.
Arguments CallSize {F} f.
Arguments CallRead {F} f offset n.
Arguments CallWrite {F} f offset l.
Arguments VFile {F} f.
Arguments VSynced {F}.
Arguments VSize {F} n.
Arguments VRead {F} l.
Arguments VWritten {F} n.

(** The calls made and their answers, the last one first. *)
Abbreviation fs_history F := (list (fs_call F * res io_error (fs_value F))) (only parsing).

Definition call_fs {S F} `{!FileSystem S F} (c : fs_call F) : st S io_error (fs_value F) :=
  match c with
  | CallOpen p => f ← open_file p; mret (VFile f)
  | CallSync p => _ ← sync_file p; mret VSynced
  | CallSize f => n ← file_size f; mret (VSize n)
  | CallRead f offset n => l ← read_file f offset n; mret (VRead l)
  | CallWrite f offset l => n ← write_file f offset l; mret (VWritten n)
  end.

(** Calls one after the other; a panic poisons the lock and ends the run. *)
Fixpoint drive {X F : Type} (step : fs_history F → fs_call F → st X io_error (fs_value F)) (calls : list (fs_call F))
    (x : X) (h : fs_history F) : X * fs_history F :=
  match calls with
  | [] => (x, h)
  | c :: calls =>
      match step h c x with
      | (x, Panic e) => (x, (c, Panic e) :: h)
      | (x, r) => drive step calls x ((c, r) :: h)
      end
  end.

(** The paths opened since the last sync, the last opened first, with the
    handle each was given last. *)
Fixpoint recent {F} (h : fs_history F) : list (bytes * F) :=
  match h with
  | [] => []
  | (CallOpen p, Ok (VFile f)) :: h => (p, f) :: lru_remove p (recent h)
  | (CallSync _, _) :: _ => []
  | _ :: h => recent h
  end.

(** The specification: a path among the last [capacity] ones opened is answered
    with its handle and the file system is not called; every other call is one
    call of the file system, with its answer. *)
Definition spec_call {S F} `{!FileSystem S F} (capacity : nat) (h : fs_history F) (c : fs_call F) : st S io_error (fs_value F) :=
  match c with
  | CallOpen p =>
      match lru_lookup p (take capacity (recent h)) with
      | Some f => mret (VFile f)
      | None => call_fs c
      end
  | _ => call_fs c
  end.

Section CacheSpec.
Context {V : Type}.
Implicit Types l : list (bytes * V).

Lemma lru_remove_id k l : k ∉ l.*1 → lru_remove k l = l.
Proof.
  induction l as [|e l IH]; [done|]. rewrite fmap_cons, not_elem_of_cons. intros [Hk Hl]. unfold lru_remove in *.
  rewrite filter_cons_True by auto. by rewrite IH.
Qed.

Lemma lru_remove_absent k l n : lru_lookup k (take n l) = None → take n (lru_remove k l) = take n l ∧ lru_remove k (take n l) = take n l.
Proof.
  revert n. induction l as [|[k' v] l IH]; intros n; [by destruct n|]. destruct n as [|n]; [done|].
  cbn [take lru_lookup fst snd]. case_bool_decide as Hk; [done|]. intros [E1 E2]%IH.
  unfold lru_remove in *. rewrite !filter_cons_True by done. cbn [take]. by rewrite E1, E2.
Qed.

Lemma lru_remove_present k v l n : NoDup l.*1 → lru_lookup k (take n l) = Some v →
  (k, v) :: lru_remove k (take n l) = take n ((k, v) :: lru_remove k l).
Proof.
  revert n. induction l as [|[k' v'] l IH]; intros n Hnd; [by destruct n|]. destruct n as [|n]; [done|].
  apply NoDup_cons in Hnd as [Hk' Hnd]. cbn [take lru_lookup fst snd]. case_bool_decide as Hk.
  - intros [= ->]. subst k'. unfold lru_remove. rewrite !filter_cons_False by auto. f_equal.
    fold (lru_remove k (take n l)). fold (lru_remove k l). rewrite !lru_remove_id; [done|done|].
    rewrite fmap_take. intros (i & Hi & _)%elem_of_take. by apply Hk', (list_elem_of_lookup_2 _ i).
  - intros E. specialize (IH n Hnd E). unfold lru_remove in *. rewrite !filter_cons_True by done.
    destruct n as [|n]; [by rewrite take_0 in E|]. cbn [take] in IH |- *. injection IH as IH. by rewrite IH.
Qed.

Lemma lru_remove_nodup k l : NoDup l.*1 → NoDup (lru_remove k l).*1 ∧ k ∉ (lru_remove k l).*1.
Proof.
  intros Hnd. split; [|by intros (e & -> & [He _]%lru_remove_in)%list_elem_of_fmap].
  induction l as [|e l IH]; [done|]. apply NoDup_cons in Hnd as [He Hnd]. unfold lru_remove in *.
  destruct (decide (e.1 ≠ k)); [rewrite filter_cons_True by done|rewrite filter_cons_False by done; auto].
  apply NoDup_cons. split; [|auto]. intros (x & Hx & [_ Hin]%list_elem_of_filter)%list_elem_of_fmap.
  apply He. change (l.*1) with (fst <$> l). rewrite Hx. by apply list_elem_of_fmap_2.
Qed.
End CacheSpec.

Section CacheRefines.
Context {S F L : Type} `{!FileSystem S F} `{!LruCache L F}.
Implicit Types h : fs_history F.

Lemma recent_nodup h : NoDup (recent h).*1.
Proof.
  induction h as [|[c r] h IH]; [constructor|]. destruct c as [p| | | |]; cbn [recent]; [|constructor|done..].
  destruct r as [[f| | | |]| |]; try done. rewrite fmap_cons. apply NoDup_cons. split; by apply lru_remove_nodup.
Qed.

(** The cache holds the last [capacity] paths opened. *)
Definition cache_holds (capacity : nat) h (c : FileHandleCache S L) : Prop :=
  lru_cap (fh_cache c) = capacity ∧ lru_items (fh_cache c) = take capacity (recent h).

Lemma call_open_spec capacity h c p : cache_holds capacity h c →
  let '(c', r) := call_fs (CallOpen p) c in
  spec_call capacity h (CallOpen p) (fh_inner c) = (fh_inner c', r) ∧ cache_holds capacity ((CallOpen p, r) :: h) c'.
Proof.
  intros [Hcap Hit]. cbn [call_fs spec_call open_file FileHandleCache_fs]. unfold mbind, st_bind, cache_open_file.
  destruct (lru_get_items (fh_cache c) p) as (Hc' & Hr & Hi). destruct (lru_get_mut p (fh_cache c)) as [l r]. cbn [fst snd] in Hc', Hr, Hi.
  subst r. rewrite Hit in Hi |- *. destruct (lru_lookup p (take capacity (recent h))) as [f|] eqn:E.
  - split; [done|]. split; [by rewrite <- Hcap|]. cbn [fh_cache recent]. rewrite Hi.
    apply lru_remove_present; [apply recent_nodup|done].
  - destruct (open_file p (fh_inner c)) as [s [f|e|x]]; (split; [done|]); (split; [|]); cbn [fh_cache recent]; [|..| |]; try congruence.
    + rewrite (proj1 (lru_insert_items _ _ _)). congruence.
    + rewrite (proj2 (lru_insert_items _ _ _)), Hi, Hc', Hcap. destruct (lru_remove_absent _ _ _ E) as [E1 E2].
      rewrite E2. destruct capacity as [|n]; [done|]. cbn [take] in E1 |- *. f_equal.
      rewrite take_take, (Nat.min_l n (Datatypes.S n)) by lia.
      apply (f_equal (take n)) in E1. rewrite !take_take, (Nat.min_l n (Datatypes.S n)) in E1 by lia. by rewrite E1.
Qed.

Lemma call_spec capacity h c call : cache_holds capacity h c →
  let '(c', r) := call_fs call c in
  spec_call capacity h call (fh_inner c) = (fh_inner c', r) ∧ cache_holds capacity ((call, r) :: h) c'.
Proof.
  destruct call as [p|p|f|f o n|f o l]; intros Hc; [by apply call_open_spec| |..]; destruct Hc as [Hcap Hit];
    cbn [call_fs spec_call sync_file file_size read_file write_file FileHandleCache_fs];
    unfold mbind, st_bind, cache_sync_file, on_inner; cbn [fh_inner fh_cache].
  - destruct (sync_file p (fh_inner c)) as [s [[]|e|x]]; (split; [done|]); (split; cbn [fh_cache recent]);
      rewrite ?(proj1 (lru_clear_items _)), ?(proj2 (lru_clear_items _)), ?take_nil; done.
  - by destruct (file_size f (fh_inner c)) as [s [n|e|x]].
  - by destruct (read_file f o n (fh_inner c)) as [s [l|e|x]].
  - by destruct (write_file f o l (fh_inner c)) as [s [n|e|x]].
Qed.

Lemma drive_spec capacity calls : ∀ c h, cache_holds capacity h c →
  let '(c', h') := drive (λ _, call_fs) calls c h in
  drive (spec_call capacity) calls (fh_inner c) h = (fh_inner c', h') ∧ cache_holds capacity h' c'.
Proof.
  induction calls as [|call calls IH]; intros c h Hc; [done|]. cbn [drive].
  pose proof (call_spec capacity h c call Hc) as Hs. destruct (call_fs call c) as [c1 r]. destruct Hs as [-> Hc1].
  destruct r; [by apply IH..|]. done.
Qed.

(** A handle the specification remembers came from the file system. *)
Lemma recent_step capacity h call (s : S) p f : (p, f) ∈ recent ((call, (spec_call capacity h call s).2) :: h) →
  (p, f) ∈ recent h ∨ (call = CallOpen p ∧ (open_file p s).2 = Ok f).
Proof.
  destruct call as [q| | | |]; [|by intros Hn%elem_of_nil|by left..]. cbn [spec_call].
  destruct (lru_lookup q _) as [g|] eqn:E.
  - cbn [snd mret st_ret recent]. intros [[= -> ->]|[_ Hin]%lru_remove_in]%elem_of_cons; [|by left]. left.
    apply lru_lookup_in, elem_of_take in E as (i & Hi & _). by eapply list_elem_of_lookup_2.
  - cbn [call_fs]. unfold mbind, st_bind. destruct (open_file q s) as [s1 [g|e|x]] eqn:Eo; cbn [snd mret st_ret recent]; [|by left..].
    intros [[= -> ->]|[_ Hin]%lru_remove_in]%elem_of_cons; [|by left]. right. by rewrite Eo.
Qed.

Lemma recent_given capacity calls p f : ∀ (s : S) h, (p, f) ∈ recent (drive (spec_call capacity) calls s h).2 →
  (p, f) ∈ recent h ∨ ∃ calls1 calls2, calls = calls1 ++ CallOpen p :: calls2 ∧
    (open_file p (drive (spec_call capacity) calls1 s h).1).2 = Ok f.
Proof.
  induction calls as [|call calls IH]; intros s h; [by left|]. cbn [drive].
  pose proof (recent_step capacity h call s p f) as Hst. destruct (spec_call capacity h call s) as [s1 r] eqn:E. cbn [snd] in Hst.
  assert (Hend : (p, f) ∈ recent ((call, r) :: h) → (p, f) ∈ recent h ∨ ∃ calls1 calls2, call :: calls = calls1 ++ CallOpen p :: calls2 ∧
    (open_file p (drive (spec_call capacity) calls1 s h).1).2 = Ok f).
  { intros [?|[-> Ho]]%Hst; [by left|]. right. by exists [], calls. }
  assert (Hgo : (∃ v, r = Ok v) ∨ (∃ e, r = Err e) → (p, f) ∈ recent (drive (spec_call capacity) calls s1 ((call, r) :: h)).2 →
    (p, f) ∈ recent h ∨ ∃ calls1 calls2, call :: calls = calls1 ++ CallOpen p :: calls2 ∧
    (open_file p (drive (spec_call capacity) calls1 s h).1).2 = Ok f).
  { intros Hr [?|(calls1 & calls2 & -> & Ho)]%IH; [by apply Hend|]. right. exists (call :: calls1), calls2. split; [done|].
    cbn [drive]. rewrite E. by destruct Hr as [[v ->]|[e ->]]. }
  destruct r as [v|e|x]; [apply Hgo; eauto|apply Hgo; eauto|exact Hend].
Qed.
End CacheRefines.

(** Claim C18. For every file system, whatever errors its operations return, and every
    sequence of calls, on handles of any age: a cache of handles with a capacity
    behaves as its specification.  A path is opened in the file system unless it
    is among the last [capacity] paths opened since the last sync, and then the
    handle it was given is handed out and the file system is not called; an open
    that fails is answered with its error and nothing is remembered of it; every
    other call is one call of the file system, with its answer.  At most
    [capacity] handles are kept, each given by the file system to an open of the
    path it is kept for. *)
Theorem cache_refines {S F L : Type} `{!FileSystem S F} `{!LruCache L F} (inner : S) (capacity : nat) (calls : list (fs_call F)) :
  let '(c, h) := drive (λ _, call_fs) calls (FileHandleCache_new (L := L) inner capacity) [] in
  drive (spec_call capacity) calls inner [] = (fh_inner c, h) ∧
  length (lru_items (fh_cache c)) ≤ capacity ∧
  ∀ p f, (p, f) ∈ lru_items (fh_cache c) → ∃ calls1 calls2, calls = calls1 ++ CallOpen p :: calls2 ∧
    (open_file p (drive (spec_call capacity) calls1 inner []).1).2 = Ok f.
Proof.
  pose proof (drive_spec capacity calls (FileHandleCache_new (L := L) inner capacity) []) as Hd.
  destruct (drive (λ _, call_fs) calls _ []) as [c h]. destruct Hd as [Hd [_ Hit]].
  { split; cbn [fh_cache FileHandleCache_new]; [by apply lru_new_items|]. rewrite (proj1 (lru_new_items _)). by destruct capacity. }
  split; [done|]. rewrite Hit. split; [rewrite length_take; lia|]. intros p f Hin.
  apply elem_of_take in Hin as (i & Hi & _). apply list_elem_of_lookup_2 in Hi.
  replace h with (drive (spec_call capacity) calls inner []).2 in Hi by exact (f_equal snd Hd).
  by destruct (recent_given capacity calls p f inner [] Hi) as [?%elem_of_nil|?].
Qed.

(** * A cache as a list, the last used first *)

Section ListLru.
Context {V : Type}.

Record lru_list := { lru_capacity : nat; lru_entries : list (bytes * V) }.

Definition list_get_mut (k : bytes) (c : lru_list) : lru_list * option V :=
  match lru_lookup k (lru_entries c) with
  | Some v => ({| lru_capacity := lru_capacity c; lru_entries := (k, v) :: lru_remove k (lru_entries c) |}, Some v)
  | None => (c, None)
  end.

#[export] Program Instance list_lru : LruCache lru_list V := {
  lru_get_mut := list_get_mut;
  lru_insert k v c := {| lru_capacity := lru_capacity c; lru_entries := take (lru_capacity c) ((k, v) :: lru_remove k (lru_entries c)) |};
  lru_clear c := {| lru_capacity := lru_capacity c; lru_entries := [] |};
  lru_new n := {| lru_capacity := n; lru_entries := [] |};
  lru_items := lru_entries;
  lru_cap := lru_capacity
}.
Next Obligation. done. Qed.
Next Obligation. intros l k. unfold list_get_mut. by destruct (lru_lookup k (lru_entries l)). Qed.
Next Obligation. done. Qed.
Next Obligation. done. Qed.
End ListLru.
Arguments lru_list V : clear implicits.

(** A cache of one handle in front of a flaky file system, whose handles number
    the opens and whose opens of the path [x] fail: [a] is answered from the
    cache until [b] takes its place, and each failure reaches the client. *)
Definition flaky_fs : FileSystem nat nat := {|
  open_file p s := if bool_decide (p = bstr "x") then (Datatypes.S s, Err IoOther) else (Datatypes.S s, Ok s);
  sync_file _ s := (s, Err IoOther);
  file_size _ s := (s, Ok 0%Z);
  read_file _ _ _ s := (s, Ok []);
  write_file _ _ l s := (s, Ok (length l - 1))
|}.

Lemma cache_refines_witness :
  let calls := [CallOpen (bstr "a"); CallOpen (bstr "x"); CallOpen (bstr "a"); CallOpen (bstr "b"); CallOpen (bstr "a")] in
  let '(c, h) := drive (λ _, @call_fs _ _ (@FileHandleCache_fs nat nat (lru_list nat) flaky_fs _)) calls
                   (FileHandleCache_new (L := lru_list nat) 0 1) [] in
  (drive (@spec_call _ _ flaky_fs 1) calls 0 [] = (fh_inner c, h) ∧ length (lru_items (fh_cache c)) ≤ 1) ∧
  (fh_inner c = 4 ∧ reverse (snd <$> h) = [Ok (VFile 0); Err IoOther; Ok (VFile 0); Ok (VFile 2); Ok (VFile 3)]).
Proof.
  intros calls. split; [|vm_compute; split; reflexivity].
  destruct (@cache_refines nat nat (lru_list nat) flaky_fs _ 0 1 calls) as (H1 & H2 & _). split; [exact H1|exact H2].
Defined.
