(* ===== verification/DiskProps.v ===== *)
(** Properties of the disk component: blocks are the slices of one byte
    sequence that runs through all files of a torrent, pieces are reported good
    only when their hash matches, and every request has its answer. *)

From stdpp Require Import base numbers gmap strings sorting list.
From S2P Require Import Prelude RustStd Extern Io Sha Path Bencode Metainfo Disk DiskFs.

(** * Splicing lists *)

Definition splice {A} (o : nat) (l c : list A) : list A := take o c ++ l ++ drop (o + length l) c.

Lemma overwrite_splice o l c : o + length l ≤ length c → overwrite o l c = splice o l c.
Proof.
  intros H. unfold overwrite, splice, pad. replace (o - length c) with 0 by lia. by rewrite app_nil_r.
Qed.

Lemma length_splice {A} o (l c : list A) : o + length l ≤ length c → length (splice o l c) = length c.
Proof. intros H. unfold splice. rewrite !length_app, length_take, length_drop. lia. Qed.

Lemma splice_nil {A} o (c : list A) : splice o [] c = c.
Proof. unfold splice. simpl. by rewrite Nat.add_0_r, take_drop. Qed.

(** Past the first part, inside it, across the border. *)
Lemma splice_app_r {A} o (l c d : list A) : length c ≤ o → splice o l (c ++ d) = c ++ splice (o - length c) l d.
Proof.
  intros H. unfold splice. rewrite take_app_ge, drop_app_ge by lia. rewrite <- app_assoc. do 4 f_equal. lia.
Qed.

Lemma splice_app_l {A} o (l c d : list A) : o + length l ≤ length c → splice o l (c ++ d) = splice o l c ++ d.
Proof. intros H. unfold splice. rewrite take_app_le, drop_app_le by lia. by rewrite <- !app_assoc. Qed.

Lemma splice_app_across {A} o (l1 l2 c d : list A) : o + length l1 = length c →
  splice o (l1 ++ l2) (c ++ d) = splice o l1 c ++ splice 0 l2 d.
Proof.
  intros H. unfold splice. rewrite length_app. rewrite take_app_le, drop_app_ge by lia.
  rewrite (drop_ge c) by lia. simpl. rewrite app_nil_r, <- !app_assoc. do 4 f_equal. lia.
Qed.

Lemma take_drop_splice {A} o (l c : list A) : o + length l ≤ length c → take (length l) (drop o (splice o l c)) = l.
Proof.
  intros H. unfold splice. rewrite drop_app_length' by (rewrite length_take; lia). by rewrite take_app_length.
Qed.

Lemma take_drop_disjoint {A} o (l c : list A) p n : o + length l ≤ length c → p + n ≤ o ∨ o + length l ≤ p →
  take n (drop p (splice o l c)) = take n (drop p c).
Proof.
  intros H Hd. apply list_eq. intros i. destruct (decide (i < n)) as [Hi|Hi];
    [|by rewrite !lookup_take_ge by lia].
  rewrite !lookup_take_lt, !lookup_drop by done. unfold splice. destruct Hd as [Hd|Hd].
  - rewrite lookup_app_l by (rewrite length_take; lia). by rewrite lookup_take_lt by lia.
  - rewrite lookup_app_r by (rewrite length_take; lia). rewrite length_take.
    rewrite lookup_app_r by lia. rewrite lookup_drop. f_equal. lia.
Qed.

(** * The bytes of a torrent *)

Section Torrent.
Context {S F : Type} `{!FileSystem S F} `{!FsLaws S F} (info : Info).
Implicit Types (v : gmap bytes bytes) (s : S) (l : list File).

Abbreviation path_of := (build_path (i_file_directory info)).

(** The contents of the files one after the other. *)
Definition flat (v : gmap bytes bytes) (l : list File) : bytes := concat ((λ f, default [] (v !! path_of f)) <$> l).

(** Every file is there with its length. *)
Definition allocated (v : gmap bytes bytes) (l : list File) : Prop :=
  Forall (λ f, ∃ c, v !! path_of f = Some c ∧ f_len f = Z.of_nat (length c)) l.

(** Two states of the files that differ at most in these files. *)
Definition same_beyond (l : list File) (v v' : gmap bytes bytes) : Prop := ∀ p, p ∉ path_of <$> l → v' !! p = v !! p.

Lemma flat_ext v v' l : (∀ p, p ∈ path_of <$> l → v' !! p = v !! p) → flat v' l = flat v l.
Proof.
  intros H. unfold flat. f_equal. apply list_fmap_ext. intros i f Hf. rewrite H; [done|].
  apply list_elem_of_fmap_2. by eapply list_elem_of_lookup_2.
Qed.

Lemma allocated_ext v v' l : (∀ p, p ∈ path_of <$> l → v' !! p = v !! p) → allocated v l → allocated v' l.
Proof.
  intros H Ha. apply Forall_forall. intros f Hf. destruct (proj1 (Forall_forall _ _) Ha f Hf) as (c & Hc & Hl).
  exists c. rewrite H; [done|]. by apply list_elem_of_fmap_2.
Qed.

(** Opening a file that exists changes nothing. *)
Lemma open_existing s p c : fs_inv s → fs_view s !! p = Some c →
  ∃ s' f, open_file p s = (s', Ok f) ∧ fs_inv s' ∧ fs_handle f p ∧ fs_view s' = fs_view s.
Proof.
  intros Hi Hc. destruct (fs_open s p Hi) as (s' & f & E & Hi' & Hf & Hv). exists s', f.
  rewrite Hc in Hv. simpl in Hv. rewrite insert_id in Hv by done. done.
Qed.

(** The first file and the others, when the first has been given [c1]. *)
Lemma head_then_rest f l v v' c1 : NoDup (path_of <$> f :: l) → same_beyond l (<[path_of f := c1]> v) v' →
  allocated v' l → f_len f = Z.of_nat (length c1) →
  allocated v' (f :: l) ∧ same_beyond (f :: l) v v' ∧ flat v' (f :: l) = c1 ++ flat v' l.
Proof.
  intros [Hf Hnd]%NoDup_cons Hs Ha Hl. pose proof (Hs _ Hf) as Hc. rewrite lookup_insert_eq in Hc. split; [|split].
  - constructor; [by exists c1|done].
  - intros p Hp. apply not_elem_of_cons in Hp as [Hp1 Hp2]. rewrite Hs by done. by rewrite lookup_insert_ne.
  - unfold flat. rewrite fmap_cons. cbn [concat]. by rewrite Hc.
Qed.

Lemma rest_unchanged f l v c1 : NoDup (path_of <$> f :: l) → allocated v (f :: l) →
  allocated (<[path_of f := c1]> v) l ∧ flat (<[path_of f := c1]> v) l = flat v l.
Proof.
  intros [Hf Hnd]%NoDup_cons [_ Ha]%Forall_cons.
  assert (∀ p, p ∈ path_of <$> l → <[path_of f := c1]> v !! p = v !! p) as E.
  { intros p Hp. apply lookup_insert_ne. by intros <-. }
  split; [by eapply allocated_ext|by apply flat_ext].
Qed.

Lemma flat_cons v f l c : v !! path_of f = Some c → flat v (f :: l) = c ++ flat v l.
Proof. intros Hc. unfold flat. rewrite fmap_cons. cbn [concat]. by rewrite Hc. Qed.

(** The part of a file that a block touches. *)
Lemma region_split (len n skip acc : nat) :
  (Z.of_nat skip - Z.min (Z.of_nat skip) (Z.of_nat n))%Z = Z.of_nat (skip - n) ∧
  (Z.of_nat n - Z.min (Z.of_nat skip) (Z.of_nat n))%Z = Z.of_nat (n - skip) ∧
  ((0 <? Z.of_nat n - Z.min (Z.of_nat skip) (Z.of_nat n)) && (Z.of_nat acc <? Z.of_nat len))%Z = (skip <? n) && (acc <? len).
Proof.
  split; [lia|]. split; [lia|]. apply eq_iff_eq_true. rewrite !andb_true_iff, !Z.ltb_lt, !Nat.ltb_lt. lia.
Qed.

Section Write.
Context (buf : bytes) (len : nat) (Hbuf : len ≤ length buf).

Lemma write_region_ok s f p c o b e : fs_inv s → fs_handle f p → fs_view s !! p = Some c → b ≤ e ≤ len →
  o + (e - b) ≤ length c →
  ∃ s', write_region buf f (Z.of_nat o) (Z.of_nat b) (Z.of_nat e) s = (s', Ok ()) ∧ fs_inv s' ∧
    fs_view s' = <[p := splice o (slice buf b e) c]> (fs_view s).
Proof using Hbuf.
  intros Hi Hf Hc Hbe Ho. unfold write_region, in_buffer.
  rewrite !(proj2 (Z.leb_le _ _)) by lia. cbn [andb negb]. rewrite !Nat2Z.id.
  assert (length (slice buf b e) = e - b) as Hl by (apply length_slice; lia).
  destruct (fs_write s f p c o (slice buf b e) Hi Hf Hc) as (s' & E & Hi' & Hv). exists s'.
  rewrite (st_bind_ok _ _ _ _ _ E), Hl. unfold st_res. rewrite (proj2 (Z.eqb_eq _ _)) by lia.
  split; [done|]. split; [done|]. by rewrite Hv, overwrite_splice by lia.
Qed.

(** The loop writes the rest of the block at the place that is left to skip to. *)
Lemma write_regions l s skip acc : fs_inv s → allocated (fs_view s) l → NoDup (path_of <$> l) → acc ≤ len →
  skip + (len - acc) ≤ length (flat (fs_view s) l) →
  ∃ s', file_regions open_file info (write_region buf) (Z.of_nat len) l (Z.of_nat skip) (Z.of_nat acc) s = (s', Ok ()) ∧
    fs_inv s' ∧ allocated (fs_view s') l ∧ same_beyond l (fs_view s) (fs_view s') ∧
    flat (fs_view s') l = splice skip (slice buf acc len) (flat (fs_view s) l).
Proof using Hbuf.
  revert s skip acc. induction l as [|f l IH]; intros s skip acc Hi Ha Hnd Hacc Hroom.
  { exists s. simpl in *. assert (len = acc) as -> by lia. rewrite slice_nil, splice_nil. by split_and!. }
  pose proof Ha as [(c & Hc & Hl) Hal]%Forall_cons. pose proof (flat_cons _ f l c Hc) as Hflat.
  rewrite Hflat, length_app in Hroom. cbn [file_regions]. rewrite Hl.
  destruct (region_split len (length c) skip acc) as (E1 & E2 & E3). rewrite E1, E3, E2.
  pose proof (rest_unchanged f l (fs_view s) c Hnd Ha) as [Hal1 Hfl1]. rewrite insert_id in Hal1, Hfl1 by done.
  assert (NoDup (path_of <$> l)) as Hnd' by (by apply NoDup_cons in Hnd as [_ ?]).
  destruct (Nat.ltb_spec skip (length c)) as [Hs|Hs]; [destruct (Nat.ltb_spec acc len) as [Hlen|Hlen]|]; cbn [andb].
  - destruct (open_existing s (path_of f) c Hi Hc) as (s1 & h & Eo & Hi1 & Hh & Hv1).
    rewrite (st_bind_ok _ _ _ _ _ Eo).
    set (k := Nat.min (len - acc) (length c - skip)).
    replace (Z.of_nat acc + Z.min (Z.of_nat len - Z.of_nat acc) (Z.of_nat (length c - skip)))%Z with (Z.of_nat (acc + k)) by lia.
    replace (Z.of_nat (length c) - Z.of_nat (length c - skip))%Z with (Z.of_nat skip) by lia.
    destruct (write_region_ok s1 h (path_of f) c skip acc (acc + k)) as (s2 & Ew & Hi2 & Hv2);
      [done|done|by rewrite Hv1|lia|lia|].
    rewrite (st_bind_ok _ _ _ _ _ Ew). rewrite Hv1 in Hv2. set (c1 := splice skip (slice buf acc (acc + k)) c) in *.
    assert (length (slice buf acc (acc + k)) = k) as Hk by (rewrite length_slice; lia).
    destruct (rest_unchanged f l (fs_view s) c1 Hnd Ha) as [Ha2 Hf2]. rewrite <- Hv2 in Ha2, Hf2.
    destruct (IH s2 (skip - length c) (acc + k)) as (s' & E & Hi' & Ha' & Hsb & Hfl);
      [done|done|done|lia|rewrite Hf2; lia|].
    rewrite Hv2 in Hsb. destruct (head_then_rest f l (fs_view s) (fs_view s') c1 Hnd Hsb Ha') as (R1 & R2 & R3).
    { unfold c1. rewrite length_splice by lia. done. }
    exists s'. split; [done|]. split; [done|]. split; [done|]. split; [done|].
    rewrite R3, Hfl, Hflat, Hf2. unfold c1. replace (skip - length c) with 0 by lia.
    rewrite <- (slice_slice_app buf acc (acc + k) len) by lia.
    destruct (decide (k = len - acc)) as [Hka|Hka].
    + replace (acc + k) with len by lia. rewrite slice_nil, splice_nil, app_nil_r.
      symmetry. apply splice_app_l. rewrite length_slice; lia.
    + symmetry. apply splice_app_across. lia.
  - destruct (IH s (skip - length c) acc) as (s' & E & Hi' & Ha' & Hsb & Hfl); [done|done|done|done|lia|].
    exists s'. split; [done|]. split; [done|].
    destruct (head_then_rest f l (fs_view s) (fs_view s') c Hnd) as (R1 & R2 & R3); [by rewrite insert_id|done|done|].
    split; [done|]. split; [done|]. rewrite R3, Hfl, Hflat. assert (len = acc) as -> by lia. by rewrite slice_nil, !splice_nil.
  - destruct (IH s (skip - length c) acc) as (s' & E & Hi' & Ha' & Hsb & Hfl); [done|done|done|done|lia|].
    exists s'. split; [done|]. split; [done|].
    destruct (head_then_rest f l (fs_view s) (fs_view s') c Hnd) as (R1 & R2 & R3); [by rewrite insert_id|done|done|].
    split; [done|]. split; [done|]. rewrite R3, Hfl, Hflat. by rewrite splice_app_r.
Qed.
End Write.

Section Read.
Context (len : nat).

Lemma read_region_ok s buf f p c o b e : fs_inv s → fs_handle f p → fs_view s !! p = Some c → b ≤ e ≤ length buf →
  o + (e - b) ≤ length c →
  ∃ s', read_region f (Z.of_nat o) (Z.of_nat b) (Z.of_nat e) (s, buf) = ((s', splice b (take (e - b) (drop o c)) buf), Ok ()) ∧
    fs_inv s' ∧ fs_view s' = fs_view s.
Proof.
  intros Hi Hf Hc Hbe Ho. unfold read_region, in_buffer.
  rewrite !(proj2 (Z.leb_le _ _)) by lia. cbn [andb negb].
  replace (Z.to_nat (Z.of_nat e - Z.of_nat b)) with (e - b) by lia. rewrite Nat2Z.id.
  destruct (fs_read s f p c o (e - b) Hi Hf Hc) as (s' & E & Hi' & Hv). exists s'. rewrite E.
  rewrite (proj2 (Z.eqb_eq _ _)); [done|]. rewrite length_take, length_drop. lia.
Qed.

Lemma splice_twice {A} b (x y buf : list A) : b + length x + length y ≤ length buf →
  splice (b + length x) y (splice b x buf) = splice b (x ++ y) buf.
Proof.
  intros H. unfold splice. rewrite length_app.
  rewrite (app_assoc (take b buf) x), (take_app_length' (take b buf ++ x)) by (rewrite length_app, length_take; lia).
  rewrite drop_app_ge by (rewrite length_app, length_take; lia).
  rewrite length_app, length_take, drop_drop, <- !app_assoc. do 4 f_equal. lia.
Qed.

(** The loop fills the rest of the buffer from the place left to skip to. *)
Lemma read_regions l s buf skip acc : fs_inv s → allocated (fs_view s) l → acc ≤ len → len ≤ length buf →
  skip + (len - acc) ≤ length (flat (fs_view s) l) →
  ∃ s', file_regions (λ p, on_fs (open_file p)) info read_region (Z.of_nat len) l (Z.of_nat skip) (Z.of_nat acc) (s, buf) =
      ((s', splice acc (take (len - acc) (drop skip (flat (fs_view s) l))) buf), Ok ()) ∧
    fs_inv s' ∧ fs_view s' = fs_view s.
Proof.
  revert s buf skip acc. induction l as [|f l IH]; intros s buf skip acc Hi Ha Hacc Hbuf Hroom.
  { exists s. simpl in *. assert (len = acc) as -> by lia. rewrite Nat.sub_diag, take_0, splice_nil. by split_and!. }
  pose proof Ha as [(c & Hc & Hl) Hal]%Forall_cons. pose proof (flat_cons _ f l c Hc) as Hflat.
  rewrite Hflat, length_app in Hroom. cbn [file_regions]. rewrite Hl.
  destruct (region_split len (length c) skip acc) as (E1 & E2 & E3). rewrite E1, E3, E2.
  destruct (Nat.ltb_spec skip (length c)) as [Hs|Hs]; [destruct (Nat.ltb_spec acc len) as [Hlen|Hlen]|]; cbn [andb].
  - destruct (open_existing s (path_of f) c Hi Hc) as (s1 & h & Eo & Hi1 & Hh & Hv1).
    assert (on_fs (open_file (path_of f)) (s, buf) = ((s1, buf), Ok h)) as Eo' by (unfold on_fs; by rewrite Eo).
    rewrite (st_bind_ok _ _ _ _ _ Eo').
    set (k := Nat.min (len - acc) (length c - skip)).
    replace (Z.of_nat acc + Z.min (Z.of_nat len - Z.of_nat acc) (Z.of_nat (length c - skip)))%Z with (Z.of_nat (acc + k)) by lia.
    replace (Z.of_nat (length c) - Z.of_nat (length c - skip))%Z with (Z.of_nat skip) by lia.
    destruct (read_region_ok s1 buf h (path_of f) c skip acc (acc + k)) as (s2 & Er & Hi2 & Hv2);
      [done|done|by rewrite Hv1|lia|lia|].
    rewrite (st_bind_ok _ _ _ _ _ Er). replace (acc + k - acc) with k in * by lia. rewrite Hv1 in Hv2.
    set (x := take k (drop skip c)) in *.
    assert (length x = k) as Hx by (unfold x; rewrite length_take, length_drop; lia).
    destruct (IH s2 (splice acc x buf) (skip - length c) (acc + k)) as (s' & E & Hi' & Hv');
      [done|by rewrite Hv2|lia|rewrite length_splice; lia|rewrite Hv2; lia|].
    exists s'. rewrite Hv2 in E, Hv'. split; [|done]. rewrite E. do 2 f_equal. rewrite Hflat.
    replace (acc + k) with (acc + length x) by lia. rewrite splice_twice.
    + f_equal. replace (skip - length c) with 0 by lia. rewrite drop_0.
      destruct (decide (k = len - acc)) as [Hka|Hka].
      * replace (len - (acc + length x)) with 0 by lia. rewrite app_nil_r, drop_app_le, take_app_le by (rewrite ?length_drop; lia).
        unfold x. by rewrite Hka.
      * rewrite drop_app_le by lia. rewrite take_app_ge by (rewrite length_drop; lia). f_equal.
        -- unfold x. apply take_ge. rewrite length_drop. lia.
        -- f_equal. rewrite length_drop. lia.
    + rewrite length_take, length_drop. lia.
  - destruct (IH s buf (skip - length c) acc) as (s' & E & Hi' & Hv'); [done|done|done|done|lia|].
    exists s'. split; [|done]. rewrite E. assert (len = acc) as -> by lia. by rewrite Nat.sub_diag, !take_0.
  - destruct (IH s buf (skip - length c) acc) as (s' & E & Hi' & Hv'); [done|done|done|done|lia|].
    exists s'. split; [|done]. rewrite E, Hflat. by rewrite drop_app_ge by lia.
Qed.
End Read.

(** A block within the torrent: where it starts, and its length. *)
Definition block_at (message : BlockMetadata) (o len : nat) : Prop :=
  (bm_piece_index message * i_piece_len info + bm_block_offset message = Z.of_nat o)%Z ∧
  (0 ≤ bm_piece_index message * i_piece_len info)%Z ∧ (0 ≤ bm_block_offset message)%Z ∧
  bm_block_length message = Z.of_nat len ∧ is_u64 (Z.of_nat o).

Lemma run_regions {X G} (open : bytes → st X io_error G) callback message o len : block_at message o len →
  run_with_file_regions open info callback message = file_regions open info callback (Z.of_nat len) (i_files info) (Z.of_nat o) 0.
Proof.
  intros (H1 & H2 & H3 & H4 & H5). unfold is_u64 in H5. unfold run_with_file_regions, u64_mul, u64_add, st_res, u64_max.
  rewrite (proj2 (Z.leb_le (bm_piece_index message * i_piece_len info) _)) by lia. rewrite H4.
  unfold mbind, st_bind. rewrite (proj2 (Z.leb_le _ _)) by lia. by rewrite H1.
Qed.

(** Reading a block gives that part of the torrent's bytes. *)
Lemma read_piece_flat s message o len buf : fs_inv s → allocated (fs_view s) (i_files info) → block_at message o len →
  o + len ≤ length (flat (fs_view s) (i_files info)) → length buf = len →
  ∃ s', read_piece info message (s, buf) = ((s', take len (drop o (flat (fs_view s) (i_files info)))), Ok ()) ∧
    fs_inv s' ∧ fs_view s' = fs_view s.
Proof.
  intros Hi Ha Hm Hr Hb. unfold read_piece. rewrite (run_regions _ _ _ _ _ Hm).
  destruct (read_regions len (i_files info) s buf o 0 Hi Ha) as (s' & E & Hi' & Hv); [lia|lia|lia|].
  exists s'. split; [|done]. change (Z.of_nat 0) with 0%Z in E. rewrite E, Nat.sub_0_r. do 2 f_equal.
  unfold splice. simpl. rewrite (drop_ge buf) by (rewrite length_take, length_drop; lia). apply app_nil_r.
Qed.

Lemma write_piece_flat s message o data : fs_inv s → allocated (fs_view s) (i_files info) →
  NoDup (path_of <$> i_files info) → block_at message o (length data) →
  o + length data ≤ length (flat (fs_view s) (i_files info)) →
  ∃ s', write_piece info data message s = (s', Ok ()) ∧ fs_inv s' ∧ allocated (fs_view s') (i_files info) ∧
    same_beyond (i_files info) (fs_view s) (fs_view s') ∧
    flat (fs_view s') (i_files info) = splice o data (flat (fs_view s) (i_files info)).
Proof.
  intros Hi Ha Hnd Hm Hr. unfold write_piece. rewrite (run_regions _ _ _ _ _ Hm).
  destruct (write_regions data (length data) ltac:(lia) (i_files info) s o 0 Hi Ha Hnd) as (s' & E & Hi' & Ha' & Hs & Hf); [lia|lia|].
  exists s'. rewrite slice_all in Hf. by split_and!.
Qed.

(** Claim C16. Writing a block and reading blocks back: the files of the torrent are one
    sequence of bytes, the write replaces the block in it wherever it crosses
    files, reading the same block gives the bytes written, reading a block that
    does not meet it gives what was there, and no file outside changes, as long as
    the file system returns no I/O error. *)
Theorem block_write_read s message o data : fs_inv s → allocated (fs_view s) (i_files info) →
  NoDup (path_of <$> i_files info) → block_at message o (length data) →
  o + length data ≤ length (flat (fs_view s) (i_files info)) →
  ∃ s', write_piece info data message s = (s', Ok ()) ∧ same_beyond (i_files info) (fs_view s) (fs_view s') ∧
    flat (fs_view s') (i_files info) = splice o data (flat (fs_view s) (i_files info)) ∧
    (∀ buf, length buf = length data → ∃ s'', read_piece info message (s', buf) = ((s'', data), Ok ())) ∧
    (∀ message2 o2 len buf, block_at message2 o2 len → o2 + len ≤ length (flat (fs_view s) (i_files info)) → length buf = len →
       o2 + len ≤ o ∨ o + length data ≤ o2 →
       ∃ s'', read_piece info message2 (s', buf) = ((s'', take len (drop o2 (flat (fs_view s) (i_files info)))), Ok ())).
Proof.
  intros Hi Ha Hnd Hm Hr. destruct (write_piece_flat s message o data Hi Ha Hnd Hm Hr) as (s' & E & Hi' & Ha' & Hs & Hf).
  exists s'. split; [done|]. split; [done|]. split; [done|]. split.
  - intros buf Hb. destruct (read_piece_flat s' message o (length data) buf Hi' Ha' Hm) as (s'' & Er & _ & _);
      [rewrite Hf, length_splice by done; done|done|].
    exists s''. rewrite Er, Hf. by rewrite take_drop_splice.
  - intros m2 o2 len buf Hm2 Hr2 Hb Hd. destruct (read_piece_flat s' m2 o2 len buf Hi' Ha' Hm2) as (s'' & Er & _ & _);
      [rewrite Hf, length_splice by done; done|done|].
    exists s''. rewrite Er, Hf. by rewrite take_drop_disjoint.
Qed.
End Torrent.

(** * Blocks past the end *)

Lemma regions_past_end {X G} (open : bytes → st X io_error G) info callback len l skip acc x :
  Forall (λ f, 0 ≤ f_len f)%Z l → (foldr (λ f a, f_len f + a) 0 l ≤ skip)%Z →
  file_regions open info callback len l skip acc x = (x, Ok ()).
Proof.
  intros Hl. revert skip. induction Hl as [|f l Hf Hl IH]; intros skip Hs; [done|]. cbn [foldr] in Hs. cbn [file_regions].
  assert (0 ≤ foldr (λ f a, f_len f + a) 0 l)%Z as Hpos.
  { clear IH Hs. induction Hl as [|g l Hg _ IH]; simpl in *; lia. }
  rewrite Z.min_r, Z.sub_diag by lia. cbn [Z.ltb andb]. rewrite (proj2 (Z.ltb_ge 0 0)) by lia. cbn [andb]. apply IH. lia.
Qed.

(** A block that starts at or past the end of the torrent is accepted: a write
    writes nothing and a read leaves the buffer as it was, both with success. *)
Theorem block_past_end_accepted {S F : Type} `{!FileSystem S F} info message o data (s : S) :
  block_at info message o (length data) → Forall (λ f, 0 ≤ f_len f)%Z (i_files info) →
  (foldr (λ f a, f_len f + a) 0 (i_files info) ≤ Z.of_nat o)%Z →
  write_piece info data message s = (s, Ok ()) ∧ read_piece info message (s, data) = ((s, data), Ok ()).
Proof.
  intros Hm Hl Ho. unfold write_piece, read_piece. rewrite !(run_regions info _ _ _ _ _ Hm).
  by rewrite !regions_past_end.
Qed.

(** * Merging the blocks of a piece *)

Lemma sort_by_key_sorted {A} (key : A → Z) l : StronglySorted (λ x y, key x ≤ key y)%Z (sort_by (λ x y, Z.compare (key x) (key y)) l).
Proof.
  unfold sort_by. induction l as [|x l IH]; [constructor|]. cbn [foldr].
  set (k := foldr _ [] l) in *. clearbody k. clear l. induction k as [|y k IHk]; simpl; [repeat constructor|].
  apply StronglySorted_inv in IH as [Hk Hy].
  assert (key x ≤ key y → StronglySorted (λ x y, key x ≤ key y) (x :: y :: k))%Z as Hfront.
  { intros Hx. constructor; [by constructor|]. constructor; [done|]. eapply Forall_impl; [exact Hy|]. simpl. lia. }
  destruct (Z.compare_spec (key x) (key y)) as [E|E|E]; [apply Hfront; lia|apply Hfront; lia|].
  constructor; [by apply IHk|]. apply Forall_forall. intros z Hz. rewrite (sort_by_insert_perm _ x k) in Hz.
  apply elem_of_cons in Hz as [->|Hz]; [lia|]. by apply (proj1 (Forall_forall _ k) Hy).
Qed.

(** A list is sorted into any strictly sorted arrangement of it. *)
Lemma sort_by_key_unique {A} (key : A → Z) l t : l ≡ₚ t → StronglySorted (λ x y, key x < key y)%Z t →
  sort_by (λ x y, Z.compare (key x) (key y)) l = t.
Proof.
  intros E Ht. eapply (StronglySorted_unique_strong (λ x y, key x ≤ key y)%Z).
  - intros x y Hx Hy H1 H2. rewrite sort_by_perm, E in Hx. assert (key x = key y) as Hk by lia. clear -Ht Hx Hy Hk.
    induction Ht as [|z t Ht IH Hz]; [by apply not_elem_of_nil in Hx|].
    apply elem_of_cons in Hx as [->|Hx], Hy as [->|Hy]; [done|..|by apply IH].
    + pose proof (proj1 (Forall_forall _ _) Hz y Hy). simpl in *. lia.
    + pose proof (proj1 (Forall_forall _ _) Hz x Hx). simpl in *. lia.
  - apply sort_by_key_sorted.
  - clear -Ht. induction Ht as [|z t Ht IH Hz]; constructor; [done|]. eapply Forall_impl; [exact Hz|]. simpl. lia.
  - by rewrite sort_by_perm.
Qed.

(** The bytes of a piece that messages stand for. *)
Definition covers (m : BlockMetadata) (x : Z) : Prop := (bm_block_offset m ≤ x < bm_block_offset m + bm_block_length m)%Z.
Definition covered (l : list BlockMetadata) (x : Z) : Prop := ∃ m, m ∈ l ∧ covers m x.

Definition wf_block (m : BlockMetadata) : Prop :=
  (0 ≤ bm_block_offset m ∧ 0 ≤ bm_block_length m ∧ bm_block_offset m + bm_block_length m ≤ u64_max)%Z.

Lemma merge_two {E} a b : wf_block a → wf_block b → ∃ o, @merge_piece_messages E a b = Ok o ∧
  ∀ m, o = Some m → wf_block m ∧ ∀ x, covers m x ↔ covers a x ∨ covers b x.
Proof.
  intros (Ha1 & Ha2 & Ha3) (Hb1 & Hb2 & Hb3). unfold merge_piece_messages, u64_add.
  destruct (negb _ || _); [by eexists|]. rewrite !(proj2 (Z.leb_le _ u64_max)) by done. cbn [mbind res_bind].
  match goal with |- context [if ?c then _ else _] => destruct c eqn:E1 end;
    [|match goal with |- context [if ?c then _ else _] => destruct c eqn:E2 end]; (eexists; split; [reflexivity|]); intros m [= <-];
    bool_arith; unfold wf_block, covers; simpl; split; [lia| |lia|]; intros x; lia.
Qed.

Lemma merge_backward_covered {E} last rest : wf_block last → Forall wf_block rest →
  ∃ l, @merge_backward E last rest = Ok l ∧ Forall wf_block l ∧ ∀ x, covered l x ↔ covers last x ∨ covered rest x.
Proof.
  intros Hl Hr. revert last Hl. induction Hr as [|a rest Ha Hr IH]; intros last Hl.
  - exists [last]. split; [done|]. split; [by constructor|]. intros x. unfold covered. set_solver.
  - cbn [merge_backward]. destruct (@merge_two E a last Ha Hl) as (o & -> & Ho). rewrite bind_Ok.
    destruct o as [m|].
    + destruct (Ho m eq_refl) as [Hm Hc]. destruct (IH m Hm) as (l & El & Hwl & Hcl). exists l. split; [done|]. split; [done|].
      intros x. rewrite Hcl, Hc. unfold covered. set_solver.
    + eexists. split; [reflexivity|]. split.
      * apply Forall_reverse. constructor; [done|by constructor].
      * intros x. unfold covered. set_solver.
Qed.

(** Merging never fails on blocks within range, and neither loses nor invents a
    byte: the messages left stand for the same bytes. *)
Theorem merge_keeps_bytes {E} l : Forall wf_block l →
  ∃ l', @merge_messages E l = Ok l' ∧ Forall wf_block l' ∧ ∀ x, covered l' x ↔ covered l x.
Proof.
  intros Hl. unfold merge_messages. assert (reverse (sort_messages l) ≡ₚ l) as Hp.
  { rewrite reverse_Permutation. apply sort_by_perm. }
  destruct (reverse (sort_messages l)) as [|m rest].
  - apply Permutation_nil_l in Hp as <-. exists []. split; [done|]. split; [constructor|done].
  - rewrite <- Hp in Hl. apply Forall_cons in Hl as [Hm Hr].
    destruct (@merge_backward_covered E m rest Hm Hr) as (l' & -> & Hw & Hc). exists l'. split; [done|]. split; [done|].
    intros x. rewrite Hc. unfold covered. setoid_rewrite <- Hp. set_solver.
Qed.

Lemma merge_keeps_witness :
  let b o n := BlockMetadata_new zero_hash 0 o n in
  Forall wf_block [b 4 4; b 0 4; b 10 2]%Z ∧
  ∃ l', @merge_messages io_error [b 4 4; b 0 4; b 10 2]%Z = Ok l' ∧ Forall wf_block l' ∧
    ∀ x, covered l' x ↔ covered [b 4 4; b 0 4; b 10 2]%Z x.
Proof.
  intros b. assert (Forall wf_block [b 4 4; b 0 4; b 10 2]%Z) as Hw by (repeat constructor; vm_compute; discriminate).
  split; [exact Hw|]. apply (@merge_keeps_bytes io_error [b 4 4; b 0 4; b 10 2]%Z Hw).
Defined.

(** Blocks laid end to end from an offset. *)
Fixpoint tiles (h : ShaHash) (index offset : Z) (lens : list Z) : list BlockMetadata :=
  match lens with
  | [] => []
  | n :: lens => BlockMetadata_new h index offset n :: tiles h index (offset + n) lens
  end.
Definition total (lens : list Z) : Z := foldr Z.add 0%Z lens.

Lemma total_nonneg lens : Forall (λ n, 0 < n)%Z lens → (0 ≤ total lens)%Z.
Proof. induction 1 as [|n lens Hn _ IH]; simpl; [lia|]. unfold total in *. simpl. lia. Qed.

Lemma tiles_bound h i o lens : Forall (λ n, 0 < n)%Z lens → Forall (λ m, o ≤ bm_block_offset m)%Z (tiles h i o lens).
Proof.
  intros Hl. revert o. induction Hl as [|n lens Hn _ IH]; intros o; simpl; constructor; [simpl; lia|].
  eapply Forall_impl; [apply IH|]. simpl. lia.
Qed.

Lemma tiles_sorted h i o lens : Forall (λ n, 0 < n)%Z lens →
  StronglySorted (λ x y, bm_block_offset x < bm_block_offset y)%Z (tiles h i o lens).
Proof.
  intros Hl. revert o. induction Hl as [|n lens Hn Hl IH]; intros o; simpl; constructor; [apply IH|].
  eapply Forall_impl; [by apply tiles_bound|]. simpl. lia.
Qed.

Lemma tiles_app h i o l1 l2 : tiles h i o (l1 ++ l2) = tiles h i o l1 ++ tiles h i (o + total l1) l2.
Proof.
  revert o. induction l1 as [|n l1 IH]; intros o; simpl; [by rewrite Z.add_0_r|]. rewrite IH.
  by replace (o + n + total l1)%Z with (o + total (n :: l1))%Z by (unfold total; simpl; lia).
Qed.

Lemma merge_adjacent {E} h i a k n : (0 ≤ a)%Z → (0 ≤ k)%Z → (0 ≤ n)%Z → (a + k + n ≤ u64_max)%Z →
  @merge_piece_messages E (BlockMetadata_new h i a k) (BlockMetadata_new h i (a + k) n) =
    Ok (Some (BlockMetadata_new h i a (k + n))).
Proof.
  intros Ha Hk Hn Hm. unfold merge_piece_messages, u64_add.
  cbn [BlockMetadata_new bm_info_hash bm_piece_index bm_block_offset bm_block_length].
  rewrite bool_decide_eq_true_2, Z.eqb_refl by done. cbn [negb orb].
  rewrite !(proj2 (Z.leb_le _ u64_max)) by lia. cbn [mbind res_bind].
  rewrite !(proj2 (Z.leb_le _ _)) by lia. cbn [andb]. unfold BlockMetadata_new. do 3 f_equal. lia.
Qed.

(** From the last block backwards each step joins two neighbours. *)
Lemma merge_tiles {E} h i o lens n : Forall (λ n, 0 < n)%Z lens → (0 ≤ o)%Z → (0 ≤ n)%Z → (o + total lens + n ≤ u64_max)%Z →
  @merge_backward E (BlockMetadata_new h i (o + total lens) n) (reverse (tiles h i o lens)) =
    Ok [BlockMetadata_new h i o (total lens + n)].
Proof.
  revert n. induction lens as [|k lens IH] using rev_ind; intros n Hl Ho Hn Hmax.
  - simpl. by rewrite Z.add_0_r.
  - apply Forall_app in Hl as [Hl Hk]. rewrite Forall_singleton in Hk.
    assert (total (lens ++ [k]) = total lens + k)%Z as Et.
    { unfold total. rewrite foldr_app. simpl. rewrite Z.add_0_r. clear. induction lens as [|a lens IH]; simpl; lia. }
    rewrite Et in *. pose proof (total_nonneg lens Hl). rewrite tiles_app, reverse_app. cbn [tiles]. rewrite reverse_singleton. cbn [app].
    cbn [merge_backward]. replace (o + (total lens + k))%Z with (o + total lens + k)%Z by lia.
    rewrite merge_adjacent, bind_Ok by lia.
    rewrite IH by (done || lia). do 3 f_equal. lia.
Qed.

(** The blocks of a piece, received in any order, merge into the whole piece,
    which is then ready to be checked. *)
Theorem tiled_piece_complete {E} h i lens l : lens ≠ [] → Forall (λ n, 0 < n)%Z lens → (total lens ≤ u64_max)%Z →
  l ≡ₚ tiles h i 0 lens →
  @merge_messages E l = Ok [BlockMetadata_new h i 0 (total lens)] ∧
  ∀ blocks last, blocks ≠ 0 → @piece_is_complete E blocks last (total lens) [BlockMetadata_new h i 0 (total lens)] = Ok true.
Proof.
  intros Hne Hl Hmax Hp. split.
  - unfold merge_messages, sort_messages. rewrite (sort_by_key_unique bm_block_offset l _ Hp) by (by apply tiles_sorted).
    destruct lens as [|n lens _] using rev_ind; [done|].
    apply Forall_app in Hl as [Hl Hn]. rewrite Forall_singleton in Hn. rewrite tiles_app, reverse_app. cbn [tiles]. rewrite reverse_singleton. cbn [app].
    assert (total (lens ++ [n]) = total lens + n)%Z as Et.
    { unfold total. rewrite foldr_app. simpl. rewrite Z.add_0_r. clear. induction lens as [|a lens IH]; simpl; lia. }
    rewrite Et in *. rewrite Z.add_0_l, <- (Z.add_0_l (total lens)) at 1.
    apply (@merge_tiles E h i 0 lens n); [done|lia|lia|lia].
  - intros blocks last Hb. unfold piece_is_complete. cbn [BlockMetadata_new bm_block_length length Nat.eqb].
    rewrite Z.eqb_refl. by destruct blocks.
Qed.

Lemma tiled_piece_witness :
  @merge_messages io_error [BlockMetadata_new zero_hash 3 8 2; BlockMetadata_new zero_hash 3 0 4; BlockMetadata_new zero_hash 3 4 4]%Z =
    Ok [BlockMetadata_new zero_hash 3 0 10]%Z.
Proof.
  apply (@tiled_piece_complete io_error zero_hash 3 [4; 4; 2]%Z); [done|repeat constructor; lia|vm_compute; discriminate|].
  simpl. solve_Permutation.
Defined.

(** A block inside another hides that the piece is there: the merge stops. *)
Example nested_block_stops_merge :
  let b o n := BlockMetadata_new zero_hash 0 o n in
  @merge_messages io_error [b 0 10; b 2 1; b 5 3]%Z = Ok [b 0 10; b 2 1; b 5 3]%Z ∧
  @piece_is_complete io_error 1 10 10 [b 0 10; b 2 1; b 5 3]%Z = Ok false.
Proof. by vm_compute. Qed.
