(* ===== verification/DiskCheck.v ===== *)
(** The piece checker of the disk component against the bytes on disk: a block
    is processed without a failure, a piece is reported when its blocks are all
    there, and the report says whether the bytes on disk have the piece's hash. *)

From stdpp Require Import base numbers gmap strings sorting list.
From S2P Require Import Prelude RustStd Extern Io Sha Path Bencode Metainfo Disk DiskFs DiskProps.

Lemma get_right_bind {X Y E B} (k : Y → st (X * Y) E B) x y : (get_right ≫= k) (x, y) = k y (x, y).
Proof. done. Qed.
Lemma set_right_bind {X Y E B} (k : () → st (X * Y) E B) x y y' : (set_right y' ≫= k) (x, y) = k () (x, y').
Proof. done. Qed.
Lemma st_res_bind {X E A B} (a : A) (k : A → st X E B) x : (st_res (Ok a) ≫= k) x = k a x.
Proof. done. Qed.
Lemma on_left_bind {X Y E A B} (m : st X E A) (k : A → st (X * Y) E B) x y x' a :
  m x = (x', Ok a) → (on_left m ≫= k) (x, y) = k a (x', y).
Proof. intros Hm. unfold mbind, st_bind, on_left. by rewrite Hm. Qed.

Section Check.
Context {S F : Type} `{!FileSystem S F} `{!FsLaws S F} `{HashOrder} `{Sha1} (info : Info).
Implicit Types (v : gmap bytes bytes) (s : S) (m : BlockMetadata).

Definition total_size : Z := foldr (λ f a, f_len f + a)%Z 0%Z (i_files info).

(** A torrent whose hashes fit its files: one for every started piece. *)
Record torrent_wf : Prop := {
  tw_piece_len : (0 < i_piece_len info)%Z;
  tw_paths : NoDup (build_path (i_file_directory info) <$> i_files info);
  tw_size : (total_size ≤ u64_max)%Z;
  tw_pieces : (total_size ≤ Z.of_nat (length (i_pieces info)) * i_piece_len info < total_size + i_piece_len info)%Z;
  tw_hashes : Forall (λ h, length h = SHA_HASH_LEN) (i_pieces info)
}.

(** The bytes of a piece on disk; the last piece is what is left. *)
Definition piece_bytes v (i : Z) : bytes :=
  take (Z.to_nat (i_piece_len info)) (drop (Z.to_nat (i * i_piece_len info)) (flat info v (i_files info))).

Definition piece_matches v (i : Z) : Prop := i_pieces info !! Z.to_nat i = Some (sha1 (piece_bytes v i)).

(** A non-empty block inside its piece and inside the torrent. *)
Definition in_piece m : Prop :=
  (0 ≤ bm_piece_index m ∧ 0 ≤ bm_block_offset m ∧ 0 < bm_block_length m ∧
   bm_block_offset m + bm_block_length m ≤ i_piece_len info ∧
   bm_piece_index m * i_piece_len info + bm_block_offset m + bm_block_length m ≤ total_size)%Z.

(** A block that is its whole piece. *)
Definition whole m : Prop :=
  bm_block_offset m = 0%Z ∧
  bm_block_length m = Z.min (i_piece_len info) (total_size - bm_piece_index m * i_piece_len info).

Definition of_piece (k : Z) (l : list BlockMetadata) : Prop := Forall (λ m, bm_piece_index m = k ∧ in_piece m) l.

Record checker_ok (c : PieceCheckerState) : Prop := {
  ck_blocks : pc_total_blocks c = length (i_pieces info);
  ck_last : pc_last_block_size c = (total_size `mod` i_piece_len info)%Z;
  ck_pending k l : pc_pending_blocks c !! k = Some l → of_piece k l
}.

Context (Hwf : torrent_wf).

Lemma in_piece_wf m : in_piece m → wf_block m.
Proof using Hwf. intros (? & ? & ? & ? & ?). destruct Hwf. unfold wf_block. nia. Qed.

Lemma merge_two_in {E} k a b : bm_piece_index a = k ∧ in_piece a → bm_piece_index b = k ∧ in_piece b →
  ∃ o, @merge_piece_messages E a b = Ok o ∧ ∀ m, o = Some m → bm_piece_index m = k ∧ in_piece m.
Proof using Hwf.
  intros [Ka Ha] [Kb Hb]. pose proof (in_piece_wf a Ha) as (Ha1 & Ha2 & Ha3). pose proof (in_piece_wf b Hb) as (Hb1 & Hb2 & Hb3).
  unfold merge_piece_messages, u64_add. destruct (negb _ || _); [by eexists|].
  rewrite !(proj2 (Z.leb_le _ u64_max)) by done. cbn [mbind res_bind].
  destruct Ha as (Ia & Oa & La & Pa & Ta), Hb as (Ib & Ob & Lb & Pb & Tb). rewrite Ka in *. rewrite Kb in *.
  match goal with |- context [if ?c then _ else _] => destruct c eqn:E1 end;
    [|match goal with |- context [if ?c then _ else _] => destruct c eqn:E2 end]; (eexists; split; [reflexivity|]); intros m [= <-];
    bool_arith; unfold in_piece; simpl; (split; [lia|]); lia.
Qed.

Lemma merge_messages_in {E} k l : of_piece k l → ∃ l', @merge_messages E l = Ok l' ∧ of_piece k l'.
Proof using Hwf.
  intros Hl. unfold merge_messages. assert (reverse (sort_messages l) ≡ₚ l) as Hp.
  { rewrite reverse_Permutation. apply sort_by_perm. }
  unfold of_piece in *. rewrite <- Hp in Hl. destruct (reverse (sort_messages l)) as [|m rest]; [exists []; split; [done|constructor]|].
  apply Forall_cons in Hl as [Hm Hr]. clear Hp l. revert m Hm. induction Hr as [|a rest Ha Hr IH]; intros m Hm.
  - exists [m]. split; [done|]. by constructor.
  - cbn [merge_backward]. destruct (@merge_two_in E k a m Ha Hm) as (o & -> & Ho). rewrite bind_Ok. destruct o as [m'|].
    + by apply IH, Ho.
    + eexists. split; [reflexivity|]. apply Forall_reverse. constructor; [done|]. by constructor.
Qed.

Lemma merge_all_in {E} keys c : NoDup keys.*1 → (∀ k l, (k, l) ∈ keys → of_piece k l) → checker_ok c →
  ∃ c', @merge_all E keys c = Ok c' ∧ checker_ok c' ∧ pc_new_states c' = pc_new_states c ∧ pc_old_states c' = pc_old_states c ∧
    (∀ k, k ∉ keys.*1 → pc_pending_blocks c' !! k = pc_pending_blocks c !! k) ∧
    (∀ k l l', (k, l) ∈ keys → @merge_messages E l = Ok l' → pc_pending_blocks c' !! k = Some l').
Proof using Hwf.
  revert c. induction keys as [|[k l] keys IH]; intros c Hnd Hk Hc.
  { exists c. split_and!; try done. by intros ??? ?%not_elem_of_nil. }
  cbn [merge_all]. destruct (@merge_messages_in E k l) as (l' & El & Hl'); [by apply Hk; left|]. rewrite El, bind_Ok.
  cbn [fmap list_fmap fst] in Hnd. apply NoDup_cons in Hnd as [Hn Hnd].
  destruct (IH (set_pending (<[k := l']> (pc_pending_blocks c)) c) Hnd) as (c' & E' & Hc' & Hs & Ho & Hout & Hin).
  { intros k0 l0 Hin. apply Hk. by right. }
  { destruct Hc as [C1 C2 C3]. split; [done|done|]. intros k0 l0. cbn. destruct (decide (k = k0)) as [->|Hne].
    - rewrite lookup_insert_eq. by intros [= <-].
    - rewrite lookup_insert_ne by done. apply C3. }
  exists c'. split; [done|]. split; [done|]. split; [done|]. split; [done|]. split.
  - intros k0 Hk0. cbn [fmap list_fmap fst] in Hk0. apply not_elem_of_cons in Hk0 as [Hne Hk0]. rewrite Hout by done.
    cbn. by rewrite lookup_insert_ne.
  - intros k0 l0 l0' [[= -> ->]|Hi]%elem_of_cons E0.
    + rewrite Hout by done. cbn. rewrite lookup_insert_eq. congruence.
    + by eapply Hin.
Qed.

Lemma pending_keys (p : gmap Z (list BlockMetadata)) : NoDup (hash_iter p).*1 ∧ ∀ k l, (k, l) ∈ hash_iter p ↔ p !! k = Some l.
Proof.
  split; [rewrite hash_iter_perm; apply NoDup_fst_map_to_list|].
  intros k l. rewrite hash_iter_perm. apply elem_of_map_to_list.
Qed.

(** Complete means whole, on blocks inside their piece. *)
Lemma complete_whole {E} m rest : in_piece m → ∃ b,
  @piece_is_complete E (length (i_pieces info)) (total_size `mod` i_piece_len info) (i_piece_len info) (m :: rest) = Ok b ∧
  (b = true ↔ rest = [] ∧ whole m).
Proof using Hwf.
  intros (Hi & Ho & Hl & Hp & Ht). destruct Hwf as [Hpl _ _ Hn _]. unfold piece_is_complete.
  destruct (Nat.eqb_spec (length (i_pieces info)) 0) as [E0|E0]; [rewrite E0 in Hn; nia|].
  eexists. split; [reflexivity|]. rewrite andb_true_iff, orb_true_iff, andb_true_iff, !Z.eqb_eq. cbn [length].
  rewrite Nat.eqb_eq. unfold whole.
  assert (rest = [] ↔ Datatypes.S (length rest) = 1) as Hr by (destruct rest; simpl; split; (done || lia)).
  rewrite Hr. clear Hr. split.
  - intros [H1 H2]. split; [done|]. destruct H2 as [H2|[H2 H3]]; [lia|].
    pose proof (Z.div_mod total_size (i_piece_len info)). pose proof (Z.mod_pos_bound total_size (i_piece_len info) Hpl).
    assert (Z.of_nat (length (i_pieces info)) = bm_piece_index m + 1)%Z as En by lia. rewrite En in Hn.
    assert (total_size ≠ (bm_piece_index m + 1) * i_piece_len info)%Z as Hne.
    { intros Et. rewrite Et, Z.mod_mul in H3 by lia. lia. }
    assert (total_size / i_piece_len info = bm_piece_index m)%Z as Ed; [|rewrite Ed in *; lia].
    symmetry. apply (Z.div_unique_pos _ _ _ (total_size - bm_piece_index m * i_piece_len info)); lia.
  - intros [H1 [H2 H3]]. split; [done|]. destruct (Z.le_gt_cases (i_piece_len info) (total_size - bm_piece_index m * i_piece_len info)).
    + left. lia.
    + right. split; [nia|]. apply (Z.mod_unique_pos _ _ (bm_piece_index m)); nia.
Qed.

Lemma flat_length v l : allocated info v l → Z.of_nat (length (flat info v l)) = foldr (λ f a, f_len f + a)%Z 0%Z l.
Proof using.
  induction 1 as [|f l (c & Hc & Hl) _ IH]; [done|]. rewrite (flat_cons info v f l c Hc), length_app. cbn [foldr].
  rewrite Hl, Nat2Z.inj_add. by rewrite IH.
Qed.

Lemma in_piece_at m : in_piece m →
  block_at info m (Z.to_nat (bm_piece_index m * i_piece_len info + bm_block_offset m)) (Z.to_nat (bm_block_length m)).
Proof using Hwf.
  intros (Hi & Ho & Hl & Hp & Ht). destruct Hwf as [Hpl _ Hs _ _]. unfold u64_max in Hs. unfold block_at, is_u64.
  assert (0 ≤ bm_piece_index m * i_piece_len info)%Z by nia. rewrite !Z2Nat.id by lia. split_and!; lia.
Qed.

Lemma in_piece_room v m : in_piece m → allocated info v (i_files info) →
  Z.to_nat (bm_piece_index m * i_piece_len info + bm_block_offset m) + Z.to_nat (bm_block_length m)
    ≤ length (flat info v (i_files info)).
Proof using Hwf.
  intros (Hi & Ho & Hl & Hp & Ht) Ha%flat_length. destruct Hwf as [Hpl _ _ _ _]. unfold total_size in Ht.
  assert (0 ≤ bm_piece_index m * i_piece_len info)%Z by nia. lia.
Qed.

(** The callback of the checker reads the piece and compares its hash. *)
Lemma check_piece_whole s buf m : fs_inv s → allocated info (fs_view s) (i_files info) → in_piece m → whole m →
  length buf = Z.to_nat (i_piece_len info) →
  ∃ s' buf' b, check_piece info m (s, buf) = ((s', buf'), Ok b) ∧ fs_inv s' ∧ fs_view s' = fs_view s ∧
    length buf' = Z.to_nat (i_piece_len info) ∧ (b = true ↔ piece_matches (fs_view s) (bm_piece_index m)).
Proof using Hwf.
  intros Hi Ha Hm [Hw1 Hw2] Hb. pose proof Hm as (Hix & _ & Hl & Hp & Ht). pose proof Hwf as [Hpl _ _ Hn Hh].
  pose proof (in_piece_room (fs_view s) m Hm Ha) as Hroom. pose proof (flat_length _ _ Ha) as Hfl. fold total_size in Hfl.
  destruct (read_piece_flat info s m _ _ (take (Z.to_nat (bm_block_length m)) buf) Hi Ha (in_piece_at m Hm) Hroom)
    as (s' & Er & Hi' & Hv'); [rewrite length_take; lia|].
  assert (take (Z.to_nat (bm_block_length m)) (drop (Z.to_nat (bm_piece_index m * i_piece_len info + bm_block_offset m))
    (flat info (fs_view s) (i_files info))) = piece_bytes (fs_view s) (bm_piece_index m)) as Eb.
  { unfold piece_bytes. rewrite Hw1, Z.add_0_r. destruct (decide (bm_block_length m = i_piece_len info)) as [->|Hne]; [done|].
    rewrite !take_ge; [done| |]; rewrite length_drop; lia. }
  rewrite Eb in Er. assert (length (piece_bytes (fs_view s) (bm_piece_index m)) = Z.to_nat (bm_block_length m)) as Hlen.
  { rewrite <- Eb, length_take, length_drop. lia. }
  destruct (lookup_lt_is_Some_2 (i_pieces info) (Z.to_nat (bm_piece_index m))) as [h Eh]; [nia|].
  pose proof (Forall_lookup_1 _ _ _ _ Hh Eh) as Hhl.
  unfold check_piece. rewrite (proj2 (Nat.ltb_ge _ _)) by lia. rewrite Er, Eh.
  cbn [unwrap mbind res_bind]. unfold ShaHash_from_hash. rewrite Hhl, Nat.eqb_refl. eexists _, _, _. split; [reflexivity|].
  split; [done|]. split; [done|]. split.
  - rewrite length_app, Hlen, length_drop. lia.
  - rewrite bool_decide_eq_true. unfold piece_matches, ShaHash_from_bytes. rewrite Eh. split; [by intros [= ->]|by intros [= ->]].
Qed.

(** What a reported state says of the files. *)
Definition report_true v (p : PieceState) : Prop :=
  match p with Good i => piece_matches v i | Bad i => ¬ piece_matches v i end.

Lemma checker_ok_report c k p : checker_ok c → checker_ok (set_pending (<[k := []]> (pc_pending_blocks c)) (push_state p c)).
Proof using.
  intros [C1 C2 C3]. split; [done|done|]. intros k' l. cbn. destruct (decide (k = k')) as [->|Hne].
  - rewrite lookup_insert_eq. intros [= <-]. constructor.
  - rewrite lookup_insert_ne by done. apply C3.
Qed.

Lemma check_pieces_reports entries s buf c : fs_inv s → allocated info (fs_view s) (i_files info) → checker_ok c →
  (∀ k l, (k, l) ∈ entries → of_piece k l) → length buf = Z.to_nat (i_piece_len info) →
  ∃ s' buf' c' news, check_pieces (check_piece info) (i_piece_len info) entries ((s, buf), c) = (((s', buf'), c'), Ok ()) ∧
    fs_inv s' ∧ fs_view s' = fs_view s ∧ checker_ok c' ∧ pc_old_states c' = pc_old_states c ∧
    pc_new_states c' = pc_new_states c ++ news ∧ Forall (report_true (fs_view s)) news ∧
    (∀ k m, (k, [m]) ∈ entries → whole m → Good k ∉ pc_old_states c → Good k ∈ news ∨ Bad k ∈ news).
Proof using Hwf.
  revert s buf c. induction entries as [|[k l] entries IH]; intros s buf c Hi Ha Hc Hk Hb.
  { exists s, buf, c, []. rewrite app_nil_r. split_and!; try done. by intros ?? ?%not_elem_of_nil. }
  assert (∀ k l, (k, l) ∈ entries → of_piece k l) as Hk' by (intros; apply Hk; by right).
  cbn [check_pieces]. rewrite get_right_bind. pose proof Hc as [C1 C2 _]. rewrite C1, C2.
  destruct l as [|m rest].
  { cbn [piece_is_complete]. rewrite st_res_bind. destruct (IH s buf c) as (s' & buf' & c' & news & E & R1 & R2 & R3 & R4 & R5 & R6 & R7); [done..|].
    exists s', buf', c', news. split_and!; try done. intros k' m' [[=]|Hin]%elem_of_cons. by apply R7. }
  pose proof (Hk k (m :: rest) (list_elem_of_here _ _)) as [[Hmk Hm] _]%Forall_cons.
  destruct (@complete_whole io_error m rest Hm) as (b & -> & Hbw). rewrite st_res_bind. rewrite Hmk.
  destruct (b && bool_decide (Good k ∉ pc_old_states c)) eqn:Ecomplete.
  - apply andb_true_iff in Ecomplete as [-> Hold]. destruct (proj1 Hbw eq_refl) as [-> Hw].
    destruct (check_piece_whole s buf m Hi Ha Hm Hw Hb) as (s1 & buf1 & good & Ec & Hi1 & Hv1 & Hb1 & Hgood).
    rewrite (on_left_bind _ _ _ _ _ _ Ec), set_right_bind. rewrite Hmk in Hgood.
    set (p := if good then Good k else Bad k).
    destruct (IH s1 buf1 (set_pending (<[k := []]> (pc_pending_blocks c)) (push_state p c)))
      as (s' & buf' & c' & news & E & R1 & R2 & R3 & R4 & R5 & R6 & R7);
      [done|by rewrite Hv1|by apply checker_ok_report|done|done|].
    cbn [set_pending push_state pc_new_states pc_old_states pc_pending_blocks] in R4, R5, R7. rewrite Hv1 in R2, R6.
    exists s', buf', c', (p :: news). split; [done|]. rewrite <- app_assoc in R5. split_and!; try done.
    + constructor; [|done]. unfold p. destruct good; simpl; [by apply Hgood|]. intros Hmatch%Hgood. done.
    + intros k' m' [[= -> ->]|Hin]%elem_of_cons Hw' Ho'.
      * unfold p. destruct good; [left|right]; by left.
      * destruct (R7 k' m' Hin Hw' Ho'); [left|right]; by right.
  - destruct (IH s buf c) as (s' & buf' & c' & news & E & R1 & R2 & R3 & R4 & R5 & R6 & R7); [done..|].
    exists s', buf', c', news. split_and!; try done. intros k' m' [[= -> <- <-]|Hin]%elem_of_cons Hw' Ho'; [|by apply (R7 k' m')].
    rewrite (proj2 Hbw) in Ecomplete by done. by rewrite bool_decide_true in Ecomplete.
Qed.

Lemma calculate_diff_reports s c : fs_inv s → allocated info (fs_view s) (i_files info) → checker_ok c →
  ∃ s' c' news, calculate_diff info (s, c) = ((s', c'), Ok ()) ∧ fs_inv s' ∧ fs_view s' = fs_view s ∧ checker_ok c' ∧
    pc_old_states c' = pc_old_states c ∧ pc_new_states c' = pc_new_states c ++ news ∧ Forall (report_true (fs_view s)) news ∧
    (∀ k l m, pc_pending_blocks c !! k = Some l → @merge_messages io_error l = Ok [m] → whole m →
       Good k ∉ pc_old_states c → Good k ∈ news ∨ Bad k ∈ news).
Proof using Hwf.
  intros Hi Ha Hc. unfold calculate_diff, run_with_whole_pieces. rewrite get_right_bind. unfold merge_pieces.
  destruct (pending_keys (pc_pending_blocks c)) as [Hnd Hin].
  destruct (@merge_all_in io_error (hash_iter (pc_pending_blocks c)) c Hnd) as (c1 & -> & Hc1 & Hs1 & Ho1 & _ & Hm1); [|done|].
  { intros k l Hkl. apply Hin in Hkl. by eapply ck_pending. }
  rewrite st_res_bind, set_right_bind. destruct (pending_keys (pc_pending_blocks c1)) as [_ Hin1].
  destruct (check_pieces_reports (hash_iter (pc_pending_blocks c1)) s (replicate (Z.to_nat (i_piece_len info)) 0%Z) c1)
    as (s' & buf' & c' & news & E & R1 & R2 & R3 & R4 & R5 & R6 & R7); [done|done|done| |by rewrite length_replicate|].
  { intros k l Hkl. apply Hin1 in Hkl. by eapply ck_pending. }
  rewrite E. exists s', c', news. rewrite Hs1 in R5. rewrite Ho1 in R4. split_and!; try done.
  intros k l m Hl Hmerge Hw Hold. apply (R7 k m); [|done|by rewrite Ho1].
  apply Hin1. by apply (Hm1 k l); [apply Hin|].
Qed.
End Check.

(** * Processing a block *)

Section Process.
Context {S F : Type} `{!FileSystem S F} `{!FsLaws S F} `{HashOrder} `{Sha1}.
Implicit Types (c : @DiskManagerContext S).

Lemma checker_ok_add info m (c : PieceCheckerState) : checker_ok info c → in_piece info m → checker_ok info (add_pending_block m c).
Proof.
  intros [C1 C2 C3] Hm. split; [done|done|]. intros k l. cbn. destruct (decide (bm_piece_index m = k)) as [<-|Hne].
  - rewrite lookup_insert_eq. intros [= <-]. apply Forall_app. split; [|by constructor].
    destruct (pc_pending_blocks c !! bm_piece_index m) as [l'|] eqn:El; [by apply C3|constructor].
  - rewrite lookup_insert_ne by done. apply C3.
Qed.

(** A torrent in the table, ready for the next task. *)
Record torrent_ready c (state : MetainfoState) : Prop := {
  tr_wf : torrent_wf (m_info (ms_file state));
  tr_fs : fs_inv (dc_fs c);
  tr_allocated : allocated (m_info (ms_file state)) (fs_view (dc_fs c)) (i_files (m_info (ms_file state)));
  tr_checker : checker_ok (m_info (ms_file state)) (ms_checker state);
  tr_sent : pc_new_states (ms_checker state) = []
}.

Lemma write_and_check_reports info s checker data m : torrent_wf info → fs_inv s → allocated info (fs_view s) (i_files info) →
  checker_ok info checker → in_piece info m → Z.of_nat (length data) = bm_block_length m →
  ∃ s' checker' news, write_and_check info data m (s, checker) = ((s', checker'), Ok ()) ∧ fs_inv s' ∧
    allocated info (fs_view s') (i_files info) ∧ checker_ok info checker' ∧
    flat info (fs_view s') (i_files info) =
      splice (Z.to_nat (bm_piece_index m * i_piece_len info + bm_block_offset m)) data (flat info (fs_view s) (i_files info)) ∧
    same_beyond info (i_files info) (fs_view s) (fs_view s') ∧
    pc_new_states checker' = pc_new_states checker ++ news ∧ Forall (report_true info (fs_view s')) news ∧
    (∀ w, @merge_messages io_error (default [] (pc_pending_blocks checker !! bm_piece_index m) ++ [m]) = Ok [w] → whole info w →
       Good (bm_piece_index m) ∉ pc_old_states checker → Good (bm_piece_index m) ∈ news ∨ Bad (bm_piece_index m) ∈ news).
Proof.
  intros Hwf Hi Ha Hc Hm Hd. pose proof (in_piece_at info Hwf m Hm) as Hat. pose proof (in_piece_room info Hwf _ m Hm Ha) as Hroom.
  replace (Z.to_nat (bm_block_length m)) with (length data) in Hat, Hroom by lia.
  destruct (write_piece_flat info s m _ data Hi Ha (tw_paths _ Hwf) Hat Hroom) as (s1 & Ew & Hi1 & Ha1 & Hsb & Hf1).
  unfold write_and_check. rewrite (on_left_bind _ _ _ _ _ _ Ew), get_right_bind, set_right_bind.
  destruct (calculate_diff_reports info Hwf s1 (add_pending_block m checker) Hi1 Ha1) as (s' & c' & news & E & R1 & R2 & R3 & R4 & R5 & R6 & R7);
    [by apply checker_ok_add|].
  exists s', c', news. rewrite R2. split_and!; try done. intros w Hw1 Hw2 Hold.
  eapply R7; [|exact Hw1|done|done]. cbn. by rewrite lookup_insert_eq.
Qed.

Lemma report_elem h news r : r ∈ news ≫= diff_message h false ↔
  ∃ i, (r = FoundGoodPiece h i ∧ Good i ∈ news) ∨ (r = FoundBadPiece h i ∧ Bad i ∈ news).
Proof.
  rewrite list_elem_of_bind. split.
  - intros ([i|i] & Hr & Hp); apply list_elem_of_singleton in Hr as ->; exists i; eauto.
  - intros (i & [[-> Hp]|[-> Hp]]); [exists (Good i)|exists (Bad i)]; (split; [by left|done]).
Qed.

(** Claim C14. A block inside its piece is written at its place in the files, whatever
    files it crosses, and answered with [BlockProcessed]; before that answer come
    the reports, and only reports.  A reported piece is good when the bytes of
    the piece in the files have its hash and bad when they do not; the piece of
    the block is reported as soon as its blocks make it whole, unless it was
    found good before.  Files of other torrents are left alone, and the torrent
    is ready for the next block, as long as the file system returns no I/O
    error. *)
Theorem process_block_reports c state block : torrent_ready c state →
  dc_torrents c !! hash (bm_info_hash (b_metadata block)) = Some state →
  in_piece (m_info (ms_file state)) (b_metadata block) →
  Z.of_nat (length (b_block_data block)) = bm_block_length (b_metadata block) →
  let info := m_info (ms_file state) in
  let m := b_metadata block in
  ∃ c' state' reports, execute (ProcessBlock block) c = (c', Ok ()) ∧
    dc_out c' = dc_out c ++ reports ++ [BlockProcessed block] ∧
    dc_torrents c' = <[hash (bm_info_hash m) := state']> (dc_torrents c) ∧ ms_file state' = ms_file state ∧
    torrent_ready c' state' ∧
    flat info (fs_view (dc_fs c')) (i_files info) =
      splice (Z.to_nat (bm_piece_index m * i_piece_len info + bm_block_offset m)) (b_block_data block)
        (flat info (fs_view (dc_fs c)) (i_files info)) ∧
    same_beyond info (i_files info) (fs_view (dc_fs c)) (fs_view (dc_fs c')) ∧
    Forall (λ r, ∃ i, (r = FoundGoodPiece (i_info_hash info) i ∧ piece_matches info (fs_view (dc_fs c')) i) ∨
                      (r = FoundBadPiece (i_info_hash info) i ∧ ¬ piece_matches info (fs_view (dc_fs c')) i)) reports ∧
    (∀ w, @merge_messages io_error (default [] (pc_pending_blocks (ms_checker state) !! bm_piece_index m) ++ [m]) = Ok [w] →
       whole info w → Good (bm_piece_index m) ∉ pc_old_states (ms_checker state) →
       FoundGoodPiece (i_info_hash info) (bm_piece_index m) ∈ reports ∨ FoundBadPiece (i_info_hash info) (bm_piece_index m) ∈ reports).
Proof.
  intros [Hwf Hi Ha Hc Hs] Hlook Hm Hd info m.
  destruct (write_and_check_reports info (dc_fs c) (ms_checker state) (b_block_data block) m Hwf Hi Ha Hc Hm Hd)
    as (s' & checker' & news & E & R1 & R2 & R3 & R4 & R5 & R6 & R7 & R8). rewrite Hs in R6. cbn [app] in R6.
  unfold execute, execute_process_block. rewrite Hlook. fold info m. rewrite E. unfold send_piece_diff, run_with_diff. rewrite R6.
  eexists _, _, (news ≫= diff_message (i_info_hash info) false). split; [reflexivity|]. cbn -[info m diff_message].
  split; [by rewrite <- app_assoc|]. split; [reflexivity|]. split; [reflexivity|]. split.
  { destruct R3 as [C1 C2 C3]. split; [done|done|done|by split|done]. }
  split; [done|]. split; [done|]. split.
  - apply Forall_forall. intros r (i & Hr)%report_elem. exists i.
    destruct Hr as [[-> Hr]|[-> Hr]]; apply (proj1 (Forall_forall _ _) R7) in Hr; auto.
  - intros w Hw1 Hw2 Hold. destruct (R8 w Hw1 Hw2 Hold); [left|right]; apply report_elem; eauto.
Qed.
End Process.
