(* ===== verification/DiskAdd.v ===== *)
(** Adding a torrent to the disk manager: the files are allocated, and exactly
    the pieces that are on disk with their hash are reported, before the answer. *)

From stdpp Require Import base numbers gmap strings sorting list.
From S2P Require Import Prelude RustStd Extern Io Sha Path Bencode Metainfo Disk DiskFs DiskProps DiskCheck.

Section Add.
Context {S F : Type} `{!FileSystem S F} `{!FsLaws S F} `{HashOrder} `{Sha1} (info : Info).
Implicit Types (v : gmap bytes bytes) (s : S) (m : BlockMetadata).

Abbreviation path_of := (build_path (i_file_directory info)).

(** A file that is not there, empty, or of the torrent's length. *)
Definition compatible v (f : File) : Prop :=
  (0 ≤ f_len f)%Z ∧
  let c := default [] (v !! path_of f) in c = [] ∨ Z.of_nat (length c) = f_len f.

Lemma overwrite_last n : (0 < n)%Z → Z.of_nat (length (overwrite (Z.to_nat (n - 1)) [0%Z] [])) = n.
Proof.
  intros Hn. unfold overwrite, pad. rewrite !length_app, length_take, length_app, length_replicate, drop_nil. simpl. lia.
Qed.

(** One file: it is there with its length afterwards, and what it had is kept. *)
Lemma validate_file s f l : fs_inv s → compatible (fs_view s) f →
  ∃ s' c, validate_files_sizes (i_file_directory info) (f :: l) s = validate_files_sizes (i_file_directory info) l s' ∧ fs_inv s' ∧
    fs_view s' = <[path_of f := c]> (fs_view s) ∧ Z.of_nat (length c) = f_len f ∧
    (default [] (fs_view s !! path_of f) ≠ [] → fs_view s !! path_of f = Some c).
Proof.
  intros Hi [Hn Hc]. cbn [validate_files_sizes]. destruct (fs_open s (path_of f) Hi) as (s1 & h & Eo & Hi1 & Hh & Hv1).
  set (c := default [] (fs_view s !! path_of f)) in *.
  assert (fs_view s1 !! path_of f = Some c) as Hc1 by (rewrite Hv1; apply lookup_insert_eq).
  destruct (fs_size s1 h (path_of f) c Hi1 Hh Hc1) as (s2 & Es & Hi2 & Hv2).
  assert (st_map_err TE_Io (open_file (path_of f)) s = (s1, Ok h)) as Eo' by (unfold st_map_err; by rewrite Eo).
  assert (st_map_err TE_Io (file_size h) s1 = (s2, Ok (Z.of_nat (length c)))) as Es' by (unfold st_map_err; by rewrite Es).
  rewrite (st_bind_ok _ _ _ _ _ Eo'), (st_bind_ok _ _ _ _ _ Es').
  destruct (Z.eqb_spec (Z.of_nat (length c)) (f_len f)) as [El|El]; cbn [negb andb].
  - exists s2, c. split; [done|]. split; [done|]. split; [by rewrite Hv2, Hv1|]. split; [done|].
    unfold c. destruct (fs_view s !! path_of f); [done|]. by intros [].
  - destruct Hc as [Hc|Hc]; [|done]. rewrite Hc in El |- *. cbn [length]. change (Z.of_nat 0 =? 0)%Z with true. cbn iota.
    destruct (fs_write s2 h (path_of f) [] (Z.to_nat (f_len f - 1)) [0%Z] Hi2 Hh) as (s3 & Ew & Hi3 & Hv3); [by rewrite Hv2, Hc1, Hc|].
    simpl in El. rewrite Z2Nat.id in Ew by lia.
    assert (@st_expect _ _ TorrentError _ (write_file h (f_len f - 1) [0%Z]) s2 = (s3, Ok 1)) as Ew' by (unfold st_expect; by rewrite Ew).
    rewrite (st_bind_ok _ _ _ _ _ Ew'). eexists s3, _. split; [done|]. split; [done|]. split; [|split].
    + rewrite Hv3, Hv2, Hv1. by rewrite insert_insert_eq.
    + apply overwrite_last. lia.
    + done.
Qed.

Lemma validate_files l s : fs_inv s → NoDup (path_of <$> l) → Forall (compatible (fs_view s)) l →
  ∃ s', validate_files_sizes (i_file_directory info) l s = (s', Ok ()) ∧ fs_inv s' ∧ allocated info (fs_view s') l ∧
    same_beyond info l (fs_view s) (fs_view s') ∧
    (∀ f, f ∈ l → default [] (fs_view s !! path_of f) ≠ [] → fs_view s' !! path_of f = fs_view s !! path_of f).
Proof.
  revert s. induction l as [|f l IH]; intros s Hi Hnd Hc.
  { exists s. do 3 (split; [done || constructor|]). split; [done|]. by intros f ?%not_elem_of_nil. }
  apply Forall_cons in Hc as [Hf Hl]. destruct (validate_file s f l Hi Hf) as (s1 & c & E & Hi1 & Hv1 & Hc1 & Hkeep).
  pose proof Hnd as [Hnf Hnd']%NoDup_cons.
  assert (∀ g, g ∈ l → fs_view s1 !! path_of g = fs_view s !! path_of g) as Hsame.
  { intros g Hg. rewrite Hv1, lookup_insert_ne; [done|]. intros Heq. apply Hnf. rewrite Heq. by apply list_elem_of_fmap_2. }
  destruct (IH s1 Hi1 Hnd') as (s' & E' & Hi' & Ha' & Hsb & Hk').
  { apply Forall_forall. intros g Hg. unfold compatible. rewrite (Hsame g Hg). by apply (proj1 (Forall_forall _ _) Hl). }
  rewrite Hv1 in Hsb. destruct (head_then_rest info f l (fs_view s) (fs_view s') c Hnd Hsb Ha') as (R1 & R2 & R3); [done|].
  exists s'. rewrite E. split_and!; try done. intros g [->|Hg]%elem_of_cons Hne.
  - rewrite (Hsb _ Hnf), lookup_insert_eq. by rewrite Hkeep.
  - rewrite Hk' by (done || by rewrite Hsame). by apply Hsame.
Qed.

(** * The pieces to check *)

Context (Hwf : torrent_wf info) (Hlens : Forall (λ f, 0 ≤ f_len f)%Z (i_files info)).

Lemma lens_nonneg (l : list File) : Forall (λ f, 0 ≤ f_len f)%Z l → (0 ≤ foldr (λ f a, f_len f + a)%Z 0%Z l)%Z.
Proof using. induction 1 as [|f l Hf _ IH]; cbn [foldr]; lia. Qed.

Lemma sum_lengths_total {E} l acc : Forall (λ f, 0 ≤ f_len f)%Z l → (0 ≤ acc)%Z →
  (acc + foldr (λ f a, f_len f + a)%Z 0%Z l ≤ u64_max)%Z →
  @sum_lengths E acc l = Ok (acc + foldr (λ f a, f_len f + a)%Z 0%Z l)%Z.
Proof using.
  intros Hl. revert acc. induction Hl as [|f l Hf Hl IH]; intros acc Ha Hm; cbn beta in *; cbn [sum_lengths foldr] in *; [by rewrite Z.add_0_r|].
  pose proof (lens_nonneg l Hl).
  unfold u64_add. rewrite (proj2 (Z.leb_le _ _)) by lia. rewrite bind_Ok, IH by lia. f_equal. lia.
Qed.

Lemma total_size_nonneg : (0 ≤ total_size info)%Z.
Proof using Hlens. by apply lens_nonneg. Qed.

Lemma sum_lengths_ok {E} : @sum_lengths E 0 (i_files info) = Ok (total_size info).
Proof using Hwf Hlens. apply (sum_lengths_total _ 0); [done|done|]. apply (tw_size _ Hwf). Qed.

(** The piece [k] as one block, as a new torrent is filled with. *)
Definition piece_message (k : Z) : BlockMetadata :=
  with_default_hash k 0 (Z.min (i_piece_len info) (total_size info - k * i_piece_len info)).

Record filled (n : Z) (c : PieceCheckerState) : Prop := {
  fl_ok : checker_ok info c;
  fl_new : pc_new_states c = [];
  fl_old : pc_old_states c = ∅;
  fl_pending k : pc_pending_blocks c !! k = if (0 <=? k)%Z && (k <? n)%Z then Some [piece_message k] else None
}.

Lemma filled_step n c : (0 ≤ n)%Z → (n * i_piece_len info < total_size info)%Z → filled n c →
  filled (n + 1) (add_pending_block (piece_message n) c).
Proof using Hwf.
  intros Hn Ht [F1 F2 F3 F4]. pose proof (tw_piece_len _ Hwf). split; [|done|done|].
  - apply checker_ok_add; [done|]. unfold in_piece, piece_message. simpl. lia.
  - intros k. cbn. rewrite F4. rewrite (proj2 (Z.ltb_ge n n)) by lia. rewrite andb_false_r. cbn [default app].
    destruct (decide (n = k)) as [<-|Hne].
    + rewrite lookup_insert_eq. by rewrite (proj2 (Z.leb_le _ _)), (proj2 (Z.ltb_lt _ _)) by lia.
    + rewrite lookup_insert_ne, F4 by done. by replace (k <? n + 1)%Z with (k <? n)%Z by lia.
Qed.

Lemma filled_full count n c : (0 ≤ n)%Z → ((n + Z.of_nat count) * i_piece_len info ≤ total_size info)%Z → filled n c →
  filled (n + Z.of_nat count) (add_full_pieces count n (i_piece_len info) c).
Proof using Hwf.
  pose proof (tw_piece_len _ Hwf). revert n c. induction count as [|count IH]; intros n c Hn Ht Hf; [by rewrite Z.add_0_r|].
  cbn [add_full_pieces]. replace (n + Z.of_nat (Datatypes.S count))%Z with (n + 1 + Z.of_nat count)%Z by lia.
  replace (with_default_hash n 0 (i_piece_len info)) with (piece_message n).
  - apply IH; [lia|by replace (n + 1 + Z.of_nat count)%Z with (n + Z.of_nat (Datatypes.S count))%Z by lia|].
    apply filled_step; [done|nia|done].
  - unfold piece_message. f_equal. nia.
Qed.

Lemma last_piece_size_ok {E} : @last_piece_size E info = Ok (total_size info `mod` i_piece_len info)%Z.
Proof using Hwf Hlens.
  pose proof (tw_piece_len _ Hwf). unfold last_piece_size, u64_rem. rewrite sum_lengths_ok, bind_Ok.
  by rewrite (proj2 (Z.eqb_neq _ _)) by lia.
Qed.

Lemma fill_checker_state_ok {E} : ∃ c, @fill_checker_state E info
    (PieceCheckerState_new (length (i_pieces info)) (total_size info `mod` i_piece_len info)) = Ok c ∧
  filled (Z.of_nat (length (i_pieces info))) c.
Proof using Hwf Hlens.
  pose proof Hwf as [Hpl _ _ Hn _]. pose proof total_size_nonneg as Ht.
  pose proof (Z.div_mod (total_size info) (i_piece_len info)). pose proof (Z.mod_pos_bound (total_size info) (i_piece_len info) Hpl).
  pose proof (Z.div_pos (total_size info) (i_piece_len info) Ht Hpl) as Hd.
  unfold fill_checker_state, u64_div. rewrite sum_lengths_ok, bind_Ok, (proj2 (Z.eqb_neq _ _)), bind_Ok by lia.
  rewrite last_piece_size_ok, bind_Ok. set (q := (total_size info / i_piece_len info)%Z) in *.
  set (c0 := PieceCheckerState_new _ _). assert (filled 0 c0) as Hf0.
  { split; [|done|done|].
    - split; [done|done|]. intros k l. cbn. by rewrite lookup_empty.
    - intros k. cbn. rewrite lookup_empty. destruct (_ && _) eqn:E'; [bool_arith; lia|done]. }
  pose proof (filled_full (Z.to_nat q) 0 c0) as Hq. rewrite Z.add_0_l, Z2Nat.id in Hq by done. specialize (Hq ltac:(lia) ltac:(nia) Hf0).
  eexists. split; [reflexivity|]. destruct (Z.eqb_spec (total_size info `mod` i_piece_len info) 0) as [E0|E0].
  - by replace (Z.of_nat (length (i_pieces info))) with q by nia.
  - replace (Z.of_nat (length (i_pieces info))) with (q + 1)%Z by nia.
    replace (with_default_hash q 0 (total_size info `mod` i_piece_len info)) with (piece_message q).
    + apply filled_step; [done|nia|done].
    + unfold piece_message. f_equal. nia.
Qed.

Lemma compatible_lens v l : Forall (compatible v) l → Forall (λ f, 0 ≤ f_len f)%Z l.
Proof using. intros Hl. eapply Forall_impl; [exact Hl|]. by intros f []. Qed.

(** The state of a new torrent: its files are allocated and every piece has
    been checked. *)
Lemma init_state_reports s : fs_inv s → Forall (compatible (fs_view s)) (i_files info) →
  ∃ s' c news, init_state info s = (s', Ok c) ∧ fs_inv s' ∧ allocated info (fs_view s') (i_files info) ∧
    same_beyond info (i_files info) (fs_view s) (fs_view s') ∧
    (∀ f, f ∈ i_files info → default [] (fs_view s !! path_of f) ≠ [] → fs_view s' !! path_of f = fs_view s !! path_of f) ∧
    checker_ok info c ∧ pc_new_states c = news ∧ Forall (report_true info (fs_view s')) news ∧
    (∀ k, (0 ≤ k < Z.of_nat (length (i_pieces info)))%Z → Good k ∈ news ∨ Bad k ∈ news).
Proof using Hwf Hlens.
  intros Hi Hc. unfold init_state. rewrite last_piece_size_ok, st_res_bind.
  destruct (validate_files (i_files info) s Hi (tw_paths _ Hwf) Hc) as (s1 & Ev & Hi1 & Ha1 & Hsb & Hkeep).
  rewrite (st_bind_ok _ _ _ _ _ Ev). destruct (@fill_checker_state_ok TorrentError) as (c1 & -> & [F1 F2 F3 F4]). rewrite st_res_bind.
  unfold initial_diff. destruct (calculate_diff_reports info Hwf s1 c1 Hi1 Ha1 F1) as (s' & c & news & E & R1 & R2 & R3 & R4 & R5 & R6 & R7).
  rewrite E. exists s', c, news. rewrite R2. rewrite F2 in R5. split_and!; try done. intros k Hk.
  apply (R7 k [piece_message k] (piece_message k)); [|done|done|by rewrite F3].
  rewrite F4. by rewrite (proj2 (Z.leb_le _ _)), (proj2 (Z.ltb_lt _ _)) by lia.
Qed.
End Add.

Section AddTorrent.
Context {S F : Type} `{!FileSystem S F} `{!FsLaws S F} `{HashOrder} `{Sha1}.

Definition good_index (p : PieceState) : option Z := match p with Good i => Some i | Bad _ => None end.

Lemma good_diff h news : news ≫= diff_message h true = FoundGoodPiece h <$> omap good_index news.
Proof. induction news as [|[i|i] news IH]; [done| |]; cbn [mbind list_bind omap list_omap good_index diff_message app fmap list_fmap]; by rewrite <- IH. Qed.

Lemma add_torrent_effect (c : @DiskManagerContext S) metainfo :
  let info := m_info metainfo in
  let h := i_info_hash info in
  torrent_wf info → fs_inv (dc_fs c) → Forall (compatible info (fs_view (dc_fs c))) (i_files info) →
  dc_torrents c !! hash h = None →
  ∃ c' state goods, execute (AddTorrent metainfo) c = (c', Ok ()) ∧
    dc_out c' = dc_out c ++ (FoundGoodPiece h <$> goods) ++ [TorrentAdded h] ∧
    dc_torrents c' = <[hash h := state]> (dc_torrents c) ∧ ms_file state = metainfo ∧ torrent_ready c' state ∧
    same_beyond info (i_files info) (fs_view (dc_fs c)) (fs_view (dc_fs c')) ∧
    (∀ f, f ∈ i_files info → default [] (fs_view (dc_fs c) !! build_path (i_file_directory info) f) ≠ [] →
       fs_view (dc_fs c') !! build_path (i_file_directory info) f = fs_view (dc_fs c) !! build_path (i_file_directory info) f) ∧
    (∀ i, i ∈ goods → piece_matches info (fs_view (dc_fs c')) i) ∧
    (∀ i, (0 ≤ i < Z.of_nat (length (i_pieces info)))%Z → piece_matches info (fs_view (dc_fs c')) i → i ∈ goods).
Proof.
  intros info h Hwf Hi Hc Hnew. pose proof (compatible_lens _ _ _ Hc) as Hlens.
  destruct (init_state_reports info Hwf Hlens (dc_fs c) Hi Hc) as (s' & ck & news & E & R1 & R2 & R3 & R4 & R5 & R6 & R7 & R8).
  unfold execute, execute_add_torrent. fold info h. rewrite E. unfold send_piece_diff, run_with_diff, insert_torrent. rewrite R6, good_diff.
  cbn [dc_torrents send_messages set_fs]. fold info h. rewrite Hnew.
  eexists _, _, (omap good_index news). split; [reflexivity|]. cbn -[info h].
  split; [by rewrite <- app_assoc|]. split; [reflexivity|]. split; [reflexivity|]. split.
  { destruct R5 as [C1 C2 C3]. by repeat (split; try done). }
  split; [done|]. split; [done|]. split.
  - intros i (p & Hp & Hg)%list_elem_of_omap. destruct p; simplify_eq/=. by apply (proj1 (Forall_forall _ _) R7) in Hp.
  - intros i Hin Hm. apply list_elem_of_omap. destruct (R8 i Hin) as [Hg|Hb]; [by exists (Good i)|].
    by apply (proj1 (Forall_forall _ _) R7) in Hb.
Qed.

(** Claim C15. Adding a torrent whose files are absent, empty or of their length makes
    every file as long as the torrent says and keeps what was in it; before
    [TorrentAdded] come the good pieces: those reported have their hash on
    disk, every piece that has it is reported, and no bad piece is.  The
    torrent is in the table, ready for blocks; other files are left alone.  The
    file system returns no I/O error. *)
Theorem add_torrent_reports (c : @DiskManagerContext S) metainfo :
  let info := m_info metainfo in
  let h := i_info_hash info in
  torrent_wf info → fs_inv (dc_fs c) → Forall (compatible info (fs_view (dc_fs c))) (i_files info) →
  dc_torrents c !! hash h = None →
  ∃ c' state goods, execute (AddTorrent metainfo) c = (c', Ok ()) ∧
    dc_out c' = dc_out c ++ (FoundGoodPiece h <$> goods) ++ [TorrentAdded h] ∧
    dc_torrents c' = <[hash h := state]> (dc_torrents c) ∧ ms_file state = metainfo ∧ torrent_ready c' state ∧
    same_beyond info (i_files info) (fs_view (dc_fs c)) (fs_view (dc_fs c')) ∧
    (∀ f, f ∈ i_files info → default [] (fs_view (dc_fs c) !! build_path (i_file_directory info) f) ≠ [] →
       fs_view (dc_fs c') !! build_path (i_file_directory info) f = fs_view (dc_fs c) !! build_path (i_file_directory info) f) ∧
    (∀ i, i ∈ goods → piece_matches info (fs_view (dc_fs c')) i) ∧
    (∀ i, (0 ≤ i < Z.of_nat (length (i_pieces info)))%Z → piece_matches info (fs_view (dc_fs c')) i → i ∈ goods).
Proof. apply add_torrent_effect. Qed.
End AddTorrent.
