(* ===== verification/DiskDownload.v ===== *)
(** A torrent whose blocks arrive in any order: the piece checker finds every
    piece good, once, with the block that completes it. *)

From stdpp Require Import base numbers gmap strings sorting list.
From S2P Require Import Prelude RustStd Extern Io Sha Path Bencode Metainfo Disk DiskFs DiskProps DiskCheck.

(** * Disjoint blocks *)

Definition apart (a b : BlockMetadata) : Prop := ∀ x, ¬ (covers a x ∧ covers b x).
Definition disjoint_blocks : list BlockMetadata → Prop := ForallOrdPairs apart.

(** A block of one torrent and piece with a byte of its own. *)
Definition block_of (h : ShaHash) (k : Z) (m : BlockMetadata) : Prop :=
  bm_info_hash m = h ∧ bm_piece_index m = k ∧ wf_block m ∧ (0 < bm_block_length m)%Z.

Lemma apart_sym a b : apart a b → apart b a.
Proof. unfold apart. naive_solver. Qed.

Lemma disjoint_cons a l : disjoint_blocks (a :: l) ↔ Forall (apart a) l ∧ disjoint_blocks l.
Proof. split; [by inversion 1|]. intros [??]. by constructor. Qed.

#[export] Instance disjoint_blocks_perm : Proper ((≡ₚ) ==> iff) disjoint_blocks.
Proof.
  assert (∀ l k, l ≡ₚ k → disjoint_blocks l → disjoint_blocks k) as Himp.
  { induction 1 as [|a l k Hp IH|a b l|l k m _ IH1 _ IH2]; [done|..|by auto].
    - rewrite !disjoint_cons. intros [Ha Hl]. split; [by rewrite <- Hp|by apply IH].
    - rewrite !disjoint_cons, !Forall_cons. intros [[Hab Ha] [Hb Hl]]. split_and!; [by apply apart_sym|done|done|done]. }
  intros l k Hp. split; apply Himp; [done|by symmetry].
Qed.

#[export] Instance covered_perm : Proper ((≡ₚ) ==> (=) ==> iff) covered.
Proof. intros l k Hp x ? <-. unfold covered. by setoid_rewrite Hp. Qed.

Lemma covered_cons a l x : covered (a :: l) x ↔ covers a x ∨ covered l x.
Proof. unfold covered. set_solver. Qed.
Lemma covered_app l k x : covered (l ++ k) x ↔ covered l x ∨ covered k x.
Proof. unfold covered. set_solver. Qed.
Lemma covered_nil x : ¬ covered [] x.
Proof. unfold covered. set_solver. Qed.

Lemma apart_covered a l : Forall (apart a) l ↔ ∀ x, ¬ (covers a x ∧ covered l x).
Proof. unfold covered, apart. rewrite Forall_forall. naive_solver. Qed.

(** Merging two blocks that are apart joins neighbours of one piece. *)
Lemma merge_two_block {E} h k a b : block_of h k a → block_of h k b →
  ∃ o, @merge_piece_messages E a b = Ok o ∧ ∀ m, o = Some m → block_of h k m ∧ ∀ x, covers m x ↔ covers a x ∨ covers b x.
Proof.
  intros (Ha1 & Ha2 & Ha3 & Ha4) (Hb1 & Hb2 & Hb3 & Hb4). destruct (@merge_two E a b Ha3 Hb3) as (o & Eo & Ho).
  exists o. split; [done|]. intros m ->. destruct (Ho m eq_refl) as [Hm Hc]. split; [|done].
  unfold merge_piece_messages in Eo. destruct (negb _ || _); [done|]. bind_inv Eo as ea eqn Ea. bind_inv Eo as eb eqn Eb.
  assert (bm_info_hash m = h ∧ bm_piece_index m = k) as [??]
    by (repeat case_match; simplify_eq; done).
  split_and!; try done. pose proof (proj2 (Hc (bm_block_offset a))) as Hx. unfold covers in Hx. lia.
Qed.

Lemma merge_backward_blocks {E} h k last rest : block_of h k last → Forall (block_of h k) rest → disjoint_blocks (last :: rest) →
  ∃ l, @merge_backward E last rest = Ok l ∧ Forall (block_of h k) l ∧ disjoint_blocks l ∧ ∀ x, covered l x ↔ covered (last :: rest) x.
Proof.
  intros Hl Hr. revert last Hl. induction Hr as [|a rest Ha Hr IH]; intros last Hl Hd.
  - exists [last]. split_and!; [done|by constructor|done|done].
  - cbn [merge_backward]. destruct (@merge_two_block E h k a last Ha Hl) as (o & -> & Ho). rewrite bind_Ok.
    apply disjoint_cons in Hd as [[Hla Hlr]%Forall_cons [Har Hd]%disjoint_cons]. destruct o as [m|].
    + destruct (Ho m eq_refl) as [Hm Hc]. destruct (IH m Hm) as (l & El & Hb & Hdl & Hcl).
      { apply disjoint_cons. split; [|done]. rewrite apart_covered in *. intros x. rewrite Hc. naive_solver. }
      exists l. split_and!; try done. intros x. rewrite Hcl, !covered_cons, Hc. tauto.
    + pose proof (reverse_Permutation (last :: a :: rest)) as Hp. eexists. split; [reflexivity|]. split_and!; [| |intros x; by rewrite Hp].
      * rewrite Hp. constructor; [done|]. by constructor.
      * rewrite Hp. apply disjoint_cons. split; [by constructor|]. by apply disjoint_cons.
Qed.

Lemma merge_messages_blocks {E} h k l : Forall (block_of h k) l → disjoint_blocks l →
  ∃ l', @merge_messages E l = Ok l' ∧ Forall (block_of h k) l' ∧ disjoint_blocks l' ∧ ∀ x, covered l' x ↔ covered l x.
Proof.
  intros Hl Hd. unfold merge_messages. assert (reverse (sort_messages l) ≡ₚ l) as Hp.
  { rewrite reverse_Permutation. apply sort_by_perm. }
  rewrite <- Hp in Hl, Hd. destruct (reverse (sort_messages l)) as [|m rest].
  - apply Permutation_nil_l in Hp as <-. by exists [].
  - apply Forall_cons in Hl as [Hm Hr]. destruct (@merge_backward_blocks E h k m rest Hm Hr Hd) as (l' & E' & Hb & Hd' & Hc).
    exists l'. split_and!; try done. intros x. by rewrite Hc, Hp.
Qed.

(** * Blocks that cover a piece *)

Lemma sorted_tiles h k l o n : StronglySorted (λ x y, bm_block_offset x ≤ bm_block_offset y)%Z l → Forall (block_of h k) l →
  disjoint_blocks l → (0 ≤ n)%Z → (∀ x, covered l x ↔ o ≤ x < o + n)%Z →
  ∃ lens, l = tiles h k o lens ∧ Forall (λ n, 0 < n)%Z lens ∧ total lens = n.
Proof.
  intros Hs. revert o n. induction Hs as [|m l Hs IH Hle]; intros o n Hb Hd Hn Hc.
  - exists []. split; [done|]. split; [done|]. unfold total. simpl. destruct (Z.eq_dec n 0%Z) as [->|]; [done|].
    destruct (covered_nil o). apply Hc. lia.
  - apply Forall_cons in Hb as [(Hh & Hk & Hw & Hpos) Hb]. apply disjoint_cons in Hd as [Ha Hd]. rewrite apart_covered in Ha.
    assert (covers m (bm_block_offset m)) as Hstart by (unfold covers; lia).
    assert (covers m (bm_block_offset m + bm_block_length m - 1)) as Hend by (unfold covers; lia).
    pose proof (proj1 (Hc _) (proj2 (covered_cons m l _) (or_introl Hstart))).
    pose proof (proj1 (Hc _) (proj2 (covered_cons m l _) (or_introl Hend))).
    assert (bm_block_offset m = o) as Eo.
    { assert (covered (m :: l) o) as (m' & Hin & Hm') by (apply Hc; lia). unfold covers in Hm'.
      apply elem_of_cons in Hin as [->|Hin]; [lia|]. pose proof (proj1 (Forall_forall _ _) Hle m' Hin). simpl in *. lia. }
    destruct (IH (o + bm_block_length m)%Z (n - bm_block_length m)%Z Hb Hd) as (lens & -> & Hlens & Ht); [lia| |].
    { intros x. split.
      - intros Hx. pose proof (proj1 (Hc x) (proj2 (covered_cons m l x) (or_intror Hx))).
        destruct (decide (covers m x)) as [Hm|Hm]; [by destruct (Ha x)|]. unfold covers in Hm. lia.
      - intros Hx. assert (covered (m :: l) x) as [Hm|Hm]%covered_cons by (apply Hc; lia); [unfold covers in Hm; lia|done]. }
    exists (bm_block_length m :: lens). split; [|split; [by constructor|unfold total in *; simpl; lia]].
    simpl. f_equal. destruct m; simpl in *. by subst.
Qed.

Lemma cover_merges {E} h k l n : Forall (block_of h k) l → disjoint_blocks l → (0 < n ≤ u64_max)%Z →
  (∀ x, covered l x ↔ 0 ≤ x < n)%Z → @merge_messages E l = Ok [BlockMetadata_new h k 0 n].
Proof.
  intros Hb Hd Hn Hc. pose proof (sort_by_perm (λ x y, Z.compare (bm_block_offset x) (bm_block_offset y)) l) as Hp.
  destruct (sorted_tiles h k (sort_messages l) 0 n) as (lens & El & Hl & <-); [apply sort_by_key_sorted|by rewrite Hp..|lia| |].
  { intros x. rewrite Z.add_0_l. unfold sort_messages. by rewrite Hp. }
  apply (@tiled_piece_complete E h k lens l); [|done|lia|].
  - intros ->. unfold total in Hn. simpl in Hn. lia.
  - rewrite <- El. by symmetry.
Qed.

(** * What a check of the pieces changes *)

Definition state_index (p : PieceState) : Z := match p with Good i | Bad i => i end.

Lemma st_bind_inv {X E A B} (m : st X E A) (f : A → st X E B) x x' b : (m ≫= f) x = (x', Ok b) →
  ∃ a x1, m x = (x1, Ok a) ∧ f a x1 = (x', Ok b).
Proof. unfold mbind, st_bind. destruct (m x) as [x1 [a|e|g]]; [eauto|done..]. Qed.

Section Effect.
Context {X : Type} (callback : BlockMetadata → st X io_error bool) (piece_length : Z).

Definition complete (c : PieceCheckerState) (l : list BlockMetadata) : Prop :=
  @piece_is_complete io_error (pc_total_blocks c) (pc_last_block_size c) piece_length l = Ok true.

Lemma check_pieces_effect entries x x' c c' : check_pieces callback piece_length entries (x, c) = ((x', c'), Ok ()) →
  (∀ k m l, (k, m :: l) ∈ entries → bm_piece_index m = k) → NoDup entries.*1 →
  ∃ news, pc_new_states c' = pc_new_states c ++ news ∧ NoDup (state_index <$> news) ∧
    (∀ k, k ∈ state_index <$> news → ∃ l, (k, l) ∈ entries ∧ complete c l ∧ Good k ∉ pc_old_states c) ∧
    ∀ k, pc_pending_blocks c' !! k = if decide (k ∈ state_index <$> news) then Some [] else pc_pending_blocks c !! k.
Proof.
  revert x c. induction entries as [|[k l] entries IH]; intros x c Hrun Hk Hnd.
  { injection Hrun as <- <-. exists []. rewrite app_nil_r. split_and!; [done|constructor|by intros ? ?%not_elem_of_nil|done]. }
  cbn [check_pieces] in Hrun. rewrite get_right_bind in Hrun. apply st_bind_inv in Hrun as (b & [x1 c1] & Hcomp & Hrun).
  unfold st_res in Hcomp. injection Hcomp as <- <- Hcomp. apply NoDup_cons in Hnd as [Hn Hnd].
  assert (∀ k m l, (k, m :: l) ∈ entries → bm_piece_index m = k) as Hk' by (intros; eapply Hk; by right).
  assert (check_pieces callback piece_length entries (x, c) = ((x', c'), Ok ()) →
    ∃ news, pc_new_states c' = pc_new_states c ++ news ∧ NoDup (state_index <$> news) ∧
    (∀ k', k' ∈ state_index <$> news → ∃ l', (k', l') ∈ (k, l) :: entries ∧ complete c l' ∧ Good k' ∉ pc_old_states c) ∧
    ∀ k, pc_pending_blocks c' !! k = if decide (k ∈ state_index <$> news) then Some [] else pc_pending_blocks c !! k) as Hskip.
  { intros Hrun'. destruct (IH x c Hrun' Hk' Hnd) as (news & R1 & R2 & R3 & R4). exists news. split_and!; try done.
    intros k' (l' & Hin & Hl')%R3. exists l'. split; [by right|done]. }
  destruct l as [|m l]; [by apply Hskip|]. rewrite (Hk k m l) in Hrun by left.
  destruct (b && bool_decide (Good k ∉ pc_old_states c)) eqn:Eb; [|by apply Hskip]. clear Hskip.
  apply andb_true_iff in Eb as [-> Hold%bool_decide_eq_true]. apply st_bind_inv in Hrun as (good & [x1 c1] & Hcb & Hrun).
  unfold on_left in Hcb. destruct (callback m x) as [x2 r]. injection Hcb as <- <- ->. rewrite set_right_bind in Hrun.
  set (p := if good then Good k else Bad k) in *. assert (state_index p = k) as Ep by (by destruct good).
  apply IH in Hrun as (news & R1 & R2 & R3 & R4); [|done..]. cbn [set_pending push_state pc_new_states pc_pending_blocks pc_old_states] in *.
  exists (p :: news). rewrite fmap_cons, Ep. split_and!.
  - by rewrite R1, <- app_assoc.
  - constructor; [|done]. intros (l' & Hin & _)%R3. apply Hn. by apply (list_elem_of_fmap_2' fst) with (k, l').
  - intros k' [->|Hin]%elem_of_cons; [exists (m :: l); split; [by left|done]|].
    destruct (R3 k' Hin) as (l' & Hl' & Hc'). exists l'. split; [by right|done].
  - intros k'. rewrite R4. destruct (decide (k' = k)) as [->|Hne].
    + rewrite lookup_insert_eq. rewrite (decide_True (P := k ∈ k :: _)) by left. by destruct (decide _).
    + rewrite lookup_insert_ne by done. destruct (decide (k' ∈ state_index <$> news)) as [Hin|Hin].
      * by rewrite decide_True by (by right).
      * by rewrite decide_False by (by intros [?|?]%elem_of_cons).
Qed.
End Effect.

Section Download.
Context {S F : Type} `{!FileSystem S F} `{!FsLaws S F} `{HashOrder} `{Sha1} (info : Info) (Hwf : torrent_wf info).
Implicit Types (c : PieceCheckerState) (m : BlockMetadata).

Definition pending_of c (k : Z) : list BlockMetadata := default [] (pc_pending_blocks c !! k).

(** The messages of every piece are merged; a piece that is reported was whole
    and starts over. *)
Definition checked c c' (news : list PieceState) : Prop :=
  ∀ k, ∃ l, @merge_messages io_error (pending_of c k) = Ok l ∧
    pending_of c' k = (if decide (k ∈ state_index <$> news) then [] else l) ∧
    (k ∈ state_index <$> news → ∃ w, l = [w] ∧ whole info w ∧ Good k ∉ pc_old_states c).

Lemma calculate_diff_effect s s' c c' : checker_ok info c → calculate_diff info (s, c) = ((s', c'), Ok ()) →
  ∃ news, pc_new_states c' = pc_new_states c ++ news ∧ NoDup (state_index <$> news) ∧ checked c c' news.
Proof using Hwf.
  intros Hc Hrun. unfold calculate_diff, run_with_whole_pieces in Hrun. rewrite get_right_bind in Hrun. unfold merge_pieces in Hrun.
  destruct (pending_keys (pc_pending_blocks c)) as [Hnd Hin].
  destruct (@merge_all_in info Hwf io_error (hash_iter (pc_pending_blocks c)) c Hnd) as (c1 & E1 & Hc1 & Hs1 & Ho1 & Hout & Hm1); [|done|].
  { intros k l Hkl. apply Hin in Hkl. by eapply ck_pending. }
  rewrite E1, st_res_bind, set_right_bind in Hrun. destruct (pending_keys (pc_pending_blocks c1)) as [Hnd1 Hin1].
  destruct (check_pieces _ _ _ _) as [[[s1 buf] c2] r] eqn:Erun. injection Hrun as <- <- ->.
  apply check_pieces_effect in Erun as (news & R1 & R2 & R3 & R4); [|intros k m l Hl%Hin1|done].
  2: { apply (ck_pending _ _ Hc1) in Hl. by apply Forall_cons in Hl as [[? _] _]. }
  rewrite Hs1 in R1. exists news. split_and!; [done|done|]. intros k.
  assert (∃ l, @merge_messages io_error (pending_of c k) = Ok l ∧ pending_of c1 k = l) as (l & El & Ek).
  { unfold pending_of. destruct (pc_pending_blocks c !! k) as [p|] eqn:Ep.
    - destruct (@merge_messages_in info Hwf io_error k p) as (l & El & _); [by apply (ck_pending _ _ Hc)|]. exists l. split; [done|].
      by rewrite (Hm1 k p l); [|by apply Hin|].
    - exists []. split; [done|]. rewrite Hout, Ep; [done|]. intros ([k0 p] & -> & Hp)%list_elem_of_fmap. apply Hin in Hp. naive_solver. }
  exists l. split; [done|]. split.
  - unfold pending_of at 1. rewrite R4. by destruct (decide _).
  - intros (p & Hp & Hcomp & Hold)%R3. rewrite Ho1 in Hold. apply Hin1 in Hp. unfold pending_of in Ek. rewrite Hp in Ek. simpl in Ek. subst p.
    destruct l as [|w rest]; [done|]. pose proof (ck_pending _ _ Hc1 k _ Hp) as [[_ Hw] _]%Forall_cons.
    destruct (@complete_whole info Hwf io_error w rest Hw) as (b & Eb & Hb). unfold complete in Hcomp.
    rewrite (ck_blocks _ _ Hc1), (ck_last _ _ Hc1), Eb in Hcomp. injection Hcomp as ->. destruct (proj1 Hb eq_refl) as [-> ?]. by exists w.
Qed.

Lemma old_states_news (news : list PieceState) (old : gset PieceState) p :
  p ∈ foldl (λ s p, {[p]} ∪ s) old news ↔ p ∈ old ∨ p ∈ news.
Proof. revert old. induction news as [|q news IH]; intros old; simpl; [set_solver|]. rewrite IH. set_solver. Qed.

Lemma process_block_runs ctx state block : torrent_ready ctx state → m_info (ms_file state) = info →
  dc_torrents ctx !! hash (bm_info_hash (b_metadata block)) = Some state →
  in_piece info (b_metadata block) → Z.of_nat (length (b_block_data block)) = bm_block_length (b_metadata block) →
  let m := b_metadata block in
  ∃ ctx' state' news, execute (ProcessBlock block) ctx = (ctx', Ok ()) ∧
    dc_out ctx' = dc_out ctx ++ (news ≫= diff_message (i_info_hash info) false) ++ [BlockProcessed block] ∧
    dc_torrents ctx' = <[hash (bm_info_hash m) := state']> (dc_torrents ctx) ∧ ms_file state' = ms_file state ∧
    torrent_ready ctx' state' ∧
    flat info (fs_view (dc_fs ctx')) (i_files info) =
      splice (Z.to_nat (bm_piece_index m * i_piece_len info + bm_block_offset m)) (b_block_data block)
        (flat info (fs_view (dc_fs ctx)) (i_files info)) ∧
    Forall (report_true info (fs_view (dc_fs ctx'))) news ∧ NoDup (state_index <$> news) ∧
    checked (add_pending_block m (ms_checker state)) (ms_checker state') news ∧
    (∀ p, p ∈ pc_old_states (ms_checker state') ↔ p ∈ pc_old_states (ms_checker state) ∨ p ∈ news) ∧
    (∀ w, @merge_messages io_error (pending_of (add_pending_block m (ms_checker state)) (bm_piece_index m)) = Ok [w] →
       whole info w → Good (bm_piece_index m) ∉ pc_old_states (ms_checker state) → bm_piece_index m ∈ state_index <$> news).
Proof using Hwf.
  intros [_ Hi Ha Hc Hs] Hinfo Hlook Hm Hd m. rewrite Hinfo in Ha, Hc.
  pose proof (in_piece_at info Hwf m Hm) as Hat. pose proof (in_piece_room info Hwf _ m Hm Ha) as Hroom.
  replace (Z.to_nat (bm_block_length m)) with (length (b_block_data block)) in Hat, Hroom by (unfold m in *; lia).
  destruct (write_piece_flat info (dc_fs ctx) m _ (b_block_data block) Hi Ha (tw_paths _ Hwf) Hat Hroom) as (s1 & Ew & Hi1 & Ha1 & _ & Hf1).
  destruct (calculate_diff_reports info Hwf s1 (add_pending_block m (ms_checker state)) Hi1 Ha1)
    as (s' & c' & news & E & R1 & R2 & R3 & R4 & R5 & R6 & R7); [by apply checker_ok_add|].
  destruct (calculate_diff_effect s1 s' (add_pending_block m (ms_checker state)) c') as (news' & N1 & N2 & N3); [by apply checker_ok_add|done|].
  rewrite R5 in N1. apply app_inv_head in N1 as <-. cbn in R5. rewrite Hs in R5.
  assert (write_and_check info (b_block_data block) m (dc_fs ctx, ms_checker state) = ((s', c'), Ok ())) as Ewc.
  { unfold write_and_check. by rewrite (on_left_bind _ _ _ _ _ _ Ew), get_right_bind, set_right_bind. }
  unfold execute, execute_process_block. rewrite Hlook, Hinfo. fold m. rewrite Ewc. unfold send_piece_diff, run_with_diff. rewrite R5.
  eexists _, _, news. split; [reflexivity|]. cbn -[m diff_message]. rewrite R2. split; [by rewrite <- app_assoc|].
  split; [reflexivity|]. split; [done|]. split.
  { destruct R3 as [C1 C2 C3]. split; cbn; rewrite ?Hinfo; try done; by rewrite ?R2. }
  split; [done|]. split; [done|]. split; [done|]. split; [done|]. split.
  - intros p. etransitivity; [apply old_states_news|]. by rewrite R4.
  - intros w Hw1 Hw2 Hold. unfold pending_of in Hw1. cbn in Hw1. rewrite lookup_insert_eq in Hw1. simpl in Hw1.
    apply list_elem_of_fmap. destruct (R7 (bm_piece_index m) _ w (lookup_insert_eq _ _ _) Hw1 Hw2 Hold) as [Hp|Hp];
      [by exists (Good (bm_piece_index m))|by exists (Bad (bm_piece_index m))].
Qed.

(** * The blocks of a piece *)

Definition blocks_in (k : Z) (D : list BlockMetadata) : list BlockMetadata := filter (λ m, bm_piece_index m = k) D.
Definition piece_size (k : Z) : Z := Z.min (i_piece_len info) (total_size info - k * i_piece_len info).

(** Every byte of the piece has arrived. *)
Definition full (D : list BlockMetadata) (k : Z) : Prop :=
  (0 ≤ k)%Z ∧ (0 < piece_size k)%Z ∧ ∀ x, (0 ≤ x < piece_size k)%Z → covered (blocks_in k D) x.

Lemma blocks_in_app k D m : blocks_in k (D ++ [m]) = blocks_in k D ++ if decide (bm_piece_index m = k) then [m] else [].
Proof using. unfold blocks_in. by rewrite filter_app. Qed.

Lemma in_piece_covers D k x : Forall (in_piece info) D → covered (blocks_in k D) x → (0 ≤ x < piece_size k)%Z.
Proof using.
  intros Hin (m & [<- Hm]%list_elem_of_filter & Hx). apply (proj1 (Forall_forall _ _) Hin) in Hm as (? & ? & ? & ? & ?).
  unfold covers in Hx. unfold piece_size. lia.
Qed.

Lemma pending_of_add m c k : pending_of (add_pending_block m c) k = pending_of c k ++ if decide (bm_piece_index m = k) then [m] else [].
Proof using.
  unfold pending_of. cbn. destruct (decide (bm_piece_index m = k)) as [<-|Hne]; [by rewrite lookup_insert_eq|].
  by rewrite lookup_insert_ne, app_nil_r.
Qed.

Lemma in_piece_block m : in_piece info m → block_of (bm_info_hash m) (bm_piece_index m) m.
Proof using Hwf. intros Hm. split; [done|]. split; [done|]. split; [by apply (in_piece_wf info Hwf)|]. by destruct Hm as (_ & _ & ? & _). Qed.

(** Messages that stand for the blocks of a piece are merged into the whole
    piece exactly when nothing of it is missing. *)
Lemma merged_whole h k D P l : Forall (in_piece info) D → Forall (block_of h k) P → disjoint_blocks P →
  (∀ x, covered P x ↔ covered (blocks_in k D) x) → @merge_messages io_error P = Ok l →
  Forall (block_of h k) l ∧ disjoint_blocks l ∧ (∀ x, covered l x ↔ covered (blocks_in k D) x) ∧
  (full D k → l = [BlockMetadata_new h k 0 (piece_size k)]) ∧
  (∀ w, l = [w] → whole info w → full D k).
Proof using Hwf.
  intros Hin Hb Hd Hc El. destruct (@merge_messages_blocks io_error h k P Hb Hd) as (l' & El' & Hb' & Hd' & Hc').
  rewrite El in El'. injection El' as <-. split; [done|]. split; [done|]. split; [intros x; by rewrite Hc'|]. split.
  - intros (Hk & Hsize & Hfull). pose proof (tw_size _ Hwf). pose proof (tw_piece_len _ Hwf).
    rewrite (cover_merges h k P (piece_size k)) in El; [by injection El|done|done|unfold piece_size in *; nia|].
    intros x. rewrite Hc. split; [by apply in_piece_covers|apply Hfull].
  - intros w -> [Hw1 Hw2]. apply Forall_singleton in Hb' as (_ & Ek & _ & Hpos). rewrite Ek in Hw2.
    assert (covered (blocks_in k D) 0) as (m & [<- Hm]%list_elem_of_filter & _).
    { rewrite <- Hc, <- Hc', covered_cons. left. unfold covers. lia. }
    apply (proj1 (Forall_forall _ _) Hin) in Hm as [? _]. split; [done|]. unfold piece_size. split; [lia|]. intros x Hx. rewrite <- Hc, <- Hc', covered_cons. left. unfold covers. lia.
Qed.

Lemma full_grows D m k : full D k → full (D ++ [m]) k.
Proof using. intros (? & ? & Hx). split_and!; try done. intros x ?%Hx. rewrite blocks_in_app, covered_app. by left. Qed.

Lemma full_other D m k : bm_piece_index m ≠ k → full (D ++ [m]) k → full D k.
Proof using. intros Hne. unfold full. rewrite blocks_in_app, decide_False, app_nil_r by done. done. Qed.

Lemma not_full_apart D m : in_piece info m → Forall (apart m) (blocks_in (bm_piece_index m) D) → ¬ full D (bm_piece_index m).
Proof using.
  intros (? & ? & ? & ? & ?) Hap (_ & _ & Hx). rewrite apart_covered in Hap. apply (Hap (bm_block_offset m)).
  split; [unfold covers; lia|]. apply Hx. unfold piece_size. lia.
Qed.

Lemma valid_piece k : (0 ≤ k ∧ 0 < piece_size k)%Z ↔ (0 ≤ k < Z.of_nat (length (i_pieces info)))%Z.
Proof using Hwf. destruct Hwf as [Hpl _ _ Hn _]. unfold piece_size. split; intros [? ?]; (split; [done|]); nia. Qed.

(** * Receiving a torrent

    [content] is the torrent; the block of [m] carries its part of it. *)

Context (content : bytes) (Hlen : Z.of_nat (length content) = total_size info)
  (Hhash : ∀ k, (0 ≤ k)%Z → (k * i_piece_len info < total_size info)%Z →
     i_pieces info !! Z.to_nat k = Some (sha1 (take (Z.to_nat (i_piece_len info)) (drop (Z.to_nat (k * i_piece_len info)) content)))).

Definition place m : nat := Z.to_nat (bm_piece_index m * i_piece_len info + bm_block_offset m).
Definition content_of m : bytes := take (Z.to_nat (bm_block_length m)) (drop (place m) content).
Definition content_block m : Block := Block_new m (content_of m).

Definition on_disk (ctx : @DiskManagerContext S) m : Prop :=
  take (Z.to_nat (bm_block_length m)) (drop (place m) (flat info (fs_view (dc_fs ctx)) (i_files info))) = content_of m.

(** What has arrived is [D], the pieces reported are [goods]. *)
Record progress (ctx : DiskManagerContext) (state : MetainfoState) (D : list BlockMetadata) (goods : list Z) : Prop := {
  pg_ready : torrent_ready ctx state;
  pg_info : m_info (ms_file state) = info;
  pg_lookup : dc_torrents ctx !! hash (i_info_hash info) = Some state;
  pg_in : Forall (in_piece info) D;
  pg_pending k : Forall (block_of (i_info_hash info) k) (pending_of (ms_checker state) k) ∧
    disjoint_blocks (pending_of (ms_checker state) k);
  pg_open k : Good k ∉ pc_old_states (ms_checker state) →
    ¬ full D k ∧ ∀ x, covered (pending_of (ms_checker state) k) x ↔ covered (blocks_in k D) x;
  pg_done k : Good k ∈ pc_old_states (ms_checker state) → full D k ∧ pending_of (ms_checker state) k = [];
  pg_goods k : k ∈ goods ↔ Good k ∈ pc_old_states (ms_checker state);
  pg_nodup : NoDup goods;
  pg_bytes : Forall (on_disk ctx) D
}.

Lemma length_content_of m : in_piece info m → Z.of_nat (length (content_of m)) = bm_block_length m.
Proof using Hwf Hlen.
  intros (? & ? & ? & ? & ?). pose proof (tw_piece_len _ Hwf). unfold content_of, place. rewrite length_take, length_drop.
  rewrite Nat2Z.inj_min, Nat2Z.inj_sub_max, !Z2Nat.id by nia. lia.
Qed.

(** A full piece has the bytes of the torrent, so it matches its hash. *)
Lemma full_bytes ctx D k i : Forall (in_piece info) D → Forall (on_disk ctx) D → full D k → (Z.of_nat i < piece_size k)%Z →
  flat info (fs_view (dc_fs ctx)) (i_files info) !! (Z.to_nat (k * i_piece_len info) + i) = content !! (Z.to_nat (k * i_piece_len info) + i).
Proof using Hwf Hlen.
  intros Hin Hd (Hk & Hsize & Hcov) Hi. pose proof (tw_piece_len _ Hwf). set (v := flat info _ _) in *.
  destruct (Hcov (Z.of_nat i)) as (m & [Ek Hm]%list_elem_of_filter & Hx); [lia|].
  pose proof (proj1 (Forall_forall _ _) Hd m Hm) as E. apply (proj1 (Forall_forall _ _) Hin) in Hm as (? & ? & ? & ? & ?).
  unfold covers in Hx. unfold on_disk, content_of, place in E. fold v in E.
  apply (f_equal (λ l : bytes, l !! (i - Z.to_nat (bm_block_offset m)))) in E. cbn beta in E. rewrite !lookup_take_lt, !lookup_drop in E by lia.
  rewrite Ek in E. replace (Z.to_nat (k * i_piece_len info + bm_block_offset m) + (i - Z.to_nat (bm_block_offset m)))
    with (Z.to_nat (k * i_piece_len info) + i) in E by nia. done.
Qed.

Lemma full_matches ctx D k : Forall (in_piece info) D → Forall (on_disk ctx) D → full D k →
  allocated info (fs_view (dc_fs ctx)) (i_files info) → piece_matches info (fs_view (dc_fs ctx)) k.
Proof using Hwf Hlen Hhash.
  intros Hin Hd Hf Hal. pose proof (tw_piece_len _ Hwf). pose proof Hf as (Hk & Hsize & _). unfold piece_size in Hsize. unfold piece_matches.
  rewrite Hhash by lia. do 2 f_equal. unfold piece_bytes.
  pose proof (flat_length info (fs_view (dc_fs ctx)) (i_files info) Hal) as Hfl. change (foldr _ _ _) with (total_size info) in Hfl.
  apply list_eq. intros i. destruct (decide (Z.of_nat i < piece_size k)%Z) as [Hi|Hi].
  - unfold piece_size in Hi. rewrite !lookup_take_lt, !lookup_drop by lia. by rewrite (full_bytes ctx D k i).
  - unfold piece_size in Hi. rewrite !lookup_ge_None_2; [done|..]; rewrite length_take, length_drop; nia.
Qed.

Lemma on_disk_step ctx ctx' D m : in_piece info m → Forall (in_piece info) D → Forall (apart m) (blocks_in (bm_piece_index m) D) →
  allocated info (fs_view (dc_fs ctx)) (i_files info) →
  flat info (fs_view (dc_fs ctx')) (i_files info) = splice (place m) (content_of m) (flat info (fs_view (dc_fs ctx)) (i_files info)) →
  Forall (on_disk ctx) D → Forall (on_disk ctx') (D ++ [m]).
Proof using Hwf Hlen.
  intros Hm Hin Hap Hal Hf Hd. pose proof (length_content_of m Hm) as Hl. pose proof (flat_length info _ _ Hal) as Hfl.
  change (foldr _ _ _) with (total_size info) in Hfl. set (v := flat info (fs_view (dc_fs ctx)) (i_files info)) in *.
  assert (place m + length (content_of m) ≤ length v) as Hroom.
  { destruct Hm as (? & ? & ? & ? & ?). pose proof (tw_piece_len _ Hwf). unfold place. nia. }
  apply Forall_app. split; [|apply Forall_singleton; unfold on_disk; rewrite Hf; replace (Z.to_nat (bm_block_length m)) with (length (content_of m)) by lia;
    by apply take_drop_splice].
  apply Forall_forall. intros m' Hm'. unfold on_disk. rewrite Hf.
  rewrite take_drop_disjoint; [by apply (proj1 (Forall_forall _ _) Hd)|done|].
  pose proof (proj1 (Forall_forall _ _) Hin m' Hm') as (? & ? & ? & ? & ?). destruct Hm as (? & ? & ? & ? & ?). unfold place.
  destruct (decide (bm_piece_index m' = bm_piece_index m)) as [Ek|Ek].
  - assert (apart m m') as Ha. { apply (proj1 (Forall_forall _ _) Hap). apply list_elem_of_filter. done. }
    unfold apart, covers in Ha. rewrite Ek in *.
    pose proof (Ha (bm_block_offset m)). pose proof (Ha (bm_block_offset m')). nia.
  - nia.
Qed.

(** The messages of a piece that is not known to be good stand for its blocks. *)
Lemma pending_step ctx state D goods m k : progress ctx state D goods → bm_info_hash m = i_info_hash info → in_piece info m →
  Forall (apart m) (blocks_in (bm_piece_index m) D) → Good k ∉ pc_old_states (ms_checker state) →
  Forall (block_of (i_info_hash info) k) (pending_of (add_pending_block m (ms_checker state)) k) ∧
  disjoint_blocks (pending_of (add_pending_block m (ms_checker state)) k) ∧
  ∀ x, covered (pending_of (add_pending_block m (ms_checker state)) k) x ↔ covered (blocks_in k (D ++ [m])) x.
Proof using Hwf.
  intros Hp Hh Hm Hap Hold. destruct (pg_pending _ _ _ _ Hp k) as [Hb Hd]. destruct (pg_open _ _ _ _ Hp k Hold) as [_ Hc].
  rewrite pending_of_add, blocks_in_app. destruct (decide (bm_piece_index m = k)) as [<-|Hne]; [|by rewrite !app_nil_r].
  split; [|split].
  - apply Forall_app. split; [done|]. apply Forall_singleton. rewrite <- Hh. by apply in_piece_block.
  - rewrite <- Permutation_cons_append. apply disjoint_cons. split; [|done]. rewrite apart_covered in *. intros x. by rewrite Hc.
  - intros x. by rewrite !covered_app, Hc.
Qed.

(** Only the piece of the block can be reported, and only as good. *)
Lemma news_step ctx state D goods m ctx' c' news : progress ctx state D goods → bm_info_hash m = i_info_hash info → in_piece info m →
  Forall (apart m) (blocks_in (bm_piece_index m) D) → Forall (on_disk ctx') (D ++ [m]) →
  allocated info (fs_view (dc_fs ctx')) (i_files info) → Forall (report_true info (fs_view (dc_fs ctx'))) news →
  NoDup (state_index <$> news) → checked (add_pending_block m (ms_checker state)) c' news →
  news = [] ∨ news = [Good (bm_piece_index m)] ∧ full (D ++ [m]) (bm_piece_index m).
Proof using Hwf Hlen Hhash.
  intros Hp Hh Hm Hap Hd Hal Ht Hnd Hck.
  assert (Forall (in_piece info) (D ++ [m])) as Hin by (apply Forall_app; split; [apply Hp|by constructor]).
  assert (∀ p, p ∈ news → p = Good (bm_piece_index m) ∧ full (D ++ [m]) (bm_piece_index m)) as Hone.
  { intros p Hin'. set (k := state_index p). assert (k ∈ state_index <$> news) as Hk by (by apply list_elem_of_fmap_2).
    destruct (Hck k) as (l & El & _ & Hw). destruct (Hw Hk) as (w & -> & Hwhole & Hold). cbn in Hold.
    destruct (pending_step ctx state D goods m k Hp Hh Hm Hap Hold) as (P1 & P2 & P3).
    destruct (merged_whole (i_info_hash info) k (D ++ [m]) _ _ Hin P1 P2 P3 El) as (_ & _ & _ & _ & Hf).
    pose proof (Hf w eq_refl Hwhole) as Hfull. destruct (decide (bm_piece_index m = k)) as [Ek|Hne].
    - rewrite Ek. split; [|done]. pose proof (proj1 (Forall_forall _ _) Ht p Hin') as Hp'. destruct p as [i|i]; [done|].
      destruct Hp'. by apply full_matches with (D ++ [m]).
    - destruct (proj1 (pg_open _ _ _ _ Hp k Hold)). by apply full_other with m. }
  destruct news as [|p news]; [by left|right]. destruct (Hone p (list_elem_of_here _ _)) as [-> Hfull]. split; [|done].
  destruct news as [|q news]; [done|]. destruct (Hone q) as [-> _]; [by right; left|].
  apply NoDup_cons in Hnd as [Hn _]. destruct Hn. by left.
Qed.

(** The checker after the block: pieces known to be good have no messages, the
    others stand for what has arrived of them. *)
Lemma checker_step ctx state D goods m c' news k : progress ctx state D goods → bm_info_hash m = i_info_hash info → in_piece info m →
  Forall (apart m) (blocks_in (bm_piece_index m) D) → checked (add_pending_block m (ms_checker state)) c' news →
  if decide (Good k ∈ pc_old_states (ms_checker state)) then pending_of c' k = []
  else Forall (block_of (i_info_hash info) k) (pending_of c' k) ∧ disjoint_blocks (pending_of c' k) ∧
    if decide (k ∈ state_index <$> news) then pending_of c' k = []
    else (∀ x, covered (pending_of c' k) x ↔ covered (blocks_in k (D ++ [m])) x) ∧
      (full (D ++ [m]) k → @merge_messages io_error (pending_of (add_pending_block m (ms_checker state)) k) =
        Ok [BlockMetadata_new (i_info_hash info) k 0 (piece_size k)]).
Proof using Hwf.
  intros Hp Hh Hm Hap Hck. destruct (Hck k) as (l & El & Ek & _). rewrite Ek. destruct (decide (Good k ∈ _)) as [Hold|Hold].
  - destruct (pg_done _ _ _ _ Hp k Hold) as [Hf Hnil]. rewrite pending_of_add, Hnil, decide_False in El.
    + injection El as <-. by destruct (decide _).
    + intros <-. by apply (not_full_apart D m Hm Hap).
  - destruct (pending_step ctx state D goods m k Hp Hh Hm Hap Hold) as (P1 & P2 & P3).
    destruct (merged_whole (i_info_hash info) k (D ++ [m]) _ _ (Forall_app_2 _ _ _ (pg_in _ _ _ _ Hp) (Forall_cons_2 _ _ _ Hm (Forall_nil_2 _))) P1 P2 P3 El)
      as (M1 & M2 & M3 & M4 & _).
    destruct (decide (k ∈ state_index <$> news)); [split_and!; [constructor|constructor|done]|].
    split_and!; try done. intros Hf. by rewrite El, M4.
Qed.

Lemma progress_step ctx state D goods m : progress ctx state D goods → bm_info_hash m = i_info_hash info → in_piece info m →
  Forall (apart m) (blocks_in (bm_piece_index m) D) →
  ∃ ctx' state' new, execute (ProcessBlock (content_block m)) ctx = (ctx', Ok ()) ∧
    dc_out ctx' = dc_out ctx ++ (FoundGoodPiece (i_info_hash info) <$> new) ++ [BlockProcessed (content_block m)] ∧
    progress ctx' state' (D ++ [m]) (goods ++ new) ∧ (new = [] ∨ new = [bm_piece_index m]).
Proof using Hwf Hlen Hhash.
  intros Hp Hh Hm Hap. destruct (process_block_runs ctx state (content_block m)) as
    (ctx' & state' & news & Erun & Eout & Etor & Efile & Hready & Hflat & Htrue & Hnd & Hck & Hold & Hwhole);
    [apply Hp|apply Hp|cbn; rewrite Hh; apply Hp|done|by apply length_content_of|]. cbn in *.
  assert (m_info (ms_file state') = info) as Einfo by (rewrite Efile; apply Hp).
  assert (Forall (on_disk ctx') (D ++ [m])) as Hd.
  { apply on_disk_step with ctx; [done|apply Hp|done| |done|apply Hp]. pose proof (tr_allocated _ _ (pg_ready _ _ _ _ Hp)) as Ha.
    by rewrite (pg_info _ _ _ _ Hp) in Ha. }
  assert (news = [] ∨ news = [Good (bm_piece_index m)] ∧ full (D ++ [m]) (bm_piece_index m)) as Hnews.
  { apply (news_step ctx state D goods m ctx' (ms_checker state') news); try done. pose proof (tr_allocated _ _ Hready) as Ha. by rewrite Einfo in Ha. }
  pose proof (λ k, checker_step ctx state D goods m (ms_checker state') news k Hp Hh Hm Hap Hck) as Hstep.
  assert (∀ k, k ∈ state_index <$> news ↔ Good k ∈ news) as Hgood.
  { destruct Hnews as [->|[-> _]]; intros k; simpl; set_solver. }
  exists ctx', state', (state_index <$> news). split; [done|]. split; [|split; [|destruct Hnews as [->|[-> _]]; auto]].
  { rewrite Eout. do 2 f_equal. by destruct Hnews as [->|[-> _]]. }
  split; [done|done|by rewrite Etor, Hh, lookup_insert_eq|apply Forall_app; split; [apply Hp|by constructor]|..|done].
  - intros k. specialize (Hstep k). destruct (decide _); [rewrite Hstep; split; constructor|]. by destruct Hstep as (? & ? & _).
  - intros k Hk. rewrite Hold in Hk. apply Decidable.not_or in Hk as [Ho Hn]. rewrite <- Hgood in Hn. specialize (Hstep k).
    rewrite decide_False in Hstep by done. destruct Hstep as (_ & _ & Hstep). rewrite decide_False in Hstep by done.
    destruct Hstep as [Hc Hf]. split; [|done]. intros Hfull. destruct (decide (bm_piece_index m = k)) as [<-|Hne].
    + apply Hn. by apply (Hwhole _ (Hf Hfull)).
    + apply (proj1 (pg_open _ _ _ _ Hp k Ho)). by apply full_other with m.
  - intros k [Ho|Hn]%Hold; specialize (Hstep k).
    + rewrite decide_True in Hstep by done. split; [|done]. by apply full_grows, (pg_done _ _ _ _ Hp).
    + destruct Hnews as [->|[-> Hfull]]; [by apply not_elem_of_nil in Hn|]. apply list_elem_of_singleton in Hn as [= ->].
      split; [done|]. destruct (decide (Good _ ∈ _)); [done|]. destruct Hstep as (_ & _ & Hstep). by rewrite decide_True in Hstep by left.
  - intros k. rewrite elem_of_app, Hold, Hgood, (pg_goods _ _ _ _ Hp). done.
  - apply NoDup_app. split; [apply Hp|]. split; [|done]. intros k Hk Hn. apply (pg_goods _ _ _ _ Hp), (pg_done _ _ _ _ Hp) in Hk as [Hk _].
    destruct Hnews as [->|[-> _]]; [by apply not_elem_of_nil in Hn|]. apply list_elem_of_singleton in Hn as ->.
    by apply (not_full_apart D m Hm Hap).
Qed.

(** Blocks one after the other. *)
Fixpoint process_all (blocks : list Block) (ctx : DiskManagerContext) : DiskManagerContext * res Empty_set () :=
  match blocks with
  | [] => (ctx, Ok ())
  | block :: blocks => match execute (ProcessBlock block) ctx with (ctx, Ok _) => process_all blocks ctx | r => r end
  end.

Definition good_report (msg : ODiskMessage) : option Z := match msg with FoundGoodPiece _ k => Some k | _ => None end.
Definition good_or_processed (msg : ODiskMessage) : Prop := match msg with FoundGoodPiece _ _ | BlockProcessed _ => True | _ => False end.

Definition own_block m : Prop := bm_info_hash m = i_info_hash info ∧ in_piece info m.
Definition no_overlap (a b : BlockMetadata) : Prop := bm_piece_index a = bm_piece_index b → apart a b.

Lemma no_overlap_apart D m R : ForallOrdPairs no_overlap (D ++ m :: R) → Forall (apart m) (blocks_in (bm_piece_index m) D).
Proof using.
  intros Hp. apply Forall_forall. intros a [Ek Ha]%list_elem_of_filter. apply apart_sym.
  induction D as [|d D IH]; [by apply not_elem_of_nil in Ha|]. inversion Hp as [|? ? Hd Hp']; subst.
  apply elem_of_cons in Ha as [->|Ha]; [|by apply IH]. apply (proj1 (Forall_forall _ _) Hd m); [apply elem_of_app; right; left|done].
Qed.

Lemma progress_run ctx state D goods R : progress ctx state D goods → Forall own_block R → ForallOrdPairs no_overlap (D ++ R) →
  ∃ ctx' state' reports, process_all (content_block <$> R) ctx = (ctx', Ok ()) ∧ dc_out ctx' = dc_out ctx ++ reports ∧
    Forall good_or_processed reports ∧ progress ctx' state' (D ++ R) (goods ++ omap good_report reports).
Proof using Hwf Hlen Hhash.
  intros Hp HR. revert ctx state D goods Hp. induction HR as [|m R [Hh Hm] HR IH]; intros ctx state D goods Hp Ho.
  { exists ctx, state, []. cbn. rewrite !app_nil_r. split_and!; [done|done|constructor|done]. }
  pose proof (no_overlap_apart D m R Ho) as Hap.
  destruct (progress_step ctx state D goods m Hp Hh Hm Hap) as (ctx1 & state1 & new & E1 & Eo1 & Hp1 & Hnew).
  replace (D ++ m :: R) with ((D ++ [m]) ++ R) in * by (by rewrite <- app_assoc).
  destruct (IH ctx1 state1 _ _ Hp1 Ho) as (ctx' & state' & reports & E & Eo & Hg & Hp').
  eexists ctx', state', _. cbn [fmap list_fmap process_all]. rewrite E1. split; [done|]. rewrite Eo, Eo1, <- app_assoc. split; [reflexivity|].
  split.
  - repeat apply Forall_app_2; [|by constructor|done]. apply Forall_fmap. by apply Forall_true.
  - rewrite !omap_app. replace (omap good_report (FoundGoodPiece (i_info_hash info) <$> new)) with new.
    + cbn. rewrite app_nil_r, app_assoc. done.
    + by destruct Hnew as [->| ->].
Qed.

Lemma progress_start ctx state : torrent_ready ctx state → m_info (ms_file state) = info →
  dc_torrents ctx !! hash (i_info_hash info) = Some state → (∀ k, pending_of (ms_checker state) k = []) →
  (∀ k, Good k ∉ pc_old_states (ms_checker state)) → progress ctx state [] [].
Proof using.
  intros Hr Hi Hl Hpend Hold. split; try done.
  - intros k. rewrite Hpend. split; constructor.
  - intros k _. rewrite Hpend. split; [|done]. intros (_ & Hs & Hx). apply (covered_nil 0%Z), Hx. lia.
  - intros k Hk. by apply Hold in Hk.
  - intros k. split; [by intros ?%not_elem_of_nil|]. intros Hk. by apply Hold in Hk.
  - constructor.
Qed.

Lemma progress_full ctx state D goods : progress ctx state D goods →
  (∀ k, (0 ≤ k < Z.of_nat (length (i_pieces info)))%Z → full D k) → goods ≡ₚ seqZ 0 (Z.of_nat (length (i_pieces info))).
Proof using Hwf.
  intros Hp Hf. apply NoDup_Permutation; [apply Hp|apply NoDup_seqZ|]. intros k. rewrite elem_of_seqZ, (pg_goods _ _ _ _ Hp), Z.add_0_l. split.
  - intros [(H1 & H2 & _) _]%(pg_done _ _ _ _ Hp). by apply valid_piece.
  - intros Hk. destruct (decide (Good k ∈ pc_old_states (ms_checker state))) as [|Hn]; [done|].
    destruct (pg_open _ _ _ _ Hp k Hn) as [Hnf _]. destruct Hnf. by apply Hf.
Qed.

Lemma progress_content ctx state D goods : progress ctx state D goods →
  (∀ k, (0 ≤ k < Z.of_nat (length (i_pieces info)))%Z → full D k) → flat info (fs_view (dc_fs ctx)) (i_files info) = content.
Proof using Hwf Hlen.
  intros Hp Hf. pose proof (tw_piece_len _ Hwf) as Hpl. pose proof (tr_allocated _ _ (pg_ready _ _ _ _ Hp)) as Hal. rewrite (pg_info _ _ _ _ Hp) in Hal.
  pose proof (flat_length info _ _ Hal) as Hfl. change (foldr _ _ _) with (total_size info) in Hfl.
  apply list_eq. intros i. destruct (decide (Z.of_nat i < total_size info)%Z) as [Hi|Hi]; [|rewrite !lookup_ge_None_2 by lia; done].
  set (k := (Z.of_nat i / i_piece_len info)%Z). pose proof (Z.div_mod (Z.of_nat i) (i_piece_len info)) as Hdm. fold k in Hdm.
  pose proof (Z.mod_pos_bound (Z.of_nat i) (i_piece_len info) Hpl) as Hmod. assert (0 ≤ k)%Z as Hk by (by apply Z.div_pos; lia).
  assert (Z.of_nat (Z.to_nat (Z.of_nat i `mod` i_piece_len info)) < piece_size k)%Z as Hx by (unfold piece_size; nia).
  replace i with (Z.to_nat (k * i_piece_len info) + Z.to_nat (Z.of_nat i `mod` i_piece_len info)) by nia.
  apply (full_bytes ctx D); [apply Hp|apply Hp| |done]. apply Hf, valid_piece. lia.
Qed.

(** Claim C13. Blocks that do not overlap and leave nothing out, in whatever order and of
    whatever sizes they arrive: no piece is found bad, every piece is found good
    exactly once, and the files then hold the torrent, as long as the file system
    returns no I/O error. *)
Theorem torrent_received ctx state R : torrent_ready ctx state → m_info (ms_file state) = info →
  dc_torrents ctx !! hash (i_info_hash info) = Some state → (∀ k, pending_of (ms_checker state) k = []) →
  (∀ k, Good k ∉ pc_old_states (ms_checker state)) →
  Forall own_block R → ForallOrdPairs no_overlap R → (∀ k, (0 ≤ k < Z.of_nat (length (i_pieces info)))%Z → full R k) →
  ∃ ctx' reports, process_all (content_block <$> R) ctx = (ctx', Ok ()) ∧ dc_out ctx' = dc_out ctx ++ reports ∧
    Forall good_or_processed reports ∧ omap good_report reports ≡ₚ seqZ 0 (Z.of_nat (length (i_pieces info))) ∧
    flat info (fs_view (dc_fs ctx')) (i_files info) = content.
Proof using Hwf Hlen Hhash.
  intros Hr Hi Hl Hpend Hold HR Ho Hf. pose proof (progress_start ctx state Hr Hi Hl Hpend Hold) as Hp.
  destruct (progress_run ctx state [] [] R Hp HR Ho) as (ctx' & state' & reports & E & Eo & Hg & Hp').
  exists ctx', reports. split_and!; [done|done|done|by eapply progress_full|by eapply progress_content].
Qed.
End Download.
