(* ===== verification/DiskExamples.v ===== *)
(** A torrent of two files on the file system in memory: the disk theorems
    applied to it, and what the checker makes of a misplaced block. *)

From stdpp Require Import base numbers gmap strings sorting list.
From S2P Require Import Prelude RustStd Extern Io Sha Path Bencode Metainfo Disk DiskFs DiskProps DiskCheck DiskAdd DiskDownload.

Local Existing Instance toy_sha1.
Local Existing Instance hash_order_lists.

(** Pieces of four bytes: [1 2 3 4] crosses the two files, [5 6 7] is short. *)
Definition sample_torrent : Info :=
  {| i_info_hash := {| hash := replicate 20 9%Z |};
     i_files := [{| f_len := 3; f_path := bstr "a"; f_md5sum := None |}; {| f_len := 4; f_path := bstr "b"; f_md5sum := None |}];
     i_pieces := [toy_digest [1; 2; 3; 4]; toy_digest [5; 6; 7]]%Z;
     i_piece_len := 4; i_is_private := None; i_file_directory := Some (bstr "dir") |}.
Definition sample_metainfo : Metainfo := Metainfo_from sample_torrent.
Definition sample_block (index offset : Z) (data : bytes) : Block :=
  Block_new (BlockMetadata_new (i_info_hash sample_torrent) index offset (Z.of_nat (length data))) data.

Lemma sample_wf : torrent_wf sample_torrent.
Proof.
  split; [done| |vm_compute; discriminate|vm_compute; by split; [discriminate|]|by repeat constructor].
  apply (bool_decide_unpack _). by vm_compute.
Qed.

(** The manager after the torrent has been added to an empty file system. *)
Definition sample_added : @DiskManagerContext memory := (execute (AddTorrent sample_metainfo) (DiskManagerContext_new ∅)).1.
Definition sample_state : MetainfoState :=
  default {| ms_file := sample_metainfo; ms_checker := PieceCheckerState_new 0 0 |}
    (dc_torrents sample_added !! hash (i_info_hash sample_torrent)).

Lemma sample_allocated : allocated sample_torrent (dc_fs sample_added) (i_files sample_torrent).
Proof. constructor; [by exists [0; 0; 0]%Z|]. constructor; [by exists [0; 0; 0; 0]%Z|constructor]. Qed.

Lemma sample_ready : torrent_ready sample_added sample_state.
Proof.
  split; [apply sample_wf|exact I|apply sample_allocated| |by vm_compute].
  split; [by vm_compute|by vm_compute|]. intros k l Hk.
  assert (map_Forall (λ _ l, l = []) (pc_pending_blocks (ms_checker sample_state))) as Hp by (apply (bool_decide_unpack _); by vm_compute).
  rewrite (Hp k l Hk). constructor.
Qed.

Lemma sample_fresh : (∀ k, pending_of (ms_checker sample_state) k = []) ∧ ∀ k, Good k ∉ pc_old_states (ms_checker sample_state).
Proof.
  split.
  - intros k. unfold pending_of. destruct (pc_pending_blocks (ms_checker sample_state) !! k) as [l|] eqn:E; [|done].
    assert (map_Forall (λ _ l, l = []) (pc_pending_blocks (ms_checker sample_state))) as Hp by (apply (bool_decide_unpack _); by vm_compute).
    by rewrite (Hp k l E).
  - intros k Hk%elem_of_elements.
    assert (forallb (λ p, match p with Good _ => false | Bad _ => true end) (elements (pc_old_states (ms_checker sample_state))) = true) as Hp
      by (by vm_compute).
    rewrite forallb_forall in Hp. apply list_elem_of_In, Hp in Hk. discriminate Hk.
Qed.

Lemma sample_hashes k : (0 ≤ k)%Z → (k * i_piece_len sample_torrent < total_size sample_torrent)%Z →
  i_pieces sample_torrent !! Z.to_nat k =
    Some (sha1 (take (Z.to_nat (i_piece_len sample_torrent)) (drop (Z.to_nat (k * i_piece_len sample_torrent)) [1; 2; 3; 4; 5; 6; 7]%Z))).
Proof. intros H0 H1. change (k * 4 < 7)%Z in H1. assert (k = 0 ∨ k = 1)%Z as [->| ->] by lia; by vm_compute. Qed.

(** The blocks of the torrent, out of order and of different sizes. *)
Definition sample_blocks : list BlockMetadata :=
  (λ '(k, o, n), BlockMetadata_new (i_info_hash sample_torrent) k o n) <$> [(1, 1, 2); (0, 2, 2); (1, 0, 1); (0, 0, 2)]%Z.

Lemma sample_blocks_apart : ForallOrdPairs no_overlap sample_blocks.
Proof. repeat constructor; intros E x; unfold covers; cbn in *; (lia || discriminate). Qed.

Lemma sample_blocks_full k : (0 ≤ k < 2)%Z → full sample_torrent sample_blocks k.
Proof.
  intros Hk. assert (k = 0 ∨ k = 1)%Z as [->| ->] by lia; (split; [done|split; [done|]]); intros x Hx.
  - change (0 ≤ x < 4)%Z in Hx. destruct (Z.lt_ge_cases x 2);
      [exists (BlockMetadata_new (i_info_hash sample_torrent) 0 0 2)|exists (BlockMetadata_new (i_info_hash sample_torrent) 0 2 2)];
      (split; [apply list_elem_of_filter; split; [done|]; apply list_elem_of_In; cbn; auto|unfold covers; cbn; lia]).
  - change (0 ≤ x < 3)%Z in Hx. destruct (Z.lt_ge_cases x 1);
      [exists (BlockMetadata_new (i_info_hash sample_torrent) 1 0 1)|exists (BlockMetadata_new (i_info_hash sample_torrent) 1 1 2)];
      (split; [apply list_elem_of_filter; split; [done|]; apply list_elem_of_In; cbn; auto|unfold covers; cbn; lia]).
Qed.

Lemma torrent_received_witness : ∃ ctx' reports,
  process_all (content_block sample_torrent [1; 2; 3; 4; 5; 6; 7]%Z <$> sample_blocks) sample_added = (ctx', Ok ()) ∧
  dc_out ctx' = dc_out sample_added ++ reports ∧ omap good_report reports ≡ₚ [0; 1]%Z.
Proof.
  destruct (torrent_received sample_torrent sample_wf) with (content := [1; 2; 3; 4; 5; 6; 7]%Z) (ctx := sample_added) (state := sample_state)
    (R := sample_blocks) as (ctx' & reports & E & Eo & _ & Hg & _).
  - done.
  - apply sample_hashes.
  - apply sample_ready.
  - by vm_compute.
  - by vm_compute.
  - apply sample_fresh.
  - apply sample_fresh.
  - repeat constructor; discriminate.
  - apply sample_blocks_apart.
  - apply sample_blocks_full.
  - exists ctx', reports. split; [exact E|]. split; [exact Eo|exact Hg].
Defined.

Lemma add_torrent_witness : ∃ c' state goods,
  execute (AddTorrent sample_metainfo) (DiskManagerContext_new (S := memory) ∅) = (c', Ok ()) ∧
  dc_out c' = (FoundGoodPiece (i_info_hash sample_torrent) <$> goods) ++ [TorrentAdded (i_info_hash sample_torrent)] ∧
  torrent_ready c' state.
Proof.
  destruct (add_torrent_reports (DiskManagerContext_new (S := memory) ∅) sample_metainfo) as (c' & state & goods & E & Ho & _ & _ & Hr & _).
  - apply sample_wf.
  - exact I.
  - repeat constructor; done.
  - done.
  - exists c', state, goods. split; [exact E|]. split; [exact Ho|exact Hr].
Defined.

Lemma process_block_witness : ∃ c' state' reports,
  execute (ProcessBlock (sample_block 0 0 [1; 2; 3; 4]%Z)) sample_added = (c', Ok ()) ∧
  dc_out c' = dc_out sample_added ++ reports ++ [BlockProcessed (sample_block 0 0 [1; 2; 3; 4]%Z)] ∧
  torrent_ready c' state'.
Proof.
  destruct (process_block_reports sample_added sample_state (sample_block 0 0 [1; 2; 3; 4]%Z) sample_ready)
    as (c' & state' & reports & E & Ho & _ & _ & Hr & _).
  - by vm_compute.
  - unfold in_piece. vm_compute. split_and!; (done || discriminate).
  - done.
  - exists c', state', reports. split; [exact E|]. split; [exact Ho|exact Hr].
Defined.

(** The messages of that task: the piece is found good. *)
Example sample_piece_found :
  dc_out (execute (ProcessBlock (sample_block 0 0 [1; 2; 3; 4]%Z)) sample_added).1 =
    [TorrentAdded (i_info_hash sample_torrent); FoundGoodPiece (i_info_hash sample_torrent) 0;
     BlockProcessed (sample_block 0 0 [1; 2; 3; 4]%Z)].
Proof. by vm_compute. Qed.

(** A block of the piece's length that starts inside the piece is taken for the
    piece: the piece is reported good although its bytes on disk are not. *)
Example shifted_block_found_good :
  let c := (execute (ProcessBlock (sample_block 0 2 [1; 2; 3; 4]%Z)) sample_added).1 in
  dc_out c = [TorrentAdded (i_info_hash sample_torrent); FoundGoodPiece (i_info_hash sample_torrent) 0;
              BlockProcessed (sample_block 0 2 [1; 2; 3; 4]%Z)] ∧
  piece_bytes sample_torrent (dc_fs c) 0 = [0; 0; 1; 2]%Z.
Proof. by vm_compute. Qed.

Lemma block_write_witness : ∃ s',
  write_piece sample_torrent [1; 2; 3; 4]%Z (BlockMetadata_new zero_hash 0 1 4) (dc_fs sample_added) = (s', Ok ()) ∧
  flat sample_torrent s' (i_files sample_torrent) = [0; 1; 2; 3; 4; 0; 0]%Z.
Proof.
  destruct (block_write_read sample_torrent (dc_fs sample_added) (BlockMetadata_new zero_hash 0 1 4) 1 [1; 2; 3; 4]%Z)
    as (s' & E & _ & Hf & _).
  - exact I.
  - apply sample_allocated.
  - apply (tw_paths _ sample_wf).
  - unfold block_at, is_u64. vm_compute. split_and!; (done || discriminate).
  - apply Nat.leb_le. by vm_compute.
  - exists s'. split; [exact E|]. etrans; [exact Hf|]. by vm_compute.
Defined.

Lemma block_past_end_witness :
  write_piece sample_torrent [1; 2]%Z (BlockMetadata_new zero_hash 5 0 2) (dc_fs sample_added) = (dc_fs sample_added, Ok ()) ∧
  read_piece sample_torrent (BlockMetadata_new zero_hash 5 0 2) (dc_fs sample_added, [1; 2]%Z) = ((dc_fs sample_added, [1; 2]%Z), Ok ()).
Proof.
  apply (block_past_end_accepted sample_torrent (BlockMetadata_new zero_hash 5 0 2) 20 [1; 2]%Z (dc_fs sample_added)).
  - unfold block_at, is_u64. vm_compute. split_and!; (done || discriminate).
  - repeat constructor; done.
  - vm_compute. discriminate.
Defined.
