(* ===== verification/DiskManager.v ===== *)
(** packages/disk/src/disk/manager: the builder, the sink that admits requests
    up to a capacity and spawns a task for each, and the stream that hands out
    the answers and gives capacity back.

    The capacity counter and the queue of wakers are shared by the clones of the
    sink and by the stream, each access is atomic: a refused [poll_ready] is
    three accesses, and the system interleaves them.  A waker is a number.  The
    output channel is the list of all messages sent and how many were read; a
    full channel only delays the task that sends. *)

From stdpp Require Import base numbers gmap strings list.
From S2P Require Import Prelude RustStd Extern Io Sha Path Bencode Metainfo Disk.

(** * The builder (manager/builder.rs) *)

Definition DEFAULT_PENDING_SIZE : nat := 10.
Definition DEFAULT_COMPLETED_SIZE : nat := 10.
Definition DEFAULT_THREAD_POOL_SIZE : nat := 4.

Record DiskManagerBuilder := { thread_pool_size : nat; pending_size : nat; completed_size : nat }.

Definition DiskManagerBuilder_default : DiskManagerBuilder :=
  {| thread_pool_size := DEFAULT_THREAD_POOL_SIZE; pending_size := DEFAULT_PENDING_SIZE;
     completed_size := DEFAULT_COMPLETED_SIZE |}.
Definition DiskManagerBuilder_new : DiskManagerBuilder := DiskManagerBuilder_default.
Definition with_thread_pool_size (size : nat) (self : DiskManagerBuilder) : DiskManagerBuilder :=
  {| thread_pool_size := size; pending_size := pending_size self; completed_size := completed_size self |}.
Definition with_sink_buffer_capacity (size : nat) (self : DiskManagerBuilder) : DiskManagerBuilder :=
  {| thread_pool_size := thread_pool_size self; pending_size := size; completed_size := completed_size self |}.
Definition with_stream_buffer_capacity (size : nat) (self : DiskManagerBuilder) : DiskManagerBuilder :=
  {| thread_pool_size := thread_pool_size self; pending_size := pending_size self; completed_size := size |}.
Definition sink_buffer_capacity (self : DiskManagerBuilder) : nat := pending_size self.
Definition stream_buffer_capacity (self : DiskManagerBuilder) : nat := completed_size self.

(** * The manager (manager/mod.rs) *)

Section Manager.
Context {S F : Type} `{!FileSystem S F} `{HashOrder} `{Sha1}.

Record DiskManager := {
  dm_context : @DiskManagerContext S;
  dm_max_capacity : nat;
  dm_cur_capacity : nat;
  dm_wake_queue : list nat;
  dm_woken : list nat;                       (* the wakers called so far *)
  dm_running : list IDiskMessage;            (* the tasks of the task set *)
  dm_finished : list (res Empty_set ());     (* the tasks that wait to be joined *)
  dm_read : nat                              (* the messages read from the channel *)
}.

Definition DiskManager_from_builder (builder : DiskManagerBuilder) (fs : S) : DiskManager :=
  {| dm_context := DiskManagerContext_new fs; dm_max_capacity := sink_buffer_capacity builder; dm_cur_capacity := 0;
     dm_wake_queue := []; dm_woken := []; dm_running := []; dm_finished := []; dm_read := 0 |}.

Definition set_capacity (n : nat) (self : DiskManager) : DiskManager :=
  {| dm_context := dm_context self; dm_max_capacity := dm_max_capacity self; dm_cur_capacity := n;
     dm_wake_queue := dm_wake_queue self; dm_woken := dm_woken self; dm_running := dm_running self;
     dm_finished := dm_finished self; dm_read := dm_read self |}.
Definition set_wakers (queue woken : list nat) (self : DiskManager) : DiskManager :=
  {| dm_context := dm_context self; dm_max_capacity := dm_max_capacity self; dm_cur_capacity := dm_cur_capacity self;
     dm_wake_queue := queue; dm_woken := woken; dm_running := dm_running self;
     dm_finished := dm_finished self; dm_read := dm_read self |}.
Definition set_tasks (running : list IDiskMessage) (finished : list (res Empty_set ())) (self : DiskManager) : DiskManager :=
  {| dm_context := dm_context self; dm_max_capacity := dm_max_capacity self; dm_cur_capacity := dm_cur_capacity self;
     dm_wake_queue := dm_wake_queue self; dm_woken := dm_woken self; dm_running := running;
     dm_finished := finished; dm_read := dm_read self |}.
Definition set_context (c : DiskManagerContext) (self : DiskManager) : DiskManager :=
  {| dm_context := c; dm_max_capacity := dm_max_capacity self; dm_cur_capacity := dm_cur_capacity self;
     dm_wake_queue := dm_wake_queue self; dm_woken := dm_woken self; dm_running := dm_running self;
     dm_finished := dm_finished self; dm_read := dm_read self |}.
Definition set_read (n : nat) (self : DiskManager) : DiskManager :=
  {| dm_context := dm_context self; dm_max_capacity := dm_max_capacity self; dm_cur_capacity := dm_cur_capacity self;
     dm_wake_queue := dm_wake_queue self; dm_woken := dm_woken self; dm_running := dm_running self;
     dm_finished := dm_finished self; dm_read := n |}.

(** * The sink (manager/sink.rs) *)

(** The first access of [try_submit_work]: the new capacity, and whether it is
    within the maximum. *)
Definition submit_add (self : DiskManager) : DiskManager * bool :=
  let cap := dm_cur_capacity self + 1 in
  (set_capacity cap self, cap <=? dm_max_capacity self).
(** The two accesses of the branch over capacity. *)
Definition submit_push (waker : nat) (self : DiskManager) : DiskManager :=
  set_wakers (dm_wake_queue self ++ [waker]) (dm_woken self) self.
Definition submit_undo (self : DiskManager) : DiskManager := set_capacity (dm_cur_capacity self - 1) self.

Definition try_submit_work (waker : nat) (self : DiskManager) : DiskManager * res nat nat :=
  let '(self, ok) := submit_add self in
  let cap := dm_cur_capacity self in
  if ok : bool then (self, Ok cap) else (submit_undo (submit_push waker self), Err cap).

Definition DiskManagerSink_poll_ready (waker : nat) (self : DiskManager) : DiskManager * poll () :=
  match try_submit_work waker self with
  | (self, Ok _) => (self, Ready ())
  | (self, _) => (self, Pending)
  end.

Definition DiskManagerSink_start_send (item : IDiskMessage) (self : DiskManager) : DiskManager :=
  set_tasks (dm_running self ++ [item]) (dm_finished self) self.

(** [while let Some(ready) = poll_join_next]: joins what has finished; a task
    that panicked ends the flush with an error. *)
Fixpoint flush_loop (running : list IDiskMessage) (finished : list (res Empty_set ())) : list (res Empty_set ()) * poll (res io_error ()) :=
  match finished with
  | [] => ([], match running with [] => Ready (Ok ()) | _ => Pending end)
  | Ok _ :: finished => flush_loop running finished
  | _ :: finished => (finished, Ready (Err IoOther))
  end.

(** [locked]: another clone holds the task set; the caller's waker is called. *)
Definition DiskManagerSink_poll_flush (locked : bool) (waker : nat) (self : DiskManager) : DiskManager * poll (res io_error ()) :=
  if locked then (set_wakers (dm_wake_queue self) (dm_woken self ++ [waker]) self, Pending) else
  let '(finished, r) := flush_loop (dm_running self) (dm_finished self) in
  (set_tasks (dm_running self) finished self, r).
Definition DiskManagerSink_poll_close (locked : bool) (waker : nat) (self : DiskManager) : DiskManager * poll (res io_error ()) :=
  DiskManagerSink_poll_flush locked waker self.

(** * The stream (manager/stream.rs) *)

(** [fetch_sub(1) - 1] on a counter of zero panics. *)
Definition complete_work (self : DiskManager) : res Empty_set DiskManager :=
  if (dm_cur_capacity self =? 0)%nat then Panic ArithOverflow else
  let self := set_capacity (dm_cur_capacity self - 1) self in
  Ok (match dm_wake_queue self with
      | waker :: queue => set_wakers queue (dm_woken self ++ [waker]) self
      | [] => self
      end).

(** The messages that give capacity back. *)
Definition completes (msg : ODiskMessage) : bool :=
  match msg with
  | TorrentAdded _ | TorrentRemoved _ | TorrentSynced _ | BlockLoaded _ | BlockProcessed _ => true
  | _ => false
  end.

Definition DiskManagerStream_poll_next (self : DiskManager) : res Empty_set (DiskManager * poll ODiskMessage) :=
  match dc_out (dm_context self) !! dm_read self with
  | Some msg =>
      let self := set_read (dm_read self + 1) self in
      if completes msg then self ← complete_work self; Ok (self, Ready msg) else Ok (self, Ready msg)
  | None => Ok (self, Pending)
  end.

(** * The system: clones of the sink, the tasks and the stream *)

(** A task of the task set runs to its end; whether it panicked. *)
Definition run_task (i : nat) (self : DiskManager) : option (DiskManager * bool) :=
  msg ← dm_running self !! i;
  let '(c, r) := execute msg (dm_context self) in
  Some (set_tasks (delete i (dm_running self)) (dm_finished self ++ [r]) (set_context c self),
        match r with Panic _ => true | _ => false end).

(** The manager, the granted [poll_ready]s not used yet, the refused ones before
    and after they have queued their waker, and how many tasks have panicked. *)
Record Sys := { sys_dm : DiskManager; sys_grants : nat; sys_over : list nat; sys_pushed : list nat; sys_panicked : nat }.

Definition sys_start (builder : DiskManagerBuilder) (fs : S) : Sys :=
  {| sys_dm := DiskManager_from_builder builder fs; sys_grants := 0; sys_over := []; sys_pushed := []; sys_panicked := 0 |}.

Inductive event := SubmitAdd (waker : nat) | SubmitPush (waker : nat) | SubmitUndo (waker : nat) | StartSend (item : IDiskMessage)
  | RunTask (i : nat) | Flush (waker : nat) | Next.

Definition remove_one (w : nat) (l : list nat) : option (list nat) :=
  '(i, _) ← list_find (w =.) l; Some (delete i l).

(** [None] when the event is not possible; a caller sends only what it was
    granted. *)
Definition sys_step (e : event) (s : Sys) : option Sys :=
  let m := sys_dm s in
  match e with
  | SubmitAdd w =>
      let '(m, ok) := submit_add m in
      Some (if ok : bool then {| sys_dm := m; sys_grants := sys_grants s + 1; sys_over := sys_over s; sys_pushed := sys_pushed s; sys_panicked := sys_panicked s |}
            else {| sys_dm := m; sys_grants := sys_grants s; sys_over := w :: sys_over s; sys_pushed := sys_pushed s; sys_panicked := sys_panicked s |})
  | SubmitPush w =>
      over ← remove_one w (sys_over s);
      Some {| sys_dm := submit_push w m; sys_grants := sys_grants s; sys_over := over; sys_pushed := w :: sys_pushed s;
            sys_panicked := sys_panicked s |}
  | SubmitUndo w =>
      pushed ← remove_one w (sys_pushed s);
      Some {| sys_dm := submit_undo m; sys_grants := sys_grants s; sys_over := sys_over s; sys_pushed := pushed;
            sys_panicked := sys_panicked s |}
  | StartSend item =>
      match sys_grants s with
      | O => None
      | Datatypes.S n => Some {| sys_dm := DiskManagerSink_start_send item m; sys_grants := n; sys_over := sys_over s; sys_pushed := sys_pushed s; sys_panicked := sys_panicked s |}
      end
  | RunTask i =>
      '(m, panicked) ← run_task i m;
      Some {| sys_dm := m; sys_grants := sys_grants s; sys_over := sys_over s; sys_pushed := sys_pushed s;
              sys_panicked := sys_panicked s + (if panicked : bool then 1 else 0) |}
  | Flush w =>
      Some {| sys_dm := (DiskManagerSink_poll_flush false w m).1; sys_grants := sys_grants s; sys_over := sys_over s; sys_pushed := sys_pushed s; sys_panicked := sys_panicked s |}
  | Next =>
      match DiskManagerStream_poll_next m with
      | Ok (m, _) => Some {| sys_dm := m; sys_grants := sys_grants s; sys_over := sys_over s; sys_pushed := sys_pushed s; sys_panicked := sys_panicked s |}
      | _ => None
      end
  end.

Fixpoint sys_run (es : list event) (s : Sys) : option Sys :=
  match es with
  | [] => Some s
  | e :: es => s ← sys_step e s; sys_run es s
  end.
End Manager.
