(* ===== verification/DiskManagerProps.v ===== *)
(** Properties of the disk manager: one answer for every request, the account
    of the capacity under every interleaving, and where it leaks. *)

From stdpp Require Import base numbers gmap strings list.
From S2P Require Import Prelude RustStd Extern Io Sha Path Bencode Metainfo Disk DiskFs DiskManager.

Section Answers.
Context {S F : Type} `{!FileSystem S F} `{HashOrder} `{Sha1}.
Implicit Types (c : @DiskManagerContext S).

Definition is_report (m : ODiskMessage) : Prop :=
  match m with FoundGoodPiece _ _ | FoundBadPiece _ _ => True | _ => False end.

Definition is_failure (m : ODiskMessage) : bool :=
  match m with OTorrentError _ _ | LoadBlockError _ _ | ProcessBlockError _ _ => true | _ => false end.

(** The answers a request can have: its success, or its error. *)
Definition answers (msg : IDiskMessage) (a : ODiskMessage) : Prop :=
  match msg with
  | AddTorrent m => let h := i_info_hash (m_info m) in a = TorrentAdded h ∨ ∃ e, a = OTorrentError h e
  | RemoveTorrent h => a = TorrentRemoved h ∨ ∃ e, a = OTorrentError h e
  | SyncTorrent h => a = TorrentSynced h ∨ ∃ e, a = OTorrentError h e
  | LoadBlock b => ∃ b', bmut_metadata b' = bmut_metadata b ∧ (a = BlockLoaded b' ∨ ∃ e, a = LoadBlockError b' e)
  | ProcessBlock b => a = BlockProcessed b ∨ ∃ e, a = ProcessBlockError b e
  end.

(** A task sends reports, then one answer; one that panics sends no answer. *)
Definition sends (msg : IDiskMessage) c c' (r : res Empty_set ()) : Prop :=
  ∃ reports, Forall is_report reports ∧
    match r with
    | Ok _ => ∃ a, answers msg a ∧ dc_out c' = dc_out c ++ reports ++ [a]
    | Err _ => False
    | Panic _ => dc_out c' = dc_out c ++ reports
    end.

Lemma answer_sends {A E} msg c (ok : A → ODiskMessage) (err : E → ODiskMessage) c1 r reports :
  (∀ a, answers msg (ok a)) → (∀ e, answers msg (err e)) → Forall is_report reports → dc_out c1 = dc_out c ++ reports →
  sends msg c (answer ok err (c1, r)).1 (answer ok err (c1, r)).2.
Proof.
  intros Ho He Hr Hc. exists reports. split; [done|]. destruct r as [a|e|f]; cbn.
  - exists (ok a). rewrite Hc, <- app_assoc. by split.
  - exists (err e). rewrite Hc, <- app_assoc. by split.
  - done.
Qed.

Lemma diff_reports h b news : Forall is_report (news ≫= diff_message h b).
Proof. induction news as [|[i|i] news IH]; [constructor| |]; destruct b; cbn; try constructor; done. Qed.

Lemma add_torrent_sends m c : ∃ reports, Forall is_report reports ∧ dc_out (execute_add_torrent m c).1 = dc_out c ++ reports.
Proof.
  unfold execute_add_torrent. destruct (init_state (m_info m) (dc_fs c)) as [s [init|e|f]].
  - unfold send_piece_diff, run_with_diff, insert_torrent. eexists. split; [apply (diff_reports (i_info_hash (m_info m)) true (pc_new_states init))|].
    by destruct (dc_torrents _ !! _).
  - exists []. split; [constructor|]. by rewrite app_nil_r.
  - exists []. split; [constructor|]. by rewrite app_nil_r.
Qed.

Lemma process_block_sends b c : ∃ reports, Forall is_report reports ∧ dc_out (execute_process_block b c).1 = dc_out c ++ reports.
Proof.
  unfold execute_process_block. destruct (dc_torrents c !! _) as [state|].
  - destruct (write_and_check _ _ _ _) as [[s ck] r]. unfold send_piece_diff, run_with_diff.
    destruct r as [u|e|f].
    + eexists. split; [apply (diff_reports (i_info_hash (m_info (ms_file state))) false (pc_new_states ck))|done].
    + eexists. split; [apply (diff_reports (i_info_hash (m_info (ms_file state))) false (pc_new_states ck))|done].
    + exists []. split; [constructor|]. by rewrite app_nil_r.
  - exists []. split; [constructor|]. by rewrite app_nil_r.
Qed.

Lemma execute_sends msg c : sends msg c (execute msg c).1 (execute msg c).2.
Proof.
  destruct msg as [m|h|h|b|b]; cbn [execute].
  - destruct (add_torrent_sends m c) as (reports & Hr & Hc). destruct (execute_add_torrent m c) as [c1 r].
    eapply answer_sends; [by left|right; eauto|exact Hr|exact Hc].
  - unfold execute_remove_torrent. destruct (remove_torrent h c) as [c1 removed] eqn:E. unfold remove_torrent in E.
    eapply answer_sends; [by left|right; eauto|constructor|]. simplify_eq. by rewrite app_nil_r.
  - assert (dc_out (execute_sync_torrent h c).1 = dc_out c) as Hc.
    { unfold execute_sync_torrent. destruct (dc_torrents c !! _); [|done]. by destruct (sync_files _ _ _). }
    destruct (execute_sync_torrent h c) as [c1 r]. eapply answer_sends; [by left|right; eauto|constructor|]. by rewrite app_nil_r.
  - assert (dc_out (execute_load_block b c).1.1 = dc_out c ∧ bmut_metadata (execute_load_block b c).1.2 = bmut_metadata b) as [Hc Hb].
    { unfold execute_load_block. destruct (dc_torrents c !! _); [|done]. by destruct (read_piece _ _ _) as [[s d] r]. }
    destruct (execute_load_block b c) as [[c1 b1] r]. eapply answer_sends; [| |constructor|].
    + intros a. exists b1. split; [done|by left].
    + intros e. exists b1. split; [done|right; eauto].
    + by rewrite app_nil_r.
  - destruct (process_block_sends b c) as (reports & Hr & Hc). destruct (execute_process_block b c) as [c1 r].
    eapply answer_sends; [by left|right; eauto|exact Hr|exact Hc].
Qed.

(** Every task that does not panic sends exactly one answer, the last of its
    messages, and it names the request it answers. *)
Theorem execute_answers msg c c' : execute msg c = (c', Ok ()) →
  ∃ reports a, Forall is_report reports ∧ answers msg a ∧ dc_out c' = dc_out c ++ reports ++ [a].
Proof.
  intros E. pose proof (execute_sends msg c) as Hs. rewrite E in Hs. destruct Hs as (reports & Hr & a & Ha & Hc). by exists reports, a.
Qed.
End Answers.

Lemma execute_answers_witness : ∃ reports a, Forall is_report reports ∧ answers (SyncTorrent zero_hash) a ∧
  dc_out (execute (S := memory) (H := hash_order_lists) (H0 := toy_sha1) (SyncTorrent zero_hash) (DiskManagerContext_new ∅)).1 = reports ++ [a].
Proof.
  apply (execute_answers (S := memory) (H := hash_order_lists) (H0 := toy_sha1) (SyncTorrent zero_hash) (DiskManagerContext_new ∅)
    (execute (S := memory) (H := hash_order_lists) (H0 := toy_sha1) (SyncTorrent zero_hash) (DiskManagerContext_new ∅)).1).
  reflexivity.
Defined.

(** * The account of the capacity *)

Definition count {A} (p : A → bool) (l : list A) : nat := foldr (λ x n, (if p x then 1 else 0) + n) 0 l.

Lemma count_app {A} (p : A → bool) l k : count p (l ++ k) = count p l + count p k.
Proof. induction l as [|x l IH]; simpl; [done|]. rewrite IH. lia. Qed.

Lemma count_cons {A} (p : A → bool) x l : count p (x :: l) = (if p x then 1 else 0) + count p l.
Proof. done. Qed.

Lemma reports_count l : Forall is_report l → count completes l = 0 ∧ count is_failure l = 0.
Proof. induction 1 as [|m l Hm _ [IH1 IH2]]; [done|]. simpl. rewrite IH1, IH2. by destruct m. Qed.

Lemma answer_counts msg a : answers msg a → count completes [a] + count is_failure [a] = 1.
Proof.
  destruct msg; simpl; intros Ha; repeat match goal with
    | A : _ ∨ _ |- _ => destruct A | A : ∃ _, _ |- _ => destruct A | A : _ ∧ _ |- _ => destruct A end; by simplify_eq/=.
Qed.

Lemma remove_one_length w l k : remove_one w l = Some k → length l = Datatypes.S (length k).
Proof.
  unfold remove_one. destruct (list_find (w =.) l) as [[i x]|] eqn:E; intros Hk; simplify_eq/=.
  apply list_find_Some in E as (Hi & _ & _). pose proof (lookup_lt_Some _ _ _ Hi). rewrite length_delete by eauto. lia.
Qed.

#[local] Arguments count : simpl never.
#[local] Arguments drop : simpl never.

Section Account.
Context {S F : Type} `{!FileSystem S F} `{HashOrder} `{Sha1}.
Implicit Types (s : @Sys S).

Abbreviation out s := (dc_out (S := S) (dm_context (sys_dm s))).

(** Every unit of the counter is a granted poll, a poll being refused, a task, a
    success not read yet, or a request that failed. *)
Record accounted s : Prop := {
  ac_read : dm_read (sys_dm s) ≤ length (out s);
  ac_cur : dm_cur_capacity (sys_dm s) = sys_grants s + length (sys_over s) + length (sys_pushed s) +
    length (dm_running (sys_dm s)) + count completes (drop (dm_read (sys_dm s)) (out s)) + count is_failure (out s) + sys_panicked s;
  ac_max : dm_cur_capacity (sys_dm s) ≤ dm_max_capacity (sys_dm s) + length (sys_over s) + length (sys_pushed s)
}.

Lemma run_task_out i (m m' : @DiskManager S) b : run_task i m = Some (m', b) →
  ∃ l, dc_out (dm_context m') = dc_out (dm_context m) ++ l ∧ count completes l + count is_failure l + (if b then 1 else 0) = 1 ∧
    length (dm_running m) = Datatypes.S (length (dm_running m')) ∧ dm_read m' = dm_read m ∧
    dm_cur_capacity m' = dm_cur_capacity m ∧ dm_max_capacity m' = dm_max_capacity m.
Proof.
  unfold run_task. destruct (dm_running m !! i) as [msg|] eqn:Ei; [|done]. cbn [mbind option_bind].
  pose proof (execute_sends msg (dm_context m)) as Hs. destruct (execute msg (dm_context m)) as [c r]. intros E. simplify_eq.
  destruct Hs as (reports & Hr & Hm). apply reports_count in Hr as [H1 H2]. cbn [fst snd] in Hm.
  pose proof (lookup_lt_Some _ _ _ Ei). cbn [dm_context set_tasks set_context dm_running dm_read dm_cur_capacity dm_max_capacity].
  assert (length (dm_running m) = Datatypes.S (length (delete i (dm_running m)))) as Hl by (rewrite length_delete by eauto; lia).
  destruct r as [u|[]|f].
  - destruct Hm as (a & Ha%answer_counts & Hc). exists (reports ++ [a]). rewrite !count_app, H1, H2. split_and!; (done || lia).
  - exists reports. rewrite H1, H2. split_and!; (done || lia).
Qed.

Lemma drop_more {A} n (l k : list A) : n ≤ length l → drop n (l ++ k) = drop n l ++ k.
Proof. intros Hn. apply drop_app_le. done. Qed.

Lemma next_out (m : @DiskManager S) x : dc_out (dm_context m) !! dm_read m = Some x →
  drop (dm_read m) (dc_out (dm_context m)) = x :: drop (dm_read m + 1) (dc_out (dm_context m)).
Proof. intros Hx. rewrite (drop_S _ _ _ Hx). by rewrite Nat.add_1_r. Qed.

Lemma complete_work_fields (m m' : @DiskManager S) : complete_work m = Ok m' →
  dm_cur_capacity m = dm_cur_capacity m' + 1 ∧ dm_context m' = dm_context m ∧ dm_running m' = dm_running m ∧
  dm_read m' = dm_read m ∧ dm_max_capacity m' = dm_max_capacity m.
Proof.
  unfold complete_work. destruct (Nat.eqb_spec (dm_cur_capacity m) 0) as [E0|E0]; [done|].
  cbn. destruct (dm_wake_queue m); intros E; simplify_eq/=; split_and!; (done || lia).
Qed.

Lemma step_accounted e s s' : sys_step e s = Some s' → accounted s → accounted s'.
Proof.
  intros E [A1 A2 A3]. destruct e as [w|w|w|item|i|w|]; cbn [sys_step] in E.
  - cbn in E. destruct (Nat.leb_spec (dm_cur_capacity (sys_dm s) + 1) (dm_max_capacity (sys_dm s))); simplify_eq; split; cbn in *; lia.
  - destruct (remove_one w (sys_over s)) as [over|] eqn:Er; simplify_eq/=. apply remove_one_length in Er. split; cbn in *; lia.
  - destruct (remove_one w (sys_pushed s)) as [pushed|] eqn:Er; simplify_eq/=. apply remove_one_length in Er. split; cbn in *; lia.
  - destruct (sys_grants s) as [|n] eqn:Eg; simplify_eq. split; cbn in *; rewrite ?length_app; cbn; lia.
  - destruct (run_task i (sys_dm s)) as [[m b]|] eqn:Er; simplify_eq/=.
    apply run_task_out in Er as (l & Ho & Hn & Hr & Hd & Hc & Hm). split; cbn; rewrite ?Ho, ?Hd, ?Hc, ?Hm.
    + rewrite length_app. lia.
    + rewrite drop_more, !count_app by done. lia.
    + done.
  - simplify_eq. unfold DiskManagerSink_poll_flush. destruct (flush_loop _ _) as [fin r]. by split.
  - unfold DiskManagerStream_poll_next in E. destruct (_ !! dm_read (sys_dm s)) as [x|] eqn:Ex; [|by simplify_eq].
    pose proof (next_out _ _ Ex) as Hd. pose proof (lookup_lt_Some _ _ _ Ex) as Hl. rewrite Hd, count_cons in A2.
    destruct (completes x).
    + destruct (complete_work _) as [m'| |] eqn:Ec; simplify_eq/=. apply complete_work_fields in Ec as (C1 & C2 & C3 & C4 & C5).
      cbn in C1, C2, C3, C4, C5. split; cbn; rewrite ?C2, ?C3, ?C4, ?C5; lia.
    + simplify_eq/=. split; cbn; lia.
Qed.

Lemma run_accounted es s s' : sys_run es s = Some s' → accounted s → accounted s'.
Proof.
  revert s. induction es as [|e es IH]; intros s E Ha; cbn [sys_run] in E; [by simplify_eq|].
  destruct (sys_step e s) as [s1|] eqn:E1; simplify_eq/=. eapply IH; [done|]. by eapply step_accounted.
Qed.

Lemma start_accounted builder fs : accounted (sys_start builder fs).
Proof. split; unfold count; simpl; lia. Qed.

(** Messages and panics only accumulate, and the maximum stays. *)
Lemma step_grows e s s' : sys_step e s = Some s' →
  count is_failure (out s) ≤ count is_failure (out s') ∧ sys_panicked s ≤ sys_panicked s' ∧
  dm_max_capacity (sys_dm s') = dm_max_capacity (sys_dm s).
Proof.
  intros E. destruct e as [w|w|w|item|i|w|]; cbn [sys_step] in E.
  - cbn in E. destruct (_ <=? _); by simplify_eq.
  - destruct (remove_one w (sys_over s)); by simplify_eq/=.
  - destruct (remove_one w (sys_pushed s)); by simplify_eq/=.
  - destruct (sys_grants s); by simplify_eq.
  - destruct (run_task i (sys_dm s)) as [[m b]|] eqn:Er; simplify_eq/=.
    apply run_task_out in Er as (l & -> & _ & _ & _ & _ & Hm). rewrite count_app. split_and!; (done || lia).
  - simplify_eq. unfold DiskManagerSink_poll_flush. by destruct (flush_loop _ _).
  - unfold DiskManagerStream_poll_next in E. destruct (_ !! dm_read (sys_dm s)) as [x|]; [|by simplify_eq]. destruct (completes x); [|by simplify_eq].
    destruct (complete_work _) as [m'| |] eqn:Ec; simplify_eq/=. apply complete_work_fields in Ec as (_ & -> & _ & _ & ->). done.
Qed.

Lemma run_grows es s s' : sys_run es s = Some s' →
  count is_failure (out s) ≤ count is_failure (out s') ∧ sys_panicked s ≤ sys_panicked s' ∧
  dm_max_capacity (sys_dm s') = dm_max_capacity (sys_dm s).
Proof.
  revert s. induction es as [|e es IH]; intros s E; cbn [sys_run] in E; [by simplify_eq|].
  destruct (sys_step e s) as [s1|] eqn:E1; simplify_eq/=. destruct (step_grows _ _ _ E1) as (? & ? & ?).
  destruct (IH _ E) as (? & ? & ?). split_and!; (congruence || lia).
Qed.

Lemma next_total s : accounted s → ∃ m r, DiskManagerStream_poll_next (sys_dm s) = Ok (m, r).
Proof.
  intros [A1 A2 A3]. unfold DiskManagerStream_poll_next. destruct (_ !! dm_read (sys_dm s)) as [x|] eqn:Ex; [|by eexists _, _].
  rewrite (next_out _ _ Ex), count_cons in A2. destruct (completes x); [|by eexists _, _].
  unfold complete_work. cbn. destruct (Nat.eqb_spec (dm_cur_capacity (sys_dm s)) 0); [lia|]. cbn. by eexists _, _.
Qed.

(** Claim C17. Under every interleaving of the clones of the sink, the tasks and the
    stream: the counter is the granted polls, the polls on their way out, the
    tasks, the successes not read yet and the failed requests; so no more than
    the maximum of requests are ever under way, and reading an answer never
    underflows the counter. *)
Theorem capacity_account builder fs es s : sys_run es (sys_start builder fs) = Some s →
  accounted s ∧ sys_grants s + length (dm_running (sys_dm s)) ≤ pending_size builder ∧
  ∃ m r, DiskManagerStream_poll_next (sys_dm s) = Ok (m, r).
Proof.
  intros E. pose proof (run_accounted _ _ _ E (start_accounted builder fs)) as Ha. split; [done|].
  split; [|by apply next_total]. destruct (run_grows _ _ _ E) as (_ & _ & Hm). change (dm_max_capacity (sys_dm (sys_start builder fs))) with (pending_size builder) in Hm. destruct Ha as [A1 A2 A3]. lia.
Qed.

(** A failed request never gives its capacity back: once as many requests as
    the capacity have failed, every [poll_ready] is refused, for ever, although
    nothing is under way. *)
Theorem failed_requests_block builder fs es s : sys_run es (sys_start builder fs) = Some s →
  pending_size builder ≤ count is_failure (out s) + sys_panicked s →
  ∀ es' s' w, sys_run es' s = Some s' → (DiskManagerSink_poll_ready w (sys_dm s')).2 = Pending.
Proof.
  intros E Hf es' s' w E'. pose proof (run_accounted _ _ _ E (start_accounted builder fs)) as Ha.
  destruct (run_accounted _ _ _ E' Ha) as [A1 A2 A3]. destruct (run_grows _ _ _ E) as (_ & _ & Hm).
  destruct (run_grows _ _ _ E') as (G1 & G2 & G3). rewrite Hm in G3. change (dm_max_capacity (sys_dm (sys_start builder fs))) with (pending_size builder) in G3.
  unfold DiskManagerSink_poll_ready, try_submit_work, submit_add. cbn.
  destruct (Nat.leb_spec (dm_cur_capacity (sys_dm s') + 1) (dm_max_capacity (sys_dm s'))); [lia|done].
Qed.
End Account.

(** * One slot, requests for a torrent that is not there *)

Definition one_slot : Sys (S := memory) := sys_start (with_sink_buffer_capacity 1 DiskManagerBuilder_new) ∅.
Abbreviation demo_run := (sys_run (S := memory) (H := hash_order_lists) (H0 := toy_sha1)).
Definition failed_once : list event := [SubmitAdd 0; StartSend (SyncTorrent zero_hash); RunTask 0; Next; Flush 0].

Lemma capacity_account_witness : ∃ s, demo_run failed_once one_slot = Some s ∧ accounted s.
Proof.
  eexists. split; [reflexivity|].
  apply (capacity_account (H := hash_order_lists) (H0 := toy_sha1) (with_sink_buffer_capacity 1 DiskManagerBuilder_new) (∅ : memory) failed_once).
  reflexivity.
Defined.

Lemma failed_requests_witness : ∃ s, demo_run failed_once one_slot = Some s ∧ dm_running (sys_dm s) = [] ∧
  (DiskManagerSink_poll_ready 1 (sys_dm s)).2 = Pending.
Proof.
  eexists. split; [reflexivity|]. split; [reflexivity|].
  apply (failed_requests_block (H := hash_order_lists) (H0 := toy_sha1) (with_sink_buffer_capacity 1 DiskManagerBuilder_new) (∅ : memory) failed_once
    _ eq_refl ltac:(vm_compute; lia) [] _ 1 eq_refl).
Defined.

Definition empty_torrent : Metainfo :=
  Metainfo_from {| i_info_hash := zero_hash; i_files := []; i_pieces := []; i_piece_len := 1; i_is_private := None;
                   i_file_directory := None |}.
Definition lost_run : list event :=
  [SubmitAdd 0; StartSend (AddTorrent empty_torrent); RunTask 0; SubmitAdd 1; Next; SubmitPush 1; SubmitUndo 1; Flush 0].

(** A wake-up can be lost: the answer is read between the accesses of a refused
    poll, when its waker is not in the queue yet.  The poller sleeps although
    the whole capacity is free and nothing is left that would wake it. *)
Example wake_up_lost :
  match demo_run lost_run one_slot with
  | Some s =>
      dc_out (dm_context (sys_dm s)) = [TorrentAdded zero_hash] ∧ dm_read (sys_dm s) = 1 ∧ dm_running (sys_dm s) = [] ∧
      dm_cur_capacity (sys_dm s) = 0 ∧ dm_wake_queue (sys_dm s) = [1] ∧ dm_woken (sys_dm s) = [] ∧
      sys_over s = [] ∧ sys_pushed s = []
  | None => False
  end.
Proof. vm_compute. by split_and!. Qed.
