(* ===== verification/Hex.v ===== *)
(** Hexadecimal digits, [u8::from_str_radix], characters of strings and little
    endian bytes: what the hash, peer id and magnet crates use of the standard
    library, and the reference the hex crates are specified against. *)

From stdpp Require Import base numbers strings list.
From S2P Require Import Prelude RustStd.
Local Open Scope Z_scope.

(** * Hexadecimal *)

(** The digit of a nibble, in lower case. *)
Definition hex_digit (n : Z) : Z := if n <? 10 then 48 + n else 87 + n.
Definition hex_val (c : Z) : option Z :=
  if in_range 48 57 c then Some (c - 48)
  else if in_range 97 102 c then Some (c - 87)
  else if in_range 65 70 c then Some (c - 55)
  else None.

Definition hex_byte (b : Z) : bytes := [hex_digit (b / 16); hex_digit (b `mod` 16)].
Definition hex (l : bytes) : bytes := l ≫= hex_byte.

Fixpoint unhex (l : bytes) : option bytes :=
  match l with
  | [] => Some []
  | [_] => None
  | c :: d :: l => x ← hex_val c; y ← hex_val d; l ← unhex l; Some (x * 16 + y :: l)
  end.

(** [u8::from_str_radix(s, 16)] on two bytes, which cannot overflow: a plus sign
    may come before the digits. *)
Definition u8_from_str_radix16 (s : bytes) : option Z :=
  match s with
  | [c; d] => if c =? 43 then hex_val d else x ← hex_val c; y ← hex_val d; Some (x * 16 + y)
  | _ => None
  end.

(** [char::to_ascii_lowercase], [to_ascii_uppercase] on bytes. *)
Definition ascii_lower (c : Z) : Z := if in_range 65 90 c then c + 32 else c.
Definition ascii_upper (c : Z) : Z := if in_range 97 122 c then c - 32 else c.

(** [u8 as char], as UTF-8. *)
Definition char_of_u8 (b : Z) : bytes := if b <? 128 then [b] else [192 + b / 64; 128 + b `mod` 64].

(** [str::is_char_boundary] *)
Definition is_char_boundary (s : bytes) (i : nat) : bool :=
  match s !! i with
  | Some b => negb (in_range 128 191 b)
  | None => Nat.eqb i (length s)
  end.

(** [&s[i..j]] on a string *)
Definition str_slice {E} (s : bytes) (i j : nat) : res E bytes :=
  if (i <=? j)%nat && is_char_boundary s i && is_char_boundary s j then Ok (slice s i j) else Panic IndexOutOfBounds.

(** [to_le_bytes] of an integer of [n] bytes, in two's complement. *)
Fixpoint to_le_bytes (n : nat) (x : Z) : bytes :=
  match n with
  | O => []
  | S n => x `mod` 256 :: to_le_bytes n (x / 256)
  end.

(** * Lemmas *)

Lemma hex_val_digit n : 0 ≤ n < 16 → hex_val (hex_digit n) = Some n.
Proof.
  intros Hn. unfold hex_val, hex_digit, in_range. destruct (Z.ltb_spec n 10).
  - rewrite !(proj2 (Z.leb_le _ _)) by lia. cbn [andb]. f_equal. lia.
  - rewrite (proj2 (Z.leb_gt (87 + n) 57)), andb_false_r by lia. rewrite !(proj2 (Z.leb_le _ _)) by lia. cbn [andb]. f_equal. lia.
Qed.

Lemma hex_val_range c n : hex_val c = Some n → 0 ≤ n < 16.
Proof. unfold hex_val, in_range. intros E. repeat case_match; simplify_eq; bool_arith; lia. Qed.

Lemma hex_val_lower c n : hex_val c = Some n → hex_digit n = ascii_lower c.
Proof.
  unfold hex_val, hex_digit, ascii_lower, in_range. intros E.
  repeat case_match; simplify_eq; bool_arith; lia.
Qed.

Lemma hex_byte_parts b : is_u8 b → 0 ≤ b / 16 < 16 ∧ 0 ≤ b `mod` 16 < 16 ∧ b / 16 * 16 + b `mod` 16 = b.
Proof.
  intros Hb. unfold is_u8 in Hb. pose proof (Z.mod_pos_bound b 16). pose proof (Z.div_mod b 16).
  pose proof (Z.div_pos b 16). pose proof (Z.div_lt_upper_bound b 16 16). lia.
Qed.

Lemma hex_cons b l : hex (b :: l) = hex_digit (b / 16) :: hex_digit (b `mod` 16) :: hex l.
Proof. done. Qed.

Lemma length_hex l : length (hex l) = (2 * length l)%nat.
Proof. induction l as [|b l IH]; [done|]. rewrite hex_cons. simpl. lia. Qed.

Lemma unhex_hex l : are_u8 l → unhex (hex l) = Some l.
Proof.
  induction 1 as [|b l Hb Hl IH]; [done|]. rewrite hex_cons. destruct (hex_byte_parts b Hb) as (H1 & H2 & H3).
  cbn [unhex]. rewrite !hex_val_digit, IH by done. cbn. by rewrite H3.
Qed.

Lemma unhex_lower s l : unhex s = Some l → are_u8 l ∧ length s = (2 * length l)%nat ∧ hex l = ascii_lower <$> s.
Proof.
  revert s. induction l as [|b l IH]; intros s E.
  - destruct s as [|c [|d s]]; simplify_eq/=; [by repeat constructor|].
    destruct (hex_val c), (hex_val d); simplify_eq/=. by destruct (unhex s).
  - destruct s as [|c [|d s]]; simplify_eq/=. destruct (hex_val c) as [x|] eqn:Ec, (hex_val d) as [y|] eqn:Ed; simplify_eq/=.
    destruct (unhex s) as [k|] eqn:Es; simplify_eq/=. destruct (IH s Es) as (Hu & Hl & Hh).
    pose proof (hex_val_range _ _ Ec). pose proof (hex_val_range _ _ Ed). split; [constructor; [unfold is_u8; lia|done]|]. split; [lia|].
    rewrite Hh. replace ((x * 16 + y) / 16) with x by (apply (Z.div_unique _ _ _ y); lia).
    replace ((x * 16 + y) `mod` 16) with y by (apply (Z.mod_unique _ _ x); lia).
    by rewrite (hex_val_lower _ _ Ec), (hex_val_lower _ _ Ed).
Qed.

Lemma hex_digit_ascii n : 0 ≤ n < 16 → 48 ≤ hex_digit n ≤ 102.
Proof. intros Hn. unfold hex_digit. destruct (Z.ltb_spec n 10); lia. Qed.

Lemma hex_ascii l : are_u8 l → Forall (λ c, 48 ≤ c ≤ 102) (hex l).
Proof.
  induction 1 as [|b l Hb Hl IH]; [constructor|]. rewrite hex_cons. destruct (hex_byte_parts b Hb) as (H1 & H2 & _).
  constructor; [by apply hex_digit_ascii|]. constructor; [by apply hex_digit_ascii|done].
Qed.

Lemma hex_val_upper c : hex_val (ascii_upper c) = hex_val c.
Proof.
  unfold hex_val, ascii_upper, in_range. repeat case_match; bool_arith; try lia; f_equal; lia.
Qed.

Lemma unhex_upper l : unhex (ascii_upper <$> l) = unhex l.
Proof.
  revert l. fix IH 1. intros [|c [|d l]]; [done|done|]. rewrite !fmap_cons. cbn [unhex]. rewrite !hex_val_upper. by rewrite IH.
Qed.

Lemma hex_digit_mono m n : 0 ≤ m < 16 → 0 ≤ n < 16 → Z.compare (hex_digit m) (hex_digit n) = Z.compare m n.
Proof.
  intros Hm Hn. unfold hex_digit. destruct (Z.ltb_spec m 10), (Z.ltb_spec n 10); destruct (Z.compare_spec m n) as [->|Hc|Hc].
  all: try (apply Z.compare_refl); try (apply Z.compare_lt_iff; lia); try (apply Z.compare_gt_iff; lia); lia.
Qed.

Lemma length_to_le_bytes n x : length (to_le_bytes n x) = n.
Proof. revert x. induction n as [|n IH]; intros x; simpl; [done|]. by rewrite IH. Qed.

Lemma to_le_bytes_u8 n x : are_u8 (to_le_bytes n x).
Proof. revert x. induction n as [|n IH]; intros x; [constructor|]. constructor; [|apply IH]. unfold is_u8. apply Z.mod_pos_bound. lia. Qed.
