(* ===== verification/InfoHash.v ===== *)
(** packages/info-hash: the 20-byte info hash, its hexadecimal form, its
    conversions and its order.

    The [binascii] crate and the hasher of the standard library, whose algorithm
    is not specified, are interfaces. *)

From stdpp Require Import base numbers strings list.
From S2P Require Import Prelude RustStd Extern Hex.
Local Open Scope Z_scope.

(** * The [binascii] crate

    [bin2hex(input, output)] writes the lower-case digits when they fit;
    [hex2bin(input, output)] reads an even number of digits of either case. *)

Inductive ConvertError := InvalidInputLength | InvalidOutputLength | InvalidInput.

Class Binascii := {
  bin2hex : bytes → nat → res ConvertError bytes;
  hex2bin : bytes → nat → res ConvertError bytes;
  bin2hex_fits l n : are_u8 l → (2 * length l ≤ n)%nat → bin2hex l n = Ok (hex l);
  hex2bin_fits s n l : unhex s = Some l → (length l ≤ n)%nat → hex2bin s n = Ok l;
  hex2bin_digits s n : (length s = 2 * n)%nat → unhex s = None → hex2bin s n = Err InvalidInput
}.

(** [std::hash::DefaultHasher] *)
Class DefaultHasher := {
  hasher : Type;
  hasher_new : hasher;
  hash_u64 : Z → hasher → hasher;
  finish : hasher → Z;
  finish_u64 h : is_u64 (finish h)
}.

(** * The hash *)

Definition INFO_HASH_BYTES_LEN : nat := 20.

(** [[u8; 20]]: its length is a property of every value the code makes. *)
Record InfoHash := { ih : bytes }.
Definition info_hash_wf (h : InfoHash) : Prop := length (ih h) = INFO_HASH_BYTES_LEN ∧ are_u8 (ih h).

#[export] Instance InfoHash_eq_dec : EqDecision InfoHash.
Proof. solve_decision. Defined.

Definition InfoHash_default : InfoHash := {| ih := replicate INFO_HASH_BYTES_LEN 0 |}.

Definition InfoHash_from_bytes {E} (l : bytes) : res E InfoHash :=
  if Nat.eqb (length l) INFO_HASH_BYTES_LEN then Ok {| ih := l |} else Panic AssertFailed.

(** [Ord] *)
Definition InfoHash_cmp (x y : InfoHash) : comparison := bytes_cmp (ih x) (ih y).

(** [From<&[u8]>], [From<&i32>], [From<[u8; 20]>], [From<&DefaultHasher>] *)
Definition InfoHash_from_slice {E} (data : bytes) : res E InfoHash :=
  if Nat.eqb (length data) 20 then Ok {| ih := data |} else Panic AssertFailed.
Definition InfoHash_from_i32 (n : Z) : InfoHash := {| ih := replicate 16 0 ++ to_le_bytes 4 n |}.
Definition InfoHash_from_array (l : bytes) : InfoHash := {| ih := l |}.
Definition InfoHash_from_hasher `{DefaultHasher} (data : hasher) : InfoHash :=
  let n := to_le_bytes 8 (finish data) in {| ih := n ++ n ++ take 4 n |}.

Inductive ConversionError := NotEnoughBytes (message : bytes) | TooManyBytes (message : bytes).

Definition conversion_message (n : nat) : bytes :=
  bstr "got " ++ usize_to_string n ++ bstr " bytes, expected " ++ usize_to_string INFO_HASH_BYTES_LEN.

(** [TryFrom<Vec<u8>>] *)
Definition InfoHash_try_from (l : bytes) : res ConversionError InfoHash :=
  if (length l <? INFO_HASH_BYTES_LEN)%nat then Err (NotEnoughBytes (conversion_message (length l)))
  else if (INFO_HASH_BYTES_LEN <? length l)%nat then Err (TooManyBytes (conversion_message (length l)))
  else InfoHash_from_bytes l.

Section Hexadecimal.
Context `{Binascii}.

(** [Display] *)
Definition InfoHash_fmt (self : InfoHash) : res () bytes :=
  hex_result ← res_map_err (λ _, ()) (bin2hex (ih self) 40);
  ok_or () (str_from_utf8 hex_result).
(** [to_hex_string], whose [to_string] panics on a formatting error. *)
Definition to_hex_string {E} (self : InfoHash) : res E bytes :=
  match InfoHash_fmt self with Ok s => Ok s | _ => Panic UnwrapNone end.

(** [FromStr] *)
Definition InfoHash_from_str (s : bytes) : res ConvertError InfoHash :=
  if negb (Nat.eqb (length s) 40) then Err InvalidInputLength else
  l ← hex2bin s 20;
  Ok {| ih := l ++ drop (length l) (ih InfoHash_default) |}.

(** [Serialize]: the string given to the serializer. *)
Definition InfoHash_serialize (self : InfoHash) : res ConvertError bytes :=
  bytes_out ← bin2hex (ih self) 40;
  ok_or InvalidInput (str_from_utf8 bytes_out).

(** [Deserialize]: [visit_str], with what was expected. *)
Definition InfoHash_visit_str (v : bytes) : res string InfoHash :=
  if negb (Nat.eqb (length v) 40) then Err "a 40 character long string"%string else
  match hex2bin v 20 with
  | Ok l => Ok {| ih := l ++ drop (length l) (ih InfoHash_default) |}
  | Err _ => Err "a hexadecimal string"%string
  | Panic f => Panic f
  end.
End Hexadecimal.

(** * The fixture *)

Section Fixture.
Context `{DefaultHasher}.

Fixpoint seeded_words (n : nat) (seed : Z) (h : hasher) : bytes :=
  match n with
  | O => []
  | S n => let h := hash_u64 seed h in to_le_bytes 8 (finish h) ++ seeded_words n seed h
  end.

Definition gen_seeded_infohash (seed : Z) : InfoHash :=
  let buf_a := seeded_words 4 seed (hash_u64 seed hasher_new) in
  {| ih := take INFO_HASH_BYTES_LEN buf_a |}.
End Fixture.

(** * Properties *)

Lemma bin2hex_hash `{Binascii} h : info_hash_wf h → bin2hex (ih h) 40 = Ok (hex (ih h)).
Proof. intros [Hl Hb]. apply bin2hex_fits; [done|]. rewrite Hl. unfold INFO_HASH_BYTES_LEN. lia. Qed.

Lemma hex_utf8 l : are_u8 l → str_from_utf8 (hex l) = Some (hex l).
Proof.
  intros Hl. unfold str_from_utf8. assert (utf8_valid (hex l) = true) as ->; [|done].
  assert (Forall (λ c, 0 ≤ c ≤ 127) (hex l)) as Ha by (eapply Forall_impl; [by apply hex_ascii|]; simpl; lia).
  clear Hl. induction Ha as [|c k Hc _ IH]; [done|]. cbn [utf8_valid].
  unfold in_range at 1. rewrite !(proj2 (Z.leb_le _ _)) by lia. by rewrite IH.
Qed.

Lemma default_rest l : length l = INFO_HASH_BYTES_LEN → l ++ drop (length l) (ih InfoHash_default) = l.
Proof. intros Hl. rewrite drop_ge, app_nil_r; [done|]. rewrite Hl. done. Qed.

Lemma from_digits `{Binascii} s l : unhex s = Some l → length s = 40%nat →
  InfoHash_from_str s = Ok {| ih := l |} ∧ InfoHash_visit_str s = Ok {| ih := l |}.
Proof.
  intros Hs Hlen. destruct (unhex_lower s l Hs) as (_ & Hl & _). assert (length l = INFO_HASH_BYTES_LEN) as Hl' by (unfold INFO_HASH_BYTES_LEN; lia).
  unfold InfoHash_from_str, InfoHash_visit_str. rewrite Hlen. cbn [Nat.eqb negb]. rewrite (hex2bin_fits s 20 l) by (done || (unfold INFO_HASH_BYTES_LEN in Hl'; lia)).
  cbn [mbind res_bind]. by rewrite default_rest.
Qed.

(** An info hash is displayed and serialized as its 40 lower-case digits, and
    the string, in lower or upper case, is read back as the same hash. *)
Theorem info_hash_roundtrip `{Binascii} h : info_hash_wf h →
  InfoHash_fmt h = Ok (hex (ih h)) ∧ @to_hex_string _ Empty_set h = Ok (hex (ih h)) ∧ InfoHash_serialize h = Ok (hex (ih h)) ∧
  length (hex (ih h)) = 40%nat ∧
  InfoHash_from_str (hex (ih h)) = Ok h ∧ InfoHash_visit_str (hex (ih h)) = Ok h ∧
  InfoHash_from_str (ascii_upper <$> hex (ih h)) = Ok h.
Proof.
  intros Hh. pose proof Hh as [Hl Hb]. assert (length (hex (ih h)) = 40%nat) as Hlen by (rewrite length_hex, Hl; done).
  assert (InfoHash_fmt h = Ok (hex (ih h))) as Hf.
  { unfold InfoHash_fmt. rewrite bin2hex_hash by done. cbn [res_map_err mbind res_bind]. by rewrite hex_utf8. }
  split; [done|]. split; [unfold to_hex_string; by rewrite Hf|]. split.
  { unfold InfoHash_serialize. rewrite bin2hex_hash by done. cbn [mbind res_bind]. by rewrite hex_utf8. }
  split; [done|]. destruct (from_digits (hex (ih h)) (ih h)) as [E1 E2]; [by apply unhex_hex|done|].
  destruct (from_digits (ascii_upper <$> hex (ih h)) (ih h)) as [E3 _]; [by rewrite unhex_upper, unhex_hex|by rewrite length_fmap|].
  by destruct h.
Qed.

Lemma unhex_none_digits s : unhex s = None → (∃ c, c ∈ s ∧ hex_val c = None) ∨ Nat.odd (length s) = true.
Proof.
  revert s. fix IH 1. intros [|c [|d s]] E; [done|by right|]. cbn [unhex] in E.
  destruct (hex_val c) as [x|] eqn:Ec; [|left; exists c; split; [by left|done]].
  destruct (hex_val d) as [y|] eqn:Ed; [|left; exists d; split; [by right; left|done]]. simpl in E.
  destruct (unhex s) as [k|] eqn:Es; [done|]. destruct (IH s Es) as [(e & He & Hv)|Ho]; [left|by right].
  exists e. split; [by right; right|done].
Qed.

(** Every string has one of three fates: it is not 40 bytes long, it has 40
    bytes and one that is not a digit, or it is the hash whose digits it is. *)
Theorem info_hash_from_str_cases `{Binascii} s :
  (length s ≠ 40%nat ∧ InfoHash_from_str s = Err InvalidInputLength) ∨
  (length s = 40%nat ∧ (∃ c, c ∈ s ∧ hex_val c = None) ∧ InfoHash_from_str s = Err InvalidInput) ∨
  (∃ h, InfoHash_from_str s = Ok h ∧ info_hash_wf h ∧ InfoHash_fmt h = Ok (ascii_lower <$> s)).
Proof.
  destruct (decide (length s = 40%nat)) as [Hs|Hs].
  - right. destruct (unhex s) as [l|] eqn:El.
    + right. destruct (from_digits s l El Hs) as [E _]. exists {| ih := l |}. split; [done|].
      destruct (unhex_lower s l El) as (Hu & Hlen & Hh). assert (info_hash_wf {| ih := l |}) as Hw.
      { split; [simpl; unfold INFO_HASH_BYTES_LEN; lia|done]. }
      split; [done|]. unfold InfoHash_fmt. rewrite bin2hex_hash by done. cbn [res_map_err mbind res_bind ih]. by rewrite hex_utf8, Hh.
    + left. split; [done|]. split.
      * destruct (unhex_none_digits s El) as [Hc|Ho]; [done|]. by rewrite Hs in Ho.
      * unfold InfoHash_from_str. rewrite Hs. cbn [Nat.eqb negb]. by rewrite hex2bin_digits by (done || lia).
  - left. split; [done|]. unfold InfoHash_from_str. by rewrite (proj2 (Nat.eqb_neq _ _)).
Qed.

Lemma bytes_cmp_hex x y : are_u8 x → are_u8 y → bytes_cmp (hex x) (hex y) = bytes_cmp x y.
Proof.
  intros Hx. revert y. induction Hx as [|a x Ha Hx IH]; intros y Hy; destruct Hy as [|b y Hb Hy]; [done..|].
  rewrite !hex_cons. cbn [bytes_cmp]. destruct (hex_byte_parts a Ha) as (A1 & A2 & A3), (hex_byte_parts b Hb) as (B1 & B2 & B3).
  rewrite !hex_digit_mono, IH by done.
  destruct (Z.compare_spec (a / 16) (b / 16)) as [E1|L1|G1].
  - destruct (Z.compare_spec (a `mod` 16) (b `mod` 16)) as [E2|L2|G2].
    + assert (a = b) as -> by lia. by rewrite Z.compare_refl.
    + by rewrite (proj2 (Z.compare_lt_iff a b)) by lia.
    + by rewrite (proj2 (Z.compare_gt_iff a b)) by lia.
  - by rewrite (proj2 (Z.compare_lt_iff a b)) by lia.
  - by rewrite (proj2 (Z.compare_gt_iff a b)) by lia.
Qed.

(** The order of info hashes is the order of their hexadecimal strings. *)
Theorem info_hash_order x y : info_hash_wf x → info_hash_wf y → InfoHash_cmp x y = bytes_cmp (hex (ih x)) (hex (ih y)).
Proof. intros [_ Hx] [_ Hy]. symmetry. by apply bytes_cmp_hex. Qed.

Lemma length_seeded `{DefaultHasher} n seed h : length (seeded_words n seed h) = (8 * n)%nat.
Proof. revert h. induction n as [|n IH]; intros h; [done|]. cbn [seeded_words]. rewrite length_app, length_to_le_bytes, IH. lia. Qed.

Lemma seeded_u8 `{DefaultHasher} n seed h : are_u8 (seeded_words n seed h).
Proof. revert h. induction n as [|n IH]; intros h; [constructor|]. cbn [seeded_words]. apply are_u8_app. split; [apply to_le_bytes_u8|apply IH]. Qed.

Lemma le_bytes_value k x : foldr (λ b v, b + 256 * v) 0 (to_le_bytes k x) = x `mod` 256 ^ Z.of_nat k.
Proof.
  revert x. induction k as [|k IH]; intros x; [by rewrite Z.mod_1_r|]. cbn [to_le_bytes foldr]. rewrite IH.
  replace (256 ^ Z.of_nat (S k)) with (256 * 256 ^ Z.of_nat k) by (rewrite Nat2Z.inj_succ, Z.pow_succ_r by lia; done).
  rewrite Z.rem_mul_r by (first [lia|apply Z.pow_pos_nonneg; lia]). done.
Qed.

(** The info hash of a number holds it, little-endian, in its last four bytes
    after zeroes; a fixture is the first 20 bytes of the hashes of its seed. *)
Lemma info_hash_numbers `{DefaultHasher} (n seed : Z) :
  take 16 (ih (InfoHash_from_i32 n)) = replicate 16 0 ∧
  foldr (λ b v, b + 256 * v) 0 (drop 16 (ih (InfoHash_from_i32 n))) = n `mod` 2 ^ 32 ∧
  foldr (λ b v, b + 256 * v) 0 (take 8 (ih (gen_seeded_infohash seed))) = finish (hash_u64 seed (hash_u64 seed hasher_new)) ∧
  info_hash_wf (gen_seeded_infohash seed).
Proof.
  split; [done|]. split; [exact (le_bytes_value 4 n)|]. split; [|split].
  - change (take 8 (ih (gen_seeded_infohash seed))) with (to_le_bytes 8 (finish (hash_u64 seed (hash_u64 seed hasher_new)))).
    rewrite le_bytes_value. apply Z.mod_small. exact (finish_u64 _).
  - cbn [gen_seeded_infohash ih]. rewrite length_take, length_seeded. done.
  - apply Forall_take, seeded_u8.
Qed.

(** * The interfaces can be had *)

Definition list_bin2hex (l : bytes) (n : nat) : res ConvertError bytes :=
  if (2 * length l <=? n)%nat then Ok (hex l) else Err InvalidOutputLength.
Definition list_hex2bin (s : bytes) (n : nat) : res ConvertError bytes :=
  match unhex s with
  | Some l => if (length l <=? n)%nat then Ok l else Err InvalidOutputLength
  | None => if Nat.odd (length s) then Err InvalidInputLength else Err InvalidInput
  end.

#[export] Program Instance list_binascii : Binascii := { bin2hex := list_bin2hex; hex2bin := list_hex2bin }.
Next Obligation. intros l n _ Hn. unfold list_bin2hex. by rewrite (proj2 (Nat.leb_le _ _)). Qed.
Next Obligation. intros s n l Hs Hn. unfold list_hex2bin. rewrite Hs. by rewrite (proj2 (Nat.leb_le _ _)). Qed.
Next Obligation.
  intros s n Hn Hs. unfold list_hex2bin. rewrite Hs, Hn. rewrite Nat.odd_mul. done.
Qed.

#[export] Program Instance sum_hasher : DefaultHasher :=
  {| hasher := Z; hasher_new := 0; hash_u64 x h := as_u64 (x + h); finish h := as_u64 h |}.
Next Obligation. intros h. unfold is_u64, as_u64. apply Z.mod_pos_bound. lia. Qed.

Definition sample_hash : InfoHash := {| ih := seqZ 171 20 |}.
Lemma sample_hash_wf : info_hash_wf sample_hash.
Proof. split; [done|]. repeat constructor; unfold is_u8; lia. Qed.

Lemma info_hash_roundtrip_witness : InfoHash_from_str (hex (ih sample_hash)) = Ok sample_hash.
Proof. apply (info_hash_roundtrip sample_hash sample_hash_wf). Defined.
Lemma info_hash_order_witness : InfoHash_cmp sample_hash InfoHash_default = bytes_cmp (hex (ih sample_hash)) (hex (ih InfoHash_default)).
Proof. apply (info_hash_order sample_hash InfoHash_default sample_hash_wf). split; [done|]. repeat constructor; unfold is_u8; lia. Defined.
(** The samples of the tests. *)
Example info_hash_from_upper :
  InfoHash_from_str (replicate 40 70) = Ok {| ih := replicate 20 255 |} ∧
  InfoHash_fmt {| ih := replicate 20 255 |} = Ok (replicate 40 102) ∧
  InfoHash_from_str (replicate 40 71) = Err InvalidInput ∧ InfoHash_from_str (replicate 39 70) = Err InvalidInputLength.
Proof. by vm_compute. Qed.
