(* ===== verification/PeerId.v ===== *)
(** packages/peer-id: the client a peer id names, its version and how it is
    displayed.

    The [regex] crate is an interface: on the patterns used here, which are
    anchored sequences of classes with named groups, its documented
    leftmost-first search is the function [re_exec].  The [hex] crate is one
    too.  Strings are UTF-8 bytes. *)

From stdpp Require Import base numbers strings list.
From S2P Require Import Prelude RustStd Extern Path Hex.
Local Open Scope Z_scope.

(** * The [regex] crate on anchored patterns *)

(** [{n}] and greedy [+] of a class, and a named group of such. *)
Inductive re_item := Rep (class : Z → bool) (n : nat) | Plus (class : Z → bool).
Inductive re_part := Bare (i : re_item) | Group (name : string) (l : list re_item).
Definition regex : Type := list re_part.

(** The longest run of a class. *)
Fixpoint run_length (class : Z → bool) (l : bytes) : nat :=
  match l with
  | c :: l => if class c then S (run_length class l) else O
  | [] => O
  end.

(** How many bytes an item can take, the preferred number first. *)
Definition item_lengths (i : re_item) (l : bytes) : list nat :=
  match i with
  | Rep class n => if (n <=? run_length class l)%nat then [n] else []
  | Plus class => reverse (seq 1 (run_length class l))
  end.

(** The first way to match a sequence that lets the rest match. *)
Fixpoint match_items {A} (items : list re_item) (l : bytes) (taken : nat) (k : nat → bytes → option A) : option A :=
  match items with
  | [] => k taken l
  | i :: items =>
      (fix try ns := match ns with
                     | [] => None
                     | n :: ns => match match_items items (drop n l) (taken + n) k with Some a => Some a | None => try ns end
                     end) (item_lengths i l)
  end.

Fixpoint re_exec (r : regex) (l : bytes) : option (list (string * bytes)) :=
  match r with
  | [] => Some []
  | Bare i :: r => match_items [i] l 0 (λ _ rest, re_exec r rest)
  | Group name items :: r =>
      match_items items l 0 (λ n rest, groups ← re_exec r rest; Some ((name, take n l) :: groups))
  end.

Class Regex := {
  captures : regex → bytes → option (list (string * bytes));
  captures_leftmost_first r l : captures r l = re_exec r l
}.

(** [caps["name"]], which panics for a group that is not there. *)
Definition cap (caps : list (string * bytes)) (name : string) : res Empty_set bytes :=
  match list_find (λ e, e.1 = name) caps with
  | Some (_, e) => Ok e.2
  | None => Panic IndexOutOfBounds
  end.

(** The [hex] crate: [encode_to_slice] into a buffer of the right size. *)
Class HexCrate := {
  encode_to_slice : bytes → nat → option bytes;
  encode_to_slice_fits l n : are_u8 l → n = (2 * length l)%nat → encode_to_slice l n = Some (hex l)
}.

(** * The client (peer_client.rs) *)

Inductive PeerClient :=
  | BitTorrent (v : bytes) | Deluge (v : bytes) | LibTorrentRakshasa (v : bytes) | LibTorrentRasterbar (v : bytes)
  | QBitTorrent (v : bytes) | Transmission (v : bytes) | UTorrent (v : bytes) | UTorrentEmbedded (v : bytes)
  | UTorrentMac (v : bytes) | UTorrentWeb (v : bytes) | Vuze (v : bytes) | WebTorrent (v : bytes)
  | WebTorrentDesktop (v : bytes) | Mainline (v : bytes)
  | OtherWithPrefixAndVersion (prefix version : bytes)
  | OtherWithPrefix (prefix : bytes)
  | Other.

Definition dot : bytes := bstr ".".

(** A character compared with one of a list of ASCII characters. *)
Definition is_char (v : Z) (l : string) : bool := bool_decide (v ∈ bstr l).

Definition three_digits_plus_prerelease (v1 v2 v3 v4 : Z) : bytes :=
  let prerelease :=
    if is_char v4 "dD" then bstr " dev"
    else if is_char v4 "aA" then bstr " alpha"
    else if is_char v4 "bB" then bstr " beta"
    else if is_char v4 "rR" then bstr " rc"
    else if is_char v4 "sS" then bstr " stable"
    else char_of_u8 v4 in
  char_of_u8 v1 ++ dot ++ char_of_u8 v2 ++ dot ++ char_of_u8 v3 ++ prerelease.

Definition webtorrent (v1 v2 v3 v4 : Z) : bytes :=
  let major := if is_char v1 "0" then char_of_u8 v2 else char_of_u8 v1 ++ char_of_u8 v2 in
  let minor := if is_char v3 "0" then char_of_u8 v4 else char_of_u8 v3 ++ char_of_u8 v4 in
  major ++ dot ++ minor.

Definition transmission (v1 v2 v3 v4 : Z) : bytes :=
  if is_char v1 "0" && is_char v2 "0" && is_char v3 "0" then bstr "0." ++ char_of_u8 v4
  else if is_char v1 "0" && is_char v2 "0" then bstr "0." ++ char_of_u8 v3 ++ char_of_u8 v4
  else char_of_u8 v1 ++ dot ++ char_of_u8 v2 ++ char_of_u8 v3.

Definition others (prefix version : bytes) : PeerClient :=
  OtherWithPrefixAndVersion (to_string_lossy prefix) (to_string_lossy version).

Definition from_prefix_and_version (prefix version : bytes) : PeerClient :=
  let p s := bool_decide (prefix = bstr s) in
  match version with
  | [v1; v2; v3; v4] =>
      let c := char_of_u8 in
      if p "AZ"%string then Vuze (c v1 ++ dot ++ c v2 ++ dot ++ c v3 ++ dot ++ c v4)
      else if p "BT"%string then BitTorrent (three_digits_plus_prerelease v1 v2 v3 v4)
      else if p "DE"%string then Deluge (three_digits_plus_prerelease v1 v2 v3 v4)
      else if p "lt"%string then LibTorrentRakshasa (c v1 ++ dot ++ c v2 ++ c v3 ++ dot ++ c v4)
      else if p "LT"%string then LibTorrentRasterbar (c v1 ++ dot ++ c v2 ++ c v3 ++ dot ++ c v4)
      else if p "qB"%string then QBitTorrent (c v1 ++ dot ++ c v2 ++ dot ++ c v3)
      else if p "TR"%string then Transmission (transmission v1 v2 v3 v4)
      else if p "UE"%string then UTorrentEmbedded (three_digits_plus_prerelease v1 v2 v3 v4)
      else if p "UM"%string then UTorrentMac (three_digits_plus_prerelease v1 v2 v3 v4)
      else if p "UT"%string then UTorrent (three_digits_plus_prerelease v1 v2 v3 v4)
      else if p "UW"%string then UTorrentWeb (three_digits_plus_prerelease v1 v2 v3 v4)
      else if p "WD"%string then WebTorrentDesktop (webtorrent v1 v2 v3 v4)
      else if p "WW"%string then WebTorrent (webtorrent v1 v2 v3 v4)
      else others prefix version
  | [a; b; c; d; e; f] =>
      if p "M"%string && (b =? 45) && (d =? 45) && (f =? 45) then
        Mainline (char_of_u8 a ++ dot ++ char_of_u8 c ++ dot ++ char_of_u8 e)
      else if p "M"%string && (b =? 45) && (e =? 45) then
        Mainline (char_of_u8 a ++ dot ++ char_of_u8 c ++ char_of_u8 d ++ dot ++ char_of_u8 f)
      else others prefix version
  | _ => others prefix version
  end.

Definition is_alpha (c : Z) : bool := in_range 97 122 c || in_range 65 90 c.
Definition is_digit (c : Z) : bool := in_range 48 57 c.
Definition is_dash (c : Z) : bool := c =? 45.

Definition AZ_RE : regex :=
  [Bare (Rep is_dash 1); Group "name" [Rep is_alpha 2]; Group "version" [Rep is_digit 3; Rep (λ c, is_digit c || is_alpha c) 1]].
Definition MAINLINE_RE : regex :=
  [Group "name" [Rep is_alpha 1]; Group "version" [Rep (λ c, is_digit c || is_dash c) 6]; Bare (Rep is_dash 1)].
Definition PREFIX_RE : regex :=
  [Group "prefix" [Plus (λ c, is_alpha c || is_digit c || is_dash c)]; Bare (Rep is_dash 1)].

Section Client.
Context `{Regex}.

Definition from_peer_id (peer_id : bytes) : res Empty_set PeerClient :=
  match captures AZ_RE peer_id with
  | Some caps => name ← cap caps "name"; version ← cap caps "version"; Ok (from_prefix_and_version name version)
  | None =>
      match captures MAINLINE_RE peer_id with
      | Some caps => name ← cap caps "name"; version ← cap caps "version"; Ok (from_prefix_and_version name version)
      | None =>
          match captures PREFIX_RE peer_id with
          | Some caps => prefix ← cap caps "prefix"; Ok (OtherWithPrefix (to_string_lossy prefix))
          | None => Ok Other
          end
      end
  end.
End Client.

(** [Display]; the micro sign is two bytes. *)
Definition PeerClient_fmt (self : PeerClient) : bytes :=
  match self with
  | BitTorrent v => bstr "BitTorrent " ++ v
  | Deluge v => bstr "Deluge " ++ v
  | LibTorrentRakshasa v => bstr "lt (rakshasa) " ++ v
  | LibTorrentRasterbar v => bstr "lt (rasterbar) " ++ v
  | QBitTorrent v => bstr "QBitTorrent " ++ v
  | Transmission v => bstr "Transmission " ++ v
  | UTorrent v => char_of_u8 181 ++ bstr "Torrent " ++ v
  | UTorrentEmbedded v => char_of_u8 181 ++ bstr "Torrent Emb. " ++ v
  | UTorrentMac v => char_of_u8 181 ++ bstr "Torrent Mac " ++ v
  | UTorrentWeb v => char_of_u8 181 ++ bstr "Torrent Web " ++ v
  | Vuze v => bstr "Vuze " ++ v
  | WebTorrent v => bstr "WebTorrent " ++ v
  | WebTorrentDesktop v => bstr "WebTorrent Desktop " ++ v
  | Mainline v => bstr "Mainline " ++ v
  | OtherWithPrefixAndVersion prefix version => bstr "Other (" ++ prefix ++ bstr ") (" ++ version ++ bstr ")"
  | OtherWithPrefix prefix => bstr "Other (" ++ prefix ++ bstr ")"
  | Other => bstr "Other"
  end.

(** * The peer id (peer_id.rs) *)

Definition client `{Regex} (self : bytes) : res Empty_set PeerClient := from_peer_id self.

Definition first_8_bytes_hex `{HexCrate} (self : bytes) : res Empty_set bytes :=
  buf ← unwrap (encode_to_slice (take 8 self) 16);
  Ok (to_string_lossy buf).

(** * Properties *)

Lemma run_length_rep class l rest n : Forall (λ c, class c = true) l → length l = n → (n <=? run_length class (l ++ rest))%nat = true.
Proof.
  intros Hl <-. apply Nat.leb_le. induction Hl as [|c l Hc _ IH]; simpl; [lia|]. rewrite Hc. lia.
Qed.

Lemma match_rep {A} class n items l rest taken (k : nat → bytes → option A) : Forall (λ c, class c = true) l → length l = n →
  match_items (Rep class n :: items) (l ++ rest) taken k = match_items items rest (taken + n) k.
Proof.
  intros Hl Hn. cbn [match_items item_lengths]. rewrite (run_length_rep class l rest n Hl Hn), drop_app_length' by done.
  by destruct (match_items items rest _ k).
Qed.

Lemma exec_bare_rep class n r l rest : Forall (λ c, class c = true) l → length l = n →
  re_exec (Bare (Rep class n) :: r) (l ++ rest) = re_exec r rest.
Proof. intros Hl Hn. exact (match_rep class n [] l rest 0 (λ _ rest, re_exec r rest) Hl Hn). Qed.

Lemma exec_group_rep name class n r l rest groups : Forall (λ c, class c = true) l → length l = n → re_exec r rest = Some groups →
  re_exec (Group name [Rep class n] :: r) (l ++ rest) = Some ((name, l) :: groups).
Proof.
  intros Hl Hn Hr. etrans;
    [exact (match_rep class n [] l rest 0 (λ n' rest', groups ← re_exec r rest'; Some ((name, take n' (l ++ rest)) :: groups)) Hl Hn)|].
  change ((groups ← re_exec r rest; Some ((name, take n (l ++ rest)) :: groups)) = Some ((name, l) :: groups)).
  rewrite Hr. cbn. by rewrite take_app_length'.
Qed.

Section Clients.
Context `{Regex}.

(** The id of a client in the Azureus style: a dash, two letters, three digits
    and a digit or letter; what follows does not matter. *)
Lemma az_captures (n1 n2 v1 v2 v3 v4 : Z) rest : is_alpha n1 = true → is_alpha n2 = true →
  is_digit v1 = true → is_digit v2 = true → is_digit v3 = true → is_digit v4 || is_alpha v4 = true →
  captures AZ_RE (45 :: n1 :: n2 :: v1 :: v2 :: v3 :: v4 :: rest) =
    Some [("name"%string, [n1; n2]); ("version"%string, [v1; v2; v3; v4])].
Proof.
  intros H1 H2 H3 H4 H5 H6. rewrite captures_leftmost_first. unfold AZ_RE.
  assert (re_exec [Group "version" [Rep is_digit 3; Rep (λ c, is_digit c || is_alpha c) 1]] (v1 :: v2 :: v3 :: v4 :: rest) =
    Some [("version"%string, [v1; v2; v3; v4])]) as Ev.
  { cbn [re_exec]. etrans; [apply (match_rep is_digit 3 _ [v1; v2; v3]); by repeat constructor|].
    etrans; [apply (match_rep _ 1 [] [v4]); by repeat constructor|]. reflexivity. }
  etrans; [apply (exec_bare_rep is_dash 1 _ [45]); by repeat constructor|].
  apply (exec_group_rep "name" is_alpha 2 _ [n1; n2]); [by repeat constructor|done|done].
Qed.

(** Such a peer id is read as the client of its two letters with its version. *)
Theorem az_peer_id_client (n1 n2 v1 v2 v3 v4 : Z) rest : is_alpha n1 = true → is_alpha n2 = true →
  is_digit v1 = true → is_digit v2 = true → is_digit v3 = true → is_digit v4 || is_alpha v4 = true →
  from_peer_id (45 :: n1 :: n2 :: v1 :: v2 :: v3 :: v4 :: rest) = Ok (from_prefix_and_version [n1; n2] [v1; v2; v3; v4]).
Proof. intros. unfold from_peer_id. by rewrite az_captures. Qed.

(** The groups the code asks for are in every match. *)
Lemma match_items_some {A} items l taken (k : nat → bytes → option A) a : match_items items l taken k = Some a →
  ∃ n rest, k n rest = Some a.
Proof.
  revert l taken. induction items as [|i items IH]; intros l taken E; [by exists taken, l|]. cbn [match_items] in E.
  induction (item_lengths i l) as [|n ns IHn]; [done|]. destruct (match_items items (drop n l) (taken + n) k) eqn:En; simplify_eq.
  - by eapply IH.
  - by apply IHn.
Qed.

Lemma exec_group name items r l caps : re_exec (Group name items :: r) l = Some caps → ∃ v rest groups, caps = (name, v) :: groups ∧ re_exec r rest = Some groups.
Proof.
  cbn [re_exec]. intros E. apply match_items_some in E as (n & rest & E). destruct (re_exec r rest) as [groups|] eqn:Eg; simplify_eq/=.
  by eexists _, _, _.
Qed.

Lemma exec_bare i r l caps : re_exec (Bare i :: r) l = Some caps → ∃ rest, re_exec r rest = Some caps.
Proof. cbn [re_exec]. intros E. apply match_items_some in E as (_ & rest & E). by exists rest. Qed.

(** [from_peer_id] never panics: each of the three patterns, when it matches,
    has the groups that are asked for. *)
Theorem from_peer_id_total peer_id : ∃ c, from_peer_id peer_id = Ok c.
Proof.
  unfold from_peer_id. rewrite !captures_leftmost_first. destruct (re_exec AZ_RE peer_id) as [caps|] eqn:E1.
  { unfold AZ_RE in E1. apply exec_bare in E1 as (r1 & E1). apply exec_group in E1 as (v & r2 & g & -> & E2).
    apply exec_group in E2 as (v2 & r3 & g2 & -> & _). by eexists. }
  destruct (re_exec MAINLINE_RE peer_id) as [caps|] eqn:E2.
  { apply exec_group in E2 as (v & r2 & g & -> & E2). apply exec_group in E2 as (v2 & r3 & g2 & -> & _). by eexists. }
  destruct (re_exec PREFIX_RE peer_id) as [caps|] eqn:E3; [|by eexists].
  apply exec_group in E3 as (v & r2 & g & -> & _). by eexists.
Qed.
End Clients.

Lemma first_8_bytes `{HexCrate} (self : bytes) : are_u8 self → length self = 20%nat →
  first_8_bytes_hex self = Ok (to_string_lossy (hex (take 8 self))).
Proof.
  intros Hu Hl. unfold first_8_bytes_hex. rewrite encode_to_slice_fits; [done|by apply Forall_take|].
  rewrite length_take, Hl. done.
Qed.

(** * The interfaces can be had, and the samples of the tests *)

#[export] Instance list_regex : Regex := {| captures := re_exec; captures_leftmost_first r l := eq_refl |}.

Lemma az_peer_id_witness : from_peer_id (bstr "-DE123s-k/asdh3") = Ok (Deluge (bstr "1.2.3 stable")).
Proof. exact (az_peer_id_client 68 69 49 50 51 115 (bstr "-k/asdh3") eq_refl eq_refl eq_refl eq_refl eq_refl eq_refl). Defined.

Example peer_id_samples :
  from_peer_id (bstr "-lt1234-k/asdh3") = Ok (LibTorrentRakshasa (bstr "1.23.4")) ∧
  from_peer_id (bstr "-TR0012-k/asdh3") = Ok (Transmission (bstr "0.12")) ∧
  from_peer_id (bstr "-WW0102-k/asdh3") = Ok (WebTorrent (bstr "1.2")) ∧
  from_peer_id (bstr "M1-2-3--k/asdh3") = Ok (Mainline (bstr "1.2.3")) ∧
  from_peer_id (bstr "M1-23-4-k/asdh3") = Ok (Mainline (bstr "1.23.4")) ∧
  from_peer_id (bstr "S3-k/asdh3") = Ok (OtherWithPrefix (bstr "S3")) ∧
  PeerClient_fmt (Mainline (bstr "1.2.3")) = bstr "Mainline 1.2.3".
Proof. by vm_compute. Qed.
