(* ===== verification/Magnet.v ===== *)
(** packages/magnet: magnet links and the info hash they name.

    The [url] and [base32] crates are interfaces.  Strings are UTF-8 bytes; a
    [usize] is 64 bits wide. *)

From stdpp Require Import base numbers strings list.
From S2P Require Import Prelude RustStd Extern Sha Hex.
Local Open Scope Z_scope.

(** * The crates *)

(** The base-32 digits of RFC 4648, five bytes at a time. *)
Definition b32_digit (n : Z) : Z := if n <? 26 then 65 + n else 24 + n.
Definition b32_group (l : bytes) : bytes :=
  let n := foldl (λ a b, a * 256 + b) 0 l in
  (λ i, b32_digit ((n / 32 ^ Z.of_nat (7 - i)) `mod` 32)) <$> seq 0 8.
Definition b32_encode (l : bytes) : bytes := chunks 5 l ≫= b32_group.

(** [base32::decode] with the RFC 4648 alphabet reads what it encodes; twenty
    bytes need no padding. *)
Class Base32 := {
  base32_decode : bytes → option bytes;
  base32_decode_encode l : are_u8 l → length l = 20%nat → base32_decode (b32_encode l) = Some l
}.

(** [url::Url]: the scheme and the decoded pairs of the query. *)
Class UrlCrate := {
  url : Type;
  url_parse : bytes → option url;
  url_scheme : url → bytes;
  query_pairs : url → list (bytes * bytes)
}.

(** * [str::parse::<usize>] *)

Fixpoint parse_usize_digits (acc : Z) (l : bytes) : option Z :=
  match l with
  | [] => Some acc
  | c :: l =>
      d ← digit_val c;
      let acc := acc * 10 + d in
      if acc <=? u64_max then parse_usize_digits acc l else None
  end.
Definition parse_usize (l : bytes) : option Z :=
  match l with
  | [] => None
  | c :: l' => if c =? 43 then match l' with [] => None | _ => parse_usize_digits 0 l' end else parse_usize_digits 0 l
  end.

(** * Topics *)

Inductive Topic := BitTorrentInfoHash (h : ShaHash).

Definition URN : bytes := bstr "urn:btih:".
Definition starts_with (p s : bytes) : bool := bool_decide (take (length p) s = p).

(** The loop over the pairs of digits from the pair [i]. *)
Fixpoint hex_pairs (n i : nat) (s : bytes) : res Empty_set (option bytes) :=
  match n with
  | O => Ok (Some [])
  | S n =>
      let j := (9 + 2 * i)%nat in
      digits ← str_slice s j (j + 2);
      match u8_from_str_radix16 digits with
      | Some byte =>
          rest ← hex_pairs n (S i) s;
          Ok (cons byte <$> rest)
      | None => Ok None
      end
  end.

Definition sha_topic (l : bytes) : option Topic :=
  match ShaHash_from_hash l with Ok h => Some (BitTorrentInfoHash h) | _ => None end.

Section Parse.
Context `{Base32}.

Definition Topic_parse (s : bytes) : res Empty_set (option Topic) :=
  if starts_with URN s && Nat.eqb (length s) (9 + 40) then
    hash ← hex_pairs 20 0 s;
    Ok (hash ≫= sha_topic)
  else if starts_with URN s && Nat.eqb (length s) (9 + 32) then
    Ok (base32_decode (drop 9 s) ≫= sha_topic)
  else Ok None.

(** * Links *)

Record MagnetLink := {
  display_name : option bytes;
  exact_length : option Z;
  exact_topic : option Topic;
  acceptable_source : list bytes;
  exact_source : list bytes;
  keyword_topic : list bytes;
  manifest_topic : option bytes;
  address_tracker : list bytes
}.

Definition MagnetLink_default : MagnetLink :=
  {| display_name := None; exact_length := None; exact_topic := None; acceptable_source := []; exact_source := [];
     keyword_topic := []; manifest_topic := None; address_tracker := [] |}.

(** The [match &k[..]] of the loop. *)
Definition set_field (k v : bytes) (r : MagnetLink) : res Empty_set MagnetLink :=
  let key s := bool_decide (k = bstr s) in
  let with_ dn xl xt as_ xs kt mt tr :=
    Ok {| display_name := dn; exact_length := xl; exact_topic := xt; acceptable_source := as_; exact_source := xs;
          keyword_topic := kt; manifest_topic := mt; address_tracker := tr |} in
  let '(Build_MagnetLink dn xl xt as_ xs kt mt tr) := r in
  if key "dn"%string then with_ (Some v) xl xt as_ xs kt mt tr
  else if key "xl"%string then with_ dn (match parse_usize v with Some n => Some n | None => xl end) xt as_ xs kt mt tr
  else if key "xt"%string then
    topic ← Topic_parse v;
    with_ dn xl (match topic with Some t => Some t | None => xt end) as_ xs kt mt tr
  else if key "as"%string then with_ dn xl xt (as_ ++ [v]) xs kt mt tr
  else if key "xs"%string then with_ dn xl xt as_ (xs ++ [v]) kt mt tr
  else if key "kt"%string then with_ dn xl xt as_ xs (kt ++ [v]) mt tr
  else if key "mt"%string then with_ dn xl xt as_ xs kt (Some v) tr
  else if key "tr"%string then with_ dn xl xt as_ xs kt mt (tr ++ [v])
  else Ok r.

Fixpoint gather (pairs : list (bytes * bytes)) (result : option MagnetLink) : res Empty_set (option MagnetLink) :=
  match pairs with
  | [] => Ok result
  | (k, v) :: pairs =>
      r ← set_field k v (default MagnetLink_default result);
      gather pairs (Some r)
  end.

Definition MagnetLink_parse `{UrlCrate} (s : bytes) : res Empty_set (option MagnetLink) :=
  match url_parse s with
  | None => Ok None
  | Some u =>
      if negb (bool_decide (url_scheme u = bstr "magnet")) then Ok None
      else gather (query_pairs u) None
  end.

Definition get_info_hash (self : MagnetLink) : option ShaHash :=
  match exact_topic self with
  | Some (BitTorrentInfoHash info_hash) => Some info_hash
  | None => None
  end.
End Parse.

(** * Properties *)

Lemma boundary_ascii s i : Forall (λ c, 0 ≤ c < 128) s → (i ≤ length s)%nat → is_char_boundary s i = true.
Proof.
  intros Hs Hi. unfold is_char_boundary. destruct (s !! i) as [c|] eqn:E.
  - pose proof (Forall_lookup_1 _ _ _ _ Hs E) as Hc. simpl in Hc. unfold in_range. by rewrite (proj2 (Z.leb_gt 128 c)) by lia.
  - apply lookup_ge_None in E. apply Nat.eqb_eq. lia.
Qed.

Lemma radix16_hex b : is_u8 b → u8_from_str_radix16 (hex_byte b) = Some b.
Proof.
  intros Hb. destruct (hex_byte_parts b Hb) as (H1 & H2 & H3). unfold u8_from_str_radix16, hex_byte.
  pose proof (hex_digit_ascii _ H1). rewrite (proj2 (Z.eqb_neq _ _)), !hex_val_digit by (done || lia). cbn. by rewrite H3.
Qed.

(** The loop on the digits of the bytes that are left. *)
Lemma hex_pairs_hex pre l i : Forall (λ c, 0 ≤ c < 128) pre → length pre = (9 + 2 * i)%nat → are_u8 l →
  hex_pairs (length l) i (pre ++ hex l) = Ok (Some l).
Proof.
  intros Hp Hi Hl. revert pre i Hp Hi. induction Hl as [|b l Hb Hl IH]; intros pre i Hp Hi; [done|].
  assert (Forall (λ c, 0 ≤ c < 128) (hex (b :: l))) as Ha.
  { eapply Forall_impl; [apply hex_ascii; by constructor|]. simpl. lia. }
  cbn [length hex_pairs]. unfold str_slice. rewrite (proj2 (Nat.leb_le _ _)) by lia.
  rewrite !boundary_ascii; [|by apply Forall_app|rewrite length_app, length_hex; simpl; lia|by apply Forall_app|rewrite length_app, length_hex; simpl; lia].
  cbn [andb]. rewrite bind_Ok.
  assert (slice (pre ++ hex (b :: l)) (9 + 2 * i) (9 + 2 * i + 2) = hex_byte b) as ->.
  { unfold slice. replace (9 + 2 * i + 2 - (9 + 2 * i))%nat with 2%nat by lia. rewrite <- Hi, drop_app_length. by rewrite hex_cons. }
  rewrite radix16_hex by done. rewrite hex_cons.
  replace (pre ++ hex_digit (b / 16) :: hex_digit (b `mod` 16) :: hex l) with ((pre ++ hex_byte b) ++ hex l) by (by rewrite <- app_assoc).
  rewrite IH; [done| |].
  - apply Forall_app. split; [done|]. destruct (hex_byte_parts b Hb) as (H1 & H2 & _).
    pose proof (hex_digit_ascii _ H1). pose proof (hex_digit_ascii _ H2). repeat constructor; lia.
  - rewrite length_app, Hi. simpl. lia.
Qed.

Lemma urn_prefix s : starts_with URN (URN ++ s) = true.
Proof. unfold starts_with. apply bool_decide_true. by rewrite take_app_length. Qed.

Lemma length_b32 l : length l = 20%nat → length (b32_encode l) = 32%nat.
Proof.
  intros Hl. do 20 (destruct l as [|? l]; [done|]). destruct l; [|done]. done.
Qed.

(** The info hash of a topic, in hexadecimal or in base 32, is read back. *)
Theorem topic_roundtrip `{Base32} (h : ShaHash) : length (hash h) = 20%nat → are_u8 (hash h) →
  Topic_parse (URN ++ hex (hash h)) = Ok (Some (BitTorrentInfoHash h)) ∧
  Topic_parse (URN ++ b32_encode (hash h)) = Ok (Some (BitTorrentInfoHash h)).
Proof.
  intros Hl Hu. assert (sha_topic (hash h) = Some (BitTorrentInfoHash h)) as Hs.
  { unfold sha_topic, ShaHash_from_hash. rewrite Hl. by destruct h. }
  unfold Topic_parse. rewrite !urn_prefix, !length_app, length_hex, length_b32, Hl by done.
  change (length URN + 2 * 20)%nat with (9 + 40)%nat. rewrite Nat.eqb_refl. cbn [andb].
  change ((length URN + 32 =? 9 + 40)%nat) with false. change ((length URN + 32 =? 9 + 32)%nat) with true. cbn [andb]. split.
  - rewrite <- Hl at 1. rewrite (hex_pairs_hex URN (hash h) 0); [|by repeat constructor|done|done]. rewrite bind_Ok. cbn. by rewrite Hs.
  - change 9%nat with (length URN). rewrite drop_app_length, base32_decode_encode by done. cbn. by rewrite Hs.
Qed.

(** A topic of the right length whose twelfth byte continues a character makes
    the parser panic on the slice, instead of refusing the link. *)
Theorem topic_parse_panics `{Base32} s b : starts_with URN s = true → length s = 49%nat → s !! 11%nat = Some b → 128 ≤ b ≤ 191 →
  Topic_parse s = Panic IndexOutOfBounds.
Proof.
  intros Hp Hl Hb Hr. unfold Topic_parse. rewrite Hp, Hl. cbn [Nat.eqb Nat.add andb]. cbn [hex_pairs].
  assert (is_char_boundary s 11 = false) as Hc.
  { unfold is_char_boundary, in_range. rewrite Hb. by rewrite (proj2 (Z.leb_le 128 b)), (proj2 (Z.leb_le b 191)) by lia. }
  unfold str_slice. change (9 + 2 * 0 + 2)%nat with 11%nat. by rewrite Hc, andb_false_r.
Qed.

Section Links.
Context `{Base32}.

(** What the pairs with a key say, in their order. *)
Definition values (k : string) (pairs : list (bytes * bytes)) : list bytes :=
  omap (λ p, if bool_decide (p.1 = bstr k) then Some p.2 else None) pairs.

(** The topics that parse. *)
Definition topics (pairs : list (bytes * bytes)) : list Topic :=
  omap (λ v, match Topic_parse v with Ok t => t | _ => None end) (values "xt" pairs).

(** One pair: the lists grow, the single values are replaced. *)
Lemma set_field_spec k v r r' : set_field k v r = Ok r' →
  exact_topic r' = match last (topics [(k, v)]) with Some t => Some t | None => exact_topic r end ∧
  display_name r' = match last (values "dn" [(k, v)]) with Some t => Some t | None => display_name r end ∧
  address_tracker r' = address_tracker r ++ values "tr" [(k, v)].
Proof.
  destruct r as [dn xl xt as_ xs kt mt tr]. unfold set_field, topics, values. cbn [omap list_omap fst snd].
  repeat case_bool_decide; simplify_eq; cbn [omap list_omap last]; intros E; simplify_eq; rewrite ?app_nil_r; try done.
  destruct (Topic_parse v) as [[t|]| |]; simplify_eq/=; by rewrite ?app_nil_r.
Qed.

Lemma last_app_or {A} (l k : list A) (o : option A) :
  match last (l ++ k) with Some x => Some x | None => o end =
  match last k with Some x => Some x | None => match last l with Some x => Some x | None => o end end.
Proof. destruct k as [|x k _] using rev_ind; [by rewrite app_nil_r|]. by rewrite app_assoc, !last_snoc. Qed.

Lemma gather_spec pairs result out : pairs ≠ [] → gather pairs result = Ok out → ∃ link, out = Some link ∧
  exact_topic link = match last (topics pairs) with Some t => Some t | None => exact_topic (default MagnetLink_default result) end ∧
  display_name link = match last (values "dn" pairs) with Some t => Some t | None => display_name (default MagnetLink_default result) end ∧
  address_tracker link = address_tracker (default MagnetLink_default result) ++ values "tr" pairs.
Proof.
  revert result. induction pairs as [|[k v] pairs IH]; intros result Hne E; [done|]. clear Hne. cbn [gather] in E.
  destruct (set_field k v (default MagnetLink_default result)) as [r|[]|f] eqn:Er; [|done]. rewrite bind_Ok in E.
  apply set_field_spec in Er as (S1 & S2 & S3).
  assert (topics ((k, v) :: pairs) = topics [(k, v)] ++ topics pairs) as Et.
  { unfold topics, values. change ((k, v) :: pairs) with ([(k, v)] ++ pairs). by rewrite !omap_app. }
  assert (∀ s, values s ((k, v) :: pairs) = values s [(k, v)] ++ values s pairs) as Ev.
  { intros s. unfold values. change ((k, v) :: pairs) with ([(k, v)] ++ pairs). by rewrite !omap_app. }
  rewrite Et, !Ev, !last_app_or, <- S1, <- S2, app_assoc, <- S3.
  destruct pairs as [|p pairs]; [|by apply (IH (Some r))].
  cbn in E. simplify_eq. exists r. cbn. by rewrite app_nil_r.
Qed.

(** A link that is parsed has the last of its topics that is an info hash, its
    last display name, and all its trackers in order. *)
Theorem magnet_link_fields `{UrlCrate} s link : MagnetLink_parse s = Ok (Some link) → ∃ u, url_parse s = Some u ∧
  url_scheme u = bstr "magnet" ∧ query_pairs u ≠ [] ∧
  get_info_hash link = match last (topics (query_pairs u)) with Some (BitTorrentInfoHash h) => Some h | None => None end ∧
  display_name link = last (values "dn" (query_pairs u)) ∧ address_tracker link = values "tr" (query_pairs u).
Proof.
  unfold MagnetLink_parse. destruct (url_parse s) as [u|]; [|done]. intros E. exists u. split; [done|].
  case_bool_decide as Hs; simplify_eq/=. split; [done|]. assert (query_pairs u ≠ []) as Hq by (intros Hq; by rewrite Hq in E).
  split; [done|]. destruct (gather_spec _ _ _ Hq E) as (l & [= <-] & G1 & G2 & G3). cbn in G1, G2, G3.
  unfold get_info_hash. rewrite G1, G2, G3. split; [by destruct (last (topics _)) as [[]|]|]. by destruct (last (values "dn" _)).
Qed.
End Links.

(** * The interfaces can be had *)

Definition b32_val (c : Z) : Z := if in_range 65 90 c then c - 65 else c - 24.
Definition b32_ungroup (l : bytes) : bytes :=
  let n := foldl (λ a c, a * 32 + b32_val c) 0 l in (λ i, (n / 256 ^ Z.of_nat (4 - i)) `mod` 256) <$> seq 0 5.

Lemma b32_val_digit n : 0 ≤ n < 32 → b32_val (b32_digit n) = n.
Proof.
  intros Hn. unfold b32_val, b32_digit, in_range. destruct (Z.ltb_spec n 26).
  - rewrite !(proj2 (Z.leb_le _ _)) by lia. cbn [andb]. lia.
  - rewrite (proj2 (Z.leb_gt 65 _)) by lia. cbn [andb]. lia.
Qed.

Lemma b32_value n : 0 ≤ n < 32 ^ 8 → foldl (λ a c, a * 32 + b32_val c) 0 ((λ i, b32_digit ((n / 32 ^ Z.of_nat (7 - i)) `mod` 32)) <$> seq 0 8) = n.
Proof.
  intros Hn. cbn -[Z.pow Z.div Z.modulo]. rewrite !b32_val_digit by (apply Z.mod_pos_bound; lia).
  change (32 ^ 8) with 1099511627776 in Hn.
  repeat match goal with |- context [32 ^ ?k] => let v := eval vm_compute in (32 ^ k) in change (32 ^ k) with v end.
  Z.to_euclidean_division_equations. lia.
Qed.

Lemma b32_ungroup_group l : are_u8 l → length l = 5%nat → b32_ungroup (b32_group l) = l.
Proof.
  intros Hl Hn. do 5 (destruct l as [|? l]; [done|]). destruct l; [|done]. repeat (apply Forall_cons in Hl as [? Hl]).
  unfold is_u8 in *. unfold b32_group, b32_ungroup. rewrite b32_value by (cbn [foldl]; lia). cbn [foldl].
  cbn -[Z.pow Z.div Z.modulo Z.mul Z.add].
  repeat match goal with |- context [256 ^ ?k] => let v := eval vm_compute in (256 ^ k) in change (256 ^ k) with v end.
  repeat f_equal; Z.to_euclidean_division_equations; lia.
Qed.

Lemma chunks_twenty (l : bytes) : length l = 20%nat → chunks 5 l = [take 5 l; take 5 (drop 5 l); take 5 (drop 10 l); drop 15 l].
Proof. intros Hl. do 20 (destruct l as [|? l]; [done|]). by destruct l. Qed.

Definition list_base32 (s : bytes) : option bytes := Some (chunks 8 s ≫= b32_ungroup).

Lemma b32_group_length l : length (b32_group l) = 8%nat.
Proof. done. Qed.

Lemma chunks_32 (a b c d : bytes) : length a = 8%nat → length b = 8%nat → length c = 8%nat → length d = 8%nat →
  chunks 8 (a ++ b ++ c ++ d) = [a; b; c; d].
Proof.
  intros Ha Hb Hc Hd. unfold chunks. rewrite !length_app, Ha, Hb, Hc, Hd. cbn [Nat.add chunks_fuel].
  destruct a as [|x a]; [done|]. cbn [app].
  change (x :: a ++ b ++ c ++ d) with ((x :: a) ++ b ++ c ++ d). rewrite take_app_length', drop_app_length' by done.
  destruct b as [|y b]; [done|]. cbn [app]. change (y :: b ++ c ++ d) with ((y :: b) ++ c ++ d). rewrite take_app_length', drop_app_length' by done.
  destruct c as [|z c]; [done|]. cbn [app]. change (z :: c ++ d) with ((z :: c) ++ d). rewrite take_app_length', drop_app_length' by done.
  destruct d as [|w d]; [done|]. rewrite take_ge, drop_ge by lia. done.
Qed.

Lemma list_base32_encode l : are_u8 l → length l = 20%nat → list_base32 (b32_encode l) = Some l.
Proof.
  intros Hu Hl. unfold list_base32, b32_encode. rewrite chunks_twenty by done. cbn [mbind list_bind]. rewrite app_nil_r.
  rewrite chunks_32 by done. cbn [mbind list_bind]. rewrite app_nil_r.
  rewrite !b32_ungroup_group; try (by repeat first [apply Forall_take | apply Forall_drop]);
    try (rewrite ?length_take, ?length_drop, ?Hl; done).
  f_equal. clear Hu. do 20 (destruct l as [|? l]; [done|]). by destruct l.
Qed.

#[export] Instance list_base32_crate : Base32 := {| base32_decode := list_base32; base32_decode_encode := list_base32_encode |}.

(** A URL that is its query alone, for the samples. *)
Definition pairs_url : UrlCrate :=
  {| url := list (bytes * bytes); url_parse s := Some [(bstr "xt", s); (bstr "tr", bstr "udp://t")]; url_scheme _ := bstr "magnet";
     query_pairs u := u |}.

Definition sample_topic_hash : ShaHash := {| hash := seqZ 100 20 |}.

Lemma topic_roundtrip_witness :
  Topic_parse (URN ++ hex (seqZ 100 20)) = Ok (Some (BitTorrentInfoHash sample_topic_hash)) ∧
  Topic_parse (URN ++ b32_encode (seqZ 100 20)) = Ok (Some (BitTorrentInfoHash sample_topic_hash)).
Proof. apply (topic_roundtrip sample_topic_hash eq_refl). repeat constructor; unfold is_u8; lia. Defined.

Definition straddling : bytes := URN ++ [97; 195; 169] ++ replicate 37 48.
Lemma topic_parse_panics_witness : utf8_valid straddling = true ∧ Topic_parse straddling = Panic IndexOutOfBounds.
Proof. split; [reflexivity|]. apply (topic_parse_panics straddling 169 eq_refl eq_refl eq_refl). lia. Defined.

Lemma magnet_link_witness : ∃ link, MagnetLink_parse (H0 := pairs_url) (URN ++ hex (seqZ 100 20)) = Ok (Some link) ∧
  get_info_hash link = Some sample_topic_hash ∧ address_tracker link = [bstr "udp://t"].
Proof.
  eexists. split; [vm_compute; reflexivity|].
  destruct (magnet_link_fields (H0 := pairs_url) (URN ++ hex (seqZ 100 20)) _ ltac:(vm_compute; reflexivity)) as (u & Hu & _ & _ & Hi & _ & Ht).
  injection Hu as <-. split; [etrans; [exact Hi|by vm_compute]|etrans; [exact Ht|by vm_compute]].
Defined.

(** A plus sign passes for a digit. *)
Example topic_accepts_plus : Topic_parse (URN ++ concat (replicate 20 (bstr "+a"))) = Ok (Some (BitTorrentInfoHash {| hash := replicate 20 10 |})).
Proof. by vm_compute. Qed.
