(* ===== verification/Reveal.v ===== *)
(** packages/select: peers, control messages and the honest piece revelation
    module (revelation/honest.rs), which tells connected peers of good pieces.

    The [bit_set] crate is an interface; a set of peers is a map from what
    identifies a peer to the peer first inserted. *)

From stdpp Require Import base numbers gmap strings list.
From S2P Require Import Prelude RustStd Extern Io Convert Sha Path Bencode Metainfo Handshake PeerStandard.

(** * Peers (peer/src/manager/peer_info.rs) *)

Record PeerInfo := { pi_addr : SocketAddr; pi_pid : bytes; pi_hash : ShaHash; pi_ext : Extensions }.

Definition PeerInfo_new (addr : SocketAddr) (pid : bytes) (h : ShaHash) (extensions : Extensions) : PeerInfo :=
  {| pi_addr := addr; pi_pid := pid; pi_hash := h; pi_ext := extensions |}.

(** [PartialEq] and [Hash]: the extensions do not count. *)
Abbreviation peer_key := (SocketAddr * list Z * ShaHash)%type.
Definition key_of (p : PeerInfo) : peer_key := (pi_addr p, pi_pid p, pi_hash p).
Definition PeerInfo_eq (p q : PeerInfo) : bool :=
  bool_decide (pi_addr p = pi_addr q) && bool_decide (pi_pid p = pi_pid q) && bool_decide (pi_hash p = pi_hash q).

(** [HashSet<PeerInfo>]: inserting a peer that is there keeps the old value. *)
Abbreviation peer_set := (gmap (SocketAddr * list Z * ShaHash) PeerInfo).
Definition peers_insert (p : PeerInfo) (s : peer_set) : peer_set :=
  match s !! key_of p with Some _ => s | None => <[key_of p := p]> s end.
Definition peers_remove (p : PeerInfo) (s : peer_set) : peer_set := delete (key_of p) s.

(** * Control messages (lib.rs); a duration is a number of nanoseconds *)

Inductive ControlMessage :=
  | CAddTorrent (m : Metainfo)
  | CRemoveTorrent (m : Metainfo)
  | CPeerConnected (p : PeerInfo)
  | CPeerDisconnected (p : PeerInfo)
  | CTick (d : Z).

(** * Messages and errors (revelation/mod.rs, revelation/error.rs) *)

Inductive IRevealMessage :=
  | RControl (c : ControlMessage)
  | RFoundGoodPiece (h : ShaHash) (index : Z)
  | RReceivedBitField (p : PeerInfo) (m : BitFieldMessage)
  | RReceivedHave (p : PeerInfo) (m : HaveMessage).

Inductive ORevealMessage := SendBitField (p : PeerInfo) (m : BitFieldMessage) | SendHave (p : PeerInfo) (m : HaveMessage).

Inductive RevealError :=
  | RE_InvalidMessage (info : PeerInfo) (message : bytes)
  | RE_InvalidMetainfoExists (h : ShaHash)
  | RE_InvalidMetainfoNotExists (h : ShaHash)
  | RE_InvalidPieceOutOfRange (h : ShaHash) (index : Z).

(** * The [bit_set] crate

    The storage is the raw bytes: the element [i] is the bit [i mod 8] of the
    byte [i / 8]; how many bytes there are is left open. *)

Class BitSet := {
  bitset : Type;
  bs_elements : bitset → gset nat;
  bs_default : bitset;
  bs_reserve_len_exact : nat → bitset → bitset;
  bs_insert : nat → bitset → bitset;
  bs_is_empty : bitset → bool;
  bs_storage : bitset → bytes;
  bs_default_elements : bs_elements bs_default = ∅;
  bs_reserve_elements n s : bs_elements (bs_reserve_len_exact n s) = bs_elements s;
  bs_insert_elements i s : bs_elements (bs_insert i s) = {[i]} ∪ bs_elements s;
  bs_is_empty_spec s : bs_is_empty s = true ↔ bs_elements s = ∅;
  bs_storage_bytes s : are_u8 (bs_storage s);
  bs_storage_bits s i : i ∈ bs_elements s ↔ Z.testbit (nth (i / 8) (bs_storage s) 0%Z) (Z.of_nat (i mod 8)) = true
}.

(** * The module (revelation/honest.rs) *)

(** [for _ in 0..8]: the loop over the bits of a byte. *)
Fixpoint reverse_loop (n : nat) (byte reversed_byte : Z) : Z :=
  match n with
  | O => reversed_byte
  | S n => reverse_loop n (Z.shiftr byte 1) (Z.lor (as_u8 (Z.shiftl reversed_byte 1)) (Z.land byte 1))
  end.
Definition insert_reversed_bits (out_bytes l : bytes) : bytes := out_bytes ++ ((λ byte, reverse_loop 8 byte 0) <$> l).

Section Honest.
Context `{HashOrder} `{BitSet}.

Record PeersInfo := { num_pieces : nat; status : bitset; ps_peers : peer_set }.

Record HonestRevealModule := {
  hr_torrents : gmap ShaHash PeersInfo;
  hr_out_queue : list ORevealMessage;
  hr_out_bytes : bytes;
  hr_opt_stream_waker : option nat
}.

(** [HonestRevealModuleBuilder::new().build()] *)
Definition HonestRevealModule_new : HonestRevealModule :=
  {| hr_torrents := ∅; hr_out_queue := []; hr_out_bytes := []; hr_opt_stream_waker := None |}.

Definition set_hr_torrents (t : gmap ShaHash PeersInfo) (self : HonestRevealModule) : HonestRevealModule :=
  {| hr_torrents := t; hr_out_queue := hr_out_queue self; hr_out_bytes := hr_out_bytes self;
     hr_opt_stream_waker := hr_opt_stream_waker self |}.

(** [push_back] and the call of the stored waker. *)
Definition push_reveal (m : ORevealMessage) (self : HonestRevealModule) : HonestRevealModule :=
  {| hr_torrents := hr_torrents self; hr_out_queue := hr_out_queue self ++ [m]; hr_out_bytes := hr_out_bytes self;
     hr_opt_stream_waker := None |}.

Definition reveal_result : Type := HonestRevealModule * res RevealError ().

Definition reveal_add_torrent (metainfo : Metainfo) (self : HonestRevealModule) : reveal_result :=
  let info_hash := i_info_hash (m_info metainfo) in
  match hr_torrents self !! info_hash with
  | Some _ => (self, Err (RE_InvalidMetainfoExists info_hash))
  | None =>
      let num_pieces := length (i_pieces (m_info metainfo)) in
      let piece_set := bs_reserve_len_exact num_pieces bs_default in
      let peers_info := {| num_pieces := num_pieces; status := piece_set; ps_peers := ∅ |} in
      (set_hr_torrents (<[info_hash := peers_info]> (hr_torrents self)) self, Ok ())
  end.

Definition reveal_remove_torrent (metainfo : Metainfo) (self : HonestRevealModule) : reveal_result :=
  let info_hash := i_info_hash (m_info metainfo) in
  match hr_torrents self !! info_hash with
  | None => (self, Err (RE_InvalidMetainfoNotExists info_hash))
  | Some _ => (set_hr_torrents (delete info_hash (hr_torrents self)) self, Ok ())
  end.

Definition reveal_add_peer (peer : PeerInfo) (self : HonestRevealModule) : reveal_result :=
  let info_hash := pi_hash peer in
  match hr_torrents self !! info_hash with
  | None => (self, Err (RE_InvalidMetainfoNotExists info_hash))
  | Some peers_info =>
      let peers_info := {| num_pieces := num_pieces peers_info; status := status peers_info;
                           ps_peers := peers_insert peer (ps_peers peers_info) |} in
      let self := set_hr_torrents (<[info_hash := peers_info]> (hr_torrents self)) self in
      if bs_is_empty (status peers_info) then (self, Ok ()) else
      let bitfield_bytes := insert_reversed_bits (hr_out_bytes self) (bs_storage (status peers_info)) in
      let self := {| hr_torrents := hr_torrents self; hr_out_queue := hr_out_queue self; hr_out_bytes := [];
                     hr_opt_stream_waker := hr_opt_stream_waker self |} in
      (push_reveal (SendBitField peer {| bf_bytes := bitfield_bytes |}) self, Ok ())
  end.

Definition reveal_remove_peer (peer : PeerInfo) (self : HonestRevealModule) : reveal_result :=
  let info_hash := pi_hash peer in
  match hr_torrents self !! info_hash with
  | None => (self, Err (RE_InvalidMetainfoNotExists info_hash))
  | Some peers_info =>
      let peers_info := {| num_pieces := num_pieces peers_info; status := status peers_info;
                           ps_peers := peers_remove peer (ps_peers peers_info) |} in
      (set_hr_torrents (<[info_hash := peers_info]> (hr_torrents self)) self, Ok ())
  end.

(** The loop over the peers; the index of a [HaveMessage] is a [u32]. *)
Fixpoint send_haves (index : Z) (peers : list PeerInfo) (self : HonestRevealModule) : reveal_result :=
  match peers with
  | [] => (self, Ok ())
  | peer :: peers =>
      if (u32_max <? index)%Z then (self, Panic UnwrapNone)
      else send_haves index peers (push_reveal (SendHave peer {| have_piece_index := index |}) self)
  end.

Definition insert_piece (h : ShaHash) (index : Z) (self : HonestRevealModule) : reveal_result :=
  match hr_torrents self !! h with
  | None => (self, Err (RE_InvalidMetainfoNotExists h))
  | Some peers_info =>
      if (Z.of_nat (num_pieces peers_info) <=? index)%Z then (self, Err (RE_InvalidPieceOutOfRange h index)) else
      match send_haves index (snd <$> hash_iter (ps_peers peers_info)) self with
      | (self, Ok _) =>
          let peers_info := {| num_pieces := num_pieces peers_info; status := bs_insert (Z.to_nat index) (status peers_info);
                               ps_peers := ps_peers peers_info |} in
          (set_hr_torrents (<[h := peers_info]> (hr_torrents self)) self, Ok ())
      | r => r
      end
  end.

Definition reveal_handle_message (message : IRevealMessage) (self : HonestRevealModule) : reveal_result :=
  match message with
  | RControl (CAddTorrent metainfo) => reveal_add_torrent metainfo self
  | RControl (CRemoveTorrent metainfo) => reveal_remove_torrent metainfo self
  | RControl (CPeerConnected info) => reveal_add_peer info self
  | RControl (CPeerDisconnected info) => reveal_remove_peer info self
  | RFoundGoodPiece h index => insert_piece h index self
  | RControl (CTick _) | RReceivedBitField _ _ | RReceivedHave _ _ => (self, Ok ())
  end.

(** [poll_next_message]: [None] for pending. *)
Definition poll_next_message (waker : nat) (self : HonestRevealModule) : HonestRevealModule * option ORevealMessage :=
  match hr_out_queue self with
  | message :: queue =>
      ({| hr_torrents := hr_torrents self; hr_out_queue := queue; hr_out_bytes := hr_out_bytes self;
          hr_opt_stream_waker := hr_opt_stream_waker self |}, Some message)
  | [] =>
      ({| hr_torrents := hr_torrents self; hr_out_queue := []; hr_out_bytes := hr_out_bytes self;
          hr_opt_stream_waker := Some waker |}, None)
  end.
End Honest.
