(* ===== verification/RevealProps.v ===== *)
(** The revelation module is honest and complete: what a peer is told is good,
    and a connected peer has been told of every good piece, in the bit field sent
    when it connected or in a have message since. *)

From stdpp Require Import base numbers gmap strings list.
From S2P Require Import Prelude RustStd Extern Io Convert Sha Path Bencode Metainfo Handshake PeerStandard Reveal.

(** * Reversed bits *)

Lemma reverse_table : forallb (λ b, forallb (λ j, Bool.eqb (Z.testbit (reverse_loop 8 b 0) (7 - j)) (Z.testbit b j)) (seqZ 0 8))
  (seqZ 0 256) = true.
Proof. by vm_compute. Qed.

Lemma reverse_bits b j : is_u8 b → (0 ≤ j < 8)%Z → Z.testbit (reverse_loop 8 b 0) (7 - j) = Z.testbit b j.
Proof.
  intros Hb Hj. unfold is_u8 in Hb. pose proof reverse_table as Ht. rewrite forallb_forall in Ht.
  specialize (Ht b). rewrite <- list_elem_of_In, elem_of_seqZ in Ht. specialize (Ht ltac:(lia)).
  rewrite forallb_forall in Ht. specialize (Ht j). rewrite <- list_elem_of_In, elem_of_seqZ in Ht. specialize (Ht ltac:(lia)).
  by apply Bool.eqb_prop in Ht.
Qed.

Section Honesty.
Context `{HashOrder} `{BitSet}.
Implicit Types (self : HonestRevealModule).

(** The bit field sent has the bits of the set. *)
Lemma reversed_has_piece s i : has_piece (insert_reversed_bits [] (bs_storage s)) i = true ↔ i ∈ bs_elements s.
Proof.
  rewrite bs_storage_bits. unfold has_piece, insert_reversed_bits. cbn [app].
  assert (nth (i / 8) ((λ byte, reverse_loop 8 byte 0) <$> bs_storage s) 0%Z = reverse_loop 8 (nth (i / 8) (bs_storage s) 0%Z) 0) as ->.
  { exact (map_nth (λ byte, reverse_loop 8 byte 0%Z) (bs_storage s) 0%Z (i / 8)). }
  pose proof (Nat.mod_upper_bound i 8 ltac:(done)). rewrite reverse_bits; [done| |lia].
  destruct (nth_in_or_default (i / 8) (bs_storage s) 0%Z) as [Hin| ->]; [|unfold is_u8; lia].
  apply list_elem_of_In in Hin. by apply (proj1 (Forall_forall _ _) (bs_storage_bytes s)).
Qed.

(** * What a message tells, and to whom *)

Definition tells (m : ORevealMessage) (k : peer_key) (i : nat) : Prop :=
  match m with
  | SendBitField p b => key_of p = k ∧ has_piece (bf_bytes b) i = true
  | SendHave p h => key_of p = k ∧ have_piece_index h = Z.of_nat i
  end.

(** The module, the messages handed out, the pieces accepted as good of the
    torrents it holds since each was added, the peers connected, each with the
    number of messages sent before it connected, and every piece ever accepted.
    All but the module is told by the messages given to it and their results. *)
Record world := {
  w_self : HonestRevealModule;
  w_polled : list ORevealMessage;
  w_good : gset (ShaHash * nat);
  w_conn : gmap (SocketAddr * list Z * ShaHash) nat;
  w_ever : gset (ShaHash * nat)
}.
Definition world_new : world := {| w_self := HonestRevealModule_new; w_polled := []; w_good := ∅; w_conn := ∅; w_ever := ∅ |}.

Definition sent (w : world) : list ORevealMessage := w_polled w ++ hr_out_queue (w_self w).

Inductive reveal_event := Send (m : IRevealMessage) | Poll (waker : nat).

(** What a message that the module took without an error means. *)
Definition taken (m : IRevealMessage) (w : world) : world :=
  let w_with good conn ever := {| w_self := w_self w; w_polled := w_polled w; w_good := good; w_conn := conn; w_ever := ever |} in
  match m with
  | RControl (CRemoveTorrent metainfo) =>
      let h := i_info_hash (m_info metainfo) in
      w_with (filter (λ x, x.1 ≠ h) (w_good w)) (filter (λ x, x.1.2 ≠ h) (w_conn w)) (w_ever w)
  | RControl (CPeerConnected p) => w_with (w_good w) (<[key_of p := length (sent w)]> (w_conn w)) (w_ever w)
  | RControl (CPeerDisconnected p) => w_with (w_good w) (delete (key_of p) (w_conn w)) (w_ever w)
  | RFoundGoodPiece h index => w_with ({[(h, Z.to_nat index)]} ∪ w_good w) (w_conn w) ({[(h, Z.to_nat index)]} ∪ w_ever w)
  | _ => w
  end.

Definition reveal_step (e : reveal_event) (w : world) : world :=
  match e with
  | Send m =>
      let '(self, r) := reveal_handle_message m (w_self w) in
      let w' := match r with Ok _ => taken m w | _ => w end in
      {| w_self := self; w_polled := w_polled w'; w_good := w_good w'; w_conn := w_conn w'; w_ever := w_ever w' |}
  | Poll waker =>
      let '(self, o) := poll_next_message waker (w_self w) in
      {| w_self := self; w_polled := w_polled w ++ option_list o; w_good := w_good w; w_conn := w_conn w; w_ever := w_ever w |}
  end.

(** The index of a piece is a [u64]. *)
Definition event_ok (e : reveal_event) : Prop := match e with Send (RFoundGoodPiece _ index) => (0 ≤ index)%Z | _ => True end.

(** A connected peer was told, since it connected, of exactly the good pieces of
    its torrent; and nobody was ever told of a piece that was not accepted. *)
Record honest (w : world) : Prop := {
  ho_told k n : w_conn w !! k = Some n → ∀ i, (∃ m, m ∈ drop n (sent w) ∧ tells m k i) ↔ (k.2, i) ∈ w_good w;
  ho_sent m k i : m ∈ sent w → tells m k i → (k.2, i) ∈ w_ever w
}.

(** The state of the module agrees with what it was told. *)
Record reveal_inv (w : world) : Prop := {
  ri_status h info i : hr_torrents (w_self w) !! h = Some info → i ∈ bs_elements (status info) ↔ (h, i) ∈ w_good w;
  ri_held h i : (h, i) ∈ w_good w → is_Some (hr_torrents (w_self w) !! h);
  ri_peers h info k : hr_torrents (w_self w) !! h = Some info → is_Some (ps_peers info !! k) ↔ is_Some (w_conn w !! k) ∧ k.2 = h;
  ri_key h info k p : hr_torrents (w_self w) !! h = Some info → ps_peers info !! k = Some p → k = key_of p ∧ pi_hash p = h;
  ri_conn k n : w_conn w !! k = Some n → is_Some (hr_torrents (w_self w) !! k.2) ∧ n ≤ length (sent w);
  ri_ever : w_good w ⊆ w_ever w;
  ri_buffer : hr_out_bytes (w_self w) = [];
  ri_honest : honest w
}.

Lemma send_haves_spec index peers self : (index ≤ u32_max)%Z → ∃ self', send_haves index peers self = (self', Ok ()) ∧
  hr_torrents self' = hr_torrents self ∧ hr_out_bytes self' = hr_out_bytes self ∧
  hr_out_queue self' = hr_out_queue self ++ ((λ p, SendHave p {| have_piece_index := index |}) <$> peers).
Proof.
  intros Hi. revert self. induction peers as [|p peers IH]; intros self; [exists self; by rewrite app_nil_r|]. cbn [send_haves].
  rewrite (proj2 (Z.ltb_ge _ _)) by done. destruct (IH (push_reveal (SendHave p {| have_piece_index := index |}) self)) as (s' & E & T & B & Q).
  exists s'. split; [done|]. split; [done|]. split; [done|]. rewrite Q. cbn. by rewrite <- app_assoc.
Qed.

Lemma send_haves_panics index peers self : (u32_max < index)%Z →
  send_haves index peers self = (self, match peers with [] => Ok () | _ => Panic UnwrapNone end).
Proof. intros Hi. destruct peers as [|p peers]; [done|]. cbn [send_haves]. by rewrite (proj2 (Z.ltb_lt _ _)). Qed.

Lemma peers_insert_lookup (p : PeerInfo) (s : peer_set) (k : peer_key) (q : PeerInfo) : peers_insert p s !! k = Some q → s !! k = Some q ∨ (k = key_of p ∧ q = p).
Proof.
  unfold peers_insert. destruct (s !! key_of p) as [o|]; [by left|]. destruct (decide (key_of p = k)) as [<-|Hne].
  - rewrite lookup_insert_eq. intros [= <-]. by right.
  - rewrite lookup_insert_ne by done. by left.
Qed.

Lemma peers_insert_is_Some (p : PeerInfo) (s : peer_set) k : is_Some (peers_insert p s !! k) ↔ is_Some (s !! k) ∨ k = key_of p.
Proof.
  unfold peers_insert. destruct (s !! key_of p) as [o|] eqn:E; [split; [by left|]; intros [?| ->]; [done|by rewrite E]|].
  rewrite lookup_insert_is_Some'. split; intros [?|?]; auto.
Qed.

(** Messages are only added: what the peers already connected are told grows by
    what the new messages tell. *)
Lemma honest_grow (w w' : world) new : sent w' = sent w ++ new → w_ever w ⊆ w_ever w' →
  (∀ k n, w_conn w !! k = Some n → n ≤ length (sent w)) → honest w →
  (∀ m k i, m ∈ new → tells m k i → (k.2, i) ∈ w_ever w') →
  (∀ k n, w_conn w' !! k = Some n →
     (w_conn w !! k = Some n ∧ ∀ i, (k.2, i) ∈ w_good w' ↔ (k.2, i) ∈ w_good w ∨ ∃ m, m ∈ new ∧ tells m k i) ∨
     (n = length (sent w) ∧ ∀ i, (k.2, i) ∈ w_good w' ↔ ∃ m, m ∈ new ∧ tells m k i)) →
  honest w'.
Proof.
  intros Es He Hn [H1 H2] Hnew Hk. split.
  - intros k n Hc i. rewrite Es. destruct (Hk k n Hc) as [[Hc0 Hi]|[-> Hi]].
    + rewrite Hi, <- (H1 k n Hc0 i), drop_app_le by (by eapply Hn). setoid_rewrite elem_of_app. naive_solver.
    + by rewrite drop_app_length, Hi.
  - intros m k i. rewrite Es. intros [Hm|Hm]%elem_of_app Ht; [apply He; by eapply H2|by eapply Hnew].
Qed.

Lemma reveal_inv_same w w' : hr_torrents (w_self w') = hr_torrents (w_self w) → hr_out_bytes (w_self w') = hr_out_bytes (w_self w) →
  sent w' = sent w → w_good w' = w_good w → w_conn w' = w_conn w → w_ever w' = w_ever w → reveal_inv w → reveal_inv w'.
Proof.
  intros E1 E2 E3 E4 E5 E6 [H1 H2 H3 H4 H5 H6 H7 [H8 H9]].
  split; rewrite ?E1, ?E2, ?E3, ?E4, ?E5, ?E6; try done. split; rewrite ?E1, ?E2, ?E3, ?E4, ?E5, ?E6; done.
Qed.

Lemma reveal_add_torrent_inv metainfo w : reveal_inv w → reveal_inv (reveal_step (Send (RControl (CAddTorrent metainfo))) w).
Proof.
  intros Hw. cbn. unfold reveal_add_torrent. set (h := i_info_hash _). destruct (hr_torrents (w_self w) !! h) as [held|] eqn:Et; [by destruct w|].
  assert (∀ i, (h, i) ∉ w_good w) as Hno by (intros i [? E]%(ri_held w Hw); congruence).
  assert (∀ k, k.2 = h → w_conn w !! k = None) as Hnc.
  { intros k <-. destruct (w_conn w !! k) as [n|] eqn:E; [|done]. destruct (ri_conn w Hw _ _ E) as [[? E'] _]. congruence. }
  split; cbn [w_self w_good w_conn w_ever set_hr_torrents hr_torrents hr_out_bytes]; try apply Hw.
  - intros h' info i. destruct (decide (h = h')) as [<-|Hne]; [|rewrite lookup_insert_ne by done; by apply Hw].
    rewrite lookup_insert_eq. intros [= <-]. cbn [status]. rewrite bs_reserve_elements, bs_default_elements. split; [set_solver|]. by intros ?%Hno.
  - intros h' i Hi. apply lookup_insert_is_Some'. right. by apply Hw in Hi.
  - intros h' info k. destruct (decide (h = h')) as [<-|Hne]; [|rewrite lookup_insert_ne by done; by apply Hw].
    rewrite lookup_insert_eq. intros [= <-]. cbn [ps_peers]. rewrite lookup_empty. split; [by intros []|]. intros [[n Hn] Hk]. by rewrite Hnc in Hn.
  - intros h' info k p. destruct (decide (h = h')) as [<-|Hne]; [|rewrite lookup_insert_ne by done; by apply Hw].
    rewrite lookup_insert_eq. intros [= <-]. cbn [ps_peers]. by rewrite lookup_empty.
  - intros k n Hk. apply (ri_conn w Hw) in Hk as [? ?]. split; [|done]. apply lookup_insert_is_Some'. by right.
  - destruct (ri_honest w Hw). by split.
Qed.

Lemma reveal_remove_torrent_inv metainfo w : reveal_inv w → reveal_inv (reveal_step (Send (RControl (CRemoveTorrent metainfo))) w).
Proof.
  intros Hw. cbn. unfold reveal_remove_torrent. set (h := i_info_hash _). destruct (hr_torrents (w_self w) !! h) as [held|] eqn:Et; [|by destruct w].
  assert (Hg : ∀ h' i, (h', i) ∈ filter (λ x, x.1 ≠ h) (w_good w) ↔ h' ≠ h ∧ (h', i) ∈ w_good w) by (intros; by rewrite elem_of_filter).
  assert (Hc : ∀ (k : peer_key) n, filter (λ x, x.1.2 ≠ h) (w_conn w) !! k = Some n ↔ w_conn w !! k = Some n ∧ k.2 ≠ h)
    by (intros; by rewrite map_lookup_filter_Some).
  split; cbn [w_self w_good w_conn w_ever set_hr_torrents hr_torrents hr_out_bytes]; try apply Hw.
  - intros h' info i [Hne Hi]%lookup_delete_Some. rewrite Hg, (ri_status w Hw h' info i Hi). naive_solver.
  - intros h' i [Hne Hi]%Hg. rewrite lookup_delete_ne by done. by apply Hw in Hi.
  - intros h' info k [Hne Hi]%lookup_delete_Some. rewrite (ri_peers w Hw h' info k Hi). unfold is_Some. setoid_rewrite Hc. naive_solver.
  - intros h' info k p [Hne Hi]%lookup_delete_Some. by apply Hw.
  - intros k n [Hk Hne]%Hc. rewrite lookup_delete_ne by done. by apply Hw in Hk.
  - intros [h' i] [_ Hi]%Hg. by apply Hw.
  - destruct (ri_honest w Hw) as [H1 H2]. split; [|done]. cbn [w_conn w_good]. intros k n [Hk Hne]%Hc i. rewrite Hg.
    unfold sent in *. cbn. rewrite (H1 k n Hk i). naive_solver.
Qed.

(** The bit field sent to a peer that connects tells it of the set. *)
Lemma bitfield_tells p s k i : tells (SendBitField p {| bf_bytes := insert_reversed_bits [] (bs_storage s) |}) k i ↔
  key_of p = k ∧ i ∈ bs_elements s.
Proof. cbn [tells bf_bytes]. by rewrite reversed_has_piece. Qed.

Definition greeting (p : PeerInfo) (info : PeersInfo) : list ORevealMessage :=
  if bs_is_empty (status info) then [] else [SendBitField p {| bf_bytes := insert_reversed_bits [] (bs_storage (status info)) |}].

Lemma greeting_tells p info k i : (∃ m, m ∈ greeting p info ∧ tells m k i) ↔ key_of p = k ∧ i ∈ bs_elements (status info).
Proof.
  unfold greeting. destruct (bs_is_empty (status info)) eqn:Ee.
  - apply bs_is_empty_spec in Ee. rewrite Ee. split; [by intros (m & ?%not_elem_of_nil & _)|set_solver].
  - rewrite <- bitfield_tells. setoid_rewrite list_elem_of_singleton. naive_solver.
Qed.

Lemma add_peer_step p w info : reveal_inv w → hr_torrents (w_self w) !! pi_hash p = Some info →
  let w' := reveal_step (Send (RControl (CPeerConnected p))) w in
  hr_torrents (w_self w') = <[pi_hash p := {| num_pieces := num_pieces info; status := status info; ps_peers := peers_insert p (ps_peers info) |}]>
    (hr_torrents (w_self w)) ∧
  hr_out_bytes (w_self w') = [] ∧ sent w' = sent w ++ greeting p info ∧ w_good w' = w_good w ∧ w_ever w' = w_ever w ∧
  w_conn w' = <[key_of p := length (sent w)]> (w_conn w).
Proof.
  intros Hw Ei. cbn. unfold reveal_add_peer, sent, greeting. rewrite Ei. cbn. rewrite (ri_buffer w Hw).
  destruct (bs_is_empty (status info)); cbn; rewrite ?app_nil_r, ?app_assoc; split_and!; try done. by apply Hw.
Qed.

Lemma reveal_add_peer_inv p w : reveal_inv w → reveal_inv (reveal_step (Send (RControl (CPeerConnected p))) w).
Proof.
  intros Hw. destruct (hr_torrents (w_self w) !! pi_hash p) as [info|] eqn:Ei; [|cbn; unfold reveal_add_peer; rewrite Ei; by destruct w].
  destruct (add_peer_step p w info Hw Ei) as (Et & Eb & Es & Eg & Ee & Ec). set (w' := reveal_step _ w) in *. clearbody w'.
  assert (Hlen : length (sent w) ≤ length (sent w')) by (rewrite Es, length_app; lia).
  split; rewrite ?Et, ?Eb, ?Eg, ?Ee, ?Ec; try apply Hw; try done.
  - intros h info' i. destruct (decide (pi_hash p = h)) as [<-|Hne]; [|rewrite lookup_insert_ne by done; by apply Hw].
    rewrite lookup_insert_eq. intros [= <-]. exact (ri_status w Hw _ info i Ei).
  - intros h i Hi. apply lookup_insert_is_Some'. right. by apply Hw in Hi.
  - intros h info' k. destruct (decide (pi_hash p = h)) as [<-|Hne].
    + rewrite lookup_insert_eq. intros [= <-]. cbn [ps_peers]. rewrite peers_insert_is_Some, (ri_peers w Hw _ info k Ei), lookup_insert_is_Some'.
      naive_solver.
    + rewrite lookup_insert_ne by done. intros Hi. rewrite (ri_peers w Hw _ _ k Hi), lookup_insert_is_Some'. naive_solver.
  - intros h info' k q. destruct (decide (pi_hash p = h)) as [<-|Hne]; [|rewrite lookup_insert_ne by done; by apply Hw].
    rewrite lookup_insert_eq. intros [= <-]. cbn [ps_peers]. intros [Hq|[-> ->]]%peers_insert_lookup; [by eapply (ri_key w Hw)|done].
  - intros k n Hk. split.
    + apply lookup_insert_is_Some'. apply lookup_insert_Some in Hk as [[<- _]|[_ Hk]]; [by left|right]. by apply Hw in Hk as [? _].
    + apply lookup_insert_Some in Hk as [[_ <-]|[_ Hk]]; [done|]. apply Hw in Hk as [_ ?]. lia.
  - apply (honest_grow w w' (greeting p info)); [done|by rewrite Ee|intros k n Hk; by apply Hw in Hk as [_ ?]|by apply Hw| |].
    + intros m k i Hm Ht. rewrite Ee. apply (ri_ever w Hw). assert (∃ m, m ∈ greeting p info ∧ tells m k i) as [<- Hi]%greeting_tells by eauto.
      by apply (ri_status w Hw _ info).
    + intros k n. rewrite Ec, Eg. intros [[<- <-]|[Hne Hk]]%lookup_insert_Some; [right|left]; (split; [done|]); intros i; rewrite greeting_tells.
      * rewrite (ri_status w Hw _ info i Ei). naive_solver.
      * naive_solver.
Qed.

Lemma reveal_remove_peer_inv p w : reveal_inv w → reveal_inv (reveal_step (Send (RControl (CPeerDisconnected p))) w).
Proof.
  intros Hw. cbn. unfold reveal_remove_peer. destruct (hr_torrents (w_self w) !! pi_hash p) as [info|] eqn:Ei; [|by destruct w].
  split; cbn [w_self w_good w_conn w_ever set_hr_torrents hr_torrents hr_out_bytes]; try apply Hw.
  - intros h info' i. destruct (decide (pi_hash p = h)) as [<-|Hne]; [|rewrite lookup_insert_ne by done; by apply Hw].
    rewrite lookup_insert_eq. intros [= <-]. exact (ri_status w Hw _ info i Ei).
  - intros h i Hi. apply lookup_insert_is_Some'. right. by apply Hw in Hi.
  - intros h info' k. destruct (decide (pi_hash p = h)) as [<-|Hne].
    + rewrite lookup_insert_eq. intros [= <-]. cbn [ps_peers]. unfold peers_remove. rewrite !lookup_delete_is_Some, (ri_peers w Hw _ info k Ei). naive_solver.
    + rewrite lookup_insert_ne by done. intros Hi. rewrite (ri_peers w Hw _ _ k Hi), lookup_delete_is_Some. naive_solver.
  - intros h info' k q. destruct (decide (pi_hash p = h)) as [<-|Hne]; [|rewrite lookup_insert_ne by done; by apply Hw].
    rewrite lookup_insert_eq. intros [= <-]. cbn [ps_peers]. unfold peers_remove. intros [_ Hq]%lookup_delete_Some. by eapply (ri_key w Hw).
  - intros k n [_ Hk]%lookup_delete_Some. apply Hw in Hk as [? ?]. split; [|done]. apply lookup_insert_is_Some'. by right.
  - destruct (ri_honest w Hw) as [H1 H2]. split; [|done]. cbn [w_conn w_good]. intros k n [_ Hk]%lookup_delete_Some. by apply (H1 k n Hk).
Qed.

(** A piece that is accepted: the peers of the torrent are sent a have message
    each and the piece goes into the set. *)
Definition haves (index : Z) (info : PeersInfo) : list ORevealMessage :=
  (λ p, SendHave p {| have_piece_index := index |}) <$> (snd <$> hash_iter (ps_peers info)).

Lemma haves_tell h index info k i w : reveal_inv w → hr_torrents (w_self w) !! h = Some info → (0 ≤ index)%Z →
  (∃ m, m ∈ haves index info ∧ tells m k i) ↔ is_Some (ps_peers info !! k) ∧ i = Z.to_nat index.
Proof.
  intros Hw Ei Hx. unfold haves. split.
  - intros (m & (p & -> & ([k' p'] & -> & Hp)%list_elem_of_fmap)%list_elem_of_fmap & [Hk Hi]). cbn in Hk, Hi.
    rewrite hash_iter_perm in Hp. apply elem_of_map_to_list in Hp. destruct (ri_key w Hw h info k' p' Ei Hp) as [-> _]. rewrite <- Hk. split; [eauto|lia].
  - intros [[p Hp] ->]. exists (SendHave p {| have_piece_index := index |}). split.
    + apply list_elem_of_fmap. exists p. split; [done|]. apply list_elem_of_fmap. exists (k, p). split; [done|]. rewrite hash_iter_perm. by apply elem_of_map_to_list.
    + destruct (ri_key w Hw h info k p Ei Hp) as [-> _]. split; [done|]. cbn. lia.
Qed.

Lemma insert_piece_step h index w : reveal_inv w →
  let w' := reveal_step (Send (RFoundGoodPiece h index)) w in
  w' = w ∨ ∃ info, hr_torrents (w_self w) !! h = Some info ∧
    hr_torrents (w_self w') = <[h := {| num_pieces := num_pieces info; status := bs_insert (Z.to_nat index) (status info); ps_peers := ps_peers info |}]>
      (hr_torrents (w_self w)) ∧
    hr_out_bytes (w_self w') = [] ∧ sent w' = sent w ++ haves index info ∧ w_good w' = {[(h, Z.to_nat index)]} ∪ w_good w ∧
    w_ever w' = {[(h, Z.to_nat index)]} ∪ w_ever w ∧ w_conn w' = w_conn w.
Proof.
  intros Hw. cbn [reveal_step reveal_handle_message]. unfold insert_piece.
  destruct (hr_torrents (w_self w) !! h) as [info|] eqn:Ei; [|left; by destruct w].
  destruct (Z.leb_spec (Z.of_nat (num_pieces info)) index); [left; by destruct w|]. unfold sent, haves.
  destruct (Z.le_gt_cases index u32_max) as [Hle|Hgt].
  - right. exists info. destruct (send_haves_spec index (snd <$> hash_iter (ps_peers info)) (w_self w) Hle) as (self' & -> & E1 & E2 & E3).
    cbn. rewrite E1, E2, E3, (ri_buffer w Hw), app_assoc. by split_and!.
  - rewrite send_haves_panics by lia. destruct (snd <$> hash_iter (ps_peers info)) as [|q peers] eqn:Ep; [right|left; by destruct w].
    exists info. rewrite Ep. cbn. rewrite !app_nil_r, (ri_buffer w Hw). by split_and!.
Qed.

Lemma reveal_insert_piece_inv h index w : (0 ≤ index)%Z → reveal_inv w → reveal_inv (reveal_step (Send (RFoundGoodPiece h index)) w).
Proof.
  intros Hx Hw. destruct (insert_piece_step h index w Hw) as [->|(info & Ei & Et & Eb & Es & Eg & Ee & Ec)]; [done|].
  set (w' := reveal_step _ w) in *. clearbody w'. pose proof (λ k i, haves_tell h index info k i w Hw Ei Hx) as Ht.
  assert (Hlen : length (sent w) ≤ length (sent w')) by (rewrite Es, length_app; lia).
  split; rewrite ?Et, ?Eb, ?Eg, ?Ee, ?Ec; try done.
  - intros h' info' i. rewrite elem_of_union, elem_of_singleton. destruct (decide (h = h')) as [<-|Hne].
    + rewrite lookup_insert_eq. intros [= <-]. cbn [status]. rewrite bs_insert_elements, elem_of_union, elem_of_singleton, (ri_status w Hw h info i Ei).
      naive_solver.
    + rewrite lookup_insert_ne by done. intros Hi. rewrite (ri_status w Hw h' info' i Hi). naive_solver.
  - intros h' i. rewrite elem_of_union, elem_of_singleton, lookup_insert_is_Some'. intros [[= -> _]|Hi]; [by left|right]. by apply Hw in Hi.
  - intros h' info' k. destruct (decide (h = h')) as [<-|Hne]; [|rewrite lookup_insert_ne by done; by apply Hw].
    rewrite lookup_insert_eq. intros [= <-]. exact (ri_peers w Hw _ info k Ei).
  - intros h' info' k q. destruct (decide (h = h')) as [<-|Hne]; [|rewrite lookup_insert_ne by done; by apply Hw].
    rewrite lookup_insert_eq. intros [= <-]. exact (ri_key w Hw _ info k q Ei).
  - intros k n Hk. apply Hw in Hk as [? ?]. split; [apply lookup_insert_is_Some'; by right|lia].
  - pose proof (ri_ever w Hw). set_solver.
  - apply (honest_grow w w' (haves index info)); [done|rewrite Ee; set_solver|intros k n Hk; by apply Hw in Hk as [_ ?]|by apply Hw| |].
    + intros m k i Hm Htl. rewrite Ee. assert (∃ m, m ∈ haves index info ∧ tells m k i) as [Hk ->]%Ht by eauto.
      apply (ri_peers w Hw h info k Ei) in Hk as [_ ->]. set_solver.
    + intros k n. rewrite Ec, Eg. intros Hk. left. split; [done|]. intros i. rewrite Ht, (ri_peers w Hw h info k Ei), elem_of_union, elem_of_singleton.
      assert (is_Some (w_conn w !! k)) by eauto. naive_solver.
Qed.

Lemma reveal_step_inv e w : event_ok e → reveal_inv w → reveal_inv (reveal_step e w).
Proof.
  intros He Hw. destruct e as [[[m|m|p|p|d]|h index|p m|p m]|waker].
  - by apply reveal_add_torrent_inv.
  - by apply reveal_remove_torrent_inv.
  - by apply reveal_add_peer_inv.
  - by apply reveal_remove_peer_inv.
  - by destruct w.
  - by apply reveal_insert_piece_inv.
  - by destruct w.
  - by destruct w.
  - apply (reveal_inv_same w); [..|done]; cbn [reveal_step]; unfold poll_next_message, sent;
      destruct (hr_out_queue (w_self w)) as [|m queue] eqn:Eq; cbn; rewrite ?Eq, ?app_nil_r; try done. by rewrite <- app_assoc.
Qed.

Lemma reveal_inv_new : reveal_inv world_new.
Proof. split; try done. split; [done|]. by intros m k i ?%not_elem_of_nil. Qed.

(** Claim C24. After any sequence of messages and polls, a connected peer has
    been told since it connected, in the bit field or in have messages, the queue
    included, of exactly the pieces of its torrent that were accepted as good
    since the torrent was added, before or after it connected; and nobody was
    ever told of a piece that was not accepted as good for its torrent. *)
Theorem reveal_honest es : Forall event_ok es → honest (foldl (λ w e, reveal_step e w) world_new es).
Proof.
  intros He. apply ri_honest. assert (∀ w, reveal_inv w → reveal_inv (foldl (λ w e, reveal_step e w) w es)) as Hr; [|apply Hr, reveal_inv_new].
  induction He as [|e es He _ IH]; intros w Hw; [done|]. cbn [foldl]. by apply IH, reveal_step_inv.
Qed.
End Honesty.

(** * A bit set as its raw bytes *)

Definition raw_elements (l : bytes) : gset nat :=
  list_to_set (filter (λ i, Z.testbit (nth (i / 8) l 0%Z) (Z.of_nat (i mod 8)) = true) (seq 0 (8 * length l))).

Lemma raw_elements_spec l i : i ∈ raw_elements l ↔ Z.testbit (nth (i / 8) l 0%Z) (Z.of_nat (i mod 8)) = true.
Proof.
  unfold raw_elements. rewrite elem_of_list_to_set, list_elem_of_filter, elem_of_seq. split; [by intros [? _]|]. intros Hb. split; [done|].
  destruct (decide (i < 8 * length l)) as [|Hge]; [lia|]. rewrite nth_overflow in Hb by (apply Nat.div_le_lower_bound; lia).
  by rewrite Z.bits_0 in Hb.
Qed.

Definition raw_insert (i : nat) (l : bytes) : bytes :=
  alter (λ b, Z.setbit b (Z.of_nat (i mod 8))) (i / 8) (l ++ replicate (i / 8 + 1 - length l) 0%Z).

Lemma set_bit_table : forallb (λ b, forallb (λ j, (0 <=? Z.setbit b j)%Z && (Z.setbit b j <? 256)%Z) (seqZ 0 8)) (seqZ 0 256) = true.
Proof. by vm_compute. Qed.

Lemma set_bit_u8 b j : is_u8 b → (0 ≤ j < 8)%Z → is_u8 (Z.setbit b j).
Proof.
  intros Hb Hj. unfold is_u8 in *. pose proof set_bit_table as Ht. rewrite forallb_forall in Ht.
  specialize (Ht b). rewrite <- list_elem_of_In, elem_of_seqZ in Ht. specialize (Ht ltac:(lia)).
  rewrite forallb_forall in Ht. specialize (Ht j). rewrite <- list_elem_of_In, elem_of_seqZ in Ht. specialize (Ht ltac:(lia)).
  bool_arith. lia.
Qed.

Lemma raw_insert_u8 i l : are_u8 l → are_u8 (raw_insert i l).
Proof.
  intros Hl. unfold raw_insert. pose proof (Nat.mod_upper_bound i 8 ltac:(done)). apply Forall_alter.
  - apply are_u8_app. split; [done|]. apply Forall_replicate. unfold is_u8. lia.
  - intros b _ Hb. apply set_bit_u8; [done|lia].
Qed.

Lemma raw_insert_elements i l : raw_elements (raw_insert i l) = {[i]} ∪ raw_elements l.
Proof.
  apply set_eq. intros j. rewrite elem_of_union, elem_of_singleton, !raw_elements_spec. unfold raw_insert.
  pose proof (Nat.mod_upper_bound i 8 ltac:(done)). pose proof (Nat.mod_upper_bound j 8 ltac:(done)).
  pose proof (Nat.div_mod_eq i 8). pose proof (Nat.div_mod_eq j 8).
  set (l' := l ++ replicate (i / 8 + 1 - length l) 0%Z).
  assert (∀ k, nth k l' 0%Z = nth k l 0%Z) as Hext.
  { intros k. unfold l'. destruct (decide (k < length l)); [by rewrite app_nth1|]. rewrite app_nth2 by lia.
    rewrite (nth_overflow l) by lia. destruct (nth_in_or_default (k - length l) (replicate (i / 8 + 1 - length l) 0%Z) 0%Z) as [Hin| ->]; [|done].
    apply list_elem_of_In, elem_of_replicate in Hin. tauto. }
  rewrite <- (Hext (j / 8)). rewrite !nth_lookup. destruct (decide (i / 8 = j / 8)) as [E|Hne].
  - rewrite <- E, list_lookup_alter_eq. destruct (l' !! (i / 8)) as [b|] eqn:Eb.
    + cbn [fmap option_fmap option_map default from_option id]. rewrite Z.setbit_eqb by lia. rewrite orb_true_iff, Z.eqb_eq. split; intros [Hb|Hb]; [left|by right|left|by right].
      * apply Nat2Z.inj in Hb. lia.
      * by rewrite Hb.
    + apply lookup_ge_None in Eb. unfold l' in Eb. rewrite length_app, length_replicate in Eb. lia.
  - rewrite list_lookup_alter_ne by done. split; [by right|]. intros [->|Hb]; [done|done].
Qed.

#[export] Program Instance raw_bitset : BitSet := {
  bitset := { l : bytes | are_u8 l };
  bs_elements s := raw_elements (`s);
  bs_default := [] ↾ Forall_nil_2 _;
  bs_reserve_len_exact _ s := s;
  bs_insert i s := raw_insert i (`s) ↾ raw_insert_u8 i (`s) (proj2_sig s);
  bs_is_empty s := bool_decide (raw_elements (`s) = ∅);
  bs_storage s := `s
}.
Next Obligation. done. Qed.
Next Obligation. done. Qed.
Next Obligation. intros i s. apply raw_insert_elements. Qed.
Next Obligation. intros s. apply bool_decide_eq_true. Qed.
Next Obligation. intros s. apply (proj2_sig s). Qed.
Next Obligation. intros s i. apply raw_elements_spec. Qed.

(** Two peers, one before and one after a good piece. *)
Definition sample_reveal : list reveal_event :=
  let info := {| i_info_hash := {| hash := [1%Z] |}; i_files := []; i_pieces := [[]; []; []]; i_piece_len := 1; i_is_private := None;
                 i_file_directory := None |} in
  let peer n := PeerInfo_new default_route_v4 [n] {| hash := [1%Z] |} {| ext_bytes := [] |} in
  [Send (RControl (CAddTorrent (Metainfo_from info))); Send (RControl (CPeerConnected (peer 1%Z)));
   Send (RFoundGoodPiece {| hash := [1%Z] |} 2); Send (RControl (CPeerConnected (peer 2%Z))); Poll 0].

Lemma reveal_honest_witness :
  honest (foldl (λ w e, reveal_step (H := hash_order_lists) e w) world_new sample_reveal) ∧
  sent (foldl (λ w e, reveal_step (H := hash_order_lists) e w) world_new sample_reveal) =
    [SendHave (PeerInfo_new default_route_v4 [1%Z] {| hash := [1%Z] |} {| ext_bytes := [] |}) {| have_piece_index := 2 |};
     SendBitField (PeerInfo_new default_route_v4 [2%Z] {| hash := [1%Z] |} {| ext_bytes := [] |}) {| bf_bytes := [32%Z] |}].
Proof.
  split; [apply (reveal_honest (H := hash_order_lists)); repeat constructor; cbn; lia|]. vm_compute. reflexivity.
Defined.
