(* ===== verification/UtModule.v ===== *)
(** packages/select: the extended peer information (extended/mod.rs) and the
    discovery module that downloads and serves torrent metadata
    (discovery/ut_metadata.rs).

    A function that can panic gives the module or the panic.  The schedule of
    [Info::to_bytes] and the number drawn by [random_range] are arguments; a
    duration is a number of nanoseconds. *)

From stdpp Require Import base numbers gmap strings list.
From S2P Require Import Prelude RustStd Extern Io Convert Sha Path Bencode Metainfo Float Hasher MetaBuild Handshake PeerStandard PeerExtended Reveal.

(** * Extended peer information (extended/mod.rs) *)

Record ExtendedPeerInfo := { ei_ours : option ExtendedMessage; ei_theirs : option ExtendedMessage }.

Definition ExtendedPeerInfo_new (ours theirs : option ExtendedMessage) : ExtendedPeerInfo := {| ei_ours := ours; ei_theirs := theirs |}.
Definition update_ours (message : ExtendedMessage) (self : ExtendedPeerInfo) : ExtendedPeerInfo :=
  {| ei_ours := Some message; ei_theirs := ei_theirs self |}.
Definition update_theirs (message : ExtendedMessage) (self : ExtendedPeerInfo) : ExtendedPeerInfo :=
  {| ei_ours := ei_ours self; ei_theirs := Some message |}.

(** * Messages and errors (discovery/mod.rs, discovery/error.rs) *)

Inductive IDiscoveryMessage :=
  | DControl (c : ControlMessage)
  | DownloadMetainfo (h : ShaHash)
  | ReceivedUtMetadataMessage (p : PeerInfo) (m : UtMetadataMessage).

Inductive ODiscoveryMessage :=
  | SendDhtAnnounce (h : ShaHash)
  | SendUtMetadataMessage (p : PeerInfo) (m : UtMetadataMessage)
  | DownloadedMetainfo (m : Metainfo).

Inductive DiscoveryError :=
  | DE_InvalidMessage (info : PeerInfo) (message : bytes)
  | DE_InvalidMetainfoExists (h : ShaHash)
  | DE_InvalidMetainfoNotExists (h : ShaHash).

(** * The module (discovery/ut_metadata.rs) *)

Definition REQUEST_TIMEOUT_MILLIS : Z := 2000.
Definition MAX_REQUEST_SIZE : nat := 16 * 1024.
Definition MAX_ACTIVE_REQUESTS : nat := 100.
Definition MAX_PEER_REQUESTS : nat := 100.

Record PendingInfo := { pn_messages : list UtMetadataRequestMessage; pn_left : nat; pn_bytes : bytes }.
Record ActiveRequest := { ar_left : Z; ar_message : UtMetadataRequestMessage; ar_sent_to : PeerInfo }.
Record PeerRequest := { pr_send_to : PeerInfo; pr_request : UtMetadataRequestMessage }.
Record ActivePeers := { ap_peers : peer_set; ap_metadata_size : Z }.

Record UtMetadataModule := {
  um_completed_map : gmap ShaHash (list Z);
  um_pending_map : gmap ShaHash (option PendingInfo);
  um_active_peers : gmap ShaHash ActivePeers;
  um_active_requests : list ActiveRequest;
  um_peer_requests : list PeerRequest;
  um_opt_sink_waker : option nat;
  um_opt_stream_waker : option nat
}.

Definition UtMetadataModule_new : UtMetadataModule :=
  {| um_completed_map := ∅; um_pending_map := ∅; um_active_peers := ∅; um_active_requests := []; um_peer_requests := [];
     um_opt_sink_waker := None; um_opt_stream_waker := None |}.

Definition set_completed (c : gmap ShaHash (list Z)) (self : UtMetadataModule) : UtMetadataModule :=
  {| um_completed_map := c; um_pending_map := um_pending_map self; um_active_peers := um_active_peers self;
     um_active_requests := um_active_requests self; um_peer_requests := um_peer_requests self;
     um_opt_sink_waker := um_opt_sink_waker self; um_opt_stream_waker := um_opt_stream_waker self |}.
Definition set_download (pending : gmap ShaHash (option PendingInfo)) (peers : gmap ShaHash ActivePeers)
    (requests : list ActiveRequest) (self : UtMetadataModule) : UtMetadataModule :=
  {| um_completed_map := um_completed_map self; um_pending_map := pending; um_active_peers := peers;
     um_active_requests := requests; um_peer_requests := um_peer_requests self;
     um_opt_sink_waker := um_opt_sink_waker self; um_opt_stream_waker := um_opt_stream_waker self |}.
Definition set_peer_requests (requests : list PeerRequest) (self : UtMetadataModule) : UtMetadataModule :=
  {| um_completed_map := um_completed_map self; um_pending_map := um_pending_map self; um_active_peers := um_active_peers self;
     um_active_requests := um_active_requests self; um_peer_requests := requests;
     um_opt_sink_waker := um_opt_sink_waker self; um_opt_stream_waker := um_opt_stream_waker self |}.
Definition set_ut_wakers (sink stream : option nat) (self : UtMetadataModule) : UtMetadataModule :=
  {| um_completed_map := um_completed_map self; um_pending_map := um_pending_map self; um_active_peers := um_active_peers self;
     um_active_requests := um_active_requests self; um_peer_requests := um_peer_requests self;
     um_opt_sink_waker := sink; um_opt_stream_waker := stream |}.

Definition set_pending_map (pending : gmap ShaHash (option PendingInfo)) (self : UtMetadataModule) : UtMetadataModule :=
  set_download pending (um_active_peers self) (um_active_requests self) self.
Definition set_active_peers (peers : gmap ShaHash ActivePeers) (self : UtMetadataModule) : UtMetadataModule :=
  set_download (um_pending_map self) peers (um_active_requests self) self.

Definition supports_ut (o : option ExtendedMessage) : bool :=
  match o with Some msg => bool_decide (is_Some (query_id msg ExtUtMetadata)) | None => false end.

Definition ut_add_peer (info : PeerInfo) (ext_info : ExtendedPeerInfo) (self : UtMetadataModule) : UtMetadataModule :=
  match supports_ut (ei_ours ext_info), supports_ut (ei_theirs ext_info), ei_theirs ext_info ≫= m_metadata_size with
  | true, true, Some metadata_size =>
      let entry := default {| ap_peers := ∅; ap_metadata_size := metadata_size |} (um_active_peers self !! pi_hash info) in
      let entry := {| ap_peers := peers_insert info (ap_peers entry); ap_metadata_size := ap_metadata_size entry |} in
      set_active_peers (<[pi_hash info := entry]> (um_active_peers self)) self
  | _, _, _ => self
  end.

Definition ut_remove_peer (info : PeerInfo) (self : UtMetadataModule) : UtMetadataModule :=
  match um_active_peers self !! pi_hash info with
  | Some active_peers =>
      let peers := peers_remove info (ap_peers active_peers) in
      set_active_peers
        (if bool_decide (peers = ∅) then delete (pi_hash info) (um_active_peers self)
         else <[pi_hash info := {| ap_peers := peers; ap_metadata_size := ap_metadata_size active_peers |}]> (um_active_peers self)) self
  | None => self
  end.

(** The closure of [retain] on a request that has expired. *)
Definition expire (request : ActiveRequest) (peers : gmap ShaHash ActivePeers) (pending : gmap ShaHash (option PendingInfo))
    : gmap ShaHash ActivePeers * gmap ShaHash (option PendingInfo) :=
  let h := pi_hash (ar_sent_to request) in
  (match peers !! h with
   | Some active =>
       <[h := {| ap_peers := peers_remove (ar_sent_to request) (ap_peers active); ap_metadata_size := ap_metadata_size active |}]> peers
   | None => peers
   end,
   match pending !! h with
   | Some (Some p) =>
       <[h := Some {| pn_messages := pn_messages p ++ [ar_message request]; pn_left := pn_left p; pn_bytes := pn_bytes p |}]> pending
   | _ => pending
   end).

Fixpoint retain_requests (duration : Z) (requests : list ActiveRequest) (peers : gmap ShaHash ActivePeers)
    (pending : gmap ShaHash (option PendingInfo))
    : list ActiveRequest * gmap ShaHash ActivePeers * gmap ShaHash (option PendingInfo) :=
  match requests with
  | [] => ([], peers, pending)
  | request :: requests =>
      let is_expired := (ar_left request <? duration)%Z in
      if is_expired then
        let '(peers, pending) := expire request peers pending in retain_requests duration requests peers pending
      else
        let '(kept, peers, pending) := retain_requests duration requests peers pending in (request :: kept, peers, pending)
  end.

Definition apply_tick (duration : Z) (self : UtMetadataModule) : UtMetadataModule :=
  let '(kept, peers, pending) := retain_requests duration (um_active_requests self) (um_active_peers self) (um_pending_map self) in
  let requests :=
    (λ r, {| ar_left := (ar_left r - duration)%Z; ar_message := ar_message r; ar_sent_to := ar_sent_to r |}) <$> kept in
  set_download pending peers requests self.

Definition download_metainfo (h : ShaHash) (self : UtMetadataModule) : UtMetadataModule :=
  match um_pending_map self !! h with
  | Some _ => self
  | None => set_pending_map (<[h := None]> (um_pending_map self)) self
  end.

Definition recv_request (info : PeerInfo) (request : UtMetadataRequestMessage) (self : UtMetadataModule) : UtMetadataModule :=
  if (length (um_peer_requests self) <? MAX_PEER_REQUESTS)%nat then
    set_peer_requests (um_peer_requests self ++ [{| pr_send_to := info; pr_request := request |}]) self
  else self.

Definition ut_panics : Type := res Empty_set UtMetadataModule.

(** [&mut bytes[offset..]).write_all(data).unwrap()] *)
Definition write_at (offset : Z) (data l : bytes) : res Empty_set bytes :=
  if (Z.of_nat (length l) <? offset)%Z then Panic IndexOutOfBounds else
  let o := Z.to_nat offset in
  if (length l - o <? length data)%nat then Panic UnwrapNone
  else Ok (take o l ++ data ++ drop (o + length data) l).

Definition is_request_of (info : PeerInfo) (piece : Z) (request : ActiveRequest) : bool :=
  PeerInfo_eq (ar_sent_to request) info && (utq_piece (ar_message request) =? piece)%Z.

Definition recv_data (info : PeerInfo) (data : UtMetadataDataMessage) (self : UtMetadataModule) : ut_panics :=
  match iter_position (is_request_of info (utd_piece data)) (um_active_requests self) with
  | Some index =>
      let self := set_download (um_pending_map self) (um_active_peers self) (swap_remove (um_active_requests self) index) self in
      match um_pending_map self !! pi_hash info with
      | Some (Some pending) =>
          let piece := utd_piece data in
          if (piece <? 0)%Z then Panic UnwrapNone else
          let data_offset := (piece * Z.of_nat MAX_REQUEST_SIZE)%Z in
          if (u64_max <? data_offset)%Z then Panic UnwrapNone else
          match pn_left pending with
          | O => Panic ArithOverflow
          | S rest_left =>
              bytes ← write_at data_offset (utd_data data) (pn_bytes pending);
              Ok (set_pending_map (<[pi_hash info := Some {| pn_messages := pn_messages pending; pn_left := rest_left; pn_bytes := bytes |}]>
                    (um_pending_map self)) self)
          end
      | _ => Ok self
      end
  | None => Ok self
  end.

Definition recv_reject (info : PeerInfo) (reject : UtMetadataRejectMessage) (self : UtMetadataModule) : UtMetadataModule := self.

(** A missing piece: none if the size is a multiple of a request. *)
Definition num_metadata_pieces (size : nat) : nat :=
  if Nat.eqb (size mod MAX_REQUEST_SIZE) 0 then size / MAX_REQUEST_SIZE else size / MAX_REQUEST_SIZE + 1.

Definition pending_info_from_metadata_size (metadata_size : Z) : res Empty_set PendingInfo :=
  if (metadata_size <? 0)%Z then Panic UnwrapNone else
  let size := Z.to_nat metadata_size in
  let num_pieces := num_metadata_pieces size in
  Ok {| pn_messages := (λ i : nat, UtMetadataRequestMessage_new (Z.of_nat i)) <$> seq 0 num_pieces; pn_left := num_pieces;
        pn_bytes := replicate size 0%Z |}.

Definition generate_active_request (message : UtMetadataRequestMessage) (peer : PeerInfo) : ActiveRequest :=
  {| ar_left := (REQUEST_TIMEOUT_MILLIS * 1000000)%Z; ar_message := message; ar_sent_to := peer |}.

Section Module_.
Context `{HashOrder} `{Sha1} (sched : list actor).

Definition ut_add_torrent (metainfo : Metainfo) (self : UtMetadataModule) : UtMetadataModule * res DiscoveryError () :=
  let info_hash := i_info_hash (m_info metainfo) in
  match um_completed_map self !! info_hash with
  | Some _ => (self, Err (DE_InvalidMetainfoExists info_hash))
  | None =>
      match Info_to_bytes sched (m_info metainfo) with
      | Ok info_bytes => (set_completed (<[info_hash := info_bytes]> (um_completed_map self)) self, Ok ())
      | Err _ => (self, Panic UnwrapNone)
      | Panic f => (self, Panic f)
      end
  end.

Definition ut_remove_torrent (metainfo : Metainfo) (self : UtMetadataModule) : UtMetadataModule * res DiscoveryError () :=
  let info_hash := i_info_hash (m_info metainfo) in
  match um_completed_map self !! info_hash with
  | None => (self, Err (DE_InvalidMetainfoNotExists info_hash))
  | Some _ => (set_completed (delete info_hash (um_completed_map self)) self, Ok ())
  end.

(** * The stream *)

Definition is_complete (e : ShaHash * option PendingInfo) : bool :=
  match e.2 with Some pending => Nat.eqb (pn_left pending) 0 | None => false end.

(** The recursion ends: each call removes an entry. *)
Fixpoint retrieve_completed_download (fuel : nat) (self : UtMetadataModule) : res Empty_set (UtMetadataModule * option ODiscoveryMessage) :=
  match fuel with
  | O => Ok (self, None)
  | S fuel =>
      match List.find is_complete (hash_iter (um_pending_map self)) with
      | Some (completed_hash, Some completed) =>
          let self := set_download (delete completed_hash (um_pending_map self)) (delete completed_hash (um_active_peers self))
                        (um_active_requests self) self in
          match Info_from_bytes (pn_bytes completed) with
          | Ok info => Ok (self, Some (DownloadedMetainfo (Metainfo_from info)))
          | Err _ => retrieve_completed_download fuel self
          | Panic f => Panic f
          end
      | _ => Ok (self, None)
      end
  end.

(** The first pending download with messages to send and a peer to ask. *)
Definition askable (self : UtMetadataModule) (e : ShaHash * option PendingInfo) : bool :=
  match e.2, um_active_peers self !! e.1 with
  | Some pending, Some active => negb (Nat.eqb (length (pn_messages pending)) 0) && negb (bool_decide (ap_peers active = ∅))
  | _, _ => false
  end.

Definition retrieve_piece_request (random : nat) (self : UtMetadataModule) : res Empty_set (UtMetadataModule * option ODiscoveryMessage) :=
  match List.find (askable self) (hash_iter (um_pending_map self)) with
  | Some (h, Some pending) =>
      match um_active_peers self !! h with
      | Some active =>
          match (snd <$> hash_iter (ap_peers active)) !! random, last (pn_messages pending) with
          | Some selected_peer, Some selected_message =>
              let pending := {| pn_messages := take (length (pn_messages pending) - 1) (pn_messages pending);
                                pn_left := pn_left pending; pn_bytes := pn_bytes pending |} in
              Ok (set_download (<[h := Some pending]> (um_pending_map self)) (um_active_peers self)
                    (um_active_requests self ++ [generate_active_request selected_message selected_peer]) self,
                  Some (SendUtMetadataMessage selected_peer (UtRequest selected_message)))
          | _, _ => Panic UnwrapNone
          end
      | None => Ok (self, None)
      end
  | _ => Ok (self, None)
  end.

(** The loop over the requests of peers. *)
Fixpoint answer_requests (completed : gmap ShaHash (list Z)) (requests : list PeerRequest)
    : res Empty_set (list PeerRequest * option ODiscoveryMessage) :=
  match requests with
  | [] => Ok ([], None)
  | request :: requests =>
      let piece := utq_piece (pr_request request) in
      if (piece <? 0)%Z then Panic UnwrapNone else
      let start := (piece * Z.of_nat MAX_REQUEST_SIZE)%Z in
      let end_ := (start + Z.of_nat MAX_REQUEST_SIZE)%Z in
      if (u64_max <? end_)%Z then Panic ArithOverflow else
      match completed !! pi_hash (pr_send_to request) with
      | Some data =>
          if (start <=? Z.of_nat (length data))%Z && (end_ <=? Z.of_nat (length data))%Z then
            let info_slice := slice data (Z.to_nat start) (Z.to_nat end_) in
            let message := UtMetadataDataMessage_new piece (Z.of_nat (length info_slice)) info_slice in
            Ok (requests, Some (SendUtMetadataMessage (pr_send_to request) (UtData message)))
          else answer_requests completed requests
      | None => answer_requests completed requests
      end
  end.

Definition retrieve_piece_response (self : UtMetadataModule) : res Empty_set (UtMetadataModule * option ODiscoveryMessage) :=
  '(requests, o) ← answer_requests (um_completed_map self) (um_peer_requests self);
  Ok (set_peer_requests requests self, o).

(** The loops over the pending map, which change entries in place. *)
Fixpoint initialize_entries (peers : gmap ShaHash ActivePeers) (es : list (ShaHash * option PendingInfo))
    (pending : gmap ShaHash (option PendingInfo)) (available : bool) : res Empty_set (gmap ShaHash (option PendingInfo) * bool) :=
  match es with
  | [] => Ok (pending, available)
  | (h, opt_pending) :: es =>
      opt_pending ← match opt_pending, peers !! h with
                    | None, Some active => p ← pending_info_from_metadata_size (ap_metadata_size active); Ok (Some p)
                    | _, _ => Ok opt_pending
                    end;
      let has_messages := match opt_pending with Some p => negb (Nat.eqb (length (pn_messages p)) 0) | None => false end in
      initialize_entries peers es (<[h := opt_pending]> pending) (available || has_messages)
  end.
Definition initialize_pending (self : UtMetadataModule) : res Empty_set (UtMetadataModule * bool) :=
  '(pending, available) ← initialize_entries (um_active_peers self) (hash_iter (um_pending_map self)) (um_pending_map self) false;
  Ok (set_pending_map pending self, available).

Fixpoint validate_entries (es : list (ShaHash * option PendingInfo)) (pending : gmap ShaHash (option PendingInfo)) (available : bool)
    : gmap ShaHash (option PendingInfo) * bool :=
  match es with
  | [] => (pending, available)
  | (expected_hash, opt_pending) :: es =>
      match opt_pending with
      | Some p =>
          if Nat.eqb (pn_left p) 0 then
            if bool_decide (ShaHash_from_bytes (pn_bytes p) = expected_hash) then validate_entries es pending true
            else validate_entries es (<[expected_hash := None]> pending) available
          else validate_entries es pending available
      | None => validate_entries es pending available
      end
  end.
Definition validate_downloaded (self : UtMetadataModule) : UtMetadataModule * bool :=
  let '(pending, available) := validate_entries (hash_iter (um_pending_map self)) (um_pending_map self) false in
  (set_pending_map pending self, available).

Definition check_stream_unblock (self : UtMetadataModule) : ut_panics :=
  let '(self, downloads_available) := validate_downloaded self in
  '(self, tasks_available) ← initialize_pending self;
  let free_task_queue_space := negb (Nat.eqb (length (um_active_requests self)) MAX_ACTIVE_REQUESTS) in
  let peer_requests_available := negb (Nat.eqb (length (um_peer_requests self)) 0) in
  let should_unblock := (free_task_queue_space && tasks_available) || peer_requests_available || downloads_available in
  Ok (if should_unblock : bool then set_ut_wakers (um_opt_sink_waker self) None self else self).

Definition check_sink_unblock (self : UtMetadataModule) : UtMetadataModule :=
  if negb (Nat.eqb (length (um_peer_requests self)) MAX_PEER_REQUESTS) then set_ut_wakers None (um_opt_stream_waker self) self
  else self.

(** * [ExtendedListener], [Sink] and [Stream] *)

Definition ut_extend (info : PeerInfo) (builder : ExtendedMessageBuilder) : ExtendedMessageBuilder :=
  with_extended_type builder ExtUtMetadata (Some 5%Z).

Definition ut_on_update (info : PeerInfo) (extended : ExtendedPeerInfo) (self : UtMetadataModule) : ut_panics :=
  check_stream_unblock (ut_add_peer info extended self).

(** [false] for pending. *)
Definition ut_poll_ready (waker : nat) (self : UtMetadataModule) : UtMetadataModule * bool :=
  if (length (um_peer_requests self) <? MAX_PEER_REQUESTS)%nat then (self, true)
  else (set_ut_wakers (Some waker) (um_opt_stream_waker self) self, false).

Definition ut_start_send (item : IDiscoveryMessage) (self : UtMetadataModule) : UtMetadataModule * res DiscoveryError () :=
  match item with
  | DControl (CAddTorrent metainfo) => ut_add_torrent metainfo self
  | DControl (CRemoveTorrent metainfo) => ut_remove_torrent metainfo self
  | DControl (CPeerConnected _) => (self, Ok ())
  | DControl (CPeerDisconnected info) => (ut_remove_peer info self, Ok ())
  | DControl (CTick duration) => (apply_tick duration self, Ok ())
  | DownloadMetainfo h => (download_metainfo h self, Ok ())
  | ReceivedUtMetadataMessage info (UtRequest msg) => (recv_request info msg self, Ok ())
  | ReceivedUtMetadataMessage info (UtData msg) =>
      match recv_data info msg self with
      | Ok self => (self, Ok ())
      | Err _ => (self, Ok ())
      | Panic f => (self, Panic f)
      end
  | ReceivedUtMetadataMessage info (UtReject msg) => (recv_reject info msg self, Ok ())
  end.

(** [None] for pending. *)
Definition ut_poll_next (waker random : nat) (self : UtMetadataModule) : res Empty_set (UtMetadataModule * option ODiscoveryMessage) :=
  '(self, o) ← retrieve_completed_download (size (um_pending_map self)) self;
  '(self, o) ← match o with Some m => Ok (self, Some m) | None => retrieve_piece_request random self end;
  '(self, o) ← match o with Some m => Ok (self, Some m) | None => retrieve_piece_response self end;
  let self := check_sink_unblock self in
  match o with
  | Some m => Ok (self, Some m)
  | None => Ok (set_ut_wakers (um_opt_sink_waker self) (Some waker) self, None)
  end.
End Module_.
