(* ===== verification/UtProps.v ===== *)
(** The metadata module keeps account of the pieces of a download: a piece that
    has not arrived is either to be requested or requested from one peer.  With
    honest peers nothing panics and what is delivered is the metadata asked for. *)

From stdpp Require Import base numbers gmap strings list.
From S2P Require Import Prelude RustStd Extern Io Convert Sha Path Bencode Metainfo Float Hasher MetaBuild Handshake PeerStandard PeerExtended Reveal RevealProps UtModule.

(** * Pieces of bytes *)

Definition piece_of (d : bytes) (i : nat) : bytes := slice d (i * MAX_REQUEST_SIZE) (i * MAX_REQUEST_SIZE + MAX_REQUEST_SIZE).

Lemma max_request_pos : 0 < MAX_REQUEST_SIZE.
Proof. by apply Nat.ltb_lt. Qed.

#[local] Opaque MAX_REQUEST_SIZE.

Lemma piece_of_lookup d i k : piece_of d i !! k = if decide (k < MAX_REQUEST_SIZE) then d !! (i * MAX_REQUEST_SIZE + k) else None.
Proof.
  unfold piece_of, slice. replace (_ + _ - _) with MAX_REQUEST_SIZE by lia.
  destruct (decide _); [by rewrite lookup_take_lt, lookup_drop|rewrite lookup_take_ge; [done|lia]].
Qed.

Lemma piece_of_length d i : length (piece_of d i) = MAX_REQUEST_SIZE `min` (length d - i * MAX_REQUEST_SIZE).
Proof. unfold piece_of, slice. rewrite length_take, length_drop. lia. Qed.

(** The number of pieces is the size divided by a request, rounded up. *)
Lemma num_pieces_covers n x : x < n → x / MAX_REQUEST_SIZE < num_metadata_pieces n.
Proof.
  pose proof max_request_pos as HM. intros Hx. unfold num_metadata_pieces.
  pose proof (Nat.div_mod n MAX_REQUEST_SIZE ltac:(lia)) as Hn. destruct (Nat.eqb_spec (n mod MAX_REQUEST_SIZE) 0).
  - apply Nat.Div0.div_lt_upper_bound. lia.
  - pose proof (Nat.Div0.div_le_mono x n MAX_REQUEST_SIZE ltac:(lia)). lia.
Qed.

Lemma num_pieces_start n i : i < num_metadata_pieces n → i * MAX_REQUEST_SIZE < n.
Proof.
  pose proof max_request_pos as HM. unfold num_metadata_pieces.
  pose proof (Nat.div_mod n MAX_REQUEST_SIZE ltac:(lia)) as Hn. destruct (Nat.eqb_spec (n mod MAX_REQUEST_SIZE) 0); nia.
Qed.

(** Bytes of a length are given by their pieces. *)
Lemma pieces_ext b d : length b = length d → (∀ i, i < num_metadata_pieces (length b) → piece_of b i = piece_of d i) → b = d.
Proof.
  pose proof max_request_pos as HM. intros Hl Hp. apply list_eq. intros x.
  destruct (decide (x < length b)) as [Hx|Hx]; [|rewrite (lookup_ge_None_2 b), (lookup_ge_None_2 d) by lia; done].
  pose proof (f_equal (.!! (x mod MAX_REQUEST_SIZE)) (Hp _ (num_pieces_covers _ _ Hx))) as Hi. cbn beta in Hi.
  rewrite !piece_of_lookup in Hi. pose proof (Nat.mod_upper_bound x MAX_REQUEST_SIZE ltac:(lia)).
  rewrite !decide_True in Hi by lia. pose proof (Nat.div_mod x MAX_REQUEST_SIZE ltac:(lia)) as Hd.
  rewrite (Nat.mul_comm MAX_REQUEST_SIZE) in Hd. rewrite <- Hd in Hi. exact Hi.
Qed.

Lemma write_at_Ok off data l l' : (0 ≤ off)%Z → write_at off data l = Ok l' →
  Z.to_nat off + length data ≤ length l ∧ l' = take (Z.to_nat off) l ++ data ++ drop (Z.to_nat off + length data) l.
Proof.
  unfold write_at. intros Ho. destruct (Z.ltb_spec (Z.of_nat (length l)) off); [done|].
  destruct (Nat.ltb_spec (length l - Z.to_nat off) (length data)); [done|]. intros [= <-]. split; [lia|done].
Qed.

Lemma write_lookup o (data l : bytes) x : o + length data ≤ length l →
  (take o l ++ data ++ drop (o + length data) l) !! x =
  if decide (o ≤ x < o + length data) then data !! (x - o) else l !! x.
Proof.
  intros Hl. rewrite lookup_app. destruct (decide (x < o)) as [Hx|Hx].
  - rewrite lookup_take_lt by lia. rewrite decide_False by lia. destruct (l !! x) eqn:E; [done|].
    apply lookup_ge_None in E. lia.
  - rewrite lookup_take_ge by lia. rewrite length_take, Nat.min_l by lia. rewrite lookup_app.
    destruct (decide (o ≤ x < o + length data)) as [Hi|Hi].
    + destruct (data !! (x - o)) eqn:E; [done|]. apply lookup_ge_None in E. lia.
    + rewrite lookup_ge_None_2 by lia. rewrite lookup_drop. f_equal. lia.
Qed.

(** A piece of [d] written at its place into bytes of the same length. *)
Lemma write_piece_of b b' d i : length b = length d →
  write_at (Z.of_nat i * Z.of_nat MAX_REQUEST_SIZE) (piece_of d i) b = Ok b' →
  length b' = length b ∧ ∀ j, piece_of b' j = if decide (j = i) then piece_of d i else piece_of b j.
Proof.
  intros Hl [Hw ->]%write_at_Ok; [|lia]. replace (Z.to_nat _) with (i * MAX_REQUEST_SIZE) in * by lia.
  set (o := i * MAX_REQUEST_SIZE) in *. split.
  { rewrite !length_app, length_take, length_drop. lia. }
  intros j. apply list_eq. intros k. rewrite piece_of_lookup. destruct (decide (k < MAX_REQUEST_SIZE)) as [Hk|Hk].
  2: { destruct (decide (j = i)); by rewrite piece_of_lookup, decide_False. }
  rewrite write_lookup by done. destruct (decide (j = i)) as [->|Hj].
  - fold o. destruct (decide _) as [Hin|Hout]; [f_equal; lia|].
    rewrite piece_of_lookup, decide_True by done. fold o. rewrite piece_of_length in Hout. fold o in Hout.
    rewrite !lookup_ge_None_2; [done|lia..].
  - rewrite decide_False; [by rewrite piece_of_lookup, decide_True|]. rewrite piece_of_length. unfold o in *. nia.
Qed.

(** * The account

    [meta h], if it is there, is the metadata every peer of [h] has; [asked h]
    says that the metadata of [h] was asked for. *)

Definition requested_pieces (h : ShaHash) (requests : list ActiveRequest) : list Z :=
  (λ r, utq_piece (ar_message r)) <$> filter (λ r, pi_hash (ar_sent_to r) = h) requests.

Definition outstanding (p : PendingInfo) (requested : list Z) : list Z := (utq_piece <$> pn_messages p) ++ requested.

Definition piece_in (b : bytes) (i : Z) : Prop := (0 ≤ i < Z.of_nat (num_metadata_pieces (length b)))%Z.

Lemma requested_app h l1 l2 : requested_pieces h (l1 ++ l2) = requested_pieces h l1 ++ requested_pieces h l2.
Proof. unfold requested_pieces. by rewrite filter_app, fmap_app. Qed.

Lemma requested_cons h r l : requested_pieces h (r :: l) =
  if decide (pi_hash (ar_sent_to r) = h) then utq_piece (ar_message r) :: requested_pieces h l else requested_pieces h l.
Proof. unfold requested_pieces. rewrite filter_cons. by destruct (decide _). Qed.

Lemma requested_map h (f : ActiveRequest → ActiveRequest) l :
  (∀ r, ar_message (f r) = ar_message r ∧ ar_sent_to (f r) = ar_sent_to r) → requested_pieces h (f <$> l) = requested_pieces h l.
Proof.
  intros Hf. induction l as [|r l IH]; [done|]. cbn [fmap list_fmap]. rewrite !requested_cons. destruct (Hf r) as [-> ->].
  by rewrite <- IH.
Qed.

#[local] Instance requested_proper h : Proper ((≡ₚ) ==> (≡ₚ)) (requested_pieces h).
Proof. intros l1 l2 E. unfold requested_pieces. by rewrite E. Qed.

Section Account.
Context (meta : ShaHash → option bytes) (asked : ShaHash → Prop).

(** [n] pieces are missing from [b]: the pieces [out]. *)
Definition account_ok (h : ShaHash) (n : nat) (b : bytes) (out : list Z) : Prop :=
  NoDup out ∧ n = length out ∧ Forall (piece_in b) out ∧ (Z.of_nat (length b) ≤ u64_max)%Z ∧
  ∀ d, meta h = Some d → length b = length d ∧
    ∀ i : nat, i < num_metadata_pieces (length b) → Z.of_nat i ∉ out → piece_of b i = piece_of d i.

Definition pending_ok (h : ShaHash) (o : option (option PendingInfo)) (requested : list Z) : Prop :=
  match o with
  | Some (Some p) => account_ok h (pn_left p) (pn_bytes p) (outstanding p requested)
  | _ => requested = []
  end ∧ (is_Some o → asked h).

Definition entries_ok (pending : gmap ShaHash (option PendingInfo)) (requests : list ActiveRequest) : Prop :=
  ∀ h, pending_ok h (pending !! h) (requested_pieces h requests).

Definition peers_ok (peers : gmap ShaHash ActivePeers) : Prop :=
  ∀ h a, peers !! h = Some a → (∀ k q, ap_peers a !! k = Some q → pi_hash q = h) ∧ is_i64 (ap_metadata_size a) ∧
    ∀ d, meta h = Some d → ap_metadata_size a = Z.of_nat (length d).

Record ut_inv (s : UtMetadataModule) : Prop := {
  inv_entries : entries_ok (um_pending_map s) (um_active_requests s);
  inv_peers : peers_ok (um_active_peers s)
}.

#[local] Instance account_proper h n b : Proper ((≡ₚ) ==> iff) (account_ok h n b).
Proof.
  assert (Himp : ∀ o1 o2, o1 ≡ₚ o2 → account_ok h n b o1 → account_ok h n b o2).
  { intros o1 o2 E (H1 & H2 & H3 & H4 & H5). split; [by rewrite <- E|]. split; [by rewrite <- E|]. split; [by rewrite <- E|].
    split; [done|]. intros d Hd. destruct (H5 d Hd) as [Hl Hp]. split; [done|]. intros i Hi Hni. apply Hp; [done|]. by rewrite E. }
  intros o1 o2 E. split; [by apply Himp|]. apply Himp. by symmetry.
Qed.

(** A piece moves between the messages to send and the requests sent. *)
Lemma entry_move h p messages requested requested' :
  pending_ok h (Some (Some p)) requested → (utq_piece <$> messages) ++ requested' ≡ₚ outstanding p requested →
  pending_ok h (Some (Some {| pn_messages := messages; pn_left := pn_left p; pn_bytes := pn_bytes p |})) requested'.
Proof. intros [Ho Ha] E. split; [|intros _; by apply Ha]. cbn [pn_left pn_bytes]. unfold outstanding at 1. cbn [pn_messages]. by rewrite E. Qed.

Lemma entry_perm h o requested requested' : pending_ok h o requested → requested ≡ₚ requested' → pending_ok h o requested'.
Proof.
  intros [Ho Ha] E. split; [|done]. destruct o as [[p|]|].
  - unfold outstanding in *. by rewrite <- E.
  - rewrite Ho in E. by apply Permutation_nil.
  - rewrite Ho in E. by apply Permutation_nil.
Qed.

Lemma entry_nonempty h o requested i : pending_ok h o requested → i ∈ requested → ∃ p, o = Some (Some p).
Proof.
  intros [Ho _] Hi. destruct o as [[p|]|]; [by exists p|..]; subst; by apply not_elem_of_nil in Hi.
Qed.

Lemma entries_insert pending requests h o requests' :
  entries_ok pending requests → (∀ h', h' ≠ h → requested_pieces h' requests' = requested_pieces h' requests) →
  pending_ok h (Some o) (requested_pieces h requests') → entries_ok (<[h := o]> pending) requests'.
Proof.
  intros He Hr Ho h'. destruct (decide (h' = h)) as [->|Hne]; [by rewrite lookup_insert_eq|].
  rewrite lookup_insert_ne by done. by rewrite Hr.
Qed.

(** ** Peers *)

Lemma peers_remove_ok peers h a p : peers_ok peers → peers !! h = Some a →
  peers_ok (<[h := {| ap_peers := peers_remove p (ap_peers a); ap_metadata_size := ap_metadata_size a |}]> peers).
Proof.
  intros Hp Ha h' a' [[<- <-]|[Hne Ha']]%lookup_insert_Some; [|by apply Hp].
  destruct (Hp _ _ Ha) as [H1 H2]. split; [|done]. cbn [ap_peers]. unfold peers_remove.
  intros k q [_ Hq]%lookup_delete_Some. by eapply H1.
Qed.

Lemma peers_delete_ok peers h : peers_ok peers → peers_ok (delete h peers).
Proof. intros Hp h' a' [_ Ha']%lookup_delete_Some. by apply Hp. Qed.

Definition size_ok (info : PeerInfo) (extended : ExtendedPeerInfo) : Prop :=
  ∀ metadata_size, ei_theirs extended ≫= m_metadata_size = Some metadata_size →
    is_i64 metadata_size ∧ ∀ d, meta (pi_hash info) = Some d → metadata_size = Z.of_nat (length d).

Lemma add_peer_inv info extended s : size_ok info extended → ut_inv s → ut_inv (ut_add_peer info extended s).
Proof.
  intros Hs [He Hp]. unfold ut_add_peer. destruct (supports_ut (ei_ours extended)), (supports_ut (ei_theirs extended)); try by split.
  destruct (ei_theirs extended ≫= m_metadata_size) as [n|] eqn:En; [|by split]. specialize (Hs n En) as [Hn Hd].
  split; [exact He|]. cbn [um_active_peers set_active_peers set_download]. intros h a [[<- <-]|[Hne Ha]]%lookup_insert_Some; [|by apply Hp].
  cbn [ap_peers ap_metadata_size]. destruct (um_active_peers s !! pi_hash info) as [a|] eqn:Ea; cbn [default from_option id].
  - destruct (Hp _ _ Ea) as (P1 & P2 & P3). split; [|done]. intros k q [Hk|[-> ->]]%peers_insert_lookup; [by eapply P1|done].
  - split; [|done]. intros k q [Hk|[-> ->]]%peers_insert_lookup; [cbn [ap_peers] in Hk; by rewrite lookup_empty in Hk|done].
Qed.

Lemma remove_peer_inv info s : ut_inv s → ut_inv (ut_remove_peer info s).
Proof.
  intros [He Hp]. unfold ut_remove_peer. destruct (_ !! _) as [a|] eqn:Ea; [|by split]. split; [exact He|].
  cbn [um_active_peers set_active_peers set_download]. destruct (bool_decide _); [by apply peers_delete_ok|by apply peers_remove_ok].
Qed.

(** ** Ticks *)

Lemma expire_ok r peers pending requests requests' peers' pending' :
  peers_ok peers → entries_ok pending requests → requests ≡ₚ r :: requests' → expire r peers pending = (peers', pending') →
  peers_ok peers' ∧ entries_ok pending' requests'.
Proof.
  intros Hp He Hr. unfold expire. intros [= <- <-]. set (h := pi_hash (ar_sent_to r)). split.
  { destruct (peers !! h) as [a|] eqn:Ea; [by apply peers_remove_ok|done]. }
  assert (Hin : requested_pieces h requests ≡ₚ utq_piece (ar_message r) :: requested_pieces h requests').
  { rewrite Hr, requested_cons, decide_True; done. }
  destruct (entry_nonempty h (pending !! h) (requested_pieces h requests) (utq_piece (ar_message r))) as [p Hh]; [done|by rewrite Hin; left|].
  rewrite Hh. assert (Hh' := He h). rewrite Hh in Hh'. intros h'. destruct (decide (h' = h)) as [->|Hne].
  - rewrite lookup_insert_eq. apply (entry_move _ _ _ _ _ Hh'). unfold outstanding. rewrite Hin, fmap_app. cbn [fmap list_fmap].
    by rewrite <- app_assoc.
  - rewrite lookup_insert_ne by done. assert (requested_pieces h' requests ≡ₚ requested_pieces h' requests') as E.
    { rewrite Hr, requested_cons, decide_False; [done|]. intros <-. by apply Hne. }
    by apply (entry_perm _ _ _ _ (He h')).
Qed.

Lemma retain_ok duration requests : ∀ pre peers pending kept peers' pending',
  peers_ok peers → entries_ok pending (pre ++ requests) → retain_requests duration requests peers pending = (kept, peers', pending') →
  peers_ok peers' ∧ entries_ok pending' (pre ++ kept).
Proof.
  induction requests as [|r requests IH]; intros pre peers pending kept peers' pending' Hp He; cbn [retain_requests].
  { intros [= <- <- <-]. done. }
  destruct (ar_left r <? duration)%Z.
  - destruct (expire r peers pending) as [peers1 pending1] eqn:Ex.
    destruct (expire_ok r peers pending _ (pre ++ requests) peers1 pending1 Hp He) as [Hp1 He1]; [by rewrite Permutation_middle|done|].
    by apply IH.
  - destruct (retain_requests _ _ _ _) as [[kept1 peers1] pending1] eqn:Er. intros [= <- <- <-].
    destruct (IH (pre ++ [r]) peers pending kept1 peers1 pending1 Hp) as [Hp1 He1]; [by rewrite <- app_assoc|done|].
    by rewrite <- app_assoc in He1.
Qed.

Lemma tick_inv duration s : ut_inv s → ut_inv (apply_tick duration s).
Proof.
  intros [He Hp]. unfold apply_tick. destruct (retain_requests _ _ _ _) as [[kept peers] pending] eqn:Er.
  destruct (retain_ok _ _ [] _ _ _ _ _ Hp He Er) as [Hp1 He1]. split; [|done]. intros h. specialize (He1 h).
  cbn [app] in He1. cbn [um_pending_map um_active_requests set_download]. by rewrite requested_map.
Qed.

Lemma download_inv h s : asked h → ut_inv s → ut_inv (download_metainfo h s).
Proof.
  intros Ha [He Hp]. unfold download_metainfo. destruct (_ !! h) as [o|] eqn:Eh; [by split|]. split; [|done].
  apply (entries_insert _ (um_active_requests s)); [done..|]. specialize (He h). rewrite Eh in He. by destruct He.
Qed.

(** ** Data *)

Definition data_ok (info : PeerInfo) (data : UtMetadataDataMessage) : Prop :=
  ∀ d, meta (pi_hash info) = Some d → utd_data data = piece_of d (Z.to_nat (utd_piece data)).

Lemma request_found info piece requests index :
  iter_position (is_request_of info piece) requests = Some index →
  ∃ r, requests ≡ₚ r :: swap_remove requests index ∧ pi_hash (ar_sent_to r) = pi_hash info ∧ utq_piece (ar_message r) = piece.
Proof.
  intros (r & Hr & Hm & _)%iter_position_Some. exists r. split; [by rewrite swap_remove_perm|].
  unfold is_request_of, PeerInfo_eq in Hm. rewrite !andb_true_iff, !bool_decide_eq_true, Z.eqb_eq in Hm. naive_solver.
Qed.

(** What the invariant says of a request that is answered: the download is
    there, and the piece is one of those missing. *)
Lemma request_entry info piece s index :
  ut_inv s → iter_position (is_request_of info piece) (um_active_requests s) = Some index →
  ∃ p n, um_pending_map s !! pi_hash info = Some (Some p) ∧ pn_left p = S n ∧ piece_in (pn_bytes p) piece ∧
    (Z.of_nat (length (pn_bytes p)) ≤ u64_max)%Z ∧
    outstanding p (requested_pieces (pi_hash info) (um_active_requests s)) ≡ₚ
      piece :: outstanding p (requested_pieces (pi_hash info) (swap_remove (um_active_requests s) index)) ∧
    ∀ h, h ≠ pi_hash info → requested_pieces h (um_active_requests s) ≡ₚ requested_pieces h (swap_remove (um_active_requests s) index).
Proof.
  intros [He _] (r & Hr & Hh & Hpc)%request_found. assert (Hi := He (pi_hash info)).
  assert (E : requested_pieces (pi_hash info) (um_active_requests s) ≡ₚ
              piece :: requested_pieces (pi_hash info) (swap_remove (um_active_requests s) index)).
  { rewrite Hr at 1. rewrite requested_cons, decide_True by done. by rewrite Hpc. }
  destruct (entry_nonempty _ _ _ piece Hi) as [p Ep]; [rewrite E; by left|]. rewrite Ep in Hi. destruct Hi as [Hi _].
  assert (Eo : outstanding p (requested_pieces (pi_hash info) (um_active_requests s)) ≡ₚ
      piece :: outstanding p (requested_pieces (pi_hash info) (swap_remove (um_active_requests s) index))).
  { unfold outstanding. rewrite E. by rewrite <- Permutation_middle. }
  assert (Hi' := Hi). rewrite Eo in Hi'. destruct Hi' as (_ & Hl & Hf & Hb & _). apply Forall_cons in Hf as [Hf _].
  eexists p, _. split; [done|]. split; [exact Hl|]. split; [done|]. split; [done|]. split; [done|].
  intros h Hne. rewrite Hr at 1. rewrite requested_cons, decide_False; [done|]. congruence.
Qed.

Lemma account_received h n b b' piece data out :
  account_ok h n b (piece :: out) → (∀ d, meta h = Some d → data = piece_of d (Z.to_nat piece)) →
  write_at (piece * Z.of_nat MAX_REQUEST_SIZE) data b = Ok b' → account_ok h (n - 1) b' out.
Proof.
  intros (H1 & H2 & H3 & H4 & H5) Hdata Hw. apply NoDup_cons in H1 as [Hni H1]. apply Forall_cons in H3 as [Hp H3].
  unfold piece_in in Hp. assert (Hlen : length b' = length b).
  { apply write_at_Ok in Hw as [Hw ->]; [|lia]. rewrite !length_app, length_take, length_drop. lia. }
  split; [done|]. split; [cbn in H2; lia|]. unfold piece_in. rewrite Hlen. split; [done|]. split; [done|].
  intros d Hd. destruct (H5 d Hd) as [Hl Hpc]. split; [done|]. intros i Hi Hn. rewrite (Hdata d Hd) in Hw.
  replace piece with (Z.of_nat (Z.to_nat piece)) in Hw at 1 by lia. apply write_piece_of in Hw as [_ Hw]; [|done].
  rewrite Hw. destruct (decide (i = Z.to_nat piece)) as [->|Hne]; [done|]. apply Hpc; [done|].
  rewrite not_elem_of_cons. split; [lia|done].
Qed.

Lemma data_inv info data s s' : data_ok info data → ut_inv s → recv_data info data s = Ok s' → ut_inv s'.
Proof.
  intros Hd Hs. unfold recv_data. destruct (iter_position _ _) as [index|] eqn:Ei; [|by intros [= <-]].
  destruct (request_entry _ _ _ _ Hs Ei) as (p & n & Ep & El & _ & _ & Eo & Hne).
  cbn [um_pending_map set_download]. rewrite Ep, El. destruct (_ <? 0)%Z; [done|]. destruct (_ <? _)%Z; [done|].
  destruct (write_at _ _ _) as [b|e|f] eqn:Hw; try done. rewrite bind_Ok. intros [= <-]. destruct Hs as [He Hp]. split; [|done]. intros h. specialize (He h).
  cbn [um_pending_map um_active_requests set_pending_map set_download]. destruct (decide (h = pi_hash info)) as [->|Hh].
  - rewrite lookup_insert_eq. rewrite Ep in He. destruct He as [He Ha]. split; [|intros _; by apply Ha]. cbn [pn_left pn_bytes].
    rewrite Eo in He. pose proof (account_received _ _ _ _ _ _ _ He Hd Hw) as Hr. rewrite El in Hr. cbn in Hr.
    rewrite Nat.sub_0_r in Hr. exact Hr.
  - rewrite lookup_insert_ne by done. by apply (entry_perm _ _ _ _ He), Hne.
Qed.

(** ** The stream *)

Section Stream.
Context `{HashOrder} `{Sha1} (sched : list actor).

Lemma hash_iter_elem {V} (m : gmap ShaHash V) k v : (k, v) ∈ hash_iter m ↔ m !! k = Some v.
Proof. rewrite hash_iter_perm. apply elem_of_map_to_list. Qed.

Lemma hash_iter_nodup {V} (m : gmap ShaHash V) : NoDup (hash_iter m).*1.
Proof. rewrite hash_iter_perm. apply NoDup_fst_map_to_list. Qed.

Lemma find_entry {V} (f : ShaHash * V → bool) (m : gmap ShaHash V) h v :
  List.find f (hash_iter m) = Some (h, v) → m !! h = Some v ∧ f (h, v) = true.
Proof. intros [Hin Hf]%find_some. split; [|done]. apply hash_iter_elem. by apply list_elem_of_In. Qed.

Definition delivers (o : option ODiscoveryMessage) : Prop :=
  ∀ m, o = Some (DownloadedMetainfo m) → ∃ h, asked h ∧ ∀ d, meta h = Some d → ∃ info, Info_from_bytes d = Ok info ∧ m = Metainfo_from info.

Lemma delete_inv h p s : um_pending_map s !! h = Some (Some p) → pn_left p = 0 → ut_inv s →
  ut_inv (set_download (delete h (um_pending_map s)) (delete h (um_active_peers s)) (um_active_requests s) s) ∧
  asked h ∧ ∀ d, meta h = Some d → pn_bytes p = d.
Proof.
  intros Eh El [He Hp]. assert (Hh := He h). rewrite Eh in Hh. destruct Hh as [(_ & Hl & _ & _ & Hd) Ha].
  rewrite El in Hl. symmetry in Hl. apply nil_length_inv in Hl. split; [split|split].
  - cbn [um_pending_map um_active_requests set_download]. intros h'. destruct (decide (h' = h)) as [->|Hne].
    + rewrite lookup_delete_eq. split; [|by intros [? ?]]. unfold outstanding in Hl. by apply app_eq_nil in Hl as [_ Hl].
    + rewrite lookup_delete_ne by done. apply He.
  - by apply peers_delete_ok.
  - by apply Ha.
  - intros d Hm. destruct (Hd d Hm) as [Hlen Hpc]. apply pieces_ext; [done|]. intros i Hi. apply Hpc; [done|]. rewrite Hl.
    apply not_elem_of_nil.
Qed.

Lemma completed_inv fuel : ∀ s s' o, ut_inv s → retrieve_completed_download fuel s = Ok (s', o) → ut_inv s' ∧ delivers o.
Proof.
  induction fuel as [|fuel IH]; intros s s' o Hs; cbn [retrieve_completed_download]; [by intros [= <- <-]|].
  destruct (List.find _ _) as [[h [p|]]|] eqn:Ef; [|by intros [= <- <-]..]. apply find_entry in Ef as [Eh Hc].
  apply Nat.eqb_eq in Hc. cbn [snd] in Hc. destruct (delete_inv h p s Eh Hc Hs) as (Hs' & Ha & Hd).
  destruct (Info_from_bytes _) as [info|e|f] eqn:Ei; [|by apply IH|done]. intros [= <- <-]. split; [done|].
  intros m [= <-]. exists h. split; [done|]. intros d Hm. rewrite (Hd d Hm) in Ei. by exists info.
Qed.

Lemma request_inv random s s' o : ut_inv s → retrieve_piece_request random s = Ok (s', o) → ut_inv s' ∧ delivers o.
Proof.
  intros Hs. unfold retrieve_piece_request. destruct (List.find _ _) as [[h [p|]]|] eqn:Ef; [|by intros [= <- <-]..].
  apply find_entry in Ef as [Eh _]. destruct (um_active_peers s !! h) as [a|] eqn:Ea; [|by intros [= <- <-]].
  destruct (_ !! random) as [q|] eqn:Eq; [|done]. destruct (last _) as [m|] eqn:Em; [|done]. intros [= <- <-]. split; [|done].
  destruct Hs as [He Hp]. split; [|done]. assert (Hq : pi_hash q = h).
  { destruct (Hp _ _ Ea) as [Hh _]. apply list_elem_of_lookup_2, list_elem_of_fmap in Eq as ([k q'] & -> & Hin).
    rewrite hash_iter_perm in Hin. apply elem_of_map_to_list in Hin. by eapply Hh. }
  apply last_Some in Em as [ms Em]. cbn [um_pending_map um_active_requests set_download].
  apply (entries_insert _ (um_active_requests s)); [done|..].
  - intros h' Hne. rewrite requested_app, requested_cons. cbn [ar_sent_to generate_active_request].
    rewrite decide_False by congruence. by rewrite app_nil_r.
  - assert (Hh := He h). rewrite Eh in Hh. apply (entry_move _ _ _ _ _ Hh). unfold outstanding.
    rewrite Em, length_app. cbn [length]. replace (_ + 1 - 1) with (length ms) by lia. rewrite take_app_length.
    rewrite requested_app, requested_cons. cbn [ar_sent_to ar_message generate_active_request]. rewrite decide_True by done.
    rewrite fmap_app. cbn [fmap list_fmap]. change (requested_pieces h []) with (@nil Z).
    rewrite <- app_assoc. apply Permutation_app_head. by rewrite Permutation_app_comm.
Qed.

Lemma answer_requests_message completed requests requests' m :
  answer_requests completed requests = Ok (requests', Some m) → ∃ p d, m = SendUtMetadataMessage p (UtData d).
Proof.
  induction requests as [|r requests IH]; cbn [answer_requests]; [done|]. destruct (_ <? 0)%Z; [done|]. destruct (_ <? _)%Z; [done|].
  destruct (_ !! _) as [d|]; [|done]. destruct (_ && _); [|done]. intros [= <- <-]. eauto.
Qed.

Lemma response_inv s s' o : ut_inv s → retrieve_piece_response s = Ok (s', o) → ut_inv s' ∧ delivers o.
Proof.
  intros [He Hp]. unfold retrieve_piece_response. destruct (answer_requests _ _) as [[requests o']|e|f] eqn:Ea; try done.
  rewrite bind_Ok. intros [= <- <-]. split; [by split|]. intros m ->. apply answer_requests_message in Ea as (p & d & ?). done.
Qed.
(** ** Validation and initialisation *)

Lemma validate_entries_spec es : ∀ pending available pending' available',
  NoDup es.*1 → (∀ h o, (h, o) ∈ es → pending !! h = Some o) → validate_entries es pending available = (pending', available') →
  ∀ h, pending' !! h = pending !! h ∨ ∃ p, pending !! h = Some (Some p) ∧ pn_left p = 0 ∧ pending' !! h = Some None.
Proof.
  induction es as [|[k o] es IH]; intros pending available pending' available' Hnd Hes; cbn [validate_entries]; [intros [= <- <-] h; by left|].
  cbn in Hnd. apply NoDup_cons in Hnd as [Hk Hnd].
  assert (Hes' : ∀ h o, (h, o) ∈ es → pending !! h = Some o) by (intros h o' Hin; apply Hes; by right).
  destruct o as [p|]; [|by apply IH]. destruct (Nat.eqb_spec (pn_left p) 0) as [El|El]; [|by apply IH].
  destruct (bool_decide _); [by apply IH|]. intros Hv h.
  assert (Hes1 : ∀ h o, (h, o) ∈ es → <[k := None]> pending !! h = Some o).
  { intros h' o' Hin. rewrite lookup_insert_ne; [by apply Hes'|]. intros <-. apply Hk. apply list_elem_of_fmap. by exists (k, o'). }
  specialize (IH _ _ _ _ Hnd Hes1 Hv h). destruct (decide (h = k)) as [->|Hne].
  - rewrite lookup_insert_eq in IH. destruct IH as [IH|(p' & ? & _)]; [|done]. right. exists p. split; [apply Hes; by left|done].
  - by rewrite lookup_insert_ne in IH.
Qed.

Lemma initialize_entries_spec peers es : ∀ pending available pending' available',
  NoDup es.*1 → (∀ h o, (h, o) ∈ es → pending !! h = Some o) → initialize_entries peers es pending available = Ok (pending', available') →
  ∀ h, pending' !! h = pending !! h ∨ ∃ a p, pending !! h = Some None ∧ peers !! h = Some a ∧
    pending_info_from_metadata_size (ap_metadata_size a) = Ok p ∧ pending' !! h = Some (Some p).
Proof.
  induction es as [|[k o] es IH]; intros pending available pending' available' Hnd Hes; cbn [initialize_entries]; [intros [= <- <-] h; by left|].
  cbn in Hnd. apply NoDup_cons in Hnd as [Hk Hnd]. assert (Hko : pending !! k = Some o) by (apply Hes; by left).
  intros Hv. bind_inv Hv as o1 eqn Eo.
  assert (Ho1 : o1 = o ∨ ∃ a p, o = None ∧ peers !! k = Some a ∧ pending_info_from_metadata_size (ap_metadata_size a) = Ok p ∧ o1 = Some p).
  { destruct o as [p|]; [by injection Eo as <-; left|]. destruct (peers !! k) as [a|]; [|by injection Eo as <-; left].
    bind_inv Eo as p eqn Ep. injection Eo as <-. right. by exists a, p. }
  assert (Hes1 : ∀ h o, (h, o) ∈ es → <[k := o1]> pending !! h = Some o).
  { intros h' o' Hin. rewrite lookup_insert_ne; [apply Hes; by right|]. intros <-. apply Hk. apply list_elem_of_fmap. by exists (k, o'). }
  intros h. specialize (IH _ _ _ _ Hnd Hes1 Hv h). destruct (decide (h = k)) as [->|Hne].
  - rewrite lookup_insert_eq in IH. destruct Ho1 as [->|(a & p & -> & Ha & Hp & ->)].
    + destruct IH as [->|(a & p & [= ->] & IH)]; [by left|]. right. by exists a, p.
    + destruct IH as [->|(a' & p' & ? & _)]; [|done]. right. by exists a, p.
  - by rewrite lookup_insert_ne in IH.
Qed.

Lemma new_pending_ok h size p : is_i64 size → (∀ d, meta h = Some d → size = Z.of_nat (length d)) → asked h →
  pending_info_from_metadata_size size = Ok p → pending_ok h (Some (Some p)) [].
Proof.
  unfold is_i64. intros Hs Hd Ha. unfold pending_info_from_metadata_size. destruct (Z.ltb_spec size 0) as [|Hnn]; [done|]. intros [= <-].
  split; [|done]. cbn [pn_left pn_bytes]. unfold outstanding. cbn [pn_messages]. rewrite app_nil_r, <- list_fmap_compose.
  set (n := num_metadata_pieces (Z.to_nat size)).
  assert (E : utq_piece ∘ (λ i, UtMetadataRequestMessage_new (Z.of_nat i)) <$> seq 0 n = Z.of_nat <$> seq 0 n) by done.
  rewrite E. split; [apply (NoDup_fmap_2 Z.of_nat), NoDup_seq|]. split; [by rewrite length_fmap, length_seq|].
  unfold piece_in. rewrite length_replicate. fold n. split.
  { apply Forall_fmap, Forall_forall. intros i Hi%elem_of_seq. cbn. lia. }
  split; [unfold u64_max, i64_max in *; lia|]. intros d Hm. rewrite (Hd d Hm), Nat2Z.id. split; [done|]. intros i Hi Hni. exfalso. apply Hni.
  apply list_elem_of_fmap. exists i. split; [done|]. apply elem_of_seq. lia.
Qed.

Lemma validate_inv s s' available : ut_inv s → validate_downloaded s = (s', available) → ut_inv s'.
Proof.
  intros [He Hp]. unfold validate_downloaded. destruct (validate_entries _ _ _) as [pending a] eqn:Ev. intros [= <- <-].
  split; [|done]. intros h. cbn [um_pending_map um_active_requests set_pending_map set_download]. specialize (He h).
  destruct (validate_entries_spec _ _ _ _ _ (hash_iter_nodup _) (λ h o, proj1 (hash_iter_elem _ h o)) Ev h) as [->|(p & Eh & El & ->)]; [done|].
  rewrite Eh in He. destruct He as [(_ & Hl & _) Ha]. split; [|intros _; by apply Ha]. rewrite El in Hl. symmetry in Hl.
  apply nil_length_inv in Hl. by apply app_eq_nil in Hl as [_ Hl].
Qed.

Lemma initialize_inv s s' available : ut_inv s → initialize_pending s = Ok (s', available) → ut_inv s'.
Proof.
  intros [He Hp]. unfold initialize_pending. intros Hi. bind_inv Hi as [pending a] eqn Ev. injection Hi as <- <-.
  split; [|done]. intros h. cbn [um_pending_map um_active_requests set_pending_map set_download]. specialize (He h).
  destruct (initialize_entries_spec _ _ _ _ _ _ (hash_iter_nodup _) (λ h o, proj1 (hash_iter_elem _ h o)) Ev h)
    as [->|(act & p & Eh & Ea & Ep & ->)]; [done|].
  rewrite Eh in He. destruct He as [-> Ha]. destruct (Hp _ _ Ea) as (_ & Hs & Hd). by eapply new_pending_ok; eauto.
Qed.

Lemma wakers_inv sink stream s : ut_inv s → ut_inv (set_ut_wakers sink stream s).
Proof. by intros [He Hp]; split. Qed.

Lemma update_inv info extended s s' : size_ok info extended → ut_inv s → ut_on_update info extended s = Ok s' → ut_inv s'.
Proof.
  intros Hz Hs. unfold ut_on_update, check_stream_unblock. destruct (validate_downloaded _) as [s1 a1] eqn:Ev. intros Hi.
  bind_inv Hi as [s2 a2] eqn Ei. injection Hi as <-. apply validate_inv in Ev; [|by apply add_peer_inv].
  apply initialize_inv in Ei; [|done]. destruct (_ || _); [by apply wakers_inv|done].
Qed.

Lemma poll_inv waker random s s' o : ut_inv s → ut_poll_next waker random s = Ok (s', o) → ut_inv s' ∧ delivers o.
Proof.
  intros Hs. unfold ut_poll_next. intros Hn. bind_inv Hn as [s1 o1] eqn E1. apply completed_inv in E1 as [Hs1 Ho1]; [|done].
  bind_inv Hn as [s2 o2] eqn E2. assert (H2 : ut_inv s2 ∧ delivers o2) by (destruct o1; [by injection E2 as <- <-|by apply request_inv in E2]).
  destruct H2 as [Hs2 Ho2]. bind_inv Hn as [s3 o3] eqn E3.
  assert (H3 : ut_inv s3 ∧ delivers o3) by (destruct o2; [by injection E3 as <- <-|by apply response_inv in E3]).
  destruct H3 as [Hs3 Ho3]. assert (Hs4 : ut_inv (check_sink_unblock s3)) by (unfold check_sink_unblock; destruct (negb _); [by apply wakers_inv|done]).
  destruct o3; injection Hn as <- <-; split; try done. by apply wakers_inv.
Qed.
End Stream.
End Account.

(** * Runs *)

Inductive ut_event :=
  | UItem (item : IDiscoveryMessage)
  | UUpdate (info : PeerInfo) (extended : ExtendedPeerInfo)
  | UReady (waker : nat)
  | UPoll (waker random : nat).

(** Metadata sizes are 64-bit integers, and agree with the metadata; data is a
    piece of the metadata. *)
Definition ut_event_ok (meta : ShaHash → option bytes) (e : ut_event) : Prop :=
  match e with
  | UItem (ReceivedUtMetadataMessage info (UtData data)) => data_ok meta info data
  | UUpdate info extended => size_ok meta info extended
  | _ => True
  end.

Section Run.
Context `{HashOrder} `{Sha1} (sched : list actor).

Definition ut_exec (e : ut_event) (s : UtMetadataModule) : res Empty_set (UtMetadataModule * option ODiscoveryMessage) :=
  match e with
  | UItem item => match ut_start_send sched item s with (_, Panic f) => Panic f | (s, _) => Ok (s, None) end
  | UUpdate info extended => s ← ut_on_update info extended s; Ok (s, None)
  | UReady waker => Ok ((ut_poll_ready waker s).1, None)
  | UPoll waker random => ut_poll_next waker random s
  end.

Fixpoint ut_run (es : list ut_event) (s : UtMetadataModule) : res Empty_set (UtMetadataModule * list ODiscoveryMessage) :=
  match es with
  | [] => Ok (s, [])
  | e :: es => '(s, o) ← ut_exec e s; '(s, os) ← ut_run es s; Ok (s, option_list o ++ os)
  end.

Section Invariant.
Context (meta : ShaHash → option bytes) (asked : ShaHash → Prop).

Lemma start_send_inv item s s' r : ut_event_ok meta (UItem item) → (∀ h, item = DownloadMetainfo h → asked h) →
  ut_inv meta asked s → ut_start_send sched item s = (s', r) → (∀ f, r ≠ Panic f) → ut_inv meta asked s'.
Proof.
  intros He Ha Hs. destruct item as [[m|m|p|p|d]|h|p [q|data|q]]; cbn [ut_start_send].
  - unfold ut_add_torrent. destruct (_ !! _); [by intros [= <- <-]|]. destruct (Info_to_bytes _ _); intros [= <- <-]; try done.
    intros _. by destruct Hs; split.
  - unfold ut_remove_torrent. destruct (_ !! _); intros [= <- <-]; [|done]. intros _. by destruct Hs; split.
  - by intros [= <- <-].
  - intros [= <- <-] _. by apply remove_peer_inv.
  - intros [= <- <-] _. by apply tick_inv.
  - intros [= <- <-] _. apply download_inv; [by apply Ha|done].
  - intros [= <- <-] _. unfold recv_request. destruct (_ <? _); [|done]. by destruct Hs; split.
  - destruct (recv_data p data s) as [s1|[]|f] eqn:Er; intros [= <- <-] Hr; [|by destruct (Hr f)]. by eapply data_inv.
  - by intros [= <- <-].
Qed.

Lemma exec_inv e s s' o : ut_event_ok meta e → (∀ h, e = UItem (DownloadMetainfo h) → asked h) →
  ut_inv meta asked s → ut_exec e s = Ok (s', o) → ut_inv meta asked s' ∧ delivers meta asked o.
Proof.
  intros He Ha Hs. destruct e as [item|info extended|waker|waker random]; cbn [ut_exec].
  - destruct (ut_start_send _ _ _) as [s1 r] eqn:Es. intros Hx. assert (Hr : ∀ f, r ≠ Panic f) by (intros f ->; done).
    assert (s1 = s' ∧ o = None) as [-> ->] by (destruct r; by simplify_eq). split; [|done].
    eapply start_send_inv; [done|..|exact Hs|exact Es|exact Hr]. intros h ->. by apply Ha.
  - intros Hu. bind_inv Hu as s1 eqn Eu. injection Hu as <- <-. split; [|done]. by eapply update_inv.
  - intros [= <- <-]. split; [|done]. unfold ut_poll_ready. destruct (_ <? _); [done|]. by apply wakers_inv.
  - by apply poll_inv.
Qed.

Lemma ut_run_inv es : ∀ s s' os, Forall (ut_event_ok meta) es → (∀ h, UItem (DownloadMetainfo h) ∈ es → asked h) →
  ut_inv meta asked s → ut_run es s = Ok (s', os) → ut_inv meta asked s' ∧ Forall (λ m, delivers meta asked (Some m)) os.
Proof.
  induction es as [|e es IH]; intros s s' os He Ha Hs; cbn [ut_run]; [by intros [= <- <-]|].
  intros Hr. apply Forall_cons in He as [He Hes]. bind_inv Hr as [s1 o] eqn Ee. bind_inv Hr as [s2 os2] eqn Er. injection Hr as <- <-.
  apply exec_inv in Ee as [Hs1 Ho]; [|done|intros h ->; apply Ha; by left|done].
  apply IH in Er as [Hs2 Hos]; [|done|intros h Hh; apply Ha; by right|done]. split; [done|]. apply Forall_app. split; [|done].
  destruct o as [m|]; [|done]. by apply Forall_singleton.
Qed.

Lemma new_inv : ut_inv meta asked UtMetadataModule_new.
Proof. split; [|by intros h a]. intros h. split; [done|by intros [? ?]]. Qed.

(** A message with data that fits is taken. *)
Lemma recv_data_fits info data s : ut_inv meta asked s →
  (∀ p, um_pending_map s !! pi_hash info = Some (Some p) → piece_in (pn_bytes p) (utd_piece data) →
    (utd_piece data * Z.of_nat MAX_REQUEST_SIZE + Z.of_nat (length (utd_data data)) ≤ Z.of_nat (length (pn_bytes p)))%Z) →
  ∃ s', recv_data info data s = Ok s'.
Proof.
  intros Hs Hf. unfold recv_data. destruct (iter_position _ _) as [index|] eqn:Ei; [|by eexists].
  destruct (request_entry _ _ _ _ _ _ Hs Ei) as (p & n & Ep & El & Hp & Hu & _). cbn [um_pending_map set_download].
  specialize (Hf p Ep Hp). rewrite Ep, El. unfold piece_in in Hp. destruct (Z.ltb_spec (utd_piece data) 0); [lia|].
  pose proof (num_pieces_start (length (pn_bytes p)) (Z.to_nat (utd_piece data)) ltac:(lia)).
  destruct (Z.ltb_spec u64_max (utd_piece data * Z.of_nat MAX_REQUEST_SIZE)); [lia|]. unfold write_at.
  destruct (Z.ltb_spec (Z.of_nat (length (pn_bytes p))) (utd_piece data * Z.of_nat MAX_REQUEST_SIZE)); [lia|].
  destruct (Nat.ltb_spec (length (pn_bytes p) - Z.to_nat (utd_piece data * Z.of_nat MAX_REQUEST_SIZE)) (length (utd_data data))); [lia|].
  rewrite bind_Ok. by eexists.
Qed.
End Invariant.

(** Claim C20. The account of a download: whatever peers send, a piece that has not arrived
    is asked for once, and data no longer than the rest of the metadata is taken. *)
Theorem metadata_account es s os :
  Forall (ut_event_ok (λ _, None)) es → ut_run es UtMetadataModule_new = Ok (s, os) →
  (∀ h p, um_pending_map s !! h = Some (Some p) →
     NoDup (outstanding p (requested_pieces h (um_active_requests s))) ∧
     pn_left p = length (outstanding p (requested_pieces h (um_active_requests s))) ∧
     Forall (piece_in (pn_bytes p)) (outstanding p (requested_pieces h (um_active_requests s)))) ∧
  ∀ info data,
    (∀ p, um_pending_map s !! pi_hash info = Some (Some p) → piece_in (pn_bytes p) (utd_piece data) →
      (utd_piece data * Z.of_nat MAX_REQUEST_SIZE + Z.of_nat (length (utd_data data)) ≤ Z.of_nat (length (pn_bytes p)))%Z) →
    ∃ s', recv_data info data s = Ok s'.
Proof.
  intros He Hr. apply (ut_run_inv (λ _, None) (λ _, True)) in Hr as [Hs _]; [|done|done|apply new_inv]. split; [|intros info data Hf; by eapply recv_data_fits].
  intros h p Eh. destruct Hs as [Hs _]. specialize (Hs h). rewrite Eh in Hs. destruct Hs as [(H1 & H2 & H3 & _) _]. done.
Qed.

(** With peers that send pieces of the metadata, no data makes the module panic
    and what it delivers is the metadata of a hash that was asked for. *)
Theorem honest_download (meta : ShaHash → bytes) es s os :
  Forall (ut_event_ok (λ h, Some (meta h))) es → ut_run es UtMetadataModule_new = Ok (s, os) →
  (∀ m, DownloadedMetainfo m ∈ os → ∃ h info,
     UItem (DownloadMetainfo h) ∈ es ∧ Info_from_bytes (meta h) = Ok info ∧ m = Metainfo_from info) ∧
  ∀ info data, utd_data data = piece_of (meta (pi_hash info)) (Z.to_nat (utd_piece data)) → ∃ s', recv_data info data s = Ok s'.
Proof.
  intros He Hr. apply (ut_run_inv (λ h, Some (meta h)) (λ h, UItem (DownloadMetainfo h) ∈ es)) in Hr as [Hs Hos]; [|done|done|apply new_inv]. split.
  - intros m Hm. destruct (proj1 (Forall_forall _ _) Hos _ Hm m) as (h & Hh & Hd); [done|].
    destruct (Hd _ eq_refl) as (info & Hi & ->). by exists h, info.
  - intros info data Hd. eapply recv_data_fits; [done|]. intros p Ep Hp. destruct Hs as [Hs _]. specialize (Hs (pi_hash info)).
    rewrite Ep in Hs. destruct Hs as [(_ & _ & _ & _ & Hl) _]. destruct (Hl _ eq_refl) as [Hl' _]. unfold piece_in in Hp.
    pose proof (num_pieces_start (length (pn_bytes p)) (Z.to_nat (utd_piece data)) ltac:(lia)).
    rewrite Hd, piece_of_length. lia.
Qed.

(** * Serving *)

(** The request of a peer at the head of the queue: a full piece is answered with
    its bytes; the last piece, if it is short, and what is not there are passed
    over without an answer; a negative piece makes the module panic. *)
Theorem serving_pieces completed r requests :
  (utq_piece (pr_request r) * Z.of_nat MAX_REQUEST_SIZE + Z.of_nat MAX_REQUEST_SIZE ≤ u64_max)%Z →
  let i := Z.to_nat (utq_piece (pr_request r)) in
  ((utq_piece (pr_request r) < 0)%Z → answer_requests completed (r :: requests) = Panic UnwrapNone) ∧
  ((0 ≤ utq_piece (pr_request r))%Z → completed !! pi_hash (pr_send_to r) = None →
    answer_requests completed (r :: requests) = answer_requests completed requests) ∧
  ∀ data, (0 ≤ utq_piece (pr_request r))%Z → completed !! pi_hash (pr_send_to r) = Some data →
    answer_requests completed (r :: requests) =
      if decide (length (piece_of data i) = MAX_REQUEST_SIZE) then
        Ok (requests, Some (SendUtMetadataMessage (pr_send_to r)
                              (UtData (UtMetadataDataMessage_new (utq_piece (pr_request r)) (Z.of_nat MAX_REQUEST_SIZE) (piece_of data i)))))
      else answer_requests completed requests.
Proof.
  pose proof max_request_pos as HM. intros Hu i. cbn [answer_requests].
  destruct (Z.ltb_spec (utq_piece (pr_request r)) 0) as [Hneg|Hpos]; [split; [done|]; split; intros; lia|].
  destruct (Z.ltb_spec u64_max (utq_piece (pr_request r) * Z.of_nat MAX_REQUEST_SIZE + Z.of_nat MAX_REQUEST_SIZE)); [lia|].
  split; [lia|]. split; [by intros _ ->|]. intros data _ ->.
  assert (Z.to_nat (utq_piece (pr_request r) * Z.of_nat MAX_REQUEST_SIZE) = i * MAX_REQUEST_SIZE) as -> by lia.
  assert (Z.to_nat (utq_piece (pr_request r) * Z.of_nat MAX_REQUEST_SIZE + Z.of_nat MAX_REQUEST_SIZE) =
          i * MAX_REQUEST_SIZE + MAX_REQUEST_SIZE) as -> by lia.
  change (slice data (i * MAX_REQUEST_SIZE) (i * MAX_REQUEST_SIZE + MAX_REQUEST_SIZE)) with (piece_of data i).
  rewrite piece_of_length. destruct (decide _) as [Hd|Hd].
  - destruct (Z.leb_spec (utq_piece (pr_request r) * Z.of_nat MAX_REQUEST_SIZE) (Z.of_nat (length data))); [|lia].
    destruct (Z.leb_spec (utq_piece (pr_request r) * Z.of_nat MAX_REQUEST_SIZE + Z.of_nat MAX_REQUEST_SIZE) (Z.of_nat (length data)));
      [|lia]. cbn [andb]. by rewrite Hd.
  - destruct (Z.leb_spec (utq_piece (pr_request r) * Z.of_nat MAX_REQUEST_SIZE + Z.of_nat MAX_REQUEST_SIZE) (Z.of_nat (length data)));
      [lia|]. by rewrite andb_false_r.
Qed.

(** * Metadata that was not asked for *)

Lemma hash_iter_singleton {K V} `{Countable K} (k : K) (v : V) : hash_iter ({[k := v]} : gmap K V) = [(k, v)].
Proof. apply Permutation_singleton_r. by rewrite hash_iter_perm, map_to_list_singleton. Qed.

Lemma num_pieces_one n : 0 < n ≤ MAX_REQUEST_SIZE → num_metadata_pieces n = 1.
Proof.
  pose proof max_request_pos as HM. intros Hn. unfold num_metadata_pieces. destruct (decide (n = MAX_REQUEST_SIZE)) as [->|Hne].
  - rewrite Nat.Div0.mod_same. cbn [Nat.eqb]. apply Nat.div_same. lia.
  - rewrite Nat.mod_small by lia. destruct (Nat.eqb_spec n 0); [lia|]. by rewrite Nat.div_small by lia.
Qed.

Definition first_piece (b : bytes) : UtMetadataDataMessage := UtMetadataDataMessage_new 0 (Z.of_nat (length b)) b.

(** The download of [h] from a peer that sends [b]. *)
Definition one_piece_download (h : ShaHash) (peer : PeerInfo) (extended : ExtendedPeerInfo) (b : bytes) : list ut_event :=
  [UItem (DownloadMetainfo h); UUpdate peer extended; UPoll 0 0; UItem (ReceivedUtMetadataMessage peer (UtData (first_piece b))); UPoll 0 0].

Definition ut_state (h : ShaHash) (p : option PendingInfo) (a : option ActivePeers) (requests : list ActiveRequest) : UtMetadataModule :=
  {| um_completed_map := ∅; um_pending_map := {[h := p]};
     um_active_peers := match a with Some a => {[h := a]} | None => ∅ end; um_active_requests := requests; um_peer_requests := [];
     um_opt_sink_waker := None; um_opt_stream_waker := None |}.

Lemma first_update h peer extended (b : bytes) : 0 < length b ≤ MAX_REQUEST_SIZE → pi_hash peer = h →
  supports_ut (ei_ours extended) = true → supports_ut (ei_theirs extended) = true →
  ei_theirs extended ≫= m_metadata_size = Some (Z.of_nat (length b)) →
  ut_on_update peer extended (ut_state h None None []) =
  Ok (ut_state h (Some {| pn_messages := [UtMetadataRequestMessage_new 0]; pn_left := 1; pn_bytes := replicate (length b) 0%Z |})
        (Some {| ap_peers := {[key_of peer := peer]}; ap_metadata_size := Z.of_nat (length b) |}) []).
Proof.
  intros Hb Hh Ho Ht Hm. unfold ut_on_update, ut_add_peer. rewrite Ho, Ht, Hm, Hh. cbn [ut_state um_active_peers set_active_peers set_download um_pending_map].
  rewrite lookup_empty. cbn [default from_option id ap_peers ap_metadata_size]. unfold peers_insert. rewrite lookup_empty.
  unfold check_stream_unblock, validate_downloaded, set_active_peers. cbn [um_pending_map set_download ut_state].
  rewrite hash_iter_singleton. cbn [validate_entries]. unfold initialize_pending, set_pending_map.
  cbn [um_pending_map set_download ut_state um_active_peers]. rewrite hash_iter_singleton. cbn [initialize_entries].
  rewrite insert_empty, lookup_singleton_eq. unfold pending_info_from_metadata_size. cbn [ap_metadata_size].
  destruct (Z.ltb_spec (Z.of_nat (length b)) 0); [lia|]. rewrite Nat2Z.id, num_pieces_one by done. rewrite !bind_Ok.
  cbn [seq fmap list_fmap]. rewrite insert_singleton_eq. unfold set_ut_wakers.
  cbn [um_peer_requests set_download ut_state length um_active_requests]. by destruct (_ || _).
Qed.

Lemma first_poll h peer n (b : bytes) : 
  ut_poll_next 0 0 (ut_state h (Some {| pn_messages := [UtMetadataRequestMessage_new 0]; pn_left := 1; pn_bytes := b |})
    (Some {| ap_peers := {[key_of peer := peer]}; ap_metadata_size := n |}) []) =
  Ok (ut_state h (Some {| pn_messages := []; pn_left := 1; pn_bytes := b |})
        (Some {| ap_peers := {[key_of peer := peer]}; ap_metadata_size := n |})
        [generate_active_request (UtMetadataRequestMessage_new 0) peer],
      Some (SendUtMetadataMessage peer (UtRequest (UtMetadataRequestMessage_new 0)))).
Proof.
  unfold ut_poll_next. cbn [um_pending_map ut_state]. rewrite map_size_singleton. cbn [retrieve_completed_download um_pending_map ut_state].
  rewrite hash_iter_singleton. cbn [List.find is_complete snd pn_left Nat.eqb]. rewrite bind_Ok. unfold retrieve_piece_request.
  cbn [um_pending_map ut_state]. rewrite hash_iter_singleton. cbn [List.find]. unfold askable. cbn [snd fst um_active_peers ut_state].
  rewrite lookup_singleton_eq. cbn [pn_messages length Nat.eqb negb ap_peers andb].
  rewrite bool_decide_eq_false_2 by apply map_non_empty_singleton. cbn [negb um_active_peers ut_state]. rewrite lookup_singleton_eq. cbn [ap_peers].
  rewrite hash_iter_singleton. cbn [fmap list_fmap lookup list_lookup last snd]. unfold set_download. cbn.
  rewrite insert_singleton_eq. done.
Qed.

Lemma piece_arrives h peer a (b : bytes) : 0 < length b → pi_hash peer = h →
  recv_data peer (first_piece b) (ut_state h (Some {| pn_messages := []; pn_left := 1; pn_bytes := replicate (length b) 0%Z |}) a
    [generate_active_request (UtMetadataRequestMessage_new 0) peer]) =
  Ok (ut_state h (Some {| pn_messages := []; pn_left := 0; pn_bytes := b |}) a []).
Proof.
  intros Hb Hh. unfold recv_data. cbn [um_active_requests ut_state iter_position].
  assert (is_request_of peer (utd_piece (first_piece b)) (generate_active_request (UtMetadataRequestMessage_new 0) peer) = true) as Hr.
  { unfold is_request_of, PeerInfo_eq. cbn. by rewrite !bool_decide_eq_true_2. }
  rewrite Hr. cbn. rewrite Hh, lookup_singleton_eq. unfold write_at. cbn [pn_left pn_bytes pn_messages]. rewrite length_replicate.
  rewrite Z.mul_0_l. destruct (Z.ltb_spec u64_max 0) as [Hu|_]; [by vm_compute in Hu|]. destruct (Z.ltb_spec (Z.of_nat (length b)) 0); [lia|]. cbn [Z.to_nat]. rewrite Nat.sub_0_r.
  destruct (Nat.ltb_spec (length b) (length b)); [lia|]. cbn [mbind]. cbn [take app]. rewrite Nat.add_0_l.
  rewrite drop_ge by (rewrite length_replicate; lia). rewrite app_nil_r. cbn. unfold set_pending_map, set_download. cbn.
  by rewrite insert_singleton_eq.
Qed.

Lemma completed_poll h a (b : bytes) info : Info_from_bytes b = Ok info →
  ∃ s, ut_poll_next 0 0 (ut_state h (Some {| pn_messages := []; pn_left := 0; pn_bytes := b |}) a []) =
       Ok (s, Some (DownloadedMetainfo (Metainfo_from info))).
Proof.
  intros Hi. unfold ut_poll_next. cbn [um_pending_map ut_state]. rewrite map_size_singleton.
  cbn [retrieve_completed_download um_pending_map ut_state]. rewrite hash_iter_singleton.
  cbn [List.find is_complete snd pn_left Nat.eqb pn_bytes]. rewrite Hi, !bind_Ok. by eexists.
Qed.

(** Claim C22. Metadata that parses is delivered whatever its hash: the hash is compared when
    the extension handshake of a peer is handled, not when the download ends. *)
Theorem unverified_delivered h peer extended b info :
  0 < length b ≤ MAX_REQUEST_SIZE → Info_from_bytes b = Ok info → pi_hash peer = h →
  supports_ut (ei_ours extended) = true → supports_ut (ei_theirs extended) = true →
  ei_theirs extended ≫= m_metadata_size = Some (Z.of_nat (length b)) →
  ∃ s, ut_run (one_piece_download h peer extended b) UtMetadataModule_new =
    Ok (s, [SendUtMetadataMessage peer (UtRequest (UtMetadataRequestMessage_new 0)); DownloadedMetainfo (Metainfo_from info)]).
Proof.
  intros Hb Hi Hh Ho Ht Hm. destruct (completed_poll h (Some {| ap_peers := {[key_of peer := peer]}; ap_metadata_size := Z.of_nat (length b) |}) b info Hi) as [s Hs].
  exists s. unfold one_piece_download. cbn [ut_run ut_exec ut_start_send]. rewrite bind_Ok.
  change (download_metainfo h UtMetadataModule_new) with (ut_state h None None []).
  rewrite (first_update h peer extended b) by done. rewrite !bind_Ok. rewrite first_poll, bind_Ok.
  rewrite piece_arrives by (done || lia). rewrite bind_Ok, Hs. done.
Qed.
End Run.

(** * A download *)

#[local] Transparent MAX_REQUEST_SIZE.

Definition sample_metadata : bytes := bstr "d6:lengthi3e4:name1:a12:piece lengthi4e6:pieces20:aaaaaaaaaaaaaaaaaaaae".
Definition sample_peer : PeerInfo := PeerInfo_new default_route_v4 [7%Z] {| hash := [1%Z] |} Extensions_new.
Definition sample_extended : ExtendedPeerInfo :=
  let message := {| m_id_map := {[ExtUtMetadata := 5%Z]}; m_our_id := None; m_our_tcp_port := None; m_their_ip := None; m_our_ipv6_addr := None;
                    m_our_ipv4_addr := None; m_our_max_requests := None; m_metadata_size := Some (Z.of_nat (length sample_metadata));
                    m_raw_bencode := [] |} in
  {| ei_ours := Some message; ei_theirs := Some message |}.
Definition sample_download : list ut_event := one_piece_download {| hash := [1%Z] |} sample_peer sample_extended sample_metadata.
Definition sample_run : res Empty_set (UtMetadataModule * list ODiscoveryMessage) :=
  ut_run (H := hash_order_lists) (H0 := toy_sha1) [] sample_download UtMetadataModule_new.
Definition sample_parsed : res ParseError Info := Info_from_bytes (H := toy_sha1) sample_metadata.

Lemma sample_events_ok (meta : ShaHash → option bytes) :
  (∀ d, meta {| hash := [1%Z] |} = Some d → d = sample_metadata) → Forall (ut_event_ok meta) sample_download.
Proof.
  intros Hm. unfold sample_download, one_piece_download. repeat apply Forall_cons_2; try done.
  - intros n [= <-]. split; [by vm_compute|]. intros d Hd. by rewrite (Hm d Hd).
  - intros d Hd. rewrite (Hm d Hd). by vm_compute.
Qed.

Lemma metadata_account_witness : ∃ s os, sample_run = Ok (s, os) ∧
  ∀ h p, um_pending_map s !! h = Some (Some p) → pn_left p = length (outstanding p (requested_pieces h (um_active_requests s))).
Proof.
  destruct sample_run as [[s os]|e|f] eqn:E; [|by vm_compute in E..]. exists s, os. split; [exact eq_refl|]. intros h p Hp.
  apply (proj1 (metadata_account (H := hash_order_lists) (H0 := toy_sha1) [] _ _ _ (sample_events_ok (λ _, None) ltac:(done)) E) h p Hp).
Defined.

Lemma honest_download_witness : ∃ s os info, sample_run = Ok (s, os) ∧ DownloadedMetainfo (Metainfo_from info) ∈ os ∧ 
  Info_from_bytes (H := toy_sha1) sample_metadata = Ok info.
Proof.
  destruct sample_run as [[s os]|e|f] eqn:E; [|by vm_compute in E..].
  assert (Hm : ∃ m, DownloadedMetainfo m ∈ os).
  { vm_compute in E. injection E as _ <-. eexists. right. left. }
  destruct Hm as [m Hm].
  destruct (proj1 (honest_download (H := hash_order_lists) (H0 := toy_sha1) [] (λ _, sample_metadata) _ _ _
    (sample_events_ok (λ _, Some sample_metadata) (λ d Hd, eq_sym (f_equal (default []) Hd))) E) m Hm) as (h & info & _ & Hi & ->).
  exists s, os, info. split; [exact eq_refl|]. split; [exact Hm|exact Hi].
Defined.

Lemma serving_pieces_witness :
  answer_requests {[{| hash := [1%Z] |} := sample_metadata]}
    [{| pr_send_to := sample_peer; pr_request := UtMetadataRequestMessage_new 0 |}] = Ok ([], None).
Proof.
  destruct (serving_pieces {[{| hash := [1%Z] |} := sample_metadata]}
    {| pr_send_to := sample_peer; pr_request := UtMetadataRequestMessage_new 0 |} []) as (_ & _ & Hs); [by vm_compute|].
  rewrite (Hs sample_metadata); [|by vm_compute|by vm_compute].
  destruct (decide _) as [E|_]; [|exact eq_refl]. rewrite piece_of_length in E. by vm_compute in E.
Defined.

Lemma unverified_delivered_witness : ∃ info s,
  sample_parsed = Ok info ∧ i_info_hash info ≠ {| hash := [1%Z] |} ∧ 
  sample_run = Ok (s, [SendUtMetadataMessage sample_peer (UtRequest (UtMetadataRequestMessage_new 0)); DownloadedMetainfo (Metainfo_from info)]).
Proof.
  destruct sample_parsed as [info|e|f] eqn:E; [|by vm_compute in E..].
  destruct (unverified_delivered (H := hash_order_lists) (H0 := toy_sha1) [] {| hash := [1%Z] |} sample_peer sample_extended sample_metadata info)
    as [s Hs]; [split; [by apply Nat.ltb_lt|by apply Nat.leb_le]|exact E|reflexivity..|].
  exists info, s. split; [exact eq_refl|]. split; [|exact Hs]. vm_compute in E. injection E as <-. vm_compute. discriminate.
Defined.
