(* ===== verification/UtLive.v ===== *)
(** Metadata is downloaded: peers that answer requests with pieces of the
    metadata, in any order, bring the download to its end. *)

From stdpp Require Import base numbers gmap strings relations list.
From S2P Require Import Prelude RustStd Extern Io Convert Sha Path Bencode Metainfo Float Hasher MetaBuild Handshake PeerStandard PeerExtended Reveal UtModule UtProps.

Section Live.
Context `{HashOrder} `{Sha1} (sched : list actor) (h : ShaHash) (d : bytes) (info : Info)
  (Hlen : is_i64 (Z.of_nat (length d))) (Hinfo : Info_from_bytes d = Ok info).

Definition meta_of (h' : ShaHash) : option bytes := if decide (h' = h) then Some d else None.
Abbreviation inv := (ut_inv meta_of (λ _, True)).
Abbreviation n_pieces := (num_metadata_pieces (length d)).

(** The answer of a peer that has the metadata. *)
Definition piece_message (i : Z) : UtMetadataDataMessage :=
  UtMetadataDataMessage_new i (Z.of_nat (length d)) (piece_of d (Z.to_nat i)).

(** A step of the download: a poll that asks for a piece, or the answer to a
    request that is out. *)
Inductive fetch (s s' : UtMetadataModule) : Prop :=
  | fetch_request waker random peer request :
      ut_poll_next waker random s = Ok (s', Some (SendUtMetadataMessage peer (UtRequest request))) → fetch s s'
  | fetch_answer r : r ∈ um_active_requests s →
      ut_start_send sched (ReceivedUtMetadataMessage (ar_sent_to r) (UtData (piece_message (utq_piece (ar_message r))))) s = (s', Ok ()) → fetch s s'.

(** [k] steps are left: two for a piece to ask for, one for a piece asked for. *)
Record fetching (k : nat) (s : UtMetadataModule) (p : PendingInfo) (a : ActivePeers) : Prop := {
  fe_inv : inv s;
  fe_pending : um_pending_map s = {[h := Some p]};
  fe_steps : 2 * length (pn_messages p) + length (um_active_requests s) = k;
  fe_peers : um_active_peers s !! h = Some a;
  fe_some : ap_peers a ≠ ∅;
  fe_requests : Forall (λ r, pi_hash (ar_sent_to r) = h) (um_active_requests s)
}.

Lemma requested_all l : Forall (λ r, pi_hash (ar_sent_to r) = h) l → length (requested_pieces h l) = length l.
Proof using. induction 1 as [|r l Hr Hl IH]; [done|]. rewrite requested_cons, decide_True by done. cbn. by rewrite IH. Qed.

Lemma fetching_left k s p a : fetching k s p a → pn_left p = length (pn_messages p) + length (um_active_requests s).
Proof using.
  intros [[He _] Ep _ _ _ Hr]. specialize (He h). rewrite Ep, lookup_singleton_eq in He. destruct He as [(_ & -> & _) _].
  unfold outstanding. by rewrite length_app, length_fmap, requested_all.
Qed.

(** While something is missing the poll asks for a piece if there is one to ask for. *)
Lemma fetching_not_complete k s p a : fetching (S k) s p a → retrieve_completed_download (size (um_pending_map s)) s = Ok (s, None).
Proof using.
  intros Hf. pose proof (fetching_left _ _ _ _ Hf) as Hl. destruct Hf as [_ Ep Hk _ _ _]. rewrite Ep, map_size_singleton.
  cbn [retrieve_completed_download]. rewrite Ep, hash_iter_singleton. cbn [List.find is_complete snd].
  by rewrite (proj2 (Nat.eqb_neq _ _)) by lia.
Qed.


Definition asked_of (p : PendingInfo) : PendingInfo :=
  {| pn_messages := take (length (pn_messages p) - 1) (pn_messages p); pn_left := pn_left p; pn_bytes := pn_bytes p |}.

Lemma fetching_asks k s p a random : fetching k s p a →
  retrieve_piece_request random s =
  match last (pn_messages p), (snd <$> hash_iter (ap_peers a)) !! random with
  | None, _ => Ok (s, None)
  | Some m, Some q =>
      Ok (set_download {[h := Some (asked_of p)]} (um_active_peers s) (um_active_requests s ++ [generate_active_request m q]) s,
          Some (SendUtMetadataMessage q (UtRequest m)))
  | Some _, None => Panic UnwrapNone
  end.
Proof using.
  intros [_ Ep _ Ea Hs _]. unfold retrieve_piece_request. rewrite Ep, hash_iter_singleton. cbn [List.find]. unfold askable. cbn [fst snd].
  rewrite Ea, (bool_decide_eq_false_2 _ Hs), andb_true_r. destruct (last (pn_messages p)) as [m|] eqn:El.
  - destruct (pn_messages p) as [|m' ms] eqn:Em; [done|]. cbn [length Nat.eqb negb]. rewrite Ea, Em, El, insert_singleton_eq.
    by unfold asked_of; rewrite Em; destruct (_ !! random).
  - by apply last_None in El as ->.
Qed.

Lemma fetching_poll k s p a waker random m q : fetching k s p a →
  last (pn_messages p) = Some m → (snd <$> hash_iter (ap_peers a)) !! random = Some q →
  ∃ s', ut_poll_next waker random s = Ok (s', Some (SendUtMetadataMessage q (UtRequest m))).
Proof using.
  intros Hf Hm Hq. destruct k as [|k].
  { destruct Hf as [_ _ Hk _ _ _]. destruct (pn_messages p); [done|cbn in Hk; lia]. }
  unfold ut_poll_next. rewrite (fetching_not_complete _ _ _ _ Hf), bind_Ok. rewrite (fetching_asks _ _ _ _ _ Hf), Hm, Hq.
  rewrite !bind_Ok. by eexists.
Qed.

(** When nothing is missing the poll delivers the metadata. *)
Lemma fetching_done s p a waker random : fetching 0 s p a →
  ∃ s', ut_poll_next waker random s = Ok (s', Some (DownloadedMetainfo (Metainfo_from info))).
Proof using Hinfo.
  intros Hf. pose proof (fetching_left _ _ _ _ Hf) as Hl. destruct Hf as [Hi Ep Hk _ _ _].
  destruct (delete_inv meta_of (λ _, True) h p s) as (_ & _ & Hb); [by rewrite Ep, lookup_singleton_eq|lia|done|].
  specialize (Hb d). unfold meta_of in Hb. rewrite decide_True in Hb by done.
  unfold ut_poll_next. rewrite Ep, map_size_singleton. cbn [retrieve_completed_download]. rewrite Ep, hash_iter_singleton.
  cbn [List.find is_complete snd]. rewrite (proj2 (Nat.eqb_eq _ _)) by lia. rewrite Hb, Hinfo, !bind_Ok by done. by eexists.
Qed.

Lemma unblock_fields s : um_pending_map (check_sink_unblock s) = um_pending_map s ∧
  um_active_peers (check_sink_unblock s) = um_active_peers s ∧ um_active_requests (check_sink_unblock s) = um_active_requests s.
Proof using. unfold check_sink_unblock. by destruct (negb _). Qed.

Lemma fetching_sent k s p a m q s' : fetching k s p a → last (pn_messages p) = Some m → pi_hash q = h → inv s' →
  s' = check_sink_unblock (set_download {[h := Some (asked_of p)]} (um_active_peers s)
         (um_active_requests s ++ [generate_active_request m q]) s) →
  fetching (k - 1) s' (asked_of p) a ∧ k ≠ 0.
Proof using.
  intros [_ _ Hk Ha Hs Hr] Hm Hq Hi ->. destruct (unblock_fields (set_download {[h := Some (asked_of p)]} (um_active_peers s)
         (um_active_requests s ++ [generate_active_request m q]) s)) as (E1 & E2 & E3).
  assert (Hp : length (pn_messages p) ≠ 0) by (by destruct (pn_messages p)).
  split; [split|lia]; rewrite ?E1, ?E2, ?E3; cbn [um_pending_map um_active_peers um_active_requests set_download]; try done.
  - cbn [asked_of pn_messages]. rewrite length_take, length_app. cbn [length]. lia.
  - apply Forall_app. split; [done|]. by apply Forall_singleton.
Qed.

Lemma fetching_request k s p a waker random s' q m : fetching k s p a →
  ut_poll_next waker random s = Ok (s', Some (SendUtMetadataMessage q (UtRequest m))) →
  fetching (k - 1) s' (asked_of p) a ∧ k ≠ 0.
Proof using Hinfo.
  intros Hf Hn. destruct k as [|k]; [by destruct (fetching_done s p a waker random Hf) as [s1 E]; rewrite E in Hn|].
  assert (Hi' := proj1 (poll_inv _ _ _ _ _ _ _ (fe_inv _ _ _ _ Hf) Hn)). unfold ut_poll_next in Hn.
  rewrite (fetching_not_complete _ _ _ _ Hf), bind_Ok, (fetching_asks _ _ _ _ _ Hf) in Hn.
  destruct (last (pn_messages p)) as [m'|] eqn:Em.
  - destruct (_ !! random) as [q'|] eqn:Eq; [|done]. rewrite !bind_Ok in Hn. injection Hn as <- <- <-.
    eapply fetching_sent; [done..| |done|done]. destruct Hf as [[_ Hp] _ _ Ha _ _]. destruct (Hp _ _ Ha) as [Hh _].
    apply list_elem_of_lookup_2, list_elem_of_fmap in Eq as ([x y] & -> & Hin). rewrite hash_iter_perm in Hin.
    apply elem_of_map_to_list in Hin. by eapply Hh.
  - rewrite bind_Ok in Hn. bind_inv Hn as [s1 o1] eqn E1. unfold retrieve_piece_response in E1. bind_inv E1 as [rs o2] eqn E2.
    injection E1 as <- <-. destruct o2 as [o|]; [|done]. apply answer_requests_message in E2 as (? & ? & ->). done.
Qed.

(** The answer to a request is taken. *)
Lemma fetching_answered k s p a r : fetching k s p a → r ∈ um_active_requests s →
  ∃ s' p', recv_data (ar_sent_to r) (piece_message (utq_piece (ar_message r))) s = Ok s' ∧ fetching (k - 1) s' p' a ∧ k ≠ 0.
Proof using.
  intros Hf Hr. destruct Hf as [Hi Ep Hk Ha Hs Hh]. assert (Hrh := proj1 (Forall_forall _ _) Hh r Hr).
  assert (Hd : data_ok meta_of (ar_sent_to r) (piece_message (utq_piece (ar_message r)))).
  { intros d'. unfold meta_of. rewrite decide_True by done. by intros [= <-]. }
  destruct (recv_data_fits meta_of (λ _, True) (ar_sent_to r) (piece_message (utq_piece (ar_message r))) s Hi) as [s' Es'].
  { rewrite Hrh, Ep, lookup_singleton_eq. intros ? [= <-] Hp. unfold piece_in in Hp. cbn in Hp.
    destruct Hi as [Hi _]. specialize (Hi h). rewrite Ep, lookup_singleton_eq in Hi. destruct Hi as [(_ & _ & _ & _ & Hl) _].
    destruct (Hl d) as [Hl' _]; [unfold meta_of; by rewrite decide_True|].
    pose proof (num_pieces_start (length (pn_bytes p)) (Z.to_nat (utq_piece (ar_message r))) ltac:(lia)).
    unfold piece_message, UtMetadataDataMessage_new. cbn [utd_piece utd_data]. rewrite piece_of_length. lia. }
  assert (Hi' := data_inv _ _ _ _ _ _ Hd Hi Es'). exists s'. revert Es'. unfold recv_data.
  destruct (iter_position _ _) as [index|] eqn:Ei.
  2: { apply iter_position_None in Ei. apply (proj1 (Forall_forall _ _) Ei) in Hr. unfold is_request_of, PeerInfo_eq in Hr.
       rewrite !bool_decide_eq_true_2, Z.eqb_refl in Hr by done. done. }
  cbn [um_pending_map set_download]. rewrite Hrh, Ep, lookup_singleton_eq. destruct (_ <? 0)%Z; [done|]. destruct (_ <? _)%Z; [done|].
  destruct (pn_left p) as [|n]; [done|]. destruct (write_at _ _ _) as [b|e|f]; [|done..]. rewrite bind_Ok. intros Hw. assert (Hw' := Hw).
  injection Hw' as <-. eexists. split; [exact Hw|]. apply request_found in Ei as (r' & Hperm & _).
  assert (Hsize := Permutation_length Hperm). cbn [length] in Hsize. split; [|lia]. split; try done.
  - cbn [um_pending_map set_pending_map set_download]. by rewrite insert_singleton_eq.
  - cbn [pn_messages um_active_requests set_pending_map set_download]. lia.
  - cbn [um_active_requests set_pending_map set_download]. rewrite Hperm in Hh. by apply Forall_cons in Hh as [_ Hh].
Qed.
(** ** The start *)

Definition new_pending : PendingInfo :=
  {| pn_messages := (λ i : nat, UtMetadataRequestMessage_new (Z.of_nat i)) <$> seq 0 n_pieces; pn_left := n_pieces; pn_bytes := replicate (length d) 0%Z |}.

(** Both sides have the extension, and theirs names the size of the metadata. *)
Definition has_metadata (extended : ExtendedPeerInfo) : Prop :=
  supports_ut (ei_ours extended) = true ∧ supports_ut (ei_theirs extended) = true ∧
  ei_theirs extended ≫= m_metadata_size = Some (Z.of_nat (length d)).

Lemma unblock_effect s o a : um_pending_map s = {[h := o]} → (∀ p, o = Some p → pn_left p ≠ 0) →
  um_active_peers s !! h = Some a → ap_metadata_size a = Z.of_nat (length d) →
  ∃ s', check_stream_unblock s = Ok s' ∧ um_pending_map s' = {[h := Some (default new_pending o)]} ∧
    um_active_requests s' = um_active_requests s ∧ um_active_peers s' = um_active_peers s.
Proof using.
  intros Ep Ho Ha Hz. unfold check_stream_unblock, validate_downloaded. rewrite Ep, hash_iter_singleton.
  assert (validate_entries [(h, o)] {[h := o]} false = ({[h := o]}, false)) as ->.
  { cbn [validate_entries]. destruct o as [p|]; [|done]. by rewrite (proj2 (Nat.eqb_neq _ _)) by (by apply Ho). }
  unfold initialize_pending. cbn [um_pending_map um_active_peers set_pending_map set_download]. rewrite hash_iter_singleton.
  assert (∃ available, initialize_entries (um_active_peers s) [(h, o)] {[h := o]} false =
            Ok ({[h := Some (default new_pending o)]}, available)) as [available ->].
  { cbn [initialize_entries]. destruct o as [p|]; [rewrite bind_Ok, insert_singleton_eq; by eexists|].
    rewrite Ha. unfold pending_info_from_metadata_size. rewrite Hz. destruct (Z.ltb_spec (Z.of_nat (length d)) 0); [lia|].
    rewrite Nat2Z.id, !bind_Ok, insert_singleton_eq. by eexists. }
  rewrite !bind_Ok. eexists. split; [done|]. by destruct (_ || _).
Qed.

Lemma peers_insert_ne (q : PeerInfo) (l : peer_set) : peers_insert q l ≠ ∅.
Proof using.
  unfold peers_insert. destruct (l !! key_of q) as [x|] eqn:E; [intros ->; by rewrite lookup_empty in E|]. apply insert_non_empty.
Qed.

Lemma has_size_ok q extended : pi_hash q = h → has_metadata extended → size_ok meta_of q extended.
Proof using Hlen.
  intros Hq (_ & _ & Hm) n Hn. rewrite Hm in Hn. injection Hn as <-. split; [done|]. intros d'. unfold meta_of.
  rewrite decide_True by done. by intros [= <-].
Qed.

Lemma update_effect q extended s o : inv s → um_pending_map s = {[h := o]} → (∀ p, o = Some p → pn_left p ≠ 0) →
  pi_hash q = h → has_metadata extended →
  ∃ s' a, ut_on_update q extended s = Ok s' ∧ um_pending_map s' = {[h := Some (default new_pending o)]} ∧
    um_active_requests s' = um_active_requests s ∧ um_active_peers s' !! h = Some a ∧ ap_peers a ≠ ∅ ∧ inv s'.
Proof using Hlen.
  intros Hi Ep Ho Hq Hm. assert (Hz := has_size_ok q extended Hq Hm).
  assert (Hi1 := add_peer_inv meta_of (λ _, True) q extended s Hz Hi).
  assert (Ha : ∃ a, um_active_peers (ut_add_peer q extended s) !! h = Some a ∧ ap_peers a ≠ ∅ ∧
    um_pending_map (ut_add_peer q extended s) = {[h := o]} ∧ um_active_requests (ut_add_peer q extended s) = um_active_requests s).
  { destruct Hm as (H1 & H2 & H3). unfold ut_add_peer. rewrite H1, H2, H3, Hq. eexists.
    cbn [um_active_peers set_active_peers set_download]. rewrite lookup_insert_eq. split; [done|].
    split; [apply peers_insert_ne|done]. }
  destruct Ha as (a & Ea & Hne & Ep1 & Er1). destruct Hi1 as [_ Hpe]. destruct (Hpe _ _ Ea) as (_ & _ & Hs).
  destruct (unblock_effect (ut_add_peer q extended s) o a Ep1 Ho Ea) as (s' & Eu & E1 & E2 & E3).
  { apply Hs. unfold meta_of. by rewrite decide_True. }
  exists s', a. split; [exact Eu|]. rewrite E1, E2, E3. do 4 (split; [done|]). by eapply update_inv.
Qed.

Lemma new_pending_left : d ≠ [] → pn_left new_pending ≠ 0.
Proof using.
  intros Hd. cbn [new_pending pn_left]. pose proof (num_pieces_covers (length d) 0) as Hc.
  assert (length d ≠ 0) by (by rewrite length_zero_iff_nil). specialize (Hc ltac:(lia)). lia.
Qed.

Definition connect_all (extended : ExtendedPeerInfo) (peers : list PeerInfo) : list ut_event :=
  (λ q, UUpdate q extended) <$> peers.

(** More peers change nothing of what is left. *)
Lemma connect_more extended peers : has_metadata extended → Forall (λ q, pi_hash q = h) peers → ∀ k s p a,
  fetching (S k) s p a → ∃ s' a', ut_run sched (connect_all extended peers) s = Ok (s', []) ∧ fetching (S k) s' p a'.
Proof using Hlen.
  intros Hm. induction 1 as [|q peers Hq Hps IH]; intros k s p a Hf; [by exists s, a|].
  cbn [connect_all fmap list_fmap ut_run ut_exec]. pose proof (fetching_left _ _ _ _ Hf) as Hl. destruct Hf as [Hi Ep Hk Ha Hs Hr].
  destruct (update_effect q extended s (Some p)) as (s1 & a1 & Eu & E1 & E2 & E3 & E4 & Hi1); [done|done| |done..|].
  { intros ? [= <-]. lia. }
  rewrite Eu, !bind_Ok. destruct (IH k s1 p a1) as (s' & a' & Er & Hf'); [by split; rewrite ?E2|].
  fold (connect_all extended peers). rewrite Er, bind_Ok. by exists s', a'.
Qed.

Lemma connect_first extended q s : has_metadata extended → pi_hash q = h → d ≠ [] →
  s = download_metainfo h UtMetadataModule_new →
  ∃ s' a, ut_on_update q extended s = Ok s' ∧ fetching (2 * n_pieces) s' new_pending a.
Proof using Hlen.
  intros Hm Hq Hd ->. destruct (update_effect q extended (download_metainfo h UtMetadataModule_new) None) as (s1 & a1 & Eu & E1 & E2 & E3 & E4 & Hi1); try done.
  { by apply download_inv; [|apply new_inv]. }
  exists s1, a1. split; [done|]. split; try done; rewrite E2; [|done]. cbn [default new_pending pn_messages]. rewrite length_fmap, length_seq. change (um_active_requests _) with (@nil ActiveRequest). cbn [length]. lia.
Qed.
(** ** Steps *)

Lemma fetch_fetching k s s' p a : fetching k s p a → fetch s s' → k ≠ 0 ∧ ∃ p', fetching (k - 1) s' p' a.
Proof using Hinfo.
  intros Hf [waker random q m Hn|r Hr Hx].
  - destruct (fetching_request _ _ _ _ _ _ _ _ _ Hf Hn) as [Hf' Hk]. split; [done|]. by eexists.
  - destruct (fetching_answered _ _ _ _ _ Hf Hr) as (s1 & p' & Es & Hf' & Hk). cbn [ut_start_send] in Hx. rewrite Es in Hx.
    injection Hx as <-. split; [done|]. by exists p'.
Qed.

Lemma fetches_fetching n : ∀ k s s' p a, fetching k s p a → nsteps fetch n s s' → n ≤ k ∧ ∃ p', fetching (k - n) s' p' a.
Proof using Hinfo.
  induction n as [|n IH]; intros k s s' p a Hf Hn; inversion Hn as [|? ? s1 ? Hs Hn']; subst.
  { split; [lia|]. rewrite Nat.sub_0_r. by exists p. }
  destruct (fetch_fetching _ _ _ _ _ Hf Hs) as (Hk & p1 & Hf1). destruct (IH _ _ _ _ _ Hf1 Hn') as (Hle & p' & Hf').
  split; [lia|]. exists p'. by replace (k - S n) with (k - 1 - n) by lia.
Qed.

Lemma fetching_goes_on k s p a : fetching k s p a → k ≠ 0 → ∃ s', fetch s s'.
Proof using.
  intros Hf Hk. destruct (last (pn_messages p)) as [m|] eqn:Em.
  - destruct (map_choose (ap_peers a)) as (x & q & Hq); [apply Hf|]. apply elem_of_map_to_list in Hq.
    rewrite <- hash_iter_perm in Hq. apply (list_elem_of_fmap_2 snd), list_elem_of_lookup in Hq as [random Hq].
    destruct (fetching_poll _ _ _ _ 0 random m q Hf Em Hq) as [s' Es']. exists s'. by eapply fetch_request.
  - apply last_None in Em. destruct (um_active_requests s) as [|r l] eqn:Er.
    { destruct Hf as [_ _ Hf _ _ _]. rewrite Em, Er in Hf. cbn in Hf. lia. }
    assert (Hr : r ∈ um_active_requests s) by (rewrite Er; by left).
    destruct (fetching_answered _ _ _ _ _ Hf Hr) as (s' & p' & Es & _). exists s'. eapply fetch_answer; [exact Hr|].
    cbn [ut_start_send]. by rewrite Es.
Qed.
End Live.

(** Claim C19. The metadata of a torrent is downloaded.  Once it is asked for and some peers
    that have it are there, every run of requests and answers, whichever peers are
    drawn and in whatever order they answer, is as long as twice the number of
    pieces: a shorter run goes on, no answer makes the module panic, and at the
    end of a full one the poll delivers the metadata. *)
Theorem metadata_completes `{HashOrder} `{Sha1} sched h d info extended peers :
  d ≠ [] → is_i64 (Z.of_nat (length d)) → Info_from_bytes d = Ok info →
  has_metadata d extended → peers ≠ [] → Forall (λ q, pi_hash q = h) peers →
  ∃ s0, ut_run sched (UItem (DownloadMetainfo h) :: connect_all extended peers) UtMetadataModule_new = Ok (s0, []) ∧
  ∀ n s, nsteps (fetch sched d) n s0 s →
    n ≤ 2 * num_metadata_pieces (length d) ∧
    (n ≠ 2 * num_metadata_pieces (length d) → ∃ s', fetch sched d s s') ∧
    (∀ r, r ∈ um_active_requests s → ∃ s', recv_data (ar_sent_to r) (piece_message d (utq_piece (ar_message r))) s = Ok s') ∧
    (n = 2 * num_metadata_pieces (length d) → ∀ waker random,
       ∃ s', ut_poll_next waker random s = Ok (s', Some (DownloadedMetainfo (Metainfo_from info)))).
Proof.
  intros Hd Hlen Hinfo Hm Hp Hps. destruct peers as [|q peers]; [done|]. apply Forall_cons in Hps as [Hq Hps].
  destruct (connect_first h d Hlen extended q _ Hm Hq Hd eq_refl) as (s1 & a1 & E1 & Hf1).
  assert (Hn := new_pending_left d Hd). cbn [new_pending pn_left] in Hn.
  assert (Hk : ∃ k, 2 * num_metadata_pieces (length d) = S k) by (exists (2 * num_metadata_pieces (length d) - 1); lia).
  destruct Hk as [k Hk]. rewrite Hk in Hf1. destruct (connect_more sched h d Hlen extended peers Hm Hps k s1 _ a1 Hf1) as (s0 & a0 & E0 & Hf0).
  rewrite <- Hk in Hf0. exists s0. split.
  { cbn [connect_all fmap list_fmap ut_run ut_exec ut_start_send]. rewrite !bind_Ok, E1, !bind_Ok. fold (connect_all extended peers).
    by rewrite E0, !bind_Ok. }
  intros n s Hs. destruct (fetches_fetching sched h d info Hinfo n _ _ _ _ _ Hf0 Hs) as (Hle & p' & Hf). split; [done|]. split; [|split].
  - intros Hne. eapply fetching_goes_on; [done|lia].
  - intros r Hr. destruct (fetching_answered _ _ _ _ _ _ _ Hf Hr) as (s' & _ & Es & _). by exists s'.
  - intros -> waker random. rewrite Nat.sub_diag in Hf. by eapply fetching_done.
Qed.

(** A download with two peers. *)
Definition second_peer : PeerInfo := PeerInfo_new default_route_v4 [8%Z] {| hash := [1%Z] |} Extensions_new.

Lemma metadata_completes_witness : ∃ s0 s', 
  ut_run (H := hash_order_lists) (H0 := toy_sha1) []
    (UItem (DownloadMetainfo {| hash := [1%Z] |}) :: connect_all sample_extended [sample_peer; second_peer]) UtMetadataModule_new = Ok (s0, []) ∧
  fetch (H := hash_order_lists) (H0 := toy_sha1) [] sample_metadata s0 s'.
Proof.
  destruct sample_parsed as [info|e|f] eqn:E; [|by vm_compute in E..].
  destruct (metadata_completes (H := hash_order_lists) (H0 := toy_sha1) [] {| hash := [1%Z] |} sample_metadata info sample_extended
    [sample_peer; second_peer]) as (s0 & Hs & Hn); [done|by vm_compute|exact E|done|done|by repeat constructor|].
  destruct (Hn 0 s0 (nsteps_O _ _)) as (_ & Hs' & _). destruct Hs' as [s' Hs']; [by vm_compute|]. exists s0, s'. split; [exact Hs|exact Hs'].
Defined.
