(* ===== verification/Uber.v ===== *)
(** packages/select: the extended module (extended/mod.rs) and the module that
    joins it with the discovery modules (uber/mod.rs, uber/sink.rs,
    uber/stream.rs).

    A discovery module is a type with the operations of [DiscoveryTrait]; the
    number drawn by a module in [poll_next] is an argument.  The sink and the
    stream share the modules behind a lock, so one state holds them. *)

From stdpp Require Import base numbers gmap strings list.
From S2P Require Import Prelude RustStd Extern Io Convert Sha Path Bencode Metainfo Float Hasher MetaBuild Handshake PeerStandard PeerExtended Reveal UtModule.

(** * Messages *)

Inductive IExtendedMessage := EControl (c : ControlMessage) | ReceivedExtendedMessage (p : PeerInfo) (m : ExtendedMessage).
Inductive OExtendedMessage := SendExtendedMessage (p : PeerInfo) (m : ExtendedMessage).

Inductive IUberMessage :=
  | UbControl (c : ControlMessage)
  | UbExtended (m : IExtendedMessage)
  | UbDiscovery (m : IDiscoveryMessage).
Inductive OUberMessage := OuExtended (m : OExtendedMessage) | OuDiscovery (m : ODiscoveryMessage).

(** error.rs *)
Inductive UberError := UE_Discovery (e : DiscoveryError).

(** * Discovery modules: [ExtendedListener], [Sink] and [Stream] *)

Class Discovery (D : Type) := {
  d_extend : PeerInfo → D → ExtendedMessageBuilder → ExtendedMessageBuilder;
  d_on_update : PeerInfo → ExtendedPeerInfo → D → res Empty_set D;
  d_start_send : IDiscoveryMessage → D → D * res DiscoveryError ();
  d_poll_flush : nat → D → D * poll (res DiscoveryError ());
  d_poll_next : nat → nat → D → res Empty_set (D * poll (option (res DiscoveryError ODiscoveryMessage)))
}.

#[export] Program Instance ut_discovery `{HashOrder} `{Sha1} (sched : list actor) : Discovery UtMetadataModule := {
  d_extend info _ builder := ut_extend info builder;
  d_on_update := ut_on_update;
  d_start_send := ut_start_send sched;
  d_poll_flush _ self := (self, Ready (Ok ()));
  d_poll_next waker random self :=
    '(self, o) ← ut_poll_next waker random self; Ok (self, match o with Some m => Ready (Some (Ok m)) | None => Pending end)
}.

Section Uber.
Context `{HashOrder} {D : Type} `{!Discovery D}.

(** * The extended module (extended/mod.rs) *)

Record ExtendedModule := {
  em_builder : ExtendedMessageBuilder;
  em_peers : gmap peer_key ExtendedPeerInfo;
  em_out_queue : list OExtendedMessage;
  em_opt_waker : option nat
}.

Definition ExtendedModule_new (builder : ExtendedMessageBuilder) : ExtendedModule :=
  {| em_builder := builder; em_peers := ∅; em_out_queue := []; em_opt_waker := None |}.

Definition em_set (peers : gmap peer_key ExtendedPeerInfo) (queue : list OExtendedMessage) (waker : option nat)
    (self : ExtendedModule) : ExtendedModule :=
  {| em_builder := em_builder self; em_peers := peers; em_out_queue := queue; em_opt_waker := waker |}.

(** [for d_module in d_modules]: a panic ends the loop. *)
Fixpoint update_all (info : PeerInfo) (extended : ExtendedPeerInfo) (d_modules : list D) : res Empty_set (list D) :=
  match d_modules with
  | [] => Ok []
  | d :: d_modules => d ← d_on_update info extended d; ds ← update_all info extended d_modules; Ok (d :: ds)
  end.

Definition em_check_stream_unblock (self : ExtendedModule) : ExtendedModule :=
  match em_out_queue self with
  | [] => self
  | _ => em_set (em_peers self) (em_out_queue self) None self
  end.

Definition process_message (message : IExtendedMessage) (self : ExtendedModule) (d_modules : list D)
    : res Empty_set (ExtendedModule * list D) :=
  '(self, d_modules) ←
    match message with
    | EControl (CPeerConnected info) =>
        let builder := foldl (λ builder d_module, d_extend info d_module builder) (em_builder self) d_modules in
        let ext_message := build builder in
        let ext_peer_info := ExtendedPeerInfo_new (Some ext_message) None in
        d_modules ← update_all info ext_peer_info d_modules;
        Ok (em_set (<[key_of info := ext_peer_info]> (em_peers self)) (em_out_queue self ++ [SendExtendedMessage info ext_message])
              (em_opt_waker self) self, d_modules)
    | EControl (CPeerDisconnected info) =>
        Ok (em_set (delete (key_of info) (em_peers self)) (em_out_queue self) (em_opt_waker self) self, d_modules)
    | ReceivedExtendedMessage info ext_message =>
        match em_peers self !! key_of info with
        | Some ext_peer_info =>
            let ext_peer_info := update_theirs ext_message ext_peer_info in
            d_modules ← update_all info ext_peer_info d_modules;
            Ok (em_set (<[key_of info := ext_peer_info]> (em_peers self)) (em_out_queue self) (em_opt_waker self) self, d_modules)
        | None => Ok (self, d_modules)
        end
    | EControl _ => Ok (self, d_modules)
    end;
  Ok (em_check_stream_unblock self, d_modules).

Definition em_poll_next (waker : nat) (self : ExtendedModule) : ExtendedModule * poll OExtendedMessage :=
  match em_out_queue self with
  | message :: queue => (em_set (em_peers self) queue (em_opt_waker self) self, Ready message)
  | [] => (em_set (em_peers self) [] (Some waker) self, Pending)
  end.

(** * The builder and the module (uber/mod.rs) *)

Record UberModuleBuilder := { ub_discovery : list D; ub_ext_builder : option ExtendedMessageBuilder }.

Definition UberModuleBuilder_new : UberModuleBuilder := {| ub_discovery := []; ub_ext_builder := None |}.
Definition with_extended_builder (builder : option ExtendedMessageBuilder) (self : UberModuleBuilder) : UberModuleBuilder :=
  {| ub_discovery := ub_discovery self; ub_ext_builder := builder |}.
Definition with_discovery_module (module : D) (self : UberModuleBuilder) : UberModuleBuilder :=
  {| ub_discovery := ub_discovery self ++ [module]; ub_ext_builder := ub_ext_builder self |}.

Record UberModule := { u_discovery : list D; u_extended : option ExtendedModule }.

Definition UberModule_from_builder (builder : UberModuleBuilder) : UberModule :=
  {| u_discovery := ub_discovery builder; u_extended := ExtendedModule_new <$> ub_ext_builder builder |}.

(** * The sink (uber/sink.rs) *)

(** [start_send_unpin(message)?] for each module: an error ends the loop. *)
Fixpoint start_all (message : IDiscoveryMessage) (modules : list D) : list D * res DiscoveryError () :=
  match modules with
  | [] => ([], Ok ())
  | d :: modules =>
      match d_start_send message d with
      | (d, Ok _) => let '(modules, r) := start_all message modules in (d :: modules, r)
      | (d, r) => (d :: modules, r)
      end
  end.

Definition lift_error {A} (r : res DiscoveryError A) : res UberError A :=
  match r with Ok a => Ok a | Err e => Err (UE_Discovery e) | Panic f => Panic f end.

Definition process_extended (message : IExtendedMessage) (self : UberModule) : res Empty_set UberModule :=
  match u_extended self with
  | Some extended =>
      '(extended, d_modules) ← process_message message extended (u_discovery self);
      Ok {| u_discovery := d_modules; u_extended := Some extended |}
  | None => Ok self
  end.

Definition start_discovery (message : IDiscoveryMessage) (self : UberModule) : UberModule * res UberError () :=
  let '(modules, r) := start_all message (u_discovery self) in
  ({| u_discovery := modules; u_extended := u_extended self |}, lift_error r).

Definition uber_handle_message (message : IUberMessage) (self : UberModule) : UberModule * res UberError () :=
  match message with
  | UbControl control =>
      match process_extended (EControl control) self with
      | Ok self => start_discovery (DControl control) self
      | Err _ => (self, Ok ())
      | Panic f => (self, Panic f)
      end
  | UbExtended extended =>
      match process_extended extended self with
      | Ok self => (self, Ok ())
      | Err _ => (self, Ok ())
      | Panic f => (self, Panic f)
      end
  | UbDiscovery discovery => start_discovery discovery self
  end.

Fixpoint flush_all (waker : nat) (modules : list D) : list D * poll (res DiscoveryError ()) :=
  match modules with
  | [] => ([], Ready (Ok ()))
  | d :: modules =>
      match d_poll_flush waker d with
      | (d, Ready (Ok _)) => let '(modules, r) := flush_all waker modules in (d :: modules, r)
      | (d, r) => (d :: modules, r)
      end
  end.

(** The last component: [cx.waker().wake_by_ref()] was called. *)
Definition poll_discovery_flush (waker : nat) (self : UberModule) : UberModule * poll (res UberError ()) * bool :=
  let '(modules, r) := flush_all waker (u_discovery self) in
  ({| u_discovery := modules; u_extended := u_extended self |},
   match r with Ready r => Ready (lift_error r) | Pending => Pending end,
   match r with Pending => true | Ready _ => false end).

Definition uber_poll_ready (self : UberModule) : poll (res UberError ()) := Ready (Ok ()).

(** * The stream (uber/stream.rs) *)

(** The first module that is ready ends the loop. *)
Fixpoint poll_modules (waker : nat) (random : nat) (modules : list D)
    : res Empty_set (list D * poll (option (res DiscoveryError ODiscoveryMessage))) :=
  match modules with
  | [] => Ok ([], Pending)
  | d :: modules =>
      '(d, r) ← d_poll_next waker random d;
      match r with
      | Ready r => Ok (d :: modules, Ready r)
      | Pending => '(modules, r) ← poll_modules waker random modules; Ok (d :: modules, r)
      end
  end.

Definition uber_poll_discovery (waker random : nat) (self : UberModule)
    : res Empty_set (UberModule * poll (option (res UberError OUberMessage)) * bool) :=
  '(modules, r) ← poll_modules waker random (u_discovery self);
  let self := {| u_discovery := modules; u_extended := u_extended self |} in
  Ok (self,
      match r with
      | Ready (Some (Ok message)) => Ready (Some (Ok (OuDiscovery message)))
      | Ready (Some (Err e)) => Ready (Some (Err (UE_Discovery e)))
      | Ready (Some (Panic f)) => Ready (Some (Panic f))
      | Ready None => Ready None
      | Pending => Pending
      end,
      match r with Pending => true | Ready _ => false end).

Definition uber_poll_next (waker random : nat) (self : UberModule)
    : res Empty_set (UberModule * poll (option (res UberError OUberMessage)) * bool) :=
  match u_extended self with
  | Some extended =>
      match em_poll_next waker extended with
      | (extended, Ready message) =>
          Ok ({| u_discovery := u_discovery self; u_extended := Some extended |}, Ready (Some (Ok (OuExtended message))), false)
      | (extended, Pending) => uber_poll_discovery waker random {| u_discovery := u_discovery self; u_extended := Some extended |}
      end
  | None => uber_poll_discovery waker random self
  end.
End Uber.
Arguments UberModule D : clear implicits.
Arguments UberModuleBuilder D : clear implicits.
