(* ===== verification/UberProps.v ===== *)
(** The joined module: it keeps the extended messages of the connected peers, sends
    one extended message to each peer that connects with the extension bit (and, against
    its documentation, to the others too), and keeps what its discovery modules keep.  With the metadata module inside, honest downloads stay honest. *)

From stdpp Require Import base numbers gmap strings list.
From S2P Require Import Prelude RustStd Extern Io Convert Sha Path Bencode Metainfo Float Hasher MetaBuild Handshake PeerStandard PeerExtended Reveal UtModule UtProps Uber.

(** * Runs *)

Inductive uber_event := UbSend (m : IUberMessage) | UbFlush (waker : nat) | UbPoll (waker random : nat).

Definition uber_item : Type := option (res UberError OUberMessage).

Section Runs.
Context `{HashOrder} {D : Type} `{!Discovery D}.

(** An error is returned to the caller, who goes on. *)
Definition uber_step (e : uber_event) (s : UberModule D) : res Empty_set (UberModule D * list uber_item) :=
  match e with
  | UbSend m => match uber_handle_message m s with (_, Panic f) => Panic f | (s, _) => Ok (s, []) end
  | UbFlush waker => Ok ((poll_discovery_flush waker s).1.1, [])
  | UbPoll waker random => '(s, r, _) ← uber_poll_next waker random s; Ok (s, match r with Ready o => [o] | Pending => [] end)
  end.

Fixpoint uber_run (es : list uber_event) (s : UberModule D) : res Empty_set (UberModule D * list uber_item) :=
  match es with
  | [] => Ok (s, [])
  | e :: es => '(s, os) ← uber_step e s; '(s, os') ← uber_run es s; Ok (s, os ++ os')
  end.

(** * What the discovery modules keep

    [P] holds of a module, [item_ok] of what is sent to it, [theirs_ok] of the
    extended messages of peers and [out_ok] of what it gives. *)

Record discovery_keeps (P : D → Prop) (item_ok : IDiscoveryMessage → Prop) (theirs_ok : peer_key → ExtendedMessage → Prop)
    (out_ok : ODiscoveryMessage → Prop) : Prop := {
  keeps_update info e d d' : (∀ m, ei_theirs e = Some m → theirs_ok (key_of info) m) → P d → d_on_update info e d = Ok d' → P d';
  keeps_send item d d' r : item_ok item → P d → d_start_send item d = (d', r) → (∀ f, r ≠ Panic f) → P d';
  keeps_flush waker d d' r : P d → d_poll_flush waker d = (d', r) → P d';
  keeps_poll waker random d d' r : P d → d_poll_next waker random d = Ok (d', r) → P d' ∧ ∀ m, r = Ready (Some (Ok m)) → out_ok m
}.

Section Keeps.
Context (P : D → Prop) (item_ok : IDiscoveryMessage → Prop) (theirs_ok : peer_key → ExtendedMessage → Prop) (out_ok : ODiscoveryMessage → Prop).
Context (K : discovery_keeps P item_ok theirs_ok out_ok).

Definition message_ok (m : IUberMessage) : Prop :=
  match m with
  | UbControl c => item_ok (DControl c)
  | UbExtended (ReceivedExtendedMessage p m) => theirs_ok (key_of p) m
  | UbExtended (EControl _) => True
  | UbDiscovery m => item_ok m
  end.

Definition uber_event_ok (e : uber_event) : Prop := match e with UbSend m => message_ok m | _ => True end.

Definition extended_ok (x : ExtendedModule) : Prop :=
  ∀ k e m, em_peers x !! k = Some e → ei_theirs e = Some m → theirs_ok k m.

Definition uber_ok (s : UberModule D) : Prop := Forall P (u_discovery s) ∧ ∀ x, u_extended s = Some x → extended_ok x.

Definition uber_item_ok (o : uber_item) : Prop := ∀ m, o = Some (Ok (OuDiscovery m)) → out_ok m.

Lemma update_all_keeps info e ds ds' : (∀ m, ei_theirs e = Some m → theirs_ok (key_of info) m) →
  Forall P ds → update_all info e ds = Ok ds' → Forall P ds'.
Proof.
  intros He Hds. revert ds'. induction Hds as [|d ds Hd Hds IH]; intros ds'; cbn [update_all]; [by intros [= <-]|].
  intros Hu. bind_inv Hu as d1 eqn Ed. bind_inv Hu as ds1 eqn Es. injection Hu as <-.
  apply Forall_cons. split; [by eapply keeps_update|by apply IH].
Qed.

Lemma start_all_keeps m ds ds' r : item_ok m → Forall P ds → start_all m ds = (ds', r) → (∀ f, r ≠ Panic f) → Forall P ds'.
Proof.
  intros Hm Hds. revert ds' r. induction Hds as [|d ds Hd Hds IH]; intros ds' r; cbn [start_all]; [by intros [= <- <-]|].
  destruct (d_start_send m d) as [d1 r1] eqn:Ed. assert (Hk : (∀ f, r1 ≠ Panic f) → P d1) by (by eapply keeps_send).
  destruct r1 as [[]|e|f].
  - destruct (start_all m ds) as [ds1 r1]. intros [= <- <-] Hr. apply Forall_cons. split; [by apply Hk|by eapply IH].
  - intros [= <- <-] Hr. apply Forall_cons. split; [by apply Hk|done].
  - intros [= <- <-] Hr. by destruct (Hr f).
Qed.

Lemma flush_all_keeps waker ds : Forall P ds → Forall P (flush_all waker ds).1.
Proof.
  induction 1 as [|d ds Hd Hds IH]; cbn [flush_all]; [done|]. destruct (d_poll_flush waker d) as [d1 r1] eqn:Ed.
  assert (P d1) by (by eapply keeps_flush). destruct r1 as [[[]|e|f]|]; try by apply Forall_cons.
  destruct (flush_all waker ds). by apply Forall_cons.
Qed.

Lemma poll_modules_keeps waker random ds ds' r : Forall P ds → poll_modules waker random ds = Ok (ds', r) →
  Forall P ds' ∧ ∀ m, r = Ready (Some (Ok m)) → out_ok m.
Proof.
  intros Hds. revert ds' r. induction Hds as [|d ds Hd Hds IH]; intros ds' r; cbn [poll_modules]; [by intros [= <- <-]|].
  intros Hp. bind_inv Hp as [d1 r1] eqn Ed. apply (keeps_poll _ _ _ _ K) in Ed as [Hd1 Hr1]; [|done]. destruct r1 as [r1|].
  - injection Hp as <- <-. split; [by apply Forall_cons|]. intros m [= ->]. by apply Hr1.
  - bind_inv Hp as [ds1 r2] eqn Es. injection Hp as <- <-. destruct (IH _ _ eq_refl). split; [by apply Forall_cons|done].
Qed.

Lemma unblock_peers x : em_peers (em_check_stream_unblock x) = em_peers x.
Proof. unfold em_check_stream_unblock. by destruct (em_out_queue x). Qed.

Lemma process_message_keeps m x ds x' ds' : message_ok (UbExtended m) → extended_ok x → Forall P ds →
  process_message m x ds = Ok (x', ds') → extended_ok x' ∧ Forall P ds'.
Proof.
  intros Hm Hx Hds. unfold process_message. intros Hp. bind_inv Hp as [x1 ds1] eqn Ep. injection Hp as <- <-.
  unfold extended_ok. rewrite unblock_peers. change (extended_ok x1 ∧ Forall P ds1).
  destruct m as [[t|t|info|info|d]|info msg].
  1,2,5: by injection Ep as <- <-.
  - bind_inv Ep as ds2 eqn Eu. injection Ep as <- <-. split; [|by eapply update_all_keeps; [| |exact Eu]].
    intros k e m. cbn [em_peers em_set]. intros [[<- <-]|[_ Hk]]%lookup_insert_Some; [done|]. by eapply Hx.
  - injection Ep as <- <-. split; [|done]. intros k e m. cbn [em_peers em_set]. intros [_ Hk]%lookup_delete_Some. by eapply Hx.
  - destruct (em_peers x !! key_of info) as [e|] eqn:Ee; [|by injection Ep as <- <-]. cbn [message_ok] in Hm.
    bind_inv Ep as ds2 eqn Eu. injection Ep as <- <-. split.
    + intros k e' m. cbn [em_peers em_set]. intros [[<- <-]|[_ Hk]]%lookup_insert_Some; [intros [= <-]; done|]. by eapply Hx.
    + eapply update_all_keeps; [|exact Hds|exact Eu]. intros m [= <-]. done.
Qed.

Lemma process_extended_keeps m s s' : message_ok (UbExtended m) → uber_ok s →
  process_extended m s = Ok s' → uber_ok s'.
Proof.
  intros Hm [Hd Hx]. unfold process_extended. destruct (u_extended s) as [x|] eqn:Ex.
  - intros Hp. bind_inv Hp as [x1 ds1] eqn Ep. injection Hp as <-. apply process_message_keeps in Ep as [? ?]; [|done|by apply Hx|done].
    split; [done|]. by intros ? [= <-].
  - intros [= <-]. split; [done|]. by rewrite Ex.
Qed.

Lemma start_discovery_keeps m s s' r : item_ok m → uber_ok s → start_discovery m s = (s', r) → (∀ f, r ≠ Panic f) →
  uber_ok s'.
Proof.
  intros Hm [Hd Hx]. unfold start_discovery. destruct (start_all m _) as [ds r1] eqn:Es. intros [= <- <-] Hr. split; [|done].
  eapply start_all_keeps; [exact Hm|exact Hd|exact Es|]. intros f ->. by destruct (Hr f).
Qed.

Lemma handle_keeps m s s' r : message_ok m → uber_ok s → uber_handle_message m s = (s', r) →
  (∀ f, r ≠ Panic f) → uber_ok s'.
Proof.
  intros Hm Hs. destruct m as [c|m|m]; cbn [uber_handle_message].
  - destruct (process_extended _ s) as [s1|[]|f] eqn:Ep; [|intros [= <- <-] Hr; by destruct (Hr f)].
    apply process_extended_keeps in Ep; [|done|done]. by apply start_discovery_keeps.
  - destruct (process_extended _ s) as [s1|[]|f] eqn:Ep; intros [= <- <-] Hr; [|by destruct (Hr f)].
    by apply process_extended_keeps in Ep.
  - by apply start_discovery_keeps.
Qed.

Lemma poll_discovery_keeps waker random s s' r w : uber_ok s → uber_poll_discovery waker random s = Ok (s', r, w) →
  uber_ok s' ∧ ∀ o, r = Ready o → uber_item_ok o.
Proof.
  intros [Hd Hx]. unfold uber_poll_discovery. intros Hp. bind_inv Hp as [ds r1] eqn Ep. injection Hp as <- <- <-.
  apply poll_modules_keeps in Ep as [Hds Ho]; [|done]. split; [done|]. intros o E m ->.
  destruct r1 as [[[m1|e|f]|]|]; try done. injection E as <-. by apply Ho.
Qed.

Lemma poll_keeps waker random s s' r w : uber_ok s → uber_poll_next waker random s = Ok (s', r, w) →
  uber_ok s' ∧ ∀ o, r = Ready o → uber_item_ok o.
Proof.
  intros Hs. unfold uber_poll_next. destruct (u_extended s) as [x|] eqn:Ex; [|by apply poll_discovery_keeps].
  unfold em_poll_next. destruct Hs as [Hd Hx]. specialize (Hx x Ex). destruct (em_out_queue x) as [|message queue] eqn:Eq.
  - apply poll_discovery_keeps. split; [done|]. by intros ? [= <-].
  - intros [= <- <- <-]. split; [split; [done|by intros ? [= <-]]|]. intros o [= <-] m. done.
Qed.

Lemma step_keeps e s s' os : uber_event_ok e → uber_ok s → uber_step e s = Ok (s', os) →
  uber_ok s' ∧ Forall (uber_item_ok) os.
Proof.
  intros He Hs. destruct e as [m|waker|waker random]; cbn [uber_step].
  - destruct (uber_handle_message m s) as [s1 r] eqn:Em. intros Hx. assert (Hr : ∀ f, r ≠ Panic f) by (intros f ->; done).
    assert (s1 = s' ∧ os = []) as [-> ->] by (destruct r; by simplify_eq). split; [|done]. by eapply handle_keeps.
  - intros [= <- <-]. split; [|done]. unfold poll_discovery_flush. destruct Hs as [Hd Hx].
    pose proof (flush_all_keeps waker _ Hd). destruct (flush_all waker _). by split.
  - intros Hp. bind_inv Hp as [[s1 r] w] eqn Ep. injection Hp as <- <-. apply poll_keeps in Ep as [? Ho]; [|done]. split; [done|].
    destruct r as [o|]; [|done]. apply Forall_singleton. by apply Ho.
Qed.

Lemma run_keeps es : ∀ s s' os, Forall (uber_event_ok) es → uber_ok s → uber_run es s = Ok (s', os) →
  uber_ok s' ∧ Forall (uber_item_ok) os.
Proof.
  induction es as [|e es IH]; intros s s' os He Hs; cbn [uber_run]; [by intros [= <- <-]|].
  apply Forall_cons in He as [He Hes]. intros Hr. bind_inv Hr as [s1 os1] eqn E1. bind_inv Hr as [s2 os2] eqn E2. injection Hr as <- <-.
  apply step_keeps in E1 as [Hs1 Ho1]; [|done|done]. apply IH in E2 as [Hs2 Ho2]; [|done|done]. split; [done|by apply Forall_app].
Qed.
End Keeps.
End Runs.

(** * The peers of the extended module *)

(** The abstract state: for a connected peer, the last extended message it sent. *)
Definition spec_peers (m : IExtendedMessage) (c : gmap peer_key (option ExtendedMessage)) : gmap peer_key (option ExtendedMessage) :=
  match m with
  | EControl (CPeerConnected p) => <[key_of p := None]> c
  | EControl (CPeerDisconnected p) => delete (key_of p) c
  | ReceivedExtendedMessage p msg => match c !! key_of p with Some _ => <[key_of p := Some msg]> c | None => c end
  | EControl _ => c
  end.
(** What the code sends: a message to every peer that connects. *)
Definition spec_sent (m : IExtendedMessage) : list PeerInfo := match m with EControl (CPeerConnected p) => [p] | _ => [] end.

(** What is documented ([UberModuleBuilder::with_extended_builder]): a message to
    every peer that connects with the extension bit set, if a builder was given. *)
Definition extension_bit (p : PeerInfo) : bool := Extensions_contains (pi_ext p) ExtensionProtocol.
Definition documented_sent (builder : option ExtendedMessageBuilder) (m : IExtendedMessage) : list PeerInfo :=
  match builder, m with
  | Some _, EControl (CPeerConnected p) => if extension_bit p then [p] else []
  | _, _ => []
  end.
Definition connects_with_bit (m : IExtendedMessage) : Prop :=
  match m with EControl (CPeerConnected p) => extension_bit p = true | _ => True end.

Lemma documented_all builder ms : Forall connects_with_bit ms → documented_sent (Some builder) <$> ms = spec_sent <$> ms.
Proof.
  induction 1 as [|m ms Hm _ IH]; [done|]. rewrite !fmap_cons, IH. f_equal. destruct m as [[]|]; try done. cbn in Hm |- *. by rewrite Hm.
Qed.

(** The messages that reach the extended module. *)
Definition extended_messages (e : uber_event) : list IExtendedMessage :=
  match e with UbSend (UbControl c) => [EControl c] | UbSend (UbExtended m) => [m] | _ => [] end.

Definition peer_of (m : OExtendedMessage) : PeerInfo := match m with SendExtendedMessage p _ => p end.
Definition item_peers (o : uber_item) : list PeerInfo := match o with Some (Ok (OuExtended m)) => [peer_of m] | _ => [] end.
Definition items_peers (os : list uber_item) : list PeerInfo := concat (item_peers <$> os).

Lemma items_peers_app os os' : items_peers (os ++ os') = items_peers os ++ items_peers os'.
Proof. unfold items_peers. by rewrite fmap_app, concat_app. Qed.

Section Handshakes.
Context `{HashOrder} {D : Type} `{!Discovery D}.

Definition theirs (x : ExtendedModule) : gmap peer_key (option ExtendedMessage) := ei_theirs <$> em_peers x.
Definition waiting (x : ExtendedModule) : list PeerInfo := peer_of <$> em_out_queue x.

(** From [x] to [x'] the messages [ms] were handled and [out] was sent. *)
Definition handled (ms : list IExtendedMessage) (out : list PeerInfo) (x x' : ExtendedModule) : Prop :=
  theirs x' = foldl (λ c m, spec_peers m c) (theirs x) ms ∧ out ++ waiting x' = waiting x ++ concat (spec_sent <$> ms).

Lemma handled_nil x : handled [] [] x x.
Proof. split; [done|]. by rewrite app_nil_r. Qed.

Lemma handled_app ms ms' out out' x x' x'' : handled ms out x x' → handled ms' out' x' x'' → handled (ms ++ ms') (out ++ out') x x''.
Proof.
  intros [H1 H2] [H3 H4]. split; [by rewrite H3, H1, foldl_app|].
  rewrite <- app_assoc, H4, app_assoc, H2, <- app_assoc, fmap_app, concat_app. done.
Qed.

Lemma process_message_handled m x (ds ds' : list D) x' : process_message m x ds = Ok (x', ds') → handled [m] [] x x'.
Proof.
  unfold process_message. intros Hp. bind_inv Hp as [x1 ds1] eqn Ep. injection Hp as <- <-.
  assert (handled [m] [] x x1) as Hh; [|].
  2: { destruct Hh as [H1 H2]. unfold handled, theirs, waiting in *. rewrite unblock_peers.
       unfold em_check_stream_unblock. by destruct (em_out_queue x1) eqn:E; cbn [em_set em_out_queue]; rewrite ?E. }
  unfold handled, theirs, waiting. cbn [foldl fmap list_fmap concat]. destruct m as [[t|t|info|info|d]|info msg].
  1,2,5: injection Ep as <- <-; by rewrite app_nil_r.
  - bind_inv Ep as ds2 eqn Eu. injection Ep as <- <-. cbn [em_peers em_out_queue em_set spec_peers spec_sent].
    by rewrite fmap_insert, fmap_app.
  - injection Ep as <- <-. cbn [em_peers em_out_queue em_set spec_peers spec_sent]. by rewrite fmap_delete, app_nil_r.
  - cbn [spec_peers spec_sent]. rewrite lookup_fmap. destruct (em_peers x !! key_of info) as [e|] eqn:Ee; cbn [fmap option_fmap option_map].
    + bind_inv Ep as ds2 eqn Eu. injection Ep as <- <-. cbn [em_peers em_out_queue em_set]. by rewrite fmap_insert, app_nil_r.
    + injection Ep as <- <-. by rewrite app_nil_r.
Qed.

Lemma process_extended_handled m (s s' : UberModule D) x : u_extended s = Some x → process_extended m s = Ok s' →
  ∃ x', u_extended s' = Some x' ∧ handled [m] [] x x'.
Proof.
  intros Ex. unfold process_extended. rewrite Ex. intros Hp. bind_inv Hp as [x1 ds1] eqn Ep. injection Hp as <-.
  exists x1. split; [done|]. by eapply process_message_handled.
Qed.

Lemma start_discovery_extended m (s : UberModule D) : u_extended (start_discovery m s).1 = u_extended s.
Proof. unfold start_discovery. by destruct (start_all _ _). Qed.

Lemma poll_handled waker random (s s' : UberModule D) r w x : u_extended s = Some x → uber_poll_next waker random s = Ok (s', r, w) →
  ∃ x', u_extended s' = Some x' ∧ handled [] (items_peers (match r with Ready o => [o] | Pending => [] end)) x x'.
Proof.
  intros Ex. unfold uber_poll_next. rewrite Ex. unfold em_poll_next. destruct (em_out_queue x) as [|message queue] eqn:Eq.
  - unfold uber_poll_discovery. intros Hp. bind_inv Hp as [ds r1] eqn Ep. injection Hp as <- <- <-. eexists. split; [done|].
    unfold handled, theirs, waiting. rewrite Eq. cbn [em_peers em_out_queue em_set foldl fmap list_fmap concat app].
    split; [done|]. by destruct r1 as [[[m1|e|f]|]|].
  - intros [= <- <- <-]. eexists. split; [done|]. unfold handled, theirs, waiting. rewrite Eq. split; [done|].
    cbn. by rewrite app_nil_r.
Qed.

Lemma step_handled e (s s' : UberModule D) os x : u_extended s = Some x → uber_step e s = Ok (s', os) →
  ∃ x', u_extended s' = Some x' ∧ handled (extended_messages e) (items_peers os) x x'.
Proof.
  intros Ex. destruct e as [m|waker|waker random]; cbn [uber_step extended_messages].
  - destruct (uber_handle_message m s) as [s1 r] eqn:Em. intros Hx. assert (Hr : ∀ f, r ≠ Panic f) by (intros f ->; done).
    assert (s1 = s' ∧ os = []) as [-> ->] by (destruct r; by simplify_eq). change (items_peers []) with (@nil PeerInfo).
    destruct m as [c|m|m]; cbn [uber_handle_message] in Em.
    + destruct (process_extended _ s) as [s2|[]|f] eqn:Ep; [|injection Em as <- <-; by destruct (Hr f)].
      destruct (process_extended_handled _ _ _ _ Ex Ep) as (x' & Ex' & Hh). exists x'. split; [|done].
      pose proof (start_discovery_extended (DControl c) s2) as E. rewrite Em in E. cbn [fst] in E. by rewrite E.
    + destruct (process_extended _ s) as [s2|[]|f] eqn:Ep; injection Em as <- <-; [|by destruct (Hr f)].
      by apply (process_extended_handled _ _ _ _ Ex Ep).
    + exists x. split; [|apply handled_nil]. pose proof (start_discovery_extended m s) as E. rewrite Em in E. cbn [fst] in E. by rewrite E.
  - intros [= <- <-]. exists x. split; [|apply handled_nil]. unfold poll_discovery_flush. by destruct (flush_all _ _).
  - intros Hp. bind_inv Hp as [[s1 r] w] eqn Ep. injection Hp as <- <-. by apply (poll_handled _ _ _ _ _ _ _ Ex Ep).
Qed.

Lemma run_handled es : ∀ (s s' : UberModule D) os x, u_extended s = Some x → uber_run es s = Ok (s', os) →
  ∃ x', u_extended s' = Some x' ∧ handled (concat (extended_messages <$> es)) (items_peers os) x x'.
Proof.
  induction es as [|e es IH]; intros s s' os x Ex; cbn [uber_run]; [intros [= <- <-]; exists x; split; [done|apply handled_nil]|].
  intros Hr. bind_inv Hr as [s1 os1] eqn E1. bind_inv Hr as [s2 os2] eqn E2. injection Hr as <- <-.
  destruct (step_handled _ _ _ _ _ Ex E1) as (x1 & Ex1 & H1). destruct (IH _ _ _ _ Ex1 E2) as (x2 & Ex2 & H2).
  exists x2. split; [done|]. rewrite items_peers_app. cbn [fmap list_fmap concat]. by eapply handled_app.
Qed.

(** Without a builder nothing is kept and nothing sent. *)
Lemma step_no_builder e (s s' : UberModule D) os : u_extended s = None → uber_step e s = Ok (s', os) →
  u_extended s' = None ∧ items_peers os = [].
Proof.
  intros Ex. destruct e as [m|waker|waker random]; cbn [uber_step].
  - destruct (uber_handle_message m s) as [s1 r] eqn:Em. intros Hx.
    assert (s1 = s' ∧ os = []) as [-> ->] by (destruct r; by simplify_eq). split; [|done].
    destruct m as [c|m|m]; cbn [uber_handle_message] in Em; unfold process_extended in Em; rewrite ?Ex in Em.
    + pose proof (start_discovery_extended (DControl c) s) as E. rewrite Em in E. cbn [fst] in E. by rewrite E.
    + by simplify_eq.
    + pose proof (start_discovery_extended m s) as E. rewrite Em in E. cbn [fst] in E. by rewrite E.
  - intros [= <- <-]. split; [|done]. unfold poll_discovery_flush. by destruct (flush_all _ _).
  - unfold uber_poll_next. rewrite Ex. unfold uber_poll_discovery. intros Hp. bind_inv Hp as [[s1 r] w] eqn Ep.
    bind_inv Ep as [ds r1] eqn Eq. injection Ep as <- <- <-. injection Hp as <- <-. split; [done|]. by destruct r1 as [[[]|]|].
Qed.

Lemma run_no_builder es : ∀ (s s' : UberModule D) os, u_extended s = None → uber_run es s = Ok (s', os) →
  u_extended s' = None ∧ items_peers os = [].
Proof.
  induction es as [|e es IH]; intros s s' os Ex; cbn [uber_run]; [by intros [= <- <-]|].
  intros Hr. bind_inv Hr as [s1 os1] eqn E1. bind_inv Hr as [s2 os2] eqn E2. injection Hr as <- <-.
  destruct (step_no_builder _ _ _ _ Ex E1) as [Ex1 H1]. destruct (IH _ _ _ Ex1 E2) as [Ex2 H2].
  split; [done|]. by rewrite items_peers_app, H1, H2.
Qed.

(** The peers still to be sent a message. *)
Definition unsent (s : UberModule D) : list PeerInfo := match u_extended s with Some x => waiting x | None => [] end.

(** What the code does: a message for every connection, the extension bit of
    the peer set or not. *)
Lemma handshakes_to_all (modules : list D) builder es s os :
  let messages := concat (extended_messages <$> es) in
  uber_run es (UberModule_from_builder {| ub_discovery := modules; ub_ext_builder := Some builder |}) = Ok (s, os) →
  ∃ x, u_extended s = Some x ∧ theirs x = foldl (λ c m, spec_peers m c) ∅ messages ∧
    items_peers os ++ waiting x = concat (spec_sent <$> messages).
Proof.
  intros messages Hr. eapply (run_handled _ _ _ _ (ExtendedModule_new builder)) in Hr as (x & Ex & H1 & H2); [|done].
  exists x. split; [done|]. split; [|exact H2]. rewrite H1. unfold theirs. cbn [em_peers ExtendedModule_new]. by rewrite fmap_empty.
Qed.

(** Claim C23. When the peers that connect have the extension bit of the
    handshake set, the extended messages are those that are documented: with a
    builder, one to each peer that connects with the bit, in the order of the
    connections, and without a builder none; and the module keeps the last
    extended message of every connected peer and no other. *)
Theorem extended_handshakes (modules : list D) builder es s os :
  let messages := concat (extended_messages <$> es) in
  Forall connects_with_bit messages →
  uber_run es (UberModule_from_builder {| ub_discovery := modules; ub_ext_builder := builder |}) = Ok (s, os) →
  items_peers os ++ unsent s = concat (documented_sent builder <$> messages) ∧
  theirs <$> u_extended s = (λ _, foldl (λ c m, spec_peers m c) ∅ messages) <$> builder.
Proof.
  intros messages Hb Hr. unfold unsent. destruct builder as [builder|].
  - destruct (handshakes_to_all _ _ _ _ _ Hr) as (x & -> & Ht & Hs). rewrite documented_all by done. split; [exact Hs|]. cbn. by rewrite Ht.
  - apply run_no_builder in Hr as [-> ->]; [|done]. split; [|done]. clear. induction messages as [|m ms IH]; [done|].
    rewrite fmap_cons. exact IH.
Qed.
End Handshakes.

(** * The metadata module inside *)

Section Metadata.
Context `{HashOrder} `{Sha1} (sched : list actor) (meta : ShaHash → option bytes) (asked : ShaHash → Prop).

Definition ut_item_ok (item : IDiscoveryMessage) : Prop :=
  ut_event_ok meta (UItem item) ∧ ∀ h, item = DownloadMetainfo h → asked h.
Definition ut_theirs_ok (k : peer_key) (m : ExtendedMessage) : Prop :=
  ∀ n, m_metadata_size m = Some n → is_i64 n ∧ ∀ d, meta k.2 = Some d → n = Z.of_nat (length d).

Lemma ut_keeps : discovery_keeps (Discovery0 := ut_discovery sched) (ut_inv meta asked) ut_item_ok ut_theirs_ok (λ m, delivers meta asked (Some m)).
Proof.
  split.
  - intros info e d d' He Hd. apply update_inv; [|done]. intros n. destruct (ei_theirs e) as [m|]; [|done]. by apply He.
  - intros item d d' r [Hi Ha]. by apply start_send_inv.
  - by intros waker d d' r Hd [= <- <-].
  - intros waker random d d' r Hd Hp. cbn in Hp. bind_inv Hp as [d1 o] eqn Ep. injection Hp as <- <-.
    apply (poll_inv meta asked) in Ep as [Hd1 Ho]; [|done]. split; [done|]. destruct o; [|done]. by intros m [= <-].
Qed.
End Metadata.

(** Claim C21. With honest peers, what the joined module delivers from its metadata modules
    is the metadata of a hash that was asked for. *)
Theorem uber_honest_download `{HashOrder} `{Sha1} (sched : list actor) (meta : ShaHash → bytes) n builder es s os :
  let asked h := UbSend (UbDiscovery (DownloadMetainfo h)) ∈ es in
  Forall (uber_event_ok (ut_item_ok (λ h, Some (meta h)) asked) (ut_theirs_ok (λ h, Some (meta h)))) es →
  uber_run (Discovery0 := ut_discovery sched) es
    (UberModule_from_builder {| ub_discovery := replicate n UtMetadataModule_new; ub_ext_builder := builder |}) = Ok (s, os) →
  ∀ m, Some (Ok (OuDiscovery (DownloadedMetainfo m))) ∈ os →
    ∃ h info, asked h ∧ Info_from_bytes (meta h) = Ok info ∧ m = Metainfo_from info.
Proof.
  intros asked He Hr m Hm. apply (run_keeps _ _ _ _ (ut_keeps sched (λ h, Some (meta h)) asked)) in Hr as [_ Ho]; [|done|].
  - destruct (proj1 (Forall_forall _ _) Ho _ Hm _ eq_refl m eq_refl) as (h & Ha & Hd). destruct (Hd _ eq_refl) as (info & Hi & ->).
    by exists h, info.
  - split; [apply Forall_replicate, new_inv|]. cbn. intros x. destruct builder; [|done]. intros [= <-] k ei m' Hk. done.
Qed.

(** * A download through the joined module *)

Definition sample_uber : list uber_event :=
  [UbSend (UbDiscovery (DownloadMetainfo (pi_hash sample_peer))); UbSend (UbControl (CPeerConnected sample_peer)); UbPoll 0 0;
   UbSend (UbExtended (ReceivedExtendedMessage sample_peer
     (default (ExtendedMessage_from_builder (H := hash_order_lists) ExtendedMessageBuilder_new) (ei_theirs sample_extended)))); UbPoll 0 0;
   UbSend (UbDiscovery (ReceivedUtMetadataMessage sample_peer (UtData (first_piece sample_metadata)))); UbPoll 0 0].

Definition sample_uber_run : res Empty_set (UberModule UtMetadataModule * list uber_item) :=
  uber_run (H := hash_order_lists) (Discovery0 := ut_discovery (H := hash_order_lists) (H0 := toy_sha1) []) sample_uber
    (UberModule_from_builder {| ub_discovery := replicate 1 UtMetadataModule_new; ub_ext_builder := Some ExtendedMessageBuilder_new |}).

(** A peer with the extension bit of its handshake. *)
Definition bit_peer : PeerInfo :=
  PeerInfo_new default_route_v4 [7%Z] {| hash := [1%Z] |} (Extensions_add Extensions_new ExtensionProtocol).
Definition bit_uber : list uber_event := [UbSend (UbControl (CPeerConnected bit_peer)); UbPoll 0 0; UbPoll 0 0].
Definition bit_uber_run : res Empty_set (UberModule UtMetadataModule * list uber_item) :=
  uber_run (H := hash_order_lists) (Discovery0 := ut_discovery (H := hash_order_lists) (H0 := toy_sha1) []) bit_uber
    (UberModule_from_builder {| ub_discovery := replicate 1 UtMetadataModule_new; ub_ext_builder := Some ExtendedMessageBuilder_new |}).

Lemma extended_handshakes_witness : ∃ s os, bit_uber_run = Ok (s, os) ∧ extension_bit bit_peer = true ∧
  items_peers os ++ unsent s = [bit_peer].
Proof.
  destruct bit_uber_run as [[s os]|e|f] eqn:E; [|by vm_compute in E..]. exists s, os. split; [exact eq_refl|]. split; [by vm_compute|].
  destruct (extended_handshakes (H := hash_order_lists) (Discovery0 := ut_discovery (H := hash_order_lists) (H0 := toy_sha1) [])
    _ _ bit_uber _ _ ltac:(by repeat constructor) E) as [Hs _]. rewrite Hs. reflexivity.
Defined.

(** The code asks for no bit: a peer without it is sent a message all the same. *)
Example message_without_bit : ∃ s os, sample_uber_run = Ok (s, os) ∧ extension_bit sample_peer = false ∧ items_peers os = [sample_peer].
Proof. destruct sample_uber_run as [[s os]|e|f] eqn:E; [|by vm_compute in E..]. exists s, os. vm_compute in E. injection E as _ <-. by split_and!. Qed.

Lemma sample_uber_ok :
  Forall (uber_event_ok (ut_item_ok (λ _, Some sample_metadata) (λ h, UbSend (UbDiscovery (DownloadMetainfo h)) ∈ sample_uber))
    (ut_theirs_ok (λ _, Some sample_metadata))) sample_uber.
Proof.
  unfold sample_uber at 2. repeat apply Forall_cons_2; try exact I.
  - split; [exact I|]. intros h [= <-]. unfold sample_uber. left.
  - split; [exact I|]. intros h [=].
  - intros k [= <-]. split; [by vm_compute|]. intros d [= <-]. reflexivity.
  - split; [|intros h [=]]. intros d [= <-]. by vm_compute.
  - by constructor.
Qed.

Lemma uber_honest_download_witness : ∃ s os info, sample_uber_run = Ok (s, os) ∧
  Some (Ok (OuDiscovery (DownloadedMetainfo (Metainfo_from info)))) ∈ os ∧ Info_from_bytes (H := toy_sha1) sample_metadata = Ok info.
Proof.
  destruct sample_uber_run as [[s os]|e|f] eqn:E; [|by vm_compute in E..].
  assert (Hm : ∃ m, Some (Ok (OuDiscovery (DownloadedMetainfo m))) ∈ os).
  { vm_compute in E. injection E as _ <-. eexists. right. right. left. }
  destruct Hm as [m Hm].
  destruct (uber_honest_download (H := hash_order_lists) (H0 := toy_sha1) [] (λ _, sample_metadata) 1 (Some ExtendedMessageBuilder_new)
    sample_uber s os sample_uber_ok E m Hm)
    as (h & info & _ & Hi & ->).
  exists s, os, info. split; [exact eq_refl|]. split; [exact Hm|exact Hi].
Defined.
