(* ===== verification/PeerManager.v ===== *)
(** packages/peer: the peer manager (manager/builder.rs, fused.rs, messages.rs,
    error.rs, task.rs, sink.rs, stream.rs).

    The manager, its tasks and the channels between them are one state.  A
    peer is the list of what has arrived from it and the list of what was sent
    to it.  What the environment decides is an argument of the operation: the
    time, which stream [select] polls first, whether [try_lock] succeeds,
    whether a bounded channel has room and how a send to a peer ends.  The poll
    of a task runs to its next await; the task of a peer that was added first
    sends [PeerAdded]. *)

From stdpp Require Import base numbers gmap strings list.
From S2P Require Import Prelude RustStd Extern Io Convert Sha Handshake Reveal.

(** * The builder (manager/builder.rs); a duration is a number of milliseconds *)

Definition DEFAULT_PEER_CAPACITY : nat := 1000.
Definition DEFAULT_SINK_BUFFER_CAPACITY : nat := 100.
Definition DEFAULT_STREAM_BUFFER_CAPACITY : nat := 100.
Definition DEFAULT_HEARTBEAT_INTERVAL_MILLIS : Z := 60 * 1000.
Definition DEFAULT_HEARTBEAT_TIMEOUT_MILLIS : Z := 2 * 60 * 1000.

Record PeerManagerBuilder := {
  peer_capacity : nat;
  pb_sink_buffer_capacity : nat;
  pb_stream_buffer_capacity : nat;
  heartbeat_interval : Z;
  heartbeat_timeout : Z
}.

Definition PeerManagerBuilder_new : PeerManagerBuilder :=
  {| peer_capacity := DEFAULT_PEER_CAPACITY; pb_sink_buffer_capacity := DEFAULT_SINK_BUFFER_CAPACITY;
     pb_stream_buffer_capacity := DEFAULT_STREAM_BUFFER_CAPACITY; heartbeat_interval := DEFAULT_HEARTBEAT_INTERVAL_MILLIS;
     heartbeat_timeout := DEFAULT_HEARTBEAT_TIMEOUT_MILLIS |}.
Definition with_peer_capacity (capacity : nat) (self : PeerManagerBuilder) : PeerManagerBuilder :=
  let '(Build_PeerManagerBuilder _ s t i o) := self in Build_PeerManagerBuilder capacity s t i o.
Definition pb_with_sink_buffer_capacity (capacity : nat) (self : PeerManagerBuilder) : PeerManagerBuilder :=
  let '(Build_PeerManagerBuilder p _ t i o) := self in Build_PeerManagerBuilder p capacity t i o.
Definition pb_with_stream_buffer_capacity (capacity : nat) (self : PeerManagerBuilder) : PeerManagerBuilder :=
  let '(Build_PeerManagerBuilder p s _ i o) := self in Build_PeerManagerBuilder p s capacity i o.
Definition with_heartbeat_interval (interval : Z) (self : PeerManagerBuilder) : PeerManagerBuilder :=
  let '(Build_PeerManagerBuilder p s t _ o) := self in Build_PeerManagerBuilder p s t interval o.
Definition with_heartbeat_timeout (timeout : Z) (self : PeerManagerBuilder) : PeerManagerBuilder :=
  let '(Build_PeerManagerBuilder p s t i _) := self in Build_PeerManagerBuilder p s t i timeout.

(** * Streams (manager/fused.rs), given what the stream inside was polled to *)

Inductive PersistentError := PE_Disconnect | PE_StreamError (e : io_error).
Inductive RecurringTimeoutError := RT_Disconnect | RT_Timeout | RT_StreamError (e : io_error).

Definition PersistentStream_poll_next {T} (polled : poll (option (res io_error T))) : poll (res PersistentError T) :=
  match polled with
  | Pending => Pending
  | Ready None => Ready (Err PE_Disconnect)
  | Ready (Some (Ok message)) => Ready (Ok message)
  | Ready (Some (Err err)) => Ready (Err (PE_StreamError err))
  | Ready (Some (Panic f)) => Ready (Panic f)
  end.

Record RecurringTimeoutStream := { rt_timeout : Z; rt_deadline : Z }.

Definition RecurringTimeoutStream_new (now timeout : Z) : RecurringTimeoutStream :=
  {| rt_timeout := timeout; rt_deadline := now + timeout |}.

Definition reset_deadline (now : Z) (self : RecurringTimeoutStream) : RecurringTimeoutStream :=
  {| rt_timeout := rt_timeout self; rt_deadline := now + rt_timeout self |}.

Definition RecurringTimeoutStream_poll_next {T} (now : Z) (polled : poll (option (res io_error T))) (self : RecurringTimeoutStream)
    : RecurringTimeoutStream * poll (res RecurringTimeoutError T) :=
  match polled with
  | Pending => if (rt_deadline self <? now)%Z then (reset_deadline now self, Ready (Err RT_Timeout)) else (self, Pending)
  | Ready None => (self, Ready (Err RT_Disconnect))
  | Ready (Some (Ok message)) => (reset_deadline now self, Ready (Ok message))
  | Ready (Some (Err err)) => (self, Ready (Err (RT_StreamError err)))
  | Ready (Some (Panic f)) => (self, Ready (Panic f))
  end.

(** * Messages and errors (manager/messages.rs, manager/error.rs) *)

Class ManagedMessage (Message : Type) := { managed_keep_alive : Message; managed_is_keep_alive : Message → bool }.

Section Manager.
Context {Message : Type} `{!ManagedMessage Message}.

(** The connection of a peer that is added is the environment's. *)
Inductive PeerManagerInputMessage :=
  | AddPeer (info : PeerInfo)
  | RemovePeer (info : PeerInfo)
  | SendMessage (info : PeerInfo) (mid : Z) (message : Message).

Inductive PeerManagerOutputMessage :=
  | PeerAdded (info : PeerInfo)
  | PeerRemoved (info : PeerInfo)
  | SentMessage (info : PeerInfo) (mid : Z)
  | ReceivedMessage (info : PeerInfo) (message : Message)
  | PeerDisconnect (info : PeerInfo).

Inductive PeerManagerOutputError :=
  | PeerDisconnectedAndMissing (info : PeerInfo)
  | PeerRemovedAndMissing (info : PeerInfo)
  | PeerErrorAndMissing (info : PeerInfo) (e : option PeerManagerOutputError)
  | PeerError (info : PeerInfo) (e : io_error).

Definition output : Type := res PeerManagerOutputError PeerManagerOutputMessage.

Inductive SendError := SendFull | SendDisconnected.

Inductive PeerManagerError :=
  | InputMessageError (e : io_error)
  | PeerNotFound (info : PeerInfo)
  | PeerStoreFull (actual : nat)
  | PeerAlreadyExists (info : PeerInfo)
  | LockFailed
  | SendFailed (e : SendError)
  | FlushFailed (e : SendError)
  | CloseFailed (e : SendError).

(** * The task of a peer (manager/task.rs) *)

Inductive UnifiedError := UE_Peer (e : PersistentError) | UE_Manager (e : RecurringTimeoutError).
Inductive MergedError := ME_Disconnect | ME_StreamError (e : io_error) | ME_Timeout.
Inductive UnifiedItem := UI_Peer (m : Message) | UI_Manager (m : PeerManagerInputMessage).

Definition MergedError_from (err : UnifiedError) : MergedError :=
  match err with
  | UE_Peer PE_Disconnect | UE_Manager RT_Disconnect => ME_Disconnect
  | UE_Peer (PE_StreamError e) | UE_Manager (RT_StreamError e) => ME_StreamError e
  | UE_Manager RT_Timeout => ME_Timeout
  end.

(** Where a task waits: for an item of the merged stream, for room in the
    channel to the manager, after which it goes on or ends, or for the peer to
    take a message, after which the manager may be told. *)
Inductive task_state :=
  | TIdle
  | TSend (o : output) (go_on : bool)
  | TWire (m : Message) (told : option (PeerInfo * Z))
  | TDone.

Record peer_task := {
  tk_info : PeerInfo;
  tk_state : task_state;
  tk_manager : RecurringTimeoutStream;
  tk_inbox : list PeerManagerInputMessage;
  tk_closed : bool;
  tk_incoming : list (res io_error Message);
  tk_ended : bool;
  tk_wire : list Message
}.

Definition set_task (state : task_state) (manager : RecurringTimeoutStream) (inbox : list PeerManagerInputMessage)
    (incoming : list (res io_error Message)) (wire : list Message) (self : peer_task) : peer_task :=
  {| tk_info := tk_info self; tk_state := state; tk_manager := manager; tk_inbox := inbox; tk_closed := tk_closed self;
     tk_incoming := incoming; tk_ended := tk_ended self; tk_wire := wire |}.
Definition set_state (state : task_state) (self : peer_task) : peer_task :=
  set_task state (tk_manager self) (tk_inbox self) (tk_incoming self) (tk_wire self) self.

Definition run_peer (now : Z) (info : PeerInfo) (builder : PeerManagerBuilder) : peer_task :=
  {| tk_info := info; tk_state := TSend (Ok (PeerAdded info)) true;
     tk_manager := RecurringTimeoutStream_new now (heartbeat_interval builder); tk_inbox := []; tk_closed := false; tk_incoming := [];
     tk_ended := false; tk_wire := [] |}.

(** A channel or a connection: its items, then the end. *)
Definition poll_queue {A} (items : list A) (ended : bool) : list A * poll (option A) :=
  match items with
  | a :: items => (items, Ready (Some a))
  | [] => ([], if ended then Ready None else Pending)
  end.

Definition map_ready {A B} (f : A → B) (p : poll A) : poll B := match p with Ready a => Ready (f a) | Pending => Pending end.
Definition map_item {E E' A B} (f : A → B) (g : E → E') (r : res E A) : res E' B :=
  match r with Ok a => Ok (f a) | Err e => Err (g e) | Panic x => Panic x end.

Definition poll_peer (self : peer_task) : peer_task * poll (res MergedError UnifiedItem) :=
  let '(incoming, polled) := poll_queue (tk_incoming self) (tk_ended self) in
  (set_task (tk_state self) (tk_manager self) (tk_inbox self) incoming (tk_wire self) self,
   map_ready (map_item UI_Peer (λ e, MergedError_from (UE_Peer e))) (PersistentStream_poll_next polled)).

Definition poll_manager (now : Z) (self : peer_task) : peer_task * poll (res MergedError UnifiedItem) :=
  let '(inbox, polled) := poll_queue (tk_inbox self) (tk_closed self) in
  let '(manager, item) := RecurringTimeoutStream_poll_next now (map_ready (fmap Ok) polled) (tk_manager self) in
  (set_task (tk_state self) manager inbox (tk_incoming self) (tk_wire self) self,
   map_ready (map_item UI_Manager (λ e, MergedError_from (UE_Manager e))) item).

(** [select]: the other stream is polled when the first is pending. *)
Definition poll_merged (peer_first : bool) (now : Z) (self : peer_task) : peer_task * poll (res MergedError UnifiedItem) :=
  if peer_first then
    match poll_peer self with (self, Pending) => poll_manager now self | r => r end
  else
    match poll_manager now self with (self, Pending) => poll_peer self | r => r end.

(** What the handling of an item waits for first. *)
Definition handle_stream_result (result : res MergedError UnifiedItem) (info : PeerInfo) : task_state :=
  match result with
  | Ok (UI_Peer message) => TSend (Ok (ReceivedMessage info message)) true
  | Ok (UI_Manager (AddPeer _)) => TDone
  | Ok (UI_Manager (RemovePeer info)) => TSend (Ok (PeerRemoved info)) false
  | Ok (UI_Manager (SendMessage info id message)) => TWire message (Some (info, id))
  | Err ME_Disconnect => TDone
  | Err (ME_StreamError e) => TSend (Err (PeerError info e)) false
  | Err ME_Timeout => TWire managed_keep_alive None
  | Panic _ => TDone
  end.

Inductive channel := ChRoom | ChFull | ChClosed.
Inductive wire := WSent | WPending | WFailed.

(** The task is polled: its state and what it put into the channel. *)
Definition task_poll (peer_first : bool) (now : Z) (ch : channel) (w : wire) (self : peer_task) : peer_task * option output :=
  match tk_state self with
  | TIdle =>
      match poll_merged peer_first now self with
      | (self, Ready result) => (set_state (handle_stream_result result (tk_info self)) self, None)
      | (self, Pending) => (self, None)
      end
  | TSend o go_on =>
      match ch with
      | ChRoom => (set_state (if go_on then TIdle else TDone) self, Some o)
      | ChFull => (self, None)
      | ChClosed => (set_state TDone self, None)
      end
  | TWire m told =>
      match w with
      | WSent =>
          let state := match told with Some (info, id) => TSend (Ok (SentMessage info id)) true | None => TIdle end in
          (set_task state (tk_manager self) (tk_inbox self) (tk_incoming self) (tk_wire self ++ [m]) self, None)
      | WPending => (self, None)
      | WFailed => (set_state TDone self, None)
      end
  | TDone => (self, None)
  end.

Definition is_done (t : peer_task) : bool := match tk_state t with TDone => true | _ => false end.

(** * The manager (manager/mod.rs)

    A sender of the map is the number of a task. *)

Record PeerManager := {
  pm_builder : PeerManagerBuilder;
  pm_peers : gmap peer_key nat;
  pm_tasks : list peer_task;
  pm_task_queue : list nat;
  pm_res : list output;
  pm_opt_pending : option output
}.

Definition PeerManager_from_builder (builder : PeerManagerBuilder) : PeerManager :=
  {| pm_builder := builder; pm_peers := ∅; pm_tasks := []; pm_task_queue := []; pm_res := []; pm_opt_pending := None |}.

Definition pm_set (peers : gmap peer_key nat) (tasks : list peer_task) (queue : list nat) (self : PeerManager) : PeerManager :=
  {| pm_builder := pm_builder self; pm_peers := peers; pm_tasks := tasks; pm_task_queue := queue; pm_res := pm_res self;
     pm_opt_pending := pm_opt_pending self |}.
Definition pm_set_res (peers : gmap peer_key nat) (results : list output) (pending : option output) (self : PeerManager) : PeerManager :=
  {| pm_builder := pm_builder self; pm_peers := peers; pm_tasks := pm_tasks self; pm_task_queue := pm_task_queue self; pm_res := results;
     pm_opt_pending := pending |}.

(** * The sink (manager/sink.rs) *)

Definition pm_result : Type := PeerManager * res PeerManagerError ().

Definition pm_add_peer (locked : bool) (now : Z) (info : PeerInfo) (self : PeerManager) : pm_result :=
  if locked then (self, Err LockFailed) else
  let cur := size (pm_peers self) in
  if (peer_capacity (pm_builder self) <=? cur)%nat then (self, Err (PeerStoreFull cur)) else
  match pm_peers self !! key_of info with
  | Some _ => (self, Err (PeerAlreadyExists info))
  | None =>
      let id := length (pm_tasks self) in
      (pm_set (<[key_of info := id]> (pm_peers self)) (pm_tasks self ++ [run_peer now info (pm_builder self)])
         (pm_task_queue self ++ [id]) self, Ok ())
  end.

(** [Sender::start_send]: [full] says the sender has to wait for room. *)
Definition push_inbox (m : PeerManagerInputMessage) (t : peer_task) : peer_task :=
  set_task (tk_state t) (tk_manager t) (tk_inbox t ++ [m]) (tk_incoming t) (tk_wire t) t.

Definition sender_start_send (full : bool) (m : PeerManagerInputMessage) (id : nat) (tasks : list peer_task)
    : list peer_task * res SendError () :=
  match tasks !! id with
  | Some t =>
      if tk_closed t then (tasks, Err SendDisconnected) else
      if full then (tasks, Err SendFull) else
      if is_done t then (tasks, Err SendDisconnected)
      else (<[id := push_inbox m t]> tasks, Ok ())
  | None => (tasks, Err SendDisconnected)
  end.

Definition to_peer (locked full : bool) (info : PeerInfo) (m : PeerManagerInputMessage) (self : PeerManager) : pm_result :=
  if locked then (self, Err LockFailed) else
  match pm_peers self !! key_of info with
  | None => (self, Err (PeerNotFound info))
  | Some peer_sender =>
      match sender_start_send full m peer_sender (pm_tasks self) with
      | (tasks, Ok _) => (pm_set (pm_peers self) tasks (pm_task_queue self) self, Ok ())
      | (tasks, Err e) => (pm_set (pm_peers self) tasks (pm_task_queue self) self, Err (SendFailed e))
      | (tasks, Panic f) => (self, Panic f)
      end
  end.

Definition pm_remove_peer (locked full : bool) (info : PeerInfo) (self : PeerManager) : pm_result :=
  to_peer locked full info (RemovePeer info) self.
Definition pm_send_message (locked full : bool) (info : PeerInfo) (mid : Z) (msg : Message) (self : PeerManager) : pm_result :=
  to_peer locked full info (SendMessage info mid msg) self.

Definition pm_handle_message (locked full : bool) (now : Z) (item : res io_error PeerManagerInputMessage) (self : PeerManager) : pm_result :=
  match item with
  | Err e => (self, Err (InputMessageError e))
  | Panic f => (self, Panic f)
  | Ok (AddPeer info) => pm_add_peer locked now info self
  | Ok (RemovePeer info) => pm_remove_peer locked full info self
  | Ok (SendMessage info mid peer_message) => pm_send_message locked full info mid peer_message self
  end.

Section Poll.
Context `{HashOrder}.

(** [Sender::poll_ready]; [full] gives the senders that wait for room. *)
Definition sender_poll_ready (full : nat → bool) (id : nat) (tasks : list peer_task) : poll (res SendError ()) :=
  match tasks !! id with
  | Some t => if is_done t || tk_closed t then Ready (Err SendDisconnected) else if full id then Pending else Ready (Ok ())
  | None => Ready (Err SendDisconnected)
  end.

Fixpoint ready_all (full : nat → bool) (senders : list nat) (tasks : list peer_task) : poll (res PeerManagerError ()) :=
  match senders with
  | [] => Ready (Ok ())
  | id :: senders =>
      match sender_poll_ready full id tasks with
      | Ready (Ok _) => ready_all full senders tasks
      | Ready (Err e) => Ready (Err (SendFailed e))
      | Ready (Panic f) => Ready (Panic f)
      | Pending => Pending
      end
  end.

Definition pm_poll_ready (locked : bool) (full : nat → bool) (self : PeerManager) : poll (res PeerManagerError ()) :=
  if locked then Pending else ready_all full (snd <$> hash_iter (pm_peers self)) (pm_tasks self).

(** [Sender::poll_flush]: as [poll_ready], but a closed channel is flushed. *)
Fixpoint flush_senders (full : nat → bool) (senders : list nat) (tasks : list peer_task) : poll (res PeerManagerError ()) :=
  match senders with
  | [] => Ready (Ok ())
  | id :: senders =>
      match sender_poll_ready full id tasks with
      | Ready (Panic f) => Ready (Panic f)
      | Ready _ => flush_senders full senders tasks
      | Pending => Pending
      end
  end.

Definition pm_poll_flush (locked : bool) (full : nat → bool) (self : PeerManager) : poll (res PeerManagerError ()) :=
  if locked then Pending else flush_senders full (snd <$> hash_iter (pm_peers self)) (pm_tasks self).

(** [Sender::poll_close] closes the channel. *)
Definition close_task (t : peer_task) : peer_task :=
  {| tk_info := tk_info t; tk_state := tk_state t; tk_manager := tk_manager t; tk_inbox := tk_inbox t; tk_closed := true;
     tk_incoming := tk_incoming t; tk_ended := tk_ended t; tk_wire := tk_wire t |}.

Definition close_senders (senders : list nat) (tasks : list peer_task) : list peer_task :=
  foldl (λ tasks id, alter close_task id tasks) tasks senders.

(** The loop over the queue of tasks: finished ones are dropped. *)
Fixpoint join_tasks (queue : list nat) (tasks : list peer_task) : list nat * poll (res PeerManagerError ()) :=
  match queue with
  | [] => ([], Ready (Ok ()))
  | id :: queue =>
      match tasks !! id with
      | Some t => if is_done t then join_tasks queue tasks else (queue ++ [id], Pending)
      | None => join_tasks queue tasks
      end
  end.

Definition pm_poll_close (locked : bool) (self : PeerManager) : PeerManager * poll (res PeerManagerError ()) :=
  if locked then (self, Pending) else
  let tasks := close_senders (snd <$> hash_iter (pm_peers self)) (pm_tasks self) in
  let '(queue, r) := join_tasks (pm_task_queue self) tasks in
  (pm_set (pm_peers self) tasks queue self, r).
End Poll.

(** * The stream (manager/stream.rs) *)

(** [drop(peer)]: the channel to the task ends. *)
Definition drop_sender (id : nat) (self : PeerManager) : PeerManager :=
  pm_set (pm_peers self) (alter close_task id (pm_tasks self)) (pm_task_queue self) self.

Definition take_peer (locked : bool) (info : PeerInfo) (missing : PeerManagerOutputError) (self : PeerManager)
    : PeerManager * poll (option output) :=
  if locked then (self, Pending) else
  match pm_peers self !! key_of info with
  | Some id => (drop_sender id (pm_set_res (delete (key_of info) (pm_peers self)) (pm_res self) (pm_opt_pending self) self),
                Ready (Some (Ok (PeerRemoved info))))
  | None => (self, Ready (Some (Err missing)))
  end.

(** The channel of results stays open while the sink is there. *)
Definition pm_poll_next (locked : bool) (self : PeerManager) : PeerManager * poll (option output) :=
  let '(self, next_message) :=
    match pm_opt_pending self with
    | Some message => (pm_set_res (pm_peers self) (pm_res self) None self, Some message)
    | None => match pm_res self with
              | message :: results => (pm_set_res (pm_peers self) results None self, Some message)
              | [] => (self, None)
              end
    end in
  match next_message with
  | None => (self, Pending)
  | Some (Err (PeerError info e)) => take_peer locked info (PeerErrorAndMissing info (Some (PeerError info e))) self
  | Some (Err err) => (self, Ready (Some (Err err)))
  | Some (Ok (PeerRemoved info)) => take_peer locked info (PeerRemovedAndMissing info) self
  | Some (Ok (PeerDisconnect info)) => take_peer locked info (PeerDisconnectedAndMissing info) self
  | Some (Ok msg) => (self, Ready (Some (Ok msg)))
  | Some (Panic f) => (self, Ready (Some (Panic f)))
  end.
End Manager.
