(* ===== verification/PeerManagerProps.v ===== *)
(** The peer manager: every running task is in the map of peers under its key, a
    removal finds its peer, the messages of a peer are reported in their order; and
    a peer whose task ended without a report stays in the map and blocks the sink. *)

From stdpp Require Import base numbers gmap strings list.
From S2P Require Import Prelude RustStd Extern Io Convert Sha Handshake Reveal PeerManager.

Section Props.
Context {Message : Type} `{!ManagedMessage Message} `{HashOrder}.

#[local] Abbreviation manager := (PeerManager (Message := Message)).
#[local] Abbreviation out := (output (Message := Message)).
#[local] Abbreviation ptask := (peer_task (Message := Message)).

(** * Runs *)

Inductive pm_event :=
  | EvSend (locked full : bool) (now : Z) (item : res io_error (PeerManagerInputMessage (Message := Message)))
  | EvTask (id : nat) (peer_first : bool) (now : Z) (ch : channel) (w : wire)
  | EvArrive (id : nat) (message : Message)
  | EvFault (id : nat) (e : io_error)
  | EvEnd (id : nat)
  | EvPoll (locked : bool)
  | EvClose (locked : bool).

(** A connection gives items until it ends. *)
Definition arrive (items : list (res io_error Message)) (ended : bool) (t : ptask) : ptask :=
  if tk_ended t then t else
  {| tk_info := tk_info t; tk_state := tk_state t; tk_manager := tk_manager t; tk_inbox := tk_inbox t; tk_closed := tk_closed t;
     tk_incoming := tk_incoming t ++ items; tk_ended := ended; tk_wire := tk_wire t |}.

Definition pm_set_tasks (tasks : list ptask) (s : manager) : manager := pm_set (pm_peers s) tasks (pm_task_queue s) s.

(** The state, and what the stream gave. *)
Definition pm_step (e : pm_event) (s : manager) : manager * option out :=
  match e with
  | EvSend locked full now item => ((pm_handle_message locked full now item s).1, None)
  | EvTask id peer_first now ch w =>
      match pm_tasks s !! id with
      | Some t =>
          let '(t, o) := task_poll peer_first now ch w t in
          (pm_set_res (pm_peers s) (pm_res s ++ option_list o) (pm_opt_pending s) (pm_set_tasks (<[id := t]> (pm_tasks s)) s), None)
      | None => (s, None)
      end
  | EvArrive id message => (pm_set_tasks (alter (arrive [Ok message] false) id (pm_tasks s)) s, None)
  | EvFault id e => (pm_set_tasks (alter (arrive [Err e] false) id (pm_tasks s)) s, None)
  | EvEnd id => (pm_set_tasks (alter (arrive [] true) id (pm_tasks s)) s, None)
  | EvPoll locked =>
      let '(s, r) := pm_poll_next locked s in (s, match r with Ready o => o | Pending => None end)
  | EvClose locked => ((pm_poll_close locked s).1, None)
  end.

Fixpoint pm_run (es : list pm_event) (s : manager) : manager * list out :=
  match es with
  | [] => (s, [])
  | e :: es => let '(s, o) := pm_step e s in let '(s, os) := pm_run es s in (s, option_list o ++ os)
  end.

(** * The invariant *)

Definition output_key (o : out) : option peer_key :=
  match o with
  | Ok (PeerAdded p | PeerRemoved p | SentMessage p _ | ReceivedMessage p _) => Some (key_of p)
  | Err (PeerError p _) => Some (key_of p)
  | _ => None
  end.

(** The messages that take a peer out of the map. *)
Definition removal (o : out) : option peer_key :=
  match o with Ok (PeerRemoved p) => Some (key_of p) | Err (PeerError p _) => Some (key_of p) | _ => None end.
Definition removals (os : list out) : list peer_key := omap removal os.

Definition input_key (m : PeerManagerInputMessage (Message := Message)) : option peer_key :=
  match m with RemovePeer p => Some (key_of p) | SendMessage p _ _ => Some (key_of p) | AddPeer _ => None end.

(** What a task waits to report is about its peer, and ends the task exactly if
    it is a removal. *)
Definition state_ok (k : peer_key) (st : task_state (Message := Message)) : Prop :=
  match st with
  | TSend o go_on => output_key o = Some k ∧ (go_on = false ↔ is_Some (removal o))
  | TWire _ (Some (info, _)) => key_of info = k
  | _ => True
  end.
Definition task_ok (t : ptask) : Prop :=
  state_ok (key_of (tk_info t)) (tk_state t) ∧ Forall (λ m, input_key m = Some (key_of (tk_info t))) (tk_inbox t) ∧
  Forall (λ r, ∀ f, r ≠ Panic f) (tk_incoming t).

Record pm_inv (s : manager) : Prop := {
  inv_entry k i : pm_peers s !! k = Some i → ∃ t, pm_tasks s !! i = Some t ∧ key_of (tk_info t) = k;
  inv_task i t : pm_tasks s !! i = Some t → task_ok t;
  inv_running i t : pm_tasks s !! i = Some t → is_done t = false → pm_peers s !! key_of (tk_info t) = Some i;
  inv_removal k : k ∈ removals (pm_res s) → ∃ i t, pm_peers s !! k = Some i ∧ pm_tasks s !! i = Some t ∧ is_done t = true;
  inv_once : NoDup (removals (pm_res s));
  inv_res : Forall (λ o, is_Some (output_key o)) (pm_res s);
  inv_pending : pm_opt_pending s = None;
  inv_capacity : size (pm_peers s) ≤ peer_capacity (pm_builder s)
}.

Lemma pm_inv_new builder : pm_inv (PeerManager_from_builder builder).
Proof.
  split; cbn; try done; try constructor.
  - intros k Hk. by apply not_elem_of_nil in Hk.
  - rewrite map_size_empty. lia.
Qed.

(** ** Tasks *)

Lemma removals_app (os os' : list out) : removals (os ++ os') = removals os ++ removals os'.
Proof. apply omap_app. Qed.

(** A polled stream leaves the task well formed, and its item is about the peer. *)
Definition polled_ok (t t' : ptask) (r : poll (res MergedError (UnifiedItem (Message := Message)))) : Prop :=
  task_ok t' ∧ tk_info t' = tk_info t ∧ tk_state t' = tk_state t ∧
  ∀ x, r = Ready x → (∀ f, x ≠ Panic f) ∧ ∀ m, x = Ok (UI_Manager m) → input_key m = Some (key_of (tk_info t)).

Lemma poll_peer_ok (t : ptask) : task_ok t → polled_ok t (poll_peer t).1 (poll_peer t).2.
Proof.
  intros (H1 & H2 & H3). unfold poll_peer, poll_queue. destruct (tk_incoming t) as [|x l]; cbn.
  - split; [done|]. split; [done|]. split; [done|]. destruct (tk_ended t); cbn; [|done]. by intros ? [= <-].
  - apply Forall_cons in H3 as [Hx H3]. split; [done|]. split; [done|]. split; [done|].
    destruct x as [m|e|f]; [by intros ? [= <-]..|by destruct (Hx f)].
Qed.

Lemma poll_manager_ok now (t : ptask) : task_ok t → polled_ok t (poll_manager now t).1 (poll_manager now t).2.
Proof.
  intros (H1 & H2 & H3). unfold poll_manager, poll_queue. destruct (tk_inbox t) as [|m l]; cbn.
  - destruct (tk_closed t); cbn; [|destruct (_ <? _)%Z]; cbn; (split; [done|]); (split; [done|]); (split; [done|]); by intros ? [= <-].
  - apply Forall_cons in H2 as [Hm H2]. split; [done|]. split; [done|]. split; [done|]. intros ? [= <-]. split; [done|].
    by intros ? [= <-].
Qed.

Lemma polled_trans (t t1 t2 : ptask) r1 r : polled_ok t t1 r1 → polled_ok t1 t2 r → polled_ok t t2 r.
Proof. intros (A1 & A2 & A3 & A4) (B1 & B2 & B3 & B4). split; [done|]. split; [congruence|]. split; [congruence|]. by rewrite <- A2. Qed.

Lemma poll_merged_ok peer_first now (t t' : ptask) r : task_ok t → poll_merged peer_first now t = (t', r) → polled_ok t t' r.
Proof.
  intros Ht. pose proof (poll_peer_ok t Ht) as Hp. pose proof (poll_manager_ok now t Ht) as Hm. unfold poll_merged. destruct peer_first.
  - destruct (poll_peer t) as [t1 [x|]]; cbn [fst snd] in Hp; [by intros [= <- <-]|]. intros E.
    pose proof (poll_manager_ok now t1 (proj1 Hp)) as H1. rewrite E in H1. exact (polled_trans _ _ _ _ _ Hp H1).
  - destruct (poll_manager now t) as [t1 [x|]]; cbn [fst snd] in Hm; [by intros [= <- <-]|]. intros E.
    pose proof (poll_peer_ok t1 (proj1 Hm)) as H1. rewrite E in H1. exact (polled_trans _ _ _ _ _ Hm H1).
Qed.

Lemma handle_ok (r : res MergedError (UnifiedItem (Message := Message))) info :
  (∀ f, r ≠ Panic f) → (∀ m, r = Ok (UI_Manager m) → input_key m = Some (key_of info)) →
  state_ok (key_of info) (handle_stream_result r info).
Proof.
  intros Hp Hm. destruct r as [[m|[i|i|i id m]]|[|e|]|f]; cbn; try done; try (by split; [|split; [|intros [? ?]]]).
  - specialize (Hm _ eq_refl). cbn in Hm. split; [done|]. split; intros _; [by eexists|done].
  - exact (inj Some _ _ (Hm _ eq_refl)).
Qed.

(** A poll of a task: it reports on its peer; a report that removes the peer ends
    it, and a task that has ended reports nothing. *)
Lemma task_poll_ok peer_first now ch w (t t' : ptask) o : task_ok t → task_poll peer_first now ch w t = (t', o) →
  task_ok t' ∧ tk_info t' = tk_info t ∧ (is_done t = true → is_done t' = true ∧ o = None) ∧
  ∀ x, o = Some x → output_key x = Some (key_of (tk_info t)) ∧ (is_Some (removal x) → is_done t' = true).
Proof.
  intros Ht. unfold task_poll, is_done. assert (Ht' := Ht). destruct Ht' as (H1 & H2 & H3). destruct (tk_state t) as [|x go_on|m told|] eqn:Es.
  - destruct (poll_merged peer_first now t) as [t1 r] eqn:Ep. destruct (poll_merged_ok _ _ _ _ _ Ht Ep) as ((A1 & A2 & A3) & B & C & D).
    destruct r as [r|]; intros [= <- <-]; [|done]. destruct (D r eq_refl) as [D1 D2]. split; [|by split; [rewrite <- B|]]. split; [|done].
    cbn [tk_info tk_state set_state set_task]. apply handle_ok; [done|]. by rewrite B.
  - destruct H1 as [K G]. destruct ch; intros [= <- <-]; cbn.
    + split; [by destruct go_on|]. split; [done|]. split; [done|]. intros ? [= <-]. split; [done|]. intros ->%G. done.
    + split; [by unfold task_ok; rewrite Es|]. done.
    + done.
  - destruct w; intros [= <- <-]; [|by split|done]. split; [|done]. split; [|done]. cbn [tk_state tk_info set_task].
    destruct told as [[info id]|]; [|done]. cbn in H1 |- *. by rewrite H1.
  - intros [= <- <-]. rewrite Es. done.
Qed.
(** ** Steps *)

Lemma removals_option o : removals (option_list o) = match o with Some x => option_list (removal x) | None => [] end.
Proof. destruct o as [x|]; [|done]. unfold removals. cbn. by destruct (removal x). Qed.

Lemma removal_key x k : removal x = Some k → output_key x = Some k.
Proof. by destruct x as [[]|[]|]. Qed.

Lemma pm_inv_task i (t t' : ptask) o s : pm_inv s → pm_tasks s !! i = Some t → task_ok t' → tk_info t' = tk_info t →
  (is_done t = true → is_done t' = true ∧ o = None) →
  (∀ x, o = Some x → output_key x = Some (key_of (tk_info t)) ∧ (is_Some (removal x) → is_done t' = true)) →
  pm_inv (pm_set_res (pm_peers s) (pm_res s ++ option_list o) (pm_opt_pending s) (pm_set_tasks (<[i := t']> (pm_tasks s)) s)).
Proof.
  intros [J1 J2 J3 J4 J5 J6 J7 J8] Hi Ht' Hinf Hdone Ho.
  assert (Hkeep : ∀ j u, pm_tasks s !! j = Some u → ∃ u', <[i := t']> (pm_tasks s) !! j = Some u' ∧ tk_info u' = tk_info u ∧
    (is_done u = true → is_done u' = true)).
  { intros j u Hj. destruct (decide (j = i)) as [->|Hne].
    - exists t'. rewrite list_lookup_insert_eq by (by eapply lookup_lt_Some). rewrite Hi in Hj. injection Hj as <-. naive_solver.
    - exists u. by rewrite list_lookup_insert_ne. }
  split; cbn [pm_peers pm_tasks pm_res pm_opt_pending pm_builder pm_set_res pm_set_tasks pm_set].
  - intros k j Hk. destruct (J1 k j Hk) as (u & Hj & Hu). destruct (Hkeep j u Hj) as (u' & Hj' & Hinf' & _). exists u'. by rewrite Hinf'.
  - intros j u [[<- [<- _]]|[_ Hj]]%list_lookup_insert_Some; [done|by eapply J2].
  - intros j u [[<- [<- _]]|[_ Hj]]%list_lookup_insert_Some; [|by apply J3]. intros Hd. rewrite Hinf. apply J3; [done|].
    destruct (is_done t); [|done]. destruct (Hdone eq_refl). congruence.
  - intros k. rewrite removals_app, elem_of_app, removals_option. intros [Hk|Hk].
    + destruct (J4 k Hk) as (j & u & Hj & Hu & Hd). destruct (Hkeep j u Hu) as (u' & Hu' & _ & Hd'). exists j, u'. naive_solver.
    + destruct o as [x|]; [|by apply not_elem_of_nil in Hk]. destruct (Ho x eq_refl) as [Hx Hr].
      destruct (removal x) as [k'|] eqn:Er; [|by apply not_elem_of_nil in Hk]. apply list_elem_of_singleton in Hk as ->.
      exists i, t'. apply removal_key in Er. split; [|split; [by rewrite list_lookup_insert_eq by (by eapply lookup_lt_Some)|by apply Hr]].
      assert (is_done t = false) as Hd by (destruct (is_done t); [destruct (Hdone eq_refl); done|done]).
      rewrite Er in Hx. injection Hx as ->. by apply J3.
  - rewrite removals_app, removals_option. apply NoDup_app. split; [done|]. split.
    + intros k Hk Hk'. destruct o as [x|]; [|by apply not_elem_of_nil in Hk']. destruct (Ho x eq_refl) as [Hx Hr].
      destruct (removal x) as [k'|] eqn:Er; [|by apply not_elem_of_nil in Hk']. apply list_elem_of_singleton in Hk' as ->.
      apply removal_key in Er. rewrite Er in Hx. injection Hx as ->. destruct (J4 _ Hk) as (j & u & Hj & Hu & Hd).
      destruct (is_done t) eqn:Ed; [destruct (Hdone eq_refl); done|]. rewrite (J3 i t Hi Ed) in Hj. congruence.
    + destruct o as [x|]; [|constructor]. destruct (removal x); [apply NoDup_singleton|constructor].
  - apply Forall_app. split; [done|]. destruct o as [x|]; [|done]. apply Forall_singleton. destruct (Ho x eq_refl) as [-> _]. by eexists.
  - done.
  - done.
Qed.

Lemma pm_inv_task_silent i (t t' : ptask) s : pm_inv s → pm_tasks s !! i = Some t → task_ok t' → tk_info t' = tk_info t →
  (is_done t = true → is_done t' = true) → pm_inv (pm_set_tasks (<[i := t']> (pm_tasks s)) s).
Proof.
  intros Hs Hi Ht Hinf Hd. pose proof (pm_inv_task i t t' None s Hs Hi Ht Hinf ltac:(naive_solver) ltac:(done)) as Hx.
  cbn [option_list] in Hx. rewrite app_nil_r in Hx. exact Hx.
Qed.

Lemma alter_insert {A} (f : A → A) i (l : list A) :
  alter f i l = match l !! i with Some x => <[i := f x]> l | None => l end.
Proof.
  apply list_eq. intros j. destruct (decide (j = i)) as [->|Hne].
  - rewrite list_lookup_alter_eq. destruct (l !! i) as [x|] eqn:E; cbn; [|by rewrite E].
    by rewrite list_lookup_insert_eq by (by eapply lookup_lt_Some).
  - rewrite list_lookup_alter_ne by done. destruct (l !! i); [|done]. by rewrite list_lookup_insert_ne.
Qed.

Lemma pm_inv_alter (f : ptask → ptask) i s :
  (∀ t, task_ok t → task_ok (f t) ∧ tk_info (f t) = tk_info t ∧ is_done (f t) = is_done t) →
  pm_inv s → pm_inv (pm_set_tasks (alter f i (pm_tasks s)) s).
Proof.
  intros Hf Hs. rewrite alter_insert. destruct (pm_tasks s !! i) as [t|] eqn:Hi; [|by destruct s].
  destruct (Hf t (inv_task _ Hs _ _ Hi)) as (? & ? & E). apply (pm_inv_task_silent _ t); try done. by rewrite E.
Qed.

Lemma close_task_ok (t : ptask) : task_ok t → task_ok (close_task t) ∧ tk_info (close_task t) = tk_info t ∧ is_done (close_task t) = is_done t.
Proof. done. Qed.

Lemma close_senders_inv senders s : pm_inv s → pm_inv (pm_set_tasks (close_senders senders (pm_tasks s)) s).
Proof.
  unfold close_senders. revert s. induction senders as [|i senders IH]; intros s Hs; cbn [foldl]; [by destruct s|].
  exact (IH (pm_set_tasks (alter close_task i (pm_tasks s)) s) (pm_inv_alter _ i s close_task_ok Hs)).
Qed.

Lemma arrive_ok items ended (t : ptask) : Forall (λ r, ∀ f, r ≠ Panic f) items → task_ok t →
  task_ok (arrive items ended t) ∧ tk_info (arrive items ended t) = tk_info t ∧ is_done (arrive items ended t) = is_done t.
Proof.
  intros Hit (H1 & H2 & H3). unfold arrive. destruct (tk_ended t); [done|]. split; [|done]. split; [done|]. split; [done|].
  by apply Forall_app.
Qed.

Lemma add_peer_pm_inv locked now info s : pm_inv s → pm_inv (pm_add_peer locked now info s).1.
Proof.
  intros Hs. unfold pm_add_peer. destruct locked; [done|]. destruct (Nat.leb_spec (peer_capacity (pm_builder s)) (size (pm_peers s))) as [|Hc]; [done|].
  destruct (pm_peers s !! key_of info) as [i|] eqn:Ek; [done|]. destruct Hs as [J1 J2 J3 J4 J5 J6 J7 J8].
  split; cbn [fst pm_peers pm_tasks pm_res pm_opt_pending pm_builder pm_set]; try done.
  - intros k i [[<- <-]|[_ Hk]]%lookup_insert_Some.
    + eexists. split; [apply list_lookup_middle|]; done.
    + destruct (J1 k i Hk) as (t & Ht & Hkt). exists t. split; [|done]. by apply lookup_app_l_Some.
  - intros i t [Ht|[_ Ht]]%lookup_app_Some; [by eapply J2|]. apply list_lookup_singleton_Some in Ht as [_ <-].
    split; [|done]. cbn. split; [done|]. split; [done|by intros [? ?]].
  - intros i t [Ht|[Hge Ht]]%lookup_app_Some Hd.
    + rewrite lookup_insert_ne; [by apply J3|]. intros Heq. rewrite Heq in Ek. rewrite (J3 i t Ht Hd) in Ek. done.
    + apply list_lookup_singleton_Some in Ht as [Hi <-]. cbn. rewrite lookup_insert_eq. f_equal. lia.
  - intros k Hk. destruct (J4 k Hk) as (i & t & Hi & Ht & Hd). exists i, t. split; [|split; [by apply lookup_app_l_Some|done]].
    rewrite lookup_insert_ne; [done|]. intros Heq. rewrite Heq in Ek. congruence.
  - rewrite map_size_insert_None by done. lia.
Qed.

Lemma to_peer_inv locked full info m s : input_key m = Some (key_of info) → pm_inv s → pm_inv (to_peer locked full info m s).1.
Proof.
  intros Hm Hs. unfold to_peer. destruct locked; [done|]. destruct (pm_peers s !! key_of info) as [i|] eqn:Ek; [|done].
  destruct (inv_entry _ Hs _ _ Ek) as (t & Ht & Hk). unfold sender_start_send. rewrite Ht.
  destruct (tk_closed t); [by destruct s|]. destruct full; [by destruct s|]. destruct (is_done t) eqn:Ed; [by destruct s|].
  destruct (inv_task _ Hs _ _ Ht) as (H1 & H2 & H3). apply (pm_inv_task_silent i t); try done.
  split; [done|]. split; [|done]. apply Forall_app. split; [done|]. apply Forall_singleton. cbn. by rewrite Hk.
Qed.

Lemma drop_results o results s : pm_res s = o :: results → pm_inv s → pm_inv (pm_set_res (pm_peers s) results None s).
Proof.
  intros Er [J1 J2 J3 J4 J5 J6 J7 J8]. rewrite Er in *. change (o :: results) with ([o] ++ results) in *. rewrite removals_app in *.
  apply Forall_app in J6 as [_ J6]. apply NoDup_app in J5 as (_ & _ & J5).
  split; cbn [pm_peers pm_tasks pm_res pm_opt_pending pm_builder pm_set_res]; try done. intros k Hk. apply J4, elem_of_app. by right.
Qed.

(** Taking out the peer of a removal message that is in front of the queue. *)
Lemma take_peer_inv locked info missing o results s :
  pm_res s = o :: results → removal o = Some (key_of info) → pm_inv s →
  let r := take_peer locked info missing (pm_set_res (pm_peers s) results None s) in
  pm_inv r.1 ∧ (r.2 = Pending ∨ r.2 = Ready (Some (Ok (PeerRemoved info)))).
Proof.
  intros Er Hr Hs. cbn zeta. pose proof (drop_results _ _ _ Er Hs) as Hs'. unfold take_peer. destruct locked; [by split; [|left]|].
  destruct (inv_removal _ Hs (key_of info)) as (i & t & Hi & Ht & Hd).
  { rewrite Er. unfold removals. cbn. rewrite Hr. left. }
  cbn [pm_peers pm_set_res]. rewrite Hi. cbn [fst snd]. split; [|by right]. unfold drop_sender.
  change (pm_inv (pm_set_tasks (alter close_task i (pm_tasks s)) (pm_set_res (delete (key_of info) (pm_peers s)) results None s))).
  apply (pm_inv_alter _ i (pm_set_res (delete (key_of info) (pm_peers s)) results None s)); [apply close_task_ok|].
  assert (Hnot : key_of info ∉ removals results).
  { pose proof (inv_once _ Hs) as Hn. rewrite Er in Hn. unfold removals in Hn |- *. cbn in Hn. rewrite Hr in Hn.
    by apply NoDup_cons in Hn as [? _]. }
  destruct Hs' as [J1 J2 J3 J4 J5 J6 J7 J8]. split; cbn [pm_peers pm_tasks pm_res pm_opt_pending pm_builder pm_set_res] in *; try done.
  - intros k j [_ Hk]%lookup_delete_Some. by apply J1.
  - intros j u Hj Hdu. rewrite lookup_delete_ne; [by apply J3|]. intros Heq.
    pose proof (J3 j u Hj Hdu) as Hj'. rewrite <- Heq, Hi in Hj'. injection Hj' as ->. rewrite Ht in Hj. injection Hj as ->. congruence.
  - intros k Hk. destruct (J4 k Hk) as (j & u & Hj & Hu & Hdu). exists j, u. split; [|done]. rewrite lookup_delete_ne; [done|].
    intros Heq. apply Hnot. by rewrite Heq.
  - etrans; [|exact J8]. apply map_subseteq_size, delete_subseteq.
Qed.

(** What the stream gives: never a report of a missing peer. *)
Definition no_missing (o : out) : Prop := match o with Ok _ => True | _ => False end.

Lemma poll_next_pm_inv locked s : pm_inv s →
  pm_inv (pm_poll_next locked s).1 ∧ ∀ o, (pm_poll_next locked s).2 = Ready o → ∃ x, o = Some x ∧ no_missing x.
Proof.
  intros Hs. unfold pm_poll_next. rewrite (inv_pending _ Hs). destruct (pm_res s) as [|o results] eqn:Er; [done|].
  pose proof (drop_results _ _ _ Er Hs) as Hs'. pose proof (inv_res _ Hs) as Ho. rewrite Er in Ho. apply Forall_cons in Ho as [Ho _].
  destruct o as [[info|info|info id|info m|info]|[info|info|info e|info e]|f]; cbn in Ho; try by destruct Ho.
  1,3,4: split; [done|]; cbn; intros ? [= <-]; by eexists.
  - destruct (take_peer_inv locked info (PeerRemovedAndMissing info) _ _ _ Er eq_refl Hs) as [? [E|E]]; (split; [done|]);
      rewrite E; intros ? [= <-]; by eexists.
  - destruct (take_peer_inv locked info (PeerErrorAndMissing info (Some (PeerError info e))) _ _ _ Er eq_refl Hs) as [? [E|E]]; (split; [done|]);
      rewrite E; intros ? [= <-]; by eexists.
Qed.

Lemma step_pm_inv e s : pm_inv s → pm_inv (pm_step e s).1 ∧ ∀ o, (pm_step e s).2 = Some o → no_missing o.
Proof.
  intros Hs. destruct e as [locked full now item|id first now ch w|id m|id e|id|locked|locked]; cbn [pm_step].
  - split; [|done]. destruct item as [[info|info|info mid m]|e|f]; cbn [pm_handle_message fst]; [by apply add_peer_pm_inv|..|done|done];
      by apply to_peer_inv.
  - destruct (pm_tasks s !! id) as [t|] eqn:Ht; [|done]. destruct (task_poll first now ch w t) as [t' o] eqn:Ep. split; [|done].
    destruct (task_poll_ok _ _ _ _ _ _ _ (inv_task _ Hs _ _ Ht) Ep) as (? & ? & ? & ?). by apply (pm_inv_task id t).
  - split; [|done]. apply pm_inv_alter; [|done]. intros t. apply arrive_ok. by apply Forall_singleton.
  - split; [|done]. apply pm_inv_alter; [|done]. intros t. apply arrive_ok. by apply Forall_singleton.
  - split; [|done]. apply pm_inv_alter; [|done]. intros t. by apply arrive_ok.
  - destruct (poll_next_pm_inv locked s Hs) as [Hi Ho]. destruct (pm_poll_next locked s) as [s' r]. cbn [fst snd] in *. split; [done|].
    intros o. destruct r as [o'|]; [|done]. intros ->. destruct (Ho _ eq_refl) as (x & [= ->] & Hx). done.
  - split; [|done]. unfold pm_poll_close. destruct locked; [done|]. destruct (join_tasks _ _) as [queue r]. cbn [fst].
    pose proof (close_senders_inv (snd <$> hash_iter (pm_peers s)) s Hs) as [J1 J2 J3 J4 J5 J6 J7 J8]. by split.
Qed.

Lemma run_pm_inv es : ∀ s, pm_inv s → pm_inv (pm_run es s).1 ∧ Forall no_missing (pm_run es s).2.
Proof.
  induction es as [|e es IH]; intros s Hs; [done|]. cbn [pm_run]. destruct (step_pm_inv e s Hs) as [Hs1 Ho].
  destruct (pm_step e s) as [s1 o]. cbn [fst snd] in *. destruct (IH s1 Hs1) as [Hs2 Hos]. destruct (pm_run es s1) as [s2 os]. cbn [fst snd] in *.
  split; [done|]. apply Forall_app. split; [|done]. destruct o as [x|]; [|done]. apply Forall_singleton. by apply Ho.
Qed.

Lemma builder_step e s : pm_builder (pm_step e s).1 = pm_builder s.
Proof.
  destruct e as [locked full now item|id first now ch w|id m|id e|id|locked|locked]; cbn [pm_step]; try done.
  - destruct item as [[info|info|info mid m]|e|f]; cbn [pm_handle_message fst]; try done.
    + unfold pm_add_peer. destruct locked; [done|]. destruct (_ <=? _); [done|]. by destruct (_ !! _).
    + unfold pm_remove_peer, to_peer. destruct locked; [done|]. destruct (_ !! _); [|done]. by destruct (sender_start_send _ _ _ _) as [? []].
    + unfold pm_send_message, to_peer. destruct locked; [done|]. destruct (_ !! _); [|done]. by destruct (sender_start_send _ _ _ _) as [? []].
  - destruct (_ !! _) as [t|]; [|done]. by destruct (task_poll _ _ _ _ t).
  - unfold pm_poll_next, take_peer. destruct locked, (pm_opt_pending s) as [[[]|[]|]|]; try done; cbn; try (by destruct (_ !! _));
      destruct (pm_res s) as [|[[]|[]|] results]; try done; cbn; by destruct (_ !! _).
  - unfold pm_poll_close. destruct locked; [done|]. by destruct (join_tasks _ _).
Qed.

Lemma builder_run es : ∀ s, pm_builder (pm_run es s).1 = pm_builder s.
Proof.
  induction es as [|e es IH]; intros s; [done|]. cbn [pm_run]. pose proof (builder_step e s) as Hb. destruct (pm_step e s) as [s1 o].
  specialize (IH s1). destruct (pm_run es s1). cbn [fst] in *. congruence.
Qed.

(** Claim C26. Every peer in the map has its task and every running task is in the map, never
    more than the capacity; and a removal that is reported always finds its peer: the
    errors for a missing peer never come. *)
Theorem peers_accounted builder es :
  let '(s, os) := pm_run es (PeerManager_from_builder builder) in
  size (pm_peers s) ≤ peer_capacity builder ∧
  (∀ k i, pm_peers s !! k = Some i → ∃ t, pm_tasks s !! i = Some t ∧ key_of (tk_info t) = k) ∧
  (∀ i t, pm_tasks s !! i = Some t → is_done t = false → pm_peers s !! key_of (tk_info t) = Some i) ∧
  Forall no_missing os.
Proof.
  pose proof (run_pm_inv es _ (pm_inv_new builder)) as [Hs Ho]. pose proof (builder_run es (PeerManager_from_builder builder)) as Hb.
  destruct (pm_run es _) as [s os]. cbn [fst snd] in *. split; [|split; [|split; [|done]]].
  - etrans; [apply Hs|]. by rewrite Hb.
  - apply (inv_entry _ Hs).
  - apply (inv_running _ Hs).
Qed.

(** * Peers that stay *)

(** The task of [k] has ended, and nothing in the channel will remove it. *)
Definition dead (k : peer_key) (i : nat) (s : manager) : Prop :=
  pm_peers s !! k = Some i ∧ (∃ t, pm_tasks s !! i = Some t ∧ is_done t = true) ∧ k ∉ removals (pm_res s).

Lemma dead_alter (f : ptask → ptask) j k i s : (∀ t, is_done (f t) = is_done t) → dead k i s →
  dead k i (pm_set_tasks (alter f j (pm_tasks s)) s).
Proof.
  intros Hf (Hk & (t & Ht & Hd) & Hr). split; [done|]. split; [|done]. cbn [pm_tasks pm_set_tasks pm_set].
  destruct (decide (j = i)) as [->|Hne].
  - exists (f t). rewrite list_lookup_alter_eq, Ht. by rewrite Hf.
  - exists t. by rewrite list_lookup_alter_ne.
Qed.

Lemma dead_close senders : ∀ k i s, dead k i s → dead k i (pm_set_tasks (close_senders senders (pm_tasks s)) s).
Proof.
  unfold close_senders. induction senders as [|j senders IH]; intros k i s Hd; cbn [foldl]; [by destruct s|].
  exact (IH k i (pm_set_tasks (alter close_task j (pm_tasks s)) s) (dead_alter close_task j k i s (λ t, eq_refl) Hd)).
Qed.

Lemma dead_to_peer locked full info m k i s : dead k i s → dead k i (to_peer locked full info m s).1.
Proof.
  intros Hd. unfold to_peer. destruct locked; [done|]. destruct (pm_peers s !! key_of info) as [j|]; [|done].
  unfold sender_start_send. destruct (pm_tasks s !! j) as [t|] eqn:Ht; [|by destruct s].
  destruct (tk_closed t); [by destruct s|]. destruct full; [by destruct s|]. destruct (is_done t) eqn:Ed; [by destruct s|].
  destruct Hd as (Hk & (u & Hu & Hdu) & Hr). split; [done|]. split; [|done]. exists u. split; [|done]. cbn.
  rewrite list_lookup_insert_ne; [done|]. intros ->. congruence.
Qed.

Lemma dead_take_peer locked info missing k i s : key_of info ≠ k → dead k i s → dead k i (take_peer locked info missing s).1.
Proof.
  intros Hne Hd. unfold take_peer. destruct locked; [done|]. destruct (pm_peers s !! key_of info) as [j|]; [|done]. cbn [fst].
  apply (dead_alter close_task j k i (pm_set_res (delete (key_of info) (pm_peers s)) (pm_res s) (pm_opt_pending s) s)); [done|].
  destruct Hd as (Hk & Ht & Hr). split; [|done]. cbn. by rewrite lookup_delete_ne.
Qed.

Lemma dead_poll_next locked k i s : pm_inv s → dead k i s → dead k i (pm_poll_next locked s).1.
Proof.
  intros Hs Hd. unfold pm_poll_next. rewrite (inv_pending _ Hs). destruct (pm_res s) as [|o results] eqn:Er; [done|].
  pose proof (inv_res _ Hs) as Ho. rewrite Er in Ho. apply Forall_cons in Ho as [Ho _].
  assert (Hne : ∀ k', removal o = Some k' → k' ≠ k).
  { intros k' Hk' ->. destruct Hd as (_ & _ & Hr). apply Hr. rewrite Er. unfold removals. cbn. rewrite Hk'. left. }
  assert (Hd' : dead k i (pm_set_res (pm_peers s) results None s)).
  { destruct Hd as (Hk & Ht & Hr). split; [done|]. split; [done|]. cbn. intros Hin. apply Hr. rewrite Er.
    change (o :: results) with ([o] ++ results). rewrite removals_app. apply elem_of_app. by right. }
  destruct o as [[info|info|info id|info m|info]|[info|info|info e|info e]|f]; cbn in Ho; try done; try by destruct Ho.
  - apply dead_take_peer; [by apply Hne|done].
  - apply dead_take_peer; [by apply Hne|done].
Qed.

Lemma dead_step e k i s : pm_inv s → dead k i s → dead k i (pm_step e s).1.
Proof.
  intros Hs Hd. destruct e as [locked full now item|id first now ch w|id m|id e|id|locked|locked]; cbn [pm_step].
  - destruct item as [[info|info|info mid m]|e|f]; cbn [pm_handle_message fst]; [|by apply dead_to_peer..|done|done].
    unfold pm_add_peer. destruct locked; [done|]. destruct (_ <=? _); [done|]. destruct (pm_peers s !! key_of info) as [j|] eqn:Ej; [done|].
    destruct Hd as (Hk & (t & Ht & Hdt) & Hr). split; [|split; [|done]]; cbn.
    + rewrite lookup_insert_ne; [done|]. intros Heq. congruence.
    + exists t. split; [by apply lookup_app_l_Some|done].
  - destruct (pm_tasks s !! id) as [t|] eqn:Ht; [|done]. destruct (task_poll first now ch w t) as [t' o] eqn:Ep.
    destruct (task_poll_ok _ _ _ _ _ _ _ (inv_task _ Hs _ _ Ht) Ep) as (_ & _ & Hdone & Ho). destruct Hd as (Hk & (u & Hu & Hdu) & Hr).
    split; [done|]. split; cbn.
    + destruct (decide (id = i)) as [->|Hne].
      * exists t'. rewrite list_lookup_insert_eq by (by eapply lookup_lt_Some). rewrite Ht in Hu. injection Hu as ->. naive_solver.
      * exists u. by rewrite list_lookup_insert_ne.
    + rewrite removals_app, removals_option, not_elem_of_app. split; [done|]. destruct o as [x|]; [|apply not_elem_of_nil].
      destruct (Ho x eq_refl) as [Hx _]. destruct (removal x) as [k'|] eqn:Ex; [|apply not_elem_of_nil].
      intros <-%list_elem_of_singleton. apply removal_key in Ex. rewrite Ex in Hx. injection Hx as ->.
      destruct (is_done t) eqn:Ed; [destruct (Hdone eq_refl); done|]. rewrite (inv_running _ Hs id t Ht Ed) in Hk. congruence.
  - apply dead_alter; [|done]. intros t. unfold arrive. by destruct (tk_ended t).
  - apply dead_alter; [|done]. intros t. unfold arrive. by destruct (tk_ended t).
  - apply dead_alter; [|done]. intros t. unfold arrive. by destruct (tk_ended t).
  - pose proof (dead_poll_next locked k i s Hs Hd) as Hx. by destruct (pm_poll_next locked s).
  - unfold pm_poll_close. destruct locked; [done|]. destruct (join_tasks _ _) as [queue r]. cbn [fst].
    exact (dead_close (snd <$> hash_iter (pm_peers s)) k i s Hd).
Qed.

Lemma dead_run es k i : ∀ s, pm_inv s → dead k i s → pm_inv (pm_run es s).1 ∧ dead k i (pm_run es s).1.
Proof.
  induction es as [|e es IH]; intros s Hs Hd; [done|]. cbn [pm_run]. pose proof (proj1 (step_pm_inv e s Hs)) as Hs1.
  pose proof (dead_step e k i s Hs Hd) as Hd1. destruct (pm_step e s) as [s1 o]. cbn [fst] in *. specialize (IH s1 Hs1 Hd1).
  by destruct (pm_run es s1).
Qed.

Lemma ready_all_dead full i senders (tasks : list ptask) : i ∈ senders → sender_poll_ready full i tasks = Ready (Err SendDisconnected) →
  ready_all full senders tasks ≠ Ready (Ok ()).
Proof.
  intros Hi Hd. induction senders as [|j senders IH]; [by apply not_elem_of_nil in Hi|]. cbn [ready_all].
  apply elem_of_cons in Hi as [<-|Hi]; [by rewrite Hd|]. destruct (sender_poll_ready full j tasks) as [[[]|e|f]|]; try done. by apply IH.
Qed.

(** The peer cannot be removed and the sink is never ready again. *)
Definition stuck (k : peer_key) (i : nat) (s : manager) : Prop :=
  pm_peers s !! k = Some i ∧ (∀ full, pm_poll_ready false full s ≠ Ready (Ok ())) ∧
  ∀ locked full info, key_of info = k → (pm_remove_peer locked full info s).2 ≠ Ok ().

Lemma dead_stuck k i s : dead k i s → stuck k i s.
Proof.
  intros (Hk & (t & Ht & Hd) & _). split; [done|]. split.
  - intros full. apply (ready_all_dead full i).
    + apply list_elem_of_fmap. exists (k, i). split; [done|]. rewrite hash_iter_perm. by apply elem_of_map_to_list.
    + unfold sender_poll_ready. by rewrite Ht, Hd.
  - intros locked full info <-. unfold pm_remove_peer, to_peer, sender_start_send. destruct locked; [done|]. rewrite Hk, Ht, Hd.
    by destruct (tk_closed t), full.
Qed.

(** A peer that closes its connection: the task ends and nobody is told.  The peer
    stays in the map whatever happens next, the sink is never ready again and the peer
    cannot be removed. *)
Theorem silent_disconnect builder es i t now ch w es' :
  let s := (pm_run es (PeerManager_from_builder builder)).1 in
  pm_tasks s !! i = Some t → tk_state t = TIdle → tk_incoming t = [] → tk_ended t = true →
  stuck (key_of (tk_info t)) i (pm_run (EvTask i true now ch w :: es') s).1.
Proof.
  intros s Ht Hst Hin Hend. pose proof (proj1 (run_pm_inv es _ (pm_inv_new builder))) as Hs. change (pm_inv s) in Hs.
  assert (Hd : is_done t = false) by (unfold is_done; by rewrite Hst). pose proof (inv_running _ Hs i t Ht Hd) as Hk.
  pose proof (proj1 (step_pm_inv (EvTask i true now ch w) s Hs)) as Hs1. cbn [pm_run].
  assert (dead (key_of (tk_info t)) i (pm_step (EvTask i true now ch w) s).1) as Hdead.
  { cbn [pm_step]. rewrite Ht. unfold task_poll. rewrite Hst. cbn [poll_merged]. unfold poll_peer. rewrite Hin, Hend. cbn.
    split; [done|]. split.
    - eexists. split; [cbn; by apply list_lookup_insert_eq; eapply lookup_lt_Some|done].
    - cbn. rewrite app_nil_r. intros Hr. destruct (inv_removal _ Hs _ Hr) as (j & u & Hj & Hu & Hdu). congruence. }
  destruct (pm_step _ s) as [s1 o]. cbn [fst] in *. pose proof (dead_run es' _ _ _ Hs1 Hdead) as [_ Hd2].
  destruct (pm_run es' s1). by apply dead_stuck.
Qed.

(** A removal that is polled while the map is locked is dropped: the peer stays. *)
Theorem removal_lost builder es o results k es' :
  let s := (pm_run es (PeerManager_from_builder builder)).1 in
  pm_res s = o :: results → removal o = Some k → ∃ i, stuck k i (pm_run (EvPoll true :: es') s).1.
Proof.
  intros s Hres Hrem. pose proof (proj1 (run_pm_inv es _ (pm_inv_new builder))) as Hs. change (pm_inv s) in Hs.
  destruct (inv_removal _ Hs k) as (i & t & Hk & Ht & Hd). { rewrite Hres. unfold removals. cbn. rewrite Hrem. left. }
  exists i. pose proof (proj1 (step_pm_inv (EvPoll true) s Hs)) as Hs1. cbn [pm_run].
  assert (dead k i (pm_step (EvPoll true) s).1) as Hdead.
  { cbn [pm_step]. unfold pm_poll_next. rewrite (inv_pending _ Hs), Hres. pose proof (inv_once _ Hs) as Hn. rewrite Hres in Hn.
    unfold removals in Hn. cbn in Hn. rewrite Hrem in Hn. apply NoDup_cons in Hn as [Hn _].
    destruct o as [[]|[]|]; try done; (split; [done|split; [by exists t|done]]). }
  destruct (pm_step _ s) as [s1 o1]. cbn [fst] in *. pose proof (dead_run es' _ _ _ Hs1 Hdead) as [_ Hd2].
  destruct (pm_run es' s1). by apply dead_stuck.
Qed.

(** * The messages of a peer *)

(** What arrives from the peer of a task and what the task reports of it. *)
Definition arrivals (i : nat) (e : pm_event) : list Message :=
  match e with EvArrive j m => if decide (j = i) then [m] else [] | _ => [] end.
Definition received (o : option out) : list Message := match o with Some (Ok (ReceivedMessage _ m)) => [m] | _ => [] end.
Definition step_reports (i : nat) (e : pm_event) (s : manager) : list Message :=
  match e with
  | EvTask j peer_first now ch w =>
      if decide (j = i) then match pm_tasks s !! i with Some t => received (task_poll peer_first now ch w t).2 | None => [] end else []
  | _ => []
  end.
Fixpoint reports (i : nat) (es : list pm_event) (s : manager) : list Message :=
  match es with [] => [] | e :: es => step_reports i e s ++ reports i es (pm_step e s).1 end.

Definition oks (l : list (res io_error Message)) : list Message := omap (λ r, match r with Ok m => Some m | _ => None end) l.

(** The messages a running task has still to report. *)
Definition to_report (t : ptask) : list Message :=
  match tk_state t with
  | TSend o true => received (Some o) ++ oks (tk_incoming t)
  | TSend _ false | TDone => []
  | _ => oks (tk_incoming t)
  end.

(** [done] were reported of what arrived; the rest waits unless the peer ended. *)
Definition in_order (reported arrived : list Message) (t : ptask) : Prop :=
  reported ++ to_report t `prefix_of` arrived ∧
  (is_done t = false → tk_ended t = false → (∀ o, tk_state t ≠ TSend o false) → reported ++ to_report t = arrived).

Lemma oks_app l l' : oks (l ++ l') = oks l ++ oks l'.
Proof. apply omap_app. Qed.

(** An idle task takes the front of what waits, or leaves it, or ends. *)
Lemma idle_poll_reports peer_first now ch w (t : ptask) : tk_state t = TIdle →
  let t' := (task_poll peer_first now ch w t).1 in
  (task_poll peer_first now ch w t).2 = None ∧ tk_ended t' = tk_ended t ∧
  (to_report t' = to_report t ∨ is_done t' = true ∧ to_report t' = [] ∨ ∃ o, tk_state t' = TSend o false ∧ to_report t' = []).
Proof.
  intros Hst. unfold task_poll. rewrite Hst. unfold poll_merged, poll_peer, poll_manager, to_report, is_done. rewrite Hst.
  destruct t as [info st mgr inbox closed incoming ended wr]. cbn [tk_info tk_state tk_inbox tk_incoming tk_closed tk_ended tk_manager tk_wire] in *.
  destruct peer_first, incoming as [|[x|x|f] incoming]; cbn.
  all: try (destruct ended; cbn). all: try (by split; [|split; [|eauto]]).
  all: destruct inbox as [|[i|i|i id m] inbox]; cbn; try (destruct closed; cbn); try (destruct (_ <? _)%Z; cbn).
  all: split; [done|]; split; [done|]; eauto.
Qed.

Lemma removal_not_received o : is_Some (removal o) → received (Some o) = [].
Proof. destruct o as [[]|[]|]; try done; by intros [? ?]. Qed.

Lemma in_order_poll peer_first now ch w R A (t : ptask) : task_ok t → in_order R A t →
  in_order (R ++ received (task_poll peer_first now ch w t).2) A (task_poll peer_first now ch w t).1.
Proof.
  intros (Hok & _) [Hp He]. assert (Hx : R `prefix_of` A) by (etrans; [by apply prefix_app_r|exact Hp]).
  destruct (tk_state t) as [|o go_on|m told|] eqn:Es.
  - destruct (idle_poll_reports peer_first now ch w t Es) as (-> & Hend & Hr). cbn [received]. rewrite app_nil_r. unfold in_order.
    rewrite Hend. destruct Hr as [Hr|[[Hd Hr]|(o & Ho & Hr)]]; rewrite Hr.
    + split; [done|]. intros _ Hen _. apply He; [by unfold is_done; rewrite Es|done|by intros ? [=]].
    + split; [rewrite app_nil_r; exact Hx|]. congruence.
    + split; [rewrite app_nil_r; exact Hx|]. intros _ _ Hno. by destruct (Hno o).
  - unfold task_poll. rewrite Es. unfold in_order, to_report in *. rewrite Es in *. destruct Hok as [_ Hg]. destruct ch; cbn [fst snd].
    + destruct go_on; cbn [tk_state set_state set_task is_done tk_incoming tk_ended].
      * rewrite <- app_assoc. split; [done|]. intros _ Hen _. apply He; [by unfold is_done; rewrite Es|done|by intros ? [=]].
      * rewrite removal_not_received by (by apply Hg). rewrite app_nil_r. split; [done|]. by intros ?.
    + cbn [received]. rewrite app_nil_r, Es. done.
    + cbn. rewrite !app_nil_r. split; [exact Hx|]. by intros ?.
  - unfold task_poll. rewrite Es. unfold in_order, to_report in *. rewrite Es in *. destruct w; cbn [fst snd received].
    + rewrite app_nil_r. destruct told as [[info id]|]; cbn; (split; [done|]); intros _ Hen _;
        (apply He; [by unfold is_done; rewrite Es|done|by intros ? [=]]).
    + rewrite app_nil_r, Es. done.
    + cbn. rewrite !app_nil_r. split; [exact Hx|]. by intros ?.
  - unfold task_poll. rewrite Es. cbn. rewrite app_nil_r. split; [done|]. unfold is_done. by rewrite Es.
Qed.

Lemma in_order_arrive items ended R A (t : ptask) : in_order R A t → in_order R (A ++ oks items) (arrive items ended t).
Proof.
  intros [Hp He]. assert (Hp' : R ++ to_report t `prefix_of` A ++ oks items) by (by apply prefix_app_r).
  unfold in_order, arrive. destruct (tk_ended t) eqn:Een; [split; [done|]; congruence|].
  unfold to_report, is_done in *. cbn [tk_state tk_incoming tk_ended] in *. rewrite !oks_app.
  destruct (tk_state t) as [|o [|]|m told|] eqn:Es.
  - rewrite app_assoc, He by done. done.
  - rewrite !app_assoc. rewrite <- (app_assoc R). rewrite He; [done..|]. by intros o' [=].
  - split; [done|]. intros _ _ Hno. by destruct (Hno o).
  - rewrite app_assoc, He by done. done.
  - split; [done|]. done.
Qed.

Lemma in_order_same R A (t t' : ptask) : tk_state t' = tk_state t → tk_incoming t' = tk_incoming t → tk_ended t' = tk_ended t →
  in_order R A t → in_order R A t'.
Proof. intros E1 E2 E3. unfold in_order, to_report, is_done. by rewrite E1, E2, E3. Qed.

Lemma close_senders_lookup senders i : ∀ (tasks : list ptask) t, tasks !! i = Some t →
  ∃ t', close_senders senders tasks !! i = Some t' ∧ tk_state t' = tk_state t ∧ tk_incoming t' = tk_incoming t ∧ tk_ended t' = tk_ended t.
Proof.
  unfold close_senders. induction senders as [|j senders IH]; intros tasks t Ht; cbn [foldl]; [by exists t|].
  destruct (decide (j = i)) as [->|Hne].
  - destruct (IH (alter close_task i tasks) (close_task t)) as (t' & ? & ?); [by rewrite list_lookup_alter_eq, Ht|]. by exists t'.
  - apply IH. by rewrite list_lookup_alter_ne.
Qed.

(** The other events leave the messages of a task alone. *)
Lemma quiet_step e s i t : pm_tasks s !! i = Some t →
  match e with EvTask _ _ _ _ _ | EvArrive _ _ | EvFault _ _ | EvEnd _ => False | _ => True end →
  ∃ t', pm_tasks (pm_step e s).1 !! i = Some t' ∧ tk_state t' = tk_state t ∧ tk_incoming t' = tk_incoming t ∧ tk_ended t' = tk_ended t.
Proof.
  intros Ht. assert (Hsend : ∀ locked full info m, ∃ t', pm_tasks (to_peer locked full info m s).1 !! i = Some t' ∧
    tk_state t' = tk_state t ∧ tk_incoming t' = tk_incoming t ∧ tk_ended t' = tk_ended t).
  { intros locked full info m. unfold to_peer. destruct locked; [by exists t|]. destruct (pm_peers s !! key_of info) as [j|]; [|by exists t].
    unfold sender_start_send. destruct (pm_tasks s !! j) as [u|] eqn:Hu; [|by exists t].
    destruct (tk_closed u); [by exists t|]. destruct full; [by exists t|]. destruct (is_done u); [by exists t|]. cbn.
    destruct (decide (j = i)) as [->|Hne]; [|exists t; by rewrite list_lookup_insert_ne].
    rewrite Ht in Hu. injection Hu as <-. eexists. split; [by apply list_lookup_insert_eq; eapply lookup_lt_Some|done]. }
  destruct e as [locked full now item|id first now ch w|id m|id e|id|locked|locked]; try done; intros _; cbn [pm_step].
  - destruct item as [[info|info|info mid m]|e|f]; cbn [pm_handle_message fst]; [|by apply Hsend..|by exists t|by exists t].
    unfold pm_add_peer. destruct locked; [by exists t|]. destruct (_ <=? _); [by exists t|]. destruct (pm_peers s !! _); [by exists t|].
    exists t. split; [by apply lookup_app_l_Some|done].
  - assert (Htake : ∀ s' info missing, pm_tasks s' = pm_tasks s → ∃ t', pm_tasks (take_peer locked info missing s').1 !! i = Some t' ∧
      tk_state t' = tk_state t ∧ tk_incoming t' = tk_incoming t ∧ tk_ended t' = tk_ended t).
    { intros s' info missing Es. unfold take_peer. destruct locked; [exists t; cbn [fst]; by rewrite Es|].
      destruct (pm_peers s' !! key_of info) as [j|]; [|exists t; cbn [fst]; by rewrite Es]. cbn [fst drop_sender pm_tasks pm_set pm_set_res]. rewrite Es.
      destruct (decide (j = i)) as [->|Hne]; [exists (close_task t); by rewrite list_lookup_alter_eq, Ht|exists t; by rewrite list_lookup_alter_ne]. }
    assert (Hnext : ∃ t', pm_tasks (pm_poll_next locked s).1 !! i = Some t' ∧
      tk_state t' = tk_state t ∧ tk_incoming t' = tk_incoming t ∧ tk_ended t' = tk_ended t).
    { unfold pm_poll_next. destruct (pm_opt_pending s) as [[[]|[]|]|]; try (by exists t); try (by apply Htake).
      destruct (pm_res s) as [|[[]|[]|] results]; try (by exists t); by apply Htake. }
    by destruct (pm_poll_next locked s).
  - unfold pm_poll_close. destruct locked; [by exists t|]. destruct (join_tasks _ _) as [queue r]. cbn [fst pm_tasks pm_set].
    by apply close_senders_lookup.
Qed.

Lemma in_order_step e s i t R A : pm_inv s → pm_tasks s !! i = Some t → in_order R A t →
  ∃ t', pm_tasks (pm_step e s).1 !! i = Some t' ∧ in_order (R ++ step_reports i e s) (A ++ arrivals i e) t'.
Proof.
  intros Hs Ht Ho. assert (Halter : ∀ items ended id, oks items = (if decide (id = i) then oks items else []) →
    ∃ t', alter (arrive items ended) id (pm_tasks s) !! i = Some t' ∧ in_order R (A ++ oks items) t').
  { intros items ended id Hi. destruct (decide (id = i)) as [->|Hne].
    - exists (arrive items ended t). rewrite list_lookup_alter_eq, Ht. split; [done|]. by apply in_order_arrive.
    - exists t. rewrite list_lookup_alter_ne by done. split; [done|]. by rewrite Hi, app_nil_r. }
  destruct e as [locked full now item|id first now ch w|id m|id e|id|locked|locked]; cbn [step_reports arrivals]; rewrite ?app_nil_r.
  - destruct (quiet_step (EvSend locked full now item) s i t Ht I) as (t' & Ht' & ? & ? & ?). exists t'. split; [done|]. by eapply in_order_same.
  - cbn [pm_step]. destruct (decide (id = i)) as [->|Hne].
    + rewrite Ht. pose proof (in_order_poll first now ch w R A t (inv_task _ Hs _ _ Ht) Ho) as Hx.
      destruct (task_poll first now ch w t) as [t' o]. exists t'. split; [cbn; by apply list_lookup_insert_eq; eapply lookup_lt_Some|exact Hx].
    + exists t. rewrite app_nil_r. split; [|done]. destruct (pm_tasks s !! id) as [u|]; [|done]. destruct (task_poll first now ch w u). cbn.
      by rewrite list_lookup_insert_ne.
  - cbn [pm_step]. destruct (decide (id = i)) as [->|Hne].
    + apply (Halter [Ok m] false i). by rewrite decide_True.
    + exists t. rewrite app_nil_r. split; [|done]. cbn. by rewrite list_lookup_alter_ne.
  - cbn [pm_step fst pm_tasks pm_set_tasks pm_set]. destruct (Halter [Err e] false id) as (t' & ? & Hx); [by destruct (decide _)|].
    exists t'. cbn [oks omap list_omap] in Hx. by rewrite app_nil_r in Hx.
  - cbn [pm_step fst pm_tasks pm_set_tasks pm_set]. destruct (Halter [] true id) as (t' & ? & Hx); [by destruct (decide _)|].
    exists t'. cbn [oks omap list_omap] in Hx. by rewrite app_nil_r in Hx.
  - destruct (quiet_step (EvPoll locked) s i t Ht I) as (t' & Ht' & ? & ? & ?). exists t'. split; [done|]. by eapply in_order_same.
  - destruct (quiet_step (EvClose locked) s i t Ht I) as (t' & Ht' & ? & ? & ?). exists t'. split; [done|]. by eapply in_order_same.
Qed.

Lemma in_order_run es : ∀ s i t R A, pm_inv s → pm_tasks s !! i = Some t → in_order R A t →
  R ++ reports i es s `prefix_of` A ++ concat (arrivals i <$> es).
Proof.
  induction es as [|e es IH]; intros s i t R A Hs Ht Ho; cbn [reports fmap list_fmap concat].
  - rewrite !app_nil_r. destruct Ho as [Hp _]. etrans; [by apply prefix_app_r|exact Hp].
  - destruct (in_order_step e s i t R A Hs Ht Ho) as (t' & Ht' & Ho'). rewrite !app_assoc.
    apply (IH _ _ t'); [by apply step_pm_inv|done|done].
Qed.

(** Claim C27. The messages that arrive from a peer after it was added are reported in their
    order, none twice and none left out before a later one. *)
Theorem received_in_order builder es locked now info es' :
  let s := (pm_run es (PeerManager_from_builder builder)).1 in
  let i := length (pm_tasks s) in
  (pm_handle_message locked false now (Ok (AddPeer info)) s).2 = Ok () →
  reports i es' (pm_step (EvSend locked false now (Ok (AddPeer info))) s).1 `prefix_of` concat (arrivals i <$> es').
Proof.
  intros s i Hadd. pose proof (proj1 (run_pm_inv es _ (pm_inv_new builder))) as Hs. change (pm_inv s) in Hs.
  pose proof (proj1 (step_pm_inv (EvSend locked false now (Ok (AddPeer info))) s Hs)) as Hs1.
  assert (Ht : pm_tasks (pm_step (EvSend locked false now (Ok (AddPeer info))) s).1 !! i = Some (run_peer now info (pm_builder s))).
  { cbn [pm_step pm_handle_message fst] in *. unfold pm_add_peer in *. destruct locked; [done|]. destruct (_ <=? _); [done|].
    destruct (pm_peers s !! _); [done|]. cbn. unfold i. by rewrite list_lookup_middle. }
  apply (in_order_run es' _ i _ [] [] Hs1 Ht). split; [done|]. done.
Qed.
End Props.

(** * A peer that comes and goes *)

#[local] Instance number_message : ManagedMessage Z := {| managed_keep_alive := 0%Z; managed_is_keep_alive := Z.eqb 0 |}.

Definition pm_sample_peer : PeerInfo := PeerInfo_new default_route_v4 [7%Z] {| hash := [1%Z] |} Extensions_new.

(** Added, reported, two messages, the end of the connection. *)
Definition sample_session : list (pm_event (Message := Z)) :=
  [EvTask 0 true 0 ChRoom WSent; EvPoll false; EvArrive 0 5%Z; EvArrive 0 6%Z; EvTask 0 true 1 ChRoom WSent; EvTask 0 true 2 ChRoom WSent;
   EvTask 0 true 3 ChRoom WSent; EvTask 0 true 4 ChRoom WSent; EvEnd 0].
Definition sample_add : pm_event (Message := Z) := EvSend false false 0 (Ok (AddPeer pm_sample_peer)).

Lemma received_in_order_witness :
  reports (H := hash_order_lists) 0 sample_session (pm_step (H := hash_order_lists) sample_add (PeerManager_from_builder PeerManagerBuilder_new)).1
    = [5%Z; 6%Z] ∧
  reports (H := hash_order_lists) 0 sample_session (pm_step (H := hash_order_lists) sample_add (PeerManager_from_builder PeerManagerBuilder_new)).1
    `prefix_of` concat (arrivals 0 <$> sample_session).
Proof.
  split; [by vm_compute|].
  apply (received_in_order (H := hash_order_lists) PeerManagerBuilder_new [] false 0 pm_sample_peer sample_session). by vm_compute.
Defined.

Lemma silent_disconnect_witness :
  stuck (H := hash_order_lists) (key_of pm_sample_peer) 0
    (pm_run (H := hash_order_lists) [EvTask 0 true 5 ChRoom WSent; EvPoll false]
      (pm_run (H := hash_order_lists) (sample_add :: sample_session) (PeerManager_from_builder PeerManagerBuilder_new)).1).1.
Proof.
  destruct (pm_tasks (pm_run (H := hash_order_lists) (sample_add :: sample_session) (PeerManager_from_builder PeerManagerBuilder_new)).1 !! 0)
    as [t|] eqn:Et; [|by vm_compute in Et].
  assert (Hi : tk_info t = pm_sample_peer ∧ tk_state t = TIdle ∧ tk_incoming t = [] ∧ tk_ended t = true).
  { vm_compute in Et. injection Et as <-. by vm_compute. }
  destruct Hi as (Hi & H1 & H2 & H3). rewrite <- Hi.
  exact (silent_disconnect (H := hash_order_lists) PeerManagerBuilder_new (sample_add :: sample_session) 0 t 5 ChRoom WSent [EvPoll false] Et H1 H2 H3).
Defined.

Definition sample_removal : list (pm_event (Message := Z)) :=
  [sample_add; EvTask 0 true 0 ChRoom WSent; EvPoll false; EvSend false false 1 (Ok (RemovePeer pm_sample_peer)); EvTask 0 true 1 ChRoom WSent;
   EvTask 0 true 2 ChRoom WSent].

Lemma removal_lost_witness : ∃ i, stuck (H := hash_order_lists) (key_of pm_sample_peer) i
  (pm_run (H := hash_order_lists) [EvPoll true; EvPoll false]
    (pm_run (H := hash_order_lists) sample_removal (PeerManager_from_builder PeerManagerBuilder_new)).1).1.
Proof.
  exact (removal_lost (H := hash_order_lists) PeerManagerBuilder_new sample_removal (Ok (PeerRemoved pm_sample_peer)) []
    (key_of pm_sample_peer) [EvPoll false] ltac:(by vm_compute) ltac:(by vm_compute)).
Defined.
