(* ===== verification/Contiguous.v ===== *)
(** packages/util/src/contiguous.rs: contiguous buffers.

    [ContiguousBuffer] is a class with its laws apart; [read] gives the slices
    passed to the closure.  Many buffers packed together obey the laws of one, as
    long as they are filled from the front. *)

From stdpp Require Import base numbers list.
From S2P Require Import Prelude.

(** * The trait *)

Class ContiguousBuffer (B I : Type) := {
  capacity : B → nat;
  buffer_length : B → nat;
  clear : B → B;
  buffer_write : list I → B → res Empty_set B;
  buffer_read : B → list (list I)
}.

(** * [Vec<T>]: its elements and the capacity it was allocated with *)

Record vec (I : Type) := { vec_items : list I; vec_capacity : nat }.
Arguments vec_items {I}.
Arguments vec_capacity {I}.

Definition vec_with_capacity {I} (n : nat) : vec I := {| vec_items := []; vec_capacity := n |}.

Definition vec_write {I} (data : list I) (self : vec I) : res Empty_set (vec I) :=
  let available_space := vec_capacity self - length (vec_items self) in
  if (available_space <? length data)%nat then Panic AssertFailed
  else Ok {| vec_items := vec_items self ++ data; vec_capacity := vec_capacity self |}.

Definition vec_read {I} (self : vec I) : list (list I) := if (0 <? length (vec_items self))%nat then [vec_items self] else [].

#[export] Instance vec_buffer {I} : ContiguousBuffer (vec I) I := {
  capacity := vec_capacity;
  buffer_length self := length (vec_items self);
  clear self := {| vec_items := []; vec_capacity := vec_capacity self |};
  buffer_write := vec_write;
  buffer_read := vec_read
}.

(** * [ContiguousBuffers<T>] *)

Record ContiguousBuffers (B : Type) := { buffers : list B }.
Arguments buffers {B}.

Definition ContiguousBuffers_new {B} : ContiguousBuffers B := {| buffers := [] |}.
Definition with_buffer {B} (buffer : B) : ContiguousBuffers B := {| buffers := [buffer] |}.
Definition pack {B} (buffer self : ContiguousBuffers B) : ContiguousBuffers B := {| buffers := buffers self ++ buffers buffer |}.
(** The arguments of the closure. *)
Definition unpack {B} (self : ContiguousBuffers B) : list (ContiguousBuffers B) := with_buffer <$> buffers self.

Section Buffers.
Context {B I : Type} `{!ContiguousBuffer B I}.

(** The loop: the buffers and how much was written. *)
Fixpoint write_loop (data : list I) (bytes_written : nat) (bs : list B) : res Empty_set (list B * nat) :=
  match bs with
  | [] => Ok ([], bytes_written)
  | buffer :: bs =>
      if Nat.eqb bytes_written (length data) then Ok (buffer :: bs, bytes_written) else
      let available_capacity := capacity buffer - buffer_length buffer in
      let amount_to_write := available_capacity `min` (length data - bytes_written) in
      buffer ← buffer_write (take amount_to_write (drop bytes_written data)) buffer;
      '(bs, bytes_written) ← write_loop data (bytes_written + amount_to_write) bs;
      Ok (buffer :: bs, bytes_written)
  end.

Definition buffers_write (data : list I) (self : ContiguousBuffers B) : res Empty_set (ContiguousBuffers B) :=
  '(bs, bytes_written) ← write_loop data 0 (buffers self);
  if Nat.eqb bytes_written (length data) then Ok {| buffers := bs |} else Panic AssertFailed.

Definition buffers_read (self : ContiguousBuffers B) : list (list I) := concat (buffer_read <$> buffers self).
End Buffers.

#[export] Instance buffers_buffer {B I} `{!ContiguousBuffer B I} : ContiguousBuffer (ContiguousBuffers B) I := {
  capacity self := sum_list (capacity <$> buffers self);
  buffer_length self := sum_list (buffer_length <$> buffers self);
  clear self := {| buffers := clear <$> buffers self |};
  buffer_write := buffers_write;
  buffer_read := buffers_read
}.

(** * The laws *)

Section Laws.
Context {B I : Type} `{!ContiguousBuffer B I}.

Definition contents (b : B) : list I := concat (buffer_read b).

(** [valid] buffers: reading gives slices that are not empty, of the length in
    all; writing appends what fits and panics otherwise. *)
Class LawfulBuffer (valid : B → Prop) := {
  law_length b : valid b → buffer_length b = length (contents b);
  law_bound b : valid b → buffer_length b ≤ capacity b;
  law_slices b : valid b → Forall (λ s, s ≠ []) (buffer_read b);
  law_clear b : valid b → valid (clear b) ∧ contents (clear b) = [] ∧ capacity (clear b) = capacity b;
  law_write b data : valid b → buffer_length b + length data ≤ capacity b →
    ∃ b', buffer_write data b = Ok b' ∧ valid b' ∧ contents b' = contents b ++ data ∧ capacity b' = capacity b;
  law_overflow b data : valid b → capacity b < buffer_length b + length data → buffer_write data b = Panic AssertFailed
}.
End Laws.

Definition vec_valid {I} (v : vec I) : Prop := length (vec_items v) ≤ vec_capacity v.

Lemma vec_contents {I} (v : vec I) : contents v = vec_items v.
Proof. unfold contents. cbn. unfold vec_read. destruct (vec_items v); [done|]. cbn. by rewrite app_nil_r. Qed.

#[export] Instance vec_lawful {I} : LawfulBuffer (I := I) vec_valid.
Proof.
  split; intros b; unfold vec_valid; rewrite ?vec_contents; cbn [capacity buffer_length clear buffer_write buffer_read vec_buffer]; try done.
  - intros _. unfold vec_read. destruct (vec_items b) eqn:E; [done|]. cbn. by apply Forall_singleton.
  - intros _. split; [cbn; lia|done].
  - intros data Hb Hc. unfold vec_write. destruct (Nat.ltb_spec (vec_capacity b - length (vec_items b)) (length data)); [lia|].
    eexists. split; [done|]. rewrite vec_contents. cbn. rewrite length_app. split; [lia|done].
  - intros data Hb Hc. unfold vec_write. by destruct (Nat.ltb_spec (vec_capacity b - length (vec_items b)) (length data)); [|lia].
Qed.

(** * Packed buffers *)

Section Packed.
Context {B I : Type} `{!ContiguousBuffer B I} (valid : B → Prop) `{!LawfulBuffer (I := I) valid}.

(** Filled from the front: after a buffer with room, the buffers are empty. *)
Fixpoint front_filled (bs : list B) : Prop :=
  match bs with
  | [] => True
  | b :: bs => (buffer_length b < capacity b → Forall (λ c, contents c = []) bs) ∧ front_filled bs
  end.

Definition packed (self : ContiguousBuffers B) : Prop := Forall valid (buffers self) ∧ front_filled (buffers self).

Lemma contents_packed (self : ContiguousBuffers B) : contents self = concat (contents <$> buffers self).
Proof.
  unfold contents. cbn. unfold buffers_read. induction (buffers self) as [|b bs IH]; [done|]. cbn. rewrite concat_app. by rewrite IH.
Qed.

Lemma empty_front_filled bs : Forall (λ c, contents c = []) bs → front_filled bs.
Proof. induction 1 as [|c bs Hc Hbs IH]; [done|]. by split. Qed.

Lemma empty_contents bs : Forall (λ c, contents c = []) bs → concat (contents <$> bs) = [].
Proof. induction 1 as [|c bs Hc Hbs IH]; [done|]. cbn. by rewrite Hc, IH. Qed.

Lemma sum_cons x l : sum_list (x :: l) = x + sum_list l.
Proof. done. Qed.

Lemma sum_lengths bs : Forall valid bs → sum_list (buffer_length <$> bs) = length (concat (contents <$> bs)).
Proof. induction 1 as [|b bs Hb Hbs IH]; [done|]. cbn. rewrite length_app, (law_length b Hb). by rewrite IH. Qed.

Lemma sum_bound bs : Forall valid bs → sum_list (buffer_length <$> bs) ≤ sum_list (capacity <$> bs).
Proof. induction 1 as [|b bs Hb Hbs IH]; [done|]. cbn. pose proof (law_bound b Hb). lia. Qed.

(** What one buffer takes of the rest of the data. *)
Lemma write_loop_spec data bs : Forall valid bs → ∀ n, n ≤ length data →
  ∃ bs', write_loop data n bs = Ok (bs', n + (sum_list (capacity <$> bs) - sum_list (buffer_length <$> bs)) `min` (length data - n)) ∧
    Forall valid bs' ∧ (capacity <$> bs') = (capacity <$> bs) ∧
    (front_filled bs → front_filled bs' ∧
      concat (contents <$> bs') = concat (contents <$> bs) ++
        take ((sum_list (capacity <$> bs) - sum_list (buffer_length <$> bs)) `min` (length data - n)) (drop n data)).
Proof.
  induction 1 as [|b bs Hb Hbs IH]; intros n Hn; cbn [write_loop fmap list_fmap].
  { exists []. cbn. split; [do 2 f_equal; lia|]. done. }
  rewrite !sum_cons. pose proof (law_bound b Hb) as Hbb. pose proof (sum_bound bs Hbs) as Hsb.
  destruct (Nat.eqb_spec n (length data)) as [->|Hne].
  { exists (b :: bs). replace (length data - length data) with 0 by lia. rewrite Nat.min_0_r. cbn. rewrite app_nil_r.
    split; [do 2 f_equal; lia|]. split; [by apply Forall_cons|]. done. }
  set (a := (capacity b - buffer_length b) `min` (length data - n)).
  assert (Hla : length (take a (drop n data)) = a) by (rewrite length_take, length_drop; lia).
  destruct (law_write b (take a (drop n data)) Hb) as (b' & Hw & Hb' & Hc' & Hcap); [lia|]. rewrite Hw, bind_Ok.
  destruct (IH (n + a)) as (bs' & Hl & Hv & Hcaps & Hf); [lia|]. rewrite Hl, bind_Ok. exists (b' :: bs').
  split; [do 2 f_equal; lia|]. split; [by apply Forall_cons|]. cbn [fmap list_fmap]. split; [by rewrite Hcap, Hcaps|].
  intros [Hroom Hff]. destruct (Hf Hff) as [Hff' Hcs]. cbn [concat]. rewrite Hc'. split.
  - split; [|done]. intros Hlt. assert (Hless : a = length data - n).
    { pose proof (law_length b' Hb') as Hl'. rewrite Hc', length_app, <- (law_length b Hb), Hla in Hl'. lia. }
    assert (Hempty : concat (contents <$> bs') = []).
    { rewrite Hcs, empty_contents; [|apply Hroom; lia]. replace (length data - (n + a)) with 0 by lia. by rewrite Nat.min_0_r. }
    clear -Hempty. induction bs' as [|c bs' IH]; [done|]. cbn in Hempty. apply app_eq_nil in Hempty as [? ?]. by apply Forall_cons; auto.
  - rewrite Hcs. destruct (decide (buffer_length b < capacity b)) as [Hlt|Hge].
    + rewrite (empty_contents bs) by (by apply Hroom). cbn [app]. rewrite app_nil_r, <- app_assoc. f_equal.
      rewrite <- drop_drop. replace (_ `min` (length data - n)) with
        (a + (sum_list (capacity <$> bs) - sum_list (buffer_length <$> bs)) `min` (length data - (n + a))) by lia.
      by rewrite take_take_drop.
    + replace a with 0 by lia. rewrite Nat.add_0_r. cbn [take]. rewrite app_nil_r, app_assoc. do 2 f_equal. lia.
Qed.

#[export] Instance packed_lawful : LawfulBuffer (I := I) packed.
Proof.
  split.
  - intros self [Hv _]. rewrite contents_packed. by apply sum_lengths.
  - intros self [Hv _]. by apply sum_bound.
  - intros self [Hv _]. cbn. unfold buffers_read. induction Hv as [|b bs Hb Hbs IH]; [constructor|]. cbn. apply Forall_app.
    split; [by apply law_slices|done].
  - intros self [Hv _]. assert (He : Forall (λ c, contents c = []) (clear <$> buffers self)).
    { apply Forall_fmap. eapply Forall_impl; [exact Hv|]. intros b Hb. by destruct (law_clear b Hb) as (_ & ? & _). }
    split; [split; cbn|split].
    + apply Forall_fmap. eapply Forall_impl; [exact Hv|]. intros b Hb. by destruct (law_clear b Hb).
    + by apply empty_front_filled.
    + rewrite contents_packed. by apply empty_contents.
    + cbn. f_equal. clear He. induction Hv as [|b bs Hb Hbs IH]; [done|]. cbn. destruct (law_clear b Hb) as (_ & _ & ->). by f_equal.
  - intros self data [Hv Hff] Hroom. cbn [capacity buffer_length buffer_write buffers_buffer] in *. unfold buffers_write. pose proof (sum_bound _ Hv).
    destruct (write_loop_spec data (buffers self) Hv 0) as (bs' & -> & Hv' & Hcap & Hf); [lia|]. rewrite bind_Ok.
    destruct (Hf Hff) as [Hff' Hc]. rewrite Nat.min_r in * by lia. rewrite Nat.sub_0_r, Nat.add_0_l in *. rewrite Nat.eqb_refl.
    eexists. split; [done|]. split; [done|]. rewrite !contents_packed. cbn [buffers capacity]. split; [|by rewrite Hcap].
    rewrite Hc. rewrite drop_0. by rewrite firstn_all.
  - intros self data [Hv Hff] Hover. cbn [capacity buffer_length buffer_write buffers_buffer] in *. unfold buffers_write. pose proof (sum_bound _ Hv).
    destruct (write_loop_spec data (buffers self) Hv 0) as (bs' & -> & _); [lia|]. rewrite bind_Ok.
    destruct (Nat.eqb_spec (0 + (sum_list (capacity <$> buffers self) - sum_list (buffer_length <$> buffers self)) `min` (length data - 0))
      (length data)); [lia|done].
Qed.
End Packed.

(** Buffers that are packed and filled from the front take data at the end as one
    buffer does: all of it if there is room, and a panic otherwise. *)
Theorem buffers_write_spec {B I : Type} `{!ContiguousBuffer B I} (valid : B → Prop) `{!LawfulBuffer (I := I) valid}
    (self : ContiguousBuffers B) (data : list I) : packed valid self →
  if decide (buffer_length (I := I) self + length data ≤ capacity (I := I) self) then
    ∃ self', buffer_write data self = Ok self' ∧ packed valid self' ∧ contents (I := I) self' = contents self ++ data ∧
      capacity (I := I) self' = capacity (I := I) self
  else buffer_write data self = Panic AssertFailed.
Proof.
  intros Hp. destruct (decide _).
  - apply (law_write (LawfulBuffer := packed_lawful valid)); done.
  - apply (law_overflow (LawfulBuffer := packed_lawful valid)); [done|lia].
Qed.

Definition sample_buffers : ContiguousBuffers (vec nat) :=
  pack (with_buffer (vec_with_capacity 5)) (pack (with_buffer (vec_with_capacity 1)) ContiguousBuffers_new).

Lemma buffers_write_spec_witness : packed vec_valid sample_buffers ∧
  ∃ self', buffer_write [1; 2; 3] sample_buffers = Ok self' ∧ packed vec_valid self' ∧ contents (I := nat) self' = [1; 2; 3] ∧
    capacity (I := nat) self' = 6.
Proof.
  assert (Hp : packed vec_valid sample_buffers).
  { split; [repeat constructor; unfold vec_valid; cbn; lia|]. repeat (split; [intros _; repeat constructor|]). done. }
  split; [exact Hp|]. exact (buffers_write_spec vec_valid sample_buffers [1; 2; 3] Hp).
Defined.

(** Data written to buffers that are not filled from the front is not at the end. *)
Example write_before_the_end :
  let self := pack (with_buffer {| vec_items := [7]; vec_capacity := 2 |}) (with_buffer (vec_with_capacity 1)) in
  ∃ self', buffer_write [1] self = Ok self' ∧ contents (I := nat) self = [7] ∧ contents (I := nat) self' = [1; 7].
Proof. eexists. split; [reflexivity|]. by split. Qed.
