(* ===== verification/Handshaker.v ===== *)
(** packages/handshake/src/handshake (mod.rs, builder.rs, config.rs, sink.rs,
    stream.rs) and transport.rs: the handshaker joins the initiator, the listener
    and the handshakes by channels.

    Each of the three loops of the handlers is a step: it takes an item and gives
    its result to the next channel, or ends with the first error; a step runs when
    the channel has room.  What the transport and the sockets do is an argument. *)

From stdpp Require Import base numbers list.
From S2P Require Import Prelude RustStd Extern Convert Sha Handshake Framed Handler.

(** * Configuration (handshake/config.rs); a duration is a number of milliseconds *)

Definition DEFAULT_HANDSHAKE_BUFFER_SIZE : nat := 1000.
Definition DEFAULT_WAIT_BUFFER_SIZE : nat := 10.
Definition DEFAULT_DONE_BUFFER_SIZE : nat := 10.
Definition DEFAULT_HANDSHAKE_TIMEOUT_MILLIS : Z := 1000.
Definition DEFAULT_HANDSHAKE_CONNECT_TIMEOUT_MILLIS : Z := 1000.

Record HandshakerConfig := {
  sink_buffer_size : nat;
  wait_buffer_size : nat;
  done_buffer_size : nat;
  handshake_timeout : Z;
  connect_timeout : Z
}.

Definition HandshakerConfig_default : HandshakerConfig :=
  {| sink_buffer_size := DEFAULT_HANDSHAKE_BUFFER_SIZE; wait_buffer_size := DEFAULT_WAIT_BUFFER_SIZE;
     done_buffer_size := DEFAULT_DONE_BUFFER_SIZE; handshake_timeout := DEFAULT_HANDSHAKE_TIMEOUT_MILLIS;
     connect_timeout := DEFAULT_HANDSHAKE_CONNECT_TIMEOUT_MILLIS |}.
Definition with_sink_buffer_size (size : nat) (self : HandshakerConfig) : HandshakerConfig :=
  let '(Build_HandshakerConfig _ w d h c) := self in Build_HandshakerConfig size w d h c.
Definition with_wait_buffer_size (size : nat) (self : HandshakerConfig) : HandshakerConfig :=
  let '(Build_HandshakerConfig s _ d h c) := self in Build_HandshakerConfig s size d h c.
Definition with_done_buffer_size (size : nat) (self : HandshakerConfig) : HandshakerConfig :=
  let '(Build_HandshakerConfig s w _ h c) := self in Build_HandshakerConfig s w size h c.
Definition with_handshake_timeout (timeout : Z) (self : HandshakerConfig) : HandshakerConfig :=
  let '(Build_HandshakerConfig s w d _ c) := self in Build_HandshakerConfig s w d timeout c.
Definition with_connect_timeout (timeout : Z) (self : HandshakerConfig) : HandshakerConfig :=
  let '(Build_HandshakerConfig s w d h _) := self in Build_HandshakerConfig s w d h timeout.

(** * The builder (handshake/builder.rs) *)

Record HandshakerBuilder := {
  hb_bind : SocketAddr;
  hb_port : Z;
  hb_pid : ShaHash;
  hb_ext : Extensions;
  hb_config : HandshakerConfig
}.

(** The seed is drawn at random. *)
Definition HandshakerBuilder_default `{Sha1} (seed : Z) : HandshakerBuilder :=
  {| hb_bind := default_route_v4; hb_port := 0; hb_pid := ShaHash_from_bytes (four_bytes_to_array seed); hb_ext := Extensions_new;
     hb_config := HandshakerConfig_default |}.
Definition with_bind_addr (addr : SocketAddr) (self : HandshakerBuilder) : HandshakerBuilder :=
  let '(Build_HandshakerBuilder _ o p e c) := self in Build_HandshakerBuilder addr o p e c.
Definition with_open_port (port : Z) (self : HandshakerBuilder) : HandshakerBuilder :=
  let '(Build_HandshakerBuilder b _ p e c) := self in Build_HandshakerBuilder b port p e c.
Definition with_peer_id (peer_id : ShaHash) (self : HandshakerBuilder) : HandshakerBuilder :=
  let '(Build_HandshakerBuilder b o _ e c) := self in Build_HandshakerBuilder b o peer_id e c.
Definition with_extensions (e : Extensions) (self : HandshakerBuilder) : HandshakerBuilder :=
  let '(Build_HandshakerBuilder b o p _ c) := self in Build_HandshakerBuilder b o p e c.
Definition with_config (config : HandshakerConfig) (self : HandshakerBuilder) : HandshakerBuilder :=
  let '(Build_HandshakerBuilder b o p e _) := self in Build_HandshakerBuilder b o p e config.

(** * TCP (transport.rs)

    [tokio::time::timeout] around a connection or a bind; [None] is the error of
    the time-out. *)

Definition tcp_timed {A} (outcome : Timed (IoError + A)) : res (option IoError) A :=
  match outcome with TimedOut => Err None | Done (inl e) => Err (Some e) | Done (inr a) => Ok a end.

Definition tcp_connect {S} (outcome : Timed (IoError + S)) : res (option IoError) S := tcp_timed outcome.
Definition tcp_listen {L} (outcome : Timed (IoError + L)) : res (option IoError) L := tcp_timed outcome.

Definition TcpListenerStream_poll_next {S} (accepted : poll (IoError + S * SocketAddr)) : poll (option (IoError + S * SocketAddr)) :=
  match accepted with RustStd.Ready a => RustStd.Ready (Some a) | RustStd.Pending => RustStd.Pending end.

(** * The handshaker (handshake/mod.rs, sink.rs, stream.rs) *)

Section Handshaker.
Context `{HandshakeFilter F} `{!EqDecision F}.

Record Handshaker := {
  hs_ext : Extensions;
  hs_pid : ShaHash;
  hs_port : Z;
  hs_timeout : Z;
  hs_filters : list F;
  hs_addr : list InitiateMessage;
  hs_hand : list (IoError + HandshakeType);
  hs_sock : list CompleteMessage;
  hs_initiator : bool;
  hs_listener : bool;
  hs_handshaker : bool
}.

(** [listen] gives the address the listener is bound to, as [local_addr] reads it. *)
Definition Handshaker_with_builder (builder : HandshakerBuilder) (listen : res (option IoError) (res IoError SocketAddr))
    : res (option IoError) Handshaker :=
  let config := hb_config builder in
  let timeout := Z.max (handshake_timeout config) (connect_timeout config) in
  local_addr ← listen;
  open_port ← (if (hb_port builder =? 0)%Z then
                 match local_addr with Ok a => Ok (sock_port a) | Err e => Err (Some e) | Panic f => Panic f end
               else Ok (hb_port builder));
  Ok {| hs_ext := hb_ext builder; hs_pid := hb_pid builder; hs_port := open_port; hs_timeout := timeout; hs_filters := []; hs_addr := [];
        hs_hand := []; hs_sock := []; hs_initiator := true; hs_listener := true; hs_handshaker := true |}.

Definition hs_set_filters (filters : list F) (self : Handshaker) : Handshaker :=
  let '(Build_Handshaker e i p t _ a h s x y z) := self in Build_Handshaker e i p t filters a h s x y z.
Definition hs_set_queues (a : list InitiateMessage) (h : list (IoError + HandshakeType)) (s : list CompleteMessage) (self : Handshaker) : Handshaker :=
  let '(Build_Handshaker e i p t f _ _ _ x y z) := self in Build_Handshaker e i p t f a h s x y z.
Definition hs_set_loops (x y z : bool) (self : Handshaker) : Handshaker :=
  let '(Build_Handshaker e i p t f a h s _ _ _) := self in Build_Handshaker e i p t f a h s x y z.

(** [HandshakerSink]: a send fails when the loop at the other end is gone. *)
Definition hs_start_send (item : InitiateMessage) (self : Handshaker) : Handshaker * bool :=
  if hs_initiator self then (hs_set_queues (hs_addr self ++ [item]) (hs_hand self) (hs_sock self) self, true) else (self, false).
Definition hs_add_filter (filter : F) (self : Handshaker) : Handshaker := hs_set_filters (add_filter (hs_filters self) filter) self.
Definition hs_remove_filter (filter : F) (self : Handshaker) : Handshaker := hs_set_filters (remove_filter (hs_filters self) filter) self.
Definition hs_clear_filters (self : Handshaker) : Handshaker := hs_set_filters (clear_filters (hs_filters self)) self.

(** [sink.send(Ok(result))] of the first two loops: lost when the last is gone. *)
Definition forward (self : Handshaker) (r : HandshakeType) : list (IoError + HandshakeType) :=
  if hs_handshaker self then hs_hand self ++ [inr r] else hs_hand self.

Definition initiator_step (connected : res HandshakeError unit) (self : Handshaker) : Handshaker :=
  match hs_initiator self, hs_addr self with
  | true, item :: rest =>
      match initiator_handler item (hs_filters self) connected with
      | Ok (Some r) => hs_set_queues rest (forward self r) (hs_sock self) self
      | Ok None => hs_set_queues rest (hs_hand self) (hs_sock self) self
      | _ => hs_set_queues [] (hs_hand self) (hs_sock self) (hs_set_loops false (hs_listener self) (hs_handshaker self) self)
      end
  | _, _ => self
  end.

Definition listener_step (item : IoError + SocketAddr) (self : Handshaker) : Handshaker :=
  if hs_listener self then
    match (ListenerHandler_poll (ListenerHandler_new item (hs_filters self))).2 with
    | Ok (Some r) => hs_set_queues (hs_addr self) (forward self r) (hs_sock self) self
    | Ok None => self
    | _ => hs_set_loops (hs_initiator self) false (hs_handshaker self) self
    end
  else self.

Definition handshaker_step (send : Timed (option IoError)) (recv : Timed (option (IoError + HandshakeMessage))) (self : Handshaker) : Handshaker :=
  match hs_handshaker self, hs_hand self with
  | true, item :: rest =>
      match execute_handshake item (hs_ext self) (hs_pid self) (hs_filters self) send recv with
      | Ok (Some c) => hs_set_queues (hs_addr self) rest (hs_sock self ++ [c]) self
      | Ok None => hs_set_queues (hs_addr self) rest (hs_sock self) self
      | _ => hs_set_queues (hs_addr self) [] (hs_sock self) (hs_set_loops (hs_initiator self) (hs_listener self) false self)
      end
  | _, _ => self
  end.

(** [HandshakerStream]: the stream ends with the loop that feeds it. *)
Definition hs_poll_next (self : Handshaker) : Handshaker * poll (option CompleteMessage) :=
  match hs_sock self with
  | c :: rest => (hs_set_queues (hs_addr self) (hs_hand self) rest self, RustStd.Ready (Some c))
  | [] => (self, if hs_handshaker self then RustStd.Pending else RustStd.Ready None)
  end.

(** * Runs *)

Inductive hs_event :=
  | HsSend (item : InitiateMessage)
  | HsAddFilter (f : F) | HsRemoveFilter (f : F) | HsClearFilters
  | HsInitiate (connected : res HandshakeError unit)
  | HsAccept (item : IoError + SocketAddr)
  | HsExecute (send : Timed (option IoError)) (recv : Timed (option (IoError + HandshakeMessage)))
  | HsPoll.

Definition hs_step (e : hs_event) (s : Handshaker) : Handshaker * option CompleteMessage :=
  match e with
  | HsSend item => ((hs_start_send item s).1, None)
  | HsAddFilter f => (hs_add_filter f s, None)
  | HsRemoveFilter f => (hs_remove_filter f s, None)
  | HsClearFilters => (hs_clear_filters s, None)
  | HsInitiate connected => (initiator_step connected s, None)
  | HsAccept item => (listener_step item s, None)
  | HsExecute send recv => (handshaker_step send recv s, None)
  | HsPoll => match hs_poll_next s with (s, RustStd.Ready (Some c)) => (s, Some c) | (s, _) => (s, None) end
  end.

Fixpoint hs_run (es : list hs_event) (s : Handshaker) : Handshaker * list CompleteMessage :=
  match es with
  | [] => (s, [])
  | e :: es => let '(s, o) := hs_step e s in let '(s, os) := hs_run es s in (s, option_list o ++ os)
  end.
End Handshaker.
Arguments Handshaker F : clear implicits.
Arguments hs_event F : clear implicits.
