(* ===== verification/HandshakerProps.v ===== *)
(** The handshaker: what it completes answers a request or an accepted connection
    and a message of the peer; and one failed connection, or one peer with a wrong
    answer, ends the loop that met it for good. *)

From stdpp Require Import base numbers list.
From S2P Require Import Prelude RustStd Extern Convert Sha Handshake Framed Handler Handshaker.

Section Props.
Context `{HandshakeFilter F} `{!EqDecision F}.

Implicit Types s : Handshaker F.

(** * Where a completed handshake comes from *)

Definition started_by (es : list (hs_event F)) (t : HandshakeType) : Prop :=
  match t with Initiate m => HsSend m ∈ es | Complete a => HsAccept (inr a) ∈ es end.

Definition answers (t : HandshakeType) (c : CompleteMessage) : Prop :=
  match t with
  | Initiate m => cm_hash c = im_hash m ∧ cm_prot c = im_prot m ∧ cm_addr c = im_addr m
  | Complete a => cm_addr c = a
  end.

(** The message of the peer, with the extensions of both sides. *)
Definition message_of (e : Extensions) (msg : HandshakeMessage) (c : CompleteMessage) : Prop :=
  let '(remote_prot, remote_ext, remote_hash, remote_pid) := into_parts msg in
  cm_prot c = remote_prot ∧ cm_hash c = remote_hash ∧ cm_pid c = remote_pid ∧ cm_ext c = Extensions_union e remote_ext.

Definition complete_ok (e : Extensions) (es : list (hs_event F)) (c : CompleteMessage) : Prop :=
  (∃ t, started_by es t ∧ answers t c) ∧ ∃ send msg, HsExecute send (Done (Some (inr msg))) ∈ es ∧ message_of e msg c.

Lemma execute_handshake_ok t e i (filters : list F) send recv c :
  execute_handshake (inr t) e i filters send recv = Ok (Some c) →
  answers t c ∧ ∃ msg, recv = Done (Some (inr msg)) ∧ message_of e msg c.
Proof.
  destruct t as [m|a]; cbn [execute_handshake].
  - unfold initiate_handshake. destruct (from_parts _ _ _ _); [|done|done]. rewrite bind_Ok. destruct send; [done|].
    destruct recv as [|[[|msg]|]]; try done. unfold message_of. destruct (into_parts msg) as [[[rp re] rh] ri] eqn:Em.
    case_bool_decide as Hh; [done|]. case_bool_decide as Hp; [done|]. destruct (should_filter _ _ _ _ _ _); [done|]. intros [= <-].
    split; [done|]. exists msg. rewrite Em. by subst.
  - unfold complete_handshake. destruct recv as [|[[|msg]|]]; try done. unfold message_of.
    destruct (into_parts msg) as [[[rp re] rh] ri] eqn:Em. destruct (should_filter _ _ _ _ _ _); [done|].
    destruct (from_parts _ _ _ _); [|done|done]. rewrite bind_Ok. destruct send; [done|]. intros [= <-]. split; [done|]. exists msg. by rewrite Em.
Qed.

Record hs_inv (e : Extensions) (es : list (hs_event F)) s : Prop := {
  hsi_ext : hs_ext s = e;
  hsi_addr : Forall (λ m, HsSend m ∈ es) (hs_addr s);
  hsi_hand : Forall (λ r, ∃ t, r = inr t ∧ started_by es t) (hs_hand s);
  hsi_sock : Forall (complete_ok e es) (hs_sock s)
}.

Lemma set_queues_inv e es a h k s : hs_inv e es s → Forall (λ m, HsSend m ∈ es) a → Forall (λ r, ∃ t, r = inr t ∧ started_by es t) h →
  Forall (complete_ok e es) k → hs_inv e es (hs_set_queues a h k s).
Proof. intros [H1 _ _ _] Ha Hh Hk. by destruct s; split. Qed.

Lemma set_loops_inv e es x y z s : hs_inv e es s → hs_inv e es (hs_set_loops x y z s).
Proof. intros [H1 H2 H3 H4]. by destruct s; split. Qed.

Lemma set_filters_inv e es f s : hs_inv e es s → hs_inv e es (hs_set_filters f s).
Proof. intros [H1 H2 H3 H4]. by destruct s; split. Qed.

Lemma forward_inv e es t s : hs_inv e es s → started_by es t → Forall (λ r, ∃ t, r = inr t ∧ started_by es t) (forward s t).
Proof.
  intros Hs Ht. unfold forward. destruct (hs_handshaker s); [|apply Hs]. apply Forall_app. split; [apply Hs|]. apply Forall_singleton. by exists t.
Qed.

(** [es] holds all the events, of which [ev] is one. *)
Lemma hs_step_inv e es ev s : ev ∈ es → hs_inv e es s →
  hs_inv e es (hs_step ev s).1 ∧ ∀ c, (hs_step ev s).2 = Some c → complete_ok e es c.
Proof.
  intros Hev Hs. assert (Hs' := Hs). destruct Hs' as [H1 H2 H3 H4].
  destruct ev as [item|f|f| |connected|item|send recv|]; cbn [hs_step].
  - split; [|done]. unfold hs_start_send. destruct (hs_initiator s); [|done]. apply set_queues_inv; [done| |done|done].
    apply Forall_app. split; [done|]. by apply Forall_singleton.
  - split; [by apply set_filters_inv|done].
  - split; [by apply set_filters_inv|done].
  - split; [by apply set_filters_inv|done].
  - split; [|done]. unfold initiator_step. destruct (hs_initiator s); [|done]. destruct (hs_addr s) as [|item rest] eqn:Ea; [done|].
    apply Forall_cons in H2 as [Hi Hr]. unfold initiator_handler. destruct (should_filter _ _ _ _ _ _); cbn.
    + by apply set_queues_inv.
    + destruct connected; cbn; [|by apply set_queues_inv; [apply set_loops_inv|..]..]. apply set_queues_inv; try done. by eapply forward_inv.
  - split; [|done]. unfold listener_step. destruct (hs_listener s); [|done]. cbn [ListenerHandler_poll snd]. unfold ListenerHandler_new.
    destruct item as [er|a]; [by apply set_loops_inv|]. destruct (should_filter _ _ _ _ _ _); [done|].
    apply set_queues_inv; try done. by eapply forward_inv.
  - split; [|done]. unfold handshaker_step. destruct (hs_handshaker s); [|done]. destruct (hs_hand s) as [|item rest] eqn:Eh; [done|].
    apply Forall_cons in H3 as [(t & -> & Ht) Hr]. destruct (execute_handshake _ _ _ _ _ _) as [[c|]|er|fa] eqn:Ex;
      [|by apply set_queues_inv|by apply set_queues_inv; [apply set_loops_inv|..]..].
    apply set_queues_inv; [done..|]. apply Forall_app. split; [done|]. apply Forall_singleton.
    apply execute_handshake_ok in Ex as (Ha & msg & -> & Hm). rewrite H1 in Hm. split; [by exists t|by exists send, msg].
  - unfold hs_poll_next. destruct (hs_sock s) as [|c rest] eqn:Es; [by destruct (hs_handshaker s)|].
    apply Forall_cons in H4 as [Hc Hr]. split; [by apply set_queues_inv|]. by intros ? [= <-].
Qed.

Lemma hs_run_inv e all es : ∀ s, (∀ ev, ev ∈ es → ev ∈ all) → hs_inv e all s →
  hs_inv e all (hs_run es s).1 ∧ Forall (complete_ok e all) (hs_run es s).2.
Proof.
  induction es as [|ev es IH]; intros s Hall Hs; [done|]. cbn [hs_run].
  destruct (hs_step_inv e all ev s) as [Hs1 Ho]; [apply Hall; by left|done|]. destruct (hs_step ev s) as [s1 o]. cbn [fst snd] in *.
  destruct (IH s1) as [Hs2 Hos]; [intros x Hx; apply Hall; by right|done|]. destruct (hs_run es s1). cbn [fst snd] in *. split; [done|].
  apply Forall_app. split; [|done]. destruct o; [|done]. apply Forall_singleton. by apply Ho.
Qed.

(** Claim C25. Every handshake that is completed answers a request that was sent, with its
    hash, protocol and address, or a connection that was accepted; and its fields are
    those of a message received from the peer. *)
Theorem handshakes_sound builder listen s es c :
  Handshaker_with_builder builder listen = Ok s → c ∈ (hs_run es s).2 → complete_ok (hb_ext builder) es c.
Proof.
  intros Hb Hc. assert (Hs : hs_inv (hb_ext builder) es s).
  { unfold Handshaker_with_builder in Hb. bind_inv Hb as a eqn Ea. bind_inv Hb as p eqn Ep. injection Hb as <-. by split; constructor. }
  destruct (hs_run_inv _ es es s ltac:(done) Hs) as [_ Ho]. exact (proj1 (Forall_forall _ _) Ho c Hc).
Qed.

(** * Loops that have ended *)

Lemma loops_stay ev s :
  (hs_initiator s = false → hs_initiator (hs_step ev s).1 = false) ∧
  (hs_handshaker s = false → hs_handshaker (hs_step ev s).1 = false ∧ option_list (hs_step ev s).2 ++ hs_sock (hs_step ev s).1 = hs_sock s).
Proof.
  destruct s as [e i p t f a h k x y z]. cbn [hs_initiator hs_handshaker hs_sock]. split; intros ->.
  - destruct ev as [item|g|g| |connected|item|send recv|]; cbn; try done.
    + unfold listener_step. cbn. destruct y; [|done]. destruct (ListenerHandler_new _ _) as [[?|]|?|?]; done.
    + unfold handshaker_step. cbn. destruct z, h; try done. by destruct (execute_handshake _ _ _ _ _ _) as [[?|]|?|?].
    + by destruct k, z.
  - destruct ev as [item|g|g| |connected|item|send recv|]; cbn; try done.
    + by destruct x.
    + unfold initiator_step. cbn. destruct x, a; try done. by destruct (initiator_handler _ _ _) as [[?|]|?|?].
    + unfold listener_step. cbn. destruct y; [|done]. by destruct (ListenerHandler_new _ _) as [[?|]|?|?].
    + by destruct k.
Qed.

Lemma ended_run es : ∀ s, hs_handshaker s = false → (hs_run es s).2 `prefix_of` hs_sock s.
Proof.
  induction es as [|ev es IH]; intros s Hs; cbn [hs_run]; [apply prefix_nil|].
  destruct (proj2 (loops_stay ev s) Hs) as [H1 H2]. destruct (hs_step ev s) as [s1 o]. cbn [fst snd] in *. specialize (IH s1 H1).
  destruct (hs_run es s1) as [s2 os]. cbn [snd] in *. rewrite <- H2. by apply prefix_app.
Qed.

Lemma initiator_ended_run es : ∀ s, hs_initiator s = false → hs_initiator (hs_run es s).1 = false.
Proof.
  induction es as [|ev es IH]; intros s Hs; cbn [hs_run]; [done|]. pose proof (proj1 (loops_stay ev s) Hs) as H1.
  destruct (hs_step ev s) as [s1 o]. specialize (IH s1 H1). by destruct (hs_run es s1).
Qed.

(** A peer we connected to that answers with another info hash ends the loop of
    the handshakes: whatever happens next, only what was completed before is given. *)
Theorem bad_answer_stops_handshakes s m rest send msg es :
  hs_hand s = inr (Initiate m) :: rest → info_hash msg ≠ im_hash m →
  (hs_run (HsExecute (Done send) (Done (Some (inr msg))) :: es) s).2 `prefix_of` hs_sock s.
Proof.
  intros Hh Hne. cbn [hs_run hs_step]. unfold handshaker_step. rewrite Hh. destruct (hs_handshaker s) eqn:Ez.
  - assert (Hx : ∀ c, execute_handshake (inr (Initiate m)) (hs_ext s) (hs_pid s) (hs_filters s) (Done send) (Done (Some (inr msg))) ≠ Ok c).
    { intros c. cbn. unfold initiate_handshake. destruct (from_parts _ _ _ _); [|done|done]. rewrite bind_Ok. destruct msg as [mp me mh mi]. cbn in *.
      by rewrite bool_decide_eq_true_2. }
    destruct (execute_handshake _ _ _ _ _ _) as [c|er|fa]; [by destruct (Hx c)|..];
      (pose proof (ended_run es (hs_set_queues (hs_addr s) [] (hs_sock s) (hs_set_loops (hs_initiator s) (hs_listener s) false s))) as He;
       destruct (hs_run es _) as [s2 os]; destruct s; by apply He).
  - pose proof (ended_run es s Ez) as He. by destruct (hs_run es s).
Qed.

(** A connection that fails ends the loop of the initiator: every later request is
    refused by the sink. *)
Theorem failed_connection_stops_initiating s item rest er es m :
  hs_addr s = item :: rest → should_filter (Some (im_addr item)) (Some (im_prot item)) None (Some (im_hash item)) None (hs_filters s) = false →
  (hs_start_send m (hs_run (HsInitiate (Err er) :: es) s).1).2 = false.
Proof.
  intros Ha Hf. cbn [hs_run hs_step]. assert (Hi : hs_initiator (initiator_step (Err er) s) = false).
  { unfold initiator_step. rewrite Ha. destruct (hs_initiator s) eqn:Ex; [|done]. unfold initiator_handler. rewrite Hf. by destruct s. }
  pose proof (initiator_ended_run es _ Hi) as He. destruct (hs_run es _) as [s2 os]. cbn [fst] in *. unfold hs_start_send. by rewrite He.
Qed.
End Props.

(** * A handshake that is completed and one that is not *)

Definition ex_request (h : ShaHash) : InitiateMessage := {| im_prot := BitTorrent; im_hash := h; im_addr := ex_peer_addr |}.
Definition ex_handshaker : res (option IoError) (Handshaker unit) :=
  Handshaker_with_builder (HandshakerBuilder_default (H := toy_sha1) 1) (tcp_listen (Done (inr (Ok default_route_v4)))).
Definition ex_answered : list (hs_event unit) :=
  [HsSend (ex_request (info_hash ex_message)); HsInitiate (Ok tt); HsExecute (Done None) (Done (Some (inr ex_message))); HsPoll].

Lemma handshakes_sound_witness : ∃ s c, ex_handshaker = Ok s ∧ (hs_run ex_answered s).2 = [c] ∧
  complete_ok (hb_ext (HandshakerBuilder_default (H := toy_sha1) 1)) ex_answered c.
Proof.
  destruct ex_handshaker as [s|e|f] eqn:Es; [|by vm_compute in Es..].
  destruct ((hs_run ex_answered s).2) as [|c [|d l]] eqn:Ec; vm_compute in Es; injection Es as Es; subst s; vm_compute in Ec; try discriminate Ec.
  injection Ec as Ec. subst c. eexists _, _. split; [reflexivity|]. split; [vm_compute; reflexivity|].
  apply (handshakes_sound (HandshakerBuilder_default (H := toy_sha1) 1) (tcp_listen (Done (inr (Ok default_route_v4)))) _ ex_answered _ eq_refl).
  vm_compute. left.
Defined.

Definition ex_waiting : Handshaker unit :=
  {| hs_ext := Extensions_new; hs_pid := {| hash := replicate 20 3%Z |}; hs_port := 6881; hs_timeout := 1000; hs_filters := [];
     hs_addr := [ex_request {| hash := replicate 20 9%Z |}]; hs_hand := [inr (Initiate (ex_request {| hash := replicate 20 9%Z |})); inr (Complete ex_peer_addr)];
     hs_sock := []; hs_initiator := true; hs_listener := true; hs_handshaker := true |}.

Lemma bad_answer_stops_handshakes_witness :
  (hs_run [HsExecute (Done None) (Done (Some (inr ex_message))); HsExecute (Done None) (Done (Some (inr ex_message))); HsPoll] ex_waiting).2 = [].
Proof.
  apply prefix_nil_inv. apply (bad_answer_stops_handshakes ex_waiting (ex_request {| hash := replicate 20 9%Z |})
    [inr (Complete ex_peer_addr)] None ex_message [HsExecute (Done None) (Done (Some (inr ex_message))); HsPoll]); [reflexivity|].
  vm_compute. discriminate.
Defined.

Lemma failed_connection_stops_initiating_witness :
  (hs_start_send (ex_request {| hash := replicate 20 1%Z |}) (hs_run [HsInitiate (Err ItemError); HsClearFilters] ex_waiting).1).2 = false.
Proof.
  apply (failed_connection_stops_initiating ex_waiting (ex_request {| hash := replicate 20 9%Z |}) [] ItemError [HsClearFilters]); vm_compute; reflexivity.
Defined.
