(* ===== verification/DhtNode.v ===== *)
(** packages/dht: the builder and the client's handle (builder.rs), starting a
    node (worker/mod.rs), the event loop (worker/handler.rs) and the messengers
    between the socket and the channels (worker/messenger.rs).

    What the socket does is an argument: for a send, how many bytes it took or
    none for an error; for a receive, the datagram or an error. *)

From stdpp Require Import base numbers strings gmap list.
From S2P Require Import Prelude RustStd Extern Convert Sha Node RoutingTable Token Storage Transaction Bencode DhtMessage Worker Lookup Bootstrap DhtHandler.

(** * The builder (builder.rs); a [HashSet] is a map to the unit type *)

#[export] Instance Router_eq_dec : EqDecision Router.
Proof. solve_decision. Defined.
#[export] Instance Router_countable : Countable Router.
Proof.
  refine (inj_countable'
    (λ r, match r with uTorrent => inl 0 | BitTorrent => inl 1 | BitComet => inl 2 | Transmission => inl 3 | CustomRouter a => inr a end)
    (λ x, match x with inl 0 => uTorrent | inl 1 => BitTorrent | inl 2 => BitComet | inl _ => Transmission | inr a => CustomRouter a end) _).
  by intros [].
Defined.

Record DhtBuilder := {
  db_nodes : gmap SocketAddr ();
  db_routers : gmap Router ();
  db_read_only : bool;
  db_src_addr : SocketAddr;
  db_ext_addr : option SocketAddr
}.

Definition DhtBuilder_new : DhtBuilder :=
  {| db_nodes := ∅; db_routers := ∅; db_read_only := true; db_src_addr := default_route_v4; db_ext_addr := None |}.
Definition db_add_node (node_addr : SocketAddr) (self : DhtBuilder) : DhtBuilder :=
  let '(Build_DhtBuilder n r o s e) := self in Build_DhtBuilder (<[node_addr := tt]> n) r o s e.
Definition db_add_router (router : Router) (self : DhtBuilder) : DhtBuilder :=
  let '(Build_DhtBuilder n r o s e) := self in Build_DhtBuilder n (<[router := tt]> r) o s e.
Definition db_with_node (node_addr : SocketAddr) : DhtBuilder := db_add_node node_addr DhtBuilder_new.
Definition db_with_router (router : Router) : DhtBuilder := db_add_router router DhtBuilder_new.
Definition set_read_only (ro : bool) (self : DhtBuilder) : DhtBuilder :=
  let '(Build_DhtBuilder n r _ s e) := self in Build_DhtBuilder n r ro s e.
Definition set_external_addr (addr : SocketAddr) (self : DhtBuilder) : DhtBuilder :=
  let '(Build_DhtBuilder n r o s _) := self in Build_DhtBuilder n r o s (Some addr).
Definition set_source_addr (addr : SocketAddr) (self : DhtBuilder) : DhtBuilder :=
  let '(Build_DhtBuilder n r o _ e) := self in Build_DhtBuilder n r o addr e.

(** * Messengers (worker/messenger.rs) *)

Definition INCOMING_BUFFER_SIZE : nat := 1500.

(** [send_bytes]: the datagrams that leave, and the outcomes that are left. *)
Fixpoint send_bytes (outcomes : list (option nat)) (message : bytes) (bytes_sent : nat) : list bytes * list (option nat) :=
  if Nat.eqb bytes_sent (length message) then ([], outcomes) else
  match outcomes with
  | [] => ([], [])
  | Some num_sent :: outcomes =>
      let '(ds, rest) := send_bytes outcomes message (bytes_sent + num_sent) in
      (take num_sent (drop bytes_sent message) :: ds, rest)
  | None :: outcomes => ([], outcomes)
  end.

(** [create_outgoing_messenger]: the loop over the channel. *)
Fixpoint outgoing_messenger (outcomes : list (option nat)) (messages : list (bytes * SocketAddr)) : list (bytes * SocketAddr) :=
  match messages with
  | [] => []
  | (message, addr) :: messages =>
      let '(ds, rest) := send_bytes outcomes message 0 in ((λ d, (d, addr)) <$> ds) ++ outgoing_messenger rest messages
  end.

(** [create_incoming_messenger]: a datagram is cut at the size of the buffer. *)
Fixpoint incoming_messenger (received : list (option (bytes * SocketAddr))) (send : Chan OneshotTask) : Chan OneshotTask :=
  match received with
  | [] => send
  | Some (datagram, addr) :: received =>
      let '(send, ok) := chan_send send (Incoming (take INCOMING_BUFFER_SIZE datagram) addr) in
      if ok : bool then incoming_messenger received send else send
  | None :: received => incoming_messenger received send
  end.

(** * Starting a node (worker/mod.rs, builder.rs) *)

Section Node.
Context `{Sha1} `{Chrono} `{HashOrder} (now instant : Z) (draws : nat → nat → nat) (secrets : nat → Z * Z)
  (to_socket_addrs : bytes * Z → option (list SocketAddr)).

(** The handler and the tasks that wait for it. *)
Record DhtNode := { n_handler : DhtHandler; n_tasks : list OneshotTask; n_scheduled : list ScheduledTaskCheck }.

(** The external address is not used. *)
Definition start_mainline_dht (ro : bool) (ext_addr : option SocketAddr) (random : bytes) (handshaker_port : Z) : res False DhtHandler :=
  DhtHandler_new now draws secrets (RoutingTable_new (random_node_id random)) {| sent := []; room := None |} {| sent := []; room := None |} ro
    handshaker_port.

(** [bound]: whether the socket could be bound and has an address. *)
Definition MainlineDht_with_builder (builder : DhtBuilder) (bound : bool) (random : bytes) (handshaker_port : Z) : res False (option DhtNode) :=
  if negb bound then Ok None else
  h ← start_mainline_dht (db_read_only builder) (db_ext_addr builder) random handshaker_port;
  let nodes := (hash_iter (db_nodes builder)).*1 in
  let routers := (hash_iter (db_routers builder)).*1 in
  Ok (Some {| n_handler := h; n_tasks := [StartBootstrap routers nodes]; n_scheduled := [] |}).

(** The client's calls put a task into the channel. *)
Definition push_task (t : OneshotTask) (self : DhtNode) : DhtNode :=
  {| n_handler := n_handler self; n_tasks := n_tasks self ++ [t]; n_scheduled := n_scheduled self |}.
Definition MainlineDht_search (info_hash : ShaHash) (announce : bool) (self : DhtNode) : DhtNode := push_task (StartLookup info_hash announce) self.
Definition MainlineDht_events (send : Chan DhtEvent) (self : DhtNode) : DhtNode := push_task (RegisterSender send) self.
Definition MainlineDht_drop (self : DhtNode) : DhtNode := push_task (Shutdown ClientInitiated) self.

(** * The event loop (worker/handler.rs) *)

(** One turn: the next task of either channel. *)
Definition event_loop_step (main_first : bool) (self : DhtNode) : res False DhtNode :=
  match (if main_first then n_tasks self else []), n_scheduled self, n_tasks self with
  | task :: tasks, scheduled, _ =>
      h ← handle_task now instant draws secrets to_socket_addrs (n_handler self) task;
      Ok {| n_handler := h; n_tasks := tasks; n_scheduled := scheduled |}
  | [], check :: scheduled, tasks =>
      h ← handle_scheduled_task now instant draws (n_handler self) check;
      Ok {| n_handler := h; n_tasks := tasks; n_scheduled := scheduled |}
  | [], [], task :: tasks =>
      h ← handle_task now instant draws secrets to_socket_addrs (n_handler self) task;
      Ok {| n_handler := h; n_tasks := tasks; n_scheduled := [] |}
  | [], [], [] => Ok self
  end.
End Node.

(** * What the messengers do *)

(** A datagram is taken as a whole or refused. *)
Definition datagram_outcome (m : bytes * SocketAddr * bool) : option (option nat) :=
  let '(message, _, taken) := m in
  match message with [] => None | _ => Some (if taken : bool then Some (length message) else None) end.

Definition datagram_sent (m : bytes * SocketAddr * bool) : option (bytes * SocketAddr) :=
  let '(message, addr, taken) := m in
  match message with [] => None | _ => if taken : bool then Some (message, addr) else None end.

Lemma send_bytes_done outcomes message : send_bytes outcomes message (length message) = ([], outcomes).
Proof. destruct outcomes as [|[n|] outcomes]; cbn; by rewrite Nat.eqb_refl. Qed.

(** On a socket that takes datagrams as a whole or fails, the messages leave in
    their order, each as one datagram; one that fails is lost and holds up no other. *)
Theorem outgoing_in_order (ms : list (bytes * SocketAddr * bool)) :
  outgoing_messenger (omap datagram_outcome ms) ms.*1 = omap datagram_sent ms.
Proof.
  induction ms as [|[[message addr] taken] ms IH]; [done|]. cbn [fmap list_fmap outgoing_messenger fst].
  destruct message as [|x message].
  - cbn [omap list_omap datagram_outcome datagram_sent]. change 0 with (length (@nil Z)). rewrite send_bytes_done. exact IH.
  - cbn [omap list_omap datagram_outcome datagram_sent]. destruct taken.
    + cbn [send_bytes]. change (Nat.eqb 0 (length (x :: message))) with false. cbn iota. rewrite Nat.add_0_l, send_bytes_done.
      cbn [fmap list_fmap app]. change (drop 0 (x :: message)) with (x :: message). rewrite firstn_all. by f_equal.
    + cbn [send_bytes]. change (Nat.eqb 0 (length (x :: message))) with false. cbn iota. cbn [fmap list_fmap app]. exact IH.
Qed.

Definition incoming_task (o : option (bytes * SocketAddr)) : option OneshotTask :=
  match o with Some (datagram, addr) => Some (Incoming (take INCOMING_BUFFER_SIZE datagram) addr) | None => None end.

(** The datagrams received become tasks in their order, as many as the handler is
    there for; an error of the socket is passed over. *)
Theorem incoming_in_order received send :
  sent (incoming_messenger received send) =
  sent send ++ match room send with None => omap incoming_task received | Some n => take n (omap incoming_task received) end.
Proof.
  revert send. induction received as [|[[datagram addr]|] received IH]; intros send; cbn [incoming_messenger omap list_omap incoming_task].
  - destruct (room send) as [n|]; [by rewrite take_nil, app_nil_r|by rewrite app_nil_r].
  - unfold chan_send. destruct (room send) as [[|n]|]; [by rewrite app_nil_r|..]; rewrite IH; cbn [sent room];
      rewrite <- app_assoc; done.
  - apply IH.
Qed.

(** The external address of the builder changes nothing in the node that starts. *)
Theorem external_addr_unused `{Sha1} `{HashOrder} now draws secrets builder addr bound random port :
  MainlineDht_with_builder now draws secrets (set_external_addr addr builder) bound random port =
  MainlineDht_with_builder now draws secrets builder bound random port.
Proof. by destruct builder. Qed.
