(* ===== verification/SimpleTorrent.v ===== *)
(** examples/simple_torrent/src/main.rs: a client that downloads one torrent
    from one peer, put together from the handshaker, the peer manager and the
    disk manager.

    Its tasks are loops over what arrives in a channel: such a channel is the
    list of its items until it is closed, and an item of a loop that sends
    comes with what the send does.  Printing and the signal handler are left
    out. *)

From stdpp Require Import base numbers strings gmap list.
From S2P Require Import Prelude RustStd Extern Io Convert Sha Path Bencode Metainfo Handshake Framed Handler PeerStandard PeerExtended PeerWire Reveal PeerManager Disk DiskFs DiskManager Handshaker.

Definition MAX_PENDING_BLOCKS : nat := 50.

(** [PeerWireProtocolMessage<NullProtocol>] is a message of the manager. *)
Definition Message : Type := PeerWireProtocolMessage NullProtocolMessage io_error.
#[export] Instance wire_managed : ManagedMessage Message :=
  {| managed_keep_alive := keep_alive; managed_is_keep_alive := is_keep_alive |}.

Abbreviation input := (@PeerManagerInputMessage Message).

Inductive PeerSelectionState :=
  | PS_Choke (info : PeerInfo)
  | PS_UnChoke (info : PeerInfo)
  | PS_Interested (info : PeerInfo)
  | PS_UnInterested (info : PeerInfo)
  | PS_Have (info : PeerInfo) (msg : HaveMessage)
  | PS_BitField (info : PeerInfo) (msg : BitFieldMessage)
  | PS_NewPeer (info : PeerInfo)
  | PS_RemovedPeer (info : PeerInfo)
  | PS_BlockProcessed
  | PS_GoodPiece (index : Z)
  | PS_BadPiece (index : Z)
  | PS_TorrentSynced
  | PS_TorrentAdded.

#[export] Instance BlockMetadata_countable : Countable BlockMetadata :=
  inj_countable' (λ m, (bm_info_hash m, bm_piece_index m, bm_block_offset m, bm_block_length m))
    (λ '(h, i, o, n), BlockMetadata_new h i o n) ltac:(by intros []).

(** * Arguments, the torrent file and the managers *)

(** The values given for the arguments [file], [dir] and [peer]. *)
Definition extract_arguments (file dir peer : option bytes) : res Empty_set (bytes * bytes * bytes) :=
  torrent_file_path ← unwrap file;
  download_directory ← unwrap dir;
  peer_address ← unwrap peer;
  Ok (torrent_file_path, download_directory, peer_address).

(** [contents]: what reading the file gives. *)
Definition load_and_parse_torrent_file `{Sha1} (contents : res io_error bytes) : res Empty_set (Metainfo * ShaHash) :=
  torrent_file_bytes ← expect contents;
  metainfo ← expect (Metainfo_from_bytes torrent_file_bytes);
  Ok (metainfo, i_info_hash (m_info metainfo)).

Definition setup_disk_manager {S F L} `{!LruCache L F} (filesystem : S) : DiskManager (S := FileHandleCache S L) :=
  DiskManager_from_builder (with_stream_buffer_capacity 0 (with_sink_buffer_capacity 1 DiskManagerBuilder_new))
    (FileHandleCache_new filesystem 100).

Definition setup_peer_manager : @PeerManager Message :=
  PeerManager_from_builder (pb_with_stream_buffer_capacity 0 (pb_with_sink_buffer_capacity 0 PeerManagerBuilder_new)).

Definition setup_handshaker `{Sha1} (seed : Z) : res Empty_set HandshakerBuilder :=
  peer_id ← expect (ShaHash_from_hash (bstr "-BI0000-000000000000"));
  Ok (with_config (with_done_buffer_size 0 (with_wait_buffer_size 0 HandshakerConfig_default))
        (with_peer_id peer_id (HandshakerBuilder_default seed))).

Definition setup {S F L} `{!LruCache L F} `{Sha1} (filesystem : S) (seed : Z)
    : res Empty_set (DiskManager (S := FileHandleCache S L) * @PeerManager Message * HandshakerBuilder) :=
  handshaker ← setup_handshaker seed;
  Ok (setup_disk_manager filesystem, setup_peer_manager, handshaker).

(** * The tasks between the managers *)

(** [handle_new_connections]: what is forwarded for one item. *)
Definition new_connection {E} (item : res E CompleteMessage) : res Empty_set input :=
  message ← expect item;
  Ok (AddPeer (PeerInfo_new (cm_addr message) (hash (cm_pid message)) (cm_hash message) Extensions_new)).

Definition request_map : Type := gmap BlockMetadata (list PeerInfo).

Definition peer_manager_message (info_hash : ShaHash) (result : @output Message) (disk_request_map : request_map)
    : request_map * option (PeerSelectionState + IDiskMessage) :=
  match result with
  | Ok (ReceivedMessage peer_info message) =>
      match message with
      | Choke => (disk_request_map, Some (inl (PS_Choke peer_info)))
      | UnChoke => (disk_request_map, Some (inl (PS_UnChoke peer_info)))
      | Interested => (disk_request_map, Some (inl (PS_Interested peer_info)))
      | UnInterested => (disk_request_map, Some (inl (PS_UnInterested peer_info)))
      | Have have_message => (disk_request_map, Some (inl (PS_Have peer_info have_message)))
      | BitField bitfield_message => (disk_request_map, Some (inl (PS_BitField peer_info bitfield_message)))
      | Request m =>
          let block_metadata := BlockMetadata_new info_hash (req_piece_index m) (req_block_offset m) (req_block_length m) in
          let waiting := default [] (disk_request_map !! block_metadata) in
          (<[block_metadata := waiting ++ [peer_info]]> disk_request_map,
           Some (inr (LoadBlock (BlockMut_new block_metadata []))))
      | Piece m =>
          let block_metadata := BlockMetadata_new info_hash (pc_piece_index m) (pc_block_offset m) (Z.of_nat (length (pc_block m))) in
          (disk_request_map, Some (inr (ProcessBlock (Block_new block_metadata (pc_block m)))))
      | _ => (disk_request_map, None)
      end
  | Ok (PeerAdded peer_info) => (disk_request_map, Some (inl (PS_NewPeer peer_info)))
  | Ok (PeerRemoved peer_info) => (disk_request_map, Some (inl (PS_RemovedPeer peer_info)))
  | Ok (PeerDisconnect peer_info) => (disk_request_map, Some (inl (PS_RemovedPeer peer_info)))
  | Err (PeerError peer_info _) => (disk_request_map, Some (inl (PS_RemovedPeer peer_info)))
  | Err _ | Ok (SentMessage _ _) | Panic _ => (disk_request_map, None)
  end.

(** The loop sends what it makes of an item and ends when a send fails. *)
Fixpoint handle_peer_manager_messages (info_hash : ShaHash) (items : list (@output Message * bool)) (disk_request_map : request_map)
    : request_map * list (PeerSelectionState + IDiskMessage) :=
  match items with
  | [] => (disk_request_map, [])
  | (result, accepted) :: items =>
      match peer_manager_message info_hash result disk_request_map with
      | (disk_request_map, None) => handle_peer_manager_messages info_hash items disk_request_map
      | (disk_request_map, Some message) =>
          if accepted : bool then
            let '(disk_request_map, sent) := handle_peer_manager_messages info_hash items disk_request_map in
            (disk_request_map, message :: sent)
          else (disk_request_map, [])
      end
  end.

(** [try_into::<u32>().unwrap()] *)
Definition unwrap_u32 (z : Z) : res Empty_set Z := if (z <=? u32_max)%Z then Ok z else Panic UnwrapNone.

Definition disk_manager_message (result : res () ODiskMessage) (disk_request_map : request_map)
    : res Empty_set (request_map * option (PeerSelectionState + input)) :=
  match result with
  | Ok (BlockLoaded block) =>
      let '(metadata, block) := BlockMut_into_parts block in
      match disk_request_map !! metadata with
      | Some (peer_info :: waiting) =>
          index ← unwrap_u32 (bm_piece_index metadata);
          offset ← unwrap_u32 (bm_block_offset metadata);
          let piece_message := {| pc_piece_index := index; pc_block_offset := offset; pc_block := block |} in
          Ok (<[metadata := waiting]> disk_request_map, Some (inr (SendMessage peer_info 0 (Piece piece_message))))
      | Some [] => Panic IndexOutOfBounds
      | None => Panic UnwrapNone
      end
  | Ok (TorrentAdded _) => Ok (disk_request_map, Some (inl PS_TorrentAdded))
  | Ok (TorrentSynced _) => Ok (disk_request_map, Some (inl PS_TorrentSynced))
  | Ok (FoundGoodPiece _ index) => Ok (disk_request_map, Some (inl (PS_GoodPiece index)))
  | Ok (FoundBadPiece _ index) => Ok (disk_request_map, Some (inl (PS_BadPiece index)))
  | Ok (BlockProcessed _) => Ok (disk_request_map, Some (inl PS_BlockProcessed))
  | _ => Ok (disk_request_map, None)
  end.

Fixpoint handle_disk_manager_messages (items : list (res () ODiskMessage * bool)) (disk_request_map : request_map)
    : list (PeerSelectionState + input) * res Empty_set request_map :=
  match items with
  | [] => ([], Ok disk_request_map)
  | (result, accepted) :: items =>
      match disk_manager_message result disk_request_map with
      | Ok (disk_request_map, None) => handle_disk_manager_messages items disk_request_map
      | Ok (disk_request_map, Some message) =>
          if accepted : bool then
            let '(sent, r) := handle_disk_manager_messages items disk_request_map in (message :: sent, r)
          else ([], Ok disk_request_map)
      | Err e => match e with end
      | Panic f => ([], Panic f)
      end
  end.

(** * Which blocks to request *)

(** The loop over the whole blocks of a piece. *)
Fixpoint whole_block_requests (count : nat) (block_index piece_index block_size : Z) : res Empty_set (list RequestMessage) :=
  match count with
  | O => Ok []
  | S count =>
      block_offset ← u64_mul block_index block_size;
      index ← unwrap_u32 piece_index;
      offset ← unwrap_u32 block_offset;
      rest ← whole_block_requests count (block_index + 1) piece_index block_size;
      Ok ({| req_piece_index := index; req_block_offset := offset; req_block_length := block_size |} :: rest)
  end.

(** The body of the loop over the pieces. *)
Definition requests_of_piece (next_piece_length piece_index block_size : Z) : res Empty_set (list RequestMessage) :=
  whole_blocks ← u64_div next_piece_length block_size;
  requests ← whole_block_requests (Z.to_nat whole_blocks) 0 piece_index block_size;
  partial_block_length ← u64_rem next_piece_length block_size;
  if (partial_block_length =? 0)%Z then Ok requests else
  block_offset ← u64_mul whole_blocks block_size;
  index ← unwrap_u32 piece_index;
  offset ← unwrap_u32 block_offset;
  Ok (requests ++ [{| req_piece_index := index; req_block_offset := offset; req_block_length := partial_block_length |}]).

Fixpoint requests_loop (fuel : nat) (piece_length block_size total_file_length piece_index : Z) : res Empty_set (list RequestMessage) :=
  match fuel with
  | O => Panic OutOfFuel
  | S fuel =>
      if (total_file_length =? 0)%Z then Ok [] else
      let next_piece_length := Z.min total_file_length piece_length in
      requests ← requests_of_piece next_piece_length piece_index block_size;
      next_index ← u64_add piece_index 1;
      rest ← requests_loop fuel piece_length block_size (total_file_length - next_piece_length) next_index;
      Ok (requests ++ rest)
  end.

Definition generate_piece_requests (fuel : nat) (info : Info) (block_size : Z) : res Empty_set (list RequestMessage) :=
  total_file_length ← sum_lengths 0 (i_files info);
  requests_loop fuel (i_piece_len info) block_size total_file_length 0.

(** * The selection *)

(** What will arrive in the channel; next to a message, after how many messages
    the sends it leads to fail, if they do. *)
Abbreviation receiver := (list (PeerSelectionState * option nat)).

Fixpoint handle_existing_pieces (selection_receiver : receiver) (piece_requests : list RequestMessage) (current_pieces : nat)
    : res Empty_set (receiver * list RequestMessage * nat) :=
  match selection_receiver with
  | (PS_GoodPiece index, _) :: rest =>
      handle_existing_pieces rest (filter (λ req, req_piece_index req ≠ index) piece_requests) (current_pieces + 1)
  | [] => Ok ([], piece_requests, current_pieces)
  | (PS_TorrentAdded, _) :: rest => Ok (rest, piece_requests, current_pieces)
  | _ :: _ => Panic AssertFailed
  end.

Record selection := {
  piece_requests : list RequestMessage;
  optional_peer : option PeerInfo;
  is_unchoked : bool;
  pending_blocks : nat;
  current_pieces : nat
}.

(** The match of the loop: the control messages. *)
Definition selection_update (state : PeerSelectionState) (s : selection) : res Empty_set (selection * list input) :=
  let '(Build_selection requests peer unchoked pending current) := s in
  match state with
  | PS_BlockProcessed =>
      match pending with
      | O => Panic ArithOverflow
      | S pending => Ok (Build_selection requests peer unchoked pending current, [])
      end
  | PS_Choke _ => Ok (Build_selection requests peer false pending current, [])
  | PS_UnChoke _ => Ok (Build_selection requests peer true pending current, [])
  | PS_NewPeer peer_info =>
      Ok (Build_selection requests (Some peer_info) unchoked pending current,
          [SendMessage peer_info 0 Interested; SendMessage peer_info 0 UnChoke])
  | PS_GoodPiece piece_index =>
      let s := Build_selection requests peer unchoked pending (current + 1) in
      match peer with
      | None => Ok (s, [])
      | Some peer_info => index ← unwrap_u32 piece_index; Ok (s, [SendMessage peer_info 0 (Have {| have_piece_index := index |})])
      end
  | _ => Ok (s, [])
  end.

(** The requests that may follow: the state and the messages. *)
Definition next_piece_requests (peer_info : PeerInfo) (s : selection) : res Empty_set (selection * list input) :=
  if negb (is_unchoked s) then Ok (s, []) else
  if MAX_PENDING_BLOCKS <? pending_blocks s then Panic ArithOverflow else
  let take_blocks := Nat.min (MAX_PENDING_BLOCKS - pending_blocks s) (length (piece_requests s)) in
  Ok ({| piece_requests := drop take_blocks (piece_requests s); optional_peer := optional_peer s; is_unchoked := is_unchoked s;
         pending_blocks := pending_blocks s + take_blocks; current_pieces := current_pieces s |},
      (λ item, SendMessage peer_info 0 (Request item)) <$> take take_blocks (piece_requests s)).

Inductive ending := Downloaded | SendingFailed | ChannelClosed | Panicked (f : fault).

(** A turn of the loop ends it, goes on, or sends messages to the peer manager. *)
Inductive turn := Break | Continue | Send (messages : list input).

Definition selection_turn (total_pieces : nat) (state : PeerSelectionState) (s : selection) : res Empty_set (selection * turn) :=
  '(s, control_messages) ← selection_update state s;
  if Nat.eqb (current_pieces s) total_pieces then Ok (s, Break) else
  match optional_peer s with
  | Some peer_info =>
      '(s, requests) ← next_piece_requests peer_info s;
      Ok (s, Send (control_messages ++ requests))
  | None => Ok (s, Continue)
  end.

Fixpoint handle_selection_messages (total_pieces : nat) (selection_receiver : receiver) (s : selection)
    : selection * list input * ending :=
  match selection_receiver with
  | [] => (s, [], ChannelClosed)
  | (state, failed_after) :: rest =>
      match selection_turn total_pieces state s with
      | Ok (s, Break) => (s, [], Downloaded)
      | Ok (s, Continue) => handle_selection_messages total_pieces rest s
      | Ok (s, Send messages) =>
          match failed_after with
          | Some k => (s, take k messages, SendingFailed)
          | None => let '(s, sent, e) := handle_selection_messages total_pieces rest s in (s, messages ++ sent, e)
          end
      | Err e => match e with end
      | Panic f => (s, [], Panicked f)
      end
  end.

Definition selection_start (requests : list RequestMessage) (current : nat) : selection :=
  {| piece_requests := requests; optional_peer := None; is_unchoked := false; pending_blocks := 0; current_pieces := current |}.

(** The downloader: what it sends to the disk manager and to the handshaker, and
    the selection; [peer_address] is what parsing the address gives. *)
Definition downloader (fuel : nat) (metainfo : Metainfo) (peer_address : option SocketAddr) (selection_receiver : receiver)
    : res Empty_set (IDiskMessage * InitiateMessage * (selection * list input * ending)) :=
  requests ← generate_piece_requests fuel (m_info metainfo) (16 * 1024);
  '(selection_receiver, requests, current) ← handle_existing_pieces selection_receiver requests 0;
  addr ← unwrap peer_address;
  let total_pieces := length (i_pieces (m_info metainfo)) in
  Ok (AddTorrent metainfo, {| im_prot := BitTorrent; im_hash := i_info_hash (m_info metainfo); im_addr := addr |},
      handle_selection_messages total_pieces selection_receiver (selection_start requests current)).

(** The program without interruption: what reading a file, the file system of a
    directory and parsing an address give are arguments. *)
Definition main {S F L} `{!LruCache L F} `{Sha1} (fuel : nat) (seed : Z) (file dir peer : option bytes)
    (read_file : bytes → res io_error bytes) (with_directory : bytes → S) (parse_address : bytes → option SocketAddr)
    (selection_receiver : receiver)
    : res Empty_set (DiskManager (S := FileHandleCache S L) * @PeerManager Message * HandshakerBuilder *
        (IDiskMessage * InitiateMessage * (selection * list input * ending))) :=
  '(torrent_file_path, download_directory, peer_address) ← extract_arguments file dir peer;
  '(metainfo, _) ← load_and_parse_torrent_file (read_file torrent_file_path);
  managers ← setup (with_directory download_directory) seed;
  result ← downloader fuel metainfo (parse_address peer_address) selection_receiver;
  Ok (managers, result).
