(* ===== verification/SimpleTorrentProps.v ===== *)
(** The simple client: the blocks it asks for make up the torrent.  Its tasks,
    handed the parsed messages of an honest peer, download the torrent; with what
    the codec makes of the bytes of a peer they never ask for a block.
    What it does with the requests of a peer, with blocks nobody asked for and
    with a torrent of empty pieces is stated as it is. *)

From stdpp Require Import base numbers strings gmap relations sorting list.
From S2P Require Import Prelude RustStd Extern Io Convert Sha Path Bencode Metainfo Handshake Framed Handler PeerStandard PeerExtended PeerWire PeerWireProps Reveal PeerManager Disk DiskFs DiskProps DiskCheck DiskAdd DiskDownload DiskExamples DiskManager Handshaker SimpleTorrent.

(** * Tiles *)

Section Tiles.
Context (h : ShaHash) (k : Z).

Lemma tiles_covered o lens x : Forall (λ n, 0 < n)%Z lens → covered (tiles h k o lens) x ↔ (o ≤ x < o + total lens)%Z.
Proof.
  intros Hl. revert o. induction Hl as [|n lens Hn Hl IH]; intros o; simpl.
  - unfold total. simpl. split; [by intros ?%covered_nil|lia].
  - pose proof (total_nonneg lens Hl). rewrite covered_cons, IH. unfold covers, total in *. simpl. lia.
Qed.

Lemma tiles_disjoint o lens : Forall (λ n, 0 < n)%Z lens → disjoint_blocks (tiles h k o lens).
Proof.
  intros Hl. revert o. induction Hl as [|n lens Hn Hl IH]; intros o; simpl; [constructor|]. apply disjoint_cons. split; [|apply IH].
  apply apart_covered. intros x. rewrite tiles_covered by done. unfold covers. simpl. lia.
Qed.

Lemma tiles_in o lens m : Forall (λ n, 0 < n)%Z lens → m ∈ tiles h k o lens → bm_info_hash m = h ∧ bm_piece_index m = k ∧
  (o ≤ bm_block_offset m ∧ bm_block_offset m + bm_block_length m ≤ o + total lens)%Z ∧ bm_block_length m ∈ lens.
Proof.
  intros Hl. revert o. induction Hl as [|n lens Hn Hl IH]; intros o; simpl; [by intros ?%not_elem_of_nil|].
  pose proof (total_nonneg lens Hl). intros [->|Hm]%elem_of_cons.
  - cbn. unfold total in *. cbn. split_and!; [done|done|lia|lia|by left].
  - destruct (IH _ Hm) as (? & ? & ? & ?). unfold total in *. cbn. split_and!; [done|done|lia|lia|by right].
Qed.
End Tiles.

(** The lengths of the blocks of a piece of [n] bytes. *)
Definition block_lens (bs n : Z) : list Z := replicate (Z.to_nat (n / bs)) bs ++ if (n `mod` bs =? 0)%Z then [] else [n `mod` bs]%Z.

Lemma total_replicate k bs : total (replicate k bs) = (Z.of_nat k * bs)%Z.
Proof. induction k as [|k IH]; unfold total in *; simpl in *; lia. Qed.
Lemma total_app l k : total (l ++ k) = (total l + total k)%Z.
Proof. induction l as [|n l IH]; unfold total in *; simpl in *; lia. Qed.

Lemma block_lens_spec bs n : (0 < bs)%Z → (0 ≤ n)%Z → total (block_lens bs n) = n ∧ Forall (λ l, 0 < l ≤ bs)%Z (block_lens bs n).
Proof.
  intros Hb Hn. pose proof (Z.div_mod n bs). pose proof (Z.mod_pos_bound n bs Hb). pose proof (Z.div_pos n bs Hn Hb).
  unfold block_lens. rewrite total_app, total_replicate. split.
  - destruct (Z.eqb_spec (n `mod` bs) 0); unfold total; simpl; lia.
  - apply Forall_app. split; [apply Forall_replicate; lia|]. destruct (Z.eqb_spec (n `mod` bs) 0); repeat constructor; lia.
Qed.

(** * The requests *)

Definition request_block (h : ShaHash) (r : RequestMessage) : BlockMetadata :=
  BlockMetadata_new h (req_piece_index r) (req_block_offset r) (req_block_length r).

Lemma whole_block_requests_tiles h count b i bs : (0 ≤ b)%Z → (0 < bs)%Z → (0 ≤ i ≤ u32_max)%Z → ((b + Z.of_nat count) * bs ≤ u32_max + 1)%Z →
  ∃ l, whole_block_requests count b i bs = Ok l ∧ request_block h <$> l = tiles h i (b * bs) (replicate count bs).
Proof.
  intros Hb Hbs Hi. revert b Hb. induction count as [|count IH]; intros b Hb Hmax; [by exists []|].
  rewrite Nat2Z.inj_succ in Hmax. assert (b * bs + bs ≤ u32_max + 1)%Z by nia.
  cbn [whole_block_requests]. unfold u64_mul, unwrap_u32, u32_max, u64_max in *. rewrite (proj2 (Z.leb_le (b * bs) 18446744073709551615)), bind_Ok by lia.
  rewrite (proj2 (Z.leb_le i _)), bind_Ok by lia. rewrite (proj2 (Z.leb_le (b * bs) _)), bind_Ok by lia.
  destruct (IH (b + 1)%Z) as (l & -> & El); [lia|lia|]. rewrite bind_Ok. eexists. split; [reflexivity|].
  rewrite fmap_cons, El. cbn [replicate tiles]. unfold request_block at 1. cbn. do 2 f_equal. lia.
Qed.

Lemma requests_of_piece_tiles h n i bs : (0 < bs)%Z → (0 ≤ n ≤ u32_max + 1)%Z → (0 ≤ i ≤ u32_max)%Z →
  ∃ l, requests_of_piece n i bs = Ok l ∧ request_block h <$> l = tiles h i 0 (block_lens bs n).
Proof.
  intros Hb Hn Hi. pose proof (Z.div_mod n bs). pose proof (Z.mod_pos_bound n bs Hb) as Hmod. pose proof (Z.div_pos n bs (proj1 Hn) Hb).
  unfold requests_of_piece, u64_div, u64_rem. rewrite (proj2 (Z.eqb_neq bs 0)), !bind_Ok by lia.
  destruct (whole_block_requests_tiles h (Z.to_nat (n / bs)) 0 i bs) as (l & -> & El); [lia|done|done|nia|]. rewrite !bind_Ok.
  unfold block_lens. destruct (Z.eqb_spec (n `mod` bs) 0) as [E0|E0]; [exists l; by rewrite app_nil_r|].
  unfold u64_mul, unwrap_u32, u32_max, u64_max in *. rewrite (proj2 (Z.leb_le (n / bs * bs) _)), bind_Ok by nia.
  rewrite (proj2 (Z.leb_le i _)), bind_Ok by lia. rewrite (proj2 (Z.leb_le (n / bs * bs) _)), bind_Ok by nia.
  eexists. split; [reflexivity|]. rewrite fmap_app, El, tiles_app, total_replicate. cbn [tiles fmap list_fmap]. unfold request_block at 1. cbn.
  do 3 f_equal. lia.
Qed.

Lemma ForallOrdPairs_app {A} (P : A → A → Prop) l k :
  ForallOrdPairs P (l ++ k) ↔ ForallOrdPairs P l ∧ ForallOrdPairs P k ∧ Forall (λ a, Forall (P a) k) l.
Proof.
  induction l as [|a l IH]; simpl; [split; [by repeat constructor|by intros (_ & ? & _)]|]. split.
  - inversion 1 as [|? ? Ha Hl]; subst. apply Forall_app in Ha as [? ?]. apply IH in Hl as (? & ? & ?).
    split_and!; [by constructor|done|by constructor].
  - intros (Hl & Hk & [Ha Hlk]%Forall_cons). inversion Hl as [|? ? Ha' Hl']; subst. constructor; [by apply Forall_app|by apply IH].
Qed.

Lemma ForallOrdPairs_impl {A} (P Q : A → A → Prop) l : (∀ a b, P a b → Q a b) → ForallOrdPairs P l → ForallOrdPairs Q l.
Proof. intros HPQ. induction 1 as [|a l Ha _ IH]; constructor; [|done]. eapply Forall_impl; [exact Ha|]. apply HPQ. Qed.

Lemma ForallOrdPairs_perm {A} (P : A → A → Prop) l k : (∀ a b, P a b → P b a) → l ≡ₚ k → ForallOrdPairs P l → ForallOrdPairs P k.
Proof.
  intros Hs. induction 1 as [|a l k Hp IH|a b l|l k m _ IH1 _ IH2]; [done|..|by auto].
  - inversion 1 as [|? ? Ha Hl]; subst. constructor; [by rewrite <- Hp|by apply IH].
  - inversion 1 as [|? ? Hb' Hal]; subst. apply Forall_cons in Hb' as [Hba Hb]. inversion Hal as [|? ? Ha Hl]; subst.
    constructor; [constructor; [by apply Hs|done]|by constructor].
Qed.

Section Requests.
Context (info : Info) (Hwf : torrent_wf info) (Hlens : Forall (λ f, 0 ≤ f_len f)%Z (i_files info)) (bs : Z) (Hbs : (0 < bs)%Z)
  (Hpl : (i_piece_len info ≤ u32_max + 1)%Z) (Hn : (Z.of_nat (length (i_pieces info)) ≤ u32_max + 1)%Z).
Abbreviation n := (Z.of_nat (length (i_pieces info))).

(** The requests of the torrent, piece after piece. *)
Definition torrent_tiles (h : ShaHash) (i : Z) : list BlockMetadata :=
  seqZ i (n - i) ≫= λ k, tiles h k 0 (block_lens bs (piece_size info k)).

Lemma requests_loop_tiles h fuel i T : (0 ≤ i ≤ n)%Z → T = Z.max 0 (total_size info - i * i_piece_len info) → (n - i < Z.of_nat fuel)%Z →
  ∃ l, requests_loop fuel (i_piece_len info) bs T i = Ok l ∧ request_block h <$> l = torrent_tiles h i.
Proof using Hwf Hbs Hpl Hn.
  revert i T. induction fuel as [|fuel IH]; intros i T Hi ET Hf; [lia|]. destruct Hwf as [Hpos _ _ Hpieces _].
  cbn [requests_loop]. unfold torrent_tiles. destruct (Z.eqb_spec T 0) as [E0|E0].
  - assert (i = n) as -> by nia. rewrite Z.sub_diag. by exists [].
  - assert (i < n)%Z as Hin by nia. assert (Z.min T (i_piece_len info) = piece_size info i) as Emin by (unfold piece_size; lia). rewrite Emin.
    assert (0 < piece_size info i ≤ i_piece_len info)%Z as Hsize by lia.
    destruct (requests_of_piece_tiles h (piece_size info i) i bs) as (l & -> & El); [done|lia|lia|]. rewrite bind_Ok.
    unfold u64_add, u32_max, u64_max in *. rewrite (proj2 (Z.leb_le _ _)), bind_Ok by lia.
    destruct (IH (i + 1)%Z (T - piece_size info i)%Z) as (l' & -> & El'); [lia|unfold piece_size; nia|lia|]. rewrite bind_Ok.
    eexists. split; [reflexivity|]. rewrite fmap_app, El, El', (seqZ_cons i) by lia. unfold torrent_tiles.
    replace (Z.pred (n - i)) with (n - (i + 1))%Z by lia. done.
Qed.

Lemma generate_tiles h fuel : length (i_pieces info) < fuel →
  ∃ l, generate_piece_requests fuel info bs = Ok l ∧ request_block h <$> l = torrent_tiles h 0.
Proof using Hwf Hlens Hbs Hpl Hn.
  intros Hf. unfold generate_piece_requests. rewrite (sum_lengths_ok info Hwf Hlens), bind_Ok.
  apply requests_loop_tiles; [lia| |lia]. pose proof (total_size_nonneg info Hlens). lia.
Qed.

Lemma piece_lens k : (0 ≤ k < n)%Z → Forall (λ l, 0 < l)%Z (block_lens bs (piece_size info k)) ∧ total (block_lens bs (piece_size info k)) = piece_size info k.
Proof using Hwf Hbs.
  intros [_ Hk]%(valid_piece info Hwf). destruct (block_lens_spec bs (piece_size info k)) as [Ht Hl]; [done|lia|]. split; [|done].
  eapply Forall_impl; [exact Hl|]. simpl. lia.
Qed.

Lemma torrent_tiles_in h i m : (0 ≤ i)%Z → m ∈ torrent_tiles h i →
  bm_info_hash m = h ∧ in_piece info m ∧ (i ≤ bm_piece_index m)%Z ∧ (bm_block_length m ≤ bs)%Z.
Proof using Hwf Hbs.
  intros Hi (k & Hm & [Hk1 Hk2]%elem_of_seqZ)%list_elem_of_bind. assert (0 ≤ k < n)%Z as Hk by lia.
  destruct (piece_lens k Hk) as [Hl Ht]. destruct (tiles_in h k 0 _ m Hl Hm) as (Eh & Ek & Ho & Hlen). rewrite Ht in Ho.
  apply (valid_piece info Hwf) in Hk as [_ Hk]. destruct (block_lens_spec bs (piece_size info k)) as [_ Hb]; [done|lia|].
  apply (proj1 (Forall_forall _ _) Hb) in Hlen. pose proof (tw_piece_len _ Hwf). unfold in_piece, piece_size in *. rewrite Ek. split_and!; (done || lia).
Qed.

Lemma torrent_tiles_overlap h i : (0 ≤ i)%Z → ForallOrdPairs no_overlap (torrent_tiles h i).
Proof using Hwf Hbs.
  intros Hi. remember (Z.to_nat (n - i)) as c eqn:Ec. revert i Hi Ec. induction c as [|c IH]; intros i Hi Ec; unfold torrent_tiles.
  { rewrite seqZ_nil by lia. constructor. }
  rewrite seqZ_cons by lia. cbn [mbind list_bind]. replace (Z.pred (n - i)) with (n - Z.succ i)%Z by lia.
  apply ForallOrdPairs_app. destruct (piece_lens i) as [Hl _]; [lia|]. split_and!.
  - apply (ForallOrdPairs_impl apart); [by intros a b Hab _|]. by apply tiles_disjoint.
  - apply IH; lia.
  - apply Forall_forall. intros a Ha. apply Forall_forall. intros b Hb Eab. destruct (tiles_in h i 0 _ a Hl Ha) as (_ & Ea & _).
    destruct (torrent_tiles_in h (Z.succ i) b) as (_ & _ & Hge & _); [lia|exact Hb|]. lia.
Qed.

Lemma torrent_tiles_full h k : (0 ≤ k < n)%Z → full info (torrent_tiles h 0) k.
Proof using Hwf Hbs.
  intros Hk. destruct (piece_lens k Hk) as [Hl Ht]. pose proof (proj2 (valid_piece info Hwf k) Hk) as [Hk0 Hs].
  split; [done|]. split; [done|]. intros x Hx. assert (covered (tiles h k 0 (block_lens bs (piece_size info k))) x) as (m & Hm & Hc).
  { apply tiles_covered; [done|]. rewrite Ht. lia. }
  exists m. split; [|done]. apply list_elem_of_filter. split; [by apply (tiles_in h k 0 _ m Hl Hm)|].
  apply list_elem_of_bind. exists k. split; [done|]. apply elem_of_seqZ. lia.
Qed.

(** The requests generated for a torrent whose hashes fit its files: the blocks
    are at most of the given size, lie in their pieces, do not overlap and leave
    no byte of a piece out. *)
Theorem requests_cover_torrent fuel : length (i_pieces info) < fuel →
  ∃ requests, generate_piece_requests fuel info bs = Ok requests ∧
    Forall (λ r, 0 < req_block_length r ≤ bs)%Z requests ∧
    Forall (own_block info) (request_block (i_info_hash info) <$> requests) ∧
    ForallOrdPairs no_overlap (request_block (i_info_hash info) <$> requests) ∧
    ∀ k, (0 ≤ k < n)%Z → full info (request_block (i_info_hash info) <$> requests) k.
Proof using Hwf Hlens Hbs Hpl Hn.
  intros Hf. destruct (generate_tiles (i_info_hash info) fuel Hf) as (l & E & El). exists l. rewrite El.
  pose proof (λ m, torrent_tiles_in (i_info_hash info) 0 m (Z.le_refl 0)) as Hin. split; [done|]. split_and!.
  - apply Forall_forall. intros r Hr. apply (list_elem_of_fmap_2 (request_block (i_info_hash info))) in Hr. rewrite El in Hr.
    destruct (Hin _ Hr) as (_ & (_ & _ & ? & _) & _ & ?). cbn in *. done.
  - apply Forall_forall. intros m Hm. by destruct (Hin m Hm) as (? & ? & _).
  - by apply torrent_tiles_overlap.
  - intros k. apply torrent_tiles_full.
Qed.
End Requests.

(** With a piece length of zero the loop goes on until its counter overflows. *)
Theorem empty_pieces_never_end info bs fuel : i_piece_len info = 0%Z → Forall (λ f, 0 ≤ f_len f)%Z (i_files info) →
  (0 < total_size info ≤ u64_max)%Z → (0 < bs)%Z → (Z.of_nat fuel ≤ u64_max)%Z →
  generate_piece_requests fuel info bs = Panic OutOfFuel.
Proof.
  intros E0 Hl Ht Hb Hf. unfold generate_piece_requests. rewrite (sum_lengths_total (i_files info) 0); [|done|done|unfold total_size in Ht; lia].
  rewrite bind_Ok, E0, Z.add_0_l. change (foldr _ _ _) with (total_size info).
  assert (∀ i, 0 ≤ i → i + Z.of_nat fuel ≤ u64_max → requests_loop fuel 0 bs (total_size info) i = Panic OutOfFuel)%Z as Hloop; [|apply Hloop; lia].
  clear Hf. induction fuel as [|fuel IH]; intros i Hi Hm; [done|]. cbn [requests_loop].
  rewrite (proj2 (Z.eqb_neq _ 0)), Z.min_r by lia. unfold requests_of_piece, u64_div, u64_rem.
  rewrite (proj2 (Z.eqb_neq bs 0)), !bind_Ok, Z.div_0_l, Z.mod_0_l by lia.
  change (whole_block_requests (Z.to_nat 0) 0 i bs) with (@Ok Empty_set _ ([] : list RequestMessage)).
  unfold u64_add. rewrite (proj2 (Z.leb_le _ _)), Z.sub_0_r by lia. cbn [mbind res_bind]. by rewrite IH by lia.
Qed.

(** * The account of the requests *)

Definition request_of (m : input) : option RequestMessage := match m with SendMessage _ _ (Request r) => Some r | _ => None end.
Definition sent_requests (l : list input) : list RequestMessage := omap request_of l.
Definition turn_messages (t : turn) : list input := match t with Send l => l | _ => [] end.
Definition processed (state : PeerSelectionState) : nat := match state with PS_BlockProcessed => 1 | _ => 0 end.

Lemma sent_requests_fmap p l : sent_requests ((λ r, SendMessage p 0 (Request r)) <$> l) = l.
Proof. unfold sent_requests. induction l as [|r l IH]; [done|]. cbn. by rewrite IH. Qed.

Lemma next_requests_spec p s : pending_blocks s ≤ MAX_PENDING_BLOCKS → ∃ s' q,
  next_piece_requests p s = Ok (s', (λ r, SendMessage p 0 (Request r)) <$> q) ∧ piece_requests s = q ++ piece_requests s' ∧
  pending_blocks s' = pending_blocks s + length q ∧ pending_blocks s' ≤ MAX_PENDING_BLOCKS ∧
  optional_peer s' = optional_peer s ∧ is_unchoked s' = is_unchoked s ∧ current_pieces s' = current_pieces s ∧
  (is_unchoked s = true → pending_blocks s' = MAX_PENDING_BLOCKS ∨ piece_requests s' = []).
Proof.
  intros Hp. unfold next_piece_requests. destruct (is_unchoked s) eqn:Eu; cbn [negb].
  - rewrite (proj2 (Nat.ltb_ge _ _)) by done. remember (Nat.min (MAX_PENDING_BLOCKS - pending_blocks s) (length (piece_requests s))) as t eqn:Et. eexists _, (take t (piece_requests s)). split; [reflexivity|].
    cbn. rewrite take_drop, length_take. split_and!; try (done || lia). intros _.
    destruct (decide (length (piece_requests s) ≤ MAX_PENDING_BLOCKS - pending_blocks s)); [right; apply drop_ge; lia|left; lia].
  - exists s, []. rewrite Nat.add_0_r. by split_and!.
Qed.

Lemma update_spec state s : match selection_update state s with
  | Ok (s', control) => piece_requests s' = piece_requests s ∧ pending_blocks s' + processed state = pending_blocks s ∧ sent_requests control = []
  | Err _ => True
  | Panic _ => state = PS_BlockProcessed ∧ pending_blocks s = 0 ∨ ∃ k, state = PS_GoodPiece k ∧ (u32_max < k)%Z
  end.
Proof.
  destruct s as [requests peer unchoked pending current]; destruct state as [| | | | | | | | |k| | |]; cbn; try (split_and!; (done || lia)).
  - destruct pending; [by left|]. cbn. split_and!; (done || lia).
  - destruct peer as [p|]; [|cbn; split_and!; (done || lia)]. unfold unwrap_u32.
    destruct (Z.leb_spec k u32_max); cbn; [split_and!; (done || lia)|right; eauto].
Qed.

Lemma turn_spec total_pieces state s : pending_blocks s ≤ MAX_PENDING_BLOCKS → match selection_turn total_pieces state s with
  | Ok (s', t) => piece_requests s = sent_requests (turn_messages t) ++ piece_requests s' ∧ pending_blocks s' ≤ MAX_PENDING_BLOCKS ∧
      pending_blocks s' + processed state = pending_blocks s + length (sent_requests (turn_messages t))
  | Err _ => True
  | Panic _ => state = PS_BlockProcessed ∧ pending_blocks s = 0 ∨ ∃ k, state = PS_GoodPiece k ∧ (u32_max < k)%Z
  end.
Proof.
  intros Hp. unfold selection_turn. pose proof (update_spec state s) as Hu. destruct (selection_update state s) as [[s1 control]|e|f]; [|done|done].
  destruct Hu as (Er & Ep & Ec). cbn [mbind res_bind]. destruct (Nat.eqb _ _); [cbn; split_and!; (done || lia)|].
  destruct (optional_peer s1) as [p|]; [|cbn; split_and!; (done || lia)].
  destruct (next_requests_spec p s1) as (s' & q & -> & Eq & Eq' & Hle & _); [lia|]. cbn. unfold sent_requests in *. rewrite omap_app, Ec.
  pose proof (sent_requests_fmap p q) as Es. unfold sent_requests in Es. rewrite Es. cbn. rewrite <- Er. split_and!; (done || lia).
Qed.

(** Claim C12. Whatever the other tasks report: the requests are sent in their order and
    none twice, at most fifty are outstanding, each block that was processed
    makes room for one; a send that fails loses the requests it was to send; the
    task panics only on a block nobody asked for and on a piece whose number is
    too large for the protocol. *)
Theorem requests_sent_once total_pieces selection_receiver s : pending_blocks s ≤ MAX_PENDING_BLOCKS →
  let '(s', sent, e) := handle_selection_messages total_pieces selection_receiver s in
  pending_blocks s' ≤ MAX_PENDING_BLOCKS ∧
  (∃ lost, piece_requests s = sent_requests sent ++ lost ++ piece_requests s' ∧ (e ≠ SendingFailed → lost = [])) ∧
  (e = ChannelClosed → pending_blocks s' + sum_list_with (λ i, processed i.1) selection_receiver = pending_blocks s + length (sent_requests sent)) ∧
  (∀ f, e = Panicked f → pending_blocks s' = 0 ∨ ∃ k o, (PS_GoodPiece k, o) ∈ selection_receiver ∧ (u32_max < k)%Z).
Proof.
  revert s. induction selection_receiver as [|[state failed] rest IH]; intros s Hp; cbn [handle_selection_messages].
  { split; [done|]. split; [by exists []|]. split; [cbn; lia|done]. }
  pose proof (turn_spec total_pieces state s Hp) as Ht. destruct (selection_turn total_pieces state s) as [[s1 t]|[]|f].
  - destruct Ht as (Er & Hp1 & Ec). specialize (IH s1 Hp1). destruct t as [| |messages]; cbn [turn_messages] in *.
    + split; [done|]. split; [by exists []|]. done.
    + destruct (handle_selection_messages total_pieces rest s1) as [[s' sent] e]. destruct IH as (I1 & I2 & I3 & I4).
      split; [done|]. split; [by rewrite Er|]. split; [intros He; specialize (I3 He); cbn in *; lia|]. intros f Hf.
      destruct (I4 f Hf) as [?|(k & o & ? & ?)]; [by left|right; exists k, o; split; [by right|done]].
    + destruct failed as [k|].
      * split; [done|]. split; [|done]. exists (sent_requests (drop k messages)). split; [|done].
        rewrite Er, app_assoc. f_equal. unfold sent_requests. by rewrite <- omap_app, take_drop.
      * destruct (handle_selection_messages total_pieces rest s1) as [[s' sent] e]. destruct IH as (I1 & (lost & I2 & I2') & I3 & I4).
        unfold sent_requests in *. rewrite omap_app. split; [done|]. split; [exists lost; by rewrite Er, I2, <- app_assoc|].
        split; [intros He; specialize (I3 He); cbn in *; rewrite length_app; lia|]. intros f Hf.
        destruct (I4 f Hf) as [?|(k & o & ? & ?)]; [by left|right; exists k, o; split; [by right|done]].
  - split; [done|]. split; [by exists []|]. split; [done|]. intros f' _.
    destruct Ht as [[_ ?]|(k & -> & ?)]; [by left|right; exists k, failed; split; [by left|done]].
Qed.

(** * Requests of the peer *)

Section Serving.
Context {S F : Type} `{!FileSystem S F} `{HashOrder} `{Sha1} (info : Info).

(** A read into an empty buffer stops at the first byte. *)
Lemma empty_buffer_regions len files skip s x : (0 < len)%Z → (0 ≤ skip)%Z → Forall (λ f, 0 ≤ f_len f)%Z files →
  (skip < foldr (λ f a, f_len f + a)%Z 0%Z files)%Z →
  file_regions (λ p, on_fs (open_file p)) info read_region len files skip 0 (s, []) ≠ (x, Ok ()).
Proof using.
  intros Hlen Hskip Hf. revert skip s Hskip. induction Hf as [|f files Hf _ IH]; intros skip s Hskip Hlt; cbn in Hlt; [lia|].
  cbn [file_regions]. destruct (Z.ltb_spec 0 (f_len f - skip `min` f_len f)) as [Ha|Ha]; cbn [andb].
  - rewrite (proj2 (Z.ltb_lt 0 len)) by done. intros (fd & [s1 buf] & Eo & Er)%st_bind_inv.
    unfold on_fs in Eo. destruct (open_file _ s) as [s2 r]. injection Eo as -> <- ->.
    apply st_bind_inv in Er as (u & x2 & Er & _). unfold read_region, in_buffer in Er. cbn in Er.
    rewrite (proj2 (Z.leb_gt (_) 0)), andb_false_r in Er by lia. done.
  - apply IH; lia.
Qed.

(** A peer that asks for a block is never answered: the buffer handed to the disk
    manager has a capacity but no length, so the read panics at its first byte
    if the file opens. *)
Theorem requests_never_served (h : ShaHash) peer_info (r : RequestMessage) disk_request_map (c : @DiskManagerContext S) state :
  dc_torrents c !! hash h = Some state → m_info (ms_file state) = info → Forall (λ f, 0 ≤ f_len f)%Z (i_files info) →
  in_piece info (request_block h r) →
  ∃ load m', peer_manager_message h (Ok (ReceivedMessage peer_info (Request r))) disk_request_map = (m', Some (inr load)) ∧
  ∃ c' reports, (execute load c).1 = c' ∧ dc_out c' = dc_out c ++ reports ∧ ∀ b, BlockLoaded b ∉ reports.
Proof using.
  intros Hl Hi Hf Hm. eexists _, _. split; [reflexivity|]. cbn [execute]. unfold execute_load_block. cbn [BlockMut_new bmut_metadata bmut_block_data BlockMetadata_new bm_info_hash].
  rewrite Hl, Hi. fold (request_block h r). destruct (read_piece info (request_block h r) (dc_fs c, [])) as [[s buf] res] eqn:E.
  destruct res as [[]|e|f]; cbn.
  - unfold read_piece, run_with_file_regions in E. unfold in_piece, request_block, BlockMetadata_new in *. cbn in *. destruct Hm as (? & ? & ? & ? & ?).
    apply st_bind_inv in E as (start & x1 & E1 & E). unfold st_res, u64_mul in E1. destruct (_ <=? u64_max)%Z in E1; [|done]. injection E1 as <- <-.
    apply st_bind_inv in E as (skip & x2 & E2 & E). unfold st_res, u64_add in E2. destruct (_ <=? u64_max)%Z in E2; [|done]. injection E2 as <- <-.
    apply empty_buffer_regions in E; [done|done| |done|unfold total_size in *; lia].
    apply Z.add_nonneg_nonneg; [apply Z.mul_nonneg_nonneg; lia|done].
  - eexists _, [_]. split; [reflexivity|]. split; [reflexivity|]. intros b Hb%list_elem_of_singleton. done.
  - eexists _, []. split; [reflexivity|]. rewrite app_nil_r. split; [reflexivity|]. intros b Hb. by apply not_elem_of_nil in Hb.
Qed.
End Serving.

(** * A download from an honest peer *)

(** The selection has an unchoked peer and [k] requests outstanding. *)
Record active (p : PeerInfo) (k : nat) (s : selection) : Prop := {
  av_peer : optional_peer s = Some p;
  av_unchoked : is_unchoked s = true;
  av_pending : pending_blocks s = k;
  av_max : k ≤ MAX_PENDING_BLOCKS
}.

(** As many requests as allowed are out. *)
Definition saturated (s : selection) : Prop := pending_blocks s = MAX_PENDING_BLOCKS ∨ piece_requests s = [].

Lemma turn_active p k total_pieces state s s1 control : selection_update state s = Ok (s1, control) → sent_requests control = [] →
  active p k s1 → piece_requests s1 = piece_requests s → current_pieces s1 ≠ total_pieces →
  ∃ s' messages, selection_turn total_pieces state s = Ok (s', Send messages) ∧ active p (k + length (sent_requests messages)) s' ∧ saturated s' ∧
    piece_requests s = sent_requests messages ++ piece_requests s' ∧ current_pieces s' = current_pieces s1.
Proof.
  intros Eu Ec [Hp Hu Hk Hm] Er Hne. unfold selection_turn. rewrite Eu. cbn [mbind res_bind]. rewrite (proj2 (Nat.eqb_neq _ _)), Hp by done.
  destruct (next_requests_spec p s1) as (s' & q & -> & Eq & Eq' & Hle & Ep & Eun & Ecur & Hsat); [lia|]. cbn.
  exists s', (control ++ ((λ r, SendMessage p 0 (Request r)) <$> q)).
  assert (sent_requests (control ++ ((λ r, SendMessage p 0 (Request r)) <$> q)) = q) as ->.
  { pose proof (sent_requests_fmap p q) as Hq. unfold sent_requests in *. by rewrite omap_app, Ec, Hq. }
  split; [done|]. split; [split; try congruence; lia|]. split; [by apply Hsat|]. split; [congruence|done].
Qed.

Lemma turn_processed p k total_pieces s : active p (S k) s → current_pieces s ≠ total_pieces →
  ∃ s' messages, selection_turn total_pieces PS_BlockProcessed s = Ok (s', Send messages) ∧
    active p (k + length (sent_requests messages)) s' ∧ saturated s' ∧
    piece_requests s = sent_requests messages ++ piece_requests s' ∧ current_pieces s' = current_pieces s.
Proof.
  intros [Hp Hu Hk Hm] Hne. destruct s as [requests peer unchoked pending current]. cbn in Hp, Hu, Hk, Hne. subst.
  apply (turn_active p k total_pieces PS_BlockProcessed _ (Build_selection requests (Some p) true k current) []);
    [done|done|split; cbn; (done || lia)|done|done].
Qed.

Lemma turn_good p k total_pieces s i : active p k s → (i ≤ u32_max)%Z → S (current_pieces s) ≠ total_pieces →
  ∃ s' messages, selection_turn total_pieces (PS_GoodPiece i) s = Ok (s', Send messages) ∧
    active p (k + length (sent_requests messages)) s' ∧ saturated s' ∧
    piece_requests s = sent_requests messages ++ piece_requests s' ∧ current_pieces s' = S (current_pieces s).
Proof.
  intros [Hp Hu Hk Hm] Hi Hne. destruct s as [requests peer unchoked pending current]. cbn in Hp, Hu, Hk, Hne. subst.
  destruct (turn_active p k total_pieces (PS_GoodPiece i) (Build_selection requests (Some p) true k current)
    (Build_selection requests (Some p) true k (current + 1)) [SendMessage p 0 (Have {| have_piece_index := i |})]) as (s' & messages & E & R);
    [cbn; unfold unwrap_u32; by rewrite (proj2 (Z.leb_le _ _))|done|done|done|cbn; lia|].
  exists s', messages. split; [done|]. cbn in R. rewrite Nat.add_1_r in R. done.
Qed.

(** A block of [p] was processed and completed the pieces [new], none or one. *)
Lemma block_heard p k total_pieces s new : active p (S k) s → saturated s → current_pieces s ≠ total_pieces →
  (new = [] ∨ ∃ i, new = [i] ∧ (i ≤ u32_max)%Z) →
  let '(s', sent, e) := handle_selection_messages total_pieces ((λ st, (st, None)) <$> (PS_GoodPiece <$> new) ++ [PS_BlockProcessed]) s in
  current_pieces s' = current_pieces s + length new ∧
  if decide (current_pieces s + length new = total_pieces) then e = Downloaded ∧ piece_requests s' = piece_requests s ∧ sent = []
  else e = ChannelClosed ∧ active p (k + length (sent_requests sent)) s' ∧ saturated s' ∧ piece_requests s = sent_requests sent ++ piece_requests s'.
Proof.
  intros Ha Hs Hne [->|(i & -> & Hi)]; cbn [fmap list_fmap app handle_selection_messages length].
  - destruct (turn_processed p k total_pieces s Ha Hne) as (s' & messages & -> & Ha' & Hs' & Er & Ec). rewrite Nat.add_0_r, decide_False, app_nil_r by done.
    by split_and!.
  - rewrite Nat.add_1_r. destruct (decide (S (current_pieces s) = total_pieces)) as [Et|Et].
    + destruct s as [requests peer unchoked pending current]. cbn in *. destruct Ha as [Hp _ _ _]. cbn in Hp. subst peer.
      unfold selection_turn. cbn. unfold unwrap_u32. rewrite (proj2 (Z.leb_le _ _)) by done. cbn. rewrite Nat.add_1_r, (proj2 (Nat.eqb_eq _ _)) by done. done.
    + destruct (turn_good p (S k) total_pieces s i Ha Hi Et) as (s1 & m1 & -> & Ha1 & Hs1 & Er1 & Ec1).
      destruct (turn_processed p (k + length (sent_requests m1)) total_pieces s1 Ha1) as (s' & m2 & -> & Ha' & Hs' & Er & Ec); [congruence|].
      unfold sent_requests in *. rewrite app_nil_r, !omap_app, length_app. split; [congruence|]. split; [done|].
      split; [by rewrite Nat.add_assoc|]. split; [done|]. by rewrite Er1, Er, <- app_assoc.
Qed.

Section Session.
Context {S F : Type} `{!FileSystem S F} `{!FsLaws S F} `{HashOrder} `{Sha1} (info : Info) (Hwf : torrent_wf info)
  (Hlens : Forall (λ f, 0 ≤ f_len f)%Z (i_files info))
  (Hpl : (i_piece_len info ≤ u32_max + 1)%Z) (Hn : (Z.of_nat (length (i_pieces info)) ≤ u32_max + 1)%Z)
  (content : bytes) (Hlen : Z.of_nat (length content) = total_size info)
  (Hhash : ∀ k, (0 ≤ k)%Z → (k * i_piece_len info < total_size info)%Z →
     i_pieces info !! Z.to_nat k = Some (sha1 (take (Z.to_nat (i_piece_len info)) (drop (Z.to_nat (k * i_piece_len info)) content))))
  (p : PeerInfo).
Abbreviation h := (i_info_hash info).
Abbreviation total_pieces := (length (i_pieces info)).

(** The client with the requests that its peer has not answered yet. *)
Record simple_client := {
  cl_disk : @DiskManagerContext S;
  cl_select : selection;
  cl_flight : list RequestMessage;
  cl_over : bool
}.

(** What the selection makes of messages; a panic or a failed send is no state. *)
Definition hear (disk : DiskManagerContext) (flight : list RequestMessage) (states : list PeerSelectionState) (s : selection) : option simple_client :=
  match handle_selection_messages total_pieces ((λ st, (st, None)) <$> states) s with
  | (s, sent, ChannelClosed) => Some {| cl_disk := disk; cl_select := s; cl_flight := flight ++ sent_requests sent; cl_over := false |}
  | (s, sent, Downloaded) => Some {| cl_disk := disk; cl_select := s; cl_flight := flight ++ sent_requests sent; cl_over := true |}
  | _ => None
  end.

Definition to_selection {A} (message : PeerSelectionState + A) : option PeerSelectionState :=
  match message with inl st => Some st | inr _ => None end.

(** The peer answers the request [i] with the bytes of the torrent: the message
    goes to the disk manager, its reports go to the selection. *)
Definition answer_request (i : nat) (cl : simple_client) : option simple_client :=
  if cl_over cl then None else
  r ← cl_flight cl !! i;
  let piece := {| pc_piece_index := req_piece_index r; pc_block_offset := req_block_offset r;
                  pc_block := content_of info content (request_block h r) |} in
  match (peer_manager_message h (Ok (ReceivedMessage p (Piece piece))) ∅).2 with
  | Some (inr message) =>
      match execute message (cl_disk cl) with
      | (disk, Ok _) =>
          let reports := drop (length (dc_out (cl_disk cl))) (dc_out disk) in
          let states := omap to_selection (handle_disk_manager_messages ((λ o, (Ok o, true)) <$> reports) ∅).1 in
          hear disk (delete i (cl_flight cl)) states (cl_select cl)
      | _ => None
      end
  | _ => None
  end.

Definition exchange (cl cl' : simple_client) : Prop := ∃ i, answer_request i cl = Some cl'.

(** The torrent is added, nothing of it is there; the peer connects and unchokes. *)
Definition client_start (fuel : nat) (disk : DiskManagerContext) : option simple_client :=
  match generate_piece_requests fuel info (16 * 1024) with
  | Ok requests => hear disk [] [PS_NewPeer p; PS_UnChoke p] (selection_start requests 0)
  | _ => None
  end.

Record session (R : list BlockMetadata) (cl : simple_client) (D : list BlockMetadata) (goods : list Z) : Prop := {
  ss_disk : ∃ state, progress info content (cl_disk cl) state D goods;
  ss_perm : D ++ (request_block h <$> cl_flight cl ++ piece_requests (cl_select cl)) ≡ₚ R;
  ss_current : current_pieces (cl_select cl) = length goods;
  ss_over : cl_over cl = bool_decide (length goods = total_pieces);
  ss_active : cl_over cl = false → active p (length (cl_flight cl)) (cl_select cl) ∧ saturated (cl_select cl)
}.

Section Steps.
Context (R : list BlockMetadata) (HR : Forall (own_block info) R) (Ho : ForallOrdPairs no_overlap R)
  (Hfull : ∀ k, (0 ≤ k < Z.of_nat total_pieces)%Z → full info R k).

Lemma no_overlap_sym a b : no_overlap a b → no_overlap b a.
Proof using. intros Hab E. apply apart_sym, Hab. done. Qed.

Lemma full_perm D D' k : D ≡ₚ D' → full info D k → full info D' k.
Proof using.
  intros HD (H1 & H2 & Hx). split_and!; [done|done|]. intros x Hx'. apply Hx in Hx' as (m & [Ek Hm]%list_elem_of_filter & Hc).
  exists m. split; [|done]. apply list_elem_of_filter. by rewrite <- HD.
Qed.

(** All pieces are good when nothing is left to arrive, and not before. *)
Lemma goods_count c state D goods rest : progress info content c state D goods → D ++ rest ≡ₚ R →
  length goods = total_pieces ↔ rest = [].
Proof using Hwf Hlen HR Ho Hfull.
  intros Hp HD. assert (∀ k, k ∈ goods → k ∈ seqZ 0 (Z.of_nat total_pieces)) as Hin.
  { intros k Hk. apply (pg_goods _ _ _ _ _ _ Hp), (pg_done _ _ _ _ _ _ Hp) in Hk as [(H1 & H2 & _) _]. apply elem_of_seqZ.
    destruct (proj1 (valid_piece info Hwf k)); [done|lia]. }
  split.
  - intros El. destruct rest as [|m rest]; [done|exfalso].
    assert (goods ≡ₚ seqZ 0 (Z.of_nat total_pieces)) as Hall.
    { apply submseteq_length_Permutation; [apply NoDup_submseteq; [apply Hp|done]|]. rewrite length_seqZ. lia. }
    assert (own_block info m) as [_ Hm]. { apply (proj1 (Forall_forall _ _) HR). rewrite <- HD. apply elem_of_app. right. by left. }
    assert (bm_piece_index m ∈ goods) as Hg.
    { rewrite Hall. apply elem_of_seqZ. rewrite Z.add_0_l. apply (valid_piece info Hwf). destruct Hm as (? & ? & ? & ? & ?). unfold piece_size. lia. }
    apply (pg_goods _ _ _ _ _ _ Hp), (pg_done _ _ _ _ _ _ Hp) in Hg as [Hf _]. revert Hf. apply not_full_apart; [done|].
    apply (no_overlap_apart D m rest). by apply (ForallOrdPairs_perm no_overlap R); [apply no_overlap_sym|by symmetry|].
  - intros ->. rewrite app_nil_r in HD. rewrite (progress_full info Hwf content c state D goods Hp), length_seqZ; [lia|].
    intros k Hk. apply (full_perm R); [by symmetry|by apply Hfull].
Qed.

(** The reports of the disk manager as the selection hears them. *)
Lemma reports_heard (new : list Z) b (disk_request_map : request_map) :
  omap to_selection (handle_disk_manager_messages ((λ o, (Ok o, true)) <$> (FoundGoodPiece h <$> new) ++ [BlockProcessed b]) disk_request_map).1 =
    (PS_GoodPiece <$> new) ++ [PS_BlockProcessed].
Proof using.
  induction new as [|k new IH]; [done|]. cbn [fmap list_fmap app handle_disk_manager_messages disk_manager_message].
  destruct (handle_disk_manager_messages _ _) as [sent r]. cbn in *. by rewrite IH.
Qed.

Lemma flight_split i r (l : list RequestMessage) rest : l !! i = Some r →
  request_block h <$> l ++ rest ≡ₚ request_block h r :: (request_block h <$> delete i l ++ rest).
Proof using. intros Hi. rewrite (delete_Permutation l i r Hi) at 1. done. Qed.

Lemma answer_processes i cl r : cl_over cl = false → cl_flight cl !! i = Some r → in_piece info (request_block h r) →
  answer_request i cl = match execute (ProcessBlock (content_block info content (request_block h r))) (cl_disk cl) with
    | (disk, Ok _) => hear disk (delete i (cl_flight cl))
        (omap to_selection (handle_disk_manager_messages ((λ o, (Ok o, true)) <$> drop (length (dc_out (cl_disk cl))) (dc_out disk)) ∅).1) (cl_select cl)
    | _ => None
    end.
Proof using Hwf Hlen.
  intros Hov Hi Hm. unfold answer_request. rewrite Hov, Hi. cbn [mbind option_bind]. cbn [peer_manager_message snd pc_piece_index pc_block_offset pc_block].
  by rewrite (length_content_of info Hwf content Hlen _ Hm).
Qed.

Lemma session_step cl D goods i r : session R cl D goods → cl_over cl = false → cl_flight cl !! i = Some r →
  ∃ cl' goods', answer_request i cl = Some cl' ∧ session R cl' (D ++ [request_block h r]) goods'.
Proof using Hwf Hlen Hhash Hn HR Ho Hfull.
  intros [(state & Hp) Hperm Hcur Hov Hact] Hover Hi. destruct (Hact Hover) as [Ha Hsat]. rewrite Hover in Hov. symmetry in Hov. apply bool_decide_eq_false in Hov.
  set (m := request_block h r) in *. pose proof Hperm as Hperm'. rewrite (flight_split i r _ _ Hi) in Hperm'. fold m in Hperm'.
  assert (own_block info m) as [Hh Hm]. { apply (proj1 (Forall_forall _ _) HR). rewrite <- Hperm'. apply elem_of_app. right. by left. }
  assert (ForallOrdPairs no_overlap (D ++ m :: (request_block h <$> delete i (cl_flight cl) ++ piece_requests (cl_select cl)))) as Ho'.
  { by apply (ForallOrdPairs_perm no_overlap R); [apply no_overlap_sym|symmetry|]. }
  destruct (progress_step info Hwf content Hlen Hhash (cl_disk cl) state D goods m Hp Hh Hm (no_overlap_apart _ _ _ Ho'))
    as (disk & state' & new & Erun & Eout & Hp' & Hnew).
  assert (length (cl_flight cl) = Datatypes.S (length (delete i (cl_flight cl)))) as Elen.
  { by rewrite (delete_Permutation _ _ _ Hi) at 1. }
  rewrite Elen in Ha. rewrite (answer_processes i cl r Hover Hi Hm). fold m. rewrite Erun, Eout, drop_app_length, reports_heard. unfold hear.
  pose proof (block_heard p _ total_pieces (cl_select cl) new Ha Hsat) as Hhear. rewrite Hcur in Hhear. specialize (Hhear Hov).
  destruct (handle_selection_messages _ _ _) as [[s' sent] e]. destruct Hhear as [Hc He].
  { destruct Hnew as [->| ->]; [by left|right]. eexists. split; [done|]. destruct (proj1 (valid_piece info Hwf (bm_piece_index m))); [|lia].
    destruct Hm as (? & ? & ? & ? & ?). unfold piece_size. lia. }
  assert (length (goods ++ new) = length goods + length new) as Eg by apply length_app.
  destruct (decide (length goods + length new = total_pieces)) as [Et|Et]; destruct He as (-> & He); eexists _, (goods ++ new); (split; [reflexivity|]).
  - destruct He as [Er ->]. split; cbn; [by exists state'| |lia|by rewrite Eg, bool_decide_true|done]. rewrite app_nil_r, Er, <- app_assoc. done.
  - destruct He as (Ha' & Hs' & Er). split; cbn; [by exists state'| |lia|by rewrite Eg, bool_decide_false|].
    + rewrite <- !app_assoc, <- Er. done.
    + intros _. by rewrite length_app.
Qed.

Lemma session_run cl0 cl j D goods : nsteps exchange j cl0 cl → session R cl0 D goods →
  ∃ D' goods', session R cl D' goods' ∧ length D' = j + length D.
Proof using Hwf Hlen Hhash Hn HR Ho Hfull.
  intros Hrun. revert D goods. induction Hrun as [cl|j cl cl1 cl2 [i Hi] _ IH]; intros D goods Hs; [by exists D, goods|].
  assert (cl_over cl = false) as Hov by (unfold answer_request in Hi; by destruct (cl_over cl)).
  destruct (cl_flight cl !! i) as [r|] eqn:Er; [|unfold answer_request in Hi; rewrite Hov, Er in Hi; done].
  destruct (session_step cl D goods i r Hs Hov Er) as (cl' & goods' & E & Hs'). rewrite Hi in E. injection E as <-.
  destruct (IH _ _ Hs') as (D2 & goods2 & H2 & E2). exists D2, goods2. split; [done|]. rewrite E2, length_app. cbn. lia.
Qed.

Lemma session_ends cl D goods : session R cl D goods → length (cl_flight cl) ≤ MAX_PENDING_BLOCKS ∧
  if cl_over cl then length D = length R ∧ flat info (fs_view (dc_fs (cl_disk cl))) (i_files info) = content
  else length D < length R ∧ cl_flight cl ≠ [].
Proof using Hwf Hlen HR Ho Hfull.
  intros [(state & Hp) Hperm _ Hov Hact]. pose proof (goods_count _ _ _ _ _ Hp Hperm) as Hcount. rewrite Hov. pose proof (Permutation_length Hperm) as El.
  rewrite length_app, length_fmap, length_app in El. destruct (bool_decide_reflect (length goods = total_pieces)) as [Ht|Ht].
  - apply Hcount in Ht as Hnil. apply fmap_nil_inv, app_nil in Hnil as [E1 E2]. rewrite E1, E2 in El. rewrite E1. cbn in El. split; [cbn; lia|]. split; [lia|].
    apply (progress_content info Hwf content Hlen _ state D goods Hp). intros k Hk. apply (full_perm R); [|by apply Hfull].
    apply Hcount in Ht. rewrite Ht, app_nil_r in Hperm. by symmetry.
  - destruct (Hact Hov) as [[_ _ Ep Hm] Hs]. split; [done|].
    assert (cl_flight cl ≠ []) as Hne.
    { intros E. destruct Hs as [Hs|Hs]; [rewrite Hs, E in Ep; done|]. apply Ht, Hcount. by rewrite E, Hs. }
    split; [|done]. destruct (cl_flight cl); [done|]. cbn in El. lia.
Qed.
End Steps.

Lemma session_start fuel disk state : i_pieces info ≠ [] → total_pieces < fuel → torrent_ready disk state → m_info (ms_file state) = info →
  dc_torrents disk !! hash h = Some state → (∀ k, pending_of (ms_checker state) k = []) → (∀ k, Good k ∉ pc_old_states (ms_checker state)) →
  ∃ requests cl, generate_piece_requests fuel info (16 * 1024) = Ok requests ∧ client_start fuel disk = Some cl ∧
    let R := request_block h <$> requests in
    Forall (own_block info) R ∧ ForallOrdPairs no_overlap R ∧ (∀ k, (0 ≤ k < Z.of_nat total_pieces)%Z → full info R k) ∧ session R cl [] [].
Proof using Hwf Hlens Hpl Hn Hhash.
  intros Hne Hf Hr Hi Hl Hpend Hold. destruct (generate_tiles info Hwf Hlens (16 * 1024) eq_refl Hpl Hn h fuel Hf) as (requests & E & El).
  assert (0 ≠ total_pieces) as Hz by (by destruct (i_pieces info)).
  unfold client_start, hear. rewrite E. cbn [fmap list_fmap handle_selection_messages]. unfold selection_turn at 1. cbn [selection_start selection_update mbind res_bind].
  cbn [current_pieces optional_peer]. rewrite (proj2 (Nat.eqb_neq _ _)) by done. cbn [next_piece_requests is_unchoked negb mbind res_bind].
  destruct (turn_active p 0 total_pieces (PS_UnChoke p) (Build_selection requests (Some p) false 0 0) (Build_selection requests (Some p) true 0 0) [])
    as (s' & messages & -> & Ha & Hs & Er & Ec); [done|done|split; cbn; (done || lia)|done|done|].
  eexists requests, _. split; [done|]. split; [reflexivity|]. cbv zeta. rewrite El. split_and!.
  - apply Forall_forall. intros m Hm. by destruct (torrent_tiles_in info Hwf (16 * 1024) eq_refl h 0 m (Z.le_refl 0) Hm) as (? & ? & _).
  - by apply (torrent_tiles_overlap info Hwf).
  - intros k. by apply (torrent_tiles_full info Hwf).
  - cbn in Er. unfold sent_requests in *. split; cbn.
    + exists state. by apply progress_start.
    + by rewrite app_nil_r, <- El, Er.
    + done.
    + by rewrite bool_decide_false.
    + by rewrite app_nil_r.
Qed.

(** The tasks download the torrent when they are handed the messages. *)
Lemma session_completes fuel disk state : i_pieces info ≠ [] → total_pieces < fuel → torrent_ready disk state → m_info (ms_file state) = info →
  dc_torrents disk !! hash h = Some state → (∀ k, pending_of (ms_checker state) k = []) → (∀ k, Good k ∉ pc_old_states (ms_checker state)) →
  ∃ requests cl0, generate_piece_requests fuel info (16 * 1024) = Ok requests ∧ client_start fuel disk = Some cl0 ∧
  ∀ j cl, nsteps exchange j cl0 cl →
    length (cl_flight cl) ≤ MAX_PENDING_BLOCKS ∧
    if cl_over cl then j = length requests ∧ flat info (fs_view (dc_fs (cl_disk cl))) (i_files info) = content
    else j < length requests ∧ cl_flight cl ≠ [] ∧ ∀ i, i < length (cl_flight cl) → ∃ cl', answer_request i cl = Some cl'.
Proof using Hwf Hlens Hpl Hn Hlen Hhash.
  intros Hne Hf Hr Hi Hl Hpend Hold.
  destruct (session_start fuel disk state Hne Hf Hr Hi Hl Hpend Hold) as (requests & cl0 & E & Ec & HR & Ho & Hfull & Hs).
  exists requests, cl0. split; [done|]. split; [done|]. intros j cl Hrun.
  destruct (session_run _ HR Ho Hfull cl0 cl j [] [] Hrun Hs) as (D & goods & Hs' & Ej). rewrite Nat.add_0_r in Ej. subst j.
  destruct (session_ends _ HR Ho Hfull cl D goods Hs') as [Hmax Hend]. rewrite length_fmap in Hend. split; [done|].
  destruct (cl_over cl) eqn:Eover; [done|]. destruct Hend as [H1 H2]. split_and!; [done|done|]. intros i Hi'.
  apply lookup_lt_is_Some in Hi' as [r Er]. destruct (session_step _ HR Ho Hfull cl D goods i r Hs' Eover Er) as (cl' & _ & Ea & _). eauto.
Qed.

(** * The same tasks behind the codec *)

(** A message of a peer comes out of the codec of its connection. *)
Definition from_codec `{NM : Nom} `{BO : ByteOrder} (result : @output Message) : Prop :=
  match result with
  | Ok (ReceivedMessage _ m) => ∃ c c' src src', codec_decode (P := PeerWireProtocol NullProtocol) c src = (c', src', Ok (Some m))
  | _ => True
  end.

(** Messages that neither unchoke us nor tell of a good piece. *)
Definition idle_state (st : PeerSelectionState) : Prop := match st with PS_UnChoke _ | PS_GoodPiece _ => False | _ => True end.

Lemma idle_turn st s : idle_state st → is_unchoked s = false → current_pieces s ≠ total_pieces →
  match selection_turn total_pieces st s with
  | Ok (_, Break) => False
  | Ok (s', Continue) => is_unchoked s' = false ∧ current_pieces s' = current_pieces s
  | Ok (s', Send messages) => is_unchoked s' = false ∧ current_pieces s' = current_pieces s ∧ sent_requests messages = []
  | _ => True
  end.
Proof using.
  intros Hi Hu Hc. destruct s as [requests peer unchoked pending current]. cbn in Hu, Hc. subst unchoked.
  unfold selection_turn. destruct st; try done; cbn [selection_update mbind res_bind]; [.. |destruct pending; [done|]| | |]; cbn [mbind res_bind current_pieces];
    (rewrite (proj2 (Nat.eqb_neq _ _)) by done); cbn [optional_peer]; try (destruct peer); done.
Qed.

Lemma idle_selection receiver : ∀ s, Forall (λ x, idle_state x.1) receiver → is_unchoked s = false → current_pieces s ≠ total_pieces →
  let '(_, messages, e) := handle_selection_messages total_pieces receiver s in sent_requests messages = [] ∧ e ≠ Downloaded.
Proof using.
  induction receiver as [|[st failed] rest IH]; intros s Hi Hu Hc; [done|]. apply Forall_cons in Hi as [Hst Hi].
  cbn [handle_selection_messages]. pose proof (idle_turn st s Hst Hu Hc) as Ht. destruct (selection_turn total_pieces st s) as [[s1 [| |messages]]|[]|f]; [done|..].
  - destruct Ht as [H1 H2]. apply IH; [done|done|congruence].
  - destruct Ht as (H1 & H2 & H3). destruct failed as [k|].
    + split; [|done]. unfold sent_requests in *. rewrite <- (take_drop k messages), omap_app in H3. by apply app_nil in H3 as [? _].
    + specialize (IH s1 Hi H1 ltac:(congruence)). destruct (handle_selection_messages total_pieces rest s1) as [[s2 sent] e].
      destruct IH as [H4 H5]. split; [|done]. unfold sent_requests in *. by rewrite omap_app, H3, H4.
  - done.
Qed.

Lemma wire_message_idle `{NM : Nom} `{BO : ByteOrder} result requested : from_codec result →
  match (peer_manager_message h result requested).2 with Some (inl st) => idle_state st | Some (inr _) => False | None => True end.
Proof using.
  destruct result as [[p'|p'|p' mid|p' m|p']|[]|f]; try done. intros (c & c' & src & src' & Hd). by apply decoded_keep_alive in Hd as ->.
Qed.

Lemma wire_messages_idle `{NM : Nom} `{BO : ByteOrder} items : ∀ requested, Forall (λ x, from_codec x.1) items →
  let sent := (handle_peer_manager_messages h items requested).2 in
  (∀ m, inr m ∉ sent) ∧ Forall idle_state (omap to_selection sent).
Proof using.
  induction items as [|[result accepted] items IH]; intros requested Hi; [by split; [intros m ?%not_elem_of_nil|]|].
  apply Forall_cons in Hi as [Hr Hi]. cbn [handle_peer_manager_messages]. pose proof (wire_message_idle result requested Hr) as Hm.
  destruct (peer_manager_message h result requested) as [requested1 [[st|m]|]]; [|done|by apply IH]. cbn [snd] in Hm.
  specialize (IH requested1 Hi). destruct accepted; [|by split; [intros m ?%not_elem_of_nil|]].
  destruct (handle_peer_manager_messages h items requested1) as [requested2 sent]. destruct IH as [H1 H2]. cbn [snd]. split.
  - intros m [?|?]%elem_of_cons; [done|by eapply H1].
  - by constructor.
Qed.

(** Claim C5. The tasks of the client between its managers (requests, selection, disk
    tasks and what they tell each other).  Handed the parsed messages of a peer that
    unchokes them and answers their requests with the bytes of the torrent, in any
    order, they are never stuck, have at most fifty requests open, and after exactly
    as many answers as there are requests they end with all pieces found good and
    the torrent in the files, on a file system without I/O errors.  The codec and the peer manager are not in that run,
    and the codec does not hand over such messages: it decodes every frame as a
    keep-alive.  With what it makes of the bytes of peers, whatever those are, no
    block reaches the disk manager, no request is ever sent and the download does
    not end. *)
Theorem tasks_download `{NM : Nom} `{BO : ByteOrder} fuel disk state :
  i_pieces info ≠ [] → total_pieces < fuel → torrent_ready disk state → m_info (ms_file state) = info →
  dc_torrents disk !! hash h = Some state → (∀ k, pending_of (ms_checker state) k = []) → (∀ k, Good k ∉ pc_old_states (ms_checker state)) →
  (∃ requests cl0, generate_piece_requests fuel info (16 * 1024) = Ok requests ∧ client_start fuel disk = Some cl0 ∧
   ∀ j cl, nsteps exchange j cl0 cl →
     length (cl_flight cl) ≤ MAX_PENDING_BLOCKS ∧
     if cl_over cl then j = length requests ∧ flat info (fs_view (dc_fs (cl_disk cl))) (i_files info) = content
     else j < length requests ∧ cl_flight cl ≠ [] ∧ ∀ i, i < length (cl_flight cl) → ∃ cl', answer_request i cl = Some cl') ∧
  (∀ items, Forall (λ x, from_codec x.1) items →
   let sent := (handle_peer_manager_messages h items ∅).2 in
   (∀ m, inr m ∉ sent) ∧
   ∀ requests receiver, receiver.*1 = omap to_selection sent →
     let '(_, messages, e) := handle_selection_messages total_pieces receiver (selection_start requests 0) in
     sent_requests messages = [] ∧ e ≠ Downloaded).
Proof using Hwf Hlens Hpl Hn Hlen Hhash.
  intros Hne Hf Hr Hi Hl Hpend Hold. split; [by apply (session_completes fuel disk state)|]. intros items Hitems.
  destruct (wire_messages_idle items ∅ Hitems) as [Hd Hs]. split; [done|]. intros requests receiver E.
  apply idle_selection; [|done|].
  - rewrite <- E in Hs. exact (proj1 (Forall_fmap _ _ _) Hs).
  - cbn. intros Ez. apply Hne. by apply nil_length_inv.
Qed.
End Session.

(** * The sample torrent *)

Local Existing Instance toy_sha1.
Local Existing Instance hash_order_lists.

Definition simple_peer : PeerInfo := PeerInfo_new default_route_v4 (replicate 20 1%Z) (i_info_hash sample_torrent) Extensions_new.

Lemma requests_cover_witness : ∃ requests, generate_piece_requests 3 sample_torrent 2 = Ok requests ∧
  ForallOrdPairs no_overlap (request_block (i_info_hash sample_torrent) <$> requests).
Proof.
  destruct (requests_cover_torrent sample_torrent sample_wf) with (bs := 2%Z) (fuel := 3) as (requests & E & _ & _ & Ho & _).
  - repeat constructor; done.
  - done.
  - done.
  - done.
  - simpl. lia.
  - exists requests. split; [exact E|exact Ho].
Defined.

Lemma requests_sent_witness :
  let s := {| piece_requests := [{| req_piece_index := 0; req_block_offset := 0; req_block_length := 4 |}]; optional_peer := None;
              is_unchoked := false; pending_blocks := 0; current_pieces := 0 |}%Z in
  pending_blocks s ≤ MAX_PENDING_BLOCKS ∧
  pending_blocks (handle_selection_messages 2 [(PS_NewPeer simple_peer, None); (PS_UnChoke simple_peer, None)] s).1.1 ≤ MAX_PENDING_BLOCKS.
Proof.
  intros s. assert (pending_blocks s ≤ MAX_PENDING_BLOCKS) as Hs by (unfold MAX_PENDING_BLOCKS; simpl; lia). split; [exact Hs|].
  pose proof (requests_sent_once 2 [(PS_NewPeer simple_peer, None); (PS_UnChoke simple_peer, None)] s Hs) as Ht.
  destruct (handle_selection_messages _ _ s) as [[s' sent] e]. exact (proj1 Ht).
Defined.

Lemma tasks_download_witness : ∃ requests cl0,
  generate_piece_requests 3 sample_torrent (16 * 1024) = Ok requests ∧ client_start sample_torrent simple_peer 3 sample_added = Some cl0 ∧
  length (cl_flight cl0) ≤ MAX_PENDING_BLOCKS ∧
  let '(_, messages, e) := handle_selection_messages 2 [(PS_NewPeer simple_peer, None)] (selection_start requests 0) in
  sent_requests messages = [] ∧ e ≠ Downloaded.
Proof.
  destruct (tasks_download sample_torrent sample_wf) with (NM := nom_lists) (BO := byteorder_lists) (content := [1; 2; 3; 4; 5; 6; 7]%Z) (p := simple_peer) (fuel := 3)
    (disk := sample_added) (state := sample_state) as [(requests & cl0 & E & Ec & Hrun) Hwire].
  - repeat constructor; done.
  - done.
  - done.
  - done.
  - apply sample_hashes.
  - done.
  - simpl. lia.
  - apply sample_ready.
  - by vm_compute.
  - by vm_compute.
  - apply sample_fresh.
  - apply sample_fresh.
  - exists requests, cl0. split; [exact E|]. split; [exact Ec|]. split; [apply (Hrun 0 cl0); constructor|].
    destruct (Hwire [(Ok (PeerAdded simple_peer), true)]) as [_ Hs]; [by repeat constructor|].
    exact (Hs requests [(PS_NewPeer simple_peer, None)] eq_refl).
Defined.

(** Two answers, the last request first. *)
Example sample_torrent_downloaded :
  let step i o := o ≫= answer_request sample_torrent [1; 2; 3; 4; 5; 6; 7]%Z simple_peer i in
  cl_over <$> step 0 (step 1 (client_start sample_torrent simple_peer 3 sample_added)) = Some true.
Proof. by vm_compute. Qed.

Lemma requests_never_served_witness : ∃ c' reports,
  (execute (LoadBlock (BlockMut_new (BlockMetadata_new (i_info_hash sample_torrent) 0 0 4) [])) sample_added).1 = c' ∧
  dc_out c' = dc_out sample_added ++ reports ∧ ∀ b, BlockLoaded b ∉ reports.
Proof.
  destruct (requests_never_served sample_torrent (i_info_hash sample_torrent) simple_peer
    {| req_piece_index := 0; req_block_offset := 0; req_block_length := 4 |} ∅ sample_added sample_state) as (load & m' & Em & Hc).
  - by vm_compute.
  - by vm_compute.
  - repeat constructor; done.
  - unfold in_piece. vm_compute. split_and!; (done || discriminate).
  - injection Em as <- <-. exact Hc.
Defined.

Lemma empty_pieces_witness : let info := {| i_info_hash := zero_hash; i_files := [{| f_len := 3; f_path := []; f_md5sum := None |}]; i_pieces := [];
    i_piece_len := 0; i_is_private := None; i_file_directory := None |} in
  generate_piece_requests 1000 info (16 * 1024) = Panic OutOfFuel.
Proof. intros info. apply (empty_pieces_never_end info); [done|repeat constructor; done|by split|done|done]. Defined.
