(* ===== verification/GetMetadata.v ===== *)
(** examples/get_metadata/src/main.rs: a program that asks for the metadata of
    an info hash and writes it to a file, put together from the handshaker, the
    peer manager, the joined module with the metadata module in it, and the DHT.

    A task is a loop over what arrives in a channel, an item with what sending
    its message does.  A panic ends the task it happens in; if it happens while a
    module is locked the lock is poisoned and the main loop panics too.  Printing
    and the signal handler are left out. *)

From stdpp Require Import base numbers strings gmap list.
From S2P Require Import Worker Handshake Framed Handler Handshaker Prelude RustStd Extern Io Convert Sha Path Bencode Metainfo Float Hasher MetaBuild PeerStandard PeerExtended PeerWire Reveal PeerManager UtModule Uber.

(** [PeerWireProtocol<PeerExtensionProtocol<NullProtocol>>]: its messages are
    messages of the manager. *)
Definition Message : Type := PeerWireProtocolMessage (PeerExtensionProtocolMessage NullProtocolMessage io_error) PeerExtensionProtocolMessageError.
#[export] Instance extension_managed : ManagedMessage Message :=
  {| managed_keep_alive := keep_alive; managed_is_keep_alive := is_keep_alive |}.

Abbreviation input := (@PeerManagerInputMessage Message).

(** * The handshaker given to the DHT *)

Record LegacyHandshaker := { lh_port : Z; lh_id : ShaHash; lh_sent : list InitiateMessage }.

(** The port and the id are those of the sink when it is wrapped. *)
Definition LegacyHandshaker_new (port : Z) (peer_id : ShaHash) : LegacyHandshaker := {| lh_port := port; lh_id := peer_id; lh_sent := [] |}.

(** The expected id is not used; [accepted] is what sending the message gives. *)
Definition lh_connect (expected : option ShaHash) (h : ShaHash) (addr : SocketAddr) (accepted : bool) (self : LegacyHandshaker)
    : res Empty_set LegacyHandshaker :=
  if accepted then
    Ok {| lh_port := lh_port self; lh_id := lh_id self;
          lh_sent := lh_sent self ++ [{| im_prot := Handshake.BitTorrent; im_hash := h; im_addr := addr |}] |}
  else Panic UnwrapNone.
Definition lh_metadata (data : ()) (self : LegacyHandshaker) : LegacyHandshaker := self.

(** * Arguments *)

Definition extract_arguments (infohash output : option bytes) : res Empty_set (bytes * bytes) :=
  h ← unwrap infohash; o ← unwrap output; Ok (h, o).

(** [from_hex] is that of the hex crate. *)
Definition hash_argument (from_hex : bytes → option bytes) (h : bytes) : res Empty_set ShaHash :=
  h ← unwrap (from_hex h); expect (ShaHash_from_hash h).

(** * The handshaker and the connections *)

Definition handshaker_builder `{Sha1} (seed : Z) : HandshakerBuilder :=
  with_config (with_connect_timeout 500 HandshakerConfig_default)
    (with_extensions (Extensions_add Extensions_new ExtensionProtocol) (HandshakerBuilder_default seed)).

Definition peer_codec : PeerProtocolCodec (PeerWireProtocol (PeerExtensionProtocol NullProtocol)) :=
  with_max_payload (PeerWireProtocol_new (PeerExtensionProtocol_new NullProtocol_new)) (24 * 1024).

(** * The tasks *)

(** A handshake that is done becomes a peer of the manager. *)
Definition add_peer_message {E} (item : res E CompleteMessage) : res Empty_set input :=
  message ← expect item;
  if Extensions_contains (cm_ext message) ExtensionProtocol then
    Ok (AddPeer (PeerInfo_new (cm_addr message) (hash (cm_pid message)) (cm_hash message) (cm_ext message)))
  else Panic AssertFailed.

Fixpoint feed_peers {E} (items : list (res E CompleteMessage * bool)) : list input * res Empty_set () :=
  match items with
  | [] => ([], Ok ())
  | (item, accepted) :: items =>
      match add_peer_message item with
      | Ok m =>
          if accepted : bool then let '(sent, r) := feed_peers items in (m :: sent, r) else ([], Panic UnwrapNone)
      | Err e => match e with end
      | Panic f => ([], Panic f)
      end
  end.

Definition TICK : Z := 100 * 1000000.

(** What arrives from the manager, or [None] for the timer. *)
Definition to_uber (item : option (@output Message)) : res Empty_set IUberMessage :=
  match item with
  | Some (Ok (PeerAdded info)) => Ok (UbControl (CPeerConnected info))
  | Some (Ok (PeerRemoved info)) => Ok (UbControl (CPeerDisconnected info))
  | Some (Ok (SentMessage _ _)) => Panic AssertFailed
  | Some (Ok (ReceivedMessage info message)) =>
      match message with
      | BitsExtension (Extended extended) => Ok (UbExtended (ReceivedExtendedMessage info extended))
      | BitsExtension (Port _) => Panic AssertFailed
      | ProtExtension (inr (PeUtMetadata message)) => Ok (UbDiscovery (ReceivedUtMetadataMessage info message))
      | ProtExtension _ => Panic AssertFailed
      | _ => Panic AssertFailed
      end
  | Some (Ok (PeerDisconnect info)) => Ok (UbControl (CPeerDisconnected info))
  | Some (Err (PeerError info _ | PeerErrorAndMissing info _ | PeerRemovedAndMissing info | PeerDisconnectedAndMissing info)) =>
      Ok (UbControl (CPeerDisconnected info))
  | Some (Panic f) => Panic f
  | None => Ok (UbControl (CTick TICK))
  end.

Section Client.
Context `{HashOrder} `{Sha1} (sched : list actor).
#[local] Existing Instance ut_discovery.
Abbreviation module := (UberModule UtMetadataModule).

(** [uber_send.send(message)]: the message, then the flush. *)
Definition uber_send (message : IUberMessage) (waker : nat) (self : module) : module * res UberError () :=
  match uber_handle_message (Discovery0 := ut_discovery sched) message self with
  | (self, Ok _) =>
      match poll_discovery_flush (Discovery0 := ut_discovery sched) waker self with
      | (self, Ready r, _) => (self, r)
      | (self, Pending, _) => (self, Ok ())
      end
  | r => r
  end.

Definition uber_module : module :=
  UberModule_from_builder (with_discovery_module UtMetadataModule_new
    (with_extended_builder (Some ExtendedMessageBuilder_new) UberModuleBuilder_new)).

(** The module, whether the task that feeds it runs, and the metainfo once the
    main loop has it. *)
Record metadata_client := { cl_uber : module; cl_feeding : bool; cl_metainfo : option Metainfo }.

(** [None]: the download could not be asked for and the program ends. *)
Definition client_start (info_hash : ShaHash) (waker : nat) : res Empty_set (option metadata_client) :=
  match uber_send (UbDiscovery (DownloadMetainfo info_hash)) waker uber_module with
  | (self, Ok _) => Ok (Some {| cl_uber := self; cl_feeding := true; cl_metainfo := None |})
  | (_, Err _) => Ok None
  | (_, Panic f) => Panic f
  end.

Definition feed (item : option (@output Message)) (waker : nat) (self : metadata_client) : res Empty_set metadata_client :=
  if cl_feeding self then
    match to_uber item with
    | Ok message =>
        match uber_send message waker (cl_uber self) with
        | (u, Ok _) => Ok {| cl_uber := u; cl_feeding := true; cl_metainfo := cl_metainfo self |}
        | (u, Err _) => Ok {| cl_uber := u; cl_feeding := false; cl_metainfo := cl_metainfo self |}
        | (_, Panic f) => Panic f
        end
    | Err e => match e with end
    | Panic _ => Ok {| cl_uber := cl_uber self; cl_feeding := false; cl_metainfo := cl_metainfo self |}
    end
  else Ok self.

(** The main loop drops whatever is not the metainfo. *)
Definition await_metainfo (waker random : nat) (self : metadata_client) : res Empty_set metadata_client :=
  match cl_metainfo self with
  | Some _ => Ok self
  | None =>
      '(u, r, _) ← uber_poll_next (Discovery0 := ut_discovery sched) waker random (cl_uber self);
      Ok {| cl_uber := u; cl_feeding := cl_feeding self;
            cl_metainfo := match r with Ready (Some (Ok (OuDiscovery (DownloadedMetainfo metainfo)))) => Some metainfo | _ => None end |}
  end.

(** The events of the DHT up to the end of the bootstrap, after which the search
    starts; [false]: the stream ended before. *)
Fixpoint await_bootstrap (events : list DhtEvent) : list DhtEvent * bool :=
  match events with
  | [] => ([], false)
  | BootstrapCompleted :: events => (events, true)
  | _ :: events => await_bootstrap events
  end.

(** What is written to the file: [created] and [written] are the results of the
    system. *)
Definition write_output (metainfo : Metainfo) (created written : bool) : res Empty_set bytes :=
  if created then contents ← expect (Metainfo_to_bytes sched metainfo); if written then Ok contents else Panic UnwrapNone
  else Panic UnwrapNone.

Inductive client_event := ClItem (item : option (@output Message)) (waker : nat) | ClPoll (waker random : nat).

Definition client_step (e : client_event) (self : metadata_client) : res Empty_set metadata_client :=
  match e with
  | ClItem item waker => feed item waker self
  | ClPoll waker random => await_metainfo waker random self
  end.

Fixpoint client_run (es : list client_event) (self : metadata_client) : res Empty_set metadata_client :=
  match es with
  | [] => Ok self
  | e :: es => self ← client_step e self; client_run es self
  end.
End Client.
