(* ===== verification/GetMetadataProps.v ===== *)
(** The program that gets metadata: what it writes is the metadata that was asked
    for, if peers are honest; but it never sends a peer anything but keep-alives,
    takes every message for one, and so never gets any metadata. *)

From stdpp Require Import base numbers strings gmap list.
From S2P Require Import Worker Handshake Framed Handler Handshaker Prelude RustStd Extern Io Convert Sha Path Bencode Metainfo Float Hasher MetaBuild PeerStandard PeerExtended PeerWire PeerWireProps Reveal PeerManager PeerManagerProps UtModule UtProps Uber UberProps GetMetadata.

(** * What the modules keep, the program keeps *)

Section Keeps.
Context `{HashOrder} `{Sha1} (sched : list actor).
Context (P : UtMetadataModule → Prop) (item_ok : IDiscoveryMessage → Prop) (theirs_ok : peer_key → ExtendedMessage → Prop) (out_ok : ODiscoveryMessage → Prop).
Context (K : discovery_keeps (Discovery0 := ut_discovery sched) P item_ok theirs_ok out_ok).

Definition client_ok (c : metadata_client) : Prop :=
  uber_ok P theirs_ok (cl_uber c) ∧ ∀ m, cl_metainfo c = Some m → out_ok (DownloadedMetainfo m).

Definition client_event_ok (e : client_event) : Prop :=
  match e with ClItem item _ => ∀ m, to_uber item = Ok m → message_ok item_ok theirs_ok m | ClPoll _ _ => True end.

Lemma uber_send_keeps m waker u u' r : message_ok item_ok theirs_ok m → uber_ok P theirs_ok u →
  uber_send sched m waker u = (u', r) → (∀ f, r ≠ Panic f) → uber_ok P theirs_ok u'.
Proof using K.
  intros Hm Hu. unfold uber_send. destruct (uber_handle_message m u) as [u1 r1] eqn:E1. destruct r1 as [[]|e|f].
  - destruct (handle_keeps _ _ _ _ K _ _ _ _ Hm Hu E1 ltac:(done)) as [Hd Hx]. unfold poll_discovery_flush.
    pose proof (flush_all_keeps _ _ _ _ K waker _ Hd) as Hf. destruct (flush_all waker _) as [ds [r2|]]; intros [= <- <-] _; by split.
  - intros [= <- <-] Hr. by eapply handle_keeps.
  - intros [= <- <-] Hr. by destruct (Hr f).
Qed.

Lemma client_step_keeps e c c' : client_event_ok e → client_ok c → client_step sched e c = Ok c' → client_ok c'.
Proof using K.
  intros He [Hu Hm]. destruct e as [item waker|waker random]; cbn [client_step].
  - unfold feed. destruct (cl_feeding c); [|by intros [= <-]]. destruct (to_uber item) as [m|[]|f] eqn:Em; [|by intros [= <-]].
    destruct (uber_send sched m waker (cl_uber c)) as [u [[]|e|f]] eqn:Es; intros [= <-];
      (split; [eapply (uber_send_keeps _ _ _ _ _ (He m Em) Hu Es); done|done]).
  - unfold await_metainfo. destruct (cl_metainfo c) as [m|] eqn:Ec; [intros [= <-]; split; [done|by rewrite Ec]|].
    intros Hp. bind_inv Hp as [[u r] w] eqn Ep. injection Hp as <-. apply (poll_keeps _ _ _ _ K) in Ep as [Hu' Ho]; [|done].
    split; [done|]. cbn [cl_metainfo]. intros m. destruct r as [[[[o|[| |m']]|e|f]|]|]; try done. intros [= <-]. by eapply Ho.
Qed.

Lemma client_run_keeps es : ∀ c c', Forall client_event_ok es → client_ok c → client_run sched es c = Ok c' → client_ok c'.
Proof using K.
  induction es as [|e es IH]; intros c c' He Hc; cbn [client_run]; [by intros [= <-]|]. apply Forall_cons in He as [He Hes].
  intros Hr. bind_inv Hr as c1 eqn E1. by eapply IH, Hr; [|eapply client_step_keeps].
Qed.

Lemma client_start_keeps info_hash waker c : P UtMetadataModule_new → item_ok (DownloadMetainfo info_hash) →
  client_start sched info_hash waker = Ok (Some c) → client_ok c.
Proof using K.
  intros Hn Hi. unfold client_start. destruct (uber_send sched _ _ _) as [u [[]|e|f]] eqn:Es; [|done..]. intros [= <-].
  split; [|done]. eapply (uber_send_keeps _ _ _ _ _ (Hi : message_ok item_ok theirs_ok (UbDiscovery (DownloadMetainfo info_hash)))); [|exact Es|done]. split; [by apply Forall_singleton|].
  intros x [= <-] k e m Hk. done.
Qed.
End Keeps.

(** The metainfo the program ends with is that of the info hash it was given, if
    peers tell the size and send pieces of its metadata. *)
Theorem metainfo_asked_for `{HashOrder} `{Sha1} sched (meta : ShaHash → bytes) info_hash waker es c0 c m :
  let meta_of h := Some (meta h) in
  Forall (client_event_ok (ut_item_ok meta_of (λ h, h = info_hash)) (ut_theirs_ok meta_of)) es →
  client_start sched info_hash waker = Ok (Some c0) → client_run sched es c0 = Ok c → cl_metainfo c = Some m →
  ∃ info, Info_from_bytes (meta info_hash) = Ok info ∧ m = Metainfo_from info.
Proof.
  intros meta_of He Hs Hr Hm. pose proof (ut_keeps sched meta_of (λ h, h = info_hash)) as K.
  apply (client_start_keeps _ _ _ _ _ K) in Hs; [|apply new_inv|by split; [|intros h [= <-]]].
  apply (client_run_keeps _ _ _ _ _ K) in Hr as [_ Ho]; [|done|done]. specialize (Ho m Hm m eq_refl) as (h & -> & Hd). by apply Hd.
Qed.

(** * Without extended messages *)

(** No peer is known and no download has begun. *)
Definition idle (s : UtMetadataModule) : Prop :=
  um_active_peers s = ∅ ∧ ∀ h o, um_pending_map s !! h = Some o → o = None.

Definition not_metadata (m : ODiscoveryMessage) : Prop :=
  match m with DownloadedMetainfo _ | SendUtMetadataMessage _ (UtRequest _) => False | _ => True end.

Section Idle.
Context `{HashOrder} `{Sha1} (sched : list actor).

Lemma idle_keep s s' : idle s → um_active_peers s' = um_active_peers s → um_pending_map s' = um_pending_map s → idle s'.
Proof using. intros [Ha Hp] E1 E2. split; [by rewrite E1|by rewrite E2]. Qed.

Lemma idle_find s f : idle s → (∀ h, f (h, None) = false) → List.find f (hash_iter (um_pending_map s)) = None.
Proof using.
  intros [_ Hp] Hf. destruct (List.find f _) as [[h o]|] eqn:E; [|done]. apply find_entry in E as [E Ef].
  rewrite (Hp h o E), Hf in Ef. done.
Qed.

Lemma idle_retain duration s kept peers pending : idle s → ∀ requests,
  retain_requests duration requests (um_active_peers s) (um_pending_map s) = (kept, peers, pending) →
  peers = um_active_peers s ∧ pending = um_pending_map s.
Proof using.
  intros [Ha Hp] requests. revert kept. induction requests as [|r requests IH]; intros kept; cbn [retain_requests]; [by intros [= <- <- <-]|].
  destruct (_ <? _)%Z.
  - unfold expire. rewrite Ha, lookup_empty. destruct (um_pending_map s !! _) as [[p|]|] eqn:E; [by specialize (Hp _ _ E)|..].
    all: rewrite <- Ha; apply IH.
  - destruct (retain_requests duration requests _ _) as [[k p] q]. intros [= <- <- <-]. by eapply IH.
Qed.

Lemma idle_update info e s s' : ei_theirs e = None → idle s → ut_on_update info e s = Ok s' → idle s'.
Proof using.
  intros He Hs. assert (ut_add_peer info e s = s) as Ea by (unfold ut_add_peer; rewrite He; by destruct (supports_ut _)).
  unfold ut_on_update, check_stream_unblock. rewrite Ea. destruct (validate_downloaded s) as [s1 a1] eqn:Ev. intros Hi.
  bind_inv Hi as [s2 a2] eqn Ei. injection Hi as <-. assert (Hs2 : idle s2); [|by destruct (_ || _)].
  assert (Hs1 : idle s1).
  { unfold validate_downloaded in Ev. destruct (validate_entries _ _ _) as [pending a] eqn:E. injection Ev as <- <-. destruct Hs as [Ha Hp].
    split; [done|]. cbn [um_pending_map set_pending_map set_download]. intros h o.
    destruct (validate_entries_spec _ _ _ _ _ (hash_iter_nodup _) (λ h o, proj1 (hash_iter_elem _ h o)) E h) as [->|(p & Eh & _)]; [by apply Hp|].
    by specialize (Hp _ _ Eh). }
  unfold initialize_pending in Ei. bind_inv Ei as [pending a] eqn E. injection Ei as <- <-. destruct Hs1 as [Ha Hp].
  split; [done|]. cbn [um_pending_map set_pending_map set_download]. intros h o.
  destruct (initialize_entries_spec _ _ _ _ _ _ (hash_iter_nodup _) (λ h o, proj1 (hash_iter_elem _ h o)) E h) as [->|(act & p & _ & Eh & _)];
    [by apply Hp|]. by rewrite Ha, lookup_empty in Eh.
Qed.

Lemma idle_send item s s' r : idle s → ut_start_send sched item s = (s', r) → idle s'.
Proof using.
  intros Hs. destruct item as [[m|m|p|p|d]|h|p [q|data|q]]; cbn [ut_start_send].
  - unfold ut_add_torrent. destruct (_ !! _); [by intros [= <- <-]|]. destruct (Info_to_bytes _ _); by intros [= <- <-].
  - unfold ut_remove_torrent. destruct (_ !! _); by intros [= <- <-].
  - by intros [= <- <-].
  - intros [= <- <-]. unfold ut_remove_peer. by rewrite (proj1 Hs), lookup_empty.
  - intros [= <- <-]. unfold apply_tick. destruct (retain_requests _ _ _ _) as [[kept peers] pending] eqn:E.
    apply idle_retain in E as [-> ->]; [|done]. by eapply idle_keep.
  - intros [= <- <-]. unfold download_metainfo. destruct (_ !! h) eqn:E; [done|]. destruct Hs as [Ha Hp]. split; [done|].
    cbn [um_pending_map set_pending_map set_download]. intros h' o [[_ <-]|[_ Ho]]%lookup_insert_Some; [done|by eapply Hp].
  - intros [= <- <-]. unfold recv_request. by destruct (_ <? _).
  - unfold recv_data. destruct (iter_position _ _) as [i|]; [|by intros [= <- <-]]. cbn [um_pending_map set_download].
    destruct (um_pending_map s !! pi_hash p) as [[x|]|] eqn:E; [by apply (proj2 Hs) in E|..]; intros [= <- <-]; by eapply idle_keep.
  - by intros [= <- <-].
Qed.

Lemma idle_poll waker random s s' o : idle s → ut_poll_next waker random s = Ok (s', o) → idle s' ∧ ∀ m, o = Some m → not_metadata m.
Proof using.
  intros Hs. unfold ut_poll_next.
  assert (retrieve_completed_download (size (um_pending_map s)) s = Ok (s, None)) as ->.
  { destruct (size _); cbn [retrieve_completed_download]; [done|]. by rewrite idle_find. }
  rewrite bind_Ok. assert (retrieve_piece_request random s = Ok (s, None)) as ->.
  { unfold retrieve_piece_request. by rewrite idle_find. }
  rewrite !bind_Ok. intros Hr. bind_inv Hr as [s1 o1] eqn E1. unfold retrieve_piece_response in E1.
  bind_inv E1 as [requests o2] eqn E2. injection E1 as <- <-. unfold check_sink_unblock in Hr. destruct o2 as [m|].
  - destruct (answer_requests_message _ _ _ _ E2) as (q & d & ->). injection Hr as <- <-. split; [by destruct (negb _)|]. by intros m [= <-].
  - injection Hr as <- <-. split; [by destruct (negb _)|done].
Qed.

Lemma idle_keeps : discovery_keeps (Discovery0 := ut_discovery sched) idle (λ _, True) (λ _ _, False) not_metadata.
Proof using.
  split.
  - intros info e d d' He. apply idle_update. destruct (ei_theirs e) as [m|]; [by destruct (He m)|done].
  - intros item d d' r _ Hd Hr _. exact (idle_send _ _ _ _ Hd Hr).
  - by intros waker d d' r Hd [= <- <-].
  - intros waker random d d' r Hd Hp. cbn in Hp. bind_inv Hp as [d1 o] eqn Ep. injection Hp as <- <-.
    apply idle_poll in Ep as [Hd1 Ho]; [|done]. split; [done|]. destruct o; [|done]. intros m [= <-]. by apply Ho.
Qed.
End Idle.

(** * The whole program *)

Section Program.
Context `{HashOrder} `{Sha1} `{Nom} `{ByteOrder} (sched : list actor).

(** A message of a peer comes out of the codec of its connection. *)
Definition off_the_wire (e : client_event) : Prop :=
  match e with
  | ClItem (Some (Ok (ReceivedMessage _ m))) _ => ∃ c c' src src', codec_decode (P := PeerWireProtocol (PeerExtensionProtocol NullProtocol)) c src = (c', src', Ok (Some m))
  | _ => True
  end.
Definition received (e : client_event) : Prop := match e with ClItem (Some (Ok (ReceivedMessage _ _))) _ => True | _ => False end.

Lemma wire_no_message item : off_the_wire item → received item → ∃ f, match item with ClItem i _ => to_uber i | _ => Panic AssertFailed end = Panic f.
Proof using.
  destruct item as [[[[]| |]|] waker|]; try done. intros (c & c' & src & src' & Hd) _. apply decoded_keep_alive in Hd as ->. by eexists.
Qed.

Lemma wire_event_ok e : off_the_wire e → client_event_ok (λ _, True) (λ _ _, False) e.
Proof using.
  destruct e as [item waker|]; [|done]. intros Hw m Hm. destruct item as [[[info|info|info mid|info msg|info]|e|f]|].
  4: by destruct (wire_no_message _ Hw I) as [f Hf]; rewrite Hm in Hf.
  all: repeat match goal with e : PeerManagerOutputError |- _ => destruct e end; first [done|by injection Hm as <-].
Qed.

Lemma feeding_over es : ∀ c c', cl_feeding c = false → client_run sched es c = Ok c' → cl_feeding c' = false.
Proof using.
  induction es as [|e es IH]; intros c c' Hc; cbn [client_run]; [by intros [= <-]|]. intros Hr. bind_inv Hr as c1 eqn E1.
  apply (IH c1 c'); [|done]. destruct e as [item waker|waker random]; cbn [client_step] in E1.
  - unfold feed in E1. rewrite Hc in E1. by injection E1 as <-.
  - unfold await_metainfo in E1. destruct (cl_metainfo c); [by injection E1 as <-|]. bind_inv E1 as [[u r] w] eqn Ep. by injection E1 as <-.
Qed.

Lemma feeding_ends es : ∀ c c', Forall off_the_wire es → Exists received es → client_run sched es c = Ok c' → cl_feeding c' = false.
Proof using.
  induction es as [|e es IH]; intros c c' Hw Hx; cbn [client_run]; [by apply Exists_nil in Hx|]. intros Hr. bind_inv Hr as c1 eqn E1.
  apply Forall_cons in Hw as [He Hw]. apply Exists_cons in Hx as [Hx|Hx]; [|by eapply IH].
  apply (feeding_over es c1); [|done]. destruct (wire_no_message _ He Hx) as [f Hf]. destruct e as [item waker|]; [|done].
  cbn [client_step] in E1. unfold feed in E1. destruct (cl_feeding c) eqn:Ec; [|by injection E1 as <-]. rewrite Hf in E1. by injection E1 as <-.
Qed.

(** Whatever the peers send and in whatever order the tasks run, the program does
    not get the metadata: what a peer sends is decoded as a keep-alive, for which
    the task that feeds the module has no case, so the first message ends it. *)
Theorem metadata_never_obtained info_hash waker es c0 c :
  client_start sched info_hash waker = Ok (Some c0) → Forall off_the_wire es → client_run sched es c0 = Ok c →
  cl_metainfo c = None ∧ (Exists received es → cl_feeding c = false).
Proof using.
  intros Hs Hw Hr. split; [|intros Hx; by eapply feeding_ends].
  apply (client_start_keeps _ _ _ _ _ (idle_keeps sched)) in Hs; [|by split|done].
  apply (client_run_keeps _ _ _ _ _ (idle_keeps sched)) in Hr as [_ Ho]; [| |done].
  - destruct (cl_metainfo c) as [m|]; [by destruct (Ho m)|done].
  - eapply Forall_impl; [exact Hw|]. apply wire_event_ok.
Qed.
End Program.

(** * What goes to the peers *)

Section Quiet.
Context {M : Type} `{!ManagedMessage M} `{HashOrder}.

Definition quiet_out (o : @output M) : Prop := match o with Ok (SentMessage _ _) => False | _ => True end.
Definition quiet_state (s : @task_state M) : Prop :=
  match s with TSend o _ => quiet_out o | TWire m told => m = managed_keep_alive ∧ told = None | _ => True end.
Definition quiet_task (t : @peer_task M) : Prop :=
  quiet_state (tk_state t) ∧ tk_inbox t = [] ∧ Forall (λ m, m = managed_keep_alive) (tk_wire t).
Definition quiet (s : @PeerManager M) : Prop :=
  Forall quiet_task (pm_tasks s) ∧ Forall quiet_out (pm_res s) ∧ ∀ o, pm_opt_pending s = Some o → quiet_out o.

Definition adds_peers (e : pm_event (Message := M)) : Prop := match e with EvSend _ _ _ item => ∃ info, item = Ok (AddPeer info) | _ => True end.

(** A poll of the streams of [t] leaves [t'] and gives [r]. *)
Definition quiet_poll (t t' : @peer_task M) (r : poll (res MergedError UnifiedItem)) : Prop :=
  tk_inbox t' = tk_inbox t ∧ tk_wire t' = tk_wire t ∧ tk_state t' = tk_state t ∧
  ∀ x, r = Ready x → quiet_state (handle_stream_result x (tk_info t')).

Lemma manager_quiet now t t' r : tk_inbox t = [] → poll_manager now t = (t', r) → quiet_poll t t' r.
Proof using.
  intros Hi. unfold poll_manager. rewrite Hi. cbn [poll_queue]. unfold quiet_poll. rewrite Hi.
  destruct (tk_closed t); cbn [map_ready fmap option_fmap option_map].
  - cbn. intros [= <- <-]. split_and!; try done. by intros x [= <-].
  - unfold RecurringTimeoutStream_poll_next. destruct (_ <? now)%Z; intros [= <- <-]; split_and!; try done. by intros x [= <-].
Qed.

Lemma peer_quiet (t t' : @peer_task M) r : poll_peer t = (t', r) → quiet_poll t t' r.
Proof using.
  unfold poll_peer, poll_queue, quiet_poll. destruct (tk_incoming t) as [|[m|e|f] l]; [destruct (tk_ended t)|..]; cbn;
    intros [= <- <-]; split_and!; try done; by intros x [= <-].
Qed.

Lemma quiet_poll_trans t t' t'' r : quiet_poll t t' Pending → quiet_poll t' t'' r → quiet_poll t t'' r.
Proof using. intros (P1 & P2 & P3 & _) (Q1 & Q2 & Q3 & Q4). split_and!; [by rewrite Q1|by rewrite Q2|by rewrite Q3|done]. Qed.

Lemma merged_quiet peer_first now t t' r : tk_inbox t = [] → poll_merged peer_first now t = (t', r) → quiet_poll t t' r.
Proof using.
  intros Hi. unfold poll_merged. destruct peer_first.
  - destruct (poll_peer t) as [t1 r1] eqn:E1. apply peer_quiet in E1. destruct r1 as [x|]; [by intros [= <- <-]|].
    intros Hq. apply (quiet_poll_trans _ t1); [done|]. apply (manager_quiet now); [|done]. destruct E1 as (-> & _). done.
  - destruct (poll_manager now t) as [t1 r1] eqn:E1. apply manager_quiet in E1; [|done]. destruct r1 as [x|]; [by intros [= <- <-]|].
    intros Hq. apply (quiet_poll_trans _ t1); [done|]. by apply peer_quiet.
Qed.

Lemma task_quiet peer_first now ch w t t' o : quiet_task t → task_poll peer_first now ch w t = (t', o) →
  quiet_task t' ∧ ∀ x, o = Some x → quiet_out x.
Proof using.
  intros (Hs & Hi & Hw). unfold task_poll. destruct (tk_state t) as [|x go_on|m told|] eqn:Es.
  - destruct (poll_merged peer_first now t) as [t1 r] eqn:E1. apply merged_quiet in E1 as (P1 & P2 & P3 & P4); [|done].
    destruct r as [x|]; intros [= <- <-]; (split; [|done]).
    + split_and!; cbn; [by apply P4|by rewrite P1|by rewrite P2].
    + split_and!; [by rewrite P3, Es|by rewrite P1|by rewrite P2].
  - assert (Hk : ∀ y, quiet_state y → quiet_task (set_state y t)) by (intros y Hy; by split_and!).
    destruct ch; intros [= <- <-]; split; try done; try by apply Hk.
    + apply Hk. by destruct go_on.
    + by intros ? [= <-].
    + split_and!; [by rewrite Es|done|done].
  - destruct Hs as [-> ->]. destruct w; intros [= <- <-]; (split; [|done]).
    + split_and!; cbn; [done|done|]. apply Forall_app. split; [done|]. by apply Forall_singleton.
    + split_and!; [by rewrite Es|done|done].
    + by split_and!.
  - intros [= <- <-]. split; [|done]. split_and!; [by rewrite Es|done|done].
Qed.

Lemma alter_quiet (f : @peer_task M → peer_task) id l : (∀ t, quiet_task t → quiet_task (f t)) → Forall quiet_task l → Forall quiet_task (alter f id l).
Proof using. intros Hf Hl. apply Forall_alter; [done|]. intros t _. apply Hf. Qed.

Lemma arrive_quiet items ended t : quiet_task t → quiet_task (arrive items ended t).
Proof using. unfold arrive. by destruct (tk_ended t). Qed.

Lemma close_quiet senders l : Forall quiet_task l → Forall quiet_task (close_senders senders l).
Proof using.
  unfold close_senders. revert l. induction senders as [|id senders IH]; intros l Hl; cbn [foldl]; [done|]. apply IH. by apply alter_quiet.
Qed.

Lemma take_quiet locked info missing s s' r : quiet s → take_peer locked info missing s = (s', r) →
  quiet s' ∧ ∀ o, r = Ready (Some o) → quiet_out o.
Proof using.
  intros (H1 & H2 & H3). unfold take_peer. destruct locked; [by intros [= <- <-]|]. destruct (_ !! _) as [id|]; intros [= <- <-].
  - split; [|by intros o [= <-]]. split_and!; try done. by apply alter_quiet.
  - split; [done|]. by intros o [= <-].
Qed.

Lemma poll_next_quiet locked s s' r : quiet s → pm_poll_next locked s = (s', r) → quiet s' ∧ ∀ o, r = Ready (Some o) → quiet_out o.
Proof using.
  intros Hs. unfold pm_poll_next.
  assert (Hq : ∀ o s1, quiet s1 → quiet_out o →
    match o with
    | Err (PeerError info e) => take_peer locked info (PeerErrorAndMissing info (Some (PeerError info e))) s1
    | Err err => (s1, Ready (Some (Err err)))
    | Ok (PeerRemoved info) => take_peer locked info (PeerRemovedAndMissing info) s1
    | Ok (PeerDisconnect info) => take_peer locked info (PeerDisconnectedAndMissing info) s1
    | Ok msg => (s1, Ready (Some (Ok msg)))
    | Panic f => (s1, Ready (Some (Panic f)))
    end = (s', r) → quiet s' ∧ ∀ o, r = Ready (Some o) → quiet_out o).
  { intros o s1 Hs1 Ho. destruct o as [[]|[]|]; try (by apply take_quiet); intros [= <- <-]; (split; [done|by intros ? [= <-]]). }
  destruct Hs as (H1 & H2 & H3). destruct (pm_opt_pending s) as [o|] eqn:Ep.
  - apply Hq; [|by apply H3]. by split_and!.
  - destruct (pm_res s) as [|o l] eqn:Er.
    + intros [= <- <-]. split; [|done]. split_and!; [done|by rewrite Er|by rewrite Ep].
    + apply Forall_cons in H2 as [Ho Hl]. apply Hq; [|done]. by split_and!.
Qed.

Lemma step_quiet e s s' o : adds_peers e → quiet s → pm_step e s = (s', o) → quiet s' ∧ ∀ x, o = Some x → quiet_out x.
Proof using.
  intros He Hs. pose proof Hs as (H1 & H2 & H3). destruct e as [locked full now item|id pf now ch w|id m|id x|id|locked|locked]; cbn [pm_step].
  - destruct He as [info ->]. cbn [pm_handle_message]. unfold pm_add_peer. destruct locked; [by intros [= <- <-]|].
    destruct (_ <=? _); [by intros [= <- <-]|]. destruct (_ !! _); intros [= <- <-]; (split; [|done]); [done|].
    split_and!; try done. cbn. apply Forall_app. split; [done|]. apply Forall_singleton. by split_and!.
  - destruct (pm_tasks s !! id) as [t|] eqn:Et; [|by intros [= <- <-]]. destruct (task_poll pf now ch w t) as [t1 o1] eqn:E1.
    intros [= <- <-]. apply task_quiet in E1 as [Ht Ho]; [|by eapply Forall_lookup_1]. split; [|done]. split_and!; cbn; [by apply Forall_insert| |done].
    apply Forall_app. split; [done|]. destruct o1; [|done]. apply Forall_singleton. by apply Ho.
  - intros [= <- <-]. split; [|done]. split_and!; try done. apply alter_quiet; [apply arrive_quiet|done].
  - intros [= <- <-]. split; [|done]. split_and!; try done. apply alter_quiet; [apply arrive_quiet|done].
  - intros [= <- <-]. split; [|done]. split_and!; try done. apply alter_quiet; [apply arrive_quiet|done].
  - destruct (pm_poll_next locked s) as [s1 r] eqn:E1. intros [= <- <-]. apply poll_next_quiet in E1 as [Hs1 Ho]; [|done].
    split; [done|]. destruct r as [o1|]; [|done]. intros x ->. by apply Ho.
  - unfold pm_poll_close. destruct locked; [by intros [= <- <-]|]. destruct (join_tasks _ _) as [q r]. intros [= <- <-]. split; [|done].
    split_and!; try done. by apply close_quiet.
Qed.

Lemma run_quiet es : ∀ s, Forall adds_peers es → quiet s → quiet (pm_run es s).1 ∧ Forall quiet_out (pm_run es s).2.
Proof using.
  induction es as [|e es IH]; intros s He Hs; cbn [pm_run]; [done|]. apply Forall_cons in He as [He Hes].
  destruct (pm_step e s) as [s1 o] eqn:E1. apply step_quiet in E1 as [Hs1 Ho]; [|done|done]. specialize (IH s1 Hes Hs1).
  destruct (pm_run es s1) as [s2 os]. destruct IH as [IH1 IH2]. split; [done|]. apply Forall_app. split; [|done].
  destruct o as [x|]; [|done]. apply Forall_singleton. by apply Ho.
Qed.
End Quiet.

(** The peers given to the manager are those whose handshake has the extension
    bit, in order, up to the first that has not. *)
Lemma feed_peers_adds {E} (items : list (res E CompleteMessage * bool)) m : m ∈ (feed_peers items).1 →
  ∃ info, m = AddPeer info ∧ Extensions_contains (pi_ext info) ExtensionProtocol = true.
Proof.
  induction items as [|[item accepted] items IH]; cbn [feed_peers]; [intros Hm; by apply not_elem_of_nil in Hm|].
  destruct (add_peer_message item) as [x|[]|f] eqn:Ex; [|intros Hm; by apply not_elem_of_nil in Hm].
  destruct accepted; [|intros Hm; by apply not_elem_of_nil in Hm]. destruct (feed_peers items) as [sent r].
  intros [->|Hm]%elem_of_cons; [|by apply IH]. unfold add_peer_message in Ex. bind_inv Ex as message eqn Em.
  destruct (Extensions_contains (cm_ext message) ExtensionProtocol) eqn:Ee; [|done]. injection Ex as <-. by eexists.
Qed.

(** Whatever handshakes are done and however the tasks run, a peer is sent nothing
    but keep-alives, so no extended message and no request for metadata; and no
    message is reported as sent, for which the program has no case. *)
Theorem peers_sent_keep_alives `{HashOrder} {E} (items : list (res E CompleteMessage * bool)) (es : list (pm_event (Message := Message))) s os :
  (∀ locked full now item, EvSend locked full now item ∈ es → ∃ m, item = Ok m ∧ m ∈ (feed_peers items).1) →
  pm_run es (PeerManager_from_builder PeerManagerBuilder_new) = (s, os) →
  (∀ t, t ∈ pm_tasks s → Forall (λ m, m = KeepAlive) (tk_wire t)) ∧
  ∀ info mid, Ok (SentMessage info mid) ∉ os.
Proof.
  intros Hs Hr. destruct (run_quiet es (PeerManager_from_builder PeerManagerBuilder_new)) as [(Ht & _) Ho].
  - apply Forall_forall. intros e He. destruct e as [locked full now item|id pf now ch w|id m|id x|id|locked|locked]; try done.
    destruct (Hs _ _ _ _ He) as (m & -> & Hm). apply feed_peers_adds in Hm as (info & -> & _). by exists info.
  - by split_and!.
  - rewrite Hr in Ht, Ho. cbn [fst snd] in *. split.
    + intros t Hin. by apply (proj1 (Forall_forall _ _) Ht).
    + intros info mid Hin. by apply (proj1 (Forall_forall _ _) Ho) in Hin.
Qed.

(** * Runs *)

Definition sample_message : ExtendedMessage :=
  default (ExtendedMessage_from_builder (H := hash_order_lists) ExtendedMessageBuilder_new) (ei_theirs sample_extended).

(** A run with messages the codec would not give. *)
Definition sample_client : list client_event :=
  [ClItem (Some (Ok (PeerAdded sample_peer))) 0; ClPoll 0 0;
   ClItem (Some (Ok (ReceivedMessage sample_peer (BitsExtension (Extended sample_message))))) 0; ClPoll 0 0; ClItem None 0;
   ClItem (Some (Ok (ReceivedMessage sample_peer (ProtExtension (inr (PeUtMetadata (UtData (first_piece sample_metadata)))))))) 0; ClPoll 0 0].

Definition sample_client_run : res Empty_set (option metadata_client) :=
  let start := client_start (H := hash_order_lists) (H0 := toy_sha1) [] {| hash := [1%Z] |} 0 in
  o ← start;
  match o with
  | Some c => c ← client_run (H := hash_order_lists) (H0 := toy_sha1) [] sample_client c; Ok (Some c)
  | None => Ok None
  end.

Lemma metainfo_asked_for_witness : ∃ c m info, sample_client_run = Ok (Some c) ∧ cl_metainfo c = Some m ∧
  Info_from_bytes (H := toy_sha1) sample_metadata = Ok info ∧ m = Metainfo_from info.
Proof.
  assert (Hv : match sample_client_run with Ok (Some c) => match cl_metainfo c with Some _ => true | None => false end | _ => false end = true)
    by (vm_compute; reflexivity).
  unfold sample_client_run in *. cbv zeta in *. destruct (client_start _ _ _) as [[c0|]|e|f] eqn:E0; try discriminate Hv.
  rewrite bind_Ok in *. destruct (client_run _ _ c0) as [c|e|f] eqn:E1; try discriminate Hv.
  rewrite bind_Ok in *. exists c. destruct (cl_metainfo c) as [m|] eqn:Em; try discriminate Hv.
  exists m. destruct (metainfo_asked_for (H := hash_order_lists) (H0 := toy_sha1) [] (λ _, sample_metadata) {| hash := [1%Z] |} 0 sample_client c0 c m)
    as (info & Hi & Hm); [|exact E0|exact E1|exact Em|exists info; by split_and!].
  unfold sample_client. repeat apply Forall_cons_2; try exact I; try (intros x [= <-]); try exact I; try (split; [exact I|by intros h [=]]).
  - intros n [= <-]. split; [by vm_compute|]. intros d [= <-]. reflexivity.
  - split; [|by intros h [=]]. intros d [= <-]. by vm_compute.
  - by constructor.
Defined.

(** A peer that sends a frame. *)
Definition keep_alive_client : list client_event :=
  [ClItem (Some (Ok (PeerAdded sample_peer))) 0; ClItem (Some (Ok (ReceivedMessage sample_peer KeepAlive))) 0; ClPoll 0 0].

Definition small_codec : PeerProtocolCodec (PeerWireProtocol (PeerExtensionProtocol NullProtocol)) :=
  with_max_payload (PeerWireProtocol_new (PeerExtensionProtocol_new NullProtocol_new)) 16.

Lemma metadata_never_obtained_witness : ∃ c0 c,
  client_start (H := hash_order_lists) (H0 := toy_sha1) [] {| hash := [1%Z] |} 0 = Ok (Some c0) ∧
  client_run (H := hash_order_lists) (H0 := toy_sha1) [] keep_alive_client c0 = Ok c ∧ cl_metainfo c = None ∧ cl_feeding c = false.
Proof.
  assert (Hv : match client_start (H := hash_order_lists) (H0 := toy_sha1) [] {| hash := [1%Z] |} 0 with
    | Ok (Some c) => match client_run (H := hash_order_lists) (H0 := toy_sha1) [] keep_alive_client c with Ok _ => true | _ => false end
    | _ => false end = true) by (vm_compute; reflexivity).
  destruct (client_start (H := hash_order_lists) (H0 := toy_sha1) [] {| hash := [1%Z] |} 0) as [[c0|]|e|f] eqn:E0; try discriminate Hv.
  destruct (client_run (H := hash_order_lists) (H0 := toy_sha1) [] keep_alive_client c0) as [c|e|f] eqn:E1; try discriminate Hv.
  exists c0, c. split; [exact eq_refl|]. split; [exact E1|].
  destruct (metadata_never_obtained (H := hash_order_lists) (H0 := toy_sha1) (H1 := nom_lists) (H2 := byteorder_lists) []
    {| hash := [1%Z] |} 0 keep_alive_client c0 c E0) as [Hm Hf]; [|exact E1|].
  - unfold keep_alive_client. repeat apply Forall_cons_2; try exact I; [|by constructor].
    exists small_codec, small_codec, (frame (H := byteorder_lists) [0%Z]), []. by vm_compute.
  - split; [exact Hm|]. apply Hf. right. left. exact I.
Defined.

Definition sample_handshake : res () CompleteMessage :=
  Ok {| cm_prot := Handshake.BitTorrent; cm_ext := Extensions_add Extensions_new ExtensionProtocol; cm_hash := {| hash := [1%Z] |};
        cm_pid := {| hash := [7%Z] |}; cm_addr := default_route_v4 |}.
Definition sample_added : PeerInfo :=
  PeerInfo_new default_route_v4 [7%Z] {| hash := [1%Z] |} (Extensions_add Extensions_new ExtensionProtocol).

(** The peer is added, is silent, and gets a keep-alive. *)
Definition sample_manager : list (pm_event (Message := Message)) :=
  [EvSend false false 0 (Ok (AddPeer sample_added)); EvTask 0 true 0 ChRoom WSent; EvPoll false; EvTask 0 true 1000000 ChRoom WSent;
   EvTask 0 true 1000000 ChRoom WSent].

Lemma peers_sent_keep_alives_witness :
  let r := pm_run (H := hash_order_lists) sample_manager (PeerManager_from_builder PeerManagerBuilder_new) in
  tk_wire <$> pm_tasks r.1 = [[KeepAlive]] ∧ ∀ info mid, Ok (SentMessage info mid) ∉ r.2.
Proof.
  intros r. split; [by vm_compute|]. destruct r as [s os] eqn:E. unfold r in E.
  apply (peers_sent_keep_alives (H := hash_order_lists) [(sample_handshake, true)] sample_manager s os); [|exact E].
  intros locked full now item Hin. exists (AddPeer sample_added). unfold sample_manager in Hin.
  repeat (apply elem_of_cons in Hin as [Hin|Hin]); try discriminate Hin; [|by apply not_elem_of_nil in Hin].
  injection Hin as _ _ _ ->. split; [exact eq_refl|]. by left.
Defined.
