(* ===== verification/PackageExamples.v ===== *)
(** The example programs of three packages: disk/examples/add_torrent.rs, which
    allocates the files of a torrent and counts its good pieces,
    handshake/examples/handshake_torrent.rs, which shakes hands with one peer, and
    metainfo/examples/create_torrent.rs, which makes a torrent file and prints
    what is in it.  A line of the input, a file and what an address resolves to
    are arguments; prompts and the progress bar are left out. *)

From stdpp Require Import base numbers strings gmap list.
From S2P Require Import DhtMessageProps Handshake Framed Handler Handshaker Prelude RustStd Extern Io Convert Sha Hex Path Bencode Metainfo Float Hasher HasherProps MetaBuild MetaProps MetaCreate Disk DiskFs DiskProps DiskCheck DiskAdd DiskExamples Magnet.

(** * disk/examples/add_torrent.rs *)

(** The loop over what the disk manager gives: the hash and the number of good
    pieces, or [None] if the stream ends. *)
Fixpoint await_added (messages : list (res () ODiskMessage)) (good_pieces : nat) : res Empty_set (option (ShaHash * nat)) :=
  match messages with
  | [] => Ok None
  | recv_msg :: messages =>
      message ← expect recv_msg;
      match message with
      | TorrentAdded h => Ok (Some (h, good_pieces))
      | FoundGoodPiece _ _ => await_added messages (S good_pieces)
      | _ => Panic AssertFailed
      end
  end.

(** The program: the task of the disk manager runs to its end before the loop. *)
Definition add_torrent_main {S F} `{!FileSystem S F} `{HashOrder} `{Sha1} (torrent : res io_error bytes) (filesystem : S)
    : res Empty_set (@DiskManagerContext S * option (ShaHash * nat)) :=
  torrent_bytes ← expect torrent;
  metainfo_file ← expect (Metainfo_from_bytes torrent_bytes);
  let '(c, _) := execute (AddTorrent metainfo_file) (DiskManagerContext_new filesystem) in
  o ← await_added (Ok <$> dc_out c) 0;
  Ok (c, o).

Lemma await_good h goods messages n :
  await_added (Ok <$> (FoundGoodPiece h <$> goods) ++ TorrentAdded h :: messages) n = Ok (Some (h, n + length goods)).
Proof.
  revert n. induction goods as [|i goods IH]; intros n; [cbn; by rewrite Nat.add_0_r|].
  cbn [fmap list_fmap app await_added expect length]. rewrite bind_Ok, IH. do 3 f_equal. lia.
Qed.

(** On files that are absent, empty or of their length the program does not panic:
    it ends with the torrent added, and the pieces it counts are those on disk
    with their hash. *)
Theorem add_torrent_counts {S F} `{!FileSystem S F} `{!FsLaws S F} `{HashOrder} `{Sha1} (torrent : bytes) metainfo (filesystem : S) :
  let info := m_info metainfo in
  Metainfo_from_bytes torrent = Ok metainfo → torrent_wf info → fs_inv filesystem →
  Forall (compatible info (fs_view filesystem)) (i_files info) →
  ∃ c goods, add_torrent_main (Ok torrent) filesystem = Ok (c, Some (i_info_hash info, length goods)) ∧
    (∀ i, i ∈ goods → piece_matches info (fs_view (dc_fs c)) i) ∧
    ∀ i, (0 ≤ i < Z.of_nat (length (i_pieces info)))%Z → piece_matches info (fs_view (dc_fs c)) i → i ∈ goods.
Proof.
  intros info Hp Hwf Hi Hc.
  destruct (add_torrent_effect (DiskManagerContext_new filesystem) metainfo) as (c & state & goods & E & Ho & _ & _ & _ & _ & _ & H1 & H2); try done.
  exists c, goods. split; [|done]. unfold add_torrent_main. cbn [expect]. rewrite bind_Ok, Hp. cbn [expect]. rewrite bind_Ok, E, Ho.
  change (dc_out (DiskManagerContext_new filesystem)) with (@nil ODiskMessage). by rewrite app_nil_l, await_good.
Qed.

(** * handshake/examples/handshake_torrent.rs *)

Definition read_line (lines : list (res io_error bytes)) : res io_error bytes * list (res io_error bytes) :=
  match lines with line :: lines => (line, lines) | [] => (Ok [], []) end.

(** The loop over the bytes from [i] on. *)
Fixpoint hex_chunks (n i : nat) (hex : bytes) : res io_error bytes :=
  match n with
  | O => Ok []
  | S n =>
      hex_chunk ← str_slice hex (i * 2) (i * 2 + 2);
      byte ← unwrap (u8_from_str_radix16 hex_chunk);
      rest ← hex_chunks n (S i) hex;
      Ok (byte :: rest)
  end.
Definition hex_to_bytes (hex : bytes) : res io_error bytes := hex_chunks 20 0 hex.

Definition str_to_addr (resolved : res io_error (list SocketAddr)) : res io_error SocketAddr :=
  addrs ← resolved;
  match addrs with addr :: _ => Ok addr | [] => Err IoInvalidInput end.

(** What the handshaker is built from and the message it is sent. *)
Definition handshake_main `{Sha1} (seed : Z) (lines : list (res io_error bytes)) (resolve : bytes → res io_error (list SocketAddr))
    : res io_error (HandshakerBuilder * InitiateMessage) :=
  let '(hex_hash, lines) := read_line lines in
  hex_hash ← hex_hash;
  info_hash ← hex_to_bytes hex_hash;
  let '(address, _) := read_line lines in
  address ← address;
  socket_addr ← str_to_addr (resolve address);
  let peer_id := {| hash := bstr "-UT2060-000000000000" |} in
  Ok (with_peer_id peer_id (HandshakerBuilder_default seed),
      {| im_prot := Handshake.BitTorrent; im_hash := {| hash := info_hash |}; im_addr := socket_addr |}).

Lemma hex_chunks_hex pre l rest : Forall (λ c, 0 ≤ c < 128)%Z (pre ++ hex l ++ rest) → Nat.even (length pre) = true → are_u8 l →
  hex_chunks (length l) (length pre / 2) (pre ++ hex l ++ rest) = Ok l.
Proof.
  intros Hp He Hl. revert pre Hp He. induction Hl as [|b l Hb Hl IH]; intros pre Hp He; [done|].
  apply Nat.even_spec in He as [k Hk]. assert (length pre / 2 = k) as E by (rewrite Hk, Nat.mul_comm; by apply Nat.div_mul).
  cbn [length hex_chunks]. rewrite E. unfold str_slice. rewrite (proj2 (Nat.leb_le _ _)) by lia.
  assert (Hlen : k * 2 + 2 ≤ length (pre ++ hex (b :: l) ++ rest)) by (rewrite !length_app, length_hex; simpl; lia).
  rewrite !boundary_ascii by (done || lia). cbn [andb]. rewrite bind_Ok.
  assert (slice (pre ++ hex (b :: l) ++ rest) (k * 2) (k * 2 + 2) = hex_byte b) as ->.
  { unfold slice. replace (k * 2 + 2 - k * 2) with 2 by lia. replace (k * 2) with (length pre) by lia. by rewrite drop_app_length. }
  rewrite radix16_hex by done. cbn [unwrap]. rewrite bind_Ok.
  assert (pre ++ hex (b :: l) ++ rest = (pre ++ hex_byte b) ++ hex l ++ rest) as Ea by (rewrite hex_cons, <- app_assoc; done).
  rewrite Ea in *. specialize (IH (pre ++ hex_byte b) Hp).
  assert (length (pre ++ hex_byte b) / 2 = S k) as E'.
  { rewrite length_app, Hk. change (length (hex_byte b)) with 2. replace (2 * k + 2) with (S k * 2) by lia. by apply Nat.div_mul. }
  rewrite E' in IH. rewrite IH; [by rewrite bind_Ok|]. rewrite length_app, Hk. change (length (hex_byte b)) with 2.
  apply Nat.even_spec. exists (k + 1). lia.
Qed.

(** The forty digits of an info hash, with anything of ASCII behind them, are read
    as the info hash, and the peer it names is asked for by that hash. *)
Theorem handshake_asked `{Sha1} seed (h rest address : bytes) addr addrs resolve lines :
  are_u8 h → length h = 20 → Forall (λ c, 0 ≤ c < 128)%Z rest → resolve address = Ok (addr :: addrs) →
  ∃ builder, handshake_main seed (Ok (hex h ++ rest) :: Ok address :: lines) resolve =
    Ok (builder, {| im_prot := Handshake.BitTorrent; im_hash := {| hash := h |}; im_addr := addr |}) ∧
    hb_pid builder = {| hash := bstr "-UT2060-000000000000" |}.
Proof.
  intros Hh Hl Hr Ha. unfold handshake_main. cbn [read_line]. rewrite bind_Ok. unfold hex_to_bytes.
  pose proof (hex_chunks_hex [] h rest) as Hx. rewrite Hl in Hx. cbn [length app] in Hx. change (0 / 2) with 0 in Hx. rewrite Hx; [|..|done|done].
  - rewrite !bind_Ok, Ha. unfold str_to_addr. rewrite !bind_Ok. eexists. split; [done|]. done.
  - apply Forall_app. split; [|done]. eapply Forall_impl; [by apply hex_ascii|]. simpl. lia.
Qed.

(** * metainfo/examples/create_torrent.rs *)

Definition create_torrent {A} `{!Accessor A} `{Sha1} (sched : list actor) (src : res io_error A) : res ParseError bytes :=
  builder ← set_created_by MetainfoBuilder_new (Some (bstr "bip_metainfo"));
  builder ← set_comment builder (Some (bstr "Just Some Comment"));
  MetainfoBuilder_build sched builder 2 src.

(** What is printed. *)
Record overview := {
  ov_info_hash : bytes; ov_main_tracker : option bytes; ov_comment : option bytes; ov_creator : option bytes; ov_creation_date : option Z;
  ov_directory : option bytes; ov_piece_length : Z; ov_pieces : nat; ov_files : nat; ov_total : Z
}.

Fixpoint sum_files (files : list File) (acc : Z) : res Empty_set Z :=
  match files with
  | [] => Ok acc
  | nex :: files => if (acc + f_len nex <=? u64_max)%Z then sum_files files (acc + f_len nex)%Z else Panic ArithOverflow
  end.

Definition print_metainfo_overview `{Sha1} (l : bytes) : res Empty_set overview :=
  metainfo ← expect (Metainfo_from_bytes l);
  let info := m_info metainfo in
  total ← sum_files (i_files info) 0;
  Ok {| ov_info_hash := ascii_upper <$> hex (hash (i_info_hash info)); ov_main_tracker := m_announce metainfo;
        ov_comment := m_comment metainfo; ov_creator := m_created_by metainfo; ov_creation_date := m_creation_date metainfo;
        ov_directory := i_file_directory info; ov_piece_length := i_piece_len info; ov_pieces := length (i_pieces info);
        ov_files := length (i_files info); ov_total := total |}.

Definition example_ops : list builder_op := [SetCreatedBy (Some (bstr "bip_metainfo")); SetComment (Some (bstr "Just Some Comment"))].

Lemma sum_files_total files : ∀ acc, (0 ≤ acc)%Z → Forall (λ f, 0 ≤ f_len f)%Z files → (acc + files_total files ≤ u64_max)%Z →
  sum_files files acc = Ok (acc + files_total files)%Z.
Proof.
  induction files as [|f files IH]; intros acc Ha Hf Ht; cbn [sum_files files_total foldr] in *; [by rewrite Z.add_0_r|].
  fold (files_total files) in *. apply Forall_cons in Hf as [Hf Hfs].
  assert (0 ≤ files_total files)%Z.
  { clear -Hfs. induction Hfs as [|g l Hg _ IH]; [done|]. cbn [files_total foldr]. fold (files_total l). lia. }
  rewrite (proj2 (Z.leb_le _ _)) by lia. rewrite IH by (done || lia). f_equal. lia.
Qed.

(** The program makes a torrent of the files it is pointed to and reads it back
    without a panic: what it prints are the comment and the creator it set, no
    tracker and no date, and the number of the files, of their bytes and of their
    pieces. *)
Theorem created_overview {A} `{!Accessor A} `{Sha1} (a : A) files directory regions n rounds :
  gives a files directory regions → determine_piece_length (files_total (new_file <$> files)) OptBalanced = Ok n →
  wf_torrent (torrent_of files directory regions n {| hash := [] |}) → Forall (fair_round 2) rounds →
  hasher_cost (hasher_start (Z.to_nat n) 2 (Compute <$> regions) (Ok ())) < length rounds →
  ∃ l o, create_torrent (concat rounds) (Ok a) = Ok l ∧ print_metainfo_overview l = Ok o ∧
    ov_comment o = Some (bstr "Just Some Comment") ∧ ov_creator o = Some (bstr "bip_metainfo") ∧ ov_main_tracker o = None ∧
    ov_creation_date o = None ∧ ov_directory o = directory ∧ ov_piece_length o = n ∧ ov_files o = length files ∧
    ov_total o = files_total (new_file <$> files) ∧
    ov_pieces o = length (chunks (Z.to_nat n) (concat (region_bytes <$> regions))).
Proof.
  intros Hg Hn Hw Hf Hc.
  assert (Hops : Forall op_ok example_ops).
  { constructor; [split; [small_const|done]|]. constructor; [split; [small_const|done]|constructor]. }
  destruct (created_and_read a example_ops _ files directory regions n 2 rounds Hops eq_refl Hg Hn Hw ltac:(lia) Hf Hc)
    as (l & u & m & H1 & H2 & H3 & _ & H4 & _ & H5 & H6 & H7).
  pose proof (wt_total _ Hw) as Ht. pose proof (wt_lens _ Hw) as Hl. cbn [torrent_of i_files] in Ht, Hl.
  exists l. unfold print_metainfo_overview. rewrite H2. cbn [expect]. rewrite bind_Ok, H3. cbn [torrent_of i_files].
  rewrite sum_files_total by (done || unfold u64_max, i64_max in *; lia). rewrite bind_Ok. eexists. split; [exact H1|]. split; [reflexivity|].
  cbn [ov_comment ov_creator ov_main_tracker ov_creation_date ov_directory ov_piece_length ov_files ov_total ov_pieces torrent_of i_pieces
    i_file_directory i_piece_len]. rewrite !length_fmap. by split_and!.
Qed.

(** * Runs *)

Local Existing Instance toy_sha1.
Local Existing Instance hash_order_lists.

Definition sample_file : bytes := bstr "d8:announce1:x4:infod6:lengthi3e4:name1:a12:piece lengthi4e6:pieces20:aaaaaaaaaaaaaaaaaaaaee".

Lemma add_torrent_counts_witness : ∃ c metainfo goods, Metainfo_from_bytes sample_file = Ok metainfo ∧
  add_torrent_main (S := memory) (Ok sample_file) ∅ = Ok (c, Some (i_info_hash (m_info metainfo), length (A := Z) goods)).
Proof.
  destruct (Metainfo_from_bytes sample_file) as [metainfo|e|f] eqn:E; [|by vm_compute in E..].
  assert (E' := E). vm_compute in E'. destruct (add_torrent_counts (S := memory) sample_file metainfo ∅ E) as (c & goods & Hm & _).
  - injection E' as <-. split; [done| |vm_compute; discriminate|vm_compute; by split; [discriminate|]|by repeat constructor].
    apply (bool_decide_unpack _). by vm_compute.
  - exact I.
  - injection E' as <-. constructor; [|constructor]. split; [done|]. by left.
  - exists c, metainfo, goods. split; [exact eq_refl|exact Hm].
Defined.

Lemma handshake_asked_witness : ∃ builder,
  handshake_main 0 [Ok (hex (replicate 20 171%Z)); Ok (bstr "x:1")] (λ _, Ok [default_route_v4]) =
  Ok (builder, {| im_prot := Handshake.BitTorrent; im_hash := {| hash := replicate 20 171%Z |}; im_addr := default_route_v4 |}).
Proof.
  destruct (handshake_asked 0 (replicate 20 171%Z) [] (bstr "x:1") default_route_v4 [] (λ _, Ok [default_route_v4]) []) as (builder & E & _).
  - apply Forall_replicate. done.
  - done.
  - constructor.
  - done.
  - exists builder. exact E.
Defined.

Lemma sample_created `{Sha1} n : (7 ≤ n < 2 ^ 53)%Z → wf_torrent (torrent_of [(7%Z, bstr "a")] None [cursor sample_contents] n {| hash := [] |}).
Proof.
  intros Hn. assert (chunks (Z.to_nat n) (concat (region_bytes <$> [cursor sample_contents])) = [sample_contents]) as E.
  { change (concat _) with sample_contents. apply chunks_short; [done|]. change (length sample_contents) with 7. lia. }
  split; cbn [torrent_of i_pieces i_piece_len i_files i_file_directory]; rewrite ?E.
  - apply Forall_fmap, Forall_forall. intros l _. apply sha1_length.
  - cbn [fmap list_fmap concat]. rewrite app_nil_r, sha1_length. by vm_compute.
  - lia.
  - by repeat constructor.
  - vm_compute. discriminate.
  - eexists. split; [reflexivity|]. split; [by apply (bool_decide_unpack _)|]. split; [by vm_compute|small_const].
Qed.

Lemma created_overview_witness : ∃ l o,
  create_torrent (concat (replicate 100 (turns 2))) (Ok (DirectAccessor_new (bstr "a") sample_contents)) = Ok l ∧
  print_metainfo_overview l = Ok o ∧ ov_total o = 7%Z ∧ ov_pieces o = 1.
Proof.
  destruct (determine_piece_length 7 OptBalanced) as [n| |] eqn:En; [|by vm_compute in En..].
  assert (Hn : n = 524288%Z) by (vm_compute in En; by injection En as <-).
  destruct (created_overview (DirectAccessor_new (bstr "a") sample_contents) [(7%Z, bstr "a")] None [cursor sample_contents] n
    (replicate 100 (turns 2))) as (l & o & H1 & H2 & _ & _ & _ & _ & _ & _ & _ & H3 & H4).
  - apply direct_gives.
  - exact En.
  - apply sample_created. lia.
  - apply Forall_replicate, turns_fair.
  - rewrite length_replicate. cbn. lia.
  - exists l, o. split_and!; [exact H1|exact H2|exact H3|]. rewrite H4, chunks_short; [reflexivity|done|]. cbn. lia.
Defined.
